(* ===== verification/_CoqProject ===== *)
-Q . S2P
Prelude.v
RustStd.v
Ordering.v
Rounding.v
Float.v
Crs.v
GeoContract.v
ContractTable.v
Assurance.v
TrustPolicy.v
Json.v
JsonReading.v
Dag.v
VerificationGraph.v
WorkflowGraph.v
WorkflowAccept.v
EditLayer.v
Bytes.v
Storage.v
PmTiles.v
PmTilesArchive.v
Mvt.v
Governance.v
MapStyle.v
Project.v
Expr.v
WorkflowDigest.v
WorkflowIdentity.v
Templates.v
Composer.v
Incremental.v
WalkNetwork.v
Transit.v
Command.v
CommandSession.v
CommandRun.v
Scenario.v
Governed.v
Plugins.v
Wkb.v
Proj.v
Layer.v
Ops.v
Plan.v
PlanRun.v
Store.v
