(* ===== verification/Prelude.v ===== *)
(** * A verification library for GeneGIS

    GeneGIS is a GIS engine in which every analysis is a reviewed workflow graph run
    through a command bus, under declared semantic contracts, with receipts and
    digests as evidence. This library translates the core of that engine from Rust
    into executable Rocq functions, one file per component, and proves what makes the
    components correct. Names are those of the source where Rocq allows it; each
    file's first comment names the source file it models.

    ** How the parts interact

    A project (Project) is changed only by commands dispatched on the bus (Command).
    A command that changes it or runs an analysis must name a workflow graph
    (WorkflowGraph) that is registered, validated and digested (WorkflowDigest), and
    that admits the sources it reads (GeoContract, Crs). The graphs come from the
    templates (Templates), the composer's drafts (Composer) or compiled toolkit plans
    (Plan). Analyses, governance operations, plugins and toolkit plans run as
    executors of one such graph on a bus of their own (CommandRun; Scenario, Governed,
    Plugins, PlanRun). Toolkit layers (Layer) are kept by a store that mirrors them on
    disk (Store). Contracts, dossiers and policies grade the evidence (Assurance,
    TrustPolicy, VerificationGraph).

    ** The files, in order

    Shared:
    - Prelude: [result], panics ([outcome], [fault]), the state-error monad [st],
      tactics, hints and lemmas on them. RustStd: strings, integers, binary64, sorted
      iteration of the standard library. Ordering, Rounding, Float: stable sort,
      binary64 as an order, rounding and casts. Json, JsonReading: canonical JSON
      text, and that it determines the value. Dag: Kahn's algorithm, which two crates
      spell out. Bytes: byte codecs.

    Contracts (crates/genegis-crs, genegis-contract):
    - Crs: the registry of reference systems, source snapshots. GeoContract: semantic
      contracts, validation, comparison; ContractTable: the table of COMPATIBILITY.md
      and the proof that the comparison computes it, with the rows it lacks.
      Assurance: dossiers and their grades. TrustPolicy: levels of trust.
      VerificationGraph: claims and verifiers.

    Workflows (crates/genegis-workflow: graph.rs, step.rs, composer.rs):
    - WorkflowGraph: the graph, its validation and schedule; WorkflowAccept: validation
      accepts exactly the executable graphs; WorkflowDigest: the canonical document and
      digest; WorkflowIdentity: what the digest identifies; Templates: the graphs the
      application offers; Composer: the editing session on a draft.

    The engine (crates/genegis-core):
    - Project: the manifest and its JSON. EditLayer: revisioned vector edits. Command:
      the bus; CommandSession: its theory; CommandRun: one run on a fresh bus.
      Incremental: recomputation of what a change affects.

    Around it:
    - Storage (genegis-storage): byte ranges, the remote access policy, reads and
      budgets. PmTiles, PmTilesArchive, Mvt (genegis-tile): tile archives and vector
      tiles. MapStyle (genegis-style). WalkNetwork, Transit (genegis-network). Governance
      (genegis-collab) and Governed (genegis-analysis/governance.rs). Scenario
      (genegis-analysis/scenario.rs). Plugins (genegis-plugin-api, genegis-plugin-host).

    The toolkit (crates/genegis-toolkit):
    - Expr: the expression language (expr.rs). Wkb: geometry bytes (wkb.rs and the blobs
      of gpkg_io.rs). Proj: reference systems and their formulae (proj.rs). Layer:
      tables of features (layer.rs). Ops: the operations (ops.rs, table.rs). Plan and
      PlanRun: plans (execute.rs). Store: the layer store (store.rs).

    ** How code becomes definitions

    A Rust struct is a record and an enum an inductive type with the same
    constructors; a method is a definition over them. [Result] is [result]; code that
    can panic returns [outcome] or [result (fault E)], and [&mut self] is the state
    of [st], so that what a failing call leaves behind is part of its meaning. Maps are
    [gmap]s walked in the order of their keys; lists of pairs are kept where order or
    repetition matters. Integers are [N] or [Z] with the width written out wherever
    arithmetic can wrap, saturate or be cast; [f64] is the executable binary64 of
    [SpecFloat]. Text is the bytes of its UTF-8.

    ** What the theorems show

    - Behaviour against a reference that is written independently: validation and
      executable graphs, contracts and the documented table, expressions and their
      grammar, edits and their effects, grades and levels of trust, plans and their
      well-formedness, runs of plans and step-by-step evaluation, shortest routes.
    - Invariants over every reachable state: sessions of the bus, editable layers,
      drafts of the composer, governance, plugin registries, incremental runs.
    - Round trips: archives, tiles, geometries, the audit log, the layer store across
      a restart with failing writes, canonical text.
    - What an action needs: reviewed mutation, authorized runs, approved merges and
      releases, four eyes, admitted hosts, sealed lineage of operations.
    - Failure: a failed dispatch, edit or store operation changes nothing; loops and
      recursions end; [expect]s and indexing of modelled code do not panic.
    Where the code falls short of its documentation or of what it evidently means, the
    theorem carries the condition under which it holds and a lemma or an example shows
    the behaviour outside of it.

    ** Bounds and fuel

    Loops over data are structural. Elsewhere a function takes fuel, running out of
    which is a panic or an absent result, and a theorem shows that it does not happen:
    Kahn's algorithm is given more than the number of nodes and the searches of the
    graphs more than their nodes and edges (Dag.kahn_loop_spec, Dag.explore_spec), the
    parser of expressions eight steps per token, one for each level of the grammar
    (Expr.parse_or_total), the reader of geometries more than the bytes that are left
    (Wkb), the walk search one step per arc and one for its start
    (WalkNetwork.settle_spec). The search over walks and rides, whose nodes are entered
    again, has fuel for an argument, and enough of it is shown to exist
    (Transit.transit_settle_spec). serde_json reads at most 127 levels; the layer
    store's theorem is stated within them. Counters of 32 and 64 bits are bounded where
    a theorem needs it.

    ** Parameters

    What is not under src/ is an argument of the definitions that use it, grouped in
    classes: SHA-256, Ed25519, base64, gzip, serde_json's scalars and derived text,
    chrono's instants, the url and HTTP crates, the geo crate, automatic UUIDs and the
    clock, the precision of transcendental functions, decimal rendering of floats. Laws
    about them are stated only where a theorem needs one, next to that theorem, with an
    instance that satisfies them. A digest theorem concludes with the equality or an
    explicit collision. The functions of ops.rs that are not modelled are such arguments
    too (Ops.OtherOperations): they may answer, fail or panic.

    ** Not modelled

    Thirteen toolkit operations and the importers and exporters of file formats (the
    work is the geo crate's, parquet's, a remote service's); summaries of layers;
    adapters of external programs, the AI planner, the report pipelines, rendering,
    rasters, point clouds and queries (third-party readers and drawing); the
    collaboration documents (the automerge crate); the HTTP server, the command line
    and the applications (routing and printing); geodesic and predicate code without a
    stated error bound; test code. *)

From stdpp Require Export prelude strings gmap sorting.
From Stdlib Require Export Lia ZArith NArith ZifyBool ZifyN.

(** ** Fallible code: Rust's [Result] *)

Inductive result (E A : Type) : Type :=
| Ok (a : A)
| Err (e : E).
Arguments Ok {E A} a.
Arguments Err {E A} e.

#[export] Instance result_ret E : MRet (result E) := fun A a => Ok a.
#[export] Instance result_bind E : MBind (result E) := fun A B f m =>
  match m with Ok a => f a | Err e => Err e end.

#[export] Instance result_eq_dec {E A} `{EqDecision E} `{EqDecision A} :
  EqDecision (result E A).
Proof. solve_decision. Defined.

Section Result.
Context {E : Type}.

(** [if b { return Err(e) }] *)
Definition err_if (b : bool) (e : E) : result E unit :=
  if b then Err e else Ok tt.

(** [Option::ok_or] *)
Definition ok_or {A} (o : option A) (e : E) : result E A :=
  match o with Some a => Ok a | None => Err e end.

(** [Result::map_err] *)
Definition map_err {F A} (f : F -> E) (r : result F A) : result E A :=
  match r with Ok a => Ok a | Err e => Err (f e) end.

(** [Result::is_ok] *)
Definition is_ok {A} (r : result E A) : bool :=
  match r with Ok _ => true | Err _ => false end.

(** [for x in xs { body(x)? }] *)
Fixpoint for_each {A} (f : A -> result E unit) (l : list A) : result E unit :=
  match l with
  | [] => Ok tt
  | x :: l => f x ;; for_each f l
  end.

(** [for x in xs { acc = body(acc, x)? }] *)
Fixpoint try_fold {A B} (f : B -> A -> result E B) (b : B) (l : list A) : result E B :=
  match l with
  | [] => Ok b
  | x :: l => b' ← f b x; try_fold f b' l
  end.

(** [xs.iter().map(f).collect::<Result<Vec<_>, _>>()] *)
Fixpoint try_map {A B} (f : A -> result E B) (l : list A) : result E (list B) :=
  match l with
  | [] => Ok []
  | x :: l => y ← f x; ys ← try_map f l; Ok (y :: ys)
  end.

Lemma bind_ok {A B} (f : A -> result E B) (m : result E A) (b : B) :
  (m ≫= f) = Ok b <-> exists a, m = Ok a /\ f a = Ok b.
Proof.
  destruct m as [a|e]; simpl; split.
  - intros H. exists a. done.
  - intros (a' & Ha & Hf). by simplify_eq.
  - done.
  - intros (a' & Ha & _). done.
Qed.

(** [m?; k] *)
Lemma seq_ok {A} (m : result E unit) (k : result E A) (a : A) :
  (m ;; k) = Ok a <-> m = Ok tt /\ k = Ok a.
Proof. destruct m as [[]|]; simpl; naive_solver. Qed.

Lemma err_if_ok (b : bool) (e : E) u : err_if b e = Ok u <-> b = false.
Proof. destruct b, u; simpl; naive_solver. Qed.

Lemma err_decide_ok (P : Prop) `{Decision P} (e : E) u :
  err_if (bool_decide P) e = Ok u <-> ~ P.
Proof. by rewrite err_if_ok, bool_decide_eq_false. Qed.

(** [if !b { return Err(e) }] *)
Lemma err_unless_ok (b : bool) (e : E) u : err_if (negb b) e = Ok u <-> b = true.
Proof. by rewrite err_if_ok, negb_false_iff. Qed.

Lemma ok_or_ok {A} (o : option A) (e : E) (a : A) : ok_or o e = Ok a <-> o = Some a.
Proof. destruct o; simpl; naive_solver. Qed.

Lemma map_err_ok {F A} (f : F -> E) (r : result F A) (a : A) :
  map_err f r = Ok a <-> r = Ok a.
Proof. destruct r; simpl; naive_solver. Qed.

Lemma for_each_ok {A} (f : A -> result E unit) (l : list A) u :
  for_each f l = Ok u <-> Forall (fun x => f x = Ok tt) l.
Proof.
  destruct u. induction l as [|x l IH]; simpl.
  - split; [constructor | done].
  - rewrite bind_ok, Forall_cons, <-IH. split.
    + intros ([] & ? & ?). done.
    + intros [? ?]. by exists tt.
Qed.

Lemma try_map_ok {A B} (f : A -> result E B) (l : list A) (k : list B) :
  try_map f l = Ok k <-> Forall2 (fun x y => f x = Ok y) l k.
Proof.
  revert k. induction l as [|x l IH]; intros k; simpl.
  - split; [intros [=<-]; constructor | by inversion 1].
  - rewrite bind_ok. setoid_rewrite bind_ok. setoid_rewrite IH. split.
    + intros (y & Hy & ys & Hys & [=<-]). by constructor.
    + inversion 1; subst. eauto 10.
Qed.

Lemma try_map_length {A B} (f : A -> result E B) (l : list A) (k : list B) :
  try_map f l = Ok k -> length k = length l.
Proof. intros H%try_map_ok. symmetry. by eapply Forall2_length. Qed.

(** Invariants of an accumulating loop. *)
Lemma try_fold_inv {A B} (f : B -> A -> result E B) (P : B -> Prop) l b b' :
  try_fold f b l = Ok b' -> P b ->
  (forall b x b', x ∈ l -> f b x = Ok b' -> P b -> P b') -> P b'.
Proof.
  revert b. induction l as [|x l IH]; simpl; intros b H Hb Hstep.
  - by simplify_eq.
  - apply bind_ok in H as (c & Hc & H). eapply IH; [done| |].
    + eapply Hstep; [|done|done]. apply list_elem_of_here.
    + intros ? y ? ? ?. apply (Hstep _ y). by apply list_elem_of_further. done.
Qed.

Lemma try_fold_ok_forall {A B} (f : B -> A -> result E B) (P : A -> Prop) l b b' :
  (forall b x b', f b x = Ok b' -> P x) -> try_fold f b l = Ok b' -> Forall P l.
Proof.
  intros Hf. revert b. induction l as [|x l IH]; simpl; intros b H; [constructor|].
  apply bind_ok in H as (c & Hc & H). constructor; eauto.
Qed.

Lemma try_fold_err {A B} (f : B -> A -> result E B) l b e :
  try_fold f b l = Err e -> exists b' x, x ∈ l /\ f b' x = Err e.
Proof.
  revert b. induction l as [|x l IH]; simpl; intros b H; [done|].
  destruct (f b x) as [c|e'] eqn:Hc; simpl in H.
  - destruct (IH c H) as (b' & y & Hy & He). exists b', y. split; [by apply list_elem_of_further | done].
  - simplify_eq. exists b, x. split; [apply list_elem_of_here | done].
Qed.

(** Loops that reject a repeated key: each iteration inserts a new one. *)
Lemma distinct_fold_ok {A} (key : A -> string) (P : A -> Prop)
    (f : gset string -> A -> result E (gset string)) l :
  (forall s a s', f s a = Ok s' <-> P a /\ key a ∉ s /\ s' = {[key a]} ∪ s) ->
  forall seen, (exists s', try_fold f seen l = Ok s')
    <-> Forall P l /\ NoDup (map key l) /\ (forall x, x ∈ map key l -> x ∉ seen).
Proof.
  intros Hf. induction l as [|a l IH]; intros seen; simpl.
  - split; [|eauto]. intros _. split_and!; [constructor..|set_solver].
  - setoid_rewrite bind_ok. setoid_rewrite Hf. rewrite Forall_cons, NoDup_cons. split.
    + intros (s' & s1 & (Ha & Hn & ->) & Hl).
      destruct (proj1 (IH _) (ex_intro _ _ Hl)) as (H1 & H2 & H3).
      split_and!; try done; [|set_solver]. intros Hin. apply (H3 _ Hin). set_solver.
    + intros ([Ha Hl] & [Hn Hd] & Hs).
      destruct (proj2 (IH ({[key a]} ∪ seen))) as [s' Hs'].
      { split_and!; [done..|]. intros x Hx. specialize (Hs x). set_solver. }
      exists s', ({[key a]} ∪ seen). set_solver.
Qed.

Lemma distinct_fold_value {A} (key : A -> string) (P : A -> Prop)
    (f : gset string -> A -> result E (gset string)) l :
  (forall s a s', f s a = Ok s' <-> P a /\ key a ∉ s /\ s' = {[key a]} ∪ s) ->
  forall seen s', try_fold f seen l = Ok s' -> s' = list_to_set (map key l) ∪ seen.
Proof.
  intros Hf. induction l as [|a l IH]; intros seen s'; simpl.
  - intros [= <-]. set_solver.
  - intros (s1 & (_ & _ & ->)%Hf & H)%bind_ok. apply IH in H. set_solver.
Qed.

Lemma distinct_loop_ok {A} (key : A -> string) (P : A -> Prop)
    (f : gset string -> A -> result E (gset string)) l u :
  (forall s a s', f s a = Ok s' <-> P a /\ key a ∉ s /\ s' = {[key a]} ∪ s) ->
  (try_fold f ∅ l ;; Ok tt) = Ok u <-> Forall P l /\ NoDup (map key l).
Proof.
  intros Hf. destruct u. pose proof (distinct_fold_ok key P f l Hf ∅) as Hd.
  rewrite bind_ok. split.
  - intros (s & Hs & _). destruct (proj1 Hd (ex_intro _ _ Hs)) as (? & ? & _). done.
  - intros [? ?]. destruct (proj2 Hd) as [s Hs]; [set_solver|]. by exists s.
Qed.
End Result.

(** [x.f(..).g(..)]: a chain of builder calls *)
Declare Scope builder_scope.
Notation "x '|>' f" := (f x) (at level 50, left associativity, only parsing) : builder_scope.

(** Rewrites with the equations above turn a successful run of a function
    body into the list of its passed guards. *)
Create Rewrite HintDb rs.
#[export] Hint Rewrite @bind_ok @err_if_ok @ok_or_ok @map_err_ok @for_each_ok : rs.

(** [inv_rs H] turns [H : body = Ok v] into the facts of the taken path. *)
Ltac inv_rs H :=
  repeat first
    [ progress simplify_eq/=
    | rewrite bind_ok in H;
      let a := fresh "a" in let H1 := fresh "Hr" in
      destruct H as (a & H1 & H); inv_rs H1
    | rewrite err_if_ok in H
    | rewrite ok_or_ok in H
    | rewrite map_err_ok in H
    | rewrite for_each_ok in H ].

(** ** State-passing code: methods taking [&mut self] and returning [Result]

    The state is returned next to an error too: a method that has already
    mutated its receiver when it fails leaves the mutation behind. *)

Definition st (S E A : Type) : Type := S -> result E A * S.

#[export] Instance st_ret S E : MRet (st S E) := fun A a s => (Ok a, s).
#[export] Instance st_bind S E : MBind (st S E) := fun A B f m s =>
  match m s with
  | (Ok a, s') => f a s'
  | (Err e, s') => (Err e, s')
  end.

Section State.
Context {S E : Type}.
Definition get : st S E S := fun s => (Ok s, s).
Definition put (s : S) : st S E unit := fun _ => (Ok tt, s).
Definition modify (f : S -> S) : st S E unit := fun s => (Ok tt, f s).
(** A call that only reads the receiver. *)
Definition lift {A} (r : result E A) : st S E A := fun s => (r, s).

Lemma st_bind_ok {A B} (f : A -> st S E B) (m : st S E A) s b s' :
  (m ≫= f) s = (Ok b, s') <-> exists a s1, m s = (Ok a, s1) /\ f a s1 = (Ok b, s').
Proof.
  unfold mbind, st_bind. destruct (m s) as [[a|e] s1]; split.
  - eauto.
  - by intros (? & ? & [= <- <-] & ?).
  - done.
  - by intros (? & ? & ? & ?).
Qed.

Lemma st_bind_err {A B} (f : A -> st S E B) (m : st S E A) s e s' :
  (m ≫= f) s = (Err e, s') <->
  m s = (Err e, s') \/ exists a s1, m s = (Ok a, s1) /\ f a s1 = (Err e, s').
Proof.
  change ((m ≫= f) s) with (match m s with
    | (Ok a, s') => f a s' | (Err e, s') => (Err e, s') end).
  destruct (m s) as [[a|e0] s1]; naive_solver.
Qed.

Lemma lift_ok {A} (r : result E A) s a s' :
  lift r s = (Ok a, s') <-> r = Ok a /\ s' = s.
Proof. unfold lift. naive_solver. Qed.

Lemma get_ok (s a s' : S) : get s = (Ok a, s') <-> a = s /\ s' = s.
Proof. unfold get. naive_solver. Qed.

(** A computation that never changes the state; one that never fails; and one
    that leaves the state alone when it fails. *)
Definition reads {A} (m : st S E A) : Prop := forall s, (m s).2 = s.
Definition infallible {A} (m : st S E A) : Prop := forall s e, (m s).1 <> Err e.
Definition atomic {A} (m : st S E A) : Prop := forall s e s', m s = (Err e, s') -> s' = s.

Lemma reads_get : reads get.
Proof. done. Qed.
Lemma reads_lift {A} (r : result E A) : reads (lift r).
Proof. done. Qed.
Lemma infallible_modify f : infallible (modify f).
Proof. done. Qed.
Lemma infallible_ret {A} (a : A) : infallible (mret a : st S E A).
Proof. done. Qed.
Lemma infallible_get : infallible get.
Proof. done. Qed.

Lemma infallible_bind {A B} (m : st S E A) (f : A -> st S E B) :
  infallible m -> (forall a, infallible (f a)) -> infallible (m ≫= f).
Proof.
  intros Hm Hf s e. specialize (Hm s).
  change ((m ≫= f) s) with (match m s with
    | (Ok a, s') => f a s' | (Err e, s') => (Err e, s') end).
  destruct (m s) as [[a|e'] s']; [apply Hf | by destruct (Hm e')].
Qed.

Lemma infallible_atomic {A} (m : st S E A) : infallible m -> atomic m.
Proof. intros Hm s e s' H. destruct (Hm s e). by rewrite H. Qed.

Lemma reads_atomic {A} (m : st S E A) : reads m -> atomic m.
Proof. intros Hm s e s' H. specialize (Hm s). by rewrite H in Hm. Qed.

(** Checks first ... *)
Lemma atomic_bind_reads {A B} (m : st S E A) (f : A -> st S E B) :
  reads m -> (forall a, atomic (f a)) -> atomic (m ≫= f).
Proof.
  intros Hm Hf s e s' [H|(a & s1 & Ha & H)]%st_bind_err.
  - by apply (reads_atomic m Hm s e).
  - specialize (Hm s). rewrite Ha in Hm. simpl in Hm. subst s1. by eapply Hf.
Qed.

(** ... and mutations that cannot fail last. *)
Lemma atomic_bind_infallible {A B} (m : st S E A) (f : A -> st S E B) :
  atomic m -> (forall a, infallible (f a)) -> atomic (m ≫= f).
Proof.
  intros Hm Hf s e s' [H|(a & s1 & _ & H)]%st_bind_err; [by eapply Hm|].
  exfalso. destruct (Hf a s1 e). by rewrite H.
Qed.

(** [for x in xs { body(x)?; }] *)
Fixpoint st_each {A} (f : A -> st S E unit) (l : list A) : st S E unit :=
  match l with [] => mret tt | x :: l => f x;; st_each f l end.

Lemma infallible_each {A} (f : A -> st S E unit) l :
  (forall a, infallible (f a)) -> infallible (st_each f l).
Proof.
  intros Hf. induction l as [|a l IH]; cbn [st_each]; [apply infallible_ret|].
  apply infallible_bind; [apply Hf | done].
Qed.
End State.

Ltac solve_infallible :=
  repeat first
    [ apply infallible_bind; [|intros ?]
    | apply infallible_each; intros ?
    | apply infallible_modify | apply infallible_ret | apply infallible_get ].

(** Proves that a body checks before it mutates. *)
Ltac solve_atomic :=
  repeat first
    [ apply atomic_bind_reads; [first [apply reads_get | apply reads_lift] | intros ?]
    | apply infallible_atomic; solve [solve_infallible] ].

(** [inv_st H] does for state-passing bodies what [inv_rs] does for [result]. *)
Ltac inv_st H :=
  repeat first
    [ progress simplify_eq/=
    | rewrite st_bind_ok in H;
      let a := fresh "a" in let s := fresh "s" in let H1 := fresh "Hr" in
      destruct H as (a & s & H1 & H); inv_st H1
    | rewrite lift_ok in H;
      let H1 := fresh "Hr" in destruct H as [H1 H]; inv_rs H1
    | progress unfold get, put, modify, mret, st_ret in H ].

(** ** Code that can also panic

    An [expect] that finds nothing, an index out of bounds, or (in a loop given
    too little fuel) no answer at all: theorems show that it does not happen. *)

Inductive outcome (E A : Type) : Type :=
| Done (a : A)
| Failed (e : E)
| Panic.
Arguments Done {E A} a.
Arguments Failed {E A} e.
Arguments Panic {E A}.

#[export] Instance outcome_ret E : MRet (outcome E) := fun A a => Done a.
#[export] Instance outcome_bind E : MBind (outcome E) := fun A B f m =>
  match m with Done a => f a | Failed e => Failed e | Panic => Panic end.

(** [r?] inside code that can panic, and [o.expect(..)] *)
Definition attempt {E A} (r : result E A) : outcome E A :=
  match r with Ok a => Done a | Err e => Failed e end.
Definition expect {E A} (o : option A) : outcome E A :=
  match o with Some a => Done a | None => Panic end.

Lemma attempt_done {E A} (r : result E A) (a : A) : attempt r = Done a <-> r = Ok a.
Proof. destruct r; simpl; naive_solver. Qed.

Lemma outcome_bind_done {E A B} (f : A -> outcome E B) (m : outcome E A) (b : B) :
  (m ≫= f) = Done b <-> exists a, m = Done a /\ f a = Done b.
Proof. destruct m; simpl; naive_solver. Qed.

(** In [st] and [result] code a panic is an error of its own. *)
Inductive fault (E : Type) := Error (e : E) | Panicked.
Arguments Error {E} e.
Arguments Panicked {E}.

(** [run.map_err(f)?] of a computation that could also panic, and [o.expect(..)] *)
Definition checked_run {E F A} (f : E -> F) (m : outcome E A) : result (fault F) A :=
  match m with Done a => Ok a | Failed e => Err (Error (f e)) | Panic => Err Panicked end.
Definition expected {E A} (o : option A) : result (fault E) A := ok_or o Panicked.
(** [r?] in such code *)
Definition as_fault {E A} (r : result E A) : result (fault E) A := map_err Error r.

Lemma checked_run_ok {E F A} (f : E -> F) (m : outcome E A) a :
  checked_run f m = Ok a <-> m = Done a.
Proof. destruct m; simpl; naive_solver. Qed.

Lemma as_fault_ok {E A} (r : result E A) a : as_fault r = Ok a <-> r = Ok a.
Proof. apply map_err_ok. Qed.

(** [iter().find(..)] that finds nothing *)
Lemma find_none_iff {A} (f : A -> bool) l : List.find f l = None <-> forall x, x ∈ l -> f x = false.
Proof.
  induction l as [|a l IH]; cbn [List.find]; [split; [set_solver | done]|].
  destruct (f a) eqn:Ha; [split; [done | intros Hall; specialize (Hall a (list_elem_of_here _ _)); congruence]|].
  rewrite IH. split; intros Hall x; [intros [->|]%elem_of_cons; auto | intros Hx; by apply Hall, list_elem_of_further].
Qed.

(** ** Lists related element by element *)

Section Related.
Context {A B : Type} (R : A -> B -> Prop).

Lemma related_l l k x : Forall2 R l k -> x ∈ l -> exists y, y ∈ k /\ R x y.
Proof.
  induction 1 as [|a b l k Hab _ IH]; intros Hx; [by apply not_elem_of_nil in Hx|].
  apply elem_of_cons in Hx as [->|Hx]; [exists b; split; [apply list_elem_of_here | done]|].
  destruct (IH Hx) as (y & ? & ?). exists y. split; [by apply list_elem_of_further | done].
Qed.

Lemma related_r l k y : Forall2 R l k -> y ∈ k -> exists x, x ∈ l /\ R x y.
Proof.
  induction 1 as [|a b l k Hab _ IH]; intros Hy; [by apply not_elem_of_nil in Hy|].
  apply elem_of_cons in Hy as [->|Hy]; [exists a; split; [apply list_elem_of_here | done]|].
  destruct (IH Hy) as (x & ? & ?). exists x. split; [by apply list_elem_of_further | done].
Qed.
End Related.
