(* ===== verification/RustStd.v ===== *)
(** * The parts of Rust's standard library the modelled crates use

    Strings are their UTF-8 bytes ([string] of [ascii] bytes); [u8], [u32],
    [u64], [usize] are [N] with the width written out where it matters; [f64]
    is IEEE-754 binary64 as the executable specification [SpecFloat] gives it
    (precision 53, maximal exponent 1024); a [BTreeSet]/[BTreeMap] is a
    [gset]/[gmap] together with the sorted list its iterator walks. *)

From Stdlib Require Export SpecFloat.
From Stdlib Require Import Ascii Decimal DecimalString DecimalN.
From S2P Require Import Prelude.
Local Open Scope N_scope.

(** ** Unsigned integers *)

Definition u32_max : N := 2 ^ 32 - 1.
Definition u64_max : N := 2 ^ 64 - 1.

(** [u64::saturating_add] *)
Definition sat_add_u64 (a b : N) : N := N.min (a + b) u64_max.
(** [u64::checked_add] *)
Definition checked_add_u64 (a b : N) : option N :=
  if a + b <=? u64_max then Some (a + b) else None.
(** [+], [-], [<<] of a release build: reduction modulo the width. *)
Definition wrap (w : N) (a : N) : N := a mod 2 ^ w.
Definition sub_wrap (w : N) (a b : N) : N := (a + 2 ^ w - b mod 2 ^ w) mod 2 ^ w.

Lemma sub_wrap_small w a b : b <= a -> a < 2 ^ w -> sub_wrap w a b = a - b.
Proof.
  intros Hb Ha. unfold sub_wrap.
  rewrite (N.mod_small b) by lia.
  replace (a + 2 ^ w - b) with (a - b + 1 * 2 ^ w) by lia.
  rewrite N.Div0.mod_add. apply N.mod_small. lia.
Qed.

Lemma checked_add_u64_some a b c :
  checked_add_u64 a b = Some c <-> c = a + b /\ a + b <= u64_max.
Proof.
  unfold checked_add_u64. destruct (N.leb_spec (a + b) u64_max); split; [intros [= <-] | intros [-> _] | | ]; done || lia.
Qed.

(** ** Strings *)

Local Abbreviation code := Ascii.N_of_ascii.

(** The Unicode [White_Space] characters, by the length of their encoding. *)
Definition is_ws1 (a : ascii) : bool :=
  ((9 <=? code a) && (code a <=? 13)) || (code a =? 32).
Definition is_ws2 (a b : ascii) : bool :=
  (code a =? 194) && ((code b =? 133) || (code b =? 160)).
Definition is_ws3 (a b c : ascii) : bool :=
  ((code a =? 225) && (code b =? 154) && (code c =? 128))
  || ((code a =? 226) && (code b =? 128)
      && (((128 <=? code c) && (code c <=? 138))
          || (code c =? 168) || (code c =? 169) || (code c =? 175)))
  || ((code a =? 226) && (code b =? 129) && (code c =? 159))
  || ((code a =? 227) && (code b =? 128) && (code c =? 128)).

(** [str::trim_start]; [flip] reads the encoding of a character backwards. *)
Fixpoint trim_dir (flip : bool) (s : string) : string :=
  match s with
  | String a s1 =>
      if is_ws1 a then trim_dir flip s1 else
      match s1 with
      | String b s2 =>
          if (if flip then is_ws2 b a else is_ws2 a b) then trim_dir flip s2 else
          match s2 with
          | String c s3 =>
              if (if flip then is_ws3 c b a else is_ws3 a b c)
              then trim_dir flip s3 else s
          | EmptyString => s
          end
      | EmptyString => s
      end
  | EmptyString => s
  end.

Definition trim_start (s : string) : string := trim_dir false s.
Definition trim_end (s : string) : string := String.rev (trim_dir true (String.rev s)).
(** [str::trim] *)
Definition trim (s : string) : string := trim_end (trim_start s).

(** [str::is_empty] *)
Definition is_empty (s : string) : bool := bool_decide (s = "").
(** [s.trim().is_empty()]: nothing is left once leading white space is gone. *)
Definition is_blank (s : string) : bool := is_empty (trim_start s).

(** [str::len], in bytes *)
Definition str_len (s : string) : N := N.of_nat (String.length s).

(** [str::strip_prefix] *)
Fixpoint strip_prefix (p s : string) : option string :=
  match p, s with
  | EmptyString, _ => Some s
  | String a p, String b s => if bool_decide (a = b) then strip_prefix p s else None
  | String _ _, EmptyString => None
  end.

Fixpoint string_forall (f : ascii -> bool) (s : string) : bool :=
  match s with
  | EmptyString => true
  | String a s => f a && string_forall f s
  end.

(** [str::contains] with a single ASCII character *)
Definition contains_char (c : ascii) (s : string) : bool :=
  negb (string_forall (fun a => negb (bool_decide (a = c))) s).

Fixpoint string_map (f : ascii -> ascii) (s : string) : string :=
  match s with
  | EmptyString => EmptyString
  | String a s => String (f a) (string_map f s)
  end.

Definition is_ascii_digit (a : ascii) : bool := (48 <=? code a) && (code a <=? 57).
Definition is_ascii_lowercase (a : ascii) : bool := (97 <=? code a) && (code a <=? 122).
Definition is_ascii_uppercase (a : ascii) : bool := (65 <=? code a) && (code a <=? 90).
Definition is_ascii_hexdigit (a : ascii) : bool :=
  is_ascii_digit a || ((65 <=? code a) && (code a <=? 70))
  || ((97 <=? code a) && (code a <=? 102)).
Definition to_ascii_lower (a : ascii) : ascii :=
  if is_ascii_uppercase a then Ascii.ascii_of_N (code a + 32) else a.
Definition to_ascii_upper (a : ascii) : ascii :=
  if is_ascii_lowercase a then Ascii.ascii_of_N (code a - 32) else a.
Definition to_ascii_lowercase : string -> string := string_map to_ascii_lower.
Definition to_ascii_uppercase : string -> string := string_map to_ascii_upper.
Definition eq_ignore_ascii_case (s t : string) : bool :=
  bool_decide (to_ascii_lowercase s = to_ascii_lowercase t).

(** [str::starts_with], [str::ends_with] *)
Definition starts_with (p s : string) : bool :=
  match strip_prefix p s with Some _ => true | None => false end.
Definition ends_with (p s : string) : bool := starts_with (String.rev p) (String.rev s).

(** [str::split_once] at an ASCII character: the parts around its first
    occurrence. *)
Fixpoint split_once (c : ascii) (s : string) : option (string * string) :=
  match s with
  | EmptyString => None
  | String a s =>
      if bool_decide (a = c) then Some (EmptyString, s)
      else '(before, after) ← split_once c s; Some (String a before, after)
  end.

(** [str::split] at an ASCII character *)
Fixpoint split (c : ascii) (s : string) : list string :=
  match s with
  | EmptyString => [EmptyString]
  | String a s =>
      if bool_decide (a = c) then EmptyString :: split c s
      else match split c s with
           | part :: parts => String a part :: parts
           | [] => []
           end
  end.

(** The test of a [sha256:<64 hex digits>] identity that several crates spell
    out as [value.strip_prefix("sha256:").is_some_and(|hex| ...)]. *)
Definition sha256_identity (value : string) : bool :=
  match strip_prefix "sha256:" value with
  | Some hex => (str_len hex =? 64) && string_forall is_ascii_hexdigit hex
  | None => false
  end.

(** [Display] of an unsigned integer and [str::parse] of one with maximum [m]:
    an optional [+], then at least one digit, and no overflow. *)
Definition show_N (n : N) : string := NilZero.string_of_uint (N.to_uint n).
Definition strip_plus (s : string) : string :=
  match s with
  | String a s' => if bool_decide (a = "+"%char) then s' else s
  | EmptyString => s
  end.
Definition parse_N (m : N) (s : string) : option N :=
  match strip_plus s with
  | EmptyString => None
  | s' =>
      match NilEmpty.uint_of_string s' with
      | Some d => if N.of_uint d <=? m then Some (N.of_uint d) else None
      | None => None
      end
  end.

Lemma string_of_uint_not_plus d : strip_plus (NilZero.string_of_uint d) = NilZero.string_of_uint d.
Proof. by destruct d. Qed.

Lemma parse_show_N m n : n <= m -> parse_N m (show_N n) = Some n.
Proof.
  intros Hn. unfold parse_N, show_N. rewrite string_of_uint_not_plus.
  assert (Hd : forall d, d <> Nil -> NilZero.string_of_uint d = NilEmpty.string_of_uint d).
  { by intros []. }
  assert (N.to_uint n <> Nil) as Hnn.
  { destruct n; simpl; [done|]. apply DecimalPos.Unsigned.to_uint_nonnil. }
  rewrite Hd by done.
  destruct (NilEmpty.string_of_uint (N.to_uint n)) as [|a s] eqn:Hs.
  - by destruct (N.to_uint n).
  - rewrite <-Hs, NilEmpty.usu, DecimalN.Unsigned.of_to.
    by rewrite (proj2 (N.leb_le n m) Hn).
Qed.

Lemma strip_prefix_app p s : strip_prefix p (p +:+ s) = Some s.
Proof. induction p as [|a p IH]; [done|]. simpl. by rewrite bool_decide_true. Qed.

Lemma strip_prefix_some p s t : strip_prefix p s = Some t <-> s = p +:+ t.
Proof.
  split; [|intros ->; apply strip_prefix_app].
  revert s. induction p as [|a p IH]; intros [|b s]; simpl; intros; simplify_eq; [done..|].
  case_bool_decide; simplify_eq. by rewrite (IH _ H).
Qed.

Lemma starts_with_iff p s : starts_with p s = true <-> exists t, s = p +:+ t.
Proof.
  unfold starts_with. destruct (strip_prefix p s) as [t|] eqn:Ht; split; try done.
  - intros _. exists t. by apply strip_prefix_some.
  - intros [t Hs]. apply strip_prefix_some in Hs. congruence.
Qed.

(** A separator that does not occur before it is where the text splits. *)
Lemma split_once_app c s t :
  string_forall (fun a => negb (bool_decide (a = c))) s = true ->
  split_once c (s +:+ String c t) = Some (s, t).
Proof.
  induction s as [|a s IH].
  - intros _. change (split_once c (String c t) = Some ("", t)). simpl.
    by rewrite bool_decide_true.
  - intros [Ha Hs]%andb_true_iff. apply negb_true_iff in Ha.
    change (String a s +:+ String c t) with (String a (s +:+ String c t)). cbn [split_once].
    rewrite Ha, (IH Hs). done.
Qed.

Lemma is_blank_empty : is_blank "" = true.
Proof. done. Qed.

Lemma string_forall_rev_app f s t :
  string_forall f (String.rev_app s t) = string_forall f s && string_forall f t.
Proof.
  revert t. induction s as [|a s IH]; intros t; simpl; [done|].
  rewrite IH. simpl. by destruct (f a), (string_forall f s).
Qed.

Lemma string_app_nil_r s : s +:+ "" = s.
Proof.
  induction s as [|a s IH]; [done|].
  change (String a (s +:+ "") = String a s). by rewrite IH.
Qed.

Lemma string_rev_app_rev_app s t u :
  String.rev_app (String.rev_app s t) u = String.rev_app t (s +:+ u).
Proof. revert t u. induction s as [|a s IH]; intros t u; simpl; [done|]. by rewrite IH. Qed.

Lemma string_rev_rev s : String.rev (String.rev s) = s.
Proof. unfold String.rev. rewrite string_rev_app_rev_app. apply string_app_nil_r. Qed.

Lemma string_rev_app_acc s t : String.rev_app s t = String.rev s +:+ t.
Proof.
  revert t. induction s as [|a s IH]; intros t; [done|]. unfold String.rev. simpl.
  rewrite IH, (IH (String a "")). clear IH. induction (String.rev s) as [|b r IH]; [done|].
  change (String b (r +:+ String a t) = String b ((r +:+ String a "") +:+ t)). by rewrite IH.
Qed.

Lemma string_app_assoc s t u : (s +:+ t) +:+ u = s +:+ (t +:+ u).
Proof.
  induction s as [|a s IH]; [done|].
  change (String a ((s +:+ t) +:+ u) = String a (s +:+ (t +:+ u))). by rewrite IH.
Qed.

Lemma string_rev_app s t : String.rev (s +:+ t) = String.rev t +:+ String.rev s.
Proof.
  assert (H : forall u, String.rev_app (s +:+ t) u = String.rev_app t (String.rev_app s u)).
  { induction s as [|a s IH]; intros u; [done|]. apply IH. }
  unfold String.rev at 1. by rewrite H, string_rev_app_acc.
Qed.

Lemma ends_with_iff p s : ends_with p s = true <-> exists t, s = t +:+ p.
Proof.
  unfold ends_with. rewrite starts_with_iff. split; intros [t Ht]; exists (String.rev t).
  - by rewrite <-(string_rev_rev s), Ht, string_rev_app, string_rev_rev.
  - by rewrite Ht, string_rev_app.
Qed.

(** Printable ASCII: what identifiers and numbers are made of. *)
Definition is_graphic (a : ascii) : bool := (33 <=? code a) && (code a <=? 126).

Lemma string_forall_app f s t :
  string_forall f (s +:+ t) = string_forall f s && string_forall f t.
Proof.
  induction s as [|a s IH]; [done|].
  change (f a && string_forall f (s +:+ t) = f a && string_forall f s && string_forall f t).
  rewrite IH. by rewrite andb_assoc.
Qed.

Lemma string_forall_impl (f g : ascii -> bool) s :
  (forall a, f a = true -> g a = true) ->
  string_forall f s = true -> string_forall g s = true.
Proof.
  intros Hfg. induction s as [|a s IH]; simpl; [done|].
  intros [Ha Hs]%andb_true_iff. apply andb_true_iff. auto.
Qed.

Lemma trim_dir_graphic flip s :
  string_forall is_graphic s = true -> trim_dir flip s = s.
Proof.
  destruct s as [|a s]; [done|]. intros [Ha _]%andb_true_iff.
  unfold is_graphic in Ha. apply andb_true_iff in Ha as [H1%N.leb_le H2%N.leb_le].
  assert (Hw1 : is_ws1 a = false).
  { unfold is_ws1. lia. }
  simpl. rewrite Hw1. destruct s as [|b s]; [done|].
  assert (Hw2 : (if flip then is_ws2 b a else is_ws2 a b) = false).
  { unfold is_ws2. destruct flip; lia. }
  rewrite Hw2. destruct s as [|c s]; [done|].
  assert (Hw3 : (if flip then is_ws3 c b a else is_ws3 a b c) = false).
  { unfold is_ws3. destruct flip; lia. }
  by rewrite Hw3.
Qed.

Lemma trim_graphic s : string_forall is_graphic s = true -> trim s = s.
Proof.
  intros Hs. unfold trim, trim_start, trim_end. rewrite (trim_dir_graphic false s Hs).
  rewrite trim_dir_graphic; [apply string_rev_rev|].
  unfold String.rev. by rewrite string_forall_rev_app, Hs.
Qed.

Lemma digit_graphic a : is_ascii_digit a = true -> is_graphic a = true.
Proof. unfold is_ascii_digit, is_graphic. lia. Qed.

Lemma show_N_digits n : string_forall is_ascii_digit (show_N n) = true.
Proof.
  assert (Hd : forall d, string_forall is_ascii_digit (NilEmpty.string_of_uint d) = true).
  { induction d; simpl; done. }
  unfold show_N. destruct (N.to_uint n); first [done | apply Hd].
Qed.

(** ** Binary64 *)

Abbreviation f64 := spec_float.
Definition f64_add : f64 -> f64 -> f64 := SFadd 53 1024.
Definition f64_sub : f64 -> f64 -> f64 := SFsub 53 1024.
Definition f64_mul : f64 -> f64 -> f64 := SFmul 53 1024.
Definition f64_div : f64 -> f64 -> f64 := SFdiv 53 1024.
Definition f64_abs : f64 -> f64 := SFabs.
Definition f64_neg : f64 -> f64 := SFopp.
(** [==], [<], [<=] *)
Definition f64_eqb : f64 -> f64 -> bool := SFeqb.
Definition f64_ltb : f64 -> f64 -> bool := SFltb.
Definition f64_leb : f64 -> f64 -> bool := SFleb.
(** [f64::is_finite] *)
Definition f64_is_finite (x : f64) : bool :=
  match x with S754_zero _ | S754_finite _ _ _ => true | _ => false end.
(** [f64::max]: a NaN operand is ignored. *)
Definition f64_max (x y : f64) : f64 :=
  match x, y with
  | S754_nan, _ => y
  | _, S754_nan => x
  | _, _ => if f64_ltb x y then y else x
  end.
(** An integer literal, and [m * 2^e] for the other literals. *)
Definition f64_of_Z (m : Z) : f64 := binary_normalize 53 1024 m 0 false.
Definition f64_lit (m e : Z) : f64 := binary_normalize 53 1024 m e false.
Definition f64_zero : f64 := S754_zero false.
(** [f64::EPSILON] is [2^-52]. *)
Definition f64_epsilon : f64 := f64_lit 1 (-52).
(** [xs.sum::<f64>()] starts from negative zero, the neutral element. *)
Definition f64_sum (l : list f64) : f64 := foldl f64_add (S754_zero true) l.

#[export] Instance f64_eq_dec : EqDecision f64.
Proof. solve_decision. Defined.

Lemma f64_eqb_refl x : x <> S754_nan -> f64_eqb x x = true.
Proof.
  unfold f64_eqb, SFeqb. destruct x as [s|[]| |[] m e]; try done; simpl; intros _.
  - rewrite Z.compare_refl. change (Pos.compare_cont Eq m m) with (Pos.compare m m).
    by rewrite Pos.compare_refl.
  - rewrite Z.compare_refl. change (Pos.compare_cont Eq m m) with (Pos.compare m m).
    by rewrite Pos.compare_refl.
Qed.

Lemma f64_eqb_sym x y : f64_eqb x y = f64_eqb y x.
Proof.
  unfold f64_eqb, SFeqb. destruct x as [[]|[]| |[] m e], y as [[]|[]| |[] m' e']; try done; simpl;
    rewrite (Z.compare_antisym e e');
    change (Pos.compare_cont Eq ?a ?b) with (Pos.compare a b);
    rewrite (Pos.compare_antisym m m'); by destruct (Z.compare e e'), (Pos.compare m m').
Qed.

Lemma f64_finite_not_nan x : f64_is_finite x = true -> x <> S754_nan.
Proof. by destruct x. Qed.

(** [chrono::DateTime::parse_from_rfc3339]: the instant in nanoseconds *)
Class Rfc3339 := rfc3339_instant : string -> option Z.
(** [{:?}] of a string *)
Class DebugText := debug_text : string -> string.

(** ** Iterating ordered collections *)

Section Ordered.
Context {A : Type} `{Countable A} (R : relation A) `{!RelDecision R}.

(** [BTreeSet::iter]: the members in increasing order. *)
Definition btree_iter (X : gset A) : list A := merge_sort R (elements X).
(** [BTreeMap::iter] *)
Definition btree_keys {V} (m : gmap A V) : list A := merge_sort R (elements (dom m)).

Lemma elem_of_btree_iter X x : x ∈ btree_iter X <-> x ∈ X.
Proof. unfold btree_iter. by rewrite merge_sort_Permutation, elem_of_elements. Qed.

Lemma btree_iter_perm X : btree_iter X ≡ₚ elements X.
Proof. apply merge_sort_Permutation. Qed.

Lemma NoDup_btree_iter X : NoDup (btree_iter X).
Proof. rewrite btree_iter_perm. apply NoDup_elements. Qed.

Lemma length_btree_iter X : length (btree_iter X) = size X.
Proof. by rewrite btree_iter_perm. Qed.

Lemma sorted_btree_iter `{!Transitive R, !Total R} X : StronglySorted R (btree_iter X).
Proof. apply StronglySorted_merge_sort; apply _. Qed.
End Ordered.

(** [set.len() != list.len()] detects a repeated element. *)
Lemma size_list_to_set_le {A} `{Countable A} (l : list A) :
  (size (list_to_set l : gset A) <= length l)%nat.
Proof.
  induction l as [|x l IH]; [done|]. rewrite list_to_set_cons, size_union_alt, size_singleton.
  cbn [length].
  assert (size ((list_to_set l : gset A) ∖ {[x]}) <= size (list_to_set l : gset A))%nat; [|lia].
  apply subseteq_size. set_solver.
Qed.

Lemma size_list_to_set_NoDup {A} `{Countable A} (l : list A) :
  size (list_to_set l : gset A) = length l <-> NoDup l.
Proof.
  split; [|intros Hn; by apply size_list_to_set].
  induction l as [|x l IH]; [constructor|]. rewrite list_to_set_cons. cbn [length]. intros Hs.
  pose proof (size_list_to_set_le l) as Hle.
  destruct (decide (x ∈ l)) as [Hx|Hx].
  - assert ({[x]} ∪ list_to_set l = (list_to_set l : gset A)) as Heq by set_solver.
    rewrite Heq in Hs. lia.
  - constructor; [done|]. apply IH.
    rewrite size_union, size_singleton in Hs by set_solver. lia.
Qed.

(** Sorting with a key that tells the elements apart forgets their order. *)
Lemma merge_sort_key_perm {A} (le : relation A) `{!RelDecision le, !Transitive le, !Total le}
    (l k : list A) :
  (forall x y, x ∈ l -> y ∈ l -> le x y -> le y x -> x = y) ->
  l ≡ₚ k -> merge_sort le l = merge_sort le k.
Proof.
  intros Huniq Hlk. apply (StronglySorted_unique_strong le).
  - intros x y Hx Hy. rewrite merge_sort_Permutation in Hx, Hy. rewrite <-Hlk in Hy. auto.
  - apply (StronglySorted_merge_sort le).
  - apply (StronglySorted_merge_sort le).
  - by rewrite !merge_sort_Permutation.
Qed.

Lemma merge_sort_string_perm (l k : list string) :
  l ≡ₚ k -> merge_sort String.le l = merge_sort String.le k.
Proof. apply merge_sort_key_perm; try apply _. intros x y _ _. apply (anti_symm String.le). Qed.

Abbreviation str_iter := (btree_iter String.le).

Create HintDb rust discriminated.
#[export] Hint Resolve f64_eqb_refl f64_finite_not_nan NoDup_btree_iter : rust.
