(* ===== verification/Ordering.v ===== *)
(** * Orders shared by several components: Rust's stable sort, and the
    comparison of binary64 numbers

    [sort_by] keeps equal elements in their original order, which stdpp's
    [merge_sort] does not; [stable_sort] is the insertion sort with that
    property. The comparisons of [SpecFloat] are shown to be a total order on
    the numbers (everything but NaN), so that chains of [<] and [<=] can be
    solved by [lia] through [fkey]. *)

From S2P Require Import Prelude RustStd.

(** ** Stable sorting *)

Section StableSort.
Context {A : Type} (le : relation A) `{!RelDecision le}.

Fixpoint sorted_insert (x : A) (l : list A) : list A :=
  match l with
  | [] => [x]
  | y :: l' => if decide (le x y) then x :: l else y :: sorted_insert x l'
  end.
(** [slice::sort_by] *)
Fixpoint stable_sort (l : list A) : list A :=
  match l with [] => [] | x :: l => sorted_insert x (stable_sort l) end.

Lemma sorted_insert_perm x l : sorted_insert x l ≡ₚ x :: l.
Proof.
  induction l as [|y l IH]; simpl; [done|]. destruct (decide (le x y)); [done|].
  rewrite IH. apply Permutation_swap.
Qed.

Lemma stable_sort_perm l : stable_sort l ≡ₚ l.
Proof. induction l as [|x l IH]; simpl; [done|]. by rewrite sorted_insert_perm, IH. Qed.

Lemma elem_of_stable_sort x l : x ∈ stable_sort l <-> x ∈ l.
Proof. by rewrite stable_sort_perm. Qed.

Lemma sorted_insert_sorted `{!Transitive le, !Total le} x l :
  StronglySorted le l -> StronglySorted le (sorted_insert x l).
Proof.
  induction 1 as [|y l Hs IH Hy]; simpl; [repeat constructor|].
  destruct (decide (le x y)) as [Hxy|Hxy].
  - constructor; [by constructor|]. constructor; [done|].
    eapply Forall_impl; [exact Hy|]. intros z Hz. by transitivity y.
  - constructor; [exact IH|]. apply Forall_forall. intros z Hz.
    rewrite sorted_insert_perm in Hz. apply elem_of_cons in Hz as [->|Hz].
    + by destruct (total le x y).
    + by eapply Forall_forall in Hy.
Qed.

Lemma stable_sort_sorted `{!Transitive le, !Total le} l : StronglySorted le (stable_sort l).
Proof. induction l; simpl; [constructor | by apply sorted_insert_sorted]. Qed.

(** Elements the order tells apart come out in one order only. *)
Lemma stable_sort_unique `{!Transitive le, !Total le} l k :
  (forall x y, x ∈ l -> y ∈ l -> le x y -> le y x -> x = y) ->
  l ≡ₚ k -> stable_sort l = stable_sort k.
Proof.
  intros Huniq Hlk. apply (StronglySorted_unique_strong le).
  - intros x y Hx Hy. rewrite elem_of_stable_sort in Hx, Hy. rewrite <-Hlk in Hy. auto.
  - by apply stable_sort_sorted.
  - by apply stable_sort_sorted.
  - by rewrite !stable_sort_perm.
Qed.

Lemma stable_sort_id l : StronglySorted le l -> stable_sort l = l.
Proof.
  induction 1 as [|x l Hs IH Hx]; simpl; [done|]. rewrite IH.
  destruct l as [|y l]; [done|]. simpl. rewrite decide_True; [done|]. by inversion Hx.
Qed.
End StableSort.

(** Sorting by a string key *)
Section ByKey.
Context {A : Type} (key : A -> string).

Definition key_le (a b : A) : Prop := String.le (key a) (key b).
#[export] Instance key_le_dec : RelDecision key_le.
Proof. intros a b. unfold key_le. apply _. Defined.
#[export] Instance key_le_total : Total key_le.
Proof. intros a b. apply (total String.le). Qed.
#[export] Instance key_le_trans : Transitive key_le.
Proof. intros a b c. apply (transitivity (R:=String.le)). Qed.

Lemma NoDup_key_inj (l : list A) x y :
  NoDup (map key l) -> x ∈ l -> y ∈ l -> key x = key y -> x = y.
Proof.
  induction l as [|a l IH]; simpl; intros Hn Hx Hy Hxy; [by apply not_elem_of_nil in Hx|].
  apply NoDup_cons in Hn as [Ha Hn].
  apply elem_of_cons in Hx as [->|Hx]; apply elem_of_cons in Hy as [->|Hy]; [done|..|by apply IH].
  - destruct Ha. rewrite Hxy. by apply (list_elem_of_fmap_2 key).
  - destruct Ha. rewrite <-Hxy. by apply (list_elem_of_fmap_2 key).
Qed.

Lemma stable_sort_by_key_perm (l k : list A) :
  NoDup (map key l) -> l ≡ₚ k -> stable_sort key_le l = stable_sort key_le k.
Proof.
  intros Hn. apply stable_sort_unique; try apply _. intros x y Hx Hy H1 H2.
  apply (NoDup_key_inj l); try done. by apply (anti_symm String.le).
Qed.
End ByKey.

(** ** Tests of all elements *)

Lemma existsb_perm {A} (f : A -> bool) l k : l ≡ₚ k -> existsb f l = existsb f k.
Proof.
  induction 1; simpl; try congruence. by rewrite !orb_assoc, (orb_comm (f y)).
Qed.

Lemma forallb_perm {A} (f : A -> bool) l k : l ≡ₚ k -> forallb f l = forallb f k.
Proof.
  induction 1; simpl; try congruence. by rewrite !andb_assoc, (andb_comm (f y)).
Qed.

(** ** The order of binary64 numbers *)

Local Open Scope Z_scope.

(** [f64::min]: a NaN operand is ignored. *)
Definition f64_min (x y : f64) : f64 :=
  match x, y with
  | S754_nan, _ => y
  | _, S754_nan => x
  | _, _ => if f64_ltb y x then y else x
  end.
Definition f64_infinity : f64 := S754_infinity false.
Definition f64_neg_infinity : f64 := S754_infinity true.

(** Sign class, exponent, significand: numbers compare lexicographically. *)
Definition fkey (x : f64) : Z * Z * Z :=
  match x with
  | S754_zero _ | S754_nan => (0, 0, 0)
  | S754_infinity s => (if s then -2 else 2, 0, 0)
  | S754_finite false m e => (1, e, Zpos m)
  | S754_finite true m e => (-1, - e, Zneg m)
  end.
Definition klt (a b : Z * Z * Z) : Prop :=
  a.1.1 < b.1.1 \/ (a.1.1 = b.1.1 /\ (a.1.2 < b.1.2 \/ (a.1.2 = b.1.2 /\ a.2 < b.2))).
Definition is_number (x : f64) : bool := match x with S754_nan => false | _ => true end.

Lemma finite_number x : f64_is_finite x = true -> is_number x = true.
Proof. by destruct x. Qed.

Lemma compare_key x y :
  is_number x = true -> is_number y = true ->
  match SFcompare x y with
  | Some Lt => klt (fkey x) (fkey y)
  | Some Eq => fkey x = fkey y
  | Some Gt => klt (fkey y) (fkey x)
  | None => False
  end.
Proof.
  unfold klt. destruct x as [[]|[]| |[] m e], y as [[]|[]| |[] m' e']; simpl; intros; try done; try lia;
    change (Pos.compare_cont Eq ?a ?b) with (Pos.compare a b);
    destruct (Z.compare_spec e e'); simpl; try lia;
    destruct (Pos.compare_spec m m'); simpl; subst; try lia; done.
Qed.

Lemma ltb_key x y : is_number x = true -> is_number y = true ->
  f64_ltb x y = true <-> klt (fkey x) (fkey y).
Proof.
  intros Hx Hy. pose proof (compare_key x y Hx Hy) as Hc. unfold f64_ltb, SFltb.
  destruct (SFcompare x y) as [[]|]; unfold klt in *; split; try done; intros; rewrite ?Hc in *; lia.
Qed.

Lemma leb_key x y : is_number x = true -> is_number y = true ->
  f64_leb x y = true <-> ~ klt (fkey y) (fkey x).
Proof.
  intros Hx Hy. pose proof (compare_key x y Hx Hy) as Hc. unfold f64_leb, SFleb.
  destruct (SFcompare x y) as [[]|]; unfold klt in *; split; try done; intros; rewrite ?Hc in *; lia.
Qed.

Lemma eqb_key x y : is_number x = true -> is_number y = true ->
  f64_eqb x y = true <-> fkey x = fkey y.
Proof.
  intros Hx Hy. pose proof (compare_key x y Hx Hy) as Hc. unfold f64_eqb, SFeqb.
  destruct (SFcompare x y) as [[]|]; unfold klt in *; split; try done; intros Hk; rewrite ?Hk in *; lia.
Qed.

(** Triples of integers are equal component by component. *)
Lemma key_eq (a b : Z * Z * Z) : a = b <-> a.1.1 = b.1.1 /\ a.1.2 = b.1.2 /\ a.2 = b.2.
Proof. destruct a as [[]], b as [[]]. simpl. split; [by intros [= -> -> ->] | by intros (-> & -> & ->)]. Qed.

(** Turns comparisons of numbers into integer inequalities and solves them. *)
Ltac float_order :=
  repeat match goal with
  | H : f64_ltb ?x ?y = true |- _ => apply ltb_key in H; [|assumption..]
  | H : f64_leb ?x ?y = true |- _ => apply leb_key in H; [|assumption..]
  | H : f64_eqb ?x ?y = true |- _ => apply eqb_key in H; [|assumption..]; apply key_eq in H
  | H : f64_ltb ?x ?y = false |- _ => apply not_true_iff_false in H; rewrite ltb_key in H by assumption
  | H : f64_leb ?x ?y = false |- _ => apply not_true_iff_false in H; rewrite leb_key in H by assumption
  | |- f64_ltb ?x ?y = true => apply ltb_key; [assumption..|]
  | |- f64_leb ?x ?y = true => apply leb_key; [assumption..|]
  | |- f64_ltb ?x ?y = false => apply not_true_iff_false; rewrite ltb_key by assumption
  | |- f64_leb ?x ?y = false => apply not_true_iff_false; rewrite leb_key by assumption
  end; unfold klt in *; lia.
