(* ===== verification/Rounding.v ===== *)
(** * Addition of non-negative binary64 numbers

    [SpecFloat] computes with significands and exponents. On the non-negative
    numbers, addition is shown to be: add as integers in units of [2^-1074], round
    to 53 bits (ties to even), saturate at infinity. So adding a non-negative
    number is monotone and never decreases its operand, which is what the costs
    of routes rely on. *)

From S2P Require Import Prelude RustStd Ordering.
Local Open Scope Z_scope.

(** ** Digits *)

Lemma pow2_pred d : 0 < d -> 2 ^ d = 2 * 2 ^ (d - 1).
Proof. intros Hd. replace d with (Z.succ (d - 1)) at 1 by lia. by rewrite Z.pow_succ_r by lia. Qed.

Lemma digits2_pos_bounds p : 2 ^ (Zpos (digits2_pos p) - 1) <= Zpos p < 2 ^ Zpos (digits2_pos p).
Proof.
  induction p as [p IH|p IH|]; cbn [digits2_pos]; [| |done];
    rewrite (pow2_pred (Zpos (Pos.succ _))) by lia; rewrite Pos2Z.inj_succ;
    replace (Z.succ (Zpos (digits2_pos p)) - 1) with (Zpos (digits2_pos p)) by lia;
    rewrite (pow2_pred (Zpos (digits2_pos p))) in * by lia; lia.
Qed.

Lemma significand_digits m d : 0 < d -> 2 ^ (d - 1) <= Zpos m < 2 ^ d -> Zpos (digits2_pos m) = d.
Proof.
  intros Hd [Hl Hh]. destruct (digits2_pos_bounds m) as [Hl' Hh'].
  apply Z.le_antisymm; apply Z.lt_succ_r; apply Z.lt_succ_r.
  - apply Z.le_ngt. intros Hlt. pose proof (Z.pow_le_mono_r 2 d (Zpos (digits2_pos m) - 1)). lia.
  - apply Z.le_ngt. intros Hlt. pose proof (Z.pow_le_mono_r 2 (Zpos (digits2_pos m)) (d - 1)). lia.
Qed.

Lemma digits_shift m j n : 0 <= j -> Zpos n = Zpos m * 2 ^ j ->
  Zpos (digits2_pos n) = Zpos (digits2_pos m) + j.
Proof.
  intros Hj Hn. destruct (digits2_pos_bounds m). apply significand_digits; [lia|].
  rewrite Hn, Z.pow_add_r by lia.
  replace (Zpos (digits2_pos m) + j - 1) with ((Zpos (digits2_pos m) - 1) + j) by lia.
  rewrite Z.pow_add_r by lia. assert (0 < 2 ^ j) by lia. nia.
Qed.

Lemma digits_mono m n : Zpos m <= Zpos n -> Zpos (digits2_pos m) <= Zpos (digits2_pos n).
Proof.
  intros Hle. destruct (digits2_pos_bounds m), (digits2_pos_bounds n).
  apply Z.le_ngt. intros Hlt.
  pose proof (Z.pow_le_mono_r 2 (Zpos (digits2_pos n)) (Zpos (digits2_pos m) - 1)). lia.
Qed.

(** ** Rounding an integer to 53 bits *)

(** [V] without its last [n] bits, rounded to the nearest, ties to even *)
Definition round_half_even (V n : Z) : Z :=
  let q := V / 2 ^ n in
  let half := Z.odd (V / 2 ^ (n - 1)) in
  let rest := negb (V mod 2 ^ (n - 1) =? 0) in
  if half then if rest then q + 1 else if Z.even q then q else q + 1 else q.

Definition round53 (V : Z) : Z :=
  let n := Zdigits2 V - 53 in
  if n <=? 0 then V else round_half_even V n * 2 ^ n.

Lemma halves V n : 0 <= V -> 0 < n ->
  exists q r h, V = q * (2 * h) + r /\ 0 <= r < 2 * h /\ 0 < h /\ 2 ^ n = 2 * h /\ 2 ^ (n - 1) = h
    /\ V / 2 ^ n = q /\ 0 <= q
    /\ (Z.odd (V / 2 ^ (n - 1)) = true <-> h <= r)
    /\ ((V mod 2 ^ (n - 1) =? 0) = true <-> r = 0 \/ r = h).
Proof.
  intros HV Hn. exists (V / 2 ^ n), (V mod 2 ^ n), (2 ^ (n - 1)).
  pose proof (pow2_pred n Hn) as Hp.
  assert (Hh : 0 < 2 ^ (n - 1)) by (apply Z.pow_pos_nonneg; lia).
  rewrite Hp. generalize (2 ^ (n - 1)) Hh. intros h Hh'. clear Hp Hh.
  pose proof (Z.div_mod V (2 * h)) as Hdm. pose proof (Z.mod_pos_bound V (2 * h)) as Hmod.
  pose proof (Z.div_pos V (2 * h)) as Hq.
  set (q := V / (2 * h)) in *. set (r := V mod (2 * h)) in *.
  split_and!; try done; try lia.
  - destruct (Z.le_gt_cases h r) as [Hr|Hr].
    + rewrite <-(Z.div_unique V h (2 * q + 1) (r - h)) by lia.
      rewrite Z.odd_add, Z.odd_mul. simpl. by split.
    + rewrite <-(Z.div_unique V h (2 * q) r) by lia. rewrite Z.odd_mul. simpl. split; [done | lia].
  - rewrite Z.eqb_eq. destruct (Z.le_gt_cases h r) as [Hr|Hr].
    + rewrite <-(Z.mod_unique V h (2 * q + 1) (r - h)) by lia. lia.
    + rewrite <-(Z.mod_unique V h (2 * q) r) by lia. lia.
Qed.

Lemma round_half_even_spec V n : 0 <= V -> 0 < n ->
  exists q r h, V = q * (2 * h) + r /\ 0 <= r < 2 * h /\ 2 ^ n = 2 * h /\ 0 <= q /\ V / 2 ^ n = q
    /\ round_half_even V n = if (r <? h) || (r =? h) && Z.even q then q else q + 1.
Proof.
  intros HV Hn. destruct (halves V n HV Hn) as (q & r & h & H1 & H2 & H3 & H4 & _ & H6 & H7 & Ho & Hz).
  exists q, r, h. split_and!; try done; try lia. unfold round_half_even. rewrite H6. clear H1 H4 H6.
  destruct (Z.odd _).
  - destruct Ho as [Ho _]. specialize (Ho eq_refl).
    destruct (Z.ltb_spec r h); [lia|]. simpl. destruct (_ =? 0).
    + destruct Hz as [Hz _]. destruct (Hz eq_refl) as [|Hr]; [lia|]. by rewrite Hr, Z.eqb_refl.
    + simpl. destruct (Z.eqb_spec r h) as [->|]; [|done].
      destruct Hz as [_ Hz]. discriminate Hz. by right.
  - destruct (Z.ltb_spec r h); [done|]. destruct Ho as [_ Ho]. discriminate Ho. lia.
Qed.

Lemma round_half_even_bounds V n : V / 2 ^ n <= round_half_even V n <= V / 2 ^ n + 1.
Proof. unfold round_half_even. repeat case_match; lia. Qed.

Lemma round_half_even_mono V W n : 0 <= V <= W -> 0 < n -> round_half_even V n <= round_half_even W n.
Proof.
  intros HV Hn.
  destruct (round_half_even_spec V n) as (q & r & h & H1 & H2 & H3 & H4 & _ & ->); [lia..|].
  destruct (round_half_even_spec W n) as (q' & r' & h' & H1' & H2' & H3' & H4' & _ & ->); [lia..|].
  assert (h' = h) as -> by lia. clear H3 H3'.
  assert (Hq : q < q' \/ (q = q' /\ r <= r')) by nia. clear H1 H1' HV.
  destruct Hq as [Hq|[<- Hr]].
  - repeat case_match; lia.
  - destruct (Z.ltb_spec r h), (Z.ltb_spec r' h), (Z.eqb_spec r h), (Z.eqb_spec r' h); simpl;
      destruct (Z.even q); lia.
Qed.

Lemma round_half_even_exact q n : 0 <= q -> 0 < n -> round_half_even (q * 2 ^ n) n = q.
Proof.
  intros Hq Hn. unfold round_half_even.
  destruct (halves (q * 2 ^ n) n) as (q' & r & h & H1 & H2 & H3 & H4 & H5 & H6 & H7 & Ho & Hz); [lia|lia|].
  rewrite H4 in *. rewrite Z.div_mul in * by lia. subst q'. assert (r = 0) as -> by nia.
  destruct (Z.odd _); [|done]. destruct Ho as [Ho _]. specialize (Ho eq_refl). lia.
Qed.

Lemma round_half_even_shift V n j : 0 <= V -> 0 < n -> 0 <= j ->
  round_half_even (V * 2 ^ j) (n + j) = round_half_even V n.
Proof.
  intros HV Hn Hj. unfold round_half_even. assert (0 < 2 ^ j) by lia.
  replace (n + j - 1) with ((n - 1) + j) by lia. rewrite !Z.pow_add_r by lia.
  rewrite !Z.div_mul_cancel_r by lia. rewrite Z.mul_mod_distr_r by lia.
  assert ((V mod 2 ^ (n - 1) * 2 ^ j =? 0) = (V mod 2 ^ (n - 1) =? 0)) as ->; [|done].
  apply eq_true_iff_eq. rewrite !Z.eqb_eq. nia.
Qed.

Lemma Zdigits2_bounds V : 0 < V -> 2 ^ (Zdigits2 V - 1) <= V < 2 ^ Zdigits2 V.
Proof. destruct V as [|p|p]; [lia| |lia]. intros _. apply digits2_pos_bounds. Qed.

Lemma Zdigits2_mono V W : 0 <= V <= W -> Zdigits2 V <= Zdigits2 W.
Proof.
  destruct V as [|p|p], W as [|q|q]; simpl; try lia. intros [_ H]. by apply digits_mono.
Qed.

(** The rounded significand has 53 bits, or is the power of two above them. *)
Lemma round53_bounds V : 0 < V -> 0 < Zdigits2 V - 53 ->
  let n := Zdigits2 V - 53 in 2 ^ 52 <= V / 2 ^ n < 2 ^ 53.
Proof.
  intros HV Hn n. destruct (Zdigits2_bounds V HV) as [Hl Hh].
  assert (H2 : 0 < 2 ^ n) by (apply Z.pow_pos_nonneg; lia).
  split.
  - apply Z.div_le_lower_bound; [done|]. rewrite <-Z.pow_add_r by lia.
    replace (n + 52) with (Zdigits2 V - 1) by lia. done.
  - apply Z.div_lt_upper_bound; [done|]. rewrite <-Z.pow_add_r by lia.
    replace (n + 53) with (Zdigits2 V) by lia. done.
Qed.

Lemma round53_mono V W : 0 <= V <= W -> round53 V <= round53 W.
Proof.
  intros HV. destruct (Z.eq_dec V 0) as [->|H0].
  { unfold round53 at 1. simpl. unfold round53. destruct (Z.leb_spec (Zdigits2 W - 53) 0); [lia|].
    pose proof (round_half_even_bounds W (Zdigits2 W - 53)).
    pose proof (Z.div_pos W (2 ^ (Zdigits2 W - 53))). 
    assert (0 < 2 ^ (Zdigits2 W - 53)) by (apply Z.pow_pos_nonneg; lia). nia. }
  pose proof (Zdigits2_mono V W HV) as Hd. destruct (Zdigits2_bounds V) as [Vl Vh]; [lia|].
  unfold round53. destruct (Z.leb_spec (Zdigits2 V - 53) 0) as [Hn|Hn].
  - destruct (Z.leb_spec (Zdigits2 W - 53) 0) as [Hm|Hm]; [lia|].
    pose proof (round53_bounds W ltac:(lia) Hm) as Hq. simpl in Hq.
    pose proof (round_half_even_bounds W (Zdigits2 W - 53)) as Hr.
    assert (2 ^ Zdigits2 V <= 2 ^ 53) by (apply Z.pow_le_mono_r; lia).
    assert (2 ^ 1 <= 2 ^ (Zdigits2 W - 53)) by (apply Z.pow_le_mono_r; lia).
    change (2 ^ 53) with (2 ^ 52 * 2) in *. change (2 ^ 1) with 2 in *. nia.
  - destruct (Z.leb_spec (Zdigits2 W - 53) 0) as [Hm|Hm]; [lia|].
    destruct (Z.eq_dec (Zdigits2 V) (Zdigits2 W)) as [->|Hne].
    { apply Z.mul_le_mono_nonneg_r; [apply Z.pow_nonneg; lia|]. by apply round_half_even_mono. }
    pose proof (round53_bounds V ltac:(lia) Hn) as HqV. pose proof (round53_bounds W ltac:(lia) Hm) as HqW.
    simpl in HqV, HqW.
    pose proof (round_half_even_bounds V (Zdigits2 V - 53)). pose proof (round_half_even_bounds W (Zdigits2 W - 53)).
    assert (H53 : 2 ^ (Zdigits2 V - 53 + 1) <= 2 ^ (Zdigits2 W - 53)) by (apply Z.pow_le_mono_r; lia).
    rewrite Z.pow_add_r in H53 by lia. change (2 ^ 1) with 2 in H53.
    assert (0 < 2 ^ (Zdigits2 V - 53)) by (apply Z.pow_pos_nonneg; lia).
    change (2 ^ 53) with (2 ^ 52 * 2) in *. nia.
Qed.

Lemma round53_exact m j : 0 <= m < 2 ^ 53 -> 0 <= j -> round53 (m * 2 ^ j) = m * 2 ^ j.
Proof.
  intros Hm Hj. unfold round53. set (n := Zdigits2 (m * 2 ^ j) - 53).
  destruct (Z.leb_spec n 0) as [|Hn]; [done|].
  destruct (Z.eq_dec m 0) as [->|H0]; [by simpl in Hn|].
  assert (H2 : 0 < 2 ^ j) by (apply Z.pow_pos_nonneg; lia).
  destruct (Zdigits2_bounds (m * 2 ^ j)) as [Hl _]; [nia|].
  assert (Hnj : n <= j).
  { apply Z.le_ngt. intros Hlt.
    assert (2 ^ (53 + j) <= 2 ^ (Zdigits2 (m * 2 ^ j) - 1)) by (apply Z.pow_le_mono_r; lia).
    rewrite Z.pow_add_r in * by lia. nia. }
  replace (m * 2 ^ j) with ((m * 2 ^ (j - n)) * 2 ^ n)
    by (rewrite <-Z.mul_assoc, <-Z.pow_add_r by lia; do 2 f_equal; lia).
  rewrite round_half_even_exact; [done| |done]. apply Z.mul_nonneg_nonneg; [lia|].
  apply Z.pow_nonneg. lia.
Qed.

(** ** What SpecFloat's shifts compute *)

Lemma iter_pos_iter {A} (f : A -> A) p x : iter_pos f p x = Pos.iter f x p.
Proof.
  revert x. induction p as [p IH|p IH|]; intros x; simpl; rewrite ?IH; [|done..].
  rewrite <-!Pos.iter_swap. by rewrite Pos.iter_swap.
Qed.

Lemma shr_1_nonneg m r s : 0 <= m ->
  shr_1 {| shr_m := m; shr_r := r; shr_s := s |}
  = {| shr_m := m / 2; shr_r := Z.odd m; shr_s := r || s |}.
Proof.
  intros Hm. rewrite <-Z.div2_div. destruct m as [|[p|p|]|p]; try done.
Qed.

Lemma shr_spec m p : 0 <= m ->
  Pos.iter shr_1 {| shr_m := m; shr_r := false; shr_s := false |} p
  = {| shr_m := m / 2 ^ Zpos p; shr_r := Z.odd (m / 2 ^ (Zpos p - 1));
       shr_s := negb (m mod 2 ^ (Zpos p - 1) =? 0) |}.
Proof.
  intros Hm. induction p as [|p IH] using Pos.peano_ind.
  - cbn [Pos.iter]. rewrite shr_1_nonneg by done. simpl.
    change (2 ^ (1 - 1)) with 1. rewrite Z.div_1_r, Z.mod_1_r. done.
  - rewrite Pos.iter_succ, IH, shr_1_nonneg by (apply Z.div_pos; [done | lia]).
    rewrite Pos2Z.inj_succ. replace (Z.succ (Zpos p) - 1) with (Zpos p) by lia.
    destruct (halves m (Zpos p) Hm) as (q & r & h & H1 & H2 & H3 & H4 & H5 & H6 & H7 & Ho & Hz); [lia|].
    f_equal.
    + rewrite Z.pow_succ_r, Z.div_div by lia. f_equal. lia.
    + assert (Hr : m mod 2 ^ Zpos p = r) by (rewrite H4; symmetry; apply (Z.mod_unique m (2 * h) q r); lia).
      rewrite Hr. apply eq_true_iff_eq.
      rewrite orb_true_iff, !negb_true_iff, !Z.eqb_neq, Ho.
      rewrite <-not_true_iff_false, Z.eqb_eq in Hz || rewrite Z.eqb_eq in Hz. lia.
Qed.

Lemma nearest_even_spec m p : 0 <= m ->
  let mrs := Pos.iter shr_1 {| shr_m := m; shr_r := false; shr_s := false |} p in
  round_nearest_even (shr_m mrs) (loc_of_shr_record mrs) = round_half_even m (Zpos p).
Proof.
  intros Hm. rewrite shr_spec by done. unfold round_half_even. simpl.
  destruct (Z.odd _), (_ =? 0); done.
Qed.

(** ** Values *)

(** The value in units of [2^-1074]; infinity is the first power of two that is
    out of range. *)
Definition infinity_units : Z := 2 ^ 2098.
Definition units (x : f64) : Z :=
  match x with
  | S754_finite _ m e => Zpos m * 2 ^ (e + 1074)
  | S754_infinity _ => infinity_units
  | _ => 0
  end.

(** Non-negative numbers that are binary64 values *)
Definition nonneg (x : f64) : bool :=
  match x with
  | S754_zero _ | S754_infinity false => true
  | S754_finite false m e => bounded 53 1024 m e
  | _ => false
  end.

Lemma fexp_spec e : fexp 53 1024 e = Z.max (e - 53) (-1074).
Proof. reflexivity. Qed.

Lemma bounded_spec m e :
  bounded 53 1024 m e = true
  <-> e = Z.max (Zpos (digits2_pos m) + e - 53) (-1074) /\ e <= 971.
Proof.
  unfold bounded, canonical_mantissa. rewrite andb_true_iff, Z.eqb_eq, Z.leb_le, fexp_spec.
  change (1024 - 53) with 971. split; intros [? ?]; split; lia.
Qed.

Lemma bounded_significand m e : bounded 53 1024 m e = true -> Zpos m < 2 ^ 53 /\ -1074 <= e <= 971.
Proof.
  intros [He Hm]%bounded_spec. destruct (digits2_pos_bounds m) as [_ Hh].
  assert (2 ^ Zpos (digits2_pos m) <= 2 ^ 53) by (apply Z.pow_le_mono_r; lia). lia.
Qed.

(** A 53-bit significand above the range *)
Lemma overflow_units m e : 2 ^ 52 <= m -> 972 <= e -> infinity_units <= m * 2 ^ (e + 1074).
Proof.
  intros Hm He. change infinity_units with (2 ^ (52 + 2046)). rewrite (Z.pow_add_r 2 52 2046) by lia.
  assert (2 ^ 2046 <= 2 ^ (e + 1074)) by (apply Z.pow_le_mono_r; lia).
  apply Z.mul_le_mono_nonneg; lia.
Qed.

Lemma in_range_units m e : m < 2 ^ 53 -> -1074 <= e <= 971 -> m * 2 ^ (e + 1074) < infinity_units.
Proof.
  intros Hm He. change infinity_units with (2 ^ (53 + 2045)). rewrite (Z.pow_add_r 2 53 2045) by lia.
  assert (2 ^ (e + 1074) <= 2 ^ 2045) by (apply Z.pow_le_mono_r; lia).
  assert (0 < 2 ^ (e + 1074)) by (apply Z.pow_pos_nonneg; lia).
  apply Z.lt_le_trans with (2 ^ 53 * 2 ^ (e + 1074)).
  - by apply Z.mul_lt_mono_pos_r.
  - apply Z.mul_le_mono_nonneg_l; [lia | done].
Qed.

(** The last step of [binary_round_aux]: a canonical significand, or infinity *)
Lemma pack_spec m e :
  fexp 53 1024 (Zpos (digits2_pos m) + e) = e ->
  let R := if e <=? 1024 - 53 then S754_finite false m e else S754_infinity false in
  nonneg R = true /\ units R = Z.min (Zpos m * 2 ^ (e + 1074)) infinity_units.
Proof.
  rewrite fexp_spec. intros He R. unfold R. destruct (Z.leb_spec e (1024 - 53)) as [Hle|Hgt].
  - assert (Hb : bounded 53 1024 m e = true) by (apply bounded_spec; lia).
    split; [done|]. destruct (bounded_significand m e Hb) as [Hm He'].
    simpl. pose proof (in_range_units (Zpos m) e Hm He'). lia.
  - split; [done|]. simpl.
    destruct (digits2_pos_bounds m) as [Hl _].
    pose proof (overflow_units (Zpos m) e) as Ho.
    replace (Zpos (digits2_pos m) - 1) with 52 in Hl by lia. specialize (Ho Hl). lia.
Qed.

Lemma shr_fexp_none m e : fexp 53 1024 (Zdigits2 m + e) = e ->
  shr_fexp 53 1024 m e loc_Exact = ({| shr_m := m; shr_r := false; shr_s := false |}, e).
Proof. intros He. unfold shr_fexp. by rewrite He, Z.sub_diag. Qed.

Lemma round_aux_canonical m e : fexp 53 1024 (Zpos (digits2_pos m) + e) = e ->
  binary_round_aux 53 1024 false (Zpos m) e loc_Exact
  = if e <=? 1024 - 53 then S754_finite false m e else S754_infinity false.
Proof.
  intros He. unfold binary_round_aux. rewrite shr_fexp_none by done. simpl.
  by rewrite shr_fexp_none by done.
Qed.

Lemma round53_canonical m e :
  -1074 <= e -> fexp 53 1024 (Zpos (digits2_pos m) + e) = e ->
  round53 (Zpos m * 2 ^ (e + 1074)) = Zpos m * 2 ^ (e + 1074).
Proof.
  intros He Hf. rewrite fexp_spec in Hf. apply round53_exact; [|lia]. split; [lia|].
  destruct (digits2_pos_bounds m) as [_ Hh].
  assert (2 ^ Zpos (digits2_pos m) <= 2 ^ 53) by (apply Z.pow_le_mono_r; lia). lia.
Qed.

(** Rounding the significand cannot need a second shift of more than one bit. *)
Lemma renormalize r e : 2 ^ 52 <= Zpos r <= 2 ^ 53 -> -1074 <= e ->
  exists m e', shr_fexp 53 1024 (Zpos r) e loc_Exact
      = ({| shr_m := Zpos m; shr_r := false; shr_s := false |}, e')
    /\ fexp 53 1024 (Zpos (digits2_pos m) + e') = e'
    /\ Zpos m * 2 ^ (e' + 1074) = Zpos r * 2 ^ (e + 1074).
Proof.
  intros Hr He. destruct (Z.eq_dec (Zpos r) (2 ^ 53)) as [Heq|Hne].
  - assert (r = 9007199254740992%positive) as -> by (by injection Heq).
    exists 4503599627370496%positive, (e + 1). split_and!.
    + unfold shr_fexp. change (Zdigits2 (Zpos 9007199254740992)) with 54.
      rewrite fexp_spec. assert (Z.max (54 + e - 53) (-1074) - e = 1) as -> by lia. reflexivity.
    + rewrite fexp_spec. change (Zpos (digits2_pos 4503599627370496)) with 53. lia.
    + replace (e + 1 + 1074) with (e + 1074 + 1) by lia. rewrite (Z.pow_add_r 2 (e + 1074)) by lia. lia.
  - exists r, e. assert (Hd : Zpos (digits2_pos r) = 53) by (apply significand_digits; simpl in *; lia).
    assert (Hf : fexp 53 1024 (Zpos (digits2_pos r) + e) = e) by (rewrite fexp_spec; lia).
    split_and!; [by apply shr_fexp_none | done | done].
Qed.

Lemma iter_xO m n : Zpos (Pos.iter xO m n) = Zpos m * 2 ^ Zpos n.
Proof.
  induction n as [|n IH] using Pos.peano_ind; [cbn [Pos.iter]; lia|].
  rewrite Pos.iter_succ, Pos2Z.inj_succ, Z.pow_succ_r by lia.
  rewrite (Pos2Z.inj_xO (Pos.iter xO m n)), IH. lia.
Qed.

Lemma binary_round_spec m e : -1074 <= e ->
  let R := binary_round 53 1024 false m e in
  nonneg R = true /\ units R = Z.min (round53 (Zpos m * 2 ^ (e + 1074))) infinity_units.
Proof.
  intros He R. unfold R, binary_round. set (d := Zpos (digits2_pos m)).
  set (f := fexp 53 1024 (d + e)). pose proof (fexp_spec (d + e)) as Hf. fold f in Hf.
  unfold shl_align. destruct (f - e) as [|n|n] eqn:Hn.
  - assert (Hc : fexp 53 1024 (Zpos (digits2_pos m) + e) = e) by (fold d f; lia).
    rewrite round_aux_canonical, round53_canonical by done. by apply pack_spec.
  - set (r := round_half_even (Zpos m) (Zpos n)).
    assert (Hfn : f = d + e - 53) by lia. clear Hf.
    assert (Hr : 2 ^ 52 <= r <= 2 ^ 53).
    { pose proof (round53_bounds (Zpos m)) as Hb. pose proof (round_half_even_bounds (Zpos m) (Zpos n)) as Hq.
      cbn [Zdigits2] in Hb. fold d in Hb. replace (d - 53) with (Zpos n) in Hb by lia.
      specialize (Hb ltac:(lia) ltac:(lia)). simpl in Hb. fold r in Hq. lia. }
    assert (Hpos : exists r', r = Zpos r') by (destruct r; [lia | by eexists | lia]).
    destruct Hpos as [r' Hr']. rewrite Hr' in Hr.
    destruct (renormalize r' (e + Zpos n)) as (m' & e' & Hs & Hc & Hv); [done | lia |].
    assert (HR : binary_round_aux 53 1024 false (Zpos m) e loc_Exact
                 = if e' <=? 1024 - 53 then S754_finite false m' e' else S754_infinity false).
    { unfold binary_round_aux. unfold shr_fexp at 1. cbn [Zdigits2]. fold d f. rewrite Hn.
      unfold shr, shr_record_of_loc. rewrite iter_pos_iter.
      rewrite nearest_even_spec by lia. fold r. by rewrite Hr', Hs. }
    rewrite HR. destruct (pack_spec m' e' Hc) as [H1 H2]. split; [exact H1|]. etrans; [exact H2|]. f_equal.
    rewrite Hv, <-Hr'. unfold round53.
    assert (HV : Zdigits2 (Zpos m * 2 ^ (e + 1074)) = d + (e + 1074)).
    { destruct (Zpos m * 2 ^ (e + 1074)) as [|v|v] eqn:Hv'; [lia| |lia]. by apply digits_shift; [lia|]. }
    rewrite HV. replace (d + (e + 1074) - 53) with (Zpos n + (e + 1074)) by lia.
    destruct (Z.leb_spec (Zpos n + (e + 1074)) 0); [lia|].
    rewrite round_half_even_shift by lia. fold r. do 2 f_equal. lia.
  - assert (Hi : Zpos (Pos.iter xO m n) = Zpos m * 2 ^ Zpos n) by apply iter_xO.
    assert (Hd : Zpos (digits2_pos (Pos.iter xO m n)) = d + Zpos n) by (apply digits_shift; [lia | done]).
    assert (Hc : fexp 53 1024 (Zpos (digits2_pos (Pos.iter xO m n)) + f) = f).
    { rewrite Hd. replace (d + Zpos n + f) with (d + e) by lia. done. }
    assert (Hv : Zpos (Pos.iter xO m n) * 2 ^ (f + 1074) = Zpos m * 2 ^ (e + 1074)).
    { rewrite Hi, <-Z.mul_assoc, <-Z.pow_add_r by lia. do 2 f_equal. lia. }
    rewrite <-Hv. rewrite round_aux_canonical, round53_canonical by (done || lia). by apply pack_spec.
Qed.

(** ** Addition *)

Lemma units_nonneg x : nonneg x = true -> 0 <= units x <= infinity_units.
Proof.
  assert (Hinf : 0 <= infinity_units) by (by apply Z.leb_le).
  destruct x as [s|[]| |[] m e]; simpl; try done; [lia..|]. intros [Hm He]%bounded_significand.
  pose proof (in_range_units (Zpos m) e Hm He).
  assert (0 <= 2 ^ (e + 1074)) by (apply Z.pow_nonneg; lia). lia.
Qed.

Lemma round53_units x : nonneg x = true -> round53 (units x) = units x.
Proof.
  destruct x as [s|[]| |[] m e]; simpl; try done; intros [Hm He]%bounded_significand.
  apply round53_exact; lia.
Qed.

Lemma units_finite m e : bounded 53 1024 m e = true -> units (S754_finite false m e) < infinity_units.
Proof. intros [Hm He]%bounded_significand. by apply in_range_units. Qed.

(** Sums with an operand out of range are out of range. *)
Lemma round53_infinite V : infinity_units <= V -> Z.min (round53 V) infinity_units = infinity_units.
Proof.
  intros HV. apply Z.min_r. rewrite <-(round53_units (S754_infinity false)) at 1 by done.
  apply round53_mono. split; [by apply Z.leb_le | done].
Qed.

Lemma shl_align_fst m e ez : ez <= e -> Zpos (shl_align m e ez).1 = Zpos m * 2 ^ (e - ez).
Proof.
  intros He. unfold shl_align. destruct (ez - e) as [|n|n] eqn:Hn; simpl; [|lia|].
  - replace (e - ez) with 0 by lia. lia.
  - rewrite iter_xO. do 2 f_equal. lia.
Qed.

Lemma add_finite_spec m1 e1 m2 e2 :
  bounded 53 1024 m1 e1 = true -> bounded 53 1024 m2 e2 = true ->
  let R := f64_add (S754_finite false m1 e1) (S754_finite false m2 e2) in
  nonneg R = true /\ units R
  = Z.min (round53 (Zpos m1 * 2 ^ (e1 + 1074) + Zpos m2 * 2 ^ (e2 + 1074))) infinity_units.
Proof.
  intros [_ H1]%bounded_significand [_ H2]%bounded_significand.
  cbv [f64_add SFadd cond_Zopp]. set (ez := Z.min e1 e2).
  rewrite !shl_align_fst by lia.
  destruct (Zpos m1 * 2 ^ (e1 - ez) + Zpos m2 * 2 ^ (e2 - ez)) as [|p|p] eqn:Hp; [lia| |lia].
  assert (Hv : Zpos m1 * 2 ^ (e1 + 1074) + Zpos m2 * 2 ^ (e2 + 1074) = Zpos p * 2 ^ (ez + 1074)).
  { rewrite <-Hp, Z.mul_add_distr_r, <-!Z.mul_assoc, <-!Z.pow_add_r by lia. do 3 f_equal; lia. }
  rewrite Hv. apply binary_round_spec. lia.
Qed.

(** Addition of non-negative binary64 numbers: exact, rounded, saturated. *)
Lemma add_nonneg x y : nonneg x = true -> nonneg y = true ->
  nonneg (f64_add x y) = true
  /\ units (f64_add x y) = Z.min (round53 (units x + units y)) infinity_units.
Proof.
  intros Hx Hy. pose proof (units_nonneg x Hx) as Bx. pose proof (units_nonneg y Hy) as By.
  destruct x as [s|[]| |[] m e], y as [s'|[]| |[] m' e']; try done;
    try (split; [done|]; symmetry; apply round53_infinite; simpl units in *; lia).
  - split; [by destruct s, s' | by destruct s, s'].
  - split; [done|]. cbn [f64_add SFadd]. change (units (S754_zero s)) with 0. rewrite Z.add_0_l, round53_units by done.
    pose proof (units_finite m' e' Hy). change (f64_add _ _) with (S754_finite false m' e'). lia.
  - split; [done|]. change (units (S754_zero s')) with 0. rewrite Z.add_0_r, round53_units by done.
    pose proof (units_finite m e Hx). change (f64_add _ _) with (S754_finite false m e). lia.
  - by apply add_finite_spec.
Qed.

(** ** The order of values *)

Lemma nonneg_number x : nonneg x = true -> is_number x = true.
Proof. by destruct x. Qed.

Lemma finite_units_lt m e m' e' :
  bounded 53 1024 m e = true -> bounded 53 1024 m' e' = true -> e < e' ->
  Zpos m * 2 ^ (e + 1074) < Zpos m' * 2 ^ (e' + 1074).
Proof.
  intros Hb Hb' Hlt. destruct (bounded_significand m e Hb) as [Hm He].
  apply bounded_spec in Hb' as [He' _]. destruct (digits2_pos_bounds m') as [Hl _].
  replace (Zpos (digits2_pos m') - 1) with 52 in Hl by lia.
  assert (Hp : 2 ^ (e + 1074 + 1) <= 2 ^ (e' + 1074)) by (apply Z.pow_le_mono_r; lia).
  rewrite Z.pow_add_r in Hp by lia. assert (0 < 2 ^ (e + 1074)) by (apply Z.pow_pos_nonneg; lia).
  change (2 ^ 53) with (2 ^ 52 * 2) in Hm. nia.
Qed.

Lemma klt_units x y : nonneg x = true -> nonneg y = true -> klt (fkey x) (fkey y) <-> units x < units y.
Proof.
  intros Hx Hy. pose proof (units_nonneg x Hx) as Bx. pose proof (units_nonneg y Hy) as By.
  assert (Hinf : 0 < infinity_units) by (by apply Z.ltb_lt).
  unfold klt. destruct x as [s|[]| |[] m e], y as [s'|[]| |[] m' e']; try done; simpl fkey; cbn [fst snd];
    try (pose proof (units_finite m e Hx)); try (pose proof (units_finite m' e' Hy)); cbn [units] in *.
  1-3,4,6,7: try lia.
  all: try (assert (0 < 2 ^ (e' + 1074)) by (apply Z.pow_pos_nonneg; [lia|];
              destruct (bounded_significand m' e' Hy); lia)).
  all: try (assert (0 < 2 ^ (e + 1074)) by (apply Z.pow_pos_nonneg; [lia|];
              destruct (bounded_significand m e Hx); lia)).
  all: try (split; nia).
  destruct (Z.lt_total e e') as [Hlt|[->|Hlt]].
  - pose proof (finite_units_lt m e m' e' Hx Hy Hlt). split; [done|]. intros _. lia.
  - rewrite <-Z.mul_lt_mono_pos_r by done. lia.
  - pose proof (finite_units_lt m' e' m e Hy Hx Hlt). split; [lia|]. lia.
Qed.

Lemma ltb_units x y : nonneg x = true -> nonneg y = true -> f64_ltb x y = true <-> units x < units y.
Proof. intros Hx Hy. rewrite ltb_key by (by apply nonneg_number). by apply klt_units. Qed.

Lemma leb_units x y : nonneg x = true -> nonneg y = true -> f64_leb x y = true <-> units x <= units y.
Proof.
  intros Hx Hy. rewrite leb_key by (by apply nonneg_number). rewrite klt_units by done. lia.
Qed.

(** ** What sums of costs rely on *)

Lemma units_add_mono x y w : nonneg x = true -> nonneg y = true -> nonneg w = true ->
  units x <= units y -> units (f64_add x w) <= units (f64_add y w).
Proof.
  intros Hx Hy Hw Hle. destruct (add_nonneg x w Hx Hw) as [_ ->]. destruct (add_nonneg y w Hy Hw) as [_ ->].
  pose proof (units_nonneg x Hx). pose proof (units_nonneg w Hw).
  assert (round53 (units x + units w) <= round53 (units y + units w)); [|lia].
  apply round53_mono. lia.
Qed.

Lemma units_add_ge x w : nonneg x = true -> nonneg w = true -> units x <= units (f64_add x w).
Proof.
  intros Hx Hw. destruct (add_nonneg x w Hx Hw) as [_ ->]. pose proof (units_nonneg x Hx).
  pose proof (units_nonneg w Hw).
  assert (round53 (units x) <= round53 (units x + units w)) by (apply round53_mono; lia).
  rewrite (round53_units x) in * by done. lia.
Qed.

(** Subtracting from a non-negative number cannot exceed it. *)
Lemma round_aux_negative m e : f64_ltb (S754_zero false) (binary_round_aux 53 1024 true m e loc_Exact) = false.
Proof.
  unfold binary_round_aux. destruct (shr_fexp _ _ m e _) as [mrs e1].
  destruct (shr_fexp _ _ _ e1 _) as [mrs2 e2]. destruct (shr_m mrs2); [done| |done].
  by destruct (e2 <=? 1024 - 53).
Qed.

Lemma ltb_negative x R : nonneg x = true -> f64_ltb (S754_zero false) R = false -> f64_ltb x R = false.
Proof. destruct x as [s|[]| |[] m e], R as [s'|[]| |[] m' e']; done. Qed.

Lemma sub_finite_below m1 e1 m2 e2 z :
  bounded 53 1024 m1 e1 = true -> bounded 53 1024 m2 e2 = true -> nonneg z = true ->
  f64_ltb z (f64_sub (S754_finite false m1 e1) (S754_finite false m2 e2)) = true ->
  units z < Zpos m1 * 2 ^ (e1 + 1074).
Proof.
  intros Hb1 Hb2 Hz. destruct (bounded_significand _ _ Hb1) as [_ H1]. destruct (bounded_significand _ _ Hb2) as [_ H2].
  cbv [f64_sub SFsub cond_Zopp]. set (ez := Z.min e1 e2). rewrite !shl_align_fst by lia.
  assert (Hp1 : 0 < 2 ^ (e1 - ez)) by (apply Z.pow_pos_nonneg; lia).
  assert (Hp2 : 0 < 2 ^ (e2 - ez)) by (apply Z.pow_pos_nonneg; lia).
  destruct (Zpos m1 * 2 ^ (e1 - ez) - Zpos m2 * 2 ^ (e2 - ez)) as [|p|p] eqn:Hp.
  - intros Hlt. pose proof (ltb_negative z (S754_zero false) Hz eq_refl). simpl in Hlt. congruence.
  - simpl. destruct (binary_round_spec p ez) as [Hn Hu]; [lia|]. intros Hlt.
    apply ltb_units in Hlt; [|done..]. rewrite Hu in Hlt.
    assert (Hv : Zpos m1 * 2 ^ (e1 + 1074) = Zpos m1 * 2 ^ (e1 - ez) * 2 ^ (ez + 1074)).
    { rewrite <-Z.mul_assoc, <-Z.pow_add_r by lia. do 2 f_equal. lia. }
    assert (Hle : round53 (Zpos p * 2 ^ (ez + 1074)) <= round53 (Zpos m1 * 2 ^ (e1 + 1074))).
    { apply round53_mono. rewrite Hv. assert (0 < 2 ^ (ez + 1074)) by (apply Z.pow_pos_nonneg; lia). nia. }
    pose proof (round53_units (S754_finite false m1 e1) Hb1) as He. simpl in He. lia.
  - simpl. unfold binary_round. destruct (shl_align p ez _) as [mz ez'].
    intros Hlt. pose proof (ltb_negative z _ Hz (round_aux_negative (Zpos mz) ez')). congruence.
Qed.

Lemma sub_below x y z : nonneg x = true -> nonneg y = true -> nonneg z = true ->
  f64_ltb z (f64_sub x y) = true -> units z < units x.
Proof.
  intros Hx Hy Hz Hlt.
  assert (Hsub : f64_sub x y = x \/ f64_ltb (S754_zero false) (f64_sub x y) = false
    \/ exists m1 e1 m2 e2, x = S754_finite false m1 e1 /\ y = S754_finite false m2 e2).
  { destruct x as [s|[]| |[] m e]; try discriminate Hx; destruct y as [s'|[]| |[] m' e']; try discriminate Hy;
      try (left; reflexivity); try (right; left; reflexivity).
    - right; left. by destruct s, s'.
    - right; right. by exists m, e, m', e'. }
  destruct Hsub as [Heq|[Hn|(m1 & e1 & m2 & e2 & -> & ->)]].
  - rewrite Heq in Hlt. by apply ltb_units.
  - pose proof (ltb_negative z _ Hz Hn). congruence.
  - by apply (sub_finite_below m1 e1 m2 e2).
Qed.
