(* ===== verification/Float.v ===== *)
(** * Rounding, casts and bits of [f64] (methods of the Rust standard library)

    [f64::trunc], [floor], [round], [fract], [clamp], [%], [to_le_bytes] and the
    saturating [as] casts on the [SpecFloat] numbers of [RustStd], with the bounds
    the tile encoder and the expression language rely on. *)

From Stdlib Require Import Ascii.
From S2P Require Import Prelude RustStd Ordering Rounding.
Local Open Scope Z_scope.

(** ** Integers *)

(** The integer part of a finite magnitude [m * 2^e], and whether it is exact *)
Definition whole (m : positive) (e : Z) : Z :=
  if 0 <=? e then Zpos m * 2 ^ e else Zpos m / 2 ^ (- e).

Definition signed (s : bool) (v : Z) : Z := if s then - v else v.

(** The integer a finite number is truncated to *)
Definition trunc_Z (x : f64) : Z :=
  match x with S754_finite s m e => signed s (whole m e) | _ => 0 end.

(** An integer as a float that keeps the sign of a zero *)
Definition f64_signed (s : bool) (magnitude : Z) : f64 :=
  match magnitude with Zpos m => binary_round 53 1024 s m 0 | _ => S754_zero s end.

(** [f64::trunc] *)
Definition f64_trunc (x : f64) : f64 :=
  match x with
  | S754_finite s m e => if 0 <=? e then x else f64_signed s (whole m e)
  | _ => x
  end.

(** [f64::floor] *)
Definition f64_floor (x : f64) : f64 :=
  match x with
  | S754_finite s m e =>
      if 0 <=? e then x
      else if s then f64_signed true (- (- Zpos m / 2 ^ (- e)))
      else f64_signed false (whole m e)
  | _ => x
  end.

(** [f64::round]: half-way cases away from zero *)
Definition f64_round (x : f64) : f64 :=
  match x with
  | S754_finite s m e =>
      f64_signed s (if 0 <=? e then Zpos m * 2 ^ e else (2 * Zpos m + 2 ^ (- e)) / 2 ^ (- e + 1))
  | _ => x
  end.

(** [f64::fract] *)
Definition f64_fract (x : f64) : f64 := f64_sub x (f64_trunc x).

(** [x % y]: the remainder of the truncated quotient, exact *)
Definition f64_rem (x y : f64) : f64 :=
  match x, y with
  | S754_nan, _ | _, S754_nan | S754_infinity _, _ | _, S754_zero _ => S754_nan
  | S754_zero s, _ => S754_zero s
  | _, S754_infinity _ => x
  | S754_finite s m e, S754_finite _ m' e' =>
      let ez := Z.min e e' in
      match (Zpos m * 2 ^ (e - ez)) mod (Zpos m' * 2 ^ (e' - ez)) with
      | Zpos r => binary_round 53 1024 s r ez
      | _ => S754_zero s
      end
  end.

(** [f64::clamp] *)
Definition f64_clamp (lo hi x : f64) : f64 :=
  let x := if f64_ltb x lo then lo else x in
  if f64_ltb hi x then hi else x.

(** [x as T] for an integer type with these bounds: NaN is zero, the rest
    saturates. *)
Definition as_int (lo hi : Z) (x : f64) : Z :=
  match x with
  | S754_nan => 0
  | S754_infinity s => if s then lo else hi
  | _ => Z.max lo (Z.min hi (trunc_Z x))
  end.
Definition i64_min : Z := - 2 ^ 63.
Definition i64_max : Z := 2 ^ 63 - 1.
Definition f64_as_i64 : f64 -> Z := as_int i64_min i64_max.
Definition f64_as_u32 (x : f64) : N := Z.to_N (as_int 0 (2 ^ 32 - 1) x).

(** [f64::to_bits]; the one NaN of [SpecFloat] has the bits of [f64::NAN]. *)
Definition f64_bits (x : f64) : N :=
  let sign (s : bool) : N := (if s then 2 ^ 63 else 0)%N in
  match x with
  | S754_zero s => sign s
  | S754_infinity s => sign s + 2047 * 2 ^ 52
  | S754_nan => 2047 * 2 ^ 52 + 2 ^ 51
  | S754_finite s m e =>
      sign s + (if (Npos m <? 2 ^ 52)%N then Npos m else Z.to_N (e + 1075) * 2 ^ 52 + (Npos m - 2 ^ 52))
  end%N.

(** ** Bounds *)

Lemma div_within u n K : 0 < K -> 0 <= u -> u <= n * K -> 0 <= u / K <= n.
Proof. intros. split; [apply Z.div_pos; lia|]. apply Z.div_le_upper_bound; lia. Qed.

Lemma f64_of_Z_units n : 0 <= n < 2 ^ 53 ->
  nonneg (f64_of_Z n) = true /\ units (f64_of_Z n) = n * 2 ^ 1074.
Proof.
  intros Hn. destruct n as [|p|p]; [done| |lia].
  pose proof (binary_round_spec p 0 ltac:(lia)) as [H1 H2].
  rewrite (round53_exact (Zpos p) (0 + 1074)) in H2 by lia.
  split; [exact H1|]. change (units (f64_of_Z (Zpos p))) with (units (binary_round 53 1024 false p 0)).
  rewrite H2. apply Z.min_l, Z.lt_le_incl. change 1074 with (0 + 1074). apply in_range_units; lia.
Qed.

Lemma trunc_nonneg x : nonneg x = true -> f64_is_finite x = true -> trunc_Z x = units x / 2 ^ 1074.
Proof.
  destruct x as [s|[]| |[] m e]; try done; cbn [nonneg trunc_Z units signed]; intros Hb _.
  apply bounded_significand in Hb as [_ He]. unfold whole. destruct (Z.leb_spec 0 e).
  - rewrite Z.pow_add_r by lia. rewrite Z.mul_assoc, Z.div_mul; [done | lia].
  - assert (Hs : 2 ^ 1074 = 2 ^ (- e) * 2 ^ (e + 1074)) by (rewrite <-Z.pow_add_r by lia; f_equal; lia).
    rewrite Hs, Z.div_mul_cancel_r; [done | |]; apply Z.pow_nonzero; lia.
Qed.

Lemma round_sign s m e : binary_round 53 1024 s m e = (if s then SFopp else id) (binary_round 53 1024 false m e).
Proof.
  unfold binary_round. destruct (shl_align m e _) as [mz ez]. unfold binary_round_aux.
  destruct (shr_fexp _ _ _ _ _) as [r e1]. destruct (shr_fexp _ _ _ _ _) as [r2 e2].
  destruct (shr_m r2); [by destruct s| |by destruct s]. by destruct (e2 <=? _), s.
Qed.

Lemma signed_nonneg k : nonneg (f64_signed false k) = true.
Proof. destruct k as [|p|p]; [done| |done]. by apply binary_round_spec. Qed.

(** A number rounded to an integer and clamped to [0, n] is cast to an integer
    of that range, NaN included. *)
Lemma round_clamp_bounds n x : 0 <= n < 2 ^ 53 ->
  0 <= f64_as_i64 (f64_clamp f64_zero (f64_of_Z n) (f64_round x)) <= n.
Proof.
  intros Hn. destruct (f64_of_Z_units n Hn) as [Hnn Hu].
  assert (Hcast : forall y, nonneg y = true -> f64_ltb (f64_of_Z n) y = false -> 0 <= f64_as_i64 y <= n).
  { intros y Hy Hle. assert (Hfin : f64_is_finite y = true).
    { destruct y as [|[]| |]; try done. exfalso. apply not_true_iff_false in Hle. apply Hle.
      apply ltb_units; [done..|]. rewrite Hu. change (units (S754_infinity false)) with infinity_units.
      change 1074 with (0 + 1074). apply in_range_units; lia. }
    pose proof (trunc_nonneg y Hy Hfin) as Ht. pose proof (units_nonneg y Hy) as [Hy0 _].
    assert (Hy1 : units y <= n * 2 ^ 1074).
    { rewrite <-Hu. apply Z.nlt_ge. by rewrite <-ltb_units, not_true_iff_false by done. }
    assert (Hb : 0 <= trunc_Z y <= n).
    { rewrite Ht. apply div_within; [by apply Z.pow_pos_nonneg | done..]. }
    clear Ht Hy0 Hy1 Hu Hle. unfold f64_as_i64, as_int, i64_min, i64_max. by destruct y; try done; lia. }
  assert (Hhi : 0 <= f64_as_i64 (f64_of_Z n) <= n).
  { apply Hcast; [done|]. apply not_true_iff_false. rewrite ltb_units by done. lia. }
  assert (Hpos : forall y, nonneg y = true ->
    0 <= f64_as_i64 (f64_clamp f64_zero (f64_of_Z n) y) <= n).
  { intros y Hy. unfold f64_clamp. replace (f64_ltb y f64_zero) with false.
    - destruct (f64_ltb _ y) eqn:E; [done | by apply Hcast].
    - symmetry. apply not_true_iff_false. rewrite ltb_units by done. pose proof (units_nonneg y Hy).
      change (units f64_zero) with 0. lia. }
  assert (Hneg : forall y, f64_ltb y f64_zero = true ->
    0 <= f64_as_i64 (f64_clamp f64_zero (f64_of_Z n) y) <= n).
  { intros y Hy. specialize (Hpos f64_zero eq_refl). unfold f64_clamp in *. by rewrite Hy. }
  destruct x as [s|[]| |[] m e].
  - by apply (Hpos (S754_zero s)).
  - by apply Hneg.
  - by apply Hpos.
  - unfold f64_clamp. cbn [f64_round]. change (f64_ltb S754_nan _) with false.
    replace (f64_ltb _ S754_nan) with false by (by destruct (f64_of_Z n)). simpl. lia.
  - cbn [f64_round]. destruct (if 0 <=? e then _ else _) as [|k|k].
    + by apply (Hpos (S754_zero true)).
    + apply Hneg. cbn [f64_signed]. rewrite round_sign.
      destruct (binary_round_spec k 0 ltac:(lia)) as [H1 H2].
      assert (0 < units (binary_round 53 1024 false k 0)).
      { rewrite H2. assert (round53 (1 * 2 ^ 1074) <= round53 (Zpos k * 2 ^ (0 + 1074))) by (apply round53_mono; lia).
        rewrite (round53_exact 1 1074) in H by lia. assert (0 < infinity_units) by (by apply Z.ltb_lt). lia. }
      by destruct (binary_round 53 1024 false k 0) as [|[]| |[]].
    + by apply (Hpos (S754_zero true)).
  - apply Hpos, signed_nonneg.
Qed.

(** ** Decimal text ([str::parse::<f64>]) *)

Local Abbreviation char_code a := (Z.of_N (Ascii.N_of_ascii a)).
Definition is_digit (a : Ascii.ascii) : bool := (48 <=? char_code a) && (char_code a <=? 57).

(** A run of digits: their value, how many there are, and what follows *)
Fixpoint read_digits (value : N) (count : nat) (s : string) : N * nat * string :=
  match s with
  | String a rest =>
      if is_digit a then read_digits (10 * value + (Ascii.N_of_ascii a - 48))%N (S count) rest
      else (value, count, s)
  | EmptyString => (value, count, s)
  end.

(** [m * 10^e], rounded to nearest even; exponents far out of range are decided
    by the number of digits, and the power is never computed. *)
Definition f64_decimal (s : bool) (m : N) (e : Z) : f64 :=
  match m with
  | 0%N => S754_zero s
  | Npos p =>
      let digits := Z.of_nat (String.length (show_N m)) in
      if 309 <=? digits - 1 + e then S754_infinity s
      else if digits + e <=? -324 then S754_zero s
      else if 0 <=? e then binary_round 53 1024 s (p * Z.to_pos (10 ^ e)) 0
      else f64_div (S754_finite s p 0) (S754_finite false (Z.to_pos (10 ^ (- e))) 0)
  end.

Definition read_sign (s : string) : bool * string :=
  match s with
  | String a rest =>
      if bool_decide (a = "-"%char) then (true, rest) else if bool_decide (a = "+"%char) then (false, rest) else (false, s)
  | EmptyString => (false, s)
  end.

(** The exponent, or nothing; [None] is a malformed one. *)
Definition read_exponent (s : string) : option Z :=
  match s with
  | EmptyString => Some 0
  | String a rest =>
      if bool_decide (a = "e"%char) || bool_decide (a = "E"%char) then
        let '(negative, rest) := read_sign rest in
        match read_digits 0 0 rest with
        | (_, O, _) => None
        | (value, _, EmptyString) => Some (signed negative (Z.of_N value))
        | _ => None
        end
      else None
  end.

Definition parse_f64 (s : string) : option f64 :=
  let '(negative, s) := read_sign s in
  let lower := to_ascii_lowercase s in
  if bool_decide (lower = "inf") || bool_decide (lower = "infinity") then Some (S754_infinity negative)
  else if bool_decide (lower = "nan") then Some S754_nan
  else
    let '(whole, n, rest) := read_digits 0 0 s in
    let '(value, k, rest) :=
      match rest with
      | String a after => if bool_decide (a = "."%char) then read_digits whole 0 after else (whole, O, rest)
      | EmptyString => (whole, O, rest)
      end in
    if (n + k =? 0)%nat then None
    else e ← read_exponent rest; Some (f64_decimal negative value (e - Z.of_nat k)).
