(* ===== verification/Crs.v ===== *)
(** * Coordinate reference systems (crates/genegis-crs/src/lib.rs)

    The authority/code identity, the built-in EPSG registry with its name
    tables, coordinate validation, and the [AUTHORITY:CODE] spelling that serde
    reads and writes; source snapshots and their checksum states. *)

From S2P Require Import Prelude RustStd.
Local Open Scope N_scope.

Definition WGS84_EPSG : N := 4326.
Definition JGD2011_EPSG : N := 6668.
Definition NAGOYA_PROJECTED_EPSG : N := 6675.
Definition WEB_MERCATOR_EPSG : N := 3857.
Definition UTM_17N_EPSG : N := 32617.
Definition UTM_18N_EPSG : N := 32618.
Definition UTM_54N_EPSG : N := 32654.

Definition JGD2011_PLANE_NAMES : list string := [
  "JGD2011 / Japan Plane Rectangular CS I";
  "JGD2011 / Japan Plane Rectangular CS II";
  "JGD2011 / Japan Plane Rectangular CS III";
  "JGD2011 / Japan Plane Rectangular CS IV";
  "JGD2011 / Japan Plane Rectangular CS V";
  "JGD2011 / Japan Plane Rectangular CS VI";
  "JGD2011 / Japan Plane Rectangular CS VII";
  "JGD2011 / Japan Plane Rectangular CS VIII";
  "JGD2011 / Japan Plane Rectangular CS IX";
  "JGD2011 / Japan Plane Rectangular CS X";
  "JGD2011 / Japan Plane Rectangular CS XI";
  "JGD2011 / Japan Plane Rectangular CS XII";
  "JGD2011 / Japan Plane Rectangular CS XIII";
  "JGD2011 / Japan Plane Rectangular CS XIV";
  "JGD2011 / Japan Plane Rectangular CS XV";
  "JGD2011 / Japan Plane Rectangular CS XVI";
  "JGD2011 / Japan Plane Rectangular CS XVII";
  "JGD2011 / Japan Plane Rectangular CS XVIII";
  "JGD2011 / Japan Plane Rectangular CS XIX"].

Definition JGD2000_PLANE_NAMES : list string := [
  "JGD2000 / Japan Plane Rectangular CS I";
  "JGD2000 / Japan Plane Rectangular CS II";
  "JGD2000 / Japan Plane Rectangular CS III";
  "JGD2000 / Japan Plane Rectangular CS IV";
  "JGD2000 / Japan Plane Rectangular CS V";
  "JGD2000 / Japan Plane Rectangular CS VI";
  "JGD2000 / Japan Plane Rectangular CS VII";
  "JGD2000 / Japan Plane Rectangular CS VIII";
  "JGD2000 / Japan Plane Rectangular CS IX";
  "JGD2000 / Japan Plane Rectangular CS X";
  "JGD2000 / Japan Plane Rectangular CS XI";
  "JGD2000 / Japan Plane Rectangular CS XII";
  "JGD2000 / Japan Plane Rectangular CS XIII";
  "JGD2000 / Japan Plane Rectangular CS XIV";
  "JGD2000 / Japan Plane Rectangular CS XV";
  "JGD2000 / Japan Plane Rectangular CS XVI";
  "JGD2000 / Japan Plane Rectangular CS XVII";
  "JGD2000 / Japan Plane Rectangular CS XVIII";
  "JGD2000 / Japan Plane Rectangular CS XIX"].

Definition JGD2011_UTM_NAMES : list string := [
  "JGD2011 / UTM zone 51N";
  "JGD2011 / UTM zone 52N";
  "JGD2011 / UTM zone 53N";
  "JGD2011 / UTM zone 54N";
  "JGD2011 / UTM zone 55N"].

Definition JGD2000_UTM_NAMES : list string := [
  "JGD2000 / UTM zone 51N";
  "JGD2000 / UTM zone 52N";
  "JGD2000 / UTM zone 53N";
  "JGD2000 / UTM zone 54N";
  "JGD2000 / UTM zone 55N"].

Definition UTM_NORTH_NAMES : list string := [
  "WGS 84 / UTM zone 1N";
  "WGS 84 / UTM zone 2N";
  "WGS 84 / UTM zone 3N";
  "WGS 84 / UTM zone 4N";
  "WGS 84 / UTM zone 5N";
  "WGS 84 / UTM zone 6N";
  "WGS 84 / UTM zone 7N";
  "WGS 84 / UTM zone 8N";
  "WGS 84 / UTM zone 9N";
  "WGS 84 / UTM zone 10N";
  "WGS 84 / UTM zone 11N";
  "WGS 84 / UTM zone 12N";
  "WGS 84 / UTM zone 13N";
  "WGS 84 / UTM zone 14N";
  "WGS 84 / UTM zone 15N";
  "WGS 84 / UTM zone 16N";
  "WGS 84 / UTM zone 17N";
  "WGS 84 / UTM zone 18N";
  "WGS 84 / UTM zone 19N";
  "WGS 84 / UTM zone 20N";
  "WGS 84 / UTM zone 21N";
  "WGS 84 / UTM zone 22N";
  "WGS 84 / UTM zone 23N";
  "WGS 84 / UTM zone 24N";
  "WGS 84 / UTM zone 25N";
  "WGS 84 / UTM zone 26N";
  "WGS 84 / UTM zone 27N";
  "WGS 84 / UTM zone 28N";
  "WGS 84 / UTM zone 29N";
  "WGS 84 / UTM zone 30N";
  "WGS 84 / UTM zone 31N";
  "WGS 84 / UTM zone 32N";
  "WGS 84 / UTM zone 33N";
  "WGS 84 / UTM zone 34N";
  "WGS 84 / UTM zone 35N";
  "WGS 84 / UTM zone 36N";
  "WGS 84 / UTM zone 37N";
  "WGS 84 / UTM zone 38N";
  "WGS 84 / UTM zone 39N";
  "WGS 84 / UTM zone 40N";
  "WGS 84 / UTM zone 41N";
  "WGS 84 / UTM zone 42N";
  "WGS 84 / UTM zone 43N";
  "WGS 84 / UTM zone 44N";
  "WGS 84 / UTM zone 45N";
  "WGS 84 / UTM zone 46N";
  "WGS 84 / UTM zone 47N";
  "WGS 84 / UTM zone 48N";
  "WGS 84 / UTM zone 49N";
  "WGS 84 / UTM zone 50N";
  "WGS 84 / UTM zone 51N";
  "WGS 84 / UTM zone 52N";
  "WGS 84 / UTM zone 53N";
  "WGS 84 / UTM zone 54N";
  "WGS 84 / UTM zone 55N";
  "WGS 84 / UTM zone 56N";
  "WGS 84 / UTM zone 57N";
  "WGS 84 / UTM zone 58N";
  "WGS 84 / UTM zone 59N";
  "WGS 84 / UTM zone 60N"].

Definition UTM_SOUTH_NAMES : list string := [
  "WGS 84 / UTM zone 1S";
  "WGS 84 / UTM zone 2S";
  "WGS 84 / UTM zone 3S";
  "WGS 84 / UTM zone 4S";
  "WGS 84 / UTM zone 5S";
  "WGS 84 / UTM zone 6S";
  "WGS 84 / UTM zone 7S";
  "WGS 84 / UTM zone 8S";
  "WGS 84 / UTM zone 9S";
  "WGS 84 / UTM zone 10S";
  "WGS 84 / UTM zone 11S";
  "WGS 84 / UTM zone 12S";
  "WGS 84 / UTM zone 13S";
  "WGS 84 / UTM zone 14S";
  "WGS 84 / UTM zone 15S";
  "WGS 84 / UTM zone 16S";
  "WGS 84 / UTM zone 17S";
  "WGS 84 / UTM zone 18S";
  "WGS 84 / UTM zone 19S";
  "WGS 84 / UTM zone 20S";
  "WGS 84 / UTM zone 21S";
  "WGS 84 / UTM zone 22S";
  "WGS 84 / UTM zone 23S";
  "WGS 84 / UTM zone 24S";
  "WGS 84 / UTM zone 25S";
  "WGS 84 / UTM zone 26S";
  "WGS 84 / UTM zone 27S";
  "WGS 84 / UTM zone 28S";
  "WGS 84 / UTM zone 29S";
  "WGS 84 / UTM zone 30S";
  "WGS 84 / UTM zone 31S";
  "WGS 84 / UTM zone 32S";
  "WGS 84 / UTM zone 33S";
  "WGS 84 / UTM zone 34S";
  "WGS 84 / UTM zone 35S";
  "WGS 84 / UTM zone 36S";
  "WGS 84 / UTM zone 37S";
  "WGS 84 / UTM zone 38S";
  "WGS 84 / UTM zone 39S";
  "WGS 84 / UTM zone 40S";
  "WGS 84 / UTM zone 41S";
  "WGS 84 / UTM zone 42S";
  "WGS 84 / UTM zone 43S";
  "WGS 84 / UTM zone 44S";
  "WGS 84 / UTM zone 45S";
  "WGS 84 / UTM zone 46S";
  "WGS 84 / UTM zone 47S";
  "WGS 84 / UTM zone 48S";
  "WGS 84 / UTM zone 49S";
  "WGS 84 / UTM zone 50S";
  "WGS 84 / UTM zone 51S";
  "WGS 84 / UTM zone 52S";
  "WGS 84 / UTM zone 53S";
  "WGS 84 / UTM zone 54S";
  "WGS 84 / UTM zone 55S";
  "WGS 84 / UTM zone 56S";
  "WGS 84 / UTM zone 57S";
  "WGS 84 / UTM zone 58S";
  "WGS 84 / UTM zone 59S";
  "WGS 84 / UTM zone 60S"].

Inductive CrsKind := CK_Geographic | CK_Projected | CK_Unknown.
Inductive CoordinateUnit := Degrees | Metres | Unit_Unknown.

#[export] Instance CrsKind_eq_dec : EqDecision CrsKind.
Proof. solve_decision. Defined.
#[export] Instance CoordinateUnit_eq_dec : EqDecision CoordinateUnit.
Proof. solve_decision. Defined.

Definition unit_as_str (u : CoordinateUnit) : string :=
  match u with Degrees => "degrees" | Metres => "metres" | Unit_Unknown => "unknown" end.

Record Crs := mkCrs { authority : string; code : N }.

#[export] Instance Crs_eq_dec : EqDecision Crs.
Proof. solve_decision. Defined.

Record CrsDefinition := mkCrsDefinition {
  def_code : N;
  def_name : string;
  def_kind : CrsKind;
  def_unit : CoordinateUnit }.

Inductive CrsError :=
| InvalidIdentifier (value : string)
| Unsupported (value : string)
| NonFiniteCoordinate (x y : f64)
| CoordinateOutOfRange (x y : f64).

(** ** Construction *)

Definition new (authority : string) (code : N) : Crs :=
  {| authority := to_ascii_uppercase (trim authority); code := code |}.
Definition epsg (code : N) : Crs := new "EPSG" code.
Definition wgs84 : Crs := epsg WGS84_EPSG.
Definition jgd2011 : Crs := epsg JGD2011_EPSG.
Definition nagoya_projected : Crs := epsg NAGOYA_PROJECTED_EPSG.

Definition or_else {A} (o o' : option A) : option A :=
  match o with Some _ => o | None => o' end.

Definition parse (value : string) : result CrsError Crs :=
  let normalized := trim value in
  let code := default normalized (strip_prefix "urn:ogc:def:crs:" normalized) in
  code ← ok_or
    (or_else (strip_prefix "EPSG::" code)
    (or_else (strip_prefix "epsg::" code)
    (or_else (strip_prefix "EPSG:" code)
             (strip_prefix "epsg:" code))))
    (InvalidIdentifier value);
  code ← ok_or (parse_N u32_max code) (InvalidIdentifier value);
  Ok (epsg code).

Definition identifier (c : Crs) : string := authority c +:+ ":" +:+ show_N (code c).

(** ** The registry *)

Definition projected (code : N) (name : string) : CrsDefinition :=
  {| def_code := code; def_name := name; def_kind := CK_Projected; def_unit := Metres |}.

Definition in_range (lo hi c : N) : bool := (lo <=? c) && (c <=? hi).

(** [NAMES[(self.code - first) as usize]]; [name_at_nonempty] shows
    the index is in bounds wherever [definition] uses it. *)
Definition name_at (names : list string) (first c : N) : string :=
  names !!! N.to_nat (c - first).

Definition definition (c : Crs) : option CrsDefinition :=
  let k := code c in
  if negb (bool_decide (authority c = "EPSG")) then None
  else if k =? WGS84_EPSG then Some {| def_code := WGS84_EPSG; def_name := "WGS 84";
    def_kind := CK_Geographic; def_unit := Degrees |}
  else if k =? JGD2011_EPSG then Some {| def_code := JGD2011_EPSG; def_name := "JGD2011";
    def_kind := CK_Geographic; def_unit := Degrees |}
  else if k =? NAGOYA_PROJECTED_EPSG then
    Some (projected NAGOYA_PROJECTED_EPSG "JGD2011 / Japan Plane Rectangular CS VII")
  else if k =? WEB_MERCATOR_EPSG then
    Some (projected WEB_MERCATOR_EPSG "WGS 84 / Pseudo-Mercator")
  else if k =? UTM_17N_EPSG then Some (projected UTM_17N_EPSG "WGS 84 / UTM zone 17N")
  else if k =? UTM_18N_EPSG then Some (projected UTM_18N_EPSG "WGS 84 / UTM zone 18N")
  else if k =? UTM_54N_EPSG then Some (projected UTM_54N_EPSG "WGS 84 / UTM zone 54N")
  else if k =? 4612 then Some {| def_code := 4612; def_name := "JGD2000";
    def_kind := CK_Geographic; def_unit := Degrees |}
  else if in_range 6669 6687 k then Some (projected k (name_at JGD2011_PLANE_NAMES 6669 k))
  else if in_range 2443 2461 k then Some (projected k (name_at JGD2000_PLANE_NAMES 2443 k))
  else if in_range 6688 6692 k then Some (projected k (name_at JGD2011_UTM_NAMES 6688 k))
  else if in_range 3097 3101 k then Some (projected k (name_at JGD2000_UTM_NAMES 3097 k))
  else if in_range 32601 32660 k then Some (projected k (name_at UTM_NORTH_NAMES 32601 k))
  else if in_range 32701 32760 k then Some (projected k (name_at UTM_SOUTH_NAMES 32701 k))
  else None.

Definition kind (c : Crs) : CrsKind := from_option def_kind CK_Unknown (definition c).
Definition coordinate_unit (c : Crs) : CoordinateUnit :=
  from_option def_unit Unit_Unknown (definition c).
Definition is_geographic (c : Crs) : bool := bool_decide (kind c = CK_Geographic).
Definition is_projected (c : Crs) : bool := bool_decide (kind c = CK_Projected).

Definition require_known (c : Crs) : result CrsError CrsDefinition :=
  ok_or (definition c) (Unsupported (identifier c)).

(** [(lo..=hi).contains(&x)] on integer bounds *)
Definition f64_within (lo hi : Z) (x : f64) : bool :=
  f64_leb (f64_of_Z lo) x && f64_leb x (f64_of_Z hi).

Definition validate_coordinate (c : Crs) (x y : f64) : result CrsError unit :=
  definition ← require_known c;
  err_if (negb (f64_is_finite x) || negb (f64_is_finite y)) (NonFiniteCoordinate x y);;
  err_if (((def_code definition =? WGS84_EPSG) || (def_code definition =? JGD2011_EPSG))
          && (negb (f64_within (-180) 180 x) || negb (f64_within (-90) 90 y)))
    (CoordinateOutOfRange x y);;
  Ok tt.

(** [Display] of the errors; [f64_display] is the decimal rendering of the
    standard library, which only ever reaches error messages. *)
Class F64Display := f64_display : f64 -> string.

Definition crs_error_to_string `{F64Display} (e : CrsError) : string :=
  match e with
  | InvalidIdentifier v => "invalid CRS identifier: " +:+ v
  | Unsupported v => "unsupported CRS: " +:+ v
  | NonFiniteCoordinate x y =>
      "non-finite coordinate (" +:+ f64_display x +:+ ", " +:+ f64_display y +:+ ")"
  | CoordinateOutOfRange x y =>
      "coordinate out of range (" +:+ f64_display x +:+ ", " +:+ f64_display y +:+ ")"
  end.

(** ** Source snapshots *)

Inductive ChecksumVerification := CV_Verified | CV_Declared | CV_Unknown | CV_Mismatch.

#[export] Instance ChecksumVerification_eq_dec : EqDecision ChecksumVerification.
Proof. solve_decision. Defined.

Definition is_verified (v : ChecksumVerification) : bool :=
  match v with CV_Verified => true | _ => false end.

Record SourceMetadata := mkSourceMetadata {
  dataset_id : option string;
  uri : string;
  license : option string;
  checksum : option string;
  expected_checksum : option string;
  observed_checksum : option string;
  retrieved_at : option string;
  source_version : option string;
  checksum_status : ChecksumVerification }.

Abbreviation SourceSnapshot := SourceMetadata.

#[export] Instance SourceMetadata_eq_dec : EqDecision SourceMetadata.
Proof. solve_decision. Defined.

Definition source_new (uri : string) : SourceMetadata :=
  {| dataset_id := None; uri := uri; license := None; checksum := None;
     expected_checksum := None; observed_checksum := None; retrieved_at := None;
     source_version := None; checksum_status := CV_Unknown |}.

(** [SourceVersion::new] *)
Definition source_version_new (value : string) : string := trim value.

(** [str::contains] with a literal pattern *)
Fixpoint contains_str (p s : string) : bool :=
  match strip_prefix p s with
  | Some _ => true
  | None => match s with EmptyString => false | String _ s => contains_str p s end
  end.

Definition local_path (uri : string) : option string :=
  match strip_prefix "file://" uri with
  | Some path => Some path
  | None => if contains_str "://" uri then None else Some uri
  end.

Definition normalize_sha256 (value : string) : option string :=
  let hex := default value (strip_prefix "sha256:" value) in
  if (str_len hex =? 64) && string_forall is_ascii_hexdigit hex
  then Some ("sha256:" +:+ to_ascii_lowercase hex)
  else None.

Section FromUri.
(** [sha256_file path]: the digest of the file's bytes, [None] when it cannot
    be read. *)
Variable sha256_file : string -> option string.

Definition from_uri (uri : string) (expected_checksum source_version : option string)
    : SourceMetadata :=
  let version := match source_version with
    | Some v => if is_blank v then None else Some (source_version_new v)
    | None => None end in
  let expected := match trim <$> expected_checksum with
    | Some c => if is_empty c then None else Some c
    | None => None end in
  let unread := {| dataset_id := None; uri := uri; license := None; checksum := expected;
    expected_checksum := expected; observed_checksum := None; retrieved_at := None;
    source_version := version;
    checksum_status := if expected is Some _ then CV_Declared else CV_Unknown |} in
  match local_path uri with
  | Some path =>
      match sha256_file path with
      | Some actual =>
          {| dataset_id := None; uri := uri; license := None; checksum := Some actual;
             expected_checksum := expected; observed_checksum := Some actual;
             retrieved_at := None; source_version := version;
             checksum_status :=
               match expected with
               | Some expected =>
                   if bool_decide (normalize_sha256 expected = Some actual)
                   then CV_Verified else CV_Mismatch
               | None => CV_Verified
               end |}
      | None => unread
      end
  | None => unread
  end.
End FromUri.

(** ** Lemmas *)

Lemma identifier_graphic k : string_forall is_graphic (identifier (epsg k)) = true.
Proof.
  unfold identifier. rewrite !string_forall_app. simpl.
  apply (string_forall_impl is_ascii_digit); [apply digit_graphic | apply show_N_digits].
Qed.

Lemma parse_authority v c : parse v = Ok c -> authority c = "EPSG".
Proof. unfold parse. intros H. inv_rs H. done. Qed.

Lemma strip_prefix_app_None p q s :
  strip_prefix p s = None -> strip_prefix (q +:+ p) (q +:+ s) = None.
Proof. intros H. induction q as [|a q IH]; [done|]. simpl. by rewrite bool_decide_true. Qed.

Lemma show_N_no_colon k : strip_prefix ":" (show_N k) = None.
Proof.
  pose proof (show_N_digits k) as Hd. destruct (show_N k) as [|a s]; [done|].
  simpl. case_bool_decide as Ha; [|done]. by subst a.
Qed.

Lemma parse_identifier_epsg k : k <= u32_max -> parse (identifier (epsg k)) = Ok (epsg k).
Proof.
  intros Hk. unfold parse. rewrite trim_graphic by apply identifier_graphic.
  change (identifier (epsg k)) with ("EPSG:" +:+ show_N k).
  change (strip_prefix "urn:ogc:def:crs:" ("EPSG:" +:+ show_N k)) with (@None string).
  cbn [default].
  rewrite (strip_prefix_app_None ":" "EPSG:" _ (show_N_no_colon k) :
    strip_prefix "EPSG::" ("EPSG:" +:+ show_N k) = None).
  change (strip_prefix "epsg::" ("EPSG:" +:+ show_N k)) with (@None string).
  rewrite strip_prefix_app. cbn [or_else ok_or mbind result_bind].
  by rewrite parse_show_N.
Qed.

(** The tables have no gaps, so an index in range finds a real name. *)
Lemma name_at_nonempty names first c :
  Forall (fun n => n <> "") names -> first <= c -> c < first + N.of_nat (length names) ->
  name_at names first c <> "".
Proof.
  intros Hn H1 H2. unfold name_at.
  destruct (names !! N.to_nat (c - first)) as [n|] eqn:Hl.
  - rewrite list_lookup_total_alt, Hl. simpl. by eapply (Forall_lookup_1 _ _ _ _ Hn).
  - apply lookup_ge_None in Hl. lia.
Qed.

Ltac name_table :=
  apply name_at_nonempty;
  [ repeat constructor; done | lia | simpl length; lia ].

(** ** Properties *)

(** The registry answers with the definition of the CRS it was asked about:
    the definition's code is the CRS's own, its name is a name of the tables
    (so no table index is out of bounds), its kind is known, degrees go with
    geographic and metres with projected systems, and only EPSG codes are known. *)
Theorem definition_sound c d :
  definition c = Some d ->
  authority c = "EPSG" /\ def_code d = code c /\ def_name d <> "" /\
  def_kind d <> CK_Unknown /\ def_unit d <> Unit_Unknown /\
  (def_unit d = Degrees <-> def_kind d = CK_Geographic).
Proof.
  unfold definition. case_bool_decide as Ha; [|done]. simpl.
  unfold in_range, WGS84_EPSG, JGD2011_EPSG, NAGOYA_PROJECTED_EPSG, WEB_MERCATOR_EPSG,
    UTM_17N_EPSG, UTM_18N_EPSG, UTM_54N_EPSG.
  repeat case_match; intros; simplify_eq/=; split_and!; try done; try lia; try name_table.
Qed.

(** The string form serde writes for a CRS reads back as the same CRS
    exactly when its authority is EPSG. *)
Theorem parse_identifier_iff c :
  code c <= u32_max -> parse (identifier c) = Ok c <-> authority c = "EPSG".
Proof.
  intros Hk. split; [apply parse_authority|].
  intros Ha. destruct c as [a k]; simpl in *; subst a.
  apply (parse_identifier_epsg k Hk).
Qed.

Lemma definition_sound_witness :
  definition (epsg 32654) = Some (projected 32654 "WGS 84 / UTM zone 54N") /\
  def_code (projected 32654 "WGS 84 / UTM zone 54N") = 32654.
Proof.
  split; [reflexivity|].
  apply (definition_sound (epsg 32654) (projected 32654 "WGS 84 / UTM zone 54N")). reflexivity.
Defined.

Lemma parse_identifier_iff_witness :
  parse "EPSG:6675" = Ok nagoya_projected.
Proof. apply (parse_identifier_iff nagoya_projected); [done | reflexivity]. Defined.
