(* ===== verification/GeoContract.v ===== *)
(** * Semantic contracts (crates/genegis-contract/src/lib.rs)

    The [GeoContract] data model, its validation, and the directional
    compatibility comparison between a provided and a required contract. *)

From S2P Require Import Prelude RustStd Crs.
Local Open Scope N_scope.

Definition GEO_CONTRACT_SCHEMA_VERSION : string := "0.1.0".

(** ** Equality as [PartialEq] has it

    Structures that carry an [f64] compare it with IEEE equality, so equality
    of contracts is not Leibniz equality. *)
Class PartialEq (A : Type) := peq : A -> A -> bool.

#[export] Instance peq_dec {A} `{EqDecision A} : PartialEq A | 10 := fun x y => bool_decide (x = y).
#[export] Instance peq_f64 : PartialEq f64 := f64_eqb.

(** ** Data *)

Inductive GeometryKind :=
| GK_Point | GK_Line | GK_Polygon | GK_Raster | GK_PointCloud | GK_Mixed | GK_Unknown.
Inductive AxisOrder := AO_Xy | AO_LongitudeLatitude | AO_LatitudeLongitude | AO_Unknown.
Inductive MeasureKind :=
| MK_Count | MK_Area | MK_Length | MK_Density | MK_Rate | MK_Ratio
| MK_Category | MK_Identifier | MK_Geometry | MK_Unknown.
Inductive AggregationBasis :=
| AB_Sum | AB_Mean | AB_Count | AB_RatioOfSums | AB_None | AB_Unknown.
Inductive TemporalGranularity :=
| TG_Year | TG_Month | TG_Day | TG_Instant | TG_Interval | TG_Unknown.
Inductive KeyUniqueness := KU_Unique | KU_NonUnique | KU_Unknown.
Inductive NullPolicy := NP_Reject | NP_Preserve | NP_Drop | NP_Unknown.

#[export] Instance GeometryKind_eq_dec : EqDecision GeometryKind.
Proof. solve_decision. Defined.
#[export] Instance AxisOrder_eq_dec : EqDecision AxisOrder.
Proof. solve_decision. Defined.
#[export] Instance MeasureKind_eq_dec : EqDecision MeasureKind.
Proof. solve_decision. Defined.
#[export] Instance AggregationBasis_eq_dec : EqDecision AggregationBasis.
Proof. solve_decision. Defined.
#[export] Instance TemporalGranularity_eq_dec : EqDecision TemporalGranularity.
Proof. solve_decision. Defined.
#[export] Instance KeyUniqueness_eq_dec : EqDecision KeyUniqueness.
Proof. solve_decision. Defined.
#[export] Instance NullPolicy_eq_dec : EqDecision NullPolicy.
Proof. solve_decision. Defined.

Record SpatialExtent := mkSpatialExtent { min_x : f64; min_y : f64; max_x : f64; max_y : f64 }.
Record SpatialResolution := mkSpatialResolution { res_x : f64; res_y : f64 }.

#[export] Instance peq_extent : PartialEq SpatialExtent := fun a b =>
  f64_eqb (min_x a) (min_x b) && f64_eqb (min_y a) (min_y b)
  && f64_eqb (max_x a) (max_x b) && f64_eqb (max_y a) (max_y b).
#[export] Instance peq_resolution : PartialEq SpatialResolution := fun a b =>
  f64_eqb (res_x a) (res_x b) && f64_eqb (res_y a) (res_y b).

Record SpatialContract := mkSpatialContract {
  geometry_kind : GeometryKind;
  sc_crs : option Crs;
  axis_order : AxisOrder;
  sc_coordinate_unit : CoordinateUnit;
  extent : option SpatialExtent;
  resolution : option SpatialResolution }.

(** [SpatialContract::known] *)
Definition spatial_known (k : GeometryKind) (crs : Crs) (a : AxisOrder) : SpatialContract :=
  {| geometry_kind := k; sc_crs := Some crs; axis_order := a;
     sc_coordinate_unit := Crs.coordinate_unit crs; extent := None; resolution := None |}.

Record MeasureTerm := mkMeasureTerm { term_kind : MeasureKind; term_unit : string }.
#[export] Instance MeasureTerm_eq_dec : EqDecision MeasureTerm.
Proof. solve_decision. Defined.

Record MeasureContract := mkMeasureContract {
  measure_kind : MeasureKind;
  measure_unit : string;
  numerator : option MeasureTerm;
  denominator : option MeasureTerm;
  aggregation : AggregationBasis;
  population_universe : option string }.

(** [MeasureContract::simple] *)
Definition measure_simple (k : MeasureKind) (unit : string) (a : AggregationBasis) : MeasureContract :=
  {| measure_kind := k; measure_unit := unit; numerator := None; denominator := None;
     aggregation := a; population_universe := None |}.

Record TemporalContract := mkTemporalContract {
  reference_period : string;
  granularity : TemporalGranularity;
  observed_at : option string }.

Record CoverageContract := mkCoverageContract {
  scope : string;
  expected_feature_count : option N;
  join_keys : list string;
  key_uniqueness : KeyUniqueness;
  null_policy : NullPolicy }.

Record SourceContract := mkSourceContract {
  snapshot : SourceSnapshot;
  source_authority : option string;
  max_age_days : option N }.

Record Uncertainty := mkUncertainty {
  method : string;
  absolute : option f64;
  relative_ppm : option N }.

Record QualityTolerance := mkQualityTolerance { metric : string; max_error_ppm : N }.
#[export] Instance QualityTolerance_eq_dec : EqDecision QualityTolerance.
Proof. solve_decision. Defined.

Record QualityContract := mkQualityContract {
  uncertainty : option Uncertainty;
  tolerances : list QualityTolerance }.

Record GeoContract := mkGeoContract {
  gc_schema_version : string;
  gc_id : string;
  spatial : option SpatialContract;
  measure : option MeasureContract;
  temporal : option TemporalContract;
  coverage : option CoverageContract;
  gc_source : option SourceContract;
  quality : QualityContract }.

(** [GeoContract::new] *)
Definition contract_new (id : string) : GeoContract :=
  {| gc_schema_version := GEO_CONTRACT_SCHEMA_VERSION; gc_id := id; spatial := None;
     measure := None; temporal := None; coverage := None; gc_source := None;
     quality := {| uncertainty := None; tolerances := [] |} |}.

(** The builders [GeoContract::with_…] *)
Definition with_spatial (x : SpatialContract) (c : GeoContract) : GeoContract :=
  {| gc_schema_version := gc_schema_version c; gc_id := gc_id c; spatial := Some x;
     measure := measure c; temporal := temporal c; coverage := coverage c;
     gc_source := gc_source c; quality := quality c |}.
Definition with_measure (x : MeasureContract) (c : GeoContract) : GeoContract :=
  {| gc_schema_version := gc_schema_version c; gc_id := gc_id c; spatial := spatial c;
     measure := Some x; temporal := temporal c; coverage := coverage c;
     gc_source := gc_source c; quality := quality c |}.
Definition with_temporal (x : TemporalContract) (c : GeoContract) : GeoContract :=
  {| gc_schema_version := gc_schema_version c; gc_id := gc_id c; spatial := spatial c;
     measure := measure c; temporal := Some x; coverage := coverage c;
     gc_source := gc_source c; quality := quality c |}.
Definition with_coverage (x : CoverageContract) (c : GeoContract) : GeoContract :=
  {| gc_schema_version := gc_schema_version c; gc_id := gc_id c; spatial := spatial c;
     measure := measure c; temporal := temporal c; coverage := Some x;
     gc_source := gc_source c; quality := quality c |}.
Definition with_source (x : SourceContract) (c : GeoContract) : GeoContract :=
  {| gc_schema_version := gc_schema_version c; gc_id := gc_id c; spatial := spatial c;
     measure := measure c; temporal := temporal c; coverage := coverage c;
     gc_source := Some x; quality := quality c |}.
Definition with_quality (x : QualityContract) (c : GeoContract) : GeoContract :=
  {| gc_schema_version := gc_schema_version c; gc_id := gc_id c; spatial := spatial c;
     measure := measure c; temporal := temporal c; coverage := coverage c;
     gc_source := gc_source c; quality := x |}.
(** [SourceContract::new] *)
Definition source_contract_new (s : SourceSnapshot) : SourceContract :=
  {| snapshot := s; source_authority := None; max_age_days := None |}.

Inductive ContractValidationError :=
| UnsupportedSchemaVersion (version : string)
| EmptyField (field : string)
| UnknownSemantic (field : string)
| CoordinateUnitMismatch (crs : string) (expected actual : CoordinateUnit)
| InvalidExtent
| InvalidResolution
| MissingMeasureTerms
| DuplicateValue (field value : string)
| InvalidQuality (field : string)
| InvalidCrs (reason : string).

(** [Display] of the validation errors *)
Definition contract_error_to_string (e : ContractValidationError) : string :=
  match e with
  | UnsupportedSchemaVersion v => "unsupported GeoContract schema version: " +:+ v
  | EmptyField f => "GeoContract field is empty: " +:+ f
  | UnknownSemantic f => "GeoContract semantic is unknown: " +:+ f
  | CoordinateUnitMismatch crs expected actual =>
      "coordinate unit " +:+ unit_as_str actual +:+ " is incompatible with " +:+ crs
      +:+ "; expected " +:+ unit_as_str expected
  | InvalidExtent => "invalid spatial extent"
  | InvalidResolution => "invalid spatial resolution"
  | MissingMeasureTerms => "derived measure requires numerator and denominator"
  | DuplicateValue f v => "duplicate GeoContract value in " +:+ f +:+ ": " +:+ v
  | InvalidQuality f => "invalid quality value: " +:+ f
  | InvalidCrs r => "invalid spatial CRS: " +:+ r
  end.

(** ** Validation *)

Abbreviation check := (result ContractValidationError unit).

Definition require_text (value field : string) : check :=
  err_if (is_blank value || eq_ignore_ascii_case (trim value) "unknown") (EmptyField field).

(** [if let Some(x) = o { body(x)? }] *)
Definition if_some {E A} (o : option A) (body : A -> result E unit) : result E unit :=
  match o with Some a => body a | None => Ok tt end.

Definition validate_spatial `{F64Display} (spatial : SpatialContract) : check :=
  err_if (bool_decide (geometry_kind spatial = GK_Unknown)) (UnknownSemantic "spatial.geometry_kind");;
  err_if (bool_decide (axis_order spatial = AO_Unknown)) (UnknownSemantic "spatial.axis_order");;
  err_if (bool_decide (sc_coordinate_unit spatial = Unit_Unknown))
    (UnknownSemantic "spatial.coordinate_unit");;
  crs ← ok_or (sc_crs spatial) (UnknownSemantic "spatial.crs");
  definition ← map_err (fun e => InvalidCrs (crs_error_to_string e)) (require_known crs);
  err_if (negb (bool_decide (def_unit definition = sc_coordinate_unit spatial)))
    (CoordinateUnitMismatch (identifier crs) (def_unit definition) (sc_coordinate_unit spatial));;
  if_some (extent spatial) (fun e =>
    err_if (negb (forallb f64_is_finite [min_x e; min_y e; max_x e; max_y e])
            || f64_ltb (max_x e) (min_x e) || f64_ltb (max_y e) (min_y e)) InvalidExtent);;
  if_some (resolution spatial) (fun r =>
    err_if (negb (f64_is_finite (res_x r)) || negb (f64_is_finite (res_y r))
            || f64_leb (res_x r) f64_zero || f64_leb (res_y r) f64_zero) InvalidResolution).

Definition validate_measure (measure : MeasureContract) : check :=
  err_if (bool_decide (measure_kind measure = MK_Unknown)) (UnknownSemantic "measure.kind");;
  require_text (measure_unit measure) "measure.unit";;
  err_if (bool_decide (aggregation measure = AB_Unknown)) (UnknownSemantic "measure.aggregation");;
  err_if (bool_decide (measure_kind measure ∈ [MK_Density; MK_Rate; MK_Ratio])
          && (bool_decide (numerator measure = None) || bool_decide (denominator measure = None)))
    MissingMeasureTerms;;
  for_each (fun '(field, term) =>
    if_some term (fun term =>
      err_if (bool_decide (term_kind term = MK_Unknown)) (UnknownSemantic field);;
      require_text (term_unit term) field))
    [("measure.numerator.unit", numerator measure);
     ("measure.denominator.unit", denominator measure)];;
  if_some (population_universe measure) (fun u => require_text u "measure.population_universe").

Definition validate_temporal (temporal : TemporalContract) : check :=
  require_text (reference_period temporal) "temporal.reference_period";;
  err_if (bool_decide (granularity temporal = TG_Unknown)) (UnknownSemantic "temporal.granularity");;
  if_some (observed_at temporal) (fun o => require_text o "temporal.observed_at").

(** The loops that reject a repeated identifier keep the set seen so far. *)
Definition insert_distinct (field value : string) (seen : gset string)
    : result ContractValidationError (gset string) :=
  require_text value field;;
  err_if (bool_decide (value ∈ seen)) (DuplicateValue field value);;
  Ok ({[value]} ∪ seen).

Definition validate_coverage (coverage : CoverageContract) : check :=
  require_text (scope coverage) "coverage.scope";;
  err_if (bool_decide (key_uniqueness coverage = KU_Unknown))
    (UnknownSemantic "coverage.key_uniqueness");;
  err_if (bool_decide (null_policy coverage = NP_Unknown)) (UnknownSemantic "coverage.null_policy");;
  err_if (bool_decide (expected_feature_count coverage = Some 0))
    (InvalidQuality "coverage.expected_feature_count");;
  try_fold (fun keys key => insert_distinct "coverage.join_keys" key keys) ∅ (join_keys coverage);;
  Ok tt.

Definition validate_source (source : SourceContract) : check :=
  require_text (uri (snapshot source)) "source.snapshot.uri";;
  if_some (source_authority source) (fun a => require_text a "source.authority");;
  err_if (bool_decide (max_age_days source = Some 0)) (InvalidQuality "source.max_age_days").

Definition validate_quality (quality : QualityContract) : check :=
  if_some (uncertainty quality) (fun u =>
    require_text (method u) "quality.uncertainty.method";;
    if_some (absolute u) (fun a =>
      err_if (negb (f64_is_finite a) || f64_ltb a f64_zero)
        (InvalidQuality "quality.uncertainty.absolute")));;
  try_fold (fun metrics t => insert_distinct "quality.tolerances.metric" (metric t) metrics)
    ∅ (tolerances quality);;
  Ok tt.

Definition validate_contract `{F64Display} (contract : GeoContract) : check :=
  err_if (negb (bool_decide (gc_schema_version contract = GEO_CONTRACT_SCHEMA_VERSION)))
    (UnsupportedSchemaVersion (gc_schema_version contract));;
  require_text (gc_id contract) "id";;
  if_some (spatial contract) validate_spatial;;
  if_some (measure contract) validate_measure;;
  if_some (temporal contract) validate_temporal;;
  if_some (coverage contract) validate_coverage;;
  if_some (gc_source contract) validate_source;;
  validate_quality (quality contract).

(** ** Compatibility *)

Inductive CompatibilityStatus := Compatible | Incompatible | Indeterminate.
#[export] Instance CompatibilityStatus_eq_dec : EqDecision CompatibilityStatus.
Proof. solve_decision. Defined.

Record CompatibilityFinding := mkFinding {
  finding_field : string;
  finding_status : CompatibilityStatus;
  finding_detail : string }.

Record CompatibilityReport := mkReport {
  report_status : CompatibilityStatus;
  findings : list CompatibilityFinding }.

Definition is_compatible (r : CompatibilityReport) : bool :=
  bool_decide (report_status r = Compatible).

Definition indeterminate (field detail : string) : CompatibilityFinding :=
  {| finding_field := field; finding_status := Indeterminate; finding_detail := detail |}.

Section Compare.
(** The derived [Debug] rendering, which only reaches the [detail] texts. *)
Context (debug_fmt : forall A : Type, A -> string).

(** Each comparison returns the findings it pushes. *)
Definition compare_value {A} `{PartialEq A} (field : string) (provided required : option A)
    : list CompatibilityFinding :=
  match required with
  | None => []
  | Some required =>
      match provided with
      | None => [indeterminate field "provided semantic is missing"]
      | Some provided =>
          if peq provided required then
            [{| finding_field := field; finding_status := Compatible;
                finding_detail := "provided semantic matches requirement" |}]
          else
            [{| finding_field := field; finding_status := Incompatible;
                finding_detail := "provided " +:+ debug_fmt A provided
                  +:+ " does not match required " +:+ debug_fmt A required |}]
      end
  end.

Definition compare_optional {A} `{PartialEq A} (field : string) (provided required : option A)
    : list CompatibilityFinding :=
  match required with
  | None => []
  | Some _ =>
      match provided with
      | None => [indeterminate field "provided semantic is missing"]
      | Some provided => compare_value field (Some provided) required
      end
  end.

Definition compare_spatial (provided required : option SpatialContract) : list CompatibilityFinding :=
  match required, provided with
  | None, _ => []
  | Some _, None => [indeterminate "spatial" "provided spatial semantic is missing"]
  | Some r, Some p =>
      compare_value "spatial.geometry_kind" (Some (geometry_kind p)) (Some (geometry_kind r))
      ++ compare_optional "spatial.crs" (sc_crs p) (sc_crs r)
      ++ compare_value "spatial.axis_order" (Some (axis_order p)) (Some (axis_order r))
      ++ compare_value "spatial.coordinate_unit"
           (Some (sc_coordinate_unit p)) (Some (sc_coordinate_unit r))
      ++ compare_optional "spatial.extent" (extent p) (extent r)
      ++ compare_optional "spatial.resolution" (resolution p) (resolution r)
  end.

Definition compare_measure (provided required : option MeasureContract) : list CompatibilityFinding :=
  match required, provided with
  | None, _ => []
  | Some _, None => [indeterminate "measure" "provided measure semantic is missing"]
  | Some r, Some p =>
      compare_value "measure.kind" (Some (measure_kind p)) (Some (measure_kind r))
      ++ compare_value "measure.unit" (Some (measure_unit p)) (Some (measure_unit r))
      ++ compare_value "measure.aggregation" (Some (aggregation p)) (Some (aggregation r))
      ++ compare_optional "measure.numerator" (numerator p) (numerator r)
      ++ compare_optional "measure.denominator" (denominator p) (denominator r)
      ++ compare_optional "measure.population_universe"
           (population_universe p) (population_universe r)
  end.

Definition compare_temporal (provided required : option TemporalContract) : list CompatibilityFinding :=
  match required, provided with
  | None, _ => []
  | Some _, None => [indeterminate "temporal" "provided temporal semantic is missing"]
  | Some r, Some p =>
      compare_value "temporal.reference_period"
        (Some (reference_period p)) (Some (reference_period r))
      ++ compare_value "temporal.granularity" (Some (granularity p)) (Some (granularity r))
      ++ compare_optional "temporal.observed_at" (observed_at p) (observed_at r)
  end.

Definition compare_coverage (provided required : option CoverageContract) : list CompatibilityFinding :=
  match required, provided with
  | None, _ => []
  | Some _, None => [indeterminate "coverage" "provided coverage semantic is missing"]
  | Some r, Some p =>
      compare_value "coverage.scope" (Some (scope p)) (Some (scope r))
      ++ compare_optional "coverage.expected_feature_count"
           (expected_feature_count p) (expected_feature_count r)
      ++ (if bool_decide (join_keys r = []) then []
          else compare_value "coverage.join_keys" (Some (join_keys p)) (Some (join_keys r)))
      ++ compare_value "coverage.key_uniqueness" (Some (key_uniqueness p)) (Some (key_uniqueness r))
      ++ compare_value "coverage.null_policy" (Some (null_policy p)) (Some (null_policy r))
  end.

Definition compare_source (provided required : option SourceContract) : list CompatibilityFinding :=
  match required, provided with
  | None, _ => []
  | Some _, None => [indeterminate "source" "provided source is missing"]
  | Some r, Some p =>
      compare_value "source.snapshot.uri" (Some (uri (snapshot p))) (Some (uri (snapshot r)))
      ++ compare_optional "source.snapshot.source_version"
           (source_version (snapshot p)) (source_version (snapshot r))
      ++ compare_optional "source.snapshot.expected_checksum"
           (expected_checksum (snapshot p)) (expected_checksum (snapshot r))
      ++ compare_optional "source.authority" (source_authority p) (source_authority r)
  end.

Definition compare_tolerance (provided : list QualityTolerance) (required : QualityTolerance)
    : CompatibilityFinding :=
  let field := "quality.tolerances." +:+ metric required in
  match List.find (fun candidate => bool_decide (metric candidate = metric required)) provided with
  | None => indeterminate field "required tolerance is missing"
  | Some candidate =>
      if max_error_ppm candidate <=? max_error_ppm required then
        {| finding_field := field; finding_status := Compatible;
           finding_detail := "provided tolerance is at least as strict as required" |}
      else
        {| finding_field := field; finding_status := Incompatible;
           finding_detail := "provided maximum " +:+ show_N (max_error_ppm candidate)
             +:+ " ppm exceeds required " +:+ show_N (max_error_ppm required) +:+ " ppm" |}
  end.

Definition status_of (findings : list CompatibilityFinding) : CompatibilityStatus :=
  if existsb (fun f => bool_decide (finding_status f = Incompatible)) findings then Incompatible
  else if existsb (fun f => bool_decide (finding_status f = Indeterminate)) findings
  then Indeterminate
  else Compatible.

Definition compare_contracts (provided required : GeoContract) : CompatibilityReport :=
  let findings :=
    compare_value "schema_version"
      (Some (gc_schema_version provided)) (Some (gc_schema_version required))
    ++ compare_spatial (spatial provided) (spatial required)
    ++ compare_measure (measure provided) (measure required)
    ++ compare_temporal (temporal provided) (temporal required)
    ++ compare_coverage (coverage provided) (coverage required)
    ++ compare_source (gc_source provided) (gc_source required)
    ++ map (compare_tolerance (tolerances (quality provided))) (tolerances (quality required)) in
  {| report_status := status_of findings; findings := findings |}.
End Compare.

(** ** What the two operations promise *)

(** A text that carries information: not blank and not the word "unknown". *)
Definition informative (s : string) : Prop :=
  is_blank s = false /\ eq_ignore_ascii_case (trim s) "unknown" = false.

Definition on_some {A} (o : option A) (P : A -> Prop) : Prop :=
  match o with Some a => P a | None => True end.

Definition spatial_wf (s : SpatialContract) : Prop :=
  geometry_kind s <> GK_Unknown /\ axis_order s <> AO_Unknown
  /\ sc_coordinate_unit s <> Unit_Unknown
  /\ (exists crs d, sc_crs s = Some crs /\ definition crs = Some d
                    /\ def_unit d = sc_coordinate_unit s)
  /\ on_some (extent s) (fun e =>
       Forall (fun x => f64_is_finite x = true) [min_x e; min_y e; max_x e; max_y e]
       /\ f64_ltb (max_x e) (min_x e) = false /\ f64_ltb (max_y e) (min_y e) = false)
  /\ on_some (resolution s) (fun r =>
       f64_is_finite (res_x r) = true /\ f64_is_finite (res_y r) = true
       /\ f64_leb (res_x r) f64_zero = false /\ f64_leb (res_y r) f64_zero = false).

Definition term_wf (t : option MeasureTerm) : Prop :=
  on_some t (fun t => term_kind t <> MK_Unknown /\ informative (term_unit t)).

Definition measure_wf (m : MeasureContract) : Prop :=
  measure_kind m <> MK_Unknown /\ informative (measure_unit m)
  /\ aggregation m <> AB_Unknown
  /\ (measure_kind m ∈ [MK_Density; MK_Rate; MK_Ratio] ->
      is_Some (numerator m) /\ is_Some (denominator m))
  /\ term_wf (numerator m) /\ term_wf (denominator m)
  /\ on_some (population_universe m) informative.

Definition temporal_wf (t : TemporalContract) : Prop :=
  informative (reference_period t) /\ granularity t <> TG_Unknown
  /\ on_some (observed_at t) informative.

Definition coverage_wf (c : CoverageContract) : Prop :=
  informative (scope c) /\ key_uniqueness c <> KU_Unknown /\ null_policy c <> NP_Unknown
  /\ expected_feature_count c <> Some 0
  /\ Forall informative (join_keys c) /\ NoDup (join_keys c).

Definition source_wf (s : SourceContract) : Prop :=
  informative (uri (snapshot s)) /\ on_some (source_authority s) informative
  /\ max_age_days s <> Some 0.

Definition quality_wf (q : QualityContract) : Prop :=
  on_some (uncertainty q) (fun u =>
    informative (method u)
    /\ on_some (absolute u) (fun a => f64_is_finite a = true /\ f64_ltb a f64_zero = false))
  /\ Forall informative (map metric (tolerances q)) /\ NoDup (map metric (tolerances q)).

Definition contract_wf (c : GeoContract) : Prop :=
  gc_schema_version c = GEO_CONTRACT_SCHEMA_VERSION /\ informative (gc_id c)
  /\ on_some (spatial c) spatial_wf /\ on_some (measure c) measure_wf
  /\ on_some (temporal c) temporal_wf /\ on_some (coverage c) coverage_wf
  /\ on_some (gc_source c) source_wf /\ quality_wf (quality c).

(** [satisfies p r]: whatever [r] requires, [p] states, with an equal value. *)
Definition satisfies {A} `{PartialEq A} (p r : option A) : Prop :=
  on_some r (fun x => exists y, p = Some y /\ peq y x = true).

(** [within P p r]: a required section is present and [P] relates the two. *)
Definition within {A} (P : A -> A -> Prop) (p r : option A) : Prop :=
  on_some r (fun x => exists y, p = Some y /\ P y x).

Definition spatial_meets (p r : SpatialContract) : Prop :=
  geometry_kind p = geometry_kind r /\ satisfies (sc_crs p) (sc_crs r)
  /\ axis_order p = axis_order r /\ sc_coordinate_unit p = sc_coordinate_unit r
  /\ satisfies (extent p) (extent r) /\ satisfies (resolution p) (resolution r).
Definition measure_meets (p r : MeasureContract) : Prop :=
  measure_kind p = measure_kind r /\ measure_unit p = measure_unit r
  /\ aggregation p = aggregation r /\ satisfies (numerator p) (numerator r)
  /\ satisfies (denominator p) (denominator r)
  /\ satisfies (population_universe p) (population_universe r).
Definition temporal_meets (p r : TemporalContract) : Prop :=
  reference_period p = reference_period r /\ granularity p = granularity r
  /\ satisfies (observed_at p) (observed_at r).
Definition coverage_meets (p r : CoverageContract) : Prop :=
  scope p = scope r /\ satisfies (expected_feature_count p) (expected_feature_count r)
  /\ (join_keys r = [] \/ join_keys p = join_keys r)
  /\ key_uniqueness p = key_uniqueness r /\ null_policy p = null_policy r.
Definition source_meets (p r : SourceContract) : Prop :=
  uri (snapshot p) = uri (snapshot r)
  /\ satisfies (source_version (snapshot p)) (source_version (snapshot r))
  /\ satisfies (expected_checksum (snapshot p)) (expected_checksum (snapshot r))
  /\ satisfies (source_authority p) (source_authority r).
(** A required tolerance is met by the first provided one on its metric. *)
Definition tolerance_meets (p : list QualityTolerance) (t : QualityTolerance) : Prop :=
  exists c, List.find (fun c => bool_decide (metric c = metric t)) p = Some c
            /\ max_error_ppm c <= max_error_ppm t.

Definition meets (p r : GeoContract) : Prop :=
  gc_schema_version p = gc_schema_version r
  /\ within spatial_meets (spatial p) (spatial r)
  /\ within measure_meets (measure p) (measure r)
  /\ within temporal_meets (temporal p) (temporal r)
  /\ within coverage_meets (coverage p) (coverage r)
  /\ within source_meets (gc_source p) (gc_source r)
  /\ Forall (tolerance_meets (tolerances (quality p))) (tolerances (quality r)).

(** ** Validation accepts exactly the well-formed contracts *)

Lemma if_some_ok {E A} (o : option A) (body : A -> result E unit) (P : A -> Prop) u :
  (forall a, body a = Ok tt <-> P a) -> if_some o body = Ok u <-> on_some o P.
Proof. intros HP. destruct u, o; simpl; [apply HP | done]. Qed.

Lemma require_text_ok value field u :
  require_text value field = Ok u <-> informative value.
Proof. unfold require_text, informative. by rewrite err_if_ok, orb_false_iff. Qed.

Lemma insert_distinct_ok field value seen seen' :
  insert_distinct field value seen = Ok seen' <->
  informative value /\ value ∉ seen /\ seen' = {[value]} ∪ seen.
Proof.
  unfold insert_distinct. rewrite bind_ok. setoid_rewrite require_text_ok.
  setoid_rewrite bind_ok. setoid_rewrite err_decide_ok. naive_solver.
Qed.

Lemma distinct_field_ok {A} (field : string) (key : A -> string) l u :
  (try_fold (fun s a => insert_distinct field (key a) s) ∅ l ;; Ok tt) = Ok u <->
  Forall informative (map key l) /\ NoDup (map key l).
Proof.
  rewrite List.Forall_map. apply (distinct_loop_ok key (fun a => informative (key a))).
  intros s a s'. apply insert_distinct_ok.
Qed.

Lemma validate_spatial_ok `{F64Display} s u : validate_spatial s = Ok u <-> spatial_wf s.
Proof.
  unfold validate_spatial, spatial_wf. rewrite !seq_ok, !err_decide_ok, bind_ok.
  setoid_rewrite bind_ok. setoid_rewrite seq_ok. setoid_rewrite seq_ok.
  assert (He : forall u, if_some (extent s) (fun e =>
    err_if (negb (forallb f64_is_finite [min_x e; min_y e; max_x e; max_y e])
            || f64_ltb (max_x e) (min_x e) || f64_ltb (max_y e) (min_y e)) InvalidExtent) = Ok u
    <-> on_some (extent s) (fun e =>
       Forall (fun x => f64_is_finite x = true) [min_x e; min_y e; max_x e; max_y e]
       /\ f64_ltb (max_x e) (min_x e) = false /\ f64_ltb (max_y e) (min_y e) = false)).
  { intros v. apply if_some_ok. intros e.
    rewrite err_if_ok, !orb_false_iff, negb_false_iff, forallb_forall, List.Forall_forall.
    tauto. }
  assert (Hr : forall u, if_some (resolution s) (fun r =>
    err_if (negb (f64_is_finite (res_x r)) || negb (f64_is_finite (res_y r))
            || f64_leb (res_x r) f64_zero || f64_leb (res_y r) f64_zero) InvalidResolution) = Ok u
    <-> on_some (resolution s) (fun r =>
       f64_is_finite (res_x r) = true /\ f64_is_finite (res_y r) = true
       /\ f64_leb (res_x r) f64_zero = false /\ f64_leb (res_y r) f64_zero = false)).
  { intros v. apply if_some_ok. intros r.
    rewrite err_if_ok, !orb_false_iff, !negb_false_iff. tauto. }
  setoid_rewrite He. setoid_rewrite Hr. setoid_rewrite ok_or_ok. setoid_rewrite map_err_ok.
  unfold require_known. setoid_rewrite ok_or_ok. setoid_rewrite err_if_ok.
  setoid_rewrite negb_false_iff. setoid_rewrite bool_decide_eq_true. naive_solver.
Qed.

Lemma term_ok field t u :
  if_some t (fun term => err_if (bool_decide (term_kind term = MK_Unknown)) (UnknownSemantic field);;
                         require_text (term_unit term) field) = Ok u <-> term_wf t.
Proof.
  apply if_some_ok. intros a. by rewrite seq_ok, err_decide_ok, require_text_ok.
Qed.

Lemma texts_ok o field u :
  if_some o (fun a => require_text a field) = Ok u <-> on_some o informative.
Proof. apply if_some_ok. intros a. apply require_text_ok. Qed.

Lemma validate_measure_ok m u : validate_measure m = Ok u <-> measure_wf m.
Proof.
  unfold validate_measure, measure_wf.
  rewrite !seq_ok, !err_decide_ok, err_if_ok, require_text_ok, texts_ok.
  cbn [for_each]. rewrite !seq_ok, !term_ok.
  rewrite andb_false_iff, orb_false_iff, !bool_decide_eq_false, <-!not_eq_None_Some.
  destruct (decide (measure_kind m ∈ [MK_Density; MK_Rate; MK_Ratio])); naive_solver.
Qed.

Lemma validate_temporal_ok t u : validate_temporal t = Ok u <-> temporal_wf t.
Proof.
  unfold validate_temporal, temporal_wf.
  by rewrite !seq_ok, err_decide_ok, require_text_ok, texts_ok.
Qed.

Lemma validate_coverage_ok c u : validate_coverage c = Ok u <-> coverage_wf c.
Proof.
  unfold validate_coverage, coverage_wf.
  rewrite !seq_ok, !err_decide_ok, require_text_ok.
  pose proof (distinct_field_ok "coverage.join_keys" (fun k => k) (join_keys c) u) as Hd.
  rewrite map_id in Hd. rewrite Hd. tauto.
Qed.

Lemma validate_source_ok s u : validate_source s = Ok u <-> source_wf s.
Proof.
  unfold validate_source, source_wf.
  by rewrite !seq_ok, err_decide_ok, require_text_ok, texts_ok.
Qed.

Lemma validate_quality_ok q u : validate_quality q = Ok u <-> quality_wf q.
Proof.
  unfold validate_quality, quality_wf. rewrite seq_ok, distinct_field_ok.
  rewrite (if_some_ok (uncertainty q) _ (fun u => informative (method u)
    /\ on_some (absolute u) (fun a => f64_is_finite a = true /\ f64_ltb a f64_zero = false))).
  { done. }
  intros a. rewrite seq_ok, require_text_ok.
  rewrite (if_some_ok (absolute a) _
    (fun a => f64_is_finite a = true /\ f64_ltb a f64_zero = false)); [done|].
  intros x. by rewrite err_if_ok, orb_false_iff, negb_false_iff.
Qed.

Lemma validate_contract_ok `{F64Display} c :
  validate_contract c = Ok tt <-> contract_wf c.
Proof.
  unfold validate_contract, contract_wf.
  rewrite !seq_ok, err_if_ok, negb_false_iff, bool_decide_eq_true, require_text_ok.
  rewrite (if_some_ok _ _ _ _ (fun s => validate_spatial_ok s tt)).
  rewrite (if_some_ok _ _ _ _ (fun s => validate_measure_ok s tt)).
  rewrite (if_some_ok _ _ _ _ (fun s => validate_temporal_ok s tt)).
  rewrite (if_some_ok _ _ _ _ (fun s => validate_coverage_ok s tt)).
  rewrite (if_some_ok _ _ _ _ (fun s => validate_source_ok s tt)).
  by rewrite validate_quality_ok.
Qed.

(** ** Comparison reports compatibility exactly when the requirement is met *)

Definition all_compatible (l : list CompatibilityFinding) : Prop :=
  Forall (fun f => finding_status f = Compatible) l.

Lemma status_of_compatible l : status_of l = Compatible <-> all_compatible l.
Proof.
  unfold status_of, all_compatible. rewrite List.Forall_forall. split.
  - destruct (existsb _ l) eqn:H1; [done|].
    destruct (existsb _ l) eqn:H2 in |- *; [done|]. intros _ f Hf.
    destruct (finding_status f) eqn:Hs; [done|exfalso..].
    + apply not_true_iff_false in H1. apply H1. apply existsb_exists.
      exists f. by rewrite Hs.
    + apply not_true_iff_false in H2. apply H2. apply existsb_exists.
      exists f. by rewrite Hs.
  - intros Hall.
    assert (Hno : forall s, s <> Compatible ->
      existsb (fun f => bool_decide (finding_status f = s)) l = false).
    { intros s Hs. apply not_true_iff_false. rewrite existsb_exists.
      intros (f & Hf & Hfs%bool_decide_eq_true). specialize (Hall f Hf). congruence. }
    by rewrite !Hno.
Qed.

Lemma all_compatible_app l k : all_compatible (l ++ k) <-> all_compatible l /\ all_compatible k.
Proof. apply Forall_app. Qed.

Section CompareSpec.
Context (debug_fmt : forall A : Type, A -> string).

Lemma compare_value_ok {A} `{PartialEq A} field (p r : option A) :
  all_compatible (compare_value debug_fmt field p r) <-> satisfies p r.
Proof.
  unfold compare_value, satisfies, all_compatible. destruct r as [x|]; simpl; [|done].
  destruct p as [y|]; simpl; rewrite ?Forall_singleton; simpl.
  - destruct (peq y x) eqn:Hxy; rewrite Forall_singleton; simpl; split; try done.
    + by exists y.
    + intros (? & [= <-] & ?). congruence.
  - split; [done | by intros (? & ? & _)].
Qed.

Lemma compare_optional_ok {A} `{PartialEq A} field (p r : option A) :
  all_compatible (compare_optional debug_fmt field p r) <-> satisfies p r.
Proof.
  rewrite <-(compare_value_ok field p r). unfold compare_optional, compare_value.
  destruct r, p; done.
Qed.

Lemma compare_eq_ok {A} `{EqDecision A} field (p r : A) :
  all_compatible (compare_value debug_fmt field (Some p) (Some r)) <-> p = r.
Proof.
  rewrite compare_value_ok. unfold satisfies; simpl. split.
  - intros (y & [= <-] & Hy). by apply bool_decide_eq_true in Hy.
  - intros ->. exists r. split; [done|]. by apply bool_decide_eq_true.
Qed.

Lemma missing_not_compatible field detail : ~ all_compatible [indeterminate field detail].
Proof. unfold all_compatible. by rewrite Forall_singleton. Qed.

Lemma some_exists {A} (a : A) (P : A -> Prop) : (exists y, Some a = Some y /\ P y) <-> P a.
Proof. split; [by intros (y & [= <-] & ?) | eauto]. Qed.

Ltac section_ok p r :=
  destruct r as [r|], p as [p|]; unfold within;
  cbn [on_some compare_spatial compare_measure compare_temporal compare_coverage compare_source];
  [ rewrite some_exists, ?all_compatible_app, ?compare_eq_ok, ?compare_optional_ok
  | split; [intros Hm; by apply missing_not_compatible in Hm | by intros (? & ? & _)]
  | split; [done | constructor] .. ].

Lemma compare_spatial_ok p r :
  all_compatible (compare_spatial debug_fmt p r) <-> within spatial_meets p r.
Proof. section_ok p r. unfold spatial_meets. tauto. Qed.

Lemma compare_measure_ok p r :
  all_compatible (compare_measure debug_fmt p r) <-> within measure_meets p r.
Proof. section_ok p r. unfold measure_meets. tauto. Qed.

Lemma compare_temporal_ok p r :
  all_compatible (compare_temporal debug_fmt p r) <-> within temporal_meets p r.
Proof. section_ok p r. unfold temporal_meets. tauto. Qed.

Lemma compare_source_ok p r :
  all_compatible (compare_source debug_fmt p r) <-> within source_meets p r.
Proof. section_ok p r. unfold source_meets. tauto. Qed.

Lemma compare_coverage_ok p r :
  all_compatible (compare_coverage debug_fmt p r) <-> within coverage_meets p r.
Proof.
  section_ok p r. unfold coverage_meets.
  assert (Hj : all_compatible (if bool_decide (join_keys r = []) then [] else
    compare_value debug_fmt "coverage.join_keys" (Some (join_keys p)) (Some (join_keys r)))
    <-> join_keys r = [] \/ join_keys p = join_keys r).
  { case_bool_decide; [split; [by left | constructor]|]. rewrite compare_eq_ok. tauto. }
  rewrite Hj. tauto.
Qed.

Lemma compare_tolerance_ok p t :
  finding_status (compare_tolerance p t) = Compatible <-> tolerance_meets p t.
Proof.
  unfold compare_tolerance, tolerance_meets.
  destruct (List.find _ p) as [c|]; simpl; [|naive_solver].
  destruct (N.leb_spec (max_error_ppm c) (max_error_ppm t)); simpl; split.
  - eauto.
  - done.
  - done.
  - intros (c' & [= <-] & ?). lia.
Qed.

Lemma compare_contracts_ok p r :
  report_status (compare_contracts debug_fmt p r) = Compatible <-> meets p r.
Proof.
  unfold compare_contracts, meets. cbn [report_status].
  rewrite status_of_compatible, !all_compatible_app, compare_eq_ok.
  rewrite compare_spatial_ok, compare_measure_ok, compare_temporal_ok,
    compare_coverage_ok, compare_source_ok.
  assert (Ht : all_compatible (map (compare_tolerance (tolerances (quality p))) (tolerances (quality r)))
    <-> Forall (tolerance_meets (tolerances (quality p))) (tolerances (quality r))).
  { unfold all_compatible. rewrite List.Forall_map. apply Forall_iff. intros t.
    apply compare_tolerance_ok. }
  by rewrite Ht.
Qed.
End CompareSpec.

(** ** A validated contract meets itself

    Validation excludes the only two ways in which it could not: coordinates
    that are not numbers, and a metric with two tolerances. *)

Lemma satisfies_refl {A} `{PartialEq A} (o : option A) :
  on_some o (fun x => peq x x = true) -> satisfies o o.
Proof. destruct o as [x|]; simpl; [|done]. by exists x. Qed.

Lemma satisfies_eq_refl {A} `{EqDecision A} (o : option A) : satisfies o o.
Proof. apply satisfies_refl. destruct o; [by apply bool_decide_eq_true | done]. Qed.

Lemma within_refl {A} (P : A -> A -> Prop) (Q : A -> Prop) (o : option A) :
  (forall a, Q a -> P a a) -> on_some o Q -> within P o o.
Proof. destruct o as [a|]; simpl; [|done]. exists a. auto. Qed.

#[local] Hint Resolve satisfies_eq_refl : meets.

Lemma finite_eqb_refl x : f64_is_finite x = true -> f64_eqb x x = true.
Proof. auto with rust. Qed.

Lemma spatial_meets_refl s : spatial_wf s -> spatial_meets s s.
Proof.
  intros (_ & _ & _ & _ & He & Hr). unfold spatial_meets.
  split_and!; auto with meets; apply satisfies_refl.
  - destruct (extent s) as [e|]; [|done]. destruct He as [He _]. simpl in *.
    rewrite !Forall_cons in He. destruct He as (H1 & H2 & H3 & H4 & _).
    unfold peq, peq_extent. by rewrite !finite_eqb_refl.
  - destruct (resolution s) as [r|]; [|done]. destruct Hr as (H1 & H2 & _). simpl.
    unfold peq, peq_resolution. by rewrite !finite_eqb_refl.
Qed.

Lemma find_distinct (l : list QualityTolerance) t :
  NoDup (map metric l) -> t ∈ l ->
  List.find (fun c => bool_decide (metric c = metric t)) l = Some t.
Proof.
  induction l as [|a l IH]; simpl; [by intros _ ?%not_elem_of_nil|].
  intros [Hn Hd]%NoDup_cons [->|Hin]%elem_of_cons.
  - by rewrite bool_decide_true.
  - rewrite bool_decide_false; [by apply IH|]. intros Heq. apply Hn.
    rewrite Heq. by apply (list_elem_of_fmap_2 metric).
Qed.

Lemma meets_refl c : contract_wf c -> meets c c.
Proof.
  intros (_ & _ & Hs & Hm & Ht & Hc & Hsrc & (_ & _ & Hd)). unfold meets.
  split_and!; [done|..].
  - exact (within_refl _ _ _ spatial_meets_refl Hs).
  - apply (within_refl _ measure_wf); [|done]. intros a _.
    unfold measure_meets. auto 10 with meets.
  - apply (within_refl _ temporal_wf); [|done]. intros a _.
    unfold temporal_meets. auto 10 with meets.
  - apply (within_refl _ coverage_wf); [|done]. intros a _.
    unfold coverage_meets. auto 10 with meets.
  - apply (within_refl _ source_wf); [|done]. intros a _.
    unfold source_meets. auto 10 with meets.
  - apply Forall_forall. intros t Ht'. exists t. split; [|lia].
    by apply find_distinct.
Qed.

(** ** Properties *)

(** [validate_contract] accepts a contract iff it is well formed: current
    schema, informative texts, no unknown semantic, a registered CRS whose unit
    is the declared one, ordered finite extents, positive resolutions, derived
    measures with both terms, distinct join keys and tolerance metrics. *)
Theorem validate_contract_iff `{F64Display} c :
  validate_contract c = Ok tt <-> contract_wf c.
Proof. apply validate_contract_ok. Qed.

(** A contract that passes validation is compatible with itself. *)
Theorem validated_self_compatible `{F64Display} (debug_fmt : forall A : Type, A -> string) c :
  validate_contract c = Ok tt ->
  report_status (compare_contracts debug_fmt c c) = Compatible.
Proof.
  intros Hc%validate_contract_ok. apply compare_contracts_ok. by apply meets_refl.
Qed.

Definition example_contract : GeoContract :=
  {| gc_schema_version := GEO_CONTRACT_SCHEMA_VERSION; gc_id := "population";
     spatial := Some (spatial_known GK_Polygon jgd2011 AO_LongitudeLatitude);
     measure := Some (measure_simple MK_Count "persons" AB_Sum);
     temporal := None;
     coverage := Some {| scope := "Nagoya"; expected_feature_count := Some 16;
       join_keys := ["ward_code"; "year"]; key_uniqueness := KU_Unique; null_policy := NP_Reject |};
     gc_source := None;
     quality := {| uncertainty := None;
       tolerances := [ {| metric := "mape"; max_error_ppm := 500 |} ] |} |}.

Lemma validated_self_compatible_witness :
  let _ : F64Display := fun _ => "" in
  validate_contract example_contract = Ok tt /\ report_status (compare_contracts (fun _ _ => "") example_contract example_contract) = Compatible.
Proof.
  split; [by vm_compute|]. apply (@validated_self_compatible (fun _ => "")). by vm_compute.
Defined.
