(* ===== verification/ContractTable.v ===== *)
(** * The documented compatibility table (crates/genegis-contract/COMPATIBILITY.md)

    The table states the verdict on one semantic from what is required and what is
    provided; the overall verdict is the worst. It is written down here over every
    semantic a contract can declare, and the comparison of GeoContract.v is proved
    to compute it on validated contracts, but for three rows it does not have. *)

From S2P Require Import Prelude RustStd Crs GeoContract.
Local Open Scope N_scope.

(** ** The table *)

Definition join_status (a b : CompatibilityStatus) : CompatibilityStatus :=
  match a, b with
  | Incompatible, _ | _, Incompatible => Incompatible
  | Indeterminate, _ | _, Indeterminate => Indeterminate
  | Compatible, Compatible => Compatible
  end.
Definition worst (l : list CompatibilityStatus) : CompatibilityStatus := foldr join_status Compatible l.

(** One semantic: absent requirements are wildcards; absent and unknown values
    never match. *)
Definition row {A} `{PartialEq A} (known : A -> bool) (provided required : option A) : CompatibilityStatus :=
  match required with
  | None => Compatible
  | Some r =>
      match provided with
      | Some p => if known r && known p then if peq p r then Compatible else Incompatible else Indeterminate
      | None => Indeterminate
      end
  end.

Definition always {A} (_ : A) : bool := true.
Definition known_text (s : string) : bool := negb (is_blank s || eq_ignore_ascii_case (trim s) "unknown").
Definition not_value {A} `{EqDecision A} (unknown a : A) : bool := negb (bool_decide (a = unknown)).
Definition known_crs (c : Crs) : bool := bool_decide (is_Some (definition c)).
Definition known_term (t : MeasureTerm) : bool := not_value MK_Unknown (term_kind t) && known_text (term_unit t).
Definition non_empty {A} (l : list A) : option (list A) := match l with [] => None | _ => Some l end.

#[export] Instance peq_uncertainty : PartialEq Uncertainty := fun a b =>
  bool_decide (method a = method b)
  && (match absolute a, absolute b with Some x, Some y => f64_eqb x y | None, None => true | _, _ => false end)
  && bool_decide (relative_ppm a = relative_ppm b).

(** The semantics of a domain that is required, in the order of its record *)
Definition rows_of {A} (p r : option A) (rows : option A -> A -> list CompatibilityStatus) : list CompatibilityStatus :=
  match r with Some r => rows p r | None => [] end.

Definition spatial_rows (p : option SpatialContract) (r : SpatialContract) : list CompatibilityStatus :=
  [row (not_value GK_Unknown) (geometry_kind <$> p) (Some (geometry_kind r));
   row known_crs (p ≫= sc_crs) (sc_crs r);
   row (not_value AO_Unknown) (axis_order <$> p) (Some (axis_order r));
   row (not_value Unit_Unknown) (sc_coordinate_unit <$> p) (Some (sc_coordinate_unit r));
   row always (p ≫= extent) (extent r);
   row always (p ≫= resolution) (resolution r)].
Definition measure_rows (p : option MeasureContract) (r : MeasureContract) : list CompatibilityStatus :=
  [row (not_value MK_Unknown) (measure_kind <$> p) (Some (measure_kind r));
   row known_text (measure_unit <$> p) (Some (measure_unit r));
   row known_term (p ≫= numerator) (numerator r);
   row known_term (p ≫= denominator) (denominator r);
   row (not_value AB_Unknown) (aggregation <$> p) (Some (aggregation r));
   row known_text (p ≫= population_universe) (population_universe r)].
Definition temporal_rows (p : option TemporalContract) (r : TemporalContract) : list CompatibilityStatus :=
  [row known_text (reference_period <$> p) (Some (reference_period r));
   row (not_value TG_Unknown) (granularity <$> p) (Some (granularity r));
   row known_text (p ≫= observed_at) (observed_at r)].
Definition coverage_rows (p : option CoverageContract) (r : CoverageContract) : list CompatibilityStatus :=
  [row known_text (scope <$> p) (Some (scope r));
   row always (p ≫= expected_feature_count) (expected_feature_count r);
   row (forallb known_text) (p ≫= fun p => non_empty (join_keys p)) (non_empty (join_keys r));
   row (not_value KU_Unknown) (key_uniqueness <$> p) (Some (key_uniqueness r));
   row (not_value NP_Unknown) (null_policy <$> p) (Some (null_policy r))].
Definition source_rows (p : option SourceContract) (r : SourceContract) : list CompatibilityStatus :=
  [row known_text ((fun p => uri (snapshot p)) <$> p) (Some (uri (snapshot r)));
   row always (p ≫= fun p => source_version (snapshot p)) (source_version (snapshot r));
   row always (p ≫= fun p => expected_checksum (snapshot p)) (expected_checksum (snapshot r));
   row known_text (p ≫= source_authority) (source_authority r);
   row always (p ≫= max_age_days) (max_age_days r)].
(** A tolerance: as strict on the metric, weaker, or no such metric *)
Definition tolerance_row (p : list QualityTolerance) (t : QualityTolerance) : CompatibilityStatus :=
  if existsb (fun c => bool_decide (metric c = metric t) && (max_error_ppm c <=? max_error_ppm t)) p then Compatible
  else if existsb (fun c => bool_decide (metric c = metric t)) p then Incompatible
  else Indeterminate.

Definition documented_status (p r : GeoContract) : CompatibilityStatus :=
  worst (row always (Some (gc_schema_version p)) (Some (gc_schema_version r))
    :: rows_of (spatial p) (spatial r) spatial_rows ++ rows_of (measure p) (measure r) measure_rows
    ++ rows_of (temporal p) (temporal r) temporal_rows ++ rows_of (coverage p) (coverage r) coverage_rows
    ++ rows_of (gc_source p) (gc_source r) source_rows
    ++ row always (uncertainty (quality p)) (uncertainty (quality r))
    :: map (tolerance_row (tolerances (quality p))) (tolerances (quality r))).

(** ** What the comparison leaves out

    No row for the age and the uncertainty a requirement asks for; missing join
    keys are compared as an empty list, not as an absent semantic. *)
Record within_comparison (p r : GeoContract) : Prop := {
  wc_age : gc_source r ≫= max_age_days = None;
  wc_uncertainty : uncertainty (quality r) = None;
  wc_keys : forall c k, coverage p = Some c -> coverage r = Some k -> join_keys k <> [] -> join_keys c <> [] }.

(** ** The comparison computes the table *)

Definition statuses (l : list CompatibilityFinding) : list CompatibilityStatus := map finding_status l.

Lemma join_status_assoc a b c : join_status a (join_status b c) = join_status (join_status a b) c.
Proof. by destruct a, b, c. Qed.
Lemma worst_app l k : worst (l ++ k) = join_status (worst l) (worst k).
Proof.
  induction l as [|a l IH]; [change (worst k = join_status Compatible (worst k)); by destruct (worst k)|].
  change (join_status a (worst (l ++ k)) = join_status (join_status a (worst l)) (worst k)). by rewrite IH, join_status_assoc.
Qed.
Lemma worst_cons a l : worst (a :: l) = join_status a (worst l).
Proof. reflexivity. Qed.
Lemma worst_nil : worst [] = Compatible.
Proof. reflexivity. Qed.
Lemma join_incompatible_l a : join_status Incompatible a = Incompatible.
Proof. by destruct a. Qed.
Lemma join_incompatible_r a : join_status a Incompatible = Incompatible.
Proof. by destruct a. Qed.
Lemma join_compatible_l a : join_status Compatible a = a.
Proof. by destruct a. Qed.
Lemma join_compatible_r a : join_status a Compatible = a.
Proof. by destruct a. Qed.

Lemma status_of_worst l : status_of l = worst (statuses l).
Proof.
  unfold status_of. induction l as [|f l IH]; [done|]. cbn [existsb statuses map]. rewrite worst_cons.
  change (map finding_status l) with (statuses l). rewrite <-IH.
  destruct (finding_status f); cbn; repeat destruct (existsb _ l); done.
Qed.

Lemma known_text_informative s : known_text s = true <-> informative s.
Proof. unfold known_text, informative. by rewrite negb_true_iff, orb_false_iff. Qed.
Lemma not_value_true {A} `{EqDecision A} (u a : A) : not_value u a = true <-> a <> u.
Proof. unfold not_value. by rewrite negb_true_iff, bool_decide_eq_false. Qed.
Lemma known_term_wf (t : MeasureTerm) : term_wf (Some t) -> known_term t = true.
Proof. intros [Hk Hu]. unfold known_term. by rewrite andb_true_iff, not_value_true, known_text_informative. Qed.
Lemma known_texts l : Forall informative l -> forallb known_text l = true.
Proof. rewrite List.Forall_forall. intros Hl. apply forallb_forall. intros s Hs. by apply known_text_informative, Hl. Qed.

Section Rows.
Context (debug_fmt : forall A : Type, A -> string).

Lemma value_row {A} `{PartialEq A} (known : A -> bool) field (p r : A) : known p = true -> known r = true ->
  worst (map finding_status (compare_value debug_fmt field (Some p) (Some r))) = row known (Some p) (Some r).
Proof. intros Hp Hr. unfold row. rewrite Hp, Hr. cbn. by destruct (peq p r). Qed.
Lemma optional_row {A} `{PartialEq A} (known : A -> bool) field (p r : option A) :
  on_some p (fun x => known x = true) -> on_some r (fun x => known x = true) ->
  worst (map finding_status (compare_optional debug_fmt field p r)) = row known p r.
Proof.
  intros Hp Hr. destruct r as [r|]; [|done]. destruct p as [p|]; [|done]. cbn [compare_optional]. by apply value_row.
Qed.

Lemma on_some_impl {A} (P Q : A -> Prop) (o : option A) : (forall a, P a -> Q a) -> on_some o P -> on_some o Q.
Proof. destruct o; simpl; auto. Qed.
Lemma texts_known (o : option string) : on_some o informative -> on_some o (fun x => known_text x = true).
Proof. apply on_some_impl. intros s. apply known_text_informative. Qed.
Lemma term_known (o : option MeasureTerm) : term_wf o -> on_some o (fun x => known_term x = true).
Proof. destruct o; [apply known_term_wf | done]. Qed.
Lemma always_known {A} (o : option A) : on_some o (fun x => always x = true).
Proof. by destruct o. Qed.

(** A required domain that is not provided: its first row is missing, so the worst is. *)
Lemma worst_missing (l : list CompatibilityStatus) : Forall (fun s => s <> Incompatible) l -> worst (Indeterminate :: l) = Indeterminate.
Proof.
  intros Hl. rewrite worst_cons. assert (Hw : worst l <> Incompatible); [|by destruct (worst l)].
  induction Hl as [|s l Hs Hl IH]; [done|]. rewrite worst_cons. by destruct s, (worst l).
Qed.
Lemma absent_row {A} `{PartialEq A} (known : A -> bool) (r : option A) : row known None r <> Incompatible.
Proof. destruct r; discriminate. Qed.
Ltac absent_domain := cbn [rows_of]; symmetry; apply worst_missing; repeat constructor; apply absent_row.

(** A provided one: the findings and the rows one by one *)
Ltac domain_rows :=
  cbn [compare_spatial compare_measure compare_temporal compare_coverage compare_source rows_of];
  unfold statuses; rewrite ?map_app, ?worst_app;
  unfold spatial_rows, measure_rows, temporal_rows, coverage_rows, source_rows; rewrite ?worst_cons, ?worst_nil;
  cbn [fmap option_fmap option_map mbind option_bind]; rewrite ?join_compatible_r.

(** The known values of a validated contract *)
Lemma value_known {A} `{EqDecision A} (u a : A) : a <> u -> not_value u a = true.
Proof. apply not_value_true. Qed.
Lemma text_known s : informative s -> known_text s = true.
Proof. apply known_text_informative. Qed.
Hint Resolve value_known text_known : known.
Hint Resolve texts_known term_known always_known : known.
Ltac by_value k := rewrite (value_row k) by (reflexivity || eauto with known).
Ltac by_option k := rewrite (optional_row k) by eauto with known.

Lemma spatial_table p r : on_some p spatial_wf -> on_some r spatial_wf ->
  worst (statuses (compare_spatial debug_fmt p r)) = worst (rows_of p r spatial_rows).
Proof.
  intros Hp Hr. destruct r as [r|]; [|done]. destruct p as [p|]; [|absent_domain].
  destruct Hp as (Hg & Ha & Hu & (c & d & Hc & Hd & _) & _), Hr as (Hg' & Ha' & Hu' & (c' & d' & Hc' & Hd' & _) & _).
  domain_rows. by_value (not_value GK_Unknown). by_value (not_value AO_Unknown). by_value (not_value Unit_Unknown).
  by_option (@always SpatialExtent). by_option (@always SpatialResolution).
  rewrite (optional_row known_crs); [done | rewrite Hc | rewrite Hc']; apply bool_decide_eq_true; by eexists.
Qed.

Lemma measure_table p r : on_some p measure_wf -> on_some r measure_wf ->
  worst (statuses (compare_measure debug_fmt p r)) = worst (rows_of p r measure_rows).
Proof.
  intros Hp Hr. destruct r as [r|]; [|done]. destruct p as [p|]; [|absent_domain].
  destruct Hp as (Hk & Hu & Ha & _ & Hn & Hd & Hp), Hr as (Hk' & Hu' & Ha' & _ & Hn' & Hd' & Hp').
  domain_rows. by_value (not_value MK_Unknown). by_value known_text. by_value (not_value AB_Unknown).
  rewrite !(optional_row known_term) by eauto with known. rewrite (optional_row known_text) by eauto with known.
  generalize (row known_term (numerator p) (numerator r)) (row known_term (denominator p) (denominator r)).
  generalize (row (not_value AB_Unknown) (Some (aggregation p)) (Some (aggregation r))). intros a n d.
  by destruct (row _ _ _), (row _ _ _), (row _ _ _), a, n, d.
Qed.

Lemma temporal_table p r : on_some p temporal_wf -> on_some r temporal_wf ->
  worst (statuses (compare_temporal debug_fmt p r)) = worst (rows_of p r temporal_rows).
Proof.
  intros Hp Hr. destruct r as [r|]; [|done]. destruct p as [p|]; [|absent_domain].
  destruct Hp as (Hr1 & Hg & Ho), Hr as (Hr1' & Hg' & Ho').
  domain_rows. by_value (not_value TG_Unknown). by_value known_text. by_option known_text. done.
Qed.

Lemma coverage_table p r : on_some p coverage_wf -> on_some r coverage_wf ->
  (forall c k, p = Some c -> r = Some k -> join_keys k <> [] -> join_keys c <> []) ->
  worst (statuses (compare_coverage debug_fmt p r)) = worst (rows_of p r coverage_rows).
Proof.
  intros Hp Hr Hj. destruct r as [r|]; [|done]. destruct p as [p|]; [|absent_domain]. specialize (Hj p r eq_refl eq_refl).
  destruct Hp as (Hs & Hu & Hn & _ & Hk & _), Hr as (Hs' & Hu' & Hn' & _ & Hk' & _).
  domain_rows. by_value known_text. by_value (not_value KU_Unknown). by_value (not_value NP_Unknown). by_option (@always N).
  assert (Hkeys : worst (map finding_status (if bool_decide (join_keys r = []) then [] else
      compare_value debug_fmt "coverage.join_keys" (Some (join_keys p)) (Some (join_keys r))))
    = row (forallb known_text) (non_empty (join_keys p)) (non_empty (join_keys r))).
  { case_bool_decide as Hr; [by rewrite Hr|].
    rewrite (value_row (forallb known_text)) by (by apply known_texts).
    specialize (Hj Hr). by destruct (join_keys p), (join_keys r). }
  by rewrite Hkeys.
Qed.

Lemma source_table p r : on_some p source_wf -> on_some r source_wf -> r ≫= max_age_days = None ->
  worst (statuses (compare_source debug_fmt p r)) = worst (rows_of p r source_rows).
Proof.
  intros Hp Hr Hage. destruct r as [r|]; [|done]. destruct p as [p|]; [|absent_domain]. cbn in Hage.
  destruct Hp as (Hu & Ha & _), Hr as (Hu' & Ha' & _).
  domain_rows. by_value known_text. rewrite (optional_row known_text _ (source_authority p)) by eauto with known.
  rewrite (optional_row always _ (source_version _)), (optional_row always _ (expected_checksum _)) by eauto with known.
  rewrite Hage. cbn [row]. by rewrite join_compatible_r.
Qed.

Lemma tolerance_table p t : NoDup (map metric p) -> finding_status (compare_tolerance p t) = tolerance_row p t.
Proof.
  unfold compare_tolerance, tolerance_row. induction p as [|c p IH]; [done|]. cbn [map List.find existsb].
  intros [Hc Hp]%NoDup_cons. destruct (bool_decide_reflect (metric c = metric t)) as [Heq|Hne]; cbn [andb orb]; [|by apply IH].
  assert (Hno : forall g, existsb (fun c => bool_decide (metric c = metric t) && g c) p = false).
  { intros g. apply not_true_iff_false. intros (x & Hx & [Hm%bool_decide_eq_true _]%andb_true_iff)%existsb_exists.
    apply Hc. rewrite Heq, <-Hm. apply list_elem_of_In. by apply in_map. }
  rewrite Hno. by destruct (max_error_ppm c <=? max_error_ppm t).
Qed.

Lemma comparison_table p r : contract_wf p -> contract_wf r -> within_comparison p r ->
  report_status (compare_contracts debug_fmt p r) = documented_status p r.
Proof.
  intros (_ & _ & Hs & Hm & Ht & Hc & Hsrc & _ & _ & Hq) (_ & _ & Hs' & Hm' & Ht' & Hc' & Hsrc' & _) [Ha Hu Hk].
  unfold compare_contracts, documented_status. cbn [report_status]. rewrite status_of_worst. unfold statuses at 1.
  rewrite !map_app, !worst_app, worst_cons. rewrite !worst_app, worst_cons, Hu.
  pose proof (spatial_table _ _ Hs Hs') as E1. pose proof (measure_table _ _ Hm Hm') as E2.
  pose proof (temporal_table _ _ Ht Ht') as E3. pose proof (coverage_table _ _ Hc Hc' Hk) as E4.
  pose proof (source_table _ _ Hsrc Hsrc' Ha) as E5. unfold statuses in *. rewrite E1, E2, E3, E4, E5.
  rewrite (value_row always) by done. cbn [row]. rewrite join_compatible_l, List.map_map.
  erewrite List.map_ext; [reflexivity|]. intros t. by apply tolerance_table.
Qed.
End Rows.

(** ** Properties *)

(** The requirement without what the comparison has no row for *)
Definition compared (r : GeoContract) : GeoContract :=
  mkGeoContract (gc_schema_version r) (gc_id r) (spatial r) (measure r) (temporal r) (coverage r)
    ((fun s => mkSourceContract (snapshot s) (source_authority s) None) <$> gc_source r)
    (mkQualityContract None (tolerances (quality r))).
(** Join keys are required of a provided coverage that has none. *)
Definition keys_missing (p r : GeoContract) : Prop :=
  exists c k, coverage p = Some c /\ coverage r = Some k /\ join_keys c = [] /\ join_keys k <> [].

Lemma compare_compared debug_fmt p r : compare_contracts debug_fmt p r = compare_contracts debug_fmt p (compared r).
Proof. destruct r as [v i s m t c [src|] q]; reflexivity. Qed.
Lemma compared_wf r : contract_wf r -> contract_wf (compared r).
Proof.
  intros (Hv & Hi & Hs & Hm & Ht & Hc & Hsrc & _ & Hq). unfold contract_wf. cbn [compared gc_schema_version gc_id spatial measure
    temporal coverage gc_source quality]. split_and!; try done.
  destruct (gc_source r) as [src|]; [|exact I]. destruct Hsrc as (Hu & Ha & _). split_and!; [exact Hu | exact Ha | discriminate].
Qed.
Lemma keys_missing_incompatible debug_fmt p r : keys_missing p r -> report_status (compare_contracts debug_fmt p r) = Incompatible.
Proof.
  intros (c & k & Hp & Hr & Hc & Hk). unfold compare_contracts. cbn [report_status]. rewrite Hp, Hr, status_of_worst.
  assert (Hkeys : worst (map finding_status (compare_value debug_fmt "coverage.join_keys" (Some (join_keys c)) (Some (join_keys k))))
    = Incompatible) by (rewrite Hc; by destruct (join_keys k)).
  assert (Hin : worst (statuses (compare_coverage debug_fmt (Some c) (Some k))) = Incompatible).
  { cbn [compare_coverage]. rewrite bool_decide_false by exact Hk. unfold statuses. rewrite !map_app, !worst_app, Hkeys.
    by rewrite join_incompatible_l, !join_incompatible_r. }
  unfold statuses in *. rewrite !map_app, !worst_app, Hin. by rewrite join_incompatible_l, !join_incompatible_r.
Qed.


Module Examples.
#[local] Instance table_display : F64Display := fun _ => "".
Definition source_of (age : option N) : SourceContract := mkSourceContract (source_new "file:///wards") None age.
Definition asking : GeoContract := with_source (source_of None) example_contract.

(** A requirement of one day's age is met by a source that states none. *)
Example age_is_not_compared :
  let fresh := with_source (source_of (Some 1)) example_contract in
  is_ok (validate_contract fresh) = true
  /\ report_status (compare_contracts (fun _ _ => "") asking fresh) = Compatible /\ documented_status asking fresh = Indeterminate.
Proof. vm_compute. auto. Qed.
(** A requirement of stated uncertainty is met by none. *)
Example uncertainty_is_not_compared :
  let precise := with_quality (mkQualityContract (Some (mkUncertainty "survey" None (Some 10))) []) example_contract in
  is_ok (validate_contract precise) = true
  /\ report_status (compare_contracts (fun _ _ => "") example_contract precise) = Compatible
  /\ documented_status example_contract precise = Indeterminate.
Proof. vm_compute. auto. Qed.
(** Without validation, unknown matches unknown. *)
Example unknown_matches_unknown :
  let unknown := with_measure (measure_simple MK_Unknown "unknown" AB_Unknown) example_contract in
  report_status (compare_contracts (fun _ _ => "") unknown unknown) = Compatible /\ documented_status unknown unknown = Indeterminate.
Proof. vm_compute. auto. Qed.
End Examples.
