(* ===== verification/Assurance.v ===== *)
(** * Source assurance (crates/genegis-contract/src/source_assurance.rs)

    Evidence dossiers about one source snapshot, and the policy evaluation that
    grades them. Serialising and hashing a dossier is the code of serde_json
    and sha2; it is the parameter [AssuranceDigest]. *)

From S2P Require Import Prelude RustStd.
Local Open Scope N_scope.

Definition SOURCE_ASSURANCE_SCHEMA_VERSION : string := "0.1.0".

(** ** Data *)

Inductive AuthorityClass :=
| PrimaryOfficial | DelegatedOfficial | PeerReviewed | CommunityMaintained | Commercial
| AC_Unknown.
Inductive AssuranceCheckKind :=
| Schema | Completeness | SpatialCoverage | TemporalConsistency | AnomalyDetection
| CrossSourceAgreement.
Inductive CorroborationIndependence :=
| SamePublication | SameOrganization | IndependentPublisher | IndependentMeasurement.
Inductive DisputeStatus := Open | Acknowledged | Resolved.

#[export] Instance AuthorityClass_eq_dec : EqDecision AuthorityClass.
Proof. solve_decision. Defined.
#[export] Instance AssuranceCheckKind_eq_dec : EqDecision AssuranceCheckKind.
Proof. solve_decision. Defined.
#[export] Instance CorroborationIndependence_eq_dec : EqDecision CorroborationIndependence.
Proof. solve_decision. Defined.
#[export] Instance DisputeStatus_eq_dec : EqDecision DisputeStatus.
Proof. solve_decision. Defined.

(** The derived [Ord] compares positions in the declaration. *)
Definition authority_rank (a : AuthorityClass) : N :=
  match a with
  | PrimaryOfficial => 0 | DelegatedOfficial => 1 | PeerReviewed => 2
  | CommunityMaintained => 3 | Commercial => 4 | AC_Unknown => 5
  end.
Definition authority_unrank (n : N) : AuthorityClass :=
  match n with
  | 0 => PrimaryOfficial | 1 => DelegatedOfficial | 2 => PeerReviewed
  | 3 => CommunityMaintained | 4 => Commercial | _ => AC_Unknown
  end.
Definition check_kind_rank (k : AssuranceCheckKind) : N :=
  match k with
  | Schema => 0 | Completeness => 1 | SpatialCoverage => 2
  | TemporalConsistency => 3 | AnomalyDetection => 4 | CrossSourceAgreement => 5
  end.
Definition check_kind_unrank (n : N) : AssuranceCheckKind :=
  match n with
  | 0 => Schema | 1 => Completeness | 2 => SpatialCoverage
  | 3 => TemporalConsistency | 4 => AnomalyDetection | _ => CrossSourceAgreement
  end.

#[export] Program Instance AuthorityClass_countable : Countable AuthorityClass :=
  inj_countable' authority_rank authority_unrank _.
Next Obligation. by intros []. Qed.
#[export] Program Instance AssuranceCheckKind_countable : Countable AssuranceCheckKind :=
  inj_countable' check_kind_rank check_kind_unrank _.
Next Obligation. by intros []. Qed.

Definition check_kind_le (a b : AssuranceCheckKind) : Prop := check_kind_rank a <= check_kind_rank b.
#[export] Instance check_kind_le_dec : RelDecision check_kind_le.
Proof. intros a b. unfold check_kind_le. apply _. Defined.

(** The derived [Debug] name of a variant *)
Definition check_kind_debug (k : AssuranceCheckKind) : string :=
  match k with
  | Schema => "Schema" | Completeness => "Completeness"
  | SpatialCoverage => "SpatialCoverage" | TemporalConsistency => "TemporalConsistency"
  | AnomalyDetection => "AnomalyDetection" | CrossSourceAgreement => "CrossSourceAgreement"
  end.

Record AssuranceCheck := mkAssuranceCheck {
  ac_check_id : string;
  ac_kind : AssuranceCheckKind;
  ac_passed : bool;
  ac_evidence_digest : string;
  verifier_identity : string }.

(** [CorroborationIndependence::is_independent] *)
Definition is_independent (i : CorroborationIndependence) : bool :=
  match i with IndependentPublisher | IndependentMeasurement => true | _ => false end.

Record CorroborationEvidence := mkCorroborationEvidence {
  co_source_id : string;
  co_snapshot_digest : string;
  co_independence : CorroborationIndependence;
  agrees : bool;
  co_evidence_digest : string }.

Record DisputeRecord := mkDisputeRecord {
  dispute_id : string;
  dispute_status : DisputeStatus;
  dispute_summary : string;
  dispute_evidence_digest : option string }.

Record SourceUncertainty := mkSourceUncertainty {
  su_method : string;
  su_relative_ppm : option N;
  su_scope : string }.

Record SourceAssurance := mkSourceAssurance {
  sa_schema_version : string;
  sa_source_id : string;
  sa_snapshot_digest : string;
  publisher : string;
  authority_class : AuthorityClass;
  published_at : option string;
  assessed_at : string;
  observed_age_days : option N;
  sa_checks : list AssuranceCheck;
  corroborations : list CorroborationEvidence;
  sa_uncertainty : option SourceUncertainty;
  disputes : list DisputeRecord;
  limitations : list string }.

(** [SourceAssurance::new] *)
Definition assurance_new (source_id snapshot_digest publisher : string) (c : AuthorityClass)
    : SourceAssurance :=
  {| sa_schema_version := SOURCE_ASSURANCE_SCHEMA_VERSION; sa_source_id := source_id;
     sa_snapshot_digest := snapshot_digest; publisher := publisher; authority_class := c;
     published_at := None; assessed_at := ""; observed_age_days := None; sa_checks := [];
     corroborations := []; sa_uncertainty := None; disputes := []; limitations := [] |}.

(** [SourceAssurance::digest]; [None] stands for its serialisation error. *)
Class AssuranceDigest := assurance_digest_of : SourceAssurance -> option string.

Record AssurancePolicy := mkAssurancePolicy {
  accepted_authority_classes : gset AuthorityClass;
  ap_max_age_days : option N;
  ap_required_checks : gset AssuranceCheckKind;
  minimum_independent_corroborations : N;
  require_uncertainty : bool;
  require_limitations : bool;
  allow_unresolved_disputes : bool }.

Inductive AssuranceLevel := Unassessed | Identified | Checked | Corroborated.
#[export] Instance AssuranceLevel_eq_dec : EqDecision AssuranceLevel.
Proof. solve_decision. Defined.

Record AssuranceFailure := mkAssuranceFailure { af_code : string; af_subject : string; af_detail : string }.

Record AssuranceReport := mkAssuranceReport {
  ar_level : AssuranceLevel;
  ar_passed : bool;
  ar_assurance_digest : option string;
  ar_failures : list AssuranceFailure;
  scope_statement : string }.

(** ** Evaluation *)

Definition valid_digest (value : string) : bool := sha256_identity value.

Definition report (level : AssuranceLevel) (passed : bool) (digest : option string)
    (failures : list AssuranceFailure) : AssuranceReport :=
  {| ar_level := level; ar_passed := passed; ar_assurance_digest := digest;
     ar_failures := failures;
     scope_statement := "This assessment verifies declared evidence against a use-case policy; it does not prove universal truth." |}.

(** [if b { push(f) }], and the loop over entries whose identifier has to be
    new and not blank: [||] leaves a blank identifier out of the seen set. *)
Definition fail_if {F} (b : bool) (f : F) : list F := if b then [f] else [].

Fixpoint scan_distinct {A F} (key : A -> string) (body : bool -> A -> list F)
    (seen : gset string) (l : list A) : list F :=
  match l with
  | [] => []
  | a :: l =>
      let blank := is_blank (key a) in
      body (blank || bool_decide (key a ∈ seen)) a
      ++ scan_distinct key body (if blank then seen else {[key a]} ∪ seen) l
  end.

Definition identity_failures (a : SourceAssurance) : list AssuranceFailure :=
  fail_if (negb (bool_decide (sa_schema_version a = SOURCE_ASSURANCE_SCHEMA_VERSION)))
    (mkAssuranceFailure "unsupported_assurance_schema" (sa_schema_version a)
       "source assurance schema version is not supported")
  ++ flat_map (fun '(code, subject, value) =>
       let valid := if bool_decide (code = "invalid_snapshot_digest")
                    then valid_digest value else negb (is_blank value) in
       fail_if (negb valid) (mkAssuranceFailure code subject
         "required source identity evidence is missing or malformed"))
     [("missing_source_id", "source", sa_source_id a);
      ("invalid_snapshot_digest", sa_source_id a, sa_snapshot_digest a);
      ("missing_publisher", sa_source_id a, publisher a);
      ("missing_assessed_at", sa_source_id a, assessed_at a)]
  ++ fail_if (from_option is_blank false (published_at a))
       (mkAssuranceFailure "invalid_published_at" (sa_source_id a)
          "published_at is present but empty").

Definition freshness_failures (maximum : option N) (a : SourceAssurance) : list AssuranceFailure :=
  match maximum, published_at a, observed_age_days a with
  | None, _, _ => []
  | Some maximum, Some _, Some age =>
      fail_if (maximum <? age) (mkAssuranceFailure "source_stale" (sa_source_id a)
        ("observed age " +:+ show_N age +:+ " days exceeds policy maximum "
         +:+ show_N maximum +:+ " days"))
  | Some _, _, _ => [mkAssuranceFailure "source_freshness_unknown" (sa_source_id a)
      "policy requires freshness but publication date or observed age is unknown"]
  end.

Definition required_check_failures (a : SourceAssurance) (required : AssuranceCheckKind)
    : list AssuranceFailure :=
  match List.find (fun check => bool_decide (ac_kind check = required)) (sa_checks a) with
  | None => [mkAssuranceFailure "required_assurance_check_missing" (check_kind_debug required)
      "required source-assurance check is missing"]
  | Some check => fail_if (negb (ac_passed check))
      (mkAssuranceFailure "required_assurance_check_failed" (ac_check_id check)
         "required source-assurance check failed")
  end.

Definition uncertainty_failures (a : SourceAssurance) : list AssuranceFailure :=
  let documented := match sa_uncertainty a with
    | Some u => negb (is_blank (su_method u)) && negb (is_blank (su_scope u))
    | None => false end in
  fail_if (negb documented) (mkAssuranceFailure "uncertainty_not_documented"
    (sa_source_id a) "policy requires uncertainty method and scope").

Definition dispute_failures (a : SourceAssurance) : list AssuranceFailure :=
  map (fun dispute => mkAssuranceFailure "unresolved_source_dispute" (dispute_id dispute)
         "an unresolved source challenge prevents assurance policy from passing")
    (List.filter (fun d => negb (bool_decide (dispute_status d = Resolved))) (disputes a)).

Definition use_case_failures (policy : AssurancePolicy) (a : SourceAssurance)
    : list AssuranceFailure :=
  fail_if (negb (bool_decide (accepted_authority_classes policy = ∅))
           && negb (bool_decide (authority_class a ∈ accepted_authority_classes policy)))
    (mkAssuranceFailure "authority_not_accepted" (publisher a)
       "publisher authority class is not accepted for this use case")
  ++ freshness_failures (ap_max_age_days policy) a
  ++ scan_distinct ac_check_id (fun bad check =>
       fail_if bad (mkAssuranceFailure "invalid_assurance_check" (ac_check_id check)
         "check identifier is empty or duplicated")
       ++ fail_if (is_blank (verifier_identity check)
                   || negb (valid_digest (ac_evidence_digest check)))
            (mkAssuranceFailure "check_evidence_not_replayable" (ac_check_id check)
               "check lacks verifier identity or a valid evidence digest"))
     ∅ (sa_checks a)
  ++ flat_map (required_check_failures a) (btree_iter check_kind_le (ap_required_checks policy))
  ++ (if require_uncertainty policy then uncertainty_failures a else [])
  ++ fail_if (require_limitations policy
              && negb (existsb (fun limit => negb (is_blank limit)) (limitations a)))
       (mkAssuranceFailure "limitations_not_documented" (sa_source_id a)
          "policy requires an explicit limitation or non-claim")
  ++ (if negb (allow_unresolved_disputes policy) then dispute_failures a else []).

Definition counts_as_independent (a : SourceAssurance) (item : CorroborationEvidence) : bool :=
  is_independent (co_independence item) && agrees item
  && valid_digest (co_snapshot_digest item) && valid_digest (co_evidence_digest item)
  && negb (bool_decide (co_source_id item = sa_source_id a)).

(** [.count() as u32] *)
Definition independent_count (a : SourceAssurance) : N :=
  wrap 32 (N.of_nat (length (List.filter (counts_as_independent a) (corroborations a)))).

Definition assess `{AssuranceDigest} (policy : AssurancePolicy) (a : SourceAssurance)
    : AssuranceReport :=
  let digest := assurance_digest_of a in
  if negb (bool_decide (identity_failures a = [])) || bool_decide (digest = None)
  then report Unassessed false digest (identity_failures a)
  else if negb (bool_decide (use_case_failures policy a = []))
  then report Identified false digest (use_case_failures policy a)
  else let minimum := minimum_independent_corroborations policy in
  if independent_count a <? minimum then
    report Checked false digest
      [mkAssuranceFailure "insufficient_independent_corroboration" (sa_source_id a)
         (show_N (independent_count a) +:+ " independent agreeing sources; policy requires "
          +:+ show_N minimum)]
  else report (if 0 <? minimum then Corroborated else Checked) true digest [].

(** ** What the grades promise *)

(** A SHA-256 identity: the prefix and 64 hexadecimal digits *)
Definition digest_text (s : string) : Prop := exists hex, s = "sha256:" +:+ hex /\ String.length hex = 64%nat
  /\ Forall (fun c => is_ascii_hexdigit c = true) (String.list_ascii_of_string hex).

Definition replayable_check (c : AssuranceCheck) : Prop :=
  is_blank (ac_check_id c) = false /\ is_blank (verifier_identity c) = false
  /\ digest_text (ac_evidence_digest c).

Definition dossier_identified `{AssuranceDigest} (a : SourceAssurance) : Prop :=
  sa_schema_version a = SOURCE_ASSURANCE_SCHEMA_VERSION
  /\ is_blank (sa_source_id a) = false /\ digest_text (sa_snapshot_digest a)
  /\ is_blank (publisher a) = false /\ is_blank (assessed_at a) = false
  /\ (forall p, published_at a = Some p -> is_blank p = false)
  /\ is_Some (assurance_digest_of a).

Definition fresh (maximum : option N) (a : SourceAssurance) : Prop :=
  forall m, maximum = Some m ->
  is_Some (published_at a) /\ exists age, observed_age_days a = Some age /\ age <= m.

(** What the code asks: the first check of a required kind has to have passed. *)
Definition check_satisfied (a : SourceAssurance) (k : AssuranceCheckKind) : Prop :=
  exists c, List.find (fun c => bool_decide (ac_kind c = k)) (sa_checks a) = Some c
            /\ ac_passed c = true.

Definition use_case_met (p : AssurancePolicy) (a : SourceAssurance) : Prop :=
  (accepted_authority_classes p = ∅ \/ authority_class a ∈ accepted_authority_classes p)
  /\ fresh (ap_max_age_days p) a
  /\ (Forall replayable_check (sa_checks a) /\ NoDup (map ac_check_id (sa_checks a)))
  /\ (forall k, k ∈ ap_required_checks p -> check_satisfied a k)
  /\ (require_uncertainty p = true ->
      exists u, sa_uncertainty a = Some u
                /\ is_blank (su_method u) = false /\ is_blank (su_scope u) = false)
  /\ (require_limitations p = true -> Exists (fun l => is_blank l = false) (limitations a))
  /\ (allow_unresolved_disputes p = false ->
      Forall (fun d => dispute_status d = Resolved) (disputes a)).

Definition corroborated (p : AssurancePolicy) (a : SourceAssurance) : Prop :=
  minimum_independent_corroborations p <= independent_count a.

(** What the policy documents: some check of the kind has passed. The code is
    stricter where an earlier check of the kind failed. *)
Definition passing_observation (a : SourceAssurance) (k : AssuranceCheckKind) : Prop :=
  exists c, c ∈ sa_checks a /\ ac_kind c = k /\ ac_passed c = true.
Definition no_earlier_failure (a : SourceAssurance) (k : AssuranceCheckKind) : Prop :=
  forall before c after, sa_checks a = before ++ c :: after -> ac_kind c = k ->
    Forall (fun d => ac_kind d <> k) before -> ac_passed c = true.
Definition use_case_documented (p : AssurancePolicy) (a : SourceAssurance) : Prop :=
  (accepted_authority_classes p = ∅ \/ authority_class a ∈ accepted_authority_classes p)
  /\ fresh (ap_max_age_days p) a
  /\ (Forall replayable_check (sa_checks a) /\ NoDup (map ac_check_id (sa_checks a)))
  /\ (forall k, k ∈ ap_required_checks p -> passing_observation a k)
  /\ (require_uncertainty p = true ->
      exists u, sa_uncertainty a = Some u
                /\ is_blank (su_method u) = false /\ is_blank (su_scope u) = false)
  /\ (require_limitations p = true -> Exists (fun l => is_blank l = false) (limitations a))
  /\ (allow_unresolved_disputes p = false ->
      Forall (fun d => dispute_status d = Resolved) (disputes a)).

(** An agreeing comparison with data of another publisher or another measurement,
    with digests of the other snapshot and of the evidence *)
Definition independent_comparison (a : SourceAssurance) (c : CorroborationEvidence) : Prop :=
  (co_independence c = IndependentPublisher \/ co_independence c = IndependentMeasurement)
  /\ agrees c = true /\ co_source_id c <> sa_source_id a
  /\ digest_text (co_snapshot_digest c) /\ digest_text (co_evidence_digest c).
(** As many of them, entries of the dossier, as the policy asks for *)
Definition enough_comparisons (p : AssurancePolicy) (a : SourceAssurance) : Prop :=
  exists l, l `sublist_of` corroborations a /\ Forall (independent_comparison a) l
            /\ N.of_nat (length l) = minimum_independent_corroborations p.

(** ** Lemmas: a list of failures is empty iff every guard passed *)

Lemma string_forall_list f s : string_forall f s = true <-> Forall (fun c => f c = true) (String.list_ascii_of_string s).
Proof.
  induction s as [|c s IH]; cbn; [split; [constructor | done]|]. by rewrite andb_true_iff, Forall_cons, IH.
Qed.
Lemma valid_digest_text s : valid_digest s = true <-> digest_text s.
Proof.
  unfold valid_digest, sha256_identity, digest_text, str_len. destruct (strip_prefix "sha256:" s) as [hex|] eqn:Hs.
  - apply strip_prefix_some in Hs as ->. rewrite andb_true_iff, N.eqb_eq, string_forall_list. split.
    + intros [Hl Hh]. exists hex. split; [done|]. split; [lia | done].
    + intros (h & Heq%(inj (String.append _)) & Hl & Hh). subst h. split; [lia | done].
  - split; [done|]. intros (hex & -> & _). by rewrite strip_prefix_app in Hs.
Qed.

Lemma fail_if_nil {F} b (f : F) : fail_if b f = [] <-> b = false.
Proof. by destruct b. Qed.

Lemma app_nil_iff {A} (l k : list A) : l ++ k = [] <-> l = [] /\ k = [].
Proof. apply app_nil. Qed.

Lemma flat_map_nil {A F} (f : A -> list F) l : flat_map f l = [] <-> Forall (fun x => f x = []) l.
Proof.
  induction l as [|x l IH]; simpl; [split; [constructor | done]|].
  by rewrite app_nil_iff, Forall_cons, IH.
Qed.

Lemma map_filter_nil {A F} (f : A -> F) (p : A -> bool) l :
  map f (List.filter p l) = [] <-> Forall (fun x => p x = false) l.
Proof.
  induction l as [|x l IH]; simpl; [split; [constructor | done]|].
  rewrite Forall_cons, <-IH. destruct (p x); simpl; naive_solver.
Qed.

Lemma scan_distinct_nil {A F} (key : A -> string) (body : bool -> A -> list F) (P : A -> Prop)
    seen l :
  (forall b a, body b a = [] <-> b = false /\ P a) ->
  scan_distinct key body seen l = [] <->
  Forall (fun a => is_blank (key a) = false /\ P a) l /\ NoDup (map key l)
  /\ (forall x, x ∈ map key l -> x ∉ seen).
Proof.
  intros Hbody. revert seen. induction l as [|a l IH]; intros seen; simpl.
  - split; [|done]. intros _. split_and!; [constructor..|set_solver].
  - rewrite app_nil_iff, Hbody, IH, orb_false_iff, bool_decide_eq_false, Forall_cons, NoDup_cons.
    split.
    + intros (((Hb & Hs) & HP) & Hl & Hd & Hn). rewrite Hb in Hn.
      split_and!; try done; set_solver.
    + intros ([[Hb HP] Hl] & [Hk Hd] & Hn). rewrite Hb.
      split_and!; try done; set_solver.
Qed.

Lemma identity_failures_nil `{AssuranceDigest} a :
  identity_failures a = [] /\ assurance_digest_of a <> None <-> dossier_identified a.
Proof.
  unfold identity_failures, dossier_identified.
  rewrite !app_nil_iff, !fail_if_nil, negb_false_iff, bool_decide_eq_true, flat_map_nil.
  rewrite !Forall_cons, Forall_nil. cbv beta iota. rewrite !fail_if_nil, !negb_false_iff.
  rewrite <-not_eq_None_Some.
  assert (Hp : from_option is_blank false (published_at a) = false <->
    forall p, published_at a = Some p -> is_blank p = false).
  { destruct (published_at a); simpl; naive_solver. }
  assert (Hn : forall b, negb b = true <-> b = false) by apply negb_true_iff.
  rewrite Hp. simpl. rewrite !Hn, <-valid_digest_text. tauto.
Qed.

Lemma freshness_failures_nil m a : freshness_failures m a = [] <-> fresh m a.
Proof.
  unfold freshness_failures, fresh. destruct m as [m|]; [|done].
  destruct (published_at a) as [p|]; [destruct (observed_age_days a) as [age|]|].
  - rewrite fail_if_nil, N.ltb_ge. split.
    + intros Hle ? [= <-]. eauto.
    + intros Hf. destruct (Hf m eq_refl) as (_ & ? & [= <-] & ?). done.
  - split; [done|]. intros Hf. destruct (Hf m eq_refl) as (_ & ? & ? & _). done.
  - split; [done|]. intros Hf. destruct (Hf m eq_refl) as ([? ?] & _). done.
Qed.

Lemma required_check_failures_nil a k : required_check_failures a k = [] <-> check_satisfied a k.
Proof.
  unfold required_check_failures, check_satisfied.
  destruct (List.find _ _) as [c|].
  - rewrite fail_if_nil, negb_false_iff. naive_solver.
  - naive_solver.
Qed.

Lemma uncertainty_failures_nil a :
  uncertainty_failures a = [] <-> exists u, sa_uncertainty a = Some u
    /\ is_blank (su_method u) = false /\ is_blank (su_scope u) = false.
Proof.
  unfold uncertainty_failures. cbv zeta. rewrite fail_if_nil, negb_false_iff.
  destruct (sa_uncertainty a) as [u|]; [rewrite andb_true_iff, !negb_true_iff|]; naive_solver.
Qed.

Lemma dispute_failures_nil a :
  dispute_failures a = [] <-> Forall (fun d => dispute_status d = Resolved) (disputes a).
Proof.
  unfold dispute_failures. rewrite map_filter_nil. apply Forall_iff. intros d.
  by rewrite negb_false_iff, bool_decide_eq_true.
Qed.

Lemma limitations_nil (b : bool) l :
  b && negb (existsb (fun limit => negb (is_blank limit)) l) = false <->
  (b = true -> Exists (fun l => is_blank l = false) l).
Proof.
  destruct b; simpl; [|done]. rewrite negb_false_iff, existsb_exists, List.Exists_exists.
  setoid_rewrite negb_true_iff. naive_solver.
Qed.

(** [if b { ... }] around a group of checks *)
Lemma guarded_nil {F} (b : bool) (l : list F) (P : Prop) :
  (l = [] <-> P) -> (if b then l else []) = [] <-> (b = true -> P).
Proof. destruct b; naive_solver. Qed.

Lemma use_case_failures_nil p a : use_case_failures p a = [] <-> use_case_met p a.
Proof.
  unfold use_case_failures, use_case_met.
  rewrite !app_nil_iff, !fail_if_nil, limitations_nil, flat_map_nil, freshness_failures_nil.
  rewrite andb_false_iff, !negb_false_iff, !bool_decide_eq_true.
  rewrite (guarded_nil _ _ _ (uncertainty_failures_nil a)).
  rewrite (guarded_nil _ _ _ (dispute_failures_nil a)), negb_true_iff.
  rewrite (scan_distinct_nil _ _ (fun c => is_blank (verifier_identity c) = false
    /\ digest_text (ac_evidence_digest c))).
  2: { intros b c. by rewrite app_nil_iff, !fail_if_nil, orb_false_iff, negb_false_iff, valid_digest_text. }
  rewrite (Forall_forall _ (btree_iter _ _)). setoid_rewrite elem_of_btree_iter.
  setoid_rewrite required_check_failures_nil.
  assert (Hs : forall x : string, x ∈ map ac_check_id (sa_checks a) -> x ∉ (∅ : gset string)).
  { set_solver. }
  unfold replayable_check. tauto.
Qed.

(** ** The level the cascade of early returns reaches *)

Lemma assess_cases `{AssuranceDigest} p a :
  (ar_level (assess p a) = Unassessed /\ ar_passed (assess p a) = false
     /\ ~ dossier_identified a)
  \/ (ar_level (assess p a) = Identified /\ ar_passed (assess p a) = false
      /\ dossier_identified a /\ ~ use_case_met p a)
  \/ (ar_level (assess p a) = Checked /\ ar_passed (assess p a) = false
      /\ dossier_identified a /\ use_case_met p a /\ ~ corroborated p a)
  \/ (ar_passed (assess p a) = true
      /\ ar_level (assess p a)
         = (if 0 <? minimum_independent_corroborations p then Corroborated else Checked)
      /\ dossier_identified a /\ use_case_met p a /\ corroborated p a).
Proof.
  unfold assess, corroborated. rewrite <-identity_failures_nil, <-use_case_failures_nil.
  repeat case_bool_decide; simpl; try tauto.
  destruct (N.ltb_spec (independent_count a) (minimum_independent_corroborations p)); simpl.
  - right. right. left. split_and!; done || lia.
  - right. right. right. split_and!; done || lia.
Qed.

Lemma assess_passed_ok `{AssuranceDigest} p a :
  ar_passed (assess p a) = true <-> dossier_identified a /\ use_case_met p a /\ corroborated p a.
Proof.
  destruct (assess_cases p a) as
    [(_ & -> & ?) | [(_ & -> & ? & ?) | [(_ & -> & ? & ? & ?) | (-> & _ & ? & ? & ?)]]]; naive_solver.
Qed.

(** A dossier that fails says why, unless it could not be serialised. *)
Lemma assess_failures_nil `{AssuranceDigest} p a :
  assurance_digest_of a <> None ->
  ar_failures (assess p a) = [] <-> ar_passed (assess p a) = true.
Proof.
  intros Hd. unfold assess. repeat case_bool_decide; simpl; try naive_solver.
  by destruct (N.ltb _ _).
Qed.

(** [stricter q p]: policy [q] asks for at least what [p] asks for. *)
Definition stricter (q p : AssurancePolicy) : Prop :=
  (accepted_authority_classes p = ∅
   \/ (accepted_authority_classes q <> ∅
       /\ accepted_authority_classes q ⊆ accepted_authority_classes p))
  /\ (forall m, ap_max_age_days p = Some m ->
      exists m', ap_max_age_days q = Some m' /\ m' <= m)
  /\ ap_required_checks p ⊆ ap_required_checks q
  /\ minimum_independent_corroborations p <= minimum_independent_corroborations q
  /\ (require_uncertainty p = true -> require_uncertainty q = true)
  /\ (require_limitations p = true -> require_limitations q = true)
  /\ (allow_unresolved_disputes p = false -> allow_unresolved_disputes q = false).

Lemma use_case_met_stricter q p a : stricter q p -> use_case_met q a -> use_case_met p a.
Proof.
  intros (Sa & Sm & Sc & _ & Su & Sl & Sd) (Ma & Mf & [Mc Mn] & Mr & Mu & Ml & Md).
  unfold use_case_met. split_and!; auto; [set_solver|].
  intros m Hm. destruct (Sm m Hm) as (m' & Hm' & Hle).
  destruct (Mf m' Hm') as (Hp & age & Ha & Hage). split; [done|].
  exists age. split; [done | lia].
Qed.

(** ** Properties *)

(** A dossier without two checks of one kind has no earlier failure. *)
Lemma distinct_kinds a k : NoDup (map ac_kind (sa_checks a)) -> passing_observation a k -> no_earlier_failure a k.
Proof.
  intros Hn (c & Hc & Hk & Hp) before d after Heq Hd _.
  assert (c = d) as <-; [|exact Hp].
  apply list_elem_of_lookup in Hc as [i Hi]. assert (Hj : sa_checks a !! length before = Some d).
  { rewrite Heq, lookup_app_r, Nat.sub_diag by lia. done. }
  assert (i = length before) as ->; [|congruence]. apply (NoDup_lookup (ac_kind <$> sa_checks a) i (length before) k); [exact Hn|..];
    rewrite list_lookup_fmap; [by rewrite Hi, <-Hk | by rewrite Hj, <-Hd].
Qed.

Lemma check_satisfied_iff a k : check_satisfied a k <-> passing_observation a k /\ no_earlier_failure a k.
Proof.
  unfold check_satisfied, passing_observation, no_earlier_failure. split.
  - intros (c & Hf & Hp). pose proof (find_some _ _ Hf) as [Hin Hk%bool_decide_eq_true]. split.
    + exists c. split; [by apply list_elem_of_In | done].
    + intros before d after Heq Hd Hb. rewrite Heq in Hf. clear Heq. induction Hb as [|x before Hx Hb IH]; cbn in Hf.
      * rewrite bool_decide_true in Hf by exact Hd. by injection Hf as ->.
      * rewrite bool_decide_false in Hf by exact Hx. by apply IH.
  - intros [(c & Hin & Hk & Hp) Hfirst]. destruct (List.find _ (sa_checks a)) as [d|] eqn:Hf.
    + exists d. split; [done|]. pose proof (find_some _ _ Hf) as [_ Hd%bool_decide_eq_true].
      assert (Hsplit : forall l, List.find (fun c => bool_decide (ac_kind c = k)) l = Some d ->
        exists before after, l = before ++ d :: after /\ Forall (fun x => ac_kind x <> k) before).
      { induction l as [|x l IH]; cbn; [done|]. case_bool_decide as Hx; [intros [= ->]; by exists [], l|].
        intros (before & after & -> & Hb)%IH. exists (x :: before), after. split; [done | by constructor]. }
      destruct (Hsplit _ Hf) as (before & after & Heq & Hb). exact (Hfirst before d after Heq Hd Hb).
    + apply (find_none _ _) with (x := c) in Hf; [|by apply list_elem_of_In]. by rewrite bool_decide_true in Hf.
Qed.

Lemma use_case_met_iff p a : use_case_met p a <->
  use_case_documented p a /\ forall k, k ∈ ap_required_checks p -> no_earlier_failure a k.
Proof. unfold use_case_met, use_case_documented. setoid_rewrite check_satisfied_iff. naive_solver. Qed.

Lemma counts_iff a c : counts_as_independent a c = true <-> independent_comparison a c.
Proof.
  unfold counts_as_independent, independent_comparison. rewrite !andb_true_iff, negb_true_iff, bool_decide_eq_false, !valid_digest_text.
  assert (Hi : is_independent (co_independence c) = true <-> co_independence c = IndependentPublisher \/ co_independence c = IndependentMeasurement)
    by (destruct (co_independence c); cbn; naive_solver).
  rewrite Hi. tauto.
Qed.

Lemma filter_sublist {A} (f : A -> bool) (l : list A) : List.filter f l `sublist_of` l.
Proof. induction l as [|x l IH]; cbn; [constructor|]. destruct (f x); by constructor. Qed.

(** A count reaches a number exactly when so many entries can be picked. *)
Lemma filter_count {A} (f : A -> bool) (l : list A) (n : nat) :
  (n <= length (List.filter f l))%nat <-> exists k, k `sublist_of` l /\ Forall (fun x => f x = true) k /\ length k = n.
Proof.
  split.
  - intros Hn. exists (take n (List.filter f l)). split; [|split].
    + trans (List.filter f l); [apply sublist_take | apply filter_sublist].
    + apply Forall_take, Forall_forall. by intros x [_ Hx]%list_elem_of_In%filter_In.
    + rewrite length_take. lia.
  - intros (k & Hs & Hf & <-). induction Hs as [|x l k Hs IH|x l k Hs IH]; cbn; [lia| |].
    + apply Forall_cons in Hf as [Hx Hf]. rewrite Hx. cbn. specialize (IH Hf). lia.
    + specialize (IH Hf). destruct (f x); cbn; lia.
Qed.

Lemma corroborated_iff p a : N.of_nat (length (corroborations a)) < 2 ^ 32 -> corroborated p a <-> enough_comparisons p a.
Proof.
  intros Hlen. unfold corroborated, enough_comparisons, independent_count, wrap.
  assert (Hle : (length (List.filter (counts_as_independent a) (corroborations a)) <= length (corroborations a))%nat) by apply filter_length_le.
  rewrite N.mod_small by lia.
  assert (Hm : minimum_independent_corroborations p <= N.of_nat (length (List.filter (counts_as_independent a) (corroborations a)))
    <-> (N.to_nat (minimum_independent_corroborations p) <= length (List.filter (counts_as_independent a) (corroborations a)))%nat) by lia.
  rewrite Hm, filter_count. setoid_rewrite counts_iff. split; intros (k & Hs & Hf & Hk); exists k; (split; [done|]); (split; [done | lia]).
Qed.

(** C24: the level a dossier reaches is exactly the one its evidence justifies.
    It is identified when it names source, snapshot, publisher and assessment;
    checked when moreover every documented condition of the use case holds and no
    required kind of check failed before it passed (the documentation asks only for
    a passing observation; where no kind is observed twice the two agree); it passes
    when it also has as many independent agreeing comparisons as the policy asks
    for, and is corroborated when the policy asks for one at least. *)
Theorem assess_grades `{AssuranceDigest} p a : N.of_nat (length (corroborations a)) < 2 ^ 32 ->
  let first_passes := forall k, k ∈ ap_required_checks p -> no_earlier_failure a k in
  (ar_level (assess p a) <> Unassessed <-> dossier_identified a)
  /\ (ar_level (assess p a) ∈ [Checked; Corroborated] <-> dossier_identified a /\ use_case_documented p a /\ first_passes)
  /\ (ar_passed (assess p a) = true <->
      dossier_identified a /\ use_case_documented p a /\ first_passes /\ enough_comparisons p a)
  /\ (ar_level (assess p a) = Corroborated <->
      ar_passed (assess p a) = true /\ 0 < minimum_independent_corroborations p)
  /\ (NoDup (map ac_kind (sa_checks a)) -> use_case_documented p a -> first_passes).
Proof.
  intros Hlen first_passes. pose proof (use_case_met_iff p a) as Hu. fold first_passes in Hu.
  rewrite <-(corroborated_iff p a Hlen), !elem_of_cons, elem_of_nil.
  split; [|split; [|split; [|split]]].
  5: { intros Hn Hd k Hk. apply distinct_kinds; [exact Hn|]. destruct Hd as (_ & _ & _ & Hd & _). by apply Hd. }
  all: clearbody first_passes; clear Hlen; pose proof (assess_cases p a) as Hcases; revert Hcases Hu;
    generalize (ar_level (assess p a)) (ar_passed (assess p a)) (use_case_met p a) (use_case_documented p a) (dossier_identified a)
      (corroborated p a); intros level passed met documented identified enough Hcases Hu;
    destruct (N.ltb_spec 0 (minimum_independent_corroborations p));
    destruct Hcases as [(-> & -> & ?) | [(-> & -> & ? & ?) | [(-> & -> & ? & ? & ?) | (-> & -> & ? & ? & ?)]]];
    intuition (congruence || lia).
Qed.

(** Strengthening the policy never turns a failing dossier into a passing one. *)
Theorem stricter_policy_never_passes_more `{AssuranceDigest} q p a :
  stricter q p -> ar_passed (assess q a) = true -> ar_passed (assess p a) = true.
Proof.
  intros Hs Hq.
  destruct (assess_cases q a) as [(? & ? & ?) | [(? & ? & ?) | [(? & ? & ?) | (_ & _ & Hi & Hu & Hc)]]];
    [congruence..|].
  pose proof (use_case_met_stricter q p a Hs Hu) as Hu'.
  assert (Hc' : corroborated p a).
  { unfold corroborated in *. destruct Hs as (_ & _ & _ & Hm & _). lia. }
  destruct (assess_cases p a) as [(_ & _ & ?) | [(_ & _ & _ & ?) | [(_ & _ & _ & _ & ?) | (-> & _)]]];
    done.
Qed.

(** ** Concrete dossiers *)

Definition example_digest : string :=
  "sha256:aaaaaaaaaaaaaaaaaaaaaaaaaaaaaaaaaaaaaaaaaaaaaaaaaaaaaaaaaaaaaaaa".

Definition example_check (id : string) (passed : bool) : AssuranceCheck :=
  {| ac_check_id := id; ac_kind := Schema; ac_passed := passed;
     ac_evidence_digest := example_digest; verifier_identity := "checker/0.1" |}.

Definition example_corroboration : CorroborationEvidence :=
  {| co_source_id := "estat"; co_snapshot_digest := example_digest;
     co_independence := IndependentPublisher; agrees := true;
     co_evidence_digest := example_digest |}.

Definition example_dossier (checks : list AssuranceCheck) (co : list CorroborationEvidence)
    : SourceAssurance :=
  {| sa_schema_version := SOURCE_ASSURANCE_SCHEMA_VERSION; sa_source_id := "nagoya";
     sa_snapshot_digest := example_digest; publisher := "Nagoya City";
     authority_class := PrimaryOfficial; published_at := Some "2021-11-30";
     assessed_at := "2022-01-01"; observed_age_days := Some 32; sa_checks := checks;
     corroborations := co; sa_uncertainty := None; disputes := [];
     limitations := ["census date"] |}.

Definition example_assurance_policy (max_age minimum : N) : AssurancePolicy :=
  {| accepted_authority_classes := {[PrimaryOfficial]}; ap_max_age_days := Some max_age;
     ap_required_checks := {[Schema]}; minimum_independent_corroborations := minimum;
     require_uncertainty := false; require_limitations := true;
     allow_unresolved_disputes := false |}.

Lemma stricter_policy_never_passes_more_witness :
  let _ : AssuranceDigest := fun _ => Some "digest" in
  ar_passed (assess (example_assurance_policy 365 0)
    (example_dossier [example_check "schema" true] [example_corroboration])) = true.
Proof.
  intros D. apply (@stricter_policy_never_passes_more D (example_assurance_policy 100 1)).
  - unfold stricter; simpl. split_and!; [right; set_solver | | set_solver | lia | done..].
    intros m [= <-]. exists 100. split; [done | lia].
  - by vm_compute.
Defined.

Lemma assess_grades_witness :
  let _ : AssuranceDigest := fun _ => Some "digest" in
  let a := example_dossier [example_check "schema" true] [example_corroboration] in
  use_case_documented (example_assurance_policy 365 1) a /\ enough_comparisons (example_assurance_policy 365 1) a.
Proof.
  intros D a. destruct (@assess_grades D (example_assurance_policy 365 1) a) as (_ & _ & Hpass & _); [vm_compute; reflexivity|].
  assert (Hp : ar_passed (@assess D (example_assurance_policy 365 1) a) = true) by (vm_compute; reflexivity).
  apply Hpass in Hp as (_ & Hu & _ & He). exact (conj Hu He).
Defined.

(** Of two checks of one kind only the first is consulted: a later passing
    observation does not count. *)
Lemma later_passing_check_ignored :
  let _ : AssuranceDigest := fun _ => Some "digest" in
  map af_code (ar_failures (assess (example_assurance_policy 365 0)
    (example_dossier [example_check "first" false; example_check "second" true] [])))
  = ["required_assurance_check_failed"].
Proof. by vm_compute. Qed.

(** One corroborating source listed twice counts as two independent sources. *)
Lemma repeated_corroboration_counts :
  let _ : AssuranceDigest := fun _ => Some "digest" in
  ar_level (assess (example_assurance_policy 365 2)
    (example_dossier [example_check "schema" true]
       [example_corroboration; example_corroboration])) = Corroborated.
Proof. by vm_compute. Qed.
