(* ===== verification/TrustPolicy.v ===== *)
(** * Verification policy and trust levels (crates/genegis-contract/src/policy.rs)

    A policy derives the highest trust level that the supplied evidence
    justifies; each level has its gate, and every gate lists its failures. *)

From Stdlib Require Import Ascii.
From S2P Require Import Prelude RustStd Crs GeoContract Assurance.
Local Open Scope N_scope.

Definition VERIFICATION_POLICY_SCHEMA_VERSION : string := "0.1.0".

(** ** Data *)

Inductive TrustLevel := Exploratory | Replayable | Verified | Attested.
Inductive IndependenceClass :=
| SameImplementation | DifferentAlgorithmSameEngine | DifferentEngine
| AuthoritativeExternalOracle | DomainInvariant.
Inductive TrustGate := Gate_Replay | Gate_Verification | Gate_Attestation.

#[export] Instance TrustLevel_eq_dec : EqDecision TrustLevel.
Proof. solve_decision. Defined.
#[export] Instance IndependenceClass_eq_dec : EqDecision IndependenceClass.
Proof. solve_decision. Defined.
#[export] Instance TrustGate_eq_dec : EqDecision TrustGate.
Proof. solve_decision. Defined.

(** The derived [Ord] of the levels *)
Definition level_rank (l : TrustLevel) : N :=
  match l with Exploratory => 0 | Replayable => 1 | Verified => 2 | Attested => 3 end.

Definition independence_rank (i : IndependenceClass) : N :=
  match i with
  | SameImplementation => 0 | DifferentAlgorithmSameEngine => 1 | DifferentEngine => 2
  | AuthoritativeExternalOracle => 3 | DomainInvariant => 4
  end.
Definition independence_unrank (n : N) : IndependenceClass :=
  match n with
  | 0 => SameImplementation | 1 => DifferentAlgorithmSameEngine | 2 => DifferentEngine
  | 3 => AuthoritativeExternalOracle | _ => DomainInvariant
  end.
#[export] Program Instance IndependenceClass_countable : Countable IndependenceClass :=
  inj_countable' independence_rank independence_unrank _.
Next Obligation. by intros []. Qed.

Record CheckRequirement := mkCheckRequirement {
  req_check_id : string;
  accepted_independence : gset IndependenceClass;
  req_max_error_ppm : option N }.

Record VerificationPolicy := mkVerificationPolicy {
  vp_schema_version : string;
  policy_id : string;
  geo_contract_schema_version : string;
  required_contracts : gset string;
  vp_required_checks : list CheckRequirement;
  require_verified_sources : bool;
  require_source_version : bool;
  require_license : bool;
  source_assurance : option AssurancePolicy;
  minimum_artifact_count : N;
  accepted_attesters : gset string }.

(** [VerificationPolicy::new] *)
Definition policy_new (policy_id : string) : VerificationPolicy :=
  {| vp_schema_version := VERIFICATION_POLICY_SCHEMA_VERSION; policy_id := policy_id;
     geo_contract_schema_version := GEO_CONTRACT_SCHEMA_VERSION; required_contracts := ∅;
     vp_required_checks := []; require_verified_sources := true; require_source_version := true;
     require_license := true; source_assurance := None; minimum_artifact_count := 1;
     accepted_attesters := ∅ |}.

Record ReplayEvidence := mkReplayEvidence {
  workflow_digest : option string;
  result_digest : option string;
  backend_identity : option string;
  artifact_digests : list string }.

Record ContractEvidence := mkContractEvidence {
  contract_id : string;
  ce_schema_version : string;
  valid : bool;
  compatibility : CompatibilityStatus }.

Record SourceEvidence := mkSourceEvidence {
  se_source_id : string;
  se_checksum_status : ChecksumVerification;
  source_version_present : bool;
  license_present : bool;
  se_snapshot_digest : option string;
  se_assurance : option SourceAssurance;
  assurance_digest : option string }.

Record VerificationEvidence := mkVerificationEvidence {
  ve_check_id : string;
  ve_passed : bool;
  ve_independence : IndependenceClass;
  observed_error_ppm : option N;
  ve_evidence_digest : option string }.

Record AttestationEvidence := mkAttestationEvidence { signer : string; signature_verified : bool }.

Record TrustEvidence := mkTrustEvidence {
  replay : ReplayEvidence;
  contracts : list ContractEvidence;
  sources : list SourceEvidence;
  te_checks : list VerificationEvidence;
  attestation : option AttestationEvidence }.

Record TrustFailure := mkTrustFailure {
  gate : TrustGate; tf_code : string; tf_subject : string; tf_detail : string }.

Record TrustAssessment := mkTrustAssessment {
  ta_level : TrustLevel; ta_policy_id : string; ta_failures : list TrustFailure }.

Abbreviation replay_failure := (mkTrustFailure Gate_Replay).
Abbreviation verification_failure := (mkTrustFailure Gate_Verification).
Abbreviation attestation_failure := (mkTrustFailure Gate_Attestation).

(** ** Evaluation *)

Definition valid_identity (value : string) : bool :=
  negb (is_blank value) && (valid_digest value || contains_char ":"%char value).

Definition validate_policy (policy : VerificationPolicy) : list TrustFailure :=
  fail_if (negb (bool_decide (vp_schema_version policy = VERIFICATION_POLICY_SCHEMA_VERSION)))
    (replay_failure "unsupported_policy_schema" (vp_schema_version policy)
       "verification policy schema version is not supported")
  ++ fail_if (is_blank (policy_id policy))
       (replay_failure "missing_policy_id" "policy" "policy identifier is empty")
  ++ fail_if (negb (bool_decide
         (geo_contract_schema_version policy = GEO_CONTRACT_SCHEMA_VERSION)))
       (verification_failure "unsupported_contract_schema" (geo_contract_schema_version policy)
          "policy requires an unsupported GeoContract schema")
  ++ scan_distinct req_check_id (fun bad check =>
       fail_if bad (verification_failure "invalid_check_requirement" (req_check_id check)
         "required check identifier is empty or duplicated")
       ++ fail_if (bool_decide (accepted_independence check = ∅))
            (verification_failure "missing_independence_policy" (req_check_id check)
               "required check has no accepted independence class"))
     ∅ (vp_required_checks policy).

Definition valid_artifacts (replay : ReplayEvidence) : N :=
  N.of_nat (length (List.filter valid_digest (artifact_digests replay))).

Definition replay_failures (policy : VerificationPolicy) (replay : ReplayEvidence)
    : list TrustFailure :=
  flat_map (fun '(code, subject, value) =>
    fail_if (negb (from_option valid_identity false value))
      (replay_failure code subject "required stable replay identity is missing or malformed"))
    [("missing_workflow_digest", "workflow", workflow_digest replay);
     ("missing_result_digest", "result", result_digest replay);
     ("missing_backend_identity", "backend", backend_identity replay)]
  ++ fail_if (valid_artifacts replay <? minimum_artifact_count policy)
       (replay_failure "insufficient_artifact_digests" "artifacts"
          (show_N (valid_artifacts replay) +:+ " valid artifact digests; policy requires "
           +:+ show_N (minimum_artifact_count policy))).

Definition contract_failures (policy : VerificationPolicy) (evidence : TrustEvidence)
    (required : string) : list TrustFailure :=
  match List.find (fun c => bool_decide (contract_id c = required)) (contracts evidence) with
  | None => [verification_failure "missing_contract_evidence" required
      "required GeoContract evidence is missing"]
  | Some c =>
      fail_if (negb (valid c)
               || negb (bool_decide (ce_schema_version c = geo_contract_schema_version policy))
               || negb (bool_decide (compatibility c = Compatible)))
        (verification_failure "contract_not_compatible" required
           "required GeoContract is invalid, unsupported, or not fully compatible")
  end.

(** A supplied dossier has to be bound to the admitted snapshot by digests. *)
Definition dossier_binding_failures `{AssuranceDigest} (source : SourceEvidence)
    : list TrustFailure :=
  match se_assurance source with
  | None => []
  | Some a =>
      fail_if (negb (bool_decide (se_snapshot_digest source = Some (sa_snapshot_digest a))))
        (verification_failure "source_assurance_snapshot_mismatch" (se_source_id source)
           "source assurance snapshot digest differs from source admission evidence")
      ++ (let mismatch := [verification_failure "source_assurance_digest_mismatch"
            (se_source_id source) "source assurance dossier is not bound by its computed digest"] in
          match assurance_digest_of a with
          | Some digest => if bool_decide (assurance_digest source = Some digest) then [] else mismatch
          | None => mismatch
          end)
  end.

Definition dossier_policy_failures `{AssuranceDigest} (policy : VerificationPolicy)
    (source : SourceEvidence) : list TrustFailure :=
  match source_assurance policy, se_assurance source with
  | None, _ => []
  | Some _, None => [verification_failure "missing_source_assurance" (se_source_id source)
      "policy requires a source assurance dossier"]
  | Some assurance_policy, Some a =>
      if negb (bool_decide (sa_source_id a = se_source_id source)) then
        [verification_failure "source_assurance_identity_mismatch" (se_source_id source)
           "source assurance dossier identifies a different source"]
      else
        let report := assess assurance_policy a in
        if negb (ar_passed report) then
          map (fun f => verification_failure ("source_assurance_" +:+ af_code f)
                          (af_subject f) (af_detail f)) (ar_failures report)
        else []
  end.

Definition source_failures `{AssuranceDigest} (policy : VerificationPolicy)
    (source : SourceEvidence) : list TrustFailure :=
  fail_if (require_verified_sources policy
           && negb (bool_decide (se_checksum_status source = CV_Verified)))
    (verification_failure "source_not_verified" (se_source_id source)
       "source bytes were not verified against their snapshot identity")
  ++ fail_if (require_source_version policy && negb (source_version_present source))
       (verification_failure "missing_source_version" (se_source_id source)
          "stable source version is missing")
  ++ fail_if (require_license policy && negb (license_present source))
       (verification_failure "missing_source_license" (se_source_id source)
          "source license is missing")
  ++ dossier_binding_failures source
  ++ dossier_policy_failures policy source.

Definition check_failures (evidence : TrustEvidence) (requirement : CheckRequirement)
    : list TrustFailure :=
  let failure code detail := [verification_failure code (req_check_id requirement) detail] in
  match List.find (fun c => bool_decide (ve_check_id c = req_check_id requirement))
          (te_checks evidence) with
  | None => failure "missing_check_evidence" "required verification check is missing"
  | Some check =>
      if negb (ve_passed check) then
        failure "check_failed" "required verification check failed"
      else if negb (bool_decide (ve_independence check ∈ accepted_independence requirement)) then
        failure "insufficient_verifier_independence"
          "verifier independence class is not accepted by policy"
      else if negb (from_option valid_digest false (ve_evidence_digest check)) then
        failure "missing_check_digest" "check evidence is not content-addressed"
      else
        match req_max_error_ppm requirement with
        | None => []
        | Some maximum =>
            match observed_error_ppm check with
            | Some observed =>
                if observed <=? maximum then []
                else failure "check_tolerance_exceeded"
                       ("observed " +:+ show_N observed +:+ " ppm exceeds "
                        +:+ show_N maximum +:+ " ppm")
            | None => failure "missing_check_error" "policy requires a numeric error observation"
            end
        end
  end.

Definition verification_failures `{AssuranceDigest} (policy : VerificationPolicy)
    (evidence : TrustEvidence) : list TrustFailure :=
  flat_map (contract_failures policy evidence) (str_iter (required_contracts policy))
  ++ flat_map (source_failures policy) (sources evidence)
  ++ fail_if ((require_verified_sources policy || require_source_version policy
               || require_license policy) && bool_decide (sources evidence = []))
       (verification_failure "missing_source_evidence" "sources"
          "policy requires source evidence but none was supplied")
  ++ flat_map (check_failures evidence) (vp_required_checks policy).

Definition attestation_failures (policy : VerificationPolicy)
    (attestation : option AttestationEvidence) : list TrustFailure :=
  if bool_decide (accepted_attesters policy = ∅) then
    [attestation_failure "attestation_not_required" "attestation"
       "policy does not identify an accepted attester"]
  else
    match attestation with
    | None => [attestation_failure "missing_attestation" "attestation"
        "no signed attestation was supplied"]
    | Some att =>
        if negb (signature_verified att) then
          [attestation_failure "invalid_attestation_signature" (signer att)
             "attestation signature or subject integrity did not verify"]
        else if negb (bool_decide (signer att ∈ accepted_attesters policy)) then
          [attestation_failure "unaccepted_attester" (signer att)
             "attestation signer is not accepted by policy"]
        else []
    end.

Definition assess_trust `{AssuranceDigest} (policy : VerificationPolicy)
    (evidence : TrustEvidence) : TrustAssessment :=
  let answer level failures :=
    {| ta_level := level; ta_policy_id := policy_id policy; ta_failures := failures |} in
  let failures := validate_policy policy ++ replay_failures policy (replay evidence) in
  if negb (bool_decide (failures = [])) then answer Exploratory failures
  else
    let failures := failures ++ verification_failures policy evidence in
    if negb (bool_decide (failures = [])) then answer Replayable failures
    else
      let failures := attestation_failures policy (attestation evidence) in
      if negb (bool_decide (failures = [])) then answer Verified failures
      else answer Attested [].

(** ** What the levels promise *)

Definition policy_wf (p : VerificationPolicy) : Prop :=
  vp_schema_version p = VERIFICATION_POLICY_SCHEMA_VERSION
  /\ is_blank (policy_id p) = false
  /\ geo_contract_schema_version p = GEO_CONTRACT_SCHEMA_VERSION
  /\ Forall (fun c => is_blank (req_check_id c) = false /\ accepted_independence c <> ∅)
       (vp_required_checks p)
  /\ NoDup (map req_check_id (vp_required_checks p)).

Definition stable_identity (o : option string) : Prop :=
  exists v, o = Some v /\ valid_identity v = true.

Definition replay_met (p : VerificationPolicy) (r : ReplayEvidence) : Prop :=
  stable_identity (workflow_digest r) /\ stable_identity (result_digest r)
  /\ stable_identity (backend_identity r)
  /\ minimum_artifact_count p <= valid_artifacts r.

Definition contract_met (p : VerificationPolicy) (e : TrustEvidence) (id : string) : Prop :=
  exists c, List.find (fun c => bool_decide (contract_id c = id)) (contracts e) = Some c
    /\ valid c = true /\ ce_schema_version c = geo_contract_schema_version p
    /\ compatibility c = Compatible.

Definition dossier_bound `{AssuranceDigest} (s : SourceEvidence) : Prop :=
  on_some (se_assurance s) (fun a =>
    se_snapshot_digest s = Some (sa_snapshot_digest a)
    /\ exists d, assurance_digest_of a = Some d /\ assurance_digest s = Some d).

Definition dossier_accepted `{AssuranceDigest} (p : VerificationPolicy) (s : SourceEvidence) : Prop :=
  on_some (source_assurance p) (fun ap => exists a,
    se_assurance s = Some a /\ sa_source_id a = se_source_id s
    /\ dossier_identified a /\ use_case_met ap a /\ corroborated ap a).

Definition source_met `{AssuranceDigest} (p : VerificationPolicy) (s : SourceEvidence) : Prop :=
  (require_verified_sources p = true -> se_checksum_status s = CV_Verified)
  /\ (require_source_version p = true -> source_version_present s = true)
  /\ (require_license p = true -> license_present s = true)
  /\ dossier_bound s /\ dossier_accepted p s.

Definition check_met (e : TrustEvidence) (r : CheckRequirement) : Prop :=
  exists c, List.find (fun c => bool_decide (ve_check_id c = req_check_id r)) (te_checks e) = Some c
    /\ ve_passed c = true /\ ve_independence c ∈ accepted_independence r
    /\ (exists d, ve_evidence_digest c = Some d /\ valid_digest d = true)
    /\ on_some (req_max_error_ppm r) (fun m =>
         exists o, observed_error_ppm c = Some o /\ o <= m).

Definition verification_met `{AssuranceDigest} (p : VerificationPolicy) (e : TrustEvidence) : Prop :=
  (forall id, id ∈ required_contracts p -> contract_met p e id)
  /\ Forall (source_met p) (sources e)
  /\ (require_verified_sources p = true \/ require_source_version p = true
      \/ require_license p = true -> sources e <> [])
  /\ Forall (check_met e) (vp_required_checks p).

Definition attestation_met (p : VerificationPolicy) (e : TrustEvidence) : Prop :=
  exists a, attestation e = Some a /\ signature_verified a = true
            /\ signer a ∈ accepted_attesters p.

(** ** Lemmas: each gate is silent iff its condition holds *)

Lemma from_option_true {A} (f : A -> bool) o :
  from_option f false o = true <-> exists v, o = Some v /\ f v = true.
Proof. destruct o; simpl; naive_solver. Qed.

Lemma validate_policy_nil p : validate_policy p = [] <-> policy_wf p.
Proof.
  unfold validate_policy, policy_wf.
  rewrite !app_nil_iff, !fail_if_nil, !negb_false_iff, !bool_decide_eq_true.
  rewrite (scan_distinct_nil _ _ (fun c => accepted_independence c <> ∅)).
  2: { intros b c. by rewrite app_nil_iff, !fail_if_nil, bool_decide_eq_false. }
  assert (Hs : forall x : string, x ∈ map req_check_id (vp_required_checks p) ->
    x ∉ (∅ : gset string)) by set_solver.
  tauto.
Qed.

Lemma replay_failures_nil p r : replay_failures p r = [] <-> replay_met p r.
Proof.
  unfold replay_failures, replay_met, stable_identity.
  rewrite app_nil_iff, fail_if_nil, flat_map_nil, N.ltb_ge.
  rewrite !Forall_cons, Forall_nil. cbv beta iota.
  rewrite !fail_if_nil, !negb_false_iff, !from_option_true. tauto.
Qed.

Lemma contract_failures_nil p e id : contract_failures p e id = [] <-> contract_met p e id.
Proof.
  unfold contract_failures, contract_met. destruct (List.find _ _) as [c|]; [|naive_solver].
  rewrite fail_if_nil, !orb_false_iff, !negb_false_iff, !bool_decide_eq_true. naive_solver.
Qed.

Lemma dossier_binding_nil `{AssuranceDigest} s :
  dossier_binding_failures s = [] <-> dossier_bound s.
Proof.
  unfold dossier_binding_failures, dossier_bound. destruct (se_assurance s) as [a|]; [|done].
  rewrite app_nil_iff, fail_if_nil, negb_false_iff, bool_decide_eq_true. simpl.
  destruct (assurance_digest_of a) as [d|]; [case_bool_decide|]; naive_solver.
Qed.

Lemma dossier_policy_nil `{AssuranceDigest} p s :
  dossier_bound s -> dossier_policy_failures p s = [] <-> dossier_accepted p s.
Proof.
  unfold dossier_policy_failures, dossier_accepted, dossier_bound. intros Hb.
  destruct (source_assurance p) as [ap|]; [|done].
  destruct (se_assurance s) as [a|]; simpl in *; [|naive_solver].
  destruct Hb as (_ & d & Hd & _).
  case_bool_decide as Hid; simpl; [|naive_solver].
  assert (Hdn : assurance_digest_of a <> None) by congruence.
  pose proof (assess_failures_nil ap a Hdn) as Hf.
  pose proof (assess_passed_ok ap a) as Hp.
  destruct (ar_passed (assess ap a)); simpl.
  - split; [|done]. intros _. exists a. split_and!; try done; tauto.
  - destruct (ar_failures (assess ap a)); simpl; naive_solver.
Qed.

Lemma implb_guard (b c : bool) : b && negb c = false <-> (b = true -> c = true).
Proof. destruct b, c; naive_solver. Qed.

Lemma source_failures_nil `{AssuranceDigest} p s : source_failures p s = [] <-> source_met p s.
Proof.
  unfold source_failures, source_met.
  rewrite !app_nil_iff, !fail_if_nil, !implb_guard, bool_decide_eq_true, dossier_binding_nil.
  pose proof (dossier_policy_nil p s). tauto.
Qed.

Lemma check_failures_nil e r : check_failures e r = [] <-> check_met e r.
Proof.
  unfold check_failures, check_met. destruct (List.find _ _) as [c|]; [|naive_solver].
  assert (Hc : forall P : VerificationEvidence -> Prop,
    (exists c', Some c = Some c' /\ P c') <-> P c) by naive_solver.
  rewrite Hc, <-from_option_true. cbv zeta.
  destruct (ve_passed c); simpl; [|naive_solver].
  case_bool_decide; simpl; [|naive_solver].
  destruct (from_option _ _ _); simpl; [|naive_solver].
  destruct (req_max_error_ppm r) as [m|]; simpl; [|naive_solver].
  destruct (observed_error_ppm c) as [o|]; [|naive_solver].
  destruct (N.leb_spec o m); split; [by eauto 10 | done | done |].
  intros (_ & _ & _ & ? & [= <-] & ?). lia.
Qed.

Lemma verification_failures_nil `{AssuranceDigest} p e :
  verification_failures p e = [] <-> verification_met p e.
Proof.
  unfold verification_failures, verification_met.
  rewrite !app_nil_iff, fail_if_nil, !flat_map_nil, andb_false_iff, !orb_false_iff.
  rewrite bool_decide_eq_false, (Forall_forall _ (str_iter _)).
  setoid_rewrite elem_of_btree_iter. setoid_rewrite contract_failures_nil.
  setoid_rewrite source_failures_nil. setoid_rewrite check_failures_nil.
  destruct (require_verified_sources p), (require_source_version p), (require_license p);
    naive_solver.
Qed.

Lemma attestation_failures_nil p e :
  attestation_failures p (attestation e) = [] <-> attestation_met p e.
Proof.
  unfold attestation_failures, attestation_met.
  case_bool_decide as He; [split; [done|]; set_solver|].
  destruct (attestation e) as [a|]; [|by split; [|intros (? & ? & _)]].
  rewrite (some_exists a (fun a => signature_verified a = true /\ signer a ∈ accepted_attesters p)).
  destruct (signature_verified a); simpl; [|by split; [|intros [? _]]].
  case_bool_decide; simpl; [done|]. by split; [|intros [_ ?]].
Qed.

Lemma assess_trust_cases `{AssuranceDigest} p e :
  let a := assess_trust p e in
  (ta_level a = Exploratory /\ ta_failures a <> [] /\ ~ (policy_wf p /\ replay_met p (replay e)))
  \/ (ta_level a = Replayable /\ ta_failures a <> []
      /\ policy_wf p /\ replay_met p (replay e) /\ ~ verification_met p e)
  \/ (ta_level a = Verified /\ ta_failures a <> [] /\ policy_wf p /\ replay_met p (replay e)
      /\ verification_met p e /\ ~ attestation_met p e)
  \/ (ta_level a = Attested /\ ta_failures a = [] /\ policy_wf p /\ replay_met p (replay e)
      /\ verification_met p e /\ attestation_met p e).
Proof.
  unfold assess_trust. cbv zeta.
  rewrite <-(validate_policy_nil p), <-(replay_failures_nil p (replay e)).
  rewrite <-(verification_failures_nil p e), <-(attestation_failures_nil p e).
  rewrite <-app_nil_iff.
  case_bool_decide as H1; simpl; [|tauto]. rewrite H1. simpl. apply app_nil_iff in H1.
  repeat case_bool_decide; simpl; tauto.
Qed.

(** ** Properties *)


(** No check the executor made of its own work can carry a release: below an
    independence class the policy accepts, evidence never reaches [Verified]. *)
Theorem unaccepted_independence_never_verified `{AssuranceDigest} p e r :
  r ∈ vp_required_checks p ->
  Forall (fun c => ve_check_id c = req_check_id r ->
                   ve_independence c ∉ accepted_independence r) (te_checks e) ->
  level_rank (ta_level (assess_trust p e)) <= 1.
Proof.
  intros Hr Hc.
  assert (Hno : ~ verification_met p e).
  { intros (_ & _ & _ & Hk). rewrite Forall_forall in Hk.
    destruct (Hk r Hr) as (c & Hf & _ & Hi & _).
    apply find_some in Hf as [Hin Hid%bool_decide_eq_true].
    rewrite List.Forall_forall in Hc. by apply (Hc c Hin). }
  destruct (assess_trust_cases p e) as
    [(-> & _) | [(-> & _) | [(_ & _ & _ & _ & ? & _) | (_ & _ & _ & _ & ? & _)]]]; simpl; lia || done.
Qed.

(** ** A concrete assessment *)

Definition example_policy : VerificationPolicy :=
  {| vp_schema_version := VERIFICATION_POLICY_SCHEMA_VERSION; policy_id := "release-v1";
     geo_contract_schema_version := GEO_CONTRACT_SCHEMA_VERSION; required_contracts := ∅;
     vp_required_checks := [ {| req_check_id := "area";
       accepted_independence := {[DifferentEngine]}; req_max_error_ppm := Some 5000 |} ];
     require_verified_sources := false; require_source_version := false;
     require_license := false; source_assurance := None; minimum_artifact_count := 1;
     accepted_attesters := ∅ |}.

Definition example_evidence (i : IndependenceClass) : TrustEvidence :=
  {| replay := {| workflow_digest := Some example_digest; result_digest := Some example_digest;
       backend_identity := Some "genegis:native"; artifact_digests := [example_digest] |};
     contracts := []; sources := [];
     te_checks := [ {| ve_check_id := "area"; ve_passed := true; ve_independence := i;
       observed_error_ppm := Some 100; ve_evidence_digest := Some example_digest |} ];
     attestation := None |}.

Lemma example_reaches_verified :
  let _ : AssuranceDigest := fun _ => None in
  ta_level (assess_trust example_policy (example_evidence DifferentEngine)) = Verified.
Proof. by vm_compute. Qed.

Lemma unaccepted_independence_never_verified_witness :
  let _ : AssuranceDigest := fun _ => None in
  level_rank (ta_level (assess_trust example_policy (example_evidence SameImplementation))) <= 1.
Proof.
  intros D. apply (@unaccepted_independence_never_verified D example_policy
    (example_evidence SameImplementation)
    {| req_check_id := "area"; accepted_independence := {[DifferentEngine]};
       req_max_error_ppm := Some 5000 |}).
  - apply list_elem_of_here.
  - repeat constructor. intros _. set_solver.
Defined.
