(* ===== verification/Json.v ===== *)
(** * Canonical JSON text (the [canonical_json] functions of
    crates/genegis-contract/src/verification.rs and
    crates/genegis-workflow/src/graph.rs)

    [serde_json::Value] is a tree whose objects are maps with distinct keys;
    writing a scalar or a key is serde_json's code and a parameter. *)

From S2P Require Import Prelude RustStd.

Inductive json :=
| JNull
| JBool (b : bool)
| JNumber (n : string)
| JString (s : string)
| JArray (values : list json)
| JObject (entries : list (string * json)).

(** [Value::get(key)] *)
Definition json_get (key : string) (v : json) : option json :=
  match v with
  | JObject entries => snd <$> List.find (fun e => bool_decide (e.1 = key)) entries
  | _ => None
  end.

(** [serde_json::to_string] of a scalar and of a key *)
Class JsonText := { json_scalar : json -> string; json_key : string -> string }.

Definition entry_le {A} (a b : string * A) : Prop := String.le a.1 b.1.
#[export] Instance entry_le_dec {A} : RelDecision (@entry_le A).
Proof. intros a b. unfold entry_le. apply _. Defined.
#[export] Instance entry_le_total {A} : Total (@entry_le A).
Proof. intros a b. apply (total String.le). Qed.
#[export] Instance entry_le_trans {A} : Transitive (@entry_le A).
Proof. intros a b c. apply (transitivity (R:=String.le)). Qed.

(** The entries of a sorted map, as its iterator gives them *)
Definition sorted_entries {V} (m : gmap string V) : list (string * V) := merge_sort entry_le (map_to_list m).

(** [values.join(",")] *)
Fixpoint join (sep : string) (l : list string) : string :=
  match l with
  | [] => ""
  | [s] => s
  | s :: l => s +:+ sep +:+ join sep l
  end.

(** Entries are written in key order; rendering the values before or after the
    sort is the same, since the sort only looks at keys. *)
Fixpoint canonical_json `{JsonText} (v : json) : string :=
  match v with
  | JObject entries =>
      let rendered := map (fun '(key, value) => (key, canonical_json value)) entries in
      "{" +:+ join "," (map (fun '(key, text) => json_key key +:+ ":" +:+ text)
                          (merge_sort entry_le rendered)) +:+ "}"
  | JArray values => "[" +:+ join "," (map canonical_json values) +:+ "]"
  | _ => json_scalar v
  end.

(** [serde_json::to_vec] and [to_string] of a value whose members are written in
    the order given: struct fields as declared, map entries in key order. *)
Fixpoint compact_json `{JsonText} (v : json) : string :=
  match v with
  | JObject entries =>
      "{" +:+ join "," (map (fun '(key, value) => json_key key +:+ ":" +:+ compact_json value) entries)
      +:+ "}"
  | JArray values => "[" +:+ join "," (map compact_json values) +:+ "]"
  | _ => json_scalar v
  end.

(** ** Sorting by key is insensitive to the order of distinct keys *)

Lemma NoDup_fst_inj {A} (l : list (string * A)) x y :
  NoDup (map fst l) -> x ∈ l -> y ∈ l -> x.1 = y.1 -> x = y.
Proof.
  intros Hnd Hx Hy Heq.
  apply list_elem_of_lookup in Hx as [i Hi]. apply list_elem_of_lookup in Hy as [j Hj].
  assert (i = j) as ->; [|congruence].
  apply (NoDup_lookup (map fst l) i j x.1); [done|..].
  - change (map fst l) with (fst <$> l). by rewrite list_lookup_fmap, Hi.
  - change (map fst l) with (fst <$> l). rewrite list_lookup_fmap, Hj. simpl. by rewrite Heq.
Qed.

Lemma merge_sort_entries_perm {A} (l k : list (string * A)) :
  NoDup (map fst l) -> l ≡ₚ k -> merge_sort entry_le l = merge_sort entry_le k.
Proof.
  intros Hnd. apply merge_sort_key_perm; try apply _.
  intros x y Hx Hy H1 H2. apply (NoDup_fst_inj l); try done. by apply (anti_symm String.le).
Qed.

(** ** Values that differ in the order of object keys *)

Inductive same_json : json -> json -> Prop :=
| same_refl v : same_json v v
| same_array l k : Forall2 same_json l k -> same_json (JArray l) (JArray k)
| same_object l l1 k :
    NoDup (map fst l) ->
    Forall2 (fun a b => a.1 = b.1 /\ same_json a.2 b.2) l l1 -> l1 ≡ₚ k ->
    same_json (JObject l) (JObject k).

Lemma canonical_array_ext `{JsonText} l k :
  Forall2 (fun a b => canonical_json a = canonical_json b) l k ->
  map canonical_json l = map canonical_json k.
Proof. induction 1; simpl; congruence. Qed.

Lemma canonical_object_ext `{JsonText} (l l1 k : list (string * json)) :
  NoDup (map fst l) ->
  Forall2 (fun a b => a.1 = b.1 /\ canonical_json a.2 = canonical_json b.2) l l1 -> l1 ≡ₚ k ->
  canonical_json (JObject l) = canonical_json (JObject k).
Proof.
  intros Hnd Hf Hp. simpl.
  assert (Hl : map (fun '(key, value) => (key, canonical_json value)) l
             = map (fun '(key, value) => (key, canonical_json value)) l1).
  { clear -Hf. induction Hf as [|[k v] [k' v'] l l1 [? ?] _ IH]; simpl in *; congruence. }
  rewrite Hl. do 4 f_equal. apply merge_sort_entries_perm; [|by rewrite Hp].
  rewrite <-Hl, List.map_map. erewrite List.map_ext; [exact Hnd|]. by intros [].
Qed.

Lemma canonical_json_same `{JsonText} v w : same_json v w -> canonical_json v = canonical_json w.
Proof.
  revert v w. fix IH 3. intros v w [u | l k Hf | l l1 k Hnd Hf Hp].
  - done.
  - simpl. do 3 f_equal. induction Hf as [|a b l k Hab Hf IHf]; simpl; [done|].
    by rewrite (IH _ _ Hab), IHf.
  - apply (canonical_object_ext l l1 k); [done| |done]. clear Hnd Hp.
    induction Hf as [|a b l l1 [Hk Hab] Hf IHf]; constructor; [|done].
    split; [done | by apply IH].
Qed.

(** ** Properties *)

(** The canonical text of a JSON value does not depend on the order in which
    the keys of an object were stored, at any depth. *)
Theorem canonical_json_key_order `{JsonText} v w :
  same_json v w -> canonical_json v = canonical_json w.
Proof. apply canonical_json_same. Qed.

Lemma canonical_json_key_order_witness :
  let T : JsonText := {| json_scalar := fun _ => "x"; json_key := fun k => k |} in
  canonical_json (JObject [("b", JNull); ("a", JArray [JObject [("d", JNull); ("c", JNull)]])])
  = canonical_json (JObject [("a", JArray [JObject [("c", JNull); ("d", JNull)]]); ("b", JNull)]).
Proof.
  intros T. apply (@canonical_json_key_order T).
  eapply (same_object _ [("b", JNull); ("a", JArray [JObject [("c", JNull); ("d", JNull)]])]).
  - apply (bool_decide_unpack _). by vm_compute.
  - repeat constructor; simpl.
    eapply (same_object _ [("d", JNull); ("c", JNull)]);
      [ apply (bool_decide_unpack _); by vm_compute | repeat constructor | apply perm_swap ].
  - apply perm_swap.
Defined.
