(* ===== verification/JsonReading.v ===== *)
(** * Reading canonical JSON back

    The text [canonical_json] writes determines the value but for the order of the
    keys of its objects: equal texts are texts of values with the same normal form.
    What serde_json guarantees of scalars and keys is a class of laws; a writer with
    the escapes of serde_json satisfies them. *)

From Stdlib Require Import Ascii.
From S2P Require Import Prelude RustStd Ordering Json.

(** ** Values up to the order of keys *)

Fixpoint normal_json (v : json) : json :=
  match v with
  | JObject entries => JObject (merge_sort entry_le (map (fun e => (e.1, normal_json e.2)) entries))
  | JArray values => JArray (map normal_json values)
  | _ => v
  end.

(** A number as JSON writes it: no character that ends a value *)
Definition number_char (a : ascii) : bool :=
  is_ascii_digit a || contains_char a "+-.eE".
Definition number_ok (n : string) : bool := negb (is_empty n) && string_forall number_char n.
Fixpoint numbers_ok (v : json) : bool :=
  match v with
  | JNumber n => number_ok n
  | JArray values => forallb numbers_ok values
  | JObject entries => forallb (fun e => numbers_ok e.2) entries
  | _ => true
  end.

Definition is_scalar (v : json) : bool := match v with JArray _ | JObject _ => false | _ => true end.
(** What may follow a value in a document *)
Definition closer (a : ascii) : bool := contains_char a ",]}".
Definition delimited (s : string) : Prop := match s with EmptyString => True | String a _ => closer a = true end.
(** A text that starts neither a container nor the end of one *)
Definition opens (s : string) : Prop :=
  match s with EmptyString => False | String a _ => closer a = false /\ a <> "["%char /\ a <> "{"%char end.

(** JSON text as RFC 8259 has it: a scalar is recognised by what it starts with,
    ends where a delimiter follows, and is read back; a key is a string literal. *)
Class JsonTextLaws `{JsonText} : Prop := {
  scalar_opens v : is_scalar v = true -> numbers_ok v = true -> opens (json_scalar v);
  scalar_read v w s t : is_scalar v = true -> is_scalar w = true -> numbers_ok v = true -> numbers_ok w = true ->
    delimited s -> delimited t -> json_scalar v +:+ s = json_scalar w +:+ t -> v = w /\ s = t;
  key_opens k : opens (json_key k);
  key_read k l s t : json_key k +:+ s = json_key l +:+ t -> k = l /\ s = t }.

(** ** Induction on values *)

Section Induction.
Context (P : json -> Prop).
Hypothesis Hscalar : forall v, is_scalar v = true -> P v.
Hypothesis Harray : forall l, Forall P l -> P (JArray l).
Hypothesis Hobject : forall l, Forall (fun e => P e.2) l -> P (JObject l).
Fixpoint json_induction (v : json) : P v :=
  match v with
  | JArray l => Harray l ((fix go l : Forall P l := match l with [] => @List.Forall_nil _ _ | v :: l => @List.Forall_cons _ _ _ _ (json_induction v) (go l) end) l)
  | JObject l => Hobject l ((fix go l : Forall (fun e => P e.2) l :=
      match l with [] => @List.Forall_nil _ _ | e :: l => @List.Forall_cons _ _ _ _ (json_induction e.2) (go l) end) l)
  | JNull => Hscalar JNull eq_refl
  | JBool b => Hscalar (JBool b) eq_refl
  | JNumber n => Hscalar (JNumber n) eq_refl
  | JString s => Hscalar (JString s) eq_refl
  end.
End Induction.

(** ** Canonical text is the compact text of the normal form *)

Lemma entry_le_keys {A B} (a b : string * A) (c d : string * B) : a.1 = c.1 -> b.1 = d.1 -> entry_le a b <-> entry_le c d.
Proof. unfold entry_le. by intros -> ->. Qed.

(** A sort by key moves the values along. *)
Section SortMap.
Context {A B : Type} (f : A -> B).
Let on_value (e : string * A) : string * B := (e.1, f e.2).
Lemma list_merge_map (l k : list (string * A)) :
  list_merge entry_le (map on_value l) (map on_value k) = map on_value (list_merge entry_le l k).
Proof.
  revert k. induction l as [|a l IHl]; intros k; [by destruct k|]. induction k as [|b k IHk]; [done|].
  cbn [map]. rewrite !list_merge_cons. destruct (decide (entry_le a b)) as [Hab|Hab].
  - rewrite decide_True by done. cbn [map]. f_equal. exact (IHl (b :: k)).
  - rewrite decide_False by done. cbn [map]. f_equal. exact IHk.
Qed.
Lemma merge_list_to_stack_map (st : list (option (list (string * A)))) (l : list (string * A)) :
  merge_list_to_stack entry_le (map (fmap (map on_value)) st) (map on_value l)
  = map (fmap (map on_value)) (merge_list_to_stack entry_le st l).
Proof.
  revert l. induction st as [|[k|] st IH]; intros l; [done| |done]. cbn. f_equal. rewrite list_merge_map. apply IH.
Qed.
Lemma merge_stack_map (st : list (option (list (string * A)))) :
  merge_stack entry_le (map (fmap (map on_value)) st) = map on_value (merge_stack entry_le st).
Proof. induction st as [|[k|] st IH]; cbn; [done| |done]. rewrite IH. apply list_merge_map. Qed.
Lemma merge_sort_map (l : list (string * A)) : merge_sort entry_le (map on_value l) = map on_value (merge_sort entry_le l).
Proof.
  unfold merge_sort. change (@nil (option (list (string * B)))) with (map (fmap (map on_value)) (@nil (option (list (string * A))))).
  generalize (@nil (option (list (string * A)))). induction l as [|x l IH]; intros st; [apply merge_stack_map|].
  cbn [map merge_sort_aux]. change [on_value x] with (map on_value [x]). rewrite merge_list_to_stack_map. apply IH.
Qed.
End SortMap.

Lemma canonical_normal `{JsonText} v : canonical_json v = compact_json (normal_json v).
Proof.
  induction v as [v Hs|l IH|l IH] using json_induction; [by destruct v| |].
  - cbn. do 2 f_equal. rewrite List.map_map. f_equal. apply map_ext_in_iff. by apply List.Forall_forall.
  - cbn. do 2 f_equal.
    assert (Hr : map (fun '(key, value) => (key, canonical_json value)) l
      = map (fun e => (e.1, compact_json e.2)) (map (fun e => (e.1, normal_json e.2)) l)).
    { rewrite List.map_map. apply map_ext_in. intros [k v] Hin. rewrite List.Forall_forall in IH. specialize (IH _ Hin). cbn in *. by rewrite IH. }
    rewrite Hr, merge_sort_map, List.map_map. erewrite List.map_ext; [reflexivity|]. by intros [].
Qed.

(** ** Compact text is read back *)

Definition starts (s : string) : Prop := match s with EmptyString => False | String a _ => closer a = false end.

(** A list of texts between its elements' separators and its closing character *)
Section Lists.
Context {A : Type} (f : A -> string) (c : ascii).
Hypothesis Hclose : closer c = true.
Hypothesis Hcomma : c <> ","%char.

Lemma join_split x (l : list A) s :
  join "," (map f (x :: l)) +:+ String c s
  = f x +:+ match l with [] => String c s | _ => String "," (join "," (map f l) +:+ String c s) end.
Proof. destruct l as [|y l]; [done|]. cbn [map join]. by rewrite !string_app_assoc. Qed.

Lemma list_read (l k : list A) s t :
  (forall x y s t, x ∈ l -> y ∈ k -> delimited s -> delimited t -> f x +:+ s = f y +:+ t -> x = y /\ s = t) ->
  (forall x, x ∈ l \/ x ∈ k -> starts (f x)) ->
  join "," (map f l) +:+ String c s = join "," (map f k) +:+ String c t -> l = k /\ s = t.
Proof.
  assert (Hno : forall x r u, starts (f x) -> String c u <> f x +:+ r).
  { intros x r u Hx. destruct (f x) as [|a z]; [done|]. intros [= <- _]. cbn in Hx. congruence. }
  revert k. induction l as [|x l IH]; intros [|y k] Hread Hstart.
  - by intros [= ->].
  - rewrite join_split. intros Heq. by apply Hno in Heq; [|apply Hstart; right; apply list_elem_of_here].
  - rewrite join_split. intros Heq. symmetry in Heq. by apply Hno in Heq; [|apply Hstart; left; apply list_elem_of_here].
  - rewrite !join_split. intros Heq. apply Hread in Heq as [<- Heq]; [|apply list_elem_of_here|apply list_elem_of_here|by destruct l|by destruct k].
    destruct l as [|x' l], k as [|y' k]; [by injection Heq as ->| injection Heq as Hc _; by rewrite Hc in Hcomma
      | injection Heq as Hc _; by rewrite <-Hc in Hcomma|].
    injection Heq as Heq. destruct (IH (y' :: k)) as [<- <-]; [| |exact Heq|done].
    + intros a b u v Ha Hb. apply Hread; by apply list_elem_of_further.
    + intros a [Ha|Ha]; apply Hstart; [left | right]; by apply list_elem_of_further.
Qed.
End Lists.

Section Reading.
Context `{JsonTextLaws}.

Lemma opens_starts s : opens s -> starts s.
Proof. destruct s; [done|]. by intros [? _]. Qed.
Lemma compact_starts v : numbers_ok v = true -> starts (compact_json v).
Proof. destruct v; intros Hv; try done; apply opens_starts, scalar_opens; done. Qed.
Lemma compact_scalar v : is_scalar v = true -> compact_json v = json_scalar v.
Proof. by destruct v. Qed.
Lemma starts_app s t : starts s -> starts (s +:+ t).
Proof. by destruct s. Qed.

(** A scalar's text is not a container's. *)
Lemma scalar_not_container v r u : is_scalar v = true -> numbers_ok v = true ->
  json_scalar v +:+ r <> String "[" u /\ json_scalar v +:+ r <> String "{" u.
Proof.
  intros Hs Hn. pose proof (scalar_opens v Hs Hn) as Ho. destruct (json_scalar v) as [|a z]; [done|].
  destruct Ho as (_ & H1 & H2). split; by intros [= ? _].
Qed.

Definition member_text (e : string * json) : string := json_key e.1 +:+ ":" +:+ compact_json e.2.
Lemma compact_object l : compact_json (JObject l) = "{" +:+ join "," (map member_text l) +:+ "}".
Proof. cbn. erewrite List.map_ext; [reflexivity|]. by intros []. Qed.

Lemma compact_read v : forall w s t, numbers_ok v = true -> numbers_ok w = true -> delimited s -> delimited t ->
  compact_json v +:+ s = compact_json w +:+ t -> v = w /\ s = t.
Proof.
  induction v as [v Hs|l IH|l IH] using json_induction; intros w s t Hv Hw Hds Hdt.
  - rewrite (compact_scalar v Hs). destruct (is_scalar w) eqn:Hsw.
    + rewrite (compact_scalar w Hsw). by apply scalar_read.
    + destruct w; try done; intros Heq; exfalso.
      * exact (proj1 (scalar_not_container v s _ Hs Hv) Heq).
      * rewrite compact_object in Heq. exact (proj2 (scalar_not_container v s _ Hs Hv) Heq).
  - destruct (is_scalar w) eqn:Hsw.
    { rewrite (compact_scalar w Hsw). intros Heq. symmetry in Heq. by destruct (proj1 (scalar_not_container w t _ Hsw Hw) Heq). }
    destruct w as [| | | |k|k]; try done. cbn [compact_json]. rewrite !string_app_assoc. intros [= Heq].
    apply list_read in Heq as [-> ->]; [done|done|done| |].
    + intros x y u z Hx Hy. rewrite List.Forall_forall in IH. cbn in Hv, Hw. rewrite forallb_forall in Hv, Hw.
      rewrite list_elem_of_In in Hx, Hy. apply IH; [exact Hx | by apply Hv | by apply Hw].
    + cbn in Hv, Hw. rewrite forallb_forall in Hv, Hw. intros x Hx. rewrite !list_elem_of_In in Hx.
      apply compact_starts. destruct Hx; [by apply Hv | by apply Hw].
  - destruct (is_scalar w) eqn:Hsw.
    { rewrite (compact_scalar w Hsw), compact_object. intros Heq. symmetry in Heq. by destruct (proj2 (scalar_not_container w t _ Hsw Hw) Heq). }
    destruct w as [| | | |k|k]; try done. rewrite !compact_object, !string_app_assoc. intros [= Heq].
    apply list_read in Heq as [-> ->]; [done|done|done| |].
    + intros [kx x] [ky y] u z Hx Hy Hu Hz. unfold member_text. cbn [fst snd]. rewrite !string_app_assoc.
      intros [-> [= Hxy]]%key_read. rewrite List.Forall_forall in IH. cbn in Hv, Hw. rewrite forallb_forall in Hv, Hw.
      rewrite list_elem_of_In in Hx, Hy.
      destruct (IH _ Hx y u z (Hv _ Hx) (Hw _ Hy) Hu Hz Hxy) as [Hsame ->]. cbn in Hsame. by subst y.
    + intros [kx x] _. apply starts_app, opens_starts, key_opens.
Qed.

Lemma forallb_sorted {A} (g : string * A -> bool) (l : list (string * A)) : forallb g (merge_sort entry_le l) = forallb g l.
Proof. apply forallb_perm, merge_sort_Permutation. Qed.
Lemma numbers_normal v : numbers_ok (normal_json v) = numbers_ok v.
Proof.
  induction v as [v Hs|l IH|l IH] using json_induction; [by destruct v| |]; cbn.
  - induction IH as [|v l Hv _ IH]; [done|]. cbn. by rewrite Hv, IH.
  - rewrite forallb_sorted. induction IH as [|e l He _ IH]; [done|]. cbn. by rewrite He, IH.
Qed.

(** Equal texts have the same normal form. *)
Lemma canonical_read v w : numbers_ok v = true -> numbers_ok w = true ->
  canonical_json v = canonical_json w -> normal_json v = normal_json w.
Proof.
  intros Hv Hw Heq. rewrite !canonical_normal in Heq.
  apply (f_equal (fun x => x +:+ "")) in Heq. rewrite <-numbers_normal in Hv, Hw.
  by destruct (compact_read _ _ "" "" Hv Hw I I Heq).
Qed.
End Reading.

(** ** Members of normal forms *)

Lemma json_get_elem (k : string) (l : list (string * json)) v :
  NoDup (map fst l) -> json_get k (JObject l) = Some v <-> (k, v) ∈ l.
Proof.
  intros Hn. cbn [json_get]. split.
  - intros (e & Hf & ->)%fmap_Some. apply find_some in Hf as [Hin Hk%bool_decide_eq_true]. rewrite <-Hk, <-surjective_pairing.
    by apply list_elem_of_In.
  - intros Hin. destruct (List.find _ l) as [e|] eqn:Hf.
    + apply find_some in Hf as [Hin' Hk%bool_decide_eq_true]. apply list_elem_of_In in Hin'.
      by rewrite (NoDup_fst_inj l e (k, v) Hn Hin' Hin Hk).
    + pose proof (find_none _ _ Hf (k, v)) as Hno. cbn in Hno. apply list_elem_of_In in Hin. apply Hno in Hin.
      by rewrite bool_decide_true in Hin.
Qed.

Lemma json_get_perm k (l l' : list (string * json)) : NoDup (map fst l) -> l ≡ₚ l' -> json_get k (JObject l) = json_get k (JObject l').
Proof.
  intros Hn Hp. assert (Hn' : NoDup (map fst l')) by (by rewrite <-Hp). apply option_eq. intros v.
  by rewrite !json_get_elem, Hp.
Qed.

Lemma json_get_map k (g : json -> json) (l : list (string * json)) :
  json_get k (JObject (map (fun e => (e.1, g e.2)) l)) = g <$> json_get k (JObject l).
Proof. cbn [json_get]. induction l as [|e l IH]; [done|]. cbn [map List.find fst]. by case_bool_decide. Qed.

Lemma json_get_normal k (l : list (string * json)) : NoDup (map fst l) ->
  json_get k (normal_json (JObject l)) = normal_json <$> json_get k (JObject l).
Proof.
  intros Hn. cbn [normal_json]. rewrite <-json_get_map. symmetry. apply json_get_perm; [|symmetry; apply merge_sort_Permutation].
  rewrite List.map_map. exact Hn.
Qed.

(** ** A writer that obeys the laws *)

Module Writer.
Definition quote_mark : ascii := ascii_of_N 34.
Definition backslash : ascii := ascii_of_N 92.
Fixpoint escaped (s : string) : string :=
  match s with
  | EmptyString => EmptyString
  | String a s => if Ascii.eqb a quote_mark || Ascii.eqb a backslash then String backslash (String a (escaped s)) else String a (escaped s)
  end.
Definition quoted (s : string) : string := String quote_mark (escaped s +:+ String quote_mark "").
#[export] Instance quoting_text : JsonText := {|
  json_scalar v := match v with
    | JNull => "null" | JBool true => "true" | JBool false => "false" | JNumber n => n | JString s => quoted s
    | JArray _ | JObject _ => "" end;
  json_key := quoted |}.

Lemma escaped_head y b : exists c z, escaped (String y b) = String c z /\ c <> quote_mark.
Proof.
  cbn [escaped]. destruct (Ascii.eqb y quote_mark || Ascii.eqb y backslash) eqn:Hy; eexists _, _; (split; [reflexivity|]); [done|].
  apply orb_false_iff in Hy as [Hy _]. by apply Ascii.eqb_neq.
Qed.
Lemma escaped_read a b s t : escaped a +:+ String quote_mark s = escaped b +:+ String quote_mark t -> a = b /\ s = t.
Proof.
  revert b. induction a as [|x a IH]; intros [|y b].
  - by intros [= ->].
  - destruct (escaped_head y b) as (c & z & -> & Hc). by intros [= <- _].
  - destruct (escaped_head x a) as (c & z & -> & Hc). by intros [= -> _].
  - cbn [escaped]. destruct (Ascii.eqb x quote_mark || Ascii.eqb x backslash) eqn:Hx, (Ascii.eqb y quote_mark || Ascii.eqb y backslash) eqn:Hy;
      cbn [String.append].
    + intros [= -> [-> ->]%IH]. done.
    + intros [= <- _]. by rewrite Ascii.eqb_refl, orb_true_r in Hy.
    + intros [= -> _]. by rewrite Ascii.eqb_refl, orb_true_r in Hx.
    + intros [= -> [-> ->]%IH]. done.
Qed.
Lemma quoted_app a s : quoted a +:+ s = String quote_mark (escaped a +:+ String quote_mark s).
Proof.
  change (String quote_mark ((escaped a +:+ String quote_mark "") +:+ s) = String quote_mark (escaped a +:+ String quote_mark s)).
  by rewrite string_app_assoc.
Qed.
Lemma quoted_read a b s t : quoted a +:+ s = quoted b +:+ t -> a = b /\ s = t.
Proof. rewrite !quoted_app. intros Heq. injection Heq as Heq. exact (escaped_read _ _ _ _ Heq). Qed.

Lemma number_char_opens a : number_char a = true -> closer a = false /\ a <> "["%char /\ a <> "{"%char
  /\ a <> quote_mark /\ a <> "n"%char /\ a <> "t"%char /\ a <> "f"%char.
Proof. destruct a as [[] [] [] [] [] [] [] []]; vm_compute; intros; try discriminate; split_and!; discriminate || reflexivity. Qed.
Lemma number_read n m s t : string_forall number_char n = true -> string_forall number_char m = true ->
  delimited s -> delimited t -> n +:+ s = m +:+ t -> n = m /\ s = t.
Proof.
  revert m. induction n as [|a n IH]; intros [|b m]; cbn; intros Hn Hm Hs Ht.
  - done.
  - intros Heq. change (s = String b (m +:+ t)) in Heq. subst s. apply andb_true_iff in Hm as [Hb _]. cbn in Hs.
    destruct (number_char_opens b Hb); congruence.
  - intros Heq. change (String a (n +:+ s) = t) in Heq. subst t. apply andb_true_iff in Hn as [Ha _]. cbn in Ht.
    destruct (number_char_opens a Ha); congruence.
  - apply andb_true_iff in Hn as [_ Hn], Hm as [_ Hm]. intros [= -> Heq]. by destruct (IH m Hn Hm Hs Ht Heq) as [-> ->].
Qed.
Lemma number_starts n : number_ok n = true -> exists a r, n = String a r /\ number_char a = true.
Proof.
  unfold number_ok. destruct n as [|a r]; [done|]. intros [_ [Ha _]%andb_true_iff]%andb_true_iff. by exists a, r.
Qed.

#[export] Instance quoting_laws : JsonTextLaws.
Proof.
  split.
  - intros [| |n| | |]; cbn; try done; intros _; [by destruct b|]. intros (a & r & -> & Ha)%number_starts.
    by destruct (number_char_opens a Ha) as (? & ? & ? & _).
  - intros v w s t Hv Hw Hnv Hnw Hs Ht.
    assert (Hnum : forall n r u, number_ok n = true -> n +:+ r = u -> match u with String c _ => number_char c = true | _ => False end).
    { intros n r u (a & z & -> & Ha)%number_starts <-. exact Ha. }
    destruct v as [|[]|n|x| |], w as [|[]|m|y| |]; try done; cbn [json_scalar quoting_text]; cbn in Hnv, Hnw; intros Heq;
      try (injection Heq as Heq; subst; done); try discriminate Heq;
      try (apply Hnum in Heq; [vm_compute in Heq; discriminate Heq | done]);
      try (symmetry in Heq; apply Hnum in Heq; [vm_compute in Heq; discriminate Heq | done]).
    + destruct (andb_prop _ _ Hnv) as [_ Hn], (andb_prop _ _ Hnw) as [_ Hm]. by destruct (number_read n m s t Hn Hm Hs Ht Heq) as [-> ->].
    + apply quoted_read in Heq as [-> ->]. done.
  - intros k. cbn. split_and!; [reflexivity | discriminate | discriminate].
  - apply quoted_read.
Qed.
End Writer.
