(* ===== verification/Dag.v ===== *)
(** * Topological ordering of a dependency graph

    The kernel that [VerificationGraph::topological_order]
    (crates/genegis-contract/src/verification.rs) and
    [GeoWorkflow::topological_order] (crates/genegis-workflow/src/graph.rs) both
    spell out: Kahn's algorithm on an adjacency map and an in-degree map, with a
    [BTreeSet] of ready nodes whose first element is popped. A panic of the code
    (a missing key, a decrement below zero) is [None]. *)

From S2P Require Import Prelude RustStd.

Section Dag.
Implicit Types (ids ready X : gset string) (adj : gmap string (gset string))
  (indegree : gmap string nat) (order l : list string) (x c d : string).

(** ** The algorithm *)

(** [children.get(&id)], iterated; a missing key has no children. *)
Definition children_of adj x : gset string := default ∅ (adj !! x).

(** [BTreeSet::pop_first] *)
Definition pop_first X : option (string * gset string) :=
  match str_iter X with
  | [] => None
  | x :: _ => Some (x, X ∖ {[x]})
  end.

(** [*degree -= 1; if *degree == 0 { ready.insert(child) }] for every child *)
Fixpoint relax (children : list string) indegree ready
    : option (gmap string nat * gset string) :=
  match children with
  | [] => Some (indegree, ready)
  | c :: children =>
      match indegree !! c with
      | Some (S degree) =>
          relax children (<[c := degree]> indegree)
            (if bool_decide (degree = O) then {[c]} ∪ ready else ready)
      | _ => None
      end
  end.

(** [while let Some(id) = ready.pop_first() { order.push(id); ... }] *)
Fixpoint kahn_loop (fuel : nat) adj indegree ready order
    : option (list string * gmap string nat) :=
  match fuel with
  | O => None
  | S fuel =>
      match pop_first ready with
      | None => Some (order, indegree)
      | Some (x, ready) =>
          '(indegree, ready) ← relax (str_iter (children_of adj x)) indegree ready;
          kahn_loop fuel adj indegree ready (order ++ [x])
      end
  end.

(** The nodes of in-degree zero *)
Definition initial_ready indegree : gset string :=
  dom (filter (fun '(_, degree) => degree = O) indegree).

Definition kahn ids adj indegree : option (list string * gmap string nat) :=
  kahn_loop (S (size ids)) adj indegree (initial_ready indegree) [].

(** [indegree.into_iter().filter_map(|(id, degree)| (degree > 0).then_some(id))] *)
Definition positive_degree indegree : list string :=
  str_iter (dom (filter (fun '(_, degree) => (0 < degree)%nat) indegree)).

(** ** The graph and its orders *)

Definition edge adj d c : Prop := c ∈ children_of adj d.

#[local] Instance edge_dec adj d c : Decision (edge adj d c).
Proof. unfold edge. apply _. Defined.

(** The predecessors of [c] within [X] *)
Definition preds adj X c : gset string := filter (fun d => edge adj d c) X.

(** Edges connect known nodes and the in-degrees count them. *)
Definition dag_wf ids adj indegree : Prop :=
  dom indegree = ids
  /\ (forall d c, edge adj d c -> d ∈ ids /\ c ∈ ids)
  /\ (forall c, c ∈ ids -> indegree !! c = Some (size (preds adj ids c))).

(** [c] may follow the nodes of [l]: it is new and its dependencies are done. *)
Definition available ids adj l c : Prop :=
  c ∈ ids /\ c ∉ l /\ forall d, edge adj d c -> d ∈ l.

(** The deterministic schedule: always the least available node. *)
Definition greedy ids adj l : Prop :=
  forall l1 c l2, l = l1 ++ c :: l2 ->
  available ids adj l1 c /\ forall c', available ids adj l1 c' -> String.le c c'.

(** [l] respects the dependencies. *)
Definition topological adj l : Prop :=
  forall l1 c l2, l = l1 ++ c :: l2 -> forall d, edge adj d c -> d ∈ l1.

Definition cyclic adj : Prop := exists x, tc (edge adj) x x.

(** ** Building the maps *)

(** [children.entry(d).or_default().insert(c)] and, when the edge is new, the
    increment of the in-degree of [c]. *)
Definition add_edge d c (g : gmap string (gset string) * gmap string nat)
    : option (gmap string (gset string) * gmap string nat) :=
  let '(adj, indegree) := g in
  let adj' := <[d := {[c]} ∪ children_of adj d]> adj in
  if bool_decide (c ∈ children_of adj d) then Some (adj', indegree)
  else degree ← indegree !! c; Some (adj', <[c := S degree]> indegree).

(** The map [id -> 0] over all identifiers *)
Definition zero_degrees ids : gmap string nat := set_to_map (fun x => (x, O)) ids.
End Dag.
#[export] Existing Instance edge_dec.

(** ** Lemmas on lists and prefixes *)

Lemma snoc_split {A} (l : list A) x l1 c l2 :
  l ++ [x] = l1 ++ c :: l2 -> (l2 = [] /\ l1 = l /\ c = x) \/ exists l2', l = l1 ++ c :: l2'.
Proof.
  destruct l2 as [|y l2 _] using rev_ind.
  - intros [-> [= ->]]%app_inj_tail. by left.
  - rewrite app_comm_cons, app_assoc. intros [-> _]%app_inj_tail. right. by exists l2.
Qed.

Section Theory.
Implicit Types (ids ready X : gset string) (adj : gmap string (gset string))
  (indegree : gmap string nat) (order l : list string) (x c d : string).

Lemma elem_of_preds adj X c d : d ∈ preds adj X c <-> d ∈ X /\ edge adj d c.
Proof. unfold preds. rewrite elem_of_filter. tauto. Qed.

Lemma greedy_nil ids adj : greedy ids adj [].
Proof. intros [|? ?] c l2; discriminate. Qed.

Lemma greedy_snoc ids adj l x :
  greedy ids adj l -> available ids adj l x ->
  (forall y, available ids adj l y -> String.le x y) ->
  greedy ids adj (l ++ [x]).
Proof.
  intros Hg Hx Hmin l1 c l2 [(-> & -> & ->) | [l2' ->]]%snoc_split; [done|].
  by apply (Hg l1 c l2').
Qed.

Lemma greedy_topological ids adj l : greedy ids adj l -> topological adj l.
Proof. intros Hg l1 c l2 Heq. by destruct (Hg l1 c l2 Heq) as [(_ & _ & ?) _]. Qed.

Lemma greedy_elem ids adj l x :
  greedy ids adj l -> x ∈ l -> x ∈ ids /\ forall d, edge adj d x -> d ∈ l.
Proof.
  intros Hg (l1 & l2 & ->)%list_elem_of_split.
  destruct (Hg l1 x l2 eq_refl) as [(? & _ & Hd) _]. split; [done|].
  intros d ?. rewrite elem_of_app. left. auto.
Qed.

Lemma greedy_prefix ids adj l k : greedy ids adj (l ++ k) -> greedy ids adj l.
Proof.
  intros Hg l1 c l2 ->. apply (Hg l1 c (l2 ++ k)). by rewrite <-app_assoc.
Qed.

Lemma greedy_NoDup ids adj l : greedy ids adj l -> NoDup l.
Proof.
  induction l as [|x l IH] using rev_ind; intros Hg; [constructor|].
  apply NoDup_app. split_and!; [|..].
  - apply IH. by eapply greedy_prefix.
  - intros y Hy ->%list_elem_of_singleton.
    by destruct (Hg l x [] eq_refl) as [(_ & ? & _) _].
  - apply NoDup_singleton.
Qed.

(** A schedule is determined by the graph: two greedy lists agree as far as
    both go, so a complete one is unique. *)
Lemma greedy_unique ids adj l k :
  greedy ids adj l -> greedy ids adj k -> length l = length k -> l = k.
Proof.
  revert k. induction l as [|x l IH] using rev_ind; intros k Hl Hk Hlen.
  { by destruct k. }
  destruct k as [|y k _] using rev_ind; [by rewrite length_app in Hlen; simpl in *; lia|].
  rewrite !length_app in Hlen; simpl in Hlen.
  assert (l = k) as ->.
  { apply IH; [by eapply greedy_prefix..|lia]. }
  destruct (Hl k x [] eq_refl) as [Hx Hxm]. destruct (Hk k y [] eq_refl) as [Hy Hym].
  f_equal. f_equal. apply (anti_symm String.le); auto.
Qed.

Lemma greedy_ext ids adj adj' l :
  (forall d c, edge adj d c <-> edge adj' d c) -> greedy ids adj l -> greedy ids adj' l.
Proof.
  intros He Hg l1 c l2 Heq. destruct (Hg l1 c l2 Heq) as [(H1 & H2 & H3) Hmin].
  split; [split_and!; [done..|]; intros d Hd%He; auto|].
  intros c' (H1' & H2' & H3'). apply Hmin. split_and!; [done..|]. intros d Hd%He. auto.
Qed.

(** ** One relaxation of the children of a popped node *)

Lemma relax_spec l indegree ready :
  NoDup l -> (forall c, c ∈ l -> exists n, indegree !! c = Some (S n)) ->
  exists indegree' ready', relax l indegree ready = Some (indegree', ready')
    /\ (forall x, indegree' !! x = if decide (x ∈ l) then pred <$> indegree !! x else indegree !! x)
    /\ (forall x, x ∈ ready' <-> x ∈ ready \/ (x ∈ l /\ indegree !! x = Some 1%nat)).
Proof.
  revert indegree ready. induction l as [|c l IH]; intros ind ready Hnd Hpos; simpl.
  { exists ind, ready. split_and!; [done|done|set_solver]. }
  apply NoDup_cons in Hnd as [Hc Hnd].
  destruct (Hpos c) as [n Hn]; [set_solver|]. rewrite Hn.
  set (ready1 := if bool_decide (n = O) then {[c]} ∪ ready else ready).
  destruct (IH (<[c := n]> ind) ready1) as (ind' & ready' & Hr & Hi & Hrd); [done| |].
  { intros c' Hc'. rewrite lookup_insert_ne by set_solver. apply Hpos. set_solver. }
  exists ind', ready'. split_and!; [done| |].
  - intros x. rewrite Hi. destruct (decide (x = c)) as [->|Hx].
    + rewrite decide_False, decide_True, lookup_insert_eq, Hn by set_solver. done.
    + rewrite lookup_insert_ne by done.
      destruct (decide (x ∈ l)); [rewrite decide_True by set_solver; done|].
      rewrite decide_False by set_solver. done.
  - intros x. rewrite Hrd, elem_of_cons. unfold ready1.
    destruct (decide (x = c)) as [->|Hx].
    + rewrite Hn. destruct n; [rewrite bool_decide_true | rewrite bool_decide_false]; set_solver.
    + rewrite lookup_insert_ne by done. destruct (bool_decide _); set_solver.
Qed.

(** ** The loop *)

Definition remaining ids order : gset string := ids ∖ list_to_set order.

Definition loop_inv ids adj order ready indegree : Prop :=
  dom indegree = ids
  /\ greedy ids adj order
  /\ (forall c, c ∈ ids -> indegree !! c = Some (size (preds adj (remaining ids order) c)))
  /\ (forall x, x ∈ ready <-> available ids adj order x).

Lemma preds_pop adj ids order x c :
  x ∈ remaining ids order -> edge adj x c ->
  size (preds adj (remaining ids order) c)
  = S (size (preds adj (remaining ids (order ++ [x])) c)).
Proof.
  intros Hx He.
  assert (preds adj (remaining ids order) c
    = {[x]} ∪ preds adj (remaining ids (order ++ [x])) c) as ->.
  { apply set_eq. intros d. rewrite elem_of_union, !elem_of_preds. unfold remaining in *.
    rewrite list_to_set_app_L. destruct (decide (d = x)); set_solver. }
  rewrite size_union, size_singleton; [done|].
  intros d Hd%elem_of_singleton. subst d. rewrite elem_of_preds. unfold remaining.
  rewrite list_to_set_app_L. set_solver.
Qed.

Lemma preds_keep adj ids order x c :
  ~ edge adj x c ->
  preds adj (remaining ids (order ++ [x])) c = preds adj (remaining ids order) c.
Proof.
  intros He. apply set_eq. intros d. rewrite !elem_of_preds. unfold remaining.
  rewrite list_to_set_app_L. destruct (decide (d = x)) as [->|]; set_solver.
Qed.

Lemma size_one_pred adj ids order c x d :
  size (preds adj (remaining ids order) c) = 1%nat ->
  x ∈ remaining ids order -> edge adj x c ->
  d ∈ remaining ids order -> edge adj d c -> d = x.
Proof.
  intros Hs Hx Hxe Hd Hde. apply size_1_elem_of in Hs as [y Hy].
  assert (Hin : forall z, z ∈ remaining ids order -> edge adj z c -> z = y).
  { intros z Hz Hze. assert (Hzy : z ∈ ({[y]} : gset string)).
    { rewrite <-Hy. by apply elem_of_preds. }
    by apply elem_of_singleton in Hzy. }
  by rewrite (Hin x), (Hin d).
Qed.

(** Which nodes become available when [x] is scheduled *)
Lemma available_pop ids adj order x y :
  (forall d c, edge adj d c -> d ∈ ids /\ c ∈ ids) ->
  greedy ids adj order -> available ids adj order x ->
  available ids adj (order ++ [x]) y <->
  (y <> x /\ available ids adj order y)
  \/ (edge adj x y /\ size (preds adj (remaining ids order) y) = 1%nat).
Proof.
  intros Hids Hg (Hx & Hxo & Hxd).
  assert (Hxr : x ∈ remaining ids order).
  { unfold remaining. rewrite elem_of_difference, elem_of_list_to_set. done. }
  split.
  - intros (Hy & Hyo & Hyd). rewrite elem_of_app, list_elem_of_singleton in Hyo.
    destruct (decide (edge adj x y)) as [He|He].
    + right. split; [done|]. rewrite (preds_pop adj ids order x y) by done. f_equal.
      apply size_empty_iff, elem_of_equiv_empty. intros d [Hdr Hde]%elem_of_preds.
      specialize (Hyd d Hde). unfold remaining in Hdr. set_solver.
    + left. split; [tauto|]. split_and!; [done|tauto|]. intros d Hd.
      specialize (Hyd d Hd). rewrite elem_of_app, list_elem_of_singleton in Hyd.
      destruct Hyd as [? | ->]; done.
  - intros [[Hne (Hy & Hyo & Hyd)] | [He Hs]].
    + split_and!; [done|set_solver|]. intros d Hd. rewrite elem_of_app. left. auto.
    + split_and!; [by apply (Hids x y)| |].
      * rewrite elem_of_app, list_elem_of_singleton. intros [Hyo | ->].
        -- apply Hxo. by apply (greedy_elem ids adj order y).
        -- apply Hxo. auto.
      * intros d Hd. rewrite elem_of_app, list_elem_of_singleton.
        destruct (decide (d ∈ order)) as [|Hdo]; [by left | right].
        eapply (size_one_pred adj ids order y); try done.
        unfold remaining. rewrite elem_of_difference, elem_of_list_to_set.
        split; [by apply (Hids d y) | done].
Qed.

Lemma pop_first_some X x X' :
  pop_first X = Some (x, X') -> x ∈ X /\ X' = X ∖ {[x]} /\ forall y, y ∈ X -> String.le x y.
Proof.
  unfold pop_first. pose proof (sorted_btree_iter String.le X) as Hs.
  pose proof (elem_of_btree_iter String.le X) as Hin.
  destruct (str_iter X) as [|z l]; [done|]. intros [= -> <-].
  apply StronglySorted_inv in Hs as [_ Hf]. rewrite Forall_forall in Hf.
  split_and!; [apply Hin; set_solver | done |].
  intros y Hy%Hin%elem_of_cons. destruct Hy as [->|Hy]; [reflexivity | auto].
Qed.

Lemma pop_first_none X : pop_first X = None -> X = ∅.
Proof.
  unfold pop_first. pose proof (elem_of_btree_iter String.le X) as Hin.
  destruct (str_iter X) as [|z l]; [|done]. intros _. set_solver.
Qed.

Lemma loop_inv_step ids adj order ready ready1 x indegree :
  (forall d c, edge adj d c -> d ∈ ids /\ c ∈ ids) ->
  loop_inv ids adj order ready indegree -> pop_first ready = Some (x, ready1) ->
  exists indegree' ready',
    relax (str_iter (children_of adj x)) indegree ready1 = Some (indegree', ready')
    /\ loop_inv ids adj (order ++ [x]) ready' indegree'.
Proof.
  intros Hids (Hdom & Hg & Hdeg & Hready) Hpop.
  apply pop_first_some in Hpop as (Hx & -> & Hmin).
  pose proof (proj1 (Hready x) Hx) as Hxa. destruct Hxa as (Hxi & Hxo & Hxd).
  assert (Hxr : x ∈ remaining ids order).
  { unfold remaining. rewrite elem_of_difference, elem_of_list_to_set. done. }
  assert (Hch : forall c, c ∈ str_iter (children_of adj x) <-> edge adj x c).
  { intros c. by rewrite elem_of_btree_iter. }
  destruct (relax_spec (str_iter (children_of adj x)) indegree (ready ∖ {[x]}))
    as (ind' & ready' & Hr & Hi & Hrd).
  { apply NoDup_btree_iter. }
  { intros c Hc%Hch. exists (size (preds adj (remaining ids (order ++ [x])) c)).
    rewrite Hdeg by (by apply (Hids x c)). by rewrite (preds_pop adj ids order x c). }
  exists ind', ready'. split; [done|]. split_and!.
  - apply set_eq. intros c. rewrite <-Hdom, !elem_of_dom, Hi.
    destruct (decide _); [by rewrite fmap_is_Some | done].
  - apply greedy_snoc; [done..|]. intros y Hy. apply Hmin. by apply Hready.
  - intros c Hc. rewrite Hi. destruct (decide _) as [He|He].
    + apply Hch in He. rewrite Hdeg by done. by rewrite (preds_pop adj ids order x c).
    + rewrite preds_keep; [by apply Hdeg|]. by rewrite <-Hch.
  - intros y. rewrite Hrd, Hch.
    rewrite (available_pop ids adj order x y) by (split_and?; done).
    rewrite elem_of_difference, not_elem_of_singleton, Hready.
    split; (intros [?|[He Hs]]; [left; tauto | right; split; [done|]]).
    + rewrite Hdeg in Hs by (by apply (Hids x y)). congruence.
    + rewrite Hdeg by (by apply (Hids x y)). by rewrite Hs.
Qed.

Lemma greedy_length ids adj l : greedy ids adj l -> (length l <= size ids)%nat.
Proof.
  intros Hg. rewrite <-(size_list_to_set (C:=gset string)) by (by eapply greedy_NoDup).
  apply subseteq_size. intros x Hx%elem_of_list_to_set. by eapply greedy_elem.
Qed.

(** The loop ends within [size ids - length order + 1] iterations. *)
Lemma kahn_loop_spec ids adj fuel order ready indegree :
  (forall d c, edge adj d c -> d ∈ ids /\ c ∈ ids) ->
  loop_inv ids adj order ready indegree -> (size ids < fuel + length order)%nat ->
  exists order' indegree', kahn_loop fuel adj indegree ready order = Some (order', indegree')
    /\ loop_inv ids adj order' ∅ indegree'.
Proof.
  intros Hids. revert order ready indegree.
  induction fuel as [|fuel IH]; intros order ready indegree Hinv Hfuel.
  { destruct Hinv as (_ & Hg & _). apply greedy_length in Hg. simpl in Hfuel. lia. }
  simpl. destruct (pop_first ready) as [[x ready1]|] eqn:Hpop.
  - destruct (loop_inv_step _ _ _ _ _ _ _ Hids Hinv Hpop) as (ind' & ready' & -> & Hinv').
    apply IH; [done|]. rewrite length_app. simpl. lia.
  - apply pop_first_none in Hpop as ->. eauto.
Qed.

Lemma kahn_spec ids adj indegree :
  dag_wf ids adj indegree ->
  exists order indegree', kahn ids adj indegree = Some (order, indegree')
    /\ loop_inv ids adj order ∅ indegree'.
Proof.
  intros (Hdom & Hids & Hdeg). apply kahn_loop_spec; [done| |simpl; lia].
  assert (Hrem : remaining ids [] = ids) by (unfold remaining; set_solver).
  split_and!; [done | apply greedy_nil | by rewrite Hrem |].
  intros x. unfold initial_ready. rewrite elem_of_dom. unfold is_Some.
  setoid_rewrite map_lookup_filter_Some. split.
  - intros (n & Hx & ->). assert (Hxi : x ∈ ids) by (rewrite <-Hdom; by apply elem_of_dom_2 in Hx).
    split_and!; [done | set_solver |]. intros d Hd. rewrite Hdeg in Hx by done.
    injection Hx as Hx. apply size_empty_inv in Hx.
    assert (Hdp : d ∈ preds adj ids x) by (apply elem_of_preds; split; [by apply (Hids d x) | done]).
    set_solver.
  - intros (Hx & _ & Hd). exists O. rewrite Hdeg by done. split; [|done]. f_equal.
    apply size_empty_iff, elem_of_equiv_empty. intros d [_ He]%elem_of_preds.
    specialize (Hd d He). by apply not_elem_of_nil in Hd.
Qed.

(** ** What is left over is what hangs on a cycle *)

Lemma greedy_ancestors ids adj x z :
  tc (edge adj) x z -> forall l1 l2, greedy ids adj (l1 ++ z :: l2) -> x ∈ l1.
Proof.
  induction 1 as [x z He | x y z He _ IH]; intros l1 l2 Hg.
  - destruct (Hg l1 z l2 eq_refl) as [(_ & _ & Hd) _]. auto.
  - specialize (IH l1 l2 Hg). apply list_elem_of_split in IH as (a & b & ->).
    rewrite <-app_assoc in Hg. simpl in Hg.
    destruct (Hg a y (b ++ z :: l2) eq_refl) as [(_ & _ & Hd) _].
    rewrite elem_of_app. left. auto.
Qed.

Lemma greedy_no_cycle ids adj l x : greedy ids adj l -> x ∈ l -> ~ tc (edge adj) x x.
Proof.
  intros Hg (l1 & l2 & ->)%list_elem_of_split Hc.
  pose proof (greedy_ancestors ids adj x x Hc l1 l2 Hg) as Hin.
  apply greedy_NoDup, NoDup_app in Hg as (_ & Hd & _).
  apply (Hd x Hin). set_solver.
Qed.

Lemma greedy_upstream ids adj l x y : greedy ids adj l -> rtc (edge adj) x y -> y ∈ l -> x ∈ l.
Proof.
  intros Hg Hr. induction Hr as [|a b c He _ IH]; [done|]. intros Hc.
  destruct (greedy_elem ids adj l b Hg (IH Hc)) as [_ Hd]. auto.
Qed.

(** Walking backwards inside a finite set without a source runs into a cycle. *)
Lemma backward_cycle adj (S : gset string) n : forall (V : gset string) y x,
  (forall z, z ∈ S -> exists d, d ∈ S /\ edge adj d z) ->
  (size (S ∖ V) <= n)%nat -> y ∈ S -> y ∉ V ->
  rtc (edge adj) y x -> (forall v, v ∈ V -> rtc (edge adj) y v) ->
  exists c, tc (edge adj) c c /\ rtc (edge adj) c x.
Proof.
  induction n as [|n IH]; intros V y x Hsrc Hn Hy HyV Hyx HV.
  { exfalso. assert (S ∖ V ≡ ∅) by (apply size_empty_iff; lia). set_solver. }
  destruct (Hsrc y Hy) as (d & Hd & Hdy).
  destruct (decide (d = y)) as [->|Hne].
  { exists y. split; [by apply tc_once | done]. }
  destruct (decide (d ∈ V)) as [HdV|HdV].
  { exists y. split; [|done]. eapply tc_rtc_l; [by apply HV | by apply tc_once]. }
  apply (IH ({[y]} ∪ V) d x); [done| |done|set_solver| |].
  - assert (Hlt : (size (S ∖ ({[y]} ∪ V)) < size (S ∖ V))%nat).
    { apply subset_size. split; [set_solver|]. intros Hs. specialize (Hs y). set_solver. }
    lia.
  - by eapply rtc_l.
  - intros v [->%elem_of_singleton|Hv]%elem_of_union; [by apply rtc_once|].
    eapply rtc_l; [done | by apply HV].
Qed.

Lemma remaining_source ids adj order indegree z :
  (forall d c, edge adj d c -> d ∈ ids /\ c ∈ ids) ->
  loop_inv ids adj order ∅ indegree -> z ∈ remaining ids order ->
  exists d, d ∈ remaining ids order /\ edge adj d z.
Proof.
  intros Hids (_ & _ & Hdeg & Hready) Hz. unfold remaining in Hz.
  apply elem_of_difference in Hz as [Hzi Hzo]. rewrite elem_of_list_to_set in Hzo.
  destruct (decide (preds adj (remaining ids order) z = ∅)) as [He|He].
  - exfalso. assert (Ha : available ids adj order z); [|by apply Hready in Ha; set_solver].
    split_and!; [done..|]. intros d Hd. destruct (decide (d ∈ order)) as [|Hdo]; [done|].
    assert (d ∈ preds adj (remaining ids order) z); [|set_solver].
    apply elem_of_preds. split; [|done]. unfold remaining.
    rewrite elem_of_difference, elem_of_list_to_set. split; [by apply (Hids d z) | done].
  - apply set_choose_L in He as [d Hd]. exists d. by apply elem_of_preds in Hd.
Qed.

Lemma remaining_iff ids adj order indegree x :
  (forall d c, edge adj d c -> d ∈ ids /\ c ∈ ids) ->
  loop_inv ids adj order ∅ indegree ->
  x ∈ remaining ids order <->
  x ∈ ids /\ exists c, tc (edge adj) c c /\ rtc (edge adj) c x.
Proof.
  intros Hids Hinv. pose proof Hinv as (_ & Hg & _ & _). split.
  - intros Hx. split; [unfold remaining in Hx; set_solver|].
    eapply (backward_cycle adj (remaining ids order) _ ∅ x x); [|done|done|set_solver|done|set_solver].
    intros z. by apply remaining_source with (indegree := indegree).
  - intros (Hx & c & Hc & Hcx). unfold remaining.
    rewrite elem_of_difference, elem_of_list_to_set. split; [done|]. intros Hxo.
    pose proof (greedy_upstream ids adj order c x Hg Hcx Hxo) as Hco.
    by apply (greedy_no_cycle ids adj order c Hg Hco).
Qed.

Lemma elem_of_positive_degree ids adj order indegree x :
  loop_inv ids adj order ∅ indegree -> (forall d c, edge adj d c -> d ∈ ids /\ c ∈ ids) ->
  x ∈ positive_degree indegree <-> x ∈ remaining ids order.
Proof.
  intros Hinv Hids. pose proof Hinv as (Hdom & Hg & Hdeg & _).
  unfold positive_degree. rewrite elem_of_btree_iter, elem_of_dom. unfold is_Some.
  setoid_rewrite map_lookup_filter_Some. split.
  - intros (n & Hx & Hn). assert (Hxi : x ∈ ids) by (rewrite <-Hdom; by apply elem_of_dom_2 in Hx).
    unfold remaining. rewrite elem_of_difference, elem_of_list_to_set. split; [done|].
    intros Hxo. rewrite Hdeg in Hx by done. injection Hx as <-.
    destruct (greedy_elem ids adj order x Hg Hxo) as [_ Hd].
    assert (He : preds adj (remaining ids order) x ≡ ∅).
    { apply elem_of_equiv_empty. intros d [Hdr Hde]%elem_of_preds.
      specialize (Hd d Hde). unfold remaining in Hdr. set_solver. }
    apply size_empty_iff in He. lia.
  - intros Hx. destruct (remaining_source ids adj order indegree x Hids Hinv Hx) as (d & Hd & Hde).
    exists (size (preds adj (remaining ids order) x)). split.
    + apply Hdeg. unfold remaining in Hx. set_solver.
    + assert (Hp : d ∈ preds adj (remaining ids order) x) by by apply elem_of_preds.
      destruct (size (preds adj (remaining ids order) x)) eqn:Hs; [|lia].
      apply size_empty_inv in Hs. set_solver.
Qed.

Lemma remaining_length ids adj order :
  greedy ids adj order -> (length order = size ids <-> remaining ids order = ∅).
Proof.
  intros Hg. pose proof (greedy_NoDup _ _ _ Hg) as Hnd.
  assert (Hsub : (list_to_set order : gset string) ⊆ ids).
  { intros x Hx%elem_of_list_to_set. by eapply greedy_elem. }
  rewrite <-(size_list_to_set (C:=gset string)) by done. unfold remaining. split.
  - intros Hs. assert (list_to_set order = ids) as ->; [|set_solver].
    apply set_eq. intros x. split; [apply Hsub|]. intros Hx.
    destruct (decide (x ∈ (list_to_set order : gset string))) as [|Hn]; [done|].
    assert (Hlt : (size (list_to_set order : gset string) < size ids)%nat); [|lia].
    apply subset_size. split; [done|]. set_solver.
  - intros He. f_equal. apply set_eq. intros x. split; [apply Hsub|]. set_solver.
Qed.

(** What a caller learns from a run: either the complete deterministic
    schedule of an acyclic graph, or exactly the nodes on and below cycles. *)
Lemma kahn_result ids adj indegree :
  dag_wf ids adj indegree ->
  exists order indegree', kahn ids adj indegree = Some (order, indegree')
    /\ greedy ids adj order
    /\ (length order = size ids <-> ~ cyclic adj)
    /\ (length order = size ids -> order ≡ₚ elements ids)
    /\ (forall x, x ∈ positive_degree indegree' <->
        x ∈ ids /\ exists c, tc (edge adj) c c /\ rtc (edge adj) c x).
Proof.
  intros Hwf. pose proof Hwf as (_ & Hids & _).
  destruct (kahn_spec ids adj indegree Hwf) as (order & ind' & Hk & Hinv).
  pose proof Hinv as (_ & Hg & _ & _).
  exists order, ind'. split_and!; [done|done| | |].
  - rewrite (remaining_length ids adj order Hg). split.
    + intros He (c & Hc). assert (Hr : c ∈ remaining ids order); [|set_solver].
      apply (remaining_iff ids adj order ind' c Hids Hinv).
      split; [|by exists c]. inversion Hc as [? ? He'|? ? ? He' _]; subst; by destruct (Hids _ _ He').
    + intros Hac. apply set_eq. intros x. split; [|set_solver]. intros Hx. exfalso.
      apply (remaining_iff ids adj order ind' x Hids Hinv) in Hx as (_ & c & Hc & _).
      apply Hac. by exists c.
  - intros Hl%(remaining_length ids adj order Hg).
    apply NoDup_Permutation; [by eapply greedy_NoDup | apply NoDup_elements |].
    intros x. rewrite elem_of_elements. split; [intros Hx; by destruct (greedy_elem ids adj order x Hg Hx)|].
    intros Hx. destruct (decide (x ∈ order)) as [|Hn]; [done|].
    assert (x ∈ remaining ids order); [|set_solver]. unfold remaining.
    by rewrite elem_of_difference, elem_of_list_to_set.
  - intros x. rewrite (elem_of_positive_degree ids adj order ind' x Hinv Hids).
    by apply (remaining_iff ids adj order ind').
Qed.

(** An adjacency map that represents a relation has its closures. *)
Lemma tc_edge_ext adj (R : relation string) x y :
  (forall d c, edge adj d c <-> R d c) -> tc (edge adj) x y <-> tc R x y.
Proof.
  intros He. split; induction 1 as [a b Hab | a b c Hab _ IH];
    [ apply tc_once | eapply tc_l | apply tc_once | eapply tc_l ]; try apply IH; by apply He.
Qed.

Lemma rtc_edge_ext adj (R : relation string) x y :
  (forall d c, edge adj d c <-> R d c) -> rtc (edge adj) x y <-> rtc R x y.
Proof.
  intros He. split; induction 1 as [| a b c Hab _ IH]; first [done | eapply rtc_l; [|done]]; by apply He.
Qed.

(** ** Building the maps keeps them in step *)

Lemma edge_empty d c : ~ edge ∅ d c.
Proof. unfold edge, children_of. rewrite lookup_empty. simpl. set_solver. Qed.

Lemma zero_degrees_wf ids : dag_wf ids ∅ (zero_degrees ids).
Proof.
  assert (Hl : forall c, c ∈ ids -> zero_degrees ids !! c = Some O).
  { intros c Hc. unfold zero_degrees. apply lookup_set_to_map; [done|]. eauto. }
  split_and!.
  - apply set_eq. intros c. rewrite elem_of_dom. split; [|intros Hc; by rewrite Hl].
    intros [n Hn]. unfold zero_degrees in Hn. apply lookup_set_to_map in Hn; [|done].
    by destruct Hn as (y & Hy & [= <- _]).
  - intros d c He. by apply edge_empty in He.
  - intros c Hc. rewrite Hl by done. f_equal. symmetry.
    apply size_empty_iff, elem_of_equiv_empty. intros d [_ He]%elem_of_preds.
    by apply edge_empty in He.
Qed.

Lemma edge_insert adj d c d' c' :
  edge (<[d := {[c]} ∪ children_of adj d]> adj) d' c'
  <-> edge adj d' c' \/ (d' = d /\ c' = c).
Proof.
  unfold edge, children_of at 1. destruct (decide (d' = d)) as [->|Hd].
  - rewrite lookup_insert_eq. simpl. set_solver.
  - rewrite lookup_insert_ne by done. unfold children_of. naive_solver.
Qed.

Lemma add_edge_wf ids adj indegree d c :
  dag_wf ids adj indegree -> d ∈ ids -> c ∈ ids ->
  exists adj' indegree', add_edge d c (adj, indegree) = Some (adj', indegree')
    /\ dag_wf ids adj' indegree'
    /\ (forall d' c', edge adj' d' c' <-> edge adj d' c' \/ (d' = d /\ c' = c)).
Proof.
  intros (Hdom & Hids & Hdeg) Hd Hc. unfold add_edge.
  set (adj' := <[d := {[c]} ∪ children_of adj d]> adj).
  assert (He : forall d' c', edge adj' d' c' <-> edge adj d' c' \/ (d' = d /\ c' = c)).
  { intros. apply edge_insert. }
  assert (Hids' : forall d c, edge adj' d c -> d ∈ ids /\ c ∈ ids).
  { intros d' c' [?|[-> ->]]%He; [by apply Hids | done]. }
  assert (Hne : forall c', c' <> c -> preds adj' ids c' = preds adj ids c').
  { intros c' Hcc. apply set_eq. intros y. rewrite !elem_of_preds, He. naive_solver. }
  case_bool_decide as Hin.
  - exists adj', indegree. split_and!; [done| |done]. split_and!; [done|done|].
    intros c' Hc'. rewrite Hdeg by done. do 2 f_equal. apply set_eq. intros y.
    rewrite !elem_of_preds, He. split; [tauto|]. intros [? [?|[-> ->]]]; done.
  - rewrite Hdeg by done. simpl.
    exists adj', (<[c := S (size (preds adj ids c))]> indegree). split_and!; [done| |done].
    split_and!; [rewrite dom_insert_L; set_solver | done |].
    intros c' Hc'. destruct (decide (c' = c)) as [->|Hcc].
    + rewrite lookup_insert_eq. f_equal.
      assert (preds adj' ids c = {[d]} ∪ preds adj ids c) as ->.
      { apply set_eq. intros y. rewrite elem_of_union, elem_of_singleton, !elem_of_preds, He.
        naive_solver. }
      rewrite size_union, size_singleton; [done|].
      intros y Hy%elem_of_singleton. subst y. rewrite elem_of_preds. by intros [_ ?].
    + rewrite lookup_insert_ne by done. by rewrite Hne, Hdeg.
Qed.
End Theory.

(** ** Graph searches with a work list

    [GeoWorkflow::topological_order] runs two of them: a breadth-first one with
    a queue and a depth-first one with a stack. Both take the next node, skip it
    when it was seen, and otherwise add its successors; [enqueue rest next]
    says where. [None] is a failed lookup, or fuel that ran out. *)

Section Search.
Context (enqueue : list string -> list string -> list string)
  (successors : string -> option (list string)).

Fixpoint explore (fuel : nat) (work : list string) (seen : gset string) : option (gset string) :=
  match fuel with
  | O => None
  | S fuel =>
      match work with
      | [] => Some seen
      | x :: work =>
          if bool_decide (x ∈ seen) then explore fuel work seen
          else
            next ← successors x;
            explore fuel (enqueue work next) ({[x]} ∪ seen)
      end
  end.

(** Every node is expanded once, so the work list receives at most the
    successors of the nodes not seen yet. *)
Definition degree (x : string) : nat := length (default [] (successors x)).
Definition search_bound (nodes : gset string) (work : list string) (seen : gset string) : nat :=
  length work + sum_list_with degree (elements (nodes ∖ seen)).

Hypothesis enqueue_perm : forall l k, enqueue l k ≡ₚ l ++ k.

Definition step_to (x y : string) : Prop := exists l, successors x = Some l /\ y ∈ l.

Lemma search_bound_expand nodes x work seen l :
  x ∈ nodes -> x ∉ seen -> successors x = Some l ->
  (search_bound nodes (enqueue work l) ({[x]} ∪ seen) < search_bound nodes (x :: work) seen)%nat.
Proof.
  intros Hx Hs Hl. unfold search_bound. rewrite enqueue_perm, length_app. simpl.
  assert (nodes ∖ seen = {[x]} ∪ nodes ∖ ({[x]} ∪ seen)) as ->.
  { apply set_eq. intros y. destruct (decide (y = x)); set_solver. }
  rewrite elements_disj_union by set_solver. rewrite elements_singleton. simpl.
  assert (degree x = length l) as -> by (unfold degree; by rewrite Hl). lia.
Qed.

Lemma explore_spec nodes fuel : forall work seen,
  (forall x, x ∈ nodes -> is_Some (successors x)) ->
  (forall x y, x ∈ nodes -> step_to x y -> y ∈ nodes) ->
  (forall x, x ∈ work -> x ∈ nodes) ->
  (forall x y, x ∈ seen -> step_to x y -> y ∈ seen \/ y ∈ work) ->
  (search_bound nodes work seen < fuel)%nat ->
  exists found, explore fuel work seen = Some found
    /\ seen ⊆ found /\ (forall x, x ∈ work -> x ∈ found)
    /\ (forall x y, x ∈ found -> step_to x y -> y ∈ found)
    /\ (forall y, y ∈ found -> y ∈ seen \/ exists x, x ∈ work /\ rtc step_to x y).
Proof.
  induction fuel as [|fuel IH]; intros work seen Htot Hcl Hw Hs Hf; [lia|]. simpl.
  destruct work as [|x work].
  { exists seen. split_and!; [done|done|set_solver| |by left].
    intros x y Hx Hxy. destruct (Hs x y Hx Hxy) as [|Hn]; [done|]. by apply not_elem_of_nil in Hn. }
  case_bool_decide as Hx.
  - destruct (IH work seen) as (found & He & H1 & H2 & H3 & H4); try done.
    { set_solver. }
    { intros a b Ha Hab. destruct (Hs a b Ha Hab) as [|Hb]; [by left|].
      apply elem_of_cons in Hb as [->|]; [by left | by right]. }
    { unfold search_bound in *. simpl in Hf. lia. }
    exists found. split_and!; [done|done| |done|].
    + intros y [->|Hy]%elem_of_cons; auto.
    + intros y [?|(a & Ha & ?)]%H4; [by left|]. right. exists a. set_solver.
  - assert (Hxn : x ∈ nodes) by (apply Hw; set_solver).
    destruct (Htot x Hxn) as [l Hl]. rewrite Hl. simpl.
    destruct (IH (enqueue work l) ({[x]} ∪ seen)) as (found & He & H1 & H2 & H3 & H4); try done.
    { intros y. rewrite enqueue_perm, elem_of_app. intros [Hy|Hy]; [apply Hw; set_solver|].
      apply (Hcl x y Hxn). by exists l. }
    { intros a b Ha Hab. rewrite enqueue_perm, elem_of_app.
      apply elem_of_union in Ha as [->%elem_of_singleton|Ha].
      - destruct Hab as (l' & Hl' & Hb). rewrite Hl in Hl'. simplify_eq. by right; right.
      - destruct (Hs a b Ha Hab) as [|Hb]; [left; set_solver|].
        apply elem_of_cons in Hb as [->|Hb]; [left; set_solver | by right; left]. }
    { pose proof (search_bound_expand nodes x work seen l Hxn Hx Hl). lia. }
    exists found. split_and!; [done|set_solver| |done|].
    + intros y [->|Hy]%elem_of_cons; [set_solver|]. apply H2.
      rewrite enqueue_perm, elem_of_app. by left.
    + intros y [Hy|(a & Ha & Hay)]%H4.
      * apply elem_of_union in Hy as [->%elem_of_singleton|Hy]; [|by left].
        right. exists x. split; [set_solver | done].
      * rewrite enqueue_perm, elem_of_app in Ha. right. destruct Ha as [Ha|Ha].
        -- exists a. split; [set_solver | done].
        -- exists x. split; [set_solver|]. eapply rtc_l; [by exists l | done].
Qed.

(** From an empty [seen]: the nodes reachable from the work list. *)
Lemma explore_reachable nodes work :
  (forall x, x ∈ nodes -> is_Some (successors x)) ->
  (forall x y, x ∈ nodes -> step_to x y -> y ∈ nodes) ->
  (forall x, x ∈ work -> x ∈ nodes) ->
  exists found, explore (S (search_bound nodes work ∅)) work ∅ = Some found
    /\ forall y, y ∈ found <-> exists x, x ∈ work /\ rtc step_to x y.
Proof.
  intros Htot Hcl Hw.
  destruct (explore_spec nodes (S (search_bound nodes work ∅)) work ∅)
    as (found & He & _ & H2 & H3 & H4); [done|done|done|set_solver|lia|].
  exists found. split; [done|]. intros y. split.
  - intros [Hy|]%H4; [set_solver | done].
  - intros (x & Hx & Hr). specialize (H2 x Hx). clear Hx He H4.
    induction Hr as [|a b c Hab _ IH]; [done|]. apply IH. by eapply H3.
Qed.
End Search.
