(* ===== verification/VerificationGraph.v ===== *)
(** * Verification graphs (crates/genegis-contract/src/verification.rs)

    A DAG of claims and verifiers: structural validation, binding to a policy,
    deterministic ordering and an order-independent digest. [None] is a panic of
    the code; [topological_order_total] shows there is none. *)

From S2P Require Import Prelude RustStd Json Dag GeoContract Assurance TrustPolicy.
Local Open Scope N_scope.

Definition VERIFICATION_GRAPH_SCHEMA_VERSION : string := "0.1.0".

(** ** Data *)

Record VerifierIdentity := mkVerifierIdentity {
  verifier_id : string;
  engine : string;
  implementation : string;
  vi_independence : IndependenceClass }.

Record VerificationNode := mkVerificationNode {
  check_id : string;
  claim : string;
  subject_contracts : list string;
  evidence_inputs : list string;
  verifier : VerifierIdentity;
  tolerance : option QualityTolerance;
  depends_on : list string }.

Record VerificationGraph := mkVerificationGraph {
  vg_schema_version : string;
  graph_id : string;
  nodes : list VerificationNode }.

(** [VerificationGraph::new] *)
Definition graph_new (graph_id : string) : VerificationGraph :=
  {| vg_schema_version := VERIFICATION_GRAPH_SCHEMA_VERSION; graph_id := graph_id; nodes := [] |}.

Inductive VerificationGraphError :=
| UnsupportedSchema (version : string)
| EmptyField (field : string)
| DuplicateCheck (check : string)
| UnknownDependency (check dependency : string)
| SelfDependency (check : string)
| Cycle (checks : list string)
| DuplicateReference (check field value : string)
| PolicyMismatch (detail : string).

Abbreviation answer A := (result VerificationGraphError A).

(** ** Operations *)

Definition node_ids (g : VerificationGraph) : gset string := list_to_set (map check_id (nodes g)).

Abbreviation maps := (option (gmap string (gset string) * gmap string nat)).

(** One iteration of the loop over [node.depends_on] *)
Definition scan_dependency (ids : gset string) (id : string) (acc : maps) (dependency : string)
    : answer maps :=
  err_if (bool_decide (dependency = id)) (SelfDependency id);;
  err_if (negb (bool_decide (dependency ∈ ids))) (UnknownDependency id dependency);;
  Ok (acc ≫= add_edge dependency id).

Definition build_maps (g : VerificationGraph) : answer maps :=
  try_fold (fun acc node => try_fold (scan_dependency (node_ids g) (check_id node)) acc (depends_on node))
    (Some (∅, zero_degrees (node_ids g))) (nodes g).

Definition topological_order (g : VerificationGraph) : option (answer (list string)) :=
  match build_maps g with
  | Err e => Some (Err e)
  | Ok None => None
  | Ok (Some (children, indegree)) =>
      '(order, indegree) ← kahn (node_ids g) children indegree;
      Some (if negb (bool_decide (length order = size (node_ids g)))
            then Err (Cycle (positive_degree indegree))
            else Ok order)
  end.

Definition unique_references (node : VerificationNode) (field : string) (values : list string)
    : answer unit :=
  try_fold (fun unique value =>
    err_if (is_blank value) (EmptyField "nodes.reference");;
    err_if (bool_decide (value ∈ unique)) (DuplicateReference (check_id node) field value);;
    Ok ({[value]} ∪ unique)) (∅ : gset string) values;;
  Ok tt.

(** One iteration of the validation loop; [ids] are the identifiers seen. *)
Definition validate_node (ids : gset string) (node : VerificationNode) : answer (gset string) :=
  err_if (is_blank (check_id node)) (EmptyField "nodes.check_id");;
  err_if (bool_decide (check_id node ∈ ids)) (DuplicateCheck (check_id node));;
  for_each (fun '(field, value) => err_if (is_blank value) (EmptyField field))
    [("nodes.claim", claim node);
     ("nodes.verifier.verifier_id", verifier_id (verifier node));
     ("nodes.verifier.engine", engine (verifier node));
     ("nodes.verifier.implementation", implementation (verifier node))];;
  unique_references node "subject_contracts" (subject_contracts node);;
  unique_references node "evidence_inputs" (evidence_inputs node);;
  unique_references node "depends_on" (depends_on node);;
  if_some (tolerance node) (fun t =>
    err_if (is_blank (metric t)) (EmptyField "nodes.tolerance.metric"));;
  Ok ({[check_id node]} ∪ ids).

(** [validate_graph] up to the final ordering *)
Definition validate_structure (g : VerificationGraph) : answer unit :=
  err_if (negb (bool_decide (vg_schema_version g = VERIFICATION_GRAPH_SCHEMA_VERSION)))
    (UnsupportedSchema (vg_schema_version g));;
  err_if (is_blank (graph_id g)) (EmptyField "graph_id");;
  err_if (bool_decide (nodes g = [])) (EmptyField "nodes");;
  try_fold validate_node ∅ (nodes g);;
  Ok tt.

Definition validate_graph (g : VerificationGraph) : option (answer unit) :=
  match validate_structure g with
  | Err e => Some (Err e)
  | Ok tt => order ← topological_order g; Some (order ;; Ok tt)
  end.

Definition check_requirement (g : VerificationGraph) (requirement : CheckRequirement) : answer unit :=
  let check := "check " +:+ req_check_id requirement in
  node ← ok_or (List.find (fun node => bool_decide (check_id node = req_check_id requirement)) (nodes g))
    (PolicyMismatch ("required " +:+ check +:+ " is missing from graph"));
  err_if (negb (bool_decide (vi_independence (verifier node) ∈ accepted_independence requirement)))
    (PolicyMismatch (check +:+ " independence is not accepted"));;
  if_some (req_max_error_ppm requirement) (fun maximum =>
    graph_maximum ← ok_or (max_error_ppm <$> tolerance node)
      (PolicyMismatch (check +:+ " has no graph tolerance"));
    err_if (maximum <? graph_maximum)
      (PolicyMismatch (check +:+ " graph tolerance is weaker than policy"))).

Definition validate_against_policy (g : VerificationGraph) (policy : VerificationPolicy)
    : option (answer unit) :=
  valid ← validate_graph g;
  Some (valid;;
        err_if (negb (bool_decide (vp_schema_version policy = VERIFICATION_POLICY_SCHEMA_VERSION)))
          (PolicyMismatch "unsupported policy schema");;
        for_each (check_requirement g) (vp_required_checks policy)).

Section Digest.
(** The derived serialisation of a node, the JSON text of scalars, and the
    hexadecimal SHA-256 of a text. *)
Context (node_to_value : VerificationNode -> json) `{JsonText} (sha256_hex : string -> string).

Definition node_le (a b : VerificationNode) : Prop := String.le (check_id a) (check_id b).
#[export] Instance node_le_dec : RelDecision node_le.
Proof. intros a b. unfold node_le. apply _. Defined.

Definition sort_references (n : VerificationNode) : VerificationNode :=
  {| check_id := check_id n; claim := claim n;
     subject_contracts := merge_sort String.le (subject_contracts n);
     evidence_inputs := merge_sort String.le (evidence_inputs n);
     verifier := verifier n; tolerance := tolerance n;
     depends_on := merge_sort String.le (depends_on n) |}.

Definition stable_digest (g : VerificationGraph) : option (answer string) :=
  valid ← validate_graph g;
  Some (valid;;
    let nodes := map sort_references (merge_sort node_le (nodes g)) in
    let value := JObject [("schema_version", JString (vg_schema_version g));
      ("graph_id", JString (graph_id g)); ("nodes", JArray (map node_to_value nodes))] in
    Ok ("sha256:" +:+ sha256_hex (canonical_json value))).
End Digest.

(** ** The dependency relation of a graph *)

Definition depends (g : VerificationGraph) (d c : string) : Prop :=
  exists node, node ∈ nodes g /\ check_id node = c /\ d ∈ depends_on node.

(** Every reference names another check of the graph. *)
Definition references_resolve (g : VerificationGraph) : Prop :=
  forall d c, depends g d c -> d <> c /\ d ∈ node_ids g.

Definition acyclic (g : VerificationGraph) : Prop := forall c, ~ tc (depends g) c c.

(** ** Building the maps *)

Lemma scan_dependency_ok ids id acc d acc' :
  scan_dependency ids id acc d = Ok acc' <->
  d <> id /\ d ∈ ids /\ acc' = (acc ≫= add_edge d id).
Proof.
  unfold scan_dependency.
  rewrite !seq_ok, err_decide_ok, err_if_ok, negb_false_iff, bool_decide_eq_true. naive_solver.
Qed.

Lemma scan_dependencies_ok ids id deps acc acc' :
  try_fold (scan_dependency ids id) acc deps = Ok acc' ->
  Forall (fun d => d <> id /\ d ∈ ids) deps.
Proof. apply try_fold_ok_forall. intros b x b' Hs%scan_dependency_ok. tauto. Qed.

Lemma scan_dependencies_wf ids id deps : forall adj indegree,
  dag_wf ids adj indegree -> id ∈ ids -> Forall (fun d => d <> id /\ d ∈ ids) deps ->
  exists adj' indegree',
    try_fold (scan_dependency ids id) (Some (adj, indegree)) deps = Ok (Some (adj', indegree'))
    /\ dag_wf ids adj' indegree'
    /\ (forall d c, edge adj' d c <-> edge adj d c \/ (c = id /\ d ∈ deps)).
Proof.
  induction deps as [|x deps IH]; intros adj ind Hwf Hid Hall; cbn [try_fold].
  { exists adj, ind. split_and!; [done|done|]. intros d c.
    split; [by left|]. by intros [?|[_ ?%not_elem_of_nil]]. }
  apply Forall_cons in Hall as [[Hx Hxi] Hall].
  destruct (add_edge_wf ids adj ind x id Hwf Hxi Hid) as (adj1 & ind1 & Ha & Hwf1 & He1).
  destruct (IH adj1 ind1 Hwf1 Hid Hall) as (adj2 & ind2 & Hf & Hwf2 & He2).
  exists adj2, ind2. split_and!; [|done|].
  - apply bind_ok. exists (Some (adj1, ind1)). split; [|done].
    apply scan_dependency_ok. by rewrite <-Ha.
  - intros d c. rewrite He2, He1, elem_of_cons. tauto.
Qed.

Definition build_from (ids : gset string) (acc : maps) (ns : list VerificationNode) : answer maps :=
  try_fold (fun acc node => try_fold (scan_dependency ids (check_id node)) acc (depends_on node)) acc ns.

Definition resolved (ids : gset string) (n : VerificationNode) : Prop :=
  Forall (fun d => d <> check_id n /\ d ∈ ids) (depends_on n).

Lemma build_from_wf ids ns : forall adj indegree,
  dag_wf ids adj indegree -> Forall (fun n => check_id n ∈ ids) ns -> Forall (resolved ids) ns ->
  exists adj' indegree', build_from ids (Some (adj, indegree)) ns = Ok (Some (adj', indegree'))
    /\ dag_wf ids adj' indegree'
    /\ (forall d c, edge adj' d c <->
        edge adj d c \/ exists n, n ∈ ns /\ check_id n = c /\ d ∈ depends_on n).
Proof.
  induction ns as [|n ns IH]; intros adj ind Hwf Hids Hres.
  { exists adj, ind. split_and!; [done|done|]. intros d c.
    split; [by left|]. by intros [?|(? & ?%not_elem_of_nil & _)]. }
  apply Forall_cons in Hids as [Hn Hids]. apply Forall_cons in Hres as [Hr Hres].
  destruct (scan_dependencies_wf ids (check_id n) (depends_on n) adj ind Hwf Hn Hr)
    as (adj1 & ind1 & Hf1 & Hwf1 & He1).
  destruct (IH adj1 ind1 Hwf1 Hids Hres) as (adj2 & ind2 & Hf2 & Hwf2 & He2).
  exists adj2, ind2. split_and!; [|done|].
  - unfold build_from. cbn [try_fold]. rewrite Hf1. exact Hf2.
  - intros d c. rewrite He2, He1. setoid_rewrite elem_of_cons. naive_solver.
Qed.

Lemma check_ids_known g : Forall (fun n => check_id n ∈ node_ids g) (nodes g).
Proof.
  apply Forall_forall. intros n Hn. unfold node_ids. apply elem_of_list_to_set.
  by apply (list_elem_of_fmap_2 check_id).
Qed.

Lemma references_resolve_nodes g :
  references_resolve g <-> Forall (resolved (node_ids g)) (nodes g).
Proof.
  unfold references_resolve, resolved, depends. rewrite Forall_forall.
  setoid_rewrite Forall_forall. split.
  - intros Hr n Hn d Hd. apply (Hr d (check_id n)). eauto.
  - intros Hr d c (n & Hn & <- & Hd). by apply (Hr n).
Qed.

Lemma build_maps_spec g :
  (exists adj indegree, build_maps g = Ok (Some (adj, indegree))
     /\ references_resolve g /\ dag_wf (node_ids g) adj indegree
     /\ (forall d c, edge adj d c <-> depends g d c))
  \/ (exists e, build_maps g = Err e /\ ~ references_resolve g /\ forall l, e <> Cycle l).
Proof.
  change (build_maps g) with (build_from (node_ids g) (Some (∅, zero_degrees (node_ids g))) (nodes g)).
  destruct (build_from _ _ _) as [m|e] eqn:Hb.
  - left.
    assert (Hres : Forall (resolved (node_ids g)) (nodes g)).
    { revert Hb. apply try_fold_ok_forall. intros b n b'. apply scan_dependencies_ok. }
    destruct (build_from_wf (node_ids g) (nodes g) _ _ (zero_degrees_wf _) (check_ids_known g) Hres)
      as (adj & ind & Hb' & Hwf & He).
    rewrite Hb' in Hb. simplify_eq. exists adj, ind. split_and!; [done| |done|].
    + by apply references_resolve_nodes.
    + intros d c. rewrite He. split; [intros [?%edge_empty|?]; done | by right].
  - right. exists e. split_and!; [done| |].
    + intros Hres%references_resolve_nodes.
      destruct (build_from_wf (node_ids g) (nodes g) _ _ (zero_degrees_wf _) (check_ids_known g) Hres)
        as (adj & ind & Hb' & _). congruence.
    + apply try_fold_err in Hb as (b & n & _ & Hs).
      apply try_fold_err in Hs as (b' & d & _ & Hs). unfold scan_dependency in Hs.
      destruct (bool_decide (d = check_id n)); [by simplify_eq/=|].
      destruct (bool_decide (d ∈ node_ids g)); by simplify_eq/=.
Qed.

(** [c] comes after everything it depends on. *)
Definition respects (g : VerificationGraph) (order : list string) : Prop :=
  forall l1 c l2, order = l1 ++ c :: l2 -> forall d, depends g d c -> d ∈ l1.

Lemma topological_order_cases g :
  (exists e, topological_order g = Some (Err e) /\ ~ references_resolve g /\ forall l, e <> Cycle l)
  \/ (exists order, topological_order g = Some (Ok order) /\ references_resolve g /\ acyclic g
      /\ order ≡ₚ elements (node_ids g) /\ respects g order
      /\ exists adj, (forall d c, edge adj d c <-> depends g d c) /\ greedy (node_ids g) adj order)
  \/ (exists l, topological_order g = Some (Err (Cycle l)) /\ references_resolve g /\ ~ acyclic g
      /\ forall x, x ∈ l <-> x ∈ node_ids g
                   /\ exists c, tc (depends g) c c /\ rtc (depends g) c x).
Proof.
  unfold topological_order.
  destruct (build_maps_spec g) as [(adj & ind & -> & Hres & Hwf & He) | (e & -> & Hres & Hnc)];
    [|left; by exists e].
  right. destruct (kahn_result _ _ _ Hwf) as (order & ind' & -> & Hg & Hlen & Hperm & Hpos).
  assert (Hac : ~ cyclic adj <-> acyclic g).
  { unfold cyclic, acyclic. setoid_rewrite (tc_edge_ext adj (depends g) _ _ He). naive_solver. }
  simpl. case_bool_decide as Hl; simpl.
  - left. exists order. split_and!; [done|done| |by apply Hperm| |].
    + by apply Hac, Hlen.
    + intros l1 c l2 Heq d Hd%He. by apply (greedy_topological _ _ _ Hg l1 c l2).
    + by exists adj.
  - right. exists (positive_degree ind'). split_and!; [done|done| |].
    + rewrite <-Hac, <-Hlen. done.
    + intros x. rewrite Hpos. split; intros (Hx & c & Hc & Hcx); (split; [done|]; exists c).
      * by rewrite <-(tc_edge_ext adj (depends g)), <-(rtc_edge_ext adj (depends g)).
      * by rewrite (tc_edge_ext adj (depends g)), (rtc_edge_ext adj (depends g)).
Qed.

(** ** Structural validation *)

Definition references_wf (l : list string) : Prop :=
  Forall (fun v => is_blank v = false) l /\ NoDup l.

Definition node_wf (n : VerificationNode) : Prop :=
  is_blank (check_id n) = false /\ is_blank (claim n) = false
  /\ is_blank (verifier_id (verifier n)) = false /\ is_blank (engine (verifier n)) = false
  /\ is_blank (implementation (verifier n)) = false
  /\ references_wf (subject_contracts n) /\ references_wf (evidence_inputs n)
  /\ references_wf (depends_on n)
  /\ on_some (tolerance n) (fun t => is_blank (metric t) = false).

Definition structure_wf (g : VerificationGraph) : Prop :=
  vg_schema_version g = VERIFICATION_GRAPH_SCHEMA_VERSION
  /\ is_blank (graph_id g) = false /\ nodes g <> []
  /\ Forall node_wf (nodes g) /\ NoDup (map check_id (nodes g)).

Lemma unique_references_ok n field l u :
  unique_references n field l = Ok u <-> references_wf l.
Proof.
  unfold unique_references, references_wf. rewrite <-(map_id l) at 3.
  apply (distinct_loop_ok (fun v => v) (fun v => is_blank v = false)).
  intros s a s'. rewrite !seq_ok, err_decide_ok, err_if_ok. naive_solver.
Qed.

Lemma validate_node_ok ids n ids' :
  validate_node ids n = Ok ids' <->
  node_wf n /\ check_id n ∉ ids /\ ids' = {[check_id n]} ∪ ids.
Proof.
  unfold validate_node, node_wf.
  rewrite !seq_ok, err_decide_ok, err_if_ok, !unique_references_ok.
  cbn [for_each]. rewrite !seq_ok, !err_if_ok.
  rewrite (if_some_ok (tolerance n) _ (fun t => is_blank (metric t) = false)).
  2: { intros t. apply err_if_ok. }
  naive_solver.
Qed.

Lemma validate_structure_ok g u : validate_structure g = Ok u <-> structure_wf g.
Proof.
  unfold validate_structure, structure_wf.
  rewrite !seq_ok, err_decide_ok, !err_if_ok, negb_false_iff, bool_decide_eq_true.
  rewrite (distinct_loop_ok check_id node_wf); [tauto | apply validate_node_ok].
Qed.

Definition graph_wf (g : VerificationGraph) : Prop :=
  structure_wf g /\ references_resolve g /\ acyclic g.

Lemma validate_graph_ok g : validate_graph g = Some (Ok tt) <-> graph_wf g.
Proof.
  unfold validate_graph, graph_wf. rewrite <-(validate_structure_ok g tt).
  destruct (validate_structure g) as [[]|e]; [|naive_solver].
  destruct (topological_order_cases g) as
    [(e & -> & ? & _) | [(o & -> & ? & ? & _) | (l & -> & ? & ? & _)]]; simpl; naive_solver.
Qed.

(** ** Graphs that differ only in the order of nodes and references *)

Definition same_node (a b : VerificationNode) : Prop :=
  check_id a = check_id b /\ claim a = claim b /\ verifier a = verifier b
  /\ tolerance a = tolerance b /\ subject_contracts a ≡ₚ subject_contracts b
  /\ evidence_inputs a ≡ₚ evidence_inputs b /\ depends_on a ≡ₚ depends_on b.

Definition same_graph (g h : VerificationGraph) : Prop :=
  vg_schema_version g = vg_schema_version h /\ graph_id g = graph_id h
  /\ exists ns, Forall2 same_node (nodes g) ns /\ ns ≡ₚ nodes h.

Lemma Forall2_same_find (l k : list VerificationNode) n :
  Forall2 same_node l k -> n ∈ k -> exists m, m ∈ l /\ same_node m n.
Proof.
  intros Hf Hn. apply list_elem_of_lookup in Hn as [i Hi].
  destruct (Forall2_lookup_r _ _ _ _ _ Hf Hi) as (m & Hm & Hs).
  exists m. split; [by eapply list_elem_of_lookup_2 | done].
Qed.

Lemma Forall2_same_find_l (l k : list VerificationNode) m :
  Forall2 same_node l k -> m ∈ l -> exists n, n ∈ k /\ same_node m n.
Proof.
  intros Hf Hn. apply list_elem_of_lookup in Hn as [i Hi].
  destruct (Forall2_lookup_l _ _ _ _ _ Hf Hi) as (n & Hm & Hs).
  exists n. split; [by eapply list_elem_of_lookup_2 | done].
Qed.

Lemma same_graph_depends g h d c : same_graph g h -> depends g d c <-> depends h d c.
Proof.
  intros (_ & _ & ns & Hf & Hp). unfold depends. split.
  - intros (m & Hm & <- & Hd). destruct (Forall2_same_find_l _ _ _ Hf Hm) as (n & Hn & Hs).
    exists n. destruct Hs as (Hc & _ & _ & _ & _ & _ & Hdep). rewrite <-Hp, <-Hdep. done.
  - intros (n & Hn & <- & Hd). rewrite <-Hp in Hn.
    destruct (Forall2_same_find _ _ _ Hf Hn) as (m & Hm & Hs).
    exists m. destruct Hs as (Hc & _ & _ & _ & _ & _ & Hdep). rewrite Hdep. done.
Qed.

Lemma same_graph_ids g h : same_graph g h -> map check_id (nodes g) ≡ₚ map check_id (nodes h).
Proof.
  intros (_ & _ & ns & Hf & Hp). rewrite <-Hp.
  assert (map check_id (nodes g) = map check_id ns) as ->; [|done].
  clear Hp. induction Hf as [|a b l k [? _] _ IH]; simpl; congruence.
Qed.

Lemma same_graph_node_ids g h : same_graph g h -> node_ids g = node_ids h.
Proof.
  intros Hs. unfold node_ids. apply set_eq. intros x.
  by rewrite !elem_of_list_to_set, (same_graph_ids g h Hs).
Qed.

Lemma references_wf_perm l k : l ≡ₚ k -> references_wf l -> references_wf k.
Proof. intros Hp [? ?]. split; by rewrite <-Hp. Qed.

Lemma same_node_wf a b : same_node a b -> node_wf a -> node_wf b.
Proof.
  intros (Hi & Hc & Hv & Ht & Hs & He & Hd). unfold node_wf. rewrite Hi, Hc, Hv, Ht.
  intros (? & ? & ? & ? & ? & ? & ? & ? & ?). split_and!; try done; by eapply references_wf_perm.
Qed.

Lemma same_graph_structure g h : same_graph g h -> structure_wf g -> structure_wf h.
Proof.
  intros Hs (Hv & Hb & Hne & Hall & Hnd). pose proof (same_graph_ids g h Hs) as Hids.
  destruct Hs as (Hv' & Hb' & ns & Hf & Hp). unfold structure_wf.
  rewrite <-Hv', <-Hb', <-Hids. split_and!; [done|done| | |done].
  - intros Hn. rewrite Hn in Hp. symmetry in Hp. apply Permutation_nil in Hp as ->. by inversion Hf; subst.
  - rewrite Forall_forall in *. intros n Hn. rewrite <-Hp in Hn.
    destruct (Forall2_same_find _ _ _ Hf Hn) as (m & Hm & Hsn). by eapply same_node_wf, Hall.
Qed.

Lemma same_graph_wf g h : same_graph g h -> graph_wf g -> graph_wf h.
Proof.
  intros Hs (Hst & Hr & Hac). split_and!.
  - by eapply same_graph_structure.
  - intros d c Hd%(same_graph_depends g h d c Hs). rewrite <-(same_graph_node_ids g h Hs). auto.
  - intros c Hc. apply (Hac c). revert Hc. clear -Hs.
    generalize c at 1 3. intros x. induction 1 as [a b Hab | a b e Hab _ IH].
    + apply tc_once. by apply (same_graph_depends g h).
    + eapply tc_l; [by apply (same_graph_depends g h) | done].
Qed.

(** ** The digest sees neither order *)

Lemma StronglySorted_map {A B} (R : relation A) (Q : relation B) (f : A -> B) l :
  (forall x y, R x y -> Q (f x) (f y)) -> StronglySorted R l -> StronglySorted Q (map f l).
Proof.
  intros Hf. induction 1 as [|x l _ IH Hx]; simpl; constructor; [done|].
  rewrite List.Forall_map. eapply Forall_impl; [done|]. auto.
Qed.

#[local] Instance node_le_total : Total node_le.
Proof. intros a b. apply (total String.le). Qed.
#[local] Instance node_le_trans : Transitive node_le.
Proof. intros a b c. apply (transitivity (R:=String.le)). Qed.

Lemma sort_references_same a b : same_node a b -> sort_references a = sort_references b.
Proof.
  intros (Hi & Hc & Hv & Ht & Hs & He & Hd). unfold sort_references.
  by rewrite Hi, Hc, Hv, Ht, (merge_sort_string_perm _ _ Hs), (merge_sort_string_perm _ _ He),
    (merge_sort_string_perm _ _ Hd).
Qed.

Lemma canonical_nodes_same g h :
  same_graph g h -> NoDup (map check_id (nodes g)) ->
  map sort_references (merge_sort node_le (nodes g))
  = map sort_references (merge_sort node_le (nodes h)).
Proof.
  intros (_ & _ & ns & Hf & Hp) Hnd.
  assert (Hsort : forall l, StronglySorted node_le (map sort_references (merge_sort node_le l))).
  { intros l. apply (StronglySorted_map node_le); [done|]. apply StronglySorted_merge_sort; apply _. }
  assert (Hperm : forall l : list VerificationNode,
    map sort_references (merge_sort node_le l) ≡ₚ map sort_references l).
  { intros l. apply (Permutation_map sort_references). apply merge_sort_Permutation. }
  assert (Heq : map sort_references (nodes g) = map sort_references ns).
  { clear -Hf. induction Hf as [|a b l k Hab _ IH]; simpl; [done|].
    by rewrite IH, (sort_references_same a b). }
  assert (Hgh : map sort_references (nodes g) ≡ₚ map sort_references (nodes h)).
  { rewrite Heq. by apply (Permutation_map sort_references). }
  apply (StronglySorted_unique_strong node_le); [|done|done|by rewrite !Hperm].
  intros x y Hx Hy H1 H2. rewrite Hperm in Hx, Hy. rewrite <-Hgh in Hy.
  apply list_elem_of_fmap in Hx as (a & -> & Ha). apply list_elem_of_fmap in Hy as (b & -> & Hb).
  assert (Hab : check_id a = check_id b) by by apply (anti_symm String.le).
  f_equal. apply list_elem_of_lookup in Ha as [i Hi]. apply list_elem_of_lookup in Hb as [j Hj].
  assert (i = j) as ->; [|congruence].
  apply (NoDup_lookup (check_id <$> nodes g) i j (check_id a)); [done|..];
    rewrite list_lookup_fmap; [by rewrite Hi | rewrite Hj; simpl; by rewrite Hab].
Qed.

Lemma check_requirement_ok g r :
  check_requirement g r = Ok tt <-> exists n,
    List.find (fun n => bool_decide (check_id n = req_check_id r)) (nodes g) = Some n
    /\ vi_independence (verifier n) ∈ accepted_independence r
    /\ on_some (req_max_error_ppm r) (fun m =>
         exists t, tolerance n = Some t /\ max_error_ppm t <= m).
Proof.
  unfold check_requirement. rewrite bind_ok. setoid_rewrite ok_or_ok.
    setoid_rewrite seq_ok. setoid_rewrite err_if_ok. setoid_rewrite negb_false_iff.
    setoid_rewrite bool_decide_eq_true.
    assert (Ht : forall n : VerificationNode, if_some (req_max_error_ppm r) (fun maximum =>
        graph_maximum ← ok_or (max_error_ppm <$> tolerance n)
          (PolicyMismatch (("check " +:+ req_check_id r) +:+ " has no graph tolerance"));
        err_if (maximum <? graph_maximum)
          (PolicyMismatch (("check " +:+ req_check_id r) +:+ " graph tolerance is weaker than policy"))) = Ok tt
      <-> on_some (req_max_error_ppm r) (fun m => exists t, tolerance n = Some t /\ max_error_ppm t <= m)).
    { intros n. apply if_some_ok. intros m. rewrite bind_ok. setoid_rewrite ok_or_ok.
      setoid_rewrite err_if_ok. setoid_rewrite N.ltb_ge.
      destruct (tolerance n) as [t|]; simpl.
      - rewrite (some_exists (max_error_ppm t) (fun a => a <= m)).
        by rewrite (some_exists t (fun t => max_error_ppm t <= m)).
      - by split; intros (? & ? & _). }
    by setoid_rewrite Ht.
Qed.

(** ** Properties *)

(** C30: an order that is returned lists every check exactly once, each after all
    the checks it depends on; it exists only for a graph whose references
    resolve and which has no cycle. *)
Theorem topological_order_sound g order :
  topological_order g = Some (Ok order) ->
  references_resolve g /\ acyclic g /\ order ≡ₚ elements (node_ids g) /\ respects g order.
Proof.
  intros Ho. destruct (topological_order_cases g) as
    [(e & He & _) | [(o & He & H1 & H2 & H3 & H4 & _) | (l & He & _)]]; [congruence| |congruence].
  rewrite He in Ho. by simplify_eq.
Qed.

(** Ordering never panics and the loop needs no more than one iteration per
    check; every acyclic graph with resolved references is ordered; and a cycle
    error names exactly the checks on a cycle or depending on one. *)
Theorem topological_order_total g :
  topological_order g <> None
  /\ (references_resolve g -> acyclic g -> exists order, topological_order g = Some (Ok order))
  /\ (forall l, topological_order g = Some (Err (Cycle l)) ->
      forall x, x ∈ l <-> x ∈ node_ids g
                /\ exists c, tc (depends g) c c /\ rtc (depends g) c x).
Proof.
  destruct (topological_order_cases g) as
    [(e & He & ? & Hc) | [(o & He & _) | (l & He & _ & ? & Hl)]]; rewrite He.
  - split_and!; [done|done|]. intros l Hl. simplify_eq. by destruct (Hc l).
  - split_and!; [done|by eexists|]. intros l Hl. simplify_eq.
  - split_and!; [done|done|]. intros l' Hl'. by simplify_eq.
Qed.

(** The order is a function of the checks and their dependencies alone: two
    documents that list nodes and references in different orders are ordered
    the same way. *)
Theorem topological_order_canonical g h order :
  same_graph g h -> topological_order g = Some (Ok order) -> topological_order h = Some (Ok order).
Proof.
  intros Hs Ho. destruct (topological_order_cases g) as
    [(e & He & _) | [(o & He & Hr & Hac & _ & _ & adj & Hadj & Hg) | (l & He & _)]]; [congruence| |congruence].
  rewrite He in Ho. simplify_eq.
  assert (Hh : references_resolve h /\ acyclic h).
  { split.
    - intros d c Hd%(same_graph_depends g h d c Hs). rewrite <-(same_graph_node_ids g h Hs). auto.
    - intros c Hc. apply (Hac c). revert Hc. rewrite <-!(tc_edge_ext adj (depends g)) by done.
      apply tc_edge_ext. intros a b. rewrite Hadj. by apply same_graph_depends. }
  destruct Hh as [Hrh Hach].
  destruct (topological_order_cases h) as
    [(e & Heh & ? & _) | [(o & Heh & _ & _ & Hp & _ & adjh & Hadjh & Hgh) | (l & Heh & _ & ? & _)]];
    [done| |done].
  rewrite Heh. do 2 f_equal.
  apply (greedy_unique (node_ids g) adj); [|done|].
  - rewrite (same_graph_node_ids g h Hs). apply (greedy_ext _ adjh); [|done].
    intros d c. rewrite Hadjh, Hadj. symmetry. by apply same_graph_depends.
  - destruct (topological_order_cases g) as
      [(e & Hg' & _) | [(o' & Hg' & _ & _ & Hpg & _) | (l & Hg' & _)]]; rewrite He in Hg'; simplify_eq.
    by rewrite Hp, Hpg, (same_graph_node_ids g h Hs).
Qed.

(** The digest identifies a valid graph up to the serialised order of its
    nodes and of their reference lists. *)
Theorem stable_digest_order_independent (node_to_value : VerificationNode -> json) `{JsonText}
    (sha256_hex : string -> string) g h :
  same_graph g h -> validate_graph g = Some (Ok tt) ->
  exists d, stable_digest node_to_value sha256_hex g = Some (Ok d)
            /\ stable_digest node_to_value sha256_hex h = Some (Ok d).
Proof.
  intros Hs Hg%validate_graph_ok. pose proof (same_graph_wf g h Hs Hg) as Hh.
  pose proof Hg as ((_ & _ & _ & _ & Hnd) & _ & _).
  pose proof (canonical_nodes_same g h Hs Hnd) as Hn.
  apply validate_graph_ok in Hg, Hh. unfold stable_digest. rewrite Hg, Hh, Hn. simpl.
  destruct Hs as (Hv & Hi & _). rewrite Hv, Hi. by eexists.
Qed.

(** A graph bound to a policy covers every required check: the first node of
    that identity has an accepted independence class and, where the policy
    bounds the error, a tolerance at least as strict. *)
Theorem validate_against_policy_iff g p :
  validate_against_policy g p = Some (Ok tt) <->
  graph_wf g /\ vp_schema_version p = VERIFICATION_POLICY_SCHEMA_VERSION
  /\ Forall (fun r => exists n,
       List.find (fun n => bool_decide (check_id n = req_check_id r)) (nodes g) = Some n
       /\ vi_independence (verifier n) ∈ accepted_independence r
       /\ on_some (req_max_error_ppm r) (fun m =>
            exists t, tolerance n = Some t /\ max_error_ppm t <= m)) (vp_required_checks p).
Proof.
  unfold validate_against_policy. rewrite <-(validate_graph_ok g).
  assert (Hf : for_each (check_requirement g) (vp_required_checks p) = Ok tt <->
    Forall (fun r => check_requirement g r = Ok tt) (vp_required_checks p)) by apply for_each_ok.
  setoid_rewrite check_requirement_ok in Hf.
  destruct (validate_graph g) as [[[]|e]|]; simpl; [|by split; [|intros [? _]]..].
  destruct (bool_decide (vp_schema_version p = _)) eqn:Hv; simpl.
  - apply bool_decide_eq_true in Hv. rewrite <-Hf. split; [by intros [= ?] | by intros (_ & _ & ->)].
  - apply bool_decide_eq_false in Hv. by split; [|intros (_ & ? & _)].
Qed.

(** ** A concrete graph *)

Definition example_node (id : string) (deps : list string) : VerificationNode :=
  {| check_id := id; claim := "claim " +:+ id; subject_contracts := []; evidence_inputs := [];
     verifier := {| verifier_id := "v"; engine := "e"; implementation := "i";
                    vi_independence := DifferentEngine |};
     tolerance := None; depends_on := deps |}.

Definition example_graph (ns : list VerificationNode) : VerificationGraph :=
  {| vg_schema_version := VERIFICATION_GRAPH_SCHEMA_VERSION; graph_id := "g"; nodes := ns |}.

Definition density_first : VerificationGraph :=
  example_graph [example_node "density" ["area"; "census"]; example_node "area" []; example_node "census" []].
Definition area_first : VerificationGraph :=
  example_graph [example_node "area" []; example_node "census" []; example_node "density" ["census"; "area"]].

Lemma example_same_graph : same_graph density_first area_first.
Proof.
  unfold same_graph. split_and!; [done..|].
  exists [example_node "density" ["census"; "area"]; example_node "area" []; example_node "census" []].
  split.
  - repeat constructor; simpl; try done.
  - etrans; [apply perm_swap|]. apply perm_skip, perm_swap.
Qed.

Lemma topological_order_sound_witness :
  topological_order density_first = Some (Ok ["area"; "census"; "density"])
  /\ ["area"; "census"; "density"] ≡ₚ elements (node_ids density_first).
Proof.
  split; [by vm_compute|].
  apply (topological_order_sound density_first ["area"; "census"; "density"]). by vm_compute.
Defined.

Lemma topological_order_canonical_witness :
  topological_order area_first = Some (Ok ["area"; "census"; "density"]).
Proof.
  apply (topological_order_canonical density_first area_first);
    [apply example_same_graph | by vm_compute].
Defined.

Lemma stable_digest_order_independent_witness :
  let T : JsonText := {| json_scalar := fun _ => "x"; json_key := fun k => k |} in
  exists d, stable_digest (fun n => JString (check_id n)) (fun s => s) density_first = Some (Ok d)
            /\ stable_digest (fun n => JString (check_id n)) (fun s => s) area_first = Some (Ok d).
Proof.
  intros T. apply (@stable_digest_order_independent (fun n => JString (check_id n)) T (fun s => s));
    [apply example_same_graph | by vm_compute].
Defined.

(** A cycle, and a check that hangs below it, are both reported. *)
Lemma cycle_is_reported :
  topological_order (example_graph [example_node "a" ["b"]; example_node "b" ["a"];
    example_node "c" ["a"]; example_node "d" []]) = Some (Err (Cycle ["a"; "b"; "c"])).
Proof. by vm_compute. Qed.
