(* ===== verification/WorkflowGraph.v ===== *)
(** * The workflow graph (crates/genegis-workflow/src/graph.rs and step.rs)

    The GeoWorkflow IR, its validation and its deterministic execution order.
    SHA-256 and the JSON text of scalars are parameters; UUIDs are opaque
    strings. A run that panics (or exhausts the fuel of a loop) is [Panic];
    [order_total] shows there is none. *)

From Stdlib Require Import Ascii.
From S2P Require Import Prelude RustStd Crs Json Dag GeoContract.
Local Open Scope N_scope.

(** ** Data (step.rs) *)

Abbreviation WorkflowNodeId := string.
Definition node_id_is_empty (id : WorkflowNodeId) : bool := is_blank id.

Record WorkflowDataRef := mkDataRef { ref_node : option WorkflowNodeId; port : string }.
#[export] Instance WorkflowDataRef_eq_dec : EqDecision WorkflowDataRef.
Proof. solve_decision. Defined.
(** [WorkflowDataRef::input] and [WorkflowDataRef::output] *)
Definition ref_input (port : string) : WorkflowDataRef := {| ref_node := None; port := port |}.
Definition ref_output (node : WorkflowNodeId) (port : string) : WorkflowDataRef :=
  {| ref_node := Some node; port := port |}.

Record WorkflowPortContract := mkPortContract { pc_port : string; pc_contract : GeoContract }.

Record WorkflowStep := mkStep {
  step_id : string;
  stable_id : string;
  operation : string;
  parameters : json;
  expected_schema : option json;
  validation : option json;
  provenance : option string;
  depends_on : list WorkflowNodeId;
  inputs : list WorkflowDataRef;
  outputs : list WorkflowDataRef;
  output_contracts : list WorkflowPortContract }.

(** ** Data (graph.rs) *)

Record WorkflowInputContract := mkInputContract {
  ic_name : string;
  ic_crs : option Crs;
  ic_coordinate_unit : option CoordinateUnit;
  value_unit : option string;
  source_snapshot : option SourceSnapshot;
  geo_contract : option GeoContract }.

Definition input_contract_new (name : string) : WorkflowInputContract :=
  {| ic_name := name; ic_crs := None; ic_coordinate_unit := None; value_unit := None;
     source_snapshot := None; geo_contract := None |}.
(** [WorkflowInputContract::with_crs] *)
Definition with_crs (crs : Crs) (c : WorkflowInputContract) : WorkflowInputContract :=
  {| ic_name := ic_name c; ic_crs := Some crs; ic_coordinate_unit := Some (Crs.coordinate_unit crs);
     value_unit := value_unit c; source_snapshot := source_snapshot c;
     geo_contract := geo_contract c |}.

Inductive ReviewStatus := Draft | PendingReview | Approved | Rejected | Executed.

Record Citation := mkCitation {
  title : string; url : option string; citation_license : option string;
  citation_retrieved_at : option string }.

Record GeoWorkflow := mkWorkflow {
  workflow_id : string;
  goal : string;
  assumptions : list string;
  wf_inputs : list json;
  input_contracts : list WorkflowInputContract;
  steps : list WorkflowStep;
  wf_outputs : list json;
  output_refs : list WorkflowDataRef;
  citations : list Citation;
  review_status : ReviewStatus }.

Inductive WorkflowValidationError :=
| EmptyGraph
| DuplicateNodeId (id : string)
| SelfDependency (node : string)
| UnresolvedDependency (node dependency : string)
| UnresolvedInputReference (node dependency : string)
| InputWithoutDependency (node dependency : string)
| UnknownInputPort (node dependency port : string)
| EmptyOutputPort (node : string)
| MissingOutputReferences (node : string)
| UnknownInputContract (node input : string)
| DuplicateInputContract (name : string)
| InvalidInputContract (input reason : string)
| InvalidOutputContract (node port reason : string)
| UnresolvedOutputReference (node : string)
| UnknownOutputPort (node port : string)
| Cycle (nodes : list string)
| DisconnectedNodes (nodes : list string)
| UnreachableNodes (nodes : list string).

Abbreviation verdict A := (result WorkflowValidationError A).
Abbreviation graph_run A := (outcome WorkflowValidationError A).

(** ** Node identities (step.rs) *)

Section Identity.
(** The hexadecimal SHA-256 of a byte string *)
Context `{JsonText} (sha256_hex : string -> string).

(** [chars().map(|c| if c.is_ascii_alphanumeric() { c.to_ascii_lowercase() } else { '-' })]:
    a character outside ASCII is one dash, so its continuation bytes vanish. *)
Fixpoint dashed (s : string) : string :=
  match s with
  | EmptyString => EmptyString
  | String a s =>
      let code := Ascii.N_of_ascii a in
      if is_ascii_digit a || is_ascii_lowercase a || is_ascii_uppercase a
      then String (to_ascii_lower a) (dashed s)
      else if (128 <=? code) && (code <? 192) then dashed s
      else String "-"%char (dashed s)
  end.

(** [trim_matches('-')] *)
Fixpoint strip_dashes (s : string) : string :=
  match s with
  | String a s' => if bool_decide (a = "-"%char) then strip_dashes s' else s
  | EmptyString => EmptyString
  end.
Definition trim_dashes (s : string) : string :=
  String.rev (strip_dashes (String.rev (strip_dashes s))).

Definition generated_stable_id (operation : string) (parameters : json) : string :=
  let digest := sha256_hex (operation +:+ String (Ascii.ascii_of_N 0) (canonical_json parameters)) in
  let operation := trim_dashes (dashed operation) in
  (if is_empty operation then "node" else operation) +:+ "-" +:+ String.substring 0 16 digest.

(** [WorkflowStep::node_id] *)
Definition node_id (step : WorkflowStep) : WorkflowNodeId :=
  if is_blank (stable_id step) then generated_stable_id (operation step) (parameters step)
  else stable_id step.
End Identity.

(** ** Validation (graph.rs) *)

Definition is_legacy_linear (w : GeoWorkflow) : bool :=
  forallb (fun step =>
    is_blank (stable_id step) && bool_decide (depends_on step = [])
    && bool_decide (inputs step = []) && bool_decide (outputs step = [])) (steps w).

Definition same_source_contract_identity (left right : SourceSnapshot) : bool :=
  bool_decide (dataset_id left = dataset_id right)
  && bool_decide (uri left = uri right)
  && bool_decide (license left = license right)
  && bool_decide (expected_checksum left = expected_checksum right)
  && bool_decide (observed_checksum left = observed_checksum right)
  && bool_decide (source_version left = source_version right)
  && bool_decide (checksum_status left = checksum_status right).

(** [if let (Some(x), Some(y)) = (o, p) { if bad(x, y) { return Err(e) } }] *)
Definition reject_pair {A B} (o : option A) (p : option B) (bad : A -> B -> bool)
    (e : WorkflowValidationError) : verdict unit :=
  match o, p with Some a, Some b => err_if (bad a b) e | _, _ => Ok tt end.

Section Validate.
Context `{F64Display} `{JsonText} (sha256_hex : string -> string).
Abbreviation node_id := (node_id sha256_hex).

Definition validate_geo_contract (c : WorkflowInputContract) (g : GeoContract) : verdict unit :=
  let invalid := InvalidInputContract (ic_name c) in
  map_err (fun e => invalid (contract_error_to_string e)) (validate_contract g);;
  reject_pair (ic_crs c) (spatial g)
    (fun legacy s => negb (bool_decide (sc_crs s = Some legacy)))
    (invalid "legacy CRS disagrees with GeoContract spatial CRS");;
  reject_pair (ic_coordinate_unit c) (spatial g)
    (fun legacy s => negb (bool_decide (sc_coordinate_unit s = legacy)))
    (invalid "legacy coordinate unit disagrees with GeoContract spatial unit");;
  reject_pair (value_unit c) (measure g)
    (fun legacy m => negb (bool_decide (measure_unit m = legacy)))
    (invalid "legacy value unit disagrees with GeoContract measure unit");;
  reject_pair (source_snapshot c) (gc_source g)
    (fun legacy s => negb (same_source_contract_identity legacy (snapshot s)))
    (invalid "legacy source snapshot disagrees with GeoContract source").

Definition validate_input_contract (names : gset string) (c : WorkflowInputContract)
    : verdict (gset string) :=
  let invalid := InvalidInputContract (ic_name c) in
  err_if (bool_decide (ic_name c ∈ names)) (DuplicateInputContract (ic_name c));;
  err_if (is_blank (ic_name c)) (invalid "name is empty");;
  if_some (ic_crs c) (fun crs =>
    definition ← map_err (fun e => invalid (crs_error_to_string e)) (require_known crs);
    err_if (negb (bool_decide (ic_coordinate_unit c = Some (def_unit definition))))
      (invalid ("coordinate unit must be " +:+ unit_as_str (def_unit definition)
                +:+ " for " +:+ identifier crs)));;
  err_if (bool_decide (ic_coordinate_unit c = Some Unit_Unknown))
    (invalid "coordinate unit is unknown");;
  err_if (from_option is_blank false (value_unit c)) (invalid "value unit is empty");;
  if_some (source_snapshot c) (fun source =>
    err_if (is_blank (uri source)) (invalid "source URI is empty"));;
  if_some (geo_contract c) (validate_geo_contract c);;
  Ok ({[ic_name c]} ∪ names).

Definition validate_input_contracts (w : GeoWorkflow) : verdict unit :=
  try_fold validate_input_contract ∅ (input_contracts w);;
  Ok tt.

(** [step.outputs.iter().any(|o| o.node.as_ref() == Some(node) && o.port == port)] *)
Definition exports (step : WorkflowStep) (node : WorkflowNodeId) (p : string) : bool :=
  existsb (fun o => bool_decide (ref_node o = Some node) && bool_decide (port o = p)) (outputs step).

Definition validate_output_contract (legacy_linear : bool) (node : WorkflowNodeId)
    (step : WorkflowStep) (ports : gset string) (c : WorkflowPortContract) : verdict (gset string) :=
  let invalid := InvalidOutputContract node (pc_port c) in
  err_if (is_blank (pc_port c)) (invalid "port is empty");;
  err_if (bool_decide (pc_port c ∈ ports)) (invalid "duplicate output contract");;
  err_if (negb legacy_linear && negb (exports step node (pc_port c)))
    (invalid "contract does not name an exported output port");;
  map_err (fun e => invalid (contract_error_to_string e)) (validate_contract (pc_contract c));;
  Ok ({[pc_port c]} ∪ ports).

(** The loops over [self.steps] read [node_ids[index]] beside the step. *)
Definition validate_output_contracts (nodes : list (WorkflowNodeId * WorkflowStep))
    (legacy_linear : bool) : verdict unit :=
  for_each (fun '(node, step) =>
    try_fold (validate_output_contract legacy_linear node step) ∅ (output_contracts step);; Ok tt)
    nodes.

(** [nodes] is the map from identifiers to positions. *)
Definition validate_output_ref (w : GeoWorkflow) (nodes : gmap string nat) (legacy_linear : bool)
    (output : WorkflowDataRef) : graph_run unit :=
  match ref_node output with
  | None => Failed (UnresolvedOutputReference "graph-input")
  | Some node =>
      match nodes !! node with
      | None => Failed (UnresolvedOutputReference node)
      | Some index =>
          if legacy_linear then Done tt
          else
            step ← expect (steps w !! index);
            attempt (err_if (negb (exports step node (port output)))
                       (UnknownOutputPort node (port output)))
      end
  end.

(** [for x in xs { body(x)? }] for a body that can panic *)
Fixpoint run_each {E A} (f : A -> outcome E unit) (l : list A) : outcome E unit :=
  match l with
  | [] => Done tt
  | x :: l => f x;; run_each f l
  end.

Definition validate_output_refs (w : GeoWorkflow) (nodes : gmap string nat) (legacy_linear : bool)
    : graph_run unit :=
  run_each (validate_output_ref w nodes legacy_linear) (output_refs w).

(** The first loop: identifiers are not blank and not repeated. *)
Definition collect_node (acc : gmap string nat * list string) (entry : nat * WorkflowStep)
    : verdict (gmap string nat * list string) :=
  let '(nodes, node_ids) := acc in
  let '(index, step) := entry in
  err_if (node_id_is_empty (node_id step))
    (UnresolvedDependency ("index-" +:+ show_N (N.of_nat index)) "empty stable ID");;
  err_if (bool_decide (is_Some (nodes !! node_id step))) (DuplicateNodeId (node_id step));;
  Ok (<[node_id step := index]> nodes, node_ids ++ [node_id step]).

Fixpoint enumerate {A} (first : nat) (l : list A) : list (nat * A) :=
  match l with [] => [] | a :: l => (first, a) :: enumerate (S first) l end.

Definition collect_nodes (w : GeoWorkflow) : verdict (gmap string nat * list string) :=
  try_fold collect_node (∅, []) (enumerate 0 (steps w)).

(** Steps of the old linear format depend on, and read, the step before. *)
Definition step_deps (legacy_linear : bool) (node_ids : list string) (index : nat)
    (step : WorkflowStep) : graph_run (list WorkflowNodeId) :=
  if legacy_linear && bool_decide (0 < index)%nat
  then previous ← expect (node_ids !! (index - 1)%nat); Done [previous]
  else Done (depends_on step).

Definition step_inputs (legacy_linear : bool) (node_ids : list string) (index : nat)
    (step : WorkflowStep) : graph_run (list WorkflowDataRef) :=
  if legacy_linear && bool_decide (0 < index)%nat
  then previous ← expect (node_ids !! (index - 1)%nat); Done [ref_output previous "result"]
  else Done (inputs step).

Abbreviation graph_maps := (gmap string (gset string) * gmap string nat)%type.

(** The adjacency and in-degree updates for a dependency not seen before *)
Definition insert_dependency (dependency node : string) (g : graph_maps) : option graph_maps :=
  let '(adjacency, indegree) := g in
  degree ← indegree !! node;
  Some (<[dependency := {[node]} ∪ children_of adjacency dependency]> adjacency,
        <[node := S degree]> indegree).

Fixpoint scan_dependencies (nodes : gmap string nat) (node : string) (deps : list string)
    (unique : gset string) (g : graph_maps) : graph_run (gset string * graph_maps) :=
  match deps with
  | [] => Done (unique, g)
  | dependency :: deps =>
      attempt (err_if (bool_decide (dependency = node)) (SelfDependency node));;
      attempt (err_if (negb (bool_decide (is_Some (nodes !! dependency))))
                 (UnresolvedDependency node dependency));;
      if bool_decide (dependency ∈ unique) then scan_dependencies nodes node deps unique g
      else
        g ← expect (insert_dependency dependency node g);
        scan_dependencies nodes node deps ({[dependency]} ∪ unique) g
  end.

Definition validate_input (w : GeoWorkflow) (legacy_linear : bool) (nodes : gmap string nat)
    (unique_deps : gset string) (node : string) (input : WorkflowDataRef) : graph_run unit :=
  attempt (err_if (is_blank (port input)) (UnknownInputContract node ""));;
  match ref_node input with
  | Some dependency =>
      attempt (err_if (bool_decide (dependency = node)) (SelfDependency node));;
      attempt (err_if (negb (bool_decide (is_Some (nodes !! dependency))))
                 (UnresolvedInputReference node dependency));;
      attempt (err_if (negb (bool_decide (dependency ∈ unique_deps)))
                 (InputWithoutDependency node dependency));;
      if legacy_linear then Done tt
      else
        index ← expect (nodes !! dependency);
        step ← expect (steps w !! index);
        attempt (err_if (negb (exports step dependency (port input)))
                   (UnknownInputPort node dependency (port input)))
  | None =>
      attempt (err_if (negb (existsb (fun c => bool_decide (ic_name c = port input))
                               (input_contracts w)))
                 (UnknownInputContract node (port input)))
  end.

(** The second loop; the dependency lists are collected in order. *)
Fixpoint link_steps (w : GeoWorkflow) (legacy_linear : bool) (nodes : gmap string nat)
    (node_ids : list string) (l : list (nat * WorkflowStep)) (g : graph_maps)
    (dependencies : list (list string)) : graph_run (list (list string) * graph_maps) :=
  match l with
  | [] => Done (dependencies, g)
  | (index, step) :: l =>
      node ← expect (node_ids !! index);
      deps ← step_deps legacy_linear node_ids index step;
      ins ← step_inputs legacy_linear node_ids index step;
      '(unique_deps, g) ← scan_dependencies nodes node deps ∅ g;
      run_each (validate_input w legacy_linear nodes unique_deps node) ins;;
      link_steps w legacy_linear nodes node_ids l g (dependencies ++ [deps])
  end.

(** The steps without dependencies *)
Definition graph_roots (node_ids : list string) (dependencies : list (list string)) : list string :=
  map fst (filter (fun '(_, deps) => deps = []) (zip node_ids dependencies)).

(** Breadth first: successors go to the back of the queue. *)
Definition push_back (queue next : list string) : list string := queue ++ next.
Definition children_list (adjacency : gmap string (gset string)) (x : string) : option (list string) :=
  Some (str_iter (children_of adjacency x)).

Definition reachable_from (ids : gset string) (adjacency : gmap string (gset string))
    (roots : list string) : option (gset string) :=
  explore push_back (children_list adjacency)
    (S (search_bound (children_list adjacency) ids roots ∅)) roots ∅.

(** Depth first: successors are pushed one after the other on the stack. *)
Definition push_stack (pending next : list string) : list string := reverse next ++ pending.
Definition neighbours (nodes : gmap string nat) (dependencies : list (list string))
    (adjacency : gmap string (gset string)) (x : string) : option (list string) :=
  index ← nodes !! x;
  deps ← dependencies !! index;
  Some (deps ++ str_iter (children_of adjacency x)).

(** [while let Some(start) = unvisited.pop_first()]; the nodes of a component
    leave [unvisited] as they are found. *)
Fixpoint split_components (fuel : nat) (next : string -> option (list string)) (ids : gset string)
    (unvisited : gset string) : option (list (gset string)) :=
  match fuel with
  | O => None
  | S fuel =>
      match pop_first unvisited with
      | None => Some []
      | Some (start, unvisited) =>
          component ← explore push_stack next (S (search_bound next ids [start] ∅)) [start] ∅;
          rest ← split_components fuel next ids (unvisited ∖ component);
          Some (component :: rest)
      end
  end.

Definition validate_outputs (entry : WorkflowNodeId * WorkflowStep) : verdict unit :=
  let '(node, step) := entry in
  err_if (bool_decide (outputs step = [])) (MissingOutputReferences node);;
  for_each (fun output =>
    err_if (negb (bool_decide (ref_node output = Some node)) || is_blank (port output))
      (EmptyOutputPort node)) (outputs step).

Definition topological_order (w : GeoWorkflow) : graph_run (list WorkflowNodeId) :=
  attempt (err_if (bool_decide (steps w = [])) EmptyGraph);;
  let legacy_linear := is_legacy_linear w in
  '(nodes, node_ids) ← attempt (collect_nodes w);
  attempt (validate_input_contracts w);;
  let ids : gset string := list_to_set node_ids in
  '(dependencies, (adjacency, indegree)) ←
    link_steps w legacy_linear nodes node_ids (enumerate 0 (steps w)) (∅, zero_degrees ids) [];
  '(order, indegree) ← expect (kahn ids adjacency indegree);
  attempt (err_if (negb (bool_decide (length order = length node_ids)))
             (Cycle (positive_degree indegree)));;
  reachable ← expect (reachable_from ids adjacency (graph_roots node_ids dependencies));
  attempt (err_if (negb (bool_decide (size reachable = length node_ids)))
             (UnreachableNodes (filter (fun x => x ∉ reachable) node_ids)));;
  components ← expect (split_components (S (size ids)) (neighbours nodes dependencies adjacency)
                         ids ids);
  attempt (err_if (bool_decide (1 < length components)%nat)
             (DisconnectedNodes (concat (map (fun c => str_iter c) (drop 1 components)))));;
  (if legacy_linear then Done tt else attempt (for_each validate_outputs (zip node_ids (steps w))));;
  validate_output_refs w nodes legacy_linear;;
  attempt (validate_output_contracts (zip node_ids (steps w)) legacy_linear);;
  Done order.

(** [GeoWorkflow::validate] *)
Definition validate (w : GeoWorkflow) : graph_run unit := topological_order w;; Done tt.
End Validate.

(** [GeoWorkflow::push_step], [add_input_contract], [add_output_ref] *)
Definition with_steps (w : GeoWorkflow) (cs : list WorkflowInputContract) (ss : list WorkflowStep)
    (os : list WorkflowDataRef) : GeoWorkflow :=
  {| workflow_id := workflow_id w; goal := goal w; assumptions := assumptions w;
     wf_inputs := wf_inputs w; input_contracts := cs; steps := ss; wf_outputs := wf_outputs w;
     output_refs := os; citations := citations w; review_status := review_status w |}.
Definition push_step (step : WorkflowStep) (w : GeoWorkflow) : GeoWorkflow :=
  with_steps w (input_contracts w) (steps w ++ [step]) (output_refs w).
Definition add_input_contract (c : WorkflowInputContract) (w : GeoWorkflow) : GeoWorkflow :=
  with_steps w (input_contracts w ++ [c]) (steps w) (output_refs w).
Definition add_output_ref (o : WorkflowDataRef) (w : GeoWorkflow) : GeoWorkflow :=
  with_steps w (input_contracts w) (steps w) (output_refs w ++ [o]).

(** ** The graph a workflow denotes *)

Section Theory.
Context `{F64Display} `{JsonText} (sha256_hex : string -> string).
Abbreviation node_id := (node_id sha256_hex).
Abbreviation collect_node := (collect_node sha256_hex).
Abbreviation collect_nodes := (collect_nodes sha256_hex).
Abbreviation topological_order := (topological_order sha256_hex).

Definition ids_of (w : GeoWorkflow) : list string := map node_id (steps w).

(** The dependencies that count for the step at position [i] *)
Definition effective_deps (w : GeoWorkflow) (i : nat) : list string :=
  if is_legacy_linear w && bool_decide (0 < i)%nat
  then from_option (fun x => [x]) [] (ids_of w !! (i - 1)%nat)
  else from_option depends_on [] (steps w !! i).

Definition effective_inputs (w : GeoWorkflow) (i : nat) : list WorkflowDataRef :=
  if is_legacy_linear w && bool_decide (0 < i)%nat
  then from_option (fun x => [ref_output x "result"]) [] (ids_of w !! (i - 1)%nat)
  else from_option inputs [] (steps w !! i).

(** The step called [c] depends on [d]. *)
Definition depends (w : GeoWorkflow) (d c : string) : Prop :=
  exists i, ids_of w !! i = Some c /\ d ∈ effective_deps w i.

(** An input reference that a step may use: a named graph input, or a port that
    one of the step's dependencies exports. *)
Definition input_resolves (w : GeoWorkflow) (i : nat) (r : WorkflowDataRef) : Prop :=
  is_blank (port r) = false /\
  match ref_node r with
  | None => exists c, c ∈ input_contracts w /\ ic_name c = port r
  | Some d => d ∈ effective_deps w i /\
      (is_legacy_linear w = true \/
       exists j step, ids_of w !! j = Some d /\ steps w !! j = Some step /\
         exists o, o ∈ outputs step /\ ref_node o = Some d /\ port o = port r)
  end.

Definition linked (w : GeoWorkflow) (a b : string) : Prop := depends w a b \/ depends w b a.
Definition weakly_connected (w : GeoWorkflow) : Prop :=
  forall x y, x ∈ ids_of w -> y ∈ ids_of w -> rtc (linked w) x y.

Definition respects (w : GeoWorkflow) (order : list string) : Prop :=
  forall l1 c l2, order = l1 ++ c :: l2 -> forall d, depends w d c -> d ∈ l1.

(** Errors about one node, reference or contract, not about the whole graph *)
Definition is_local (e : WorkflowValidationError) : bool :=
  match e with Cycle _ | DisconnectedNodes _ | UnreachableNodes _ => false | _ => true end.

(** ** The index of the nodes *)

Definition index_ok (nodes : gmap string nat) (ids : list string) : Prop :=
  NoDup ids /\ forall x i, nodes !! x = Some i <-> ids !! i = Some x.

Lemma collect_node_ok nodes ids n step acc :
  collect_node (nodes, ids) (n, step) = Ok acc <->
  is_blank (node_id step) = false /\ nodes !! node_id step = None
  /\ acc = (<[node_id step := n]> nodes, ids ++ [node_id step]).
Proof.
  unfold collect_node. rewrite !seq_ok, err_decide_ok, err_if_ok.
  rewrite <-not_eq_None_Some. unfold node_id_is_empty.
  assert (Hn : ~ nodes !! node_id step <> None <-> nodes !! node_id step = None).
  { destruct (nodes !! node_id step); naive_solver. }
  rewrite Hn. naive_solver.
Qed.

Lemma index_ok_snoc nodes ids x :
  index_ok nodes ids -> nodes !! x = None ->
  index_ok (<[x := length ids]> nodes) (ids ++ [x]).
Proof.
  intros [Hnd Hix] Hx. assert (Hxi : x ∉ ids).
  { intros [i Hi]%list_elem_of_lookup. apply Hix in Hi. congruence. }
  split.
  - apply NoDup_app. split_and!; [done | | apply NoDup_singleton]. set_solver.
  - intros y i. destruct (decide (y = x)) as [->|Hy].
    + rewrite lookup_insert_eq, lookup_snoc_Some. split.
      * intros [= <-]. by right.
      * intros [[_ Hi]|[-> _]]; [|done]. apply Hix in Hi. congruence.
    + rewrite lookup_insert_ne, Hix, lookup_snoc_Some by done. split.
      * intros Hi. left. split; [by eapply lookup_lt_Some | done].
      * by intros [[_ ?]|[_ ?]].
Qed.

Lemma collect_from_ok l : forall nodes ids nodes' ids',
  index_ok nodes ids ->
  try_fold collect_node (nodes, ids) (enumerate (length ids) l) = Ok (nodes', ids') ->
  ids' = ids ++ map node_id l /\ index_ok nodes' ids'.
Proof.
  induction l as [|step l IH]; intros nodes ids nodes' ids' Hix Hc; cbn [enumerate try_fold map] in Hc |- *.
  - simplify_eq. by rewrite app_nil_r.
  - apply bind_ok in Hc as ([nodes1 ids1] & Hs & Hc).
    apply collect_node_ok in Hs as (_ & Hn & [= -> ->]).
    specialize (IH (<[node_id step := length ids]> nodes) (ids ++ [node_id step]) nodes' ids').
    rewrite length_app, Nat.add_comm in IH. simpl in IH.
    destruct IH as [-> Hix']; [by apply index_ok_snoc|done|].
    rewrite <-app_assoc in Hix'. by rewrite <-app_assoc.
Qed.

Lemma collect_nodes_ok w nodes ids :
  collect_nodes w = Ok (nodes, ids) -> ids = ids_of w /\ index_ok nodes (ids_of w).
Proof.
  intros Hc. destruct (collect_from_ok (steps w) ∅ [] nodes ids) as [-> Hix]; [|done|done].
  split; [constructor|]. intros x i. rewrite lookup_empty, lookup_nil. done.
Qed.

Lemma collect_nodes_local w e : collect_nodes w = Err e -> is_local e = true.
Proof.
  intros ([nodes ids] & [i step] & _ & Hs)%try_fold_err. unfold collect_node in Hs.
  destruct (node_id_is_empty (node_id step)); [by simplify_eq/=|]. simpl in Hs.
  destruct (bool_decide _); by simplify_eq/=.
Qed.

(** ** Generated identifiers are never blank *)

Lemma is_blank_graphic a s : is_graphic a = true -> is_blank (String a s) = false.
Proof.
  intros Ha. unfold is_graphic in Ha. apply andb_true_iff in Ha as [H1%N.leb_le H2%N.leb_le].
  assert (Hw1 : is_ws1 a = false) by (unfold is_ws1; lia).
  unfold is_blank, trim_start. cbn [trim_dir]. rewrite Hw1.
  destruct s as [|b s]; [done|].
  assert (Hw2 : is_ws2 a b = false) by (unfold is_ws2; lia). rewrite Hw2.
  destruct s as [|c s]; [done|].
  assert (Hw3 : is_ws3 a b c = false) by (unfold is_ws3; lia). by rewrite Hw3.
Qed.

Lemma dashed_graphic s : string_forall is_graphic (dashed s) = true.
Proof.
  induction s as [|a s IH]; [done|]. cbn [dashed]. cbv zeta.
  destruct (is_ascii_digit a || is_ascii_lowercase a || is_ascii_uppercase a) eqn:Ha.
  - cbn [string_forall]. rewrite IH, andb_true_r.
    unfold is_ascii_digit, is_ascii_lowercase, is_ascii_uppercase, to_ascii_lower, is_graphic in *.
    unfold is_ascii_uppercase. destruct ((65 <=? N_of_ascii a) && (N_of_ascii a <=? 90)) eqn:Hu; [|lia].
    rewrite N_ascii_embedding; lia.
  - destruct ((128 <=? N_of_ascii a) && (N_of_ascii a <? 192)); [done|].
    cbn [string_forall]. by rewrite IH.
Qed.

Lemma strip_dashes_forall f s : string_forall f s = true -> string_forall f (strip_dashes s) = true.
Proof.
  induction s as [|a s IH]; [done|]. cbn [strip_dashes string_forall].
  intros Hs. case_bool_decide; [|exact Hs]. apply IH. by apply andb_true_iff in Hs as [_ ?].
Qed.

Lemma rev_forall f s : string_forall f (String.rev s) = string_forall f s.
Proof. unfold String.rev. by rewrite string_forall_rev_app, andb_true_r. Qed.

Lemma node_id_not_blank step : is_blank (node_id step) = false.
Proof.
  unfold node_id. destruct (is_blank (stable_id step)) eqn:Hb; [|done].
  unfold generated_stable_id. cbv zeta.
  assert (Hg : string_forall is_graphic (trim_dashes (dashed (operation step))) = true).
  { unfold trim_dashes. rewrite rev_forall. apply strip_dashes_forall. rewrite rev_forall.
    apply strip_dashes_forall, dashed_graphic. }
  unfold is_empty. case_bool_decide as He; [by apply is_blank_graphic|].
  destruct (trim_dashes (dashed (operation step))) as [|a s]; [done|].
  apply andb_true_iff in Hg as [Ha _]. by apply is_blank_graphic.
Qed.

(** ** Runs that either succeed as promised or report a local error *)

Definition settles {A} (m : graph_run A) (Q : A -> Prop) : Prop :=
  (exists a, m = Done a /\ Q a) \/ (exists e, m = Failed e /\ is_local e = true).

Lemma settles_done {A} (a : A) (Q : A -> Prop) : Q a -> settles (Done a) Q.
Proof. left. by exists a. Qed.

Lemma settles_bind {A B} (m : graph_run A) (f : A -> graph_run B) (Q : A -> Prop) (R : B -> Prop) :
  settles m Q -> (forall a, Q a -> settles (f a) R) -> settles (m ≫= f) R.
Proof.
  intros [(a & -> & Ha) | (e & -> & He)] Hf; [by apply Hf | right; by exists e].
Qed.

Lemma settles_guard {B} (b : bool) e (k : graph_run B) (R : B -> Prop) :
  is_local e = true -> (b = false -> settles k R) -> settles (attempt (err_if b e) ;; k) R.
Proof. intros He Hk. destruct b; [right; by exists e | by apply Hk]. Qed.

Lemma settles_check (b : bool) e (R : unit -> Prop) :
  is_local e = true -> (b = false -> R tt) -> settles (attempt (err_if b e)) R.
Proof. intros He Hk. destruct b; [right; by exists e | left; exists tt; auto]. Qed.

Lemma settles_run_each {A} (f : A -> graph_run unit) (P : A -> Prop) l :
  (forall x, x ∈ l -> settles (f x) (fun _ => P x)) ->
  settles (run_each f l) (fun _ => Forall P l).
Proof.
  induction l as [|x l IH]; intros Hf; [by apply settles_done|]. cbn [run_each].
  eapply settles_bind; [apply Hf, list_elem_of_here|]. intros ? Hx.
  destruct IH as [(u & -> & Hl) | (e & -> & He)].
  - intros y Hy. apply Hf. by apply list_elem_of_further.
  - left. exists u. split; [done | by constructor].
  - right. by exists e.
Qed.

Lemma insert_dependency_add_edge d c adj ind :
  ~ edge adj d c -> insert_dependency d c (adj, ind) = add_edge d c (adj, ind).
Proof. intros He. unfold insert_dependency, add_edge. by rewrite bool_decide_false. Qed.

Lemma scan_dependencies_spec ids nodes node deps : forall unique adj ind,
  (forall x, is_Some (nodes !! x) <-> x ∈ ids) -> node ∈ ids -> dag_wf ids adj ind ->
  (forall d, d ∈ unique <-> edge adj d node) ->
  settles (scan_dependencies nodes node deps unique (adj, ind)) (fun '(unique', (adj', ind')) =>
    dag_wf ids adj' ind' /\ (forall d, d ∈ unique' <-> edge adj' d node)
    /\ (forall d c, edge adj' d c <-> edge adj d c \/ (c = node /\ d ∈ deps))).
Proof.
  induction deps as [|x deps IH]; intros unique adj ind Hn Hnode Hwf Hu; cbn [scan_dependencies].
  { apply settles_done. split_and!; [done|done|]. intros d c. split; [by left|].
    by intros [?|[_ ?%not_elem_of_nil]]. }
  apply settles_guard; [done|]. intros Hne%bool_decide_eq_false.
  apply settles_guard; [done|]. intros Hx%negb_false_iff%bool_decide_eq_true%Hn.
  case_bool_decide as Hin.
  - destruct (IH unique adj ind Hn Hnode Hwf Hu) as [([u [a i]] & -> & H1 & H2 & H3) | Hf]; [|by right].
    left. exists (u, (a, i)). split_and!; [done|done|done|]. intros d c.
    rewrite H3, elem_of_cons. apply Hu in Hin. naive_solver.
  - rewrite insert_dependency_add_edge by (by rewrite <-Hu).
    destruct (add_edge_wf ids adj ind x node Hwf Hx Hnode) as (adj1 & ind1 & -> & Hwf1 & He1).
    simpl. destruct (IH ({[x]} ∪ unique) adj1 ind1 Hn Hnode Hwf1)
      as [([u [a i]] & -> & H1 & H2 & H3) | Hf]; [|left|by right].
    { intros d. rewrite He1, elem_of_union, elem_of_singleton, Hu. naive_solver. }
    exists (u, (a, i)). split_and!; [done|done|done|]. intros d c.
    rewrite H3, He1, elem_of_cons. naive_solver.
Qed.

Lemma exports_true step d p :
  exports step d p = true <-> exists o, o ∈ outputs step /\ ref_node o = Some d /\ port o = p.
Proof.
  unfold exports. rewrite existsb_exists. setoid_rewrite andb_true_iff.
  setoid_rewrite bool_decide_eq_true. split; intros (o & Ho & ? & ?); exists o.
  - split_and!; [by apply list_elem_of_In | done | done].
  - split_and!; [by apply list_elem_of_In | done | done].
Qed.

Lemma length_ids_of w : length (ids_of w) = length (steps w).
Proof. apply length_map. Qed.

Lemma index_step w nodes x i :
  index_ok nodes (ids_of w) -> nodes !! x = Some i -> exists step, steps w !! i = Some step.
Proof.
  intros [_ Hix] Hx%Hix%lookup_lt_Some. rewrite length_ids_of in Hx.
  by apply lookup_lt_is_Some_2 in Hx.
Qed.

Lemma validate_input_spec w nodes unique i node input :
  index_ok nodes (ids_of w) -> (forall d, d ∈ unique <-> d ∈ effective_deps w i) ->
  settles (validate_input w (is_legacy_linear w) nodes unique node input)
    (fun _ => input_resolves w i input).
Proof.
  intros Hix Hu. unfold validate_input, input_resolves.
  apply settles_guard; [done|]. intros Hb. destruct (ref_node input) as [d|].
  - apply settles_guard; [done|]. intros _.
    apply settles_guard; [done|]. intros Hn%negb_false_iff%bool_decide_eq_true.
    apply settles_guard; [done|]. intros Hd%negb_false_iff%bool_decide_eq_true%Hu.
    destruct (is_legacy_linear w); [apply settles_done; by split_and!; [..|left]|].
    destruct Hn as [j Hj]. rewrite Hj. destruct (index_step w nodes d j Hix Hj) as [step Hs].
    simpl. rewrite Hs. simpl. apply settles_check; [done|]. intros He%negb_false_iff%exports_true.
    split_and!; [done|done|]. right. exists j, step. split_and!; [by apply Hix | done | done].
  - apply settles_check; [done|]. intros He%negb_false_iff%existsb_exists. split; [done|].
    destruct He as (c & Hc & Hp%bool_decide_eq_true). exists c.
    split; [by apply list_elem_of_In | done].
Qed.

Lemma step_deps_eq w i step :
  steps w !! i = Some step ->
  step_deps (is_legacy_linear w) (ids_of w) i step = Done (effective_deps w i).
Proof.
  intros Hs. unfold step_deps, effective_deps.
  destruct (is_legacy_linear w && bool_decide (0 < i)%nat) eqn:Hl; [|by rewrite Hs].
  apply andb_true_iff in Hl as [_ Hi%bool_decide_eq_true].
  apply lookup_lt_Some in Hs.
  destruct (ids_of w !! (i - 1)%nat) eqn:Hp; [done|].
  apply lookup_ge_None in Hp. rewrite length_ids_of in Hp. lia.
Qed.

Lemma step_inputs_eq w i step :
  steps w !! i = Some step ->
  step_inputs (is_legacy_linear w) (ids_of w) i step = Done (effective_inputs w i).
Proof.
  intros Hs. unfold step_inputs, effective_inputs.
  destruct (is_legacy_linear w && bool_decide (0 < i)%nat) eqn:Hl; [|by rewrite Hs].
  apply andb_true_iff in Hl as [_ Hi%bool_decide_eq_true].
  apply lookup_lt_Some in Hs.
  destruct (ids_of w !! (i - 1)%nat) eqn:Hp; [done|].
  apply lookup_ge_None in Hp. rewrite length_ids_of in Hp. lia.
Qed.

Definition depends_upto (w : GeoWorkflow) (n : nat) (d c : string) : Prop :=
  exists i, (i < n)%nat /\ ids_of w !! i = Some c /\ d ∈ effective_deps w i.

Definition node_set (w : GeoWorkflow) : gset string := list_to_set (ids_of w).

Lemma link_steps_spec w nodes l : forall n adj ind,
  index_ok nodes (ids_of w) -> l = drop n (steps w) -> (n <= length (steps w))%nat ->
  dag_wf (node_set w) adj ind ->
  (forall d c, edge adj d c <-> depends_upto w n d c) ->
  (forall i, (i < n)%nat -> Forall (input_resolves w i) (effective_inputs w i)) ->
  settles (link_steps w (is_legacy_linear w) nodes (ids_of w) (enumerate n l) (adj, ind)
             (effective_deps w <$> seq 0 n))
    (fun '(dependencies, (adj', ind')) =>
       dependencies = (effective_deps w <$> seq 0 (length (steps w)))
       /\ dag_wf (node_set w) adj' ind'
       /\ (forall d c, edge adj' d c <-> depends_upto w (length (steps w)) d c)
       /\ (forall i, (i < length (steps w))%nat -> Forall (input_resolves w i) (effective_inputs w i))).
Proof.
  induction l as [|step l IH]; intros n adj ind Hix Hl Hn Hwf He Hin; cbn [enumerate link_steps].
  { assert (n = length (steps w)) as ->.
    { symmetry in Hl. apply (f_equal length) in Hl. rewrite length_drop in Hl. simpl in Hl. lia. }
    by apply settles_done. }
  assert (Hs : steps w !! n = Some step).
  { rewrite <-(Nat.add_0_r n), <-lookup_drop, <-Hl. done. }
  assert (Hl' : l = drop (S n) (steps w)).
  { apply drop_S in Hs. rewrite Hs in Hl. by simplify_eq. }
  assert (Hlt : (n < length (steps w))%nat) by by apply lookup_lt_Some in Hs.
  destruct (ids_of w !! n) as [node|] eqn:Hnode.
  2: { apply lookup_ge_None in Hnode. rewrite length_ids_of in Hnode. lia. }
  rewrite (step_deps_eq w n step Hs), (step_inputs_eq w n step Hs). simpl.
  assert (Hnin : node ∈ node_set w).
  { unfold node_set. apply elem_of_list_to_set. by eapply list_elem_of_lookup_2. }
  assert (Hfresh : forall d, ~ edge adj d node).
  { intros d (i & Hi & Hii & _)%He. destruct Hix as [Hnd _].
    pose proof (NoDup_lookup _ _ _ _ Hnd Hii Hnode). lia. }
  eapply settles_bind; [apply (scan_dependencies_spec (node_set w)); try done|].
  { intros x. unfold node_set. rewrite elem_of_list_to_set, list_elem_of_lookup.
    destruct Hix as [_ Hix]. unfold is_Some. by setoid_rewrite Hix. }
  { intros d. split; [set_solver | by intros ?%Hfresh]. }
  intros [unique [adj' ind']] (Hwf' & Hu & He').
  eapply settles_bind.
  { apply (settles_run_each _ (input_resolves w n)). intros input _.
    apply validate_input_spec; [done|]. intros d. rewrite Hu, He'. split.
    - by intros [?%Hfresh|[_ ?]].
    - intros Hd. by right. }
  intros ? Hall. specialize (IH (S n) adj' ind' Hix Hl').
  rewrite seq_S, fmap_app in IH. simpl in IH. apply IH; [lia|done| |].
  - intros d c. rewrite He', He. unfold depends_upto. split.
    + intros [(i & ? & ? & ?)|[-> Hd]]; [exists i; split_and!; [lia|done..] | exists n; by split_and!; [lia|..]].
    + intros (i & Hi & Hii & Hd). destruct (decide (i = n)) as [->|].
      * right. rewrite Hnode in Hii. by simplify_eq.
      * left. exists i. split_and!; [lia|done..].
  - intros i Hi. destruct (decide (i = n)) as [->|]; [done | apply Hin; lia].
Qed.

(** ** Roots and reachability *)

Definition all_deps (w : GeoWorkflow) : list (list string) := effective_deps w <$> seq 0 (length (steps w)).

Lemma all_deps_lookup w i :
  (i < length (steps w))%nat -> all_deps w !! i = Some (effective_deps w i).
Proof. intros Hi. unfold all_deps. rewrite list_lookup_fmap, lookup_seq_lt by done. done. Qed.

Lemma elem_of_graph_roots w i x :
  ids_of w !! i = Some x -> effective_deps w i = [] -> x ∈ graph_roots (ids_of w) (all_deps w).
Proof.
  intros Hx He. pose proof (lookup_lt_Some _ _ _ Hx) as Hi. rewrite length_ids_of in Hi.
  unfold graph_roots. apply (list_elem_of_fmap_2 fst _ (x, [])).
  apply list_elem_of_filter. split; [done|].
  apply (list_elem_of_lookup_2 _ i). rewrite lookup_zip_with, Hx. simpl.
  rewrite all_deps_lookup by done. simpl. by rewrite He.
Qed.

Lemma graph_roots_ids w x : x ∈ graph_roots (ids_of w) (all_deps w) -> x ∈ ids_of w.
Proof.
  unfold graph_roots. intros ([y deps] & -> & Hy)%list_elem_of_fmap.
  apply list_elem_of_filter in Hy as [_ [i Hi]%list_elem_of_lookup].
  rewrite lookup_zip_with in Hi. apply bind_Some in Hi as (z & Hz & Hi).
  apply bind_Some in Hi as (u & _ & [= <- _]). by eapply list_elem_of_lookup_2.
Qed.

Lemma elem_of_node_set w x : x ∈ node_set w <-> x ∈ ids_of w.
Proof. unfold node_set. apply elem_of_list_to_set. Qed.

(** In a complete schedule every node descends from a root. *)
Lemma schedule_reachable w (adj : gmap string (gset string)) order :
  (forall d c, edge adj d c <-> depends w d c) -> topological adj order ->
  forall l1 l2, order = l1 ++ l2 -> (forall x, x ∈ l1 -> x ∈ ids_of w) -> NoDup (ids_of w) ->
  forall x, x ∈ l1 ->
  exists r, r ∈ graph_roots (ids_of w) (all_deps w) /\ rtc (edge adj) r x.
Proof.
  intros He Ht l1. induction l1 as [|c l1 IH] using rev_ind; intros l2 Hl Hids Hnd x Hx.
  { by apply not_elem_of_nil in Hx. }
  rewrite <-app_assoc in Hl. apply elem_of_app in Hx as [Hx | ->%list_elem_of_singleton].
  - apply (IH _ Hl); [|done|done]. intros y Hy. apply Hids. set_solver.
  - assert (Hc : c ∈ ids_of w) by (apply Hids; set_solver).
    apply list_elem_of_lookup in Hc as [i Hi].
    destruct (effective_deps w i) as [|d deps] eqn:Hd.
    { exists c. split; [by eapply elem_of_graph_roots | done]. }
    assert (Hdc : edge adj d c).
    { apply He. exists i. split; [done|]. rewrite Hd. apply list_elem_of_here. }
    destruct (IH _ Hl) with (x := d) as (r & Hr & Hrd); [|done| |].
    + intros y Hy. apply Hids. set_solver.
    + by apply (Ht l1 c l2).
    + exists r. split; [done|]. by eapply rtc_r.
Qed.

Lemma children_list_step adj x y : step_to (children_list adj) x y <-> edge adj x y.
Proof.
  unfold step_to, children_list. split.
  - intros (l & [= <-] & Hy). by apply elem_of_btree_iter in Hy.
  - intros He. eexists. split; [done|]. by apply elem_of_btree_iter.
Qed.

Lemma reachable_from_spec ids adj roots :
  (forall d c, edge adj d c -> d ∈ ids /\ c ∈ ids) -> (forall r, r ∈ roots -> r ∈ ids) ->
  exists found, reachable_from ids adj roots = Some found
    /\ forall y, y ∈ found <-> exists r, r ∈ roots /\ rtc (edge adj) r y.
Proof.
  intros Hids Hr.
  destruct (explore_reachable push_back (children_list adj)) with (nodes := ids) (work := roots)
    as (found & Hf & Hy); [done| | |done|].
  - intros x _. by eexists.
  - intros x y _ Hxy%children_list_step. by apply (Hids x y).
  - exists found. split; [done|]. intros y. rewrite Hy.
    assert (Hrtc : forall r, rtc (step_to (children_list adj)) r y <-> rtc (edge adj) r y).
    { intros r. split; induction 1 as [| a b c Hab _ IH]; first [done | eapply rtc_l; [|done]];
        by apply children_list_step. }
    by setoid_rewrite Hrtc.
Qed.

(** ** Components *)

Lemma neighbours_spec w nodes adj x :
  index_ok nodes (ids_of w) -> (forall d c, edge adj d c <-> depends w d c) -> x ∈ node_set w ->
  exists l, neighbours nodes (all_deps w) adj x = Some l /\ forall y, y ∈ l <-> linked w x y.
Proof.
  intros [Hnd Hix] He [i Hi]%elem_of_node_set%list_elem_of_lookup.
  pose proof (lookup_lt_Some _ _ _ Hi) as Hlt. rewrite length_ids_of in Hlt.
  unfold neighbours. rewrite (proj2 (Hix x i) Hi). simpl. rewrite all_deps_lookup by done. simpl.
  eexists. split; [done|]. intros y. rewrite elem_of_app, elem_of_btree_iter.
  change (y ∈ children_of adj x) with (edge adj x y). rewrite He. unfold linked.
  assert (Hd : y ∈ effective_deps w i <-> depends w y x).
  { split; [intros ?; by exists i|]. intros (j & Hj & Hy).
    by rewrite (NoDup_lookup _ _ _ _ Hnd Hi Hj). }
  tauto.
Qed.

Lemma linked_step w nodes adj x y :
  index_ok nodes (ids_of w) -> (forall d c, edge adj d c <-> depends w d c) -> x ∈ node_set w ->
  step_to (neighbours nodes (all_deps w) adj) x y <-> linked w x y.
Proof.
  intros Hix He Hx. destruct (neighbours_spec w nodes adj x Hix He Hx) as (l & Hl & Hy).
  unfold step_to. rewrite Hl, <-Hy. naive_solver.
Qed.

Lemma component_spec w nodes adj start :
  index_ok nodes (ids_of w) -> (forall d c, edge adj d c <-> depends w d c) ->
  (forall d c, depends w d c -> d ∈ node_set w /\ c ∈ node_set w) -> start ∈ node_set w ->
  let next := neighbours nodes (all_deps w) adj in
  exists component,
    explore push_stack next (S (search_bound next (node_set w) [start] ∅)) [start] ∅ = Some component
    /\ forall y, y ∈ component <-> rtc (linked w) start y.
Proof.
  intros Hix He Hids Hs next.
  assert (Hcl : forall x y, x ∈ node_set w -> step_to next x y -> y ∈ node_set w).
  { intros x y Hx [Hxy|Hxy]%(linked_step w nodes adj x y Hix He Hx); by destruct (Hids _ _ Hxy). }
  destruct (explore_reachable push_stack next) with (nodes := node_set w) (work := [start])
    as (found & Hf & Hy); [| |done| |].
  - intros l k. unfold push_stack. rewrite reverse_Permutation. apply Permutation_app_comm.
  - intros x Hx. destruct (neighbours_spec w nodes adj x Hix He Hx) as (l & Hl & _). by exists l.
  - intros x ->%list_elem_of_singleton. done.
  - exists found. split; [done|]. intros y. rewrite Hy. split.
    + intros (x & ->%list_elem_of_singleton & Hr). revert Hs Hr. clear -Hix He Hcl.
      intros Hs Hr. induction Hr as [|a b c Hab _ IH]; [done|]. eapply rtc_l; [|apply IH].
      * by apply (linked_step w nodes adj).
      * by eapply Hcl.
    + intros Hr. exists start. split; [apply list_elem_of_here|]. revert Hs Hr. clear -Hix He Hcl.
      intros Hs Hr. induction Hr as [|a b c Hab _ IH]; [done|].
      assert (Hst : step_to next a b) by by apply (linked_step w nodes adj).
      eapply rtc_l; [done|]. apply IH. by eapply Hcl.
Qed.

(** One component is split off per iteration, so [size unvisited + 1] of them
    are enough; the first one is the component of the least node. *)
Lemma split_components_spec w nodes adj fuel : forall unvisited,
  index_ok nodes (ids_of w) -> (forall d c, edge adj d c <-> depends w d c) ->
  (forall d c, depends w d c -> d ∈ node_set w /\ c ∈ node_set w) ->
  unvisited ⊆ node_set w -> (size unvisited < fuel)%nat ->
  exists comps,
    split_components fuel (neighbours nodes (all_deps w) adj) (node_set w) unvisited = Some comps
    /\ (comps = [] <-> unvisited = ∅)
    /\ (forall start, pop_first unvisited = Some (start, unvisited ∖ {[start]}) ->
        length comps = 1%nat <-> forall y, y ∈ unvisited -> rtc (linked w) start y).
Proof.
  induction fuel as [|fuel IH]; intros un Hix He Hids Hun Hf; [lia|]. cbn [split_components].
  destruct (pop_first un) as [[start un']|] eqn:Hp.
  2: { apply pop_first_none in Hp as ->. exists []. split_and!; [done|done|done]. }
  pose proof (pop_first_some _ _ _ Hp) as (Hst & -> & _).
  destruct (component_spec w nodes adj start Hix He Hids) as (comp & Hc & Hy); [set_solver|].
  cbv zeta in Hc. rewrite Hc. simpl.
  assert (Hsc : start ∈ comp) by by apply Hy.
  assert (Hsz : (size (un ∖ {[start]} ∖ comp) < size un)%nat).
  { apply subset_size. split; [set_solver|]. intros Hsub. specialize (Hsub start Hst). set_solver. }
  destruct (IH (un ∖ {[start]} ∖ comp)) as (comps & Hsp & Hnil & _); [done..|set_solver|lia|].
  rewrite Hsp. simpl. exists (comp :: comps). split_and!; [done| |].
  - split; [done|]. intros ->. set_solver.
  - intros s [= <- _]. simpl. split.
    + intros [= Hl]. apply length_zero_iff_nil, Hnil in Hl. intros y Hyu. apply Hy.
      destruct (decide (y = start)) as [->|Hne]; [done|].
      destruct (decide (y ∈ comp)) as [|Hyc]; [done|]. set_solver.
    + intros Hall. f_equal. apply length_zero_iff_nil, Hnil. apply set_eq. intros y.
      split; [|set_solver]. intros Hyu. assert (y ∈ comp) by (apply Hy, Hall; set_solver). set_solver.
Qed.

Lemma linked_sym w x y : rtc (linked w) x y -> rtc (linked w) y x.
Proof.
  induction 1 as [|a b c Hab _ IH]; [done|]. eapply rtc_r; [exact IH|].
  destruct Hab; [by right | by left].
Qed.

Lemma components_spec w nodes adj :
  index_ok nodes (ids_of w) -> (forall d c, edge adj d c <-> depends w d c) ->
  (forall d c, depends w d c -> d ∈ node_set w /\ c ∈ node_set w) -> steps w <> [] ->
  exists comps,
    split_components (S (size (node_set w))) (neighbours nodes (all_deps w) adj)
      (node_set w) (node_set w) = Some comps
    /\ ((length comps <= 1)%nat <-> weakly_connected w).
Proof.
  intros Hix He Hids Hne.
  destruct (split_components_spec w nodes adj (S (size (node_set w))) (node_set w))
    as (comps & Hs & Hnil & Hone); [done..|lia|].
  exists comps. split; [done|].
  destruct (pop_first (node_set w)) as [[start un]|] eqn:Hp.
  2: { apply pop_first_none in Hp. destruct (steps w) as [|s ss] eqn:Hss; [done|].
       assert (Hin : node_id s ∈ node_set w); [|rewrite Hp in Hin; set_solver].
       apply elem_of_node_set. unfold ids_of. rewrite Hss. apply list_elem_of_here. }
  pose proof (pop_first_some _ _ _ Hp) as (Hst & -> & _). specialize (Hone start eq_refl).
  assert (Hc : (forall y, y ∈ node_set w -> rtc (linked w) start y) <-> weakly_connected w).
  { unfold weakly_connected. split.
    - intros Hall x y Hx%elem_of_node_set Hy%elem_of_node_set.
      etrans; [by apply linked_sym, Hall | by apply Hall].
    - intros Hall y Hy%elem_of_node_set. apply Hall; [by apply elem_of_node_set | done]. }
  rewrite <-Hc, <-Hone. destruct comps as [|c [|c' comps]]; simpl.
  - assert (Hem : node_set w = ∅) by by apply Hnil. rewrite Hem in Hst. set_solver.
  - lia.
  - lia.
Qed.

(** ** The verdict *)

Definition output_resolves (w : GeoWorkflow) (o : WorkflowDataRef) : Prop :=
  exists node i step, ref_node o = Some node /\ ids_of w !! i = Some node /\ steps w !! i = Some step
    /\ (is_legacy_linear w = true
        \/ exists p, p ∈ outputs step /\ ref_node p = Some node /\ port p = port o).

Lemma settles_attempt {A} (r : verdict A) (Q : A -> Prop) :
  (forall e, r = Err e -> is_local e = true) -> (forall a, r = Ok a -> Q a) -> settles (attempt r) Q.
Proof.
  intros He Hq. destruct r as [a|e]; [left; eauto | right; exists e; auto].
Qed.

Lemma local_bind {A B} (m : verdict A) (f : A -> verdict B) :
  (forall e, m = Err e -> is_local e = true) ->
  (forall a e, f a = Err e -> is_local e = true) ->
  forall e, (m ≫= f) = Err e -> is_local e = true.
Proof. intros Hm Hf e. destruct m as [a|e']; simpl; [apply Hf | intros [= ->]; auto]. Qed.

Lemma local_err_if (b : bool) e0 : is_local e0 = true ->
  forall e, err_if b e0 = Err e -> is_local e = true.
Proof. intros Hl e. destruct b; [by intros [= <-] | done]. Qed.

Lemma local_fold {A B} (f : B -> A -> verdict B) l :
  (forall b a e, f b a = Err e -> is_local e = true) ->
  forall b e, try_fold f b l = Err e -> is_local e = true.
Proof. intros Hf b e (b' & x & _ & Hx)%try_fold_err. by eapply Hf. Qed.

Lemma local_each {A} (f : A -> verdict unit) l :
  (forall a e, f a = Err e -> is_local e = true) ->
  forall e, for_each f l = Err e -> is_local e = true.
Proof.
  intros Hf. induction l as [|a l IH]; [done|]. cbn [for_each]. apply local_bind; [apply Hf|].
  intros _. apply IH.
Qed.

Lemma local_map_err {E A} (f : E -> WorkflowValidationError) (r : result E A) :
  (forall e, is_local (f e) = true) -> forall e, map_err f r = Err e -> is_local e = true.
Proof. intros Hf e. destruct r; [done | by intros [= <-]]. Qed.

Lemma local_some {A} (o : option A) (f : A -> verdict unit) :
  (forall a e, f a = Err e -> is_local e = true) ->
  forall e, if_some o f = Err e -> is_local e = true.
Proof. intros Hf e. destruct o; [apply Hf | done]. Qed.

Lemma local_pair {A B} (o : option A) (p : option B) bad e0 : is_local e0 = true ->
  forall e, reject_pair o p bad e0 = Err e -> is_local e = true.
Proof. intros Hl. unfold reject_pair. destruct o, p; try done. by apply local_err_if. Qed.

(** Walks the body of a contract check, which only reports local errors. *)
Ltac local_errors :=
  repeat first
    [ apply local_err_if; reflexivity
    | apply local_pair; reflexivity
    | apply local_map_err; reflexivity
    | apply local_bind; [|intros ?]
    | apply local_fold; intros ? ?
    | apply local_each; intros ?
    | apply local_some; intros ?
    | discriminate
    | progress intros ? ].

Lemma validate_input_contracts_local w e :
  validate_input_contracts w = Err e -> is_local e = true.
Proof.
  revert e. unfold validate_input_contracts, validate_input_contract, validate_geo_contract.
  cbv zeta. local_errors.
Qed.

Lemma validate_output_contracts_local nodes b e :
  validate_output_contracts nodes b = Err e -> is_local e = true.
Proof.
  revert e. unfold validate_output_contracts, validate_output_contract. cbv zeta.
  apply local_each. intros [node step]. local_errors.
Qed.

Lemma validate_outputs_local l e : for_each validate_outputs l = Err e -> is_local e = true.
Proof.
  revert e. apply local_each. intros [node step]. unfold validate_outputs. local_errors.
Qed.

Lemma validate_output_refs_spec w nodes :
  index_ok nodes (ids_of w) ->
  settles (validate_output_refs w nodes (is_legacy_linear w))
    (fun _ => Forall (output_resolves w) (output_refs w)).
Proof.
  intros Hix. apply settles_run_each. intros o _. unfold validate_output_ref.
  destruct (ref_node o) as [node|] eqn:Hn; [|right; by eexists].
  destruct (nodes !! node) as [i|] eqn:Hi; [|right; by eexists].
  destruct (index_step w nodes node i Hix Hi) as [step Hs].
  assert (Hii : ids_of w !! i = Some node) by by apply Hix.
  destruct (is_legacy_linear w) eqn:Hl.
  - apply settles_done. exists node, i, step. split_and!; [done..|]. left. exact Hl.
  - rewrite Hs. simpl. apply settles_check; [done|]. intros He%negb_false_iff%exports_true.
    exists node, i, step. split_and!; [done..|]. by right.
Qed.

Definition acyclic (w : GeoWorkflow) : Prop := forall c, ~ tc (depends w) c c.

(** What a returned order guarantees *)
Definition schedule_ok (w : GeoWorkflow) (order : list string) : Prop :=
  NoDup (ids_of w) /\ order ≡ₚ ids_of w /\ respects w order
  /\ (forall i r, (i < length (steps w))%nat -> r ∈ effective_inputs w i -> input_resolves w i r)
  /\ Forall (output_resolves w) (output_refs w)
  /\ weakly_connected w
  /\ exists adj, (forall d c, edge adj d c <-> depends w d c) /\ greedy (node_set w) adj order.

Lemma size_node_set w : NoDup (ids_of w) -> size (node_set w) = length (ids_of w).
Proof. intros Hnd. unfold node_set. by apply size_list_to_set. Qed.

Lemma elements_node_set w : NoDup (ids_of w) -> elements (node_set w) ≡ₚ ids_of w.
Proof. intros Hnd. unfold node_set. by apply elements_list_to_set. Qed.

(** The checks between a complete Kahn order and the verdict *)
Definition graph_checks (w : GeoWorkflow) (nodes : gmap string nat)
    (adjacency : gmap string (gset string)) (order : list string) : graph_run (list string) :=
  let node_ids := ids_of w in
  reachable ← expect (reachable_from (node_set w) adjacency (graph_roots node_ids (all_deps w)));
  attempt (err_if (negb (bool_decide (size reachable = length node_ids)))
             (UnreachableNodes (filter (fun x => x ∉ reachable) node_ids)));;
  components ← expect (split_components (S (size (node_set w)))
                         (neighbours nodes (all_deps w) adjacency) (node_set w) (node_set w));
  attempt (err_if (bool_decide (1 < length components)%nat)
             (DisconnectedNodes (concat (map (fun c => str_iter c) (drop 1 components)))));;
  (if is_legacy_linear w then Done tt
   else attempt (for_each validate_outputs (zip node_ids (steps w))));;
  validate_output_refs w nodes (is_legacy_linear w);;
  attempt (validate_output_contracts (zip node_ids (steps w)) (is_legacy_linear w));;
  Done order.

Lemma roots_reach_all w adj order :
  NoDup (ids_of w) -> (forall d c, edge adj d c <-> depends w d c) ->
  (forall d c, depends w d c -> d ∈ node_set w /\ c ∈ node_set w) ->
  greedy (node_set w) adj order -> order ≡ₚ ids_of w ->
  reachable_from (node_set w) adj (graph_roots (ids_of w) (all_deps w)) = Some (node_set w).
Proof.
  intros Hnd He Hids Hg Hperm.
  destruct (reachable_from_spec (node_set w) adj (graph_roots (ids_of w) (all_deps w)))
    as (found & -> & Hfound).
  { intros d c Hd%He. by apply Hids. }
  { intros r Hr%graph_roots_ids. by apply elem_of_node_set. }
  f_equal. apply set_eq. intros x. rewrite Hfound. split.
  - intros (r & Hr & Hrx). apply graph_roots_ids, elem_of_node_set in Hr. revert Hr.
    induction Hrx as [|a b c Hab _ IH]; [done|]. intros _. apply IH.
    apply He in Hab. by destruct (Hids a b Hab).
  - intros Hx%elem_of_node_set. rewrite <-Hperm in Hx.
    apply (schedule_reachable w adj order He) with (l1 := order) (l2 := []);
      [by eapply greedy_topological | by rewrite app_nil_r | | done | done].
    intros y Hy. by rewrite <-Hperm.
Qed.

Lemma graph_checks_spec w nodes adj order :
  steps w <> [] -> index_ok nodes (ids_of w) ->
  (forall d c, edge adj d c <-> depends w d c) ->
  (forall d c, depends w d c -> d ∈ node_set w /\ c ∈ node_set w) ->
  greedy (node_set w) adj order -> order ≡ₚ ids_of w ->
  settles (graph_checks w nodes adj order)
    (fun o => o = order /\ weakly_connected w /\ Forall (output_resolves w) (output_refs w))
  \/ (~ weakly_connected w /\ exists l, graph_checks w nodes adj order = Failed (DisconnectedNodes l)).
Proof.
  intros Hne Hix He Hids Hg Hperm. pose proof Hix as [Hnd _]. unfold graph_checks. cbv zeta.
  rewrite (roots_reach_all w adj order) by done. cbn [expect mbind outcome_bind].
  rewrite bool_decide_true by (by apply size_node_set). cbn [negb err_if attempt mbind outcome_bind].
  destruct (components_spec w nodes adj Hix He Hids Hne) as (comps & -> & Hcomp).
  cbn [expect mbind outcome_bind]. rewrite <-Hcomp.
  destruct (decide (1 < length comps)%nat) as [Hlt|Hlt].
  - right. split; [lia|]. rewrite bool_decide_true by done. by eexists.
  - left. rewrite bool_decide_false by done. cbn [err_if attempt mbind outcome_bind].
    apply settles_bind with (Q := fun _ => True).
    { destruct (is_legacy_linear w); [by apply settles_done|].
      apply settles_attempt; [|done]. apply validate_outputs_local. }
    intros _ _. eapply settles_bind; [by apply validate_output_refs_spec|]. intros ? Hout.
    apply settles_bind with (Q := fun _ => True).
    { apply settles_attempt; [|done]. apply validate_output_contracts_local. }
    intros _ _. apply settles_done. split_and!; [done | apply Hcomp; lia | done].
Qed.

Lemma order_cases w :
  (exists e, topological_order w = Failed e /\ is_local e = true)
  \/ (exists order, topological_order w = Done order /\ schedule_ok w order /\ acyclic w)
  \/ (exists l, topological_order w = Failed (Cycle l) /\ ~ acyclic w /\
      forall x, x ∈ l <-> x ∈ ids_of w /\ exists c, tc (depends w) c c /\ rtc (depends w) c x)
  \/ (exists l, topological_order w = Failed (DisconnectedNodes l) /\ acyclic w /\ ~ weakly_connected w).
Proof.
  unfold topological_order, WorkflowGraph.topological_order.
  case_bool_decide as Hne; [left; by eexists|]. cbn [err_if attempt mbind outcome_bind]. cbv zeta.
  destruct (collect_nodes w) as [[nodes ids]|e] eqn:Hc.
  2: { left. exists e. split; [done | by eapply collect_nodes_local]. }
  apply collect_nodes_ok in Hc as [-> Hix]. pose proof Hix as [Hnd _].
  cbn [attempt mbind outcome_bind].
  destruct (validate_input_contracts w) as [u|e] eqn:Hv.
  2: { left. exists e. split; [done | by eapply validate_input_contracts_local]. }
  cbn [attempt mbind outcome_bind].
  destruct (link_steps_spec w nodes (steps w) 0 ∅ (zero_degrees (node_set w)) Hix)
    as [([deps [adj ind]] & Hl & -> & Hwf & He & Hin) | (e & Hl & Hloc)];
    [done|lia|apply zero_degrees_wf| | |..].
  { intros d c. split; [by intros ?%edge_empty|]. intros (i & ? & _). lia. }
  { intros i Hi. lia. }
  2: { left. exists e. split; [|done].
       change (list_to_set (ids_of w)) with (node_set w). simpl in Hl. by rewrite Hl. }
  change (list_to_set (ids_of w)) with (node_set w). simpl in Hl. rewrite Hl.
  cbn [mbind outcome_bind].
  assert (Hed : forall d c, edge adj d c <-> depends w d c).
  { intros d c. rewrite He. unfold depends_upto, depends. split.
    - intros (i & _ & ? & ?). by exists i.
    - intros (i & Hi & ?). exists i. split_and!; [|done|done].
      apply lookup_lt_Some in Hi. by rewrite length_ids_of in Hi. }
  assert (Hids : forall d c, depends w d c -> d ∈ node_set w /\ c ∈ node_set w).
  { intros d c Hd%Hed. destruct Hwf as (_ & Hids & _). by apply Hids. }
  assert (Hac : ~ cyclic adj <-> acyclic w).
  { unfold cyclic, acyclic. setoid_rewrite (tc_edge_ext adj (depends w) _ _ Hed). naive_solver. }
  destruct (kahn_result _ _ _ Hwf) as (order & ind' & -> & Hg & Hlen & Hperm & Hpos).
  cbn [expect mbind outcome_bind]. rewrite (size_node_set w Hnd) in Hlen, Hperm.
  destruct (decide (length order = length (ids_of w))) as [Hlo|Hlo].
  2: { right; right; left. exists (positive_degree ind').
       rewrite bool_decide_false by done. split_and!; [done|by rewrite <-Hac, <-Hlen|].
       intros x. rewrite Hpos, elem_of_node_set.
       setoid_rewrite (tc_edge_ext adj (depends w) _ _ Hed).
       by setoid_rewrite (rtc_edge_ext adj (depends w) _ _ Hed). }
  rewrite bool_decide_true by done. cbn [negb err_if attempt mbind outcome_bind].
  assert (Hp : order ≡ₚ ids_of w) by (rewrite Hperm by done; by apply elements_node_set).
  assert (Hacy : acyclic w) by by apply Hac, Hlen.
  destruct (graph_checks_spec w nodes adj order Hne Hix Hed Hids Hg Hp)
    as [[(o & Ho & -> & Hconn & Hout) | (e & Hf & Hloc)] | (Hnc & l & Hf)].
  - right; left. exists order. split; [exact Ho|]. split; [|done]. split_and!; [done|done| | |done|done|].
    + intros l1 c l2 Heq d Hd%Hed. by eapply (greedy_topological _ _ _ Hg).
    + intros i r Hi Hr. specialize (Hin i Hi). rewrite Forall_forall in Hin. by apply Hin.
    + by exists adj.
  - left. exists e. split; [exact Hf | done].
  - right; right; right. exists l. split; [exact Hf | done].
Qed.

(** ** The old linear format *)

Lemma legacy_deps w i step :
  is_legacy_linear w = true -> steps w !! i = Some step ->
  forall d, d ∈ effective_deps w i <-> exists j, i = S j /\ ids_of w !! j = Some d.
Proof.
  intros Hl Hs d. unfold effective_deps. rewrite Hl. simpl. case_bool_decide as Hi.
  - destruct i as [|i]; [lia|]. simpl. rewrite Nat.sub_0_r.
    destruct (ids_of w !! i) as [x|] eqn:Hx; simpl.
    + rewrite list_elem_of_singleton. naive_solver.
    + split; [by intros ?%not_elem_of_nil | naive_solver].
  - assert (i = O) as -> by lia. rewrite Hs. simpl.
    unfold is_legacy_linear in Hl. rewrite forallb_forall in Hl.
    assert (Hin : In step (steps w)) by (apply list_elem_of_In; by eapply list_elem_of_lookup_2).
    specialize (Hl step Hin). rewrite !andb_true_iff, !bool_decide_eq_true in Hl.
    destruct Hl as [[[_ ->] _] _]. split; [by intros ?%not_elem_of_nil | by intros (? & ? & _)].
Qed.

Lemma legacy_greedy w (adj : gmap string (gset string)) :
  is_legacy_linear w = true -> NoDup (ids_of w) -> (forall d c, edge adj d c <-> depends w d c) ->
  greedy (node_set w) adj (ids_of w).
Proof.
  intros Hl Hnd He l1 c l2 Heq.
  assert (Hc : ids_of w !! length l1 = Some c) by (rewrite Heq; by apply list_lookup_middle).
  assert (Hprefix : forall j x, ids_of w !! j = Some x -> (j < length l1)%nat <-> x ∈ l1).
  { intros j x Hj. split.
    - intros Hlt. rewrite Heq, lookup_app_l in Hj by done. by eapply list_elem_of_lookup_2.
    - intros [k Hk]%list_elem_of_lookup. pose proof (lookup_lt_Some _ _ _ Hk).
      assert (Hk' : ids_of w !! k = Some x) by (rewrite Heq, lookup_app_l; done).
      by rewrite (NoDup_lookup _ _ _ _ Hnd Hj Hk'). }
  assert (Hstep : forall j x, ids_of w !! j = Some x -> exists step, steps w !! j = Some step).
  { intros j x Hj%lookup_lt_Some. rewrite length_ids_of in Hj. by apply lookup_lt_is_Some_2 in Hj. }
  split.
  - split_and!.
    + apply elem_of_node_set. by eapply list_elem_of_lookup_2.
    + rewrite <-(Hprefix _ _ Hc). lia.
    + intros d (j & Hj & Hd)%He. rewrite (NoDup_lookup _ _ _ _ Hnd Hj Hc) in Hd.
      destruct (Hstep _ _ Hc) as [step Hs]. apply (legacy_deps w _ step Hl Hs) in Hd as (k & Hk & Hkd).
      apply (Hprefix k d Hkd). lia.
  - intros c' (Hin & Hn & Hd). apply elem_of_node_set, list_elem_of_lookup in Hin as [j Hj].
    rewrite <-(Hprefix j c' Hj) in Hn. destruct (decide (j = length l1)) as [->|Hne].
    { assert (c' = c) as -> by congruence. reflexivity. }
    exfalso. destruct j as [|j]; [lia|].
    destruct (ids_of w !! j) as [d|] eqn:Hjd.
    2: { apply lookup_ge_None in Hjd. apply lookup_lt_Some in Hj. lia. }
    destruct (Hstep _ _ Hj) as [step Hs].
    assert (Hdl : d ∈ l1).
    { apply Hd, He. exists (S j). split; [done|]. apply (legacy_deps w _ step Hl Hs). by exists j. }
    apply (Hprefix j d Hjd) in Hdl. lia.
Qed.
End Theory.

(** ** Properties *)

(** A workflow that passes validation is executable: its node identifiers are
    distinct, the order runs every node once and after its dependencies, every
    input reference names a graph input or a port exported by a dependency,
    every graph output names an exported port, and the graph is one connected
    component without cycles. *)
Theorem order_sound `{F64Display} `{JsonText} (sha256_hex : string -> string) w order :
  topological_order sha256_hex w = Done order ->
  NoDup (ids_of sha256_hex w) /\ order ≡ₚ ids_of sha256_hex w
  /\ respects sha256_hex w order
  /\ (forall i r, (i < length (steps w))%nat -> r ∈ effective_inputs sha256_hex w i ->
      input_resolves sha256_hex w i r)
  /\ Forall (output_resolves sha256_hex w) (output_refs w)
  /\ weakly_connected sha256_hex w /\ acyclic sha256_hex w.
Proof.
  intros Ho. destruct (order_cases sha256_hex w) as
    [(e & He & _) | [(o & He & (H1 & H2 & H3 & H4 & H5 & H6 & _) & H7) | [(l & He & _) | (l & He & _)]]];
    rewrite He in Ho; simplify_eq. done.
Qed.

(** C18: validation is total: no lookup panics and the searches finish within
    their bounds; the "unreachable nodes" report is never produced; a cycle
    report names exactly the nodes on a cycle or depending on one; and a
    disconnection report is only made about a disconnected graph. *)
Theorem order_total `{F64Display} `{JsonText} (sha256_hex : string -> string) w :
  topological_order sha256_hex w <> Panic
  /\ (forall l, topological_order sha256_hex w <> Failed (UnreachableNodes l))
  /\ (forall l, topological_order sha256_hex w = Failed (Cycle l) ->
      forall x, x ∈ l <-> x ∈ ids_of sha256_hex w /\
        exists c, tc (depends sha256_hex w) c c /\ rtc (depends sha256_hex w) c x)
  /\ (forall l, topological_order sha256_hex w = Failed (DisconnectedNodes l) ->
      ~ weakly_connected sha256_hex w).
Proof.
  destruct (order_cases sha256_hex w) as
    [(e & He & Hloc) | [(o & He & _) | [(l & He & _ & Hl) | (l & He & _ & Hl)]]]; rewrite He;
    split_and!; try done; intros l'; try intros [= ->]; try done.
Qed.

(** A workflow in the old linear format runs in the order in which its steps
    are written. *)
Theorem legacy_linear_order `{F64Display} `{JsonText} (sha256_hex : string -> string) w order :
  is_legacy_linear w = true -> topological_order sha256_hex w = Done order ->
  order = ids_of sha256_hex w.
Proof.
  intros Hl Ho. destruct (order_cases sha256_hex w) as
    [(e & He & _) | [(o & He & (Hnd & Hp & _ & _ & _ & _ & adj & Hadj & Hg) & _) | [(l & He & _) | (l & He & _)]]];
    rewrite He in Ho; simplify_eq.
  apply (greedy_unique (node_set sha256_hex w) adj); [done | by apply legacy_greedy | by rewrite Hp].
Qed.

(** The check for an empty stable identifier cannot fail: an identifier is
    either written out or generated, and a generated one is never blank; the
    only failure of the identifier scan is a duplicate. *)
Theorem only_duplicate_ids `{F64Display} `{JsonText} (sha256_hex : string -> string) w e :
  collect_nodes sha256_hex w = Err e -> exists id, e = DuplicateNodeId id.
Proof.
  intros ([nodes ids] & [i step] & _ & Hs)%try_fold_err. unfold collect_node in Hs.
  unfold node_id_is_empty in Hs. rewrite node_id_not_blank in Hs. simpl in Hs.
  destruct (bool_decide _); simplify_eq/=. by eexists.
Qed.

(** ** Concrete workflows *)

Definition example_step (id operation : string) (deps : list string) (ins outs : list WorkflowDataRef)
    : WorkflowStep :=
  {| step_id := "uuid"; stable_id := id; operation := operation; parameters := JNull;
     expected_schema := None; validation := None; provenance := None; depends_on := deps;
     inputs := ins; outputs := outs; output_contracts := [] |}.

Definition example_workflow (ics : list WorkflowInputContract) (ss : list WorkflowStep)
    (os : list WorkflowDataRef) : GeoWorkflow :=
  {| workflow_id := "uuid"; goal := "density"; assumptions := []; wf_inputs := [];
     input_contracts := ics; steps := ss; wf_outputs := []; output_refs := os; citations := [];
     review_status := Draft |}.

Definition density_workflow : GeoWorkflow :=
  example_workflow [with_crs jgd2011 (input_contract_new "wards")]
    [example_step "density" "Divide" ["population"; "area"]
       [ref_output "area" "result"; ref_output "population" "result"] [ref_output "density" "result"];
     example_step "population" "Load" [] [] [ref_output "population" "result"];
     example_step "area" "Area" [] [ref_input "wards"] [ref_output "area" "result"]]
    [ref_output "density" "result"].

Definition legacy_workflow : GeoWorkflow :=
  example_workflow [] [example_step "" "Second" [] [] []; example_step "" "First" [] [] []] [].

#[local] Instance no_display : F64Display := fun _ => "".
#[local] Instance no_text : JsonText := {| json_scalar := fun _ => "x"; json_key := fun k => k |}.

Lemma order_sound_witness :
  topological_order (fun s => s) density_workflow = Done ["area"; "population"; "density"]
  /\ respects (fun s => s) density_workflow ["area"; "population"; "density"].
Proof.
  split; [by vm_compute|].
  apply (order_sound (fun s => s) density_workflow ["area"; "population"; "density"]).
  by vm_compute.
Defined.

Lemma legacy_linear_order_witness :
  exists a b, topological_order (fun s => s) legacy_workflow = Done [a; b]
    /\ [a; b] = ids_of (fun s => s) legacy_workflow.
Proof.
  eexists _, _. split.
  - vm_compute. reflexivity.
  - apply (legacy_linear_order (fun s => s) legacy_workflow); by vm_compute.
Defined.

Lemma only_duplicate_ids_witness :
  exists id, DuplicateNodeId "a" = DuplicateNodeId id.
Proof.
  apply (only_duplicate_ids (fun s => s)
    (example_workflow [] [example_step "a" "x" [] [] []; example_step "a" "y" [] [] []] [])).
  by vm_compute.
Defined.
