(* ===== verification/WorkflowAccept.v ===== *)
(** * Which workflow graphs validation accepts

    [WorkflowGraph] follows [GeoWorkflow::topological_order] statement by
    statement. Here is the reference definition of an executable graph, and the
    proof that validation accepts exactly the executable graphs. *)

From S2P Require Import Prelude RustStd Crs Json Dag GeoContract WorkflowGraph.
Local Open Scope N_scope.

(** ** Executable graphs *)

Section Spec.
Context `{F64Display} `{JsonText} (sha256_hex : string -> string).
Abbreviation node_id := (node_id sha256_hex).
Abbreviation ids_of := (ids_of sha256_hex).
Abbreviation effective_deps := (effective_deps sha256_hex).
Abbreviation effective_inputs := (effective_inputs sha256_hex).

(** [o] agrees with [p] where both are given. *)
Definition agree {A B} (o : option A) (p : option B) (R : A -> B -> Prop) : Prop :=
  forall a b, o = Some a -> p = Some b -> R a b.

(** A contract of a graph input: the CRS is a registered one with its own unit,
    nothing is blank or unknown, and the older fields agree with the contract. *)
Record input_contract_wf (c : WorkflowInputContract) : Prop := {
  icw_name : is_blank (ic_name c) = false;
  icw_crs : on_some (ic_crs c) (fun crs => exists d, definition crs = Some d
              /\ ic_coordinate_unit c = Some (def_unit d));
  icw_unit : ic_coordinate_unit c <> Some Unit_Unknown;
  icw_value : on_some (value_unit c) (fun u => is_blank u = false);
  icw_source : on_some (source_snapshot c) (fun s => is_blank (uri s) = false);
  icw_contract : on_some (geo_contract c) (fun g => contract_wf g
    /\ agree (ic_crs c) (spatial g) (fun crs s => sc_crs s = Some crs)
    /\ agree (ic_coordinate_unit c) (spatial g) (fun u s => sc_coordinate_unit s = u)
    /\ agree (value_unit c) (measure g) (fun u m => measure_unit m = u)
    /\ agree (source_snapshot c) (gc_source g)
         (fun s o => same_source_contract_identity s (snapshot o) = true)) }.

Definition input_contracts_wf (w : GeoWorkflow) : Prop :=
  Forall input_contract_wf (input_contracts w) /\ NoDup (map ic_name (input_contracts w)).

(** The step's outputs are its own, under names that are not blank. *)
Definition outputs_wf (node : string) (step : WorkflowStep) : Prop :=
  outputs step <> [] /\ Forall (fun o => ref_node o = Some node /\ is_blank (port o) = false) (outputs step).

(** One well-formed contract per output port; in the old linear format ports are
    not declared. *)
Definition output_contracts_wf (legacy_linear : bool) (node : string) (step : WorkflowStep) : Prop :=
  Forall (fun c => is_blank (pc_port c) = false
    /\ (legacy_linear = true \/ exports step node (pc_port c) = true) /\ contract_wf (pc_contract c))
    (output_contracts step)
  /\ NoDup (map pc_port (output_contracts step)).

Definition each_step (w : GeoWorkflow) (P : string -> WorkflowStep -> Prop) : Prop :=
  forall i node step, ids_of w !! i = Some node -> steps w !! i = Some step -> P node step.

Record executable (w : GeoWorkflow) : Prop := {
  ex_steps : steps w <> [];
  ex_ids : NoDup (ids_of w);
  ex_input_contracts : input_contracts_wf w;
  ex_deps : forall d c, depends sha256_hex w d c -> d ∈ ids_of w;
  ex_acyclic : acyclic sha256_hex w;
  ex_connected : weakly_connected sha256_hex w;
  ex_inputs : forall i r, (i < length (steps w))%nat -> r ∈ effective_inputs w i ->
                input_resolves sha256_hex w i r;
  ex_outputs : is_legacy_linear w = false -> each_step w outputs_wf;
  ex_refs : Forall (output_resolves sha256_hex w) (output_refs w);
  ex_output_contracts : each_step w (output_contracts_wf (is_legacy_linear w)) }.
End Spec.

(** ** The contract checks *)

Section Theory.
Context `{F64Display} `{JsonText} (sha256_hex : string -> string).
Abbreviation node_id := (node_id sha256_hex).
Abbreviation ids_of := (ids_of sha256_hex).
Abbreviation effective_deps := (effective_deps sha256_hex).
Abbreviation effective_inputs := (effective_inputs sha256_hex).
Abbreviation topological_order := (topological_order sha256_hex).

Lemma reject_pair_ok {A B} (o : option A) (p : option B) bad e u :
  reject_pair o p bad e = Ok u <-> agree o p (fun a b => bad a b = false).
Proof. destruct u. unfold reject_pair, agree. destruct o, p; rewrite ?err_if_ok; naive_solver. Qed.

Lemma agree_decide {A B} (o : option A) (p : option B) (P : A -> B -> Prop) `{forall a b, Decision (P a b)} :
  agree o p (fun a b => negb (bool_decide (P a b)) = false) <-> agree o p P.
Proof. unfold agree. setoid_rewrite negb_false_iff. by setoid_rewrite bool_decide_eq_true. Qed.

Lemma agree_negb {A B} (o : option A) (p : option B) (b : A -> B -> bool) :
  agree o p (fun x y => negb (b x y) = false) <-> agree o p (fun x y => b x y = true).
Proof. unfold agree. by setoid_rewrite negb_false_iff. Qed.

Lemma validate_geo_contract_ok c g u :
  validate_geo_contract c g = Ok u <->
  contract_wf g /\ agree (ic_crs c) (spatial g) (fun crs s => sc_crs s = Some crs)
  /\ agree (ic_coordinate_unit c) (spatial g) (fun u s => sc_coordinate_unit s = u)
  /\ agree (value_unit c) (measure g) (fun u m => measure_unit m = u)
  /\ agree (source_snapshot c) (gc_source g)
       (fun s o => same_source_contract_identity s (snapshot o) = true).
Proof.
  destruct u. unfold validate_geo_contract. cbv zeta.
  rewrite !seq_ok, map_err_ok, validate_contract_ok, !reject_pair_ok, !agree_decide, agree_negb. done.
Qed.

Lemma validate_input_contract_ok names c s :
  validate_input_contract names c = Ok s <->
  input_contract_wf c /\ ic_name c ∉ names /\ s = {[ic_name c]} ∪ names.
Proof.
  unfold validate_input_contract. cbv zeta.
  rewrite !seq_ok, !err_if_ok, !bool_decide_eq_false.
  rewrite (if_some_ok (ic_crs c) _ (fun crs => exists d, definition crs = Some d
    /\ ic_coordinate_unit c = Some (def_unit d))).
  2: { intros crs. rewrite bind_ok. unfold require_known. setoid_rewrite map_err_ok.
       setoid_rewrite ok_or_ok. setoid_rewrite err_unless_ok. by setoid_rewrite bool_decide_eq_true. }
  rewrite (if_some_ok (source_snapshot c) _ (fun s => is_blank (uri s) = false)) by (intros; apply err_if_ok).
  rewrite (if_some_ok (geo_contract c) _ _ _ (fun g => validate_geo_contract_ok c g tt)).
  assert (Hv : from_option is_blank false (value_unit c) = false
               <-> on_some (value_unit c) (fun u => is_blank u = false)) by by destruct (value_unit c).
  rewrite Hv. split.
  - intros (Hn & Hb & Hc & Hu & Hvu & Hs & Hg & [= <-]). by split_and!.
  - intros ([] & Hn & ->). by split_and!.
Qed.

Lemma validate_input_contracts_ok w u :
  validate_input_contracts w = Ok u <-> input_contracts_wf w.
Proof.
  unfold validate_input_contracts. apply distinct_loop_ok. intros s c s'. apply validate_input_contract_ok.
Qed.

Lemma validate_output_contract_ok legacy node step ports c s :
  validate_output_contract legacy node step ports c = Ok s <->
  (is_blank (pc_port c) = false
   /\ (legacy = true \/ exports step node (pc_port c) = true) /\ contract_wf (pc_contract c))
  /\ pc_port c ∉ ports /\ s = {[pc_port c]} ∪ ports.
Proof.
  unfold validate_output_contract. cbv zeta.
  rewrite !seq_ok, !err_if_ok, map_err_ok, validate_contract_ok, bool_decide_eq_false, andb_false_iff,
    !negb_false_iff. naive_solver.
Qed.

Lemma each_zip w (P : string * WorkflowStep -> Prop) :
  Forall P (zip (ids_of w) (steps w)) <-> each_step sha256_hex w (fun node step => P (node, step)).
Proof.
  rewrite Forall_lookup. unfold each_step. setoid_rewrite lookup_zip_with_Some. split.
  - intros Hall i node step Hn Hs. apply (Hall i). by exists node, step.
  - intros Hall i ? (node & step & -> & Hn & Hs). by eapply Hall.
Qed.

Lemma validate_output_contracts_ok w legacy u :
  validate_output_contracts (zip (ids_of w) (steps w)) legacy = Ok u
  <-> each_step sha256_hex w (output_contracts_wf legacy).
Proof.
  unfold validate_output_contracts. rewrite for_each_ok, each_zip. unfold each_step.
  split; intros Hall i node step Hn Hs; specialize (Hall i node step Hn Hs); revert Hall;
    rewrite (distinct_loop_ok pc_port); try done; intros ? ? ?; apply validate_output_contract_ok.
Qed.

Lemma validate_outputs_ok node step u :
  validate_outputs (node, step) = Ok u <-> outputs_wf node step.
Proof.
  destruct u. unfold validate_outputs, outputs_wf.
  rewrite seq_ok, err_if_ok, bool_decide_eq_false, for_each_ok. setoid_rewrite err_if_ok.
  setoid_rewrite orb_false_iff. setoid_rewrite negb_false_iff. by setoid_rewrite bool_decide_eq_true.
Qed.

Lemma validate_all_outputs_ok w u :
  for_each validate_outputs (zip (ids_of w) (steps w)) = Ok u
  <-> each_step sha256_hex w outputs_wf.
Proof.
  rewrite for_each_ok, each_zip. unfold each_step. by setoid_rewrite validate_outputs_ok.
Qed.

(** ** An executable graph passes every check *)

Lemma failed_bind {A B} (f : A -> graph_run B) (m : graph_run A) e :
  (m ≫= f) = Failed e -> m = Failed e \/ exists a, m = Done a /\ f a = Failed e.
Proof. destruct m; simpl; naive_solver. Qed.

Lemma attempt_failed {A} (r : verdict A) e : attempt r = Failed e -> r = Err e.
Proof. destruct r; simpl; naive_solver. Qed.

Lemma guard_failed (b : bool) e e' : attempt (E:=WorkflowValidationError) (err_if b e') = Failed e -> b = true.
Proof. by destruct b. Qed.

Lemma collect_nodes_total l : forall nodes ids,
  index_ok nodes ids -> NoDup (ids ++ map node_id l) ->
  exists r, try_fold (collect_node sha256_hex) (nodes, ids) (enumerate (length ids) l) = Ok r.
Proof.
  induction l as [|step l IH]; intros nodes ids Hix Hnd; cbn [enumerate try_fold map] in *; [by eexists|].
  assert (Hn : nodes !! node_id step = None).
  { destruct Hix as [_ Hix]. destruct (nodes !! node_id step) as [i|] eqn:Hi; [|done].
    apply Hix, list_elem_of_lookup_2 in Hi. apply NoDup_app in Hnd as (_ & Hd & _).
    exfalso. apply (Hd _ Hi), list_elem_of_here. }
  destruct (IH (<[node_id step := length ids]> nodes) (ids ++ [node_id step])) as [r Hr].
  { by apply index_ok_snoc. }
  { by rewrite <-app_assoc. }
  exists r. apply bind_ok. exists (<[node_id step := length ids]> nodes, ids ++ [node_id step]). split.
  - apply collect_node_ok. split_and!; [apply node_id_not_blank | done | done].
  - rewrite length_app, Nat.add_comm in Hr. exact Hr.
Qed.

(** Scanning the dependencies of one step *)
Lemma scan_dependencies_seen nodes node deps : forall unique g,
  (forall d, d ∈ deps -> d <> node /\ is_Some (nodes !! d)) ->
  match scan_dependencies nodes node deps unique g with
  | Done (unique', _) => forall d, d ∈ unique' <-> d ∈ unique \/ d ∈ deps
  | Failed _ => False
  | Panic => True
  end.
Proof.
  induction deps as [|x deps IH]; intros unique g Hd; cbn [scan_dependencies].
  { intros d. split; [by left|]. by intros [?|?%not_elem_of_nil]. }
  destruct (Hd x) as [Hne Hin]; [apply list_elem_of_here|].
  assert (Hd' : forall d, d ∈ deps -> d <> node /\ is_Some (nodes !! d)).
  { intros d Hdd. by apply Hd, list_elem_of_further. }
  rewrite (bool_decide_false (x = node) Hne), (bool_decide_true _ Hin). simpl.
  case_bool_decide as Hx; [|destruct (insert_dependency x node g) as [g'|]; [simpl|done]].
  - specialize (IH unique g Hd'). destruct (scan_dependencies _ _ _ _ _) as [[u g']|e|]; [|done..].
    intros d. rewrite IH, elem_of_cons. naive_solver.
  - specialize (IH ({[x]} ∪ unique) g' Hd').
    destruct (scan_dependencies _ _ _ _ _) as [[u g'']|e|]; [|done..].
    intros d. rewrite IH, elem_of_union, elem_of_singleton, elem_of_cons. tauto.
Qed.

Lemma validate_input_accepts w nodes unique i node input e :
  index_ok nodes (ids_of w) -> (forall d, d ∈ unique <-> d ∈ effective_deps w i) ->
  (forall d, d ∈ effective_deps w i -> d ∈ ids_of w) -> node ∉ effective_deps w i ->
  input_resolves sha256_hex w i input ->
  validate_input w (is_legacy_linear w) nodes unique node input <> Failed e.
Proof.
  intros Hix Hu Hin Hnode [Hb Hr] Hf. unfold validate_input in Hf. rewrite Hb in Hf. simpl in Hf.
  destruct (ref_node input) as [d|].
  - destruct Hr as [Hd Hl].
    apply failed_bind in Hf as [Hf%guard_failed%bool_decide_eq_true|(_ & _ & Hf)]; [by subst|].
    apply failed_bind in Hf as [Hf%guard_failed%negb_true_iff%bool_decide_eq_false|(_ & _ & Hf)].
    { apply Hf. apply Hin, list_elem_of_lookup in Hd as [j Hj]. exists j. by apply Hix. }
    apply failed_bind in Hf as [Hf%guard_failed%negb_true_iff%bool_decide_eq_false|(_ & _ & Hf)].
    { by apply Hf, Hu. }
    destruct (is_legacy_linear w); [done|]. destruct Hl as [?|(j & step & Hj & Hs & Ho)]; [done|].
    destruct Hix as [_ Hix]. rewrite (proj2 (Hix d j) Hj) in Hf. simpl in Hf. rewrite Hs in Hf. simpl in Hf.
    apply guard_failed, negb_true_iff in Hf. apply not_true_iff_false in Hf. by apply Hf, exports_true.
  - destruct Hr as (c & Hc & Hp). apply guard_failed, negb_true_iff in Hf.
    apply not_true_iff_false in Hf. apply Hf, existsb_exists. exists c.
    split; [by apply list_elem_of_In | by apply bool_decide_eq_true].
Qed.

Lemma run_each_accepts {A} (f : A -> graph_run unit) l e :
  (forall x, x ∈ l -> f x <> Failed e) -> run_each f l <> Failed e.
Proof.
  induction l as [|x l IH]; intros Hf; cbn [run_each]; [done|].
  intros [Hx|(u & _ & Hl)]%failed_bind.
  - by apply (Hf x); [apply list_elem_of_here|].
  - apply IH; [|done]. intros y Hy. by apply Hf, list_elem_of_further.
Qed.

Lemma not_own_dependency w i node :
  acyclic sha256_hex w -> ids_of w !! i = Some node -> node ∉ effective_deps w i.
Proof. intros Ha Hi Hd. apply (Ha node). apply tc_once. by exists i. Qed.

Lemma link_steps_accepts w nodes e l : forall n g deps,
  executable sha256_hex w -> index_ok nodes (ids_of w) -> l = drop n (steps w) ->
  link_steps w (is_legacy_linear w) nodes (ids_of w) (enumerate n l) g deps <> Failed e.
Proof.
  induction l as [|step l IH]; intros n g deps Hex Hix Hl; cbn [enumerate link_steps]; [done|].
  assert (Hs : steps w !! n = Some step) by (rewrite <-(Nat.add_0_r n), <-lookup_drop, <-Hl; done).
  assert (Hl' : l = drop (S n) (steps w)) by (apply drop_S in Hs; rewrite Hs in Hl; by simplify_eq).
  destruct (ids_of w !! n) as [node|] eqn:Hnode; [|done].
  assert (Hdeps : forall d, d ∈ effective_deps w n -> d ∈ ids_of w).
  { intros d Hd. apply (ex_deps _ _ Hex) with (c := node). by exists n. }
  rewrite (step_deps_eq sha256_hex w n step Hs), (step_inputs_eq sha256_hex w n step Hs). simpl.
  pose proof (not_own_dependency w n node (ex_acyclic _ _ Hex) Hnode) as Hself.
  pose proof (scan_dependencies_seen nodes node (effective_deps w n) ∅ g) as Hscan.
  destruct (scan_dependencies _ _ _ _ _) as [[unique g']|e'|]; simpl; [| |done].
  2: { destruct Hscan. intros d Hd. split; [by intros ->|].
       apply Hdeps, list_elem_of_lookup in Hd as [j Hj]. exists j. by apply Hix. }
  intros [Hf|(_ & _ & Hf)]%failed_bind.
  - revert Hf. apply run_each_accepts. intros r Hr. apply validate_input_accepts with (i := n); try done.
    + intros d. rewrite Hscan; [set_solver|]. intros d' Hd. split; [by intros ->|].
      apply Hdeps, list_elem_of_lookup in Hd as [j Hj]. exists j. by apply Hix.
    + apply (ex_inputs _ _ Hex); [by eapply lookup_lt_Some | done].
  - by eapply IH.
Qed.

Lemma output_refs_accept w nodes e :
  index_ok nodes (ids_of w) -> Forall (output_resolves sha256_hex w) (output_refs w) ->
  validate_output_refs w nodes (is_legacy_linear w) <> Failed e.
Proof.
  intros [_ Hix] Hr. apply run_each_accepts. intros o Ho. rewrite Forall_forall in Hr.
  apply Hr in Ho as (node & i & step & Hn & Hi & Hs & Ho). unfold validate_output_ref.
  rewrite Hn, (proj2 (Hix node i) Hi). destruct (is_legacy_linear w); [done|].
  destruct Ho as [?|Ho]; [done|]. rewrite Hs. simpl. intros Hf%guard_failed%negb_true_iff.
  apply not_true_iff_false in Hf. by apply Hf, exports_true.
Qed.

Lemma executable_not_local w e :
  executable sha256_hex w -> topological_order w = Failed e -> is_local e = false.
Proof.
  intros Hex. unfold topological_order, WorkflowGraph.topological_order.
  rewrite bool_decide_false by apply (ex_steps _ _ Hex). cbn [err_if attempt mbind outcome_bind]. cbv zeta.
  destruct (collect_nodes_total (steps w) ∅ []) as [[nodes ids] Hc].
  { split; [constructor|]. intros x i. rewrite lookup_empty, lookup_nil. done. }
  { apply (ex_ids _ _ Hex). }
  change (try_fold _ _ _) with (collect_nodes sha256_hex w) in Hc. rewrite Hc.
  apply collect_nodes_ok in Hc as [-> Hix]. cbn [attempt mbind outcome_bind].
  rewrite (proj2 (validate_input_contracts_ok w tt) (ex_input_contracts _ _ Hex)).
  cbn [attempt mbind outcome_bind].
  intros [Hf|([deps [adj ind]] & _ & Hf)]%failed_bind; [by apply link_steps_accepts in Hf|].
  apply failed_bind in Hf as [Hf|([order ind'] & _ & Hf)]; [by destruct (kahn _ _ _)|].
  apply failed_bind in Hf as [Hf|(_ & _ & Hf)].
  { destruct (bool_decide _); [done|]. by simplify_eq/=. }
  apply failed_bind in Hf as [Hf|(reach & _ & Hf)]; [by destruct (reachable_from _ _ _)|].
  apply failed_bind in Hf as [Hf|(_ & _ & Hf)].
  { destruct (bool_decide _); [done|]. by simplify_eq/=. }
  apply failed_bind in Hf as [Hf|(comps & _ & Hf)]; [by destruct (split_components _ _ _ _)|].
  apply failed_bind in Hf as [Hf|(_ & _ & Hf)].
  { destruct (bool_decide _); [|done]. by simplify_eq/=. }
  apply failed_bind in Hf as [Hf|(_ & _ & Hf)].
  { destruct (is_legacy_linear w) eqn:Hl; [done|]. apply attempt_failed in Hf.
    by rewrite (proj2 (validate_all_outputs_ok w tt) (ex_outputs _ _ Hex Hl)) in Hf. }
  apply failed_bind in Hf as [Hf|(_ & _ & Hf)].
  { exfalso. by apply (output_refs_accept w nodes e Hix (ex_refs _ _ Hex)). }
  apply failed_bind in Hf as [Hf|(_ & _ & Hf)]; [|done]. apply attempt_failed in Hf.
  by rewrite (proj2 (validate_output_contracts_ok w _ tt) (ex_output_contracts _ _ Hex)) in Hf.
Qed.

(** ** A graph that passes every check is executable *)

Lemma validated_order w :
  validate sha256_hex w = Done tt <-> exists order, topological_order w = Done order.
Proof. unfold validate. rewrite outcome_bind_done. naive_solver. Qed.

(** The parts of a complete run *)
Lemma order_checks w order :
  topological_order w = Done order ->
  steps w <> [] /\ input_contracts_wf w
  /\ (is_legacy_linear w = false -> each_step sha256_hex w outputs_wf)
  /\ each_step sha256_hex w (output_contracts_wf (is_legacy_linear w)).
Proof.
  unfold topological_order, WorkflowGraph.topological_order. intros Ho.
  apply outcome_bind_done in Ho as (u & Hne%attempt_done%err_decide_ok & Ho). cbv zeta in Ho.
  apply outcome_bind_done in Ho as ([nodes ids] & [-> _]%attempt_done%collect_nodes_ok & Ho).
  apply outcome_bind_done in Ho as (u1 & Hc%attempt_done%validate_input_contracts_ok & Ho).
  apply outcome_bind_done in Ho as ([deps [adj ind]] & _ & Ho).
  apply outcome_bind_done in Ho as ([o ind'] & _ & Ho).
  apply outcome_bind_done in Ho as (u2 & _ & Ho). apply outcome_bind_done in Ho as (reach & _ & Ho).
  apply outcome_bind_done in Ho as (u3 & _ & Ho). apply outcome_bind_done in Ho as (comps & _ & Ho).
  apply outcome_bind_done in Ho as (u4 & _ & Ho). apply outcome_bind_done in Ho as (u5 & Hout & Ho).
  apply outcome_bind_done in Ho as (u6 & _ & Ho).
  apply outcome_bind_done in Ho as (u7 & Hoc%attempt_done%validate_output_contracts_ok & _).
  split_and!; [done|done| |done]. intros Hl. rewrite Hl in Hout.
  by apply attempt_done, validate_all_outputs_ok in Hout.
Qed.

Lemma dependency_scheduled w order d c :
  order ≡ₚ ids_of w -> respects sha256_hex w order -> depends sha256_hex w d c -> d ∈ ids_of w.
Proof.
  intros Hp Hr Hd. assert (Hc : c ∈ order).
  { rewrite Hp. destruct Hd as (i & Hi & _). by eapply list_elem_of_lookup_2. }
  apply list_elem_of_split in Hc as (l1 & l2 & Heq). rewrite <-Hp, Heq, elem_of_app.
  left. by apply (Hr l1 c l2 Heq).
Qed.

Lemma ordered_executable w order : topological_order w = Done order -> executable sha256_hex w.
Proof.
  intros Ho. destruct (order_checks w order Ho) as (Hne & Hc & Hout & Hoc).
  destruct (order_cases sha256_hex w) as
    [(e & He & _) | [(o & He & (H1 & H2 & H3 & H4 & H5 & H6 & _) & H7) | [(l & He & _) | (l & He & _)]]];
    rewrite He in Ho; try done.
  split; try done. intros d c. by apply (dependency_scheduled w o).
Qed.

Lemma executable_ordered w : executable sha256_hex w -> exists order, topological_order w = Done order.
Proof.
  intros Hex. destruct (order_cases sha256_hex w) as
    [(e & He & Hl) | [(o & He & _) | [(l & He & Hc & _) | (l & He & _ & Hc)]]].
  - by rewrite (executable_not_local w e Hex He) in Hl.
  - by exists o.
  - destruct Hc. apply (ex_acyclic _ _ Hex).
  - destruct Hc. apply (ex_connected _ _ Hex).
Qed.

Lemma validated_executable w : validate sha256_hex w = Done tt <-> executable sha256_hex w.
Proof.
  rewrite validated_order. split; [by intros [o Ho%ordered_executable] | apply executable_ordered].
Qed.
End Theory.

(** ** Properties *)

(** C2: validation accepts a workflow exactly when it is executable: some steps,
    distinct identifiers, well-formed and distinct input contracts, dependencies
    and inputs that resolve, no cycle, one connected component, named outputs
    and well-formed output contracts. It is complete, not only sound. *)
Theorem validate_iff_executable `{F64Display} `{JsonText} (sha256_hex : string -> string) w :
  validate sha256_hex w = Done tt <-> executable sha256_hex w.
Proof. apply validated_executable. Qed.
