(* ===== verification/EditLayer.v ===== *)
(** * Revisioned vector editing (crates/genegis-core/src/edit.rs)

    The editable layer of a project: typed edits under optimistic concurrency,
    validated against CRS, geometry family and a closed attribute schema.
    [apply] takes [&mut self]: the layer is the state of a state-error monad, so
    a failing edit could leave a mutated layer behind, and theorems show that it
    does not. Areas are computed in binary64. *)

From S2P Require Import Prelude RustStd Crs.
Local Open Scope N_scope.

(** ** Data *)

Inductive AttributeValue :=
| AV_Null
| AV_Boolean (b : bool)
| AV_Integer (z : Z)
| AV_Number (x : f64)
| AV_Text (s : string).

Inductive AttributeType := AT_Boolean | AT_Integer | AT_Number | AT_Text.
#[export] Instance AttributeType_eq_dec : EqDecision AttributeType.
Proof. solve_decision. Defined.

Record AttributeField := mkField { field_name : string; value_type : AttributeType; nullable : bool }.
Record FeatureSchema := mkSchema { primary_key : string; fields : list AttributeField }.

Inductive EditableGeometryKind := EG_Point | EG_LineString | EG_Polygon.
#[export] Instance EditableGeometryKind_eq_dec : EqDecision EditableGeometryKind.
Proof. solve_decision. Defined.

Definition point : Type := f64 * f64.
Abbreviation ring := (list point).

Inductive FeatureGeometry :=
| Point (p : point)
| LineString (points : list point)
| Polygon (rings : list ring)
| MultiPolygon (polygons : list (list ring)).

(** ** Geometry *)

Definition geometry_family (g : FeatureGeometry) : EditableGeometryKind :=
  match g with
  | Point _ => EG_Point
  | LineString _ => EG_LineString
  | Polygon _ | MultiPolygon _ => EG_Polygon
  end.

Definition coordinates (g : FeatureGeometry) : list point :=
  match g with
  | Point p => [p]
  | LineString points => points
  | Polygon rings => concat rings
  | MultiPolygon polygons => concat (concat polygons)
  end.

Definition f64_two : f64 := f64_of_Z 2.

(** [ring.windows(2)] pairs each vertex with the next. *)
Definition ring_area (r : ring) : f64 :=
  let crosses := zip_with (fun a b => f64_sub (f64_mul a.1 b.2) (f64_mul b.1 a.2)) r (tail r) in
  f64_div (f64_abs (f64_sum crosses)) f64_two.

Definition polygon_area (rings : list ring) : f64 :=
  f64_sub (match rings with r :: _ => ring_area r | [] => f64_zero end)
          (f64_sum (map ring_area (tail rings))).

Definition area (g : FeatureGeometry) : f64 :=
  match g with
  | Polygon rings => polygon_area rings
  | MultiPolygon polygons => f64_sum (map polygon_area polygons)
  | Point _ | LineString _ => f64_zero
  end.

(** [==] on [[f64; 2]] *)
Definition point_eqb (a b : point) : bool := f64_eqb a.1 b.1 && f64_eqb a.2 b.2.

(** [Vec::dedup] drops an element that equals the one kept before it. *)
Fixpoint dedup_after (last : point) (r : ring) : ring :=
  match r with
  | [] => []
  | p :: r => if point_eqb p last then dedup_after last r else p :: dedup_after p r
  end.
Definition dedup (r : ring) : ring :=
  match r with [] => [] | p :: r => p :: dedup_after p r end.

Definition repair_ring (r : ring) : ring :=
  let r := dedup r in
  match r with
  | [] => []
  | p :: r' => if point_eqb (List.last r' p) p then r else r ++ [p]
  end.

Definition repair (g : FeatureGeometry) : FeatureGeometry :=
  match g with
  | Polygon rings => Polygon (map repair_ring rings)
  | MultiPolygon polygons => MultiPolygon (map (map repair_ring) polygons)
  | other => other
  end.

Definition polygons_of (g : FeatureGeometry) : option (list (list ring)) :=
  match g with
  | Polygon rings => Some [rings]
  | MultiPolygon polygons => Some polygons
  | Point _ | LineString _ => None
  end.

(** ** Features, edits and the layer *)

Abbreviation Attributes := (gmap string AttributeValue).

Record EditableFeature := mkFeature {
  ef_id : string; ef_revision : N; ef_geometry : FeatureGeometry; ef_attributes : Attributes }.

Record FeatureDraft := mkDraft {
  fd_id : string; fd_geometry : FeatureGeometry; fd_attributes : Attributes }.

Inductive FeatureEdit :=
| Create (feature : FeatureDraft)
| Update (feature : FeatureDraft) (expected_feature_revision : N)
| Delete (feature_id : string) (expected_feature_revision : N)
| Split (feature_id : string) (expected_feature_revision : N) (parts : list FeatureDraft)
| Merge (feature_ids : list string) (expected_feature_revisions : list N) (merged : FeatureDraft)
| Repair (feature_id : string) (expected_feature_revision : N).

Definition workflow_operation (e : FeatureEdit) : string :=
  match e with
  | Create _ => "EditFeatureCreate" | Update _ _ => "EditFeatureUpdate"
  | Delete _ _ => "EditFeatureDelete" | Split _ _ _ => "EditFeatureSplit"
  | Merge _ _ _ => "EditFeatureMerge" | Repair _ _ => "EditFeatureRepair"
  end.

Record EditableLayer := mkLayer {
  layer_id : string;
  layer_crs : Crs;
  layer_coordinate_unit : CoordinateUnit;
  layer_geometry_kind : EditableGeometryKind;
  schema : FeatureSchema;
  revision : N;
  features : gmap string EditableFeature }.

Record EditReceipt := mkReceipt {
  before_revision : N; after_revision : N; changed_features : list string }.

Inductive EditError :=
| StaleRevision (expected actual : N)
| FeatureNotFound (id : string)
| DuplicateFeature (id : string)
| Geometry (reason : string)
| AttributesError (reason : string)
| Conservation (reason : string)
| LayerError (reason : string).

Definition into_feature (d : FeatureDraft) (revision : N) : EditableFeature :=
  {| ef_id := fd_id d; ef_revision := revision; ef_geometry := fd_geometry d;
     ef_attributes := fd_attributes d |}.

Definition with_features (l : EditableLayer) (fs : gmap string EditableFeature) : EditableLayer :=
  {| layer_id := layer_id l; layer_crs := layer_crs l;
     layer_coordinate_unit := layer_coordinate_unit l;
     layer_geometry_kind := layer_geometry_kind l; schema := schema l; revision := revision l;
     features := fs |}.

Definition with_revision (l : EditableLayer) (r : N) : EditableLayer :=
  {| layer_id := layer_id l; layer_crs := layer_crs l;
     layer_coordinate_unit := layer_coordinate_unit l;
     layer_geometry_kind := layer_geometry_kind l; schema := schema l; revision := r;
     features := features l |}.

(** ** Validation *)

Abbreviation checked := (result EditError unit).

(** Field names as a [BTreeSet]; the [expect] after it cannot fail, because the
    set contains the primary key. *)
Definition validate_schema (s : FeatureSchema) : checked :=
  let names : gset string := list_to_set (map field_name (fields s)) in
  err_if (is_blank (primary_key s) || bool_decide (fields s = []))
    (LayerError "schema needs a primary key and at least one field");;
  err_if (negb (bool_decide (size names = length (fields s)))
          || negb (bool_decide (primary_key s ∈ names)))
    (LayerError "schema field names must be unique and include the primary key");;
  match List.find (fun f => bool_decide (field_name f = primary_key s)) (fields s) with
  | Some f => err_if (nullable f || negb (bool_decide (value_type f ∈ [AT_Integer; AT_Text])))
      (LayerError "primary key must be non-null text or integer")
  | None => Ok tt
  end.

Definition value_matches (field : AttributeField) (value : AttributeValue) : bool :=
  match value with
  | AV_Null => nullable field
  | AV_Boolean _ => bool_decide (value_type field = AT_Boolean)
  | AV_Integer _ => bool_decide (value_type field = AT_Integer)
  | AV_Number x => bool_decide (value_type field = AT_Number) && f64_is_finite x
  | AV_Text _ => bool_decide (value_type field = AT_Text)
  end.

Definition validate_attributes (values : Attributes) (s : FeatureSchema) : checked :=
  err_if (negb (bool_decide (size values = length (fields s))))
    (AttributesError "attributes must exactly match the closed schema");;
  for_each (fun field =>
    value ← ok_or (values !! field_name field) (AttributesError ("missing field " +:+ field_name field));
    err_if (negb (value_matches field value))
      (AttributesError ("field " +:+ field_name field +:+ " violates type or null policy")))
    (fields s).

Definition validate_rings (rings : list ring) : checked :=
  err_if (bool_decide (rings = [])
          || existsb (fun r => (length r <? 4)%nat
               || negb (match r with [] => true | p :: r' => point_eqb p (List.last r' p) end)) rings)
    (Geometry "polygon rings must be closed and contain at least four coordinates");;
  err_if (f64_leb (area (Polygon rings)) f64_zero || negb (f64_is_finite (area (Polygon rings))))
    (Geometry "polygon area must be finite and positive after holes").

Definition validate_geometry (g : FeatureGeometry) (required : EditableGeometryKind) (crs : Crs)
    : checked :=
  err_if (negb (bool_decide (geometry_family g = required))) (Geometry "geometry family mismatch");;
  err_if (bool_decide (coordinates g = [])
          || existsb (fun p => negb (f64_is_finite p.1) || negb (f64_is_finite p.2)
               || negb (is_ok (validate_coordinate crs p.1 p.2))) (coordinates g))
    (Geometry "coordinates are empty, non-finite, or outside the CRS domain");;
  match g with
  | Point _ => Ok tt
  | LineString points =>
      err_if (length points <? 2)%nat (Geometry "line strings require at least two coordinates")
  | Polygon rings => validate_rings rings
  | MultiPolygon polygons =>
      err_if (bool_decide (polygons = [])) (Geometry "multipolygon is empty");;
      for_each validate_rings polygons
  end.

(** The binary64 number nearest to [1e-6] *)
Definition one_ppm : f64 := f64_lit 4722366482869645 (-72).

Definition relative_difference (input output : f64) : f64 :=
  f64_div (f64_abs (f64_sub input output))
    (f64_max (f64_max (f64_abs input) (f64_abs output)) f64_epsilon).

Definition require_area_conservation `{F64Display} (input output : f64) : checked :=
  err_if (f64_ltb one_ppm (relative_difference input output))
    (Conservation ("area changed from " +:+ f64_display input +:+ " to " +:+ f64_display output
                   +:+ "; tolerance is 1 ppm")).

Definition validate_draft (l : EditableLayer) (d : FeatureDraft) : checked :=
  err_if (is_blank (fd_id d) || (256 <? str_len (fd_id d))) (DuplicateFeature (fd_id d));;
  validate_geometry (fd_geometry d) (layer_geometry_kind l) (layer_crs l);;
  validate_attributes (fd_attributes d) (schema l).

(** [EditableLayer::new] *)
Definition layer_new `{F64Display} (layer_id : string) (crs : Crs) (kind : EditableGeometryKind)
    (s : FeatureSchema) : result EditError EditableLayer :=
  map_err (fun e => LayerError (crs_error_to_string e)) (require_known crs);;
  validate_schema s;;
  Ok {| layer_id := layer_id; layer_crs := crs; layer_coordinate_unit := Crs.coordinate_unit crs;
        layer_geometry_kind := kind; schema := s; revision := 0; features := ∅ |}.

(** ** The operations *)

Abbreviation edit A := (st EditableLayer EditError A).

Definition feature_with_revision (l : EditableLayer) (id : string) (expected : N)
    : result EditError EditableFeature :=
  feature ← ok_or (features l !! id) (FeatureNotFound id);
  err_if (negb (ef_revision feature =? expected)) (StaleRevision expected (ef_revision feature));;
  Ok feature.

(** [self.features.insert(..)] and [self.features.remove(..)] *)
Definition insert_feature (id : string) (f : EditableFeature) : edit unit :=
  modify (fun l => with_features l (<[id := f]> (features l))).
Definition remove_feature (id : string) : edit unit :=
  modify (fun l => with_features l (delete id (features l))).

Section Apply.
Context `{F64Display}.

Definition apply_create (feature : FeatureDraft) : edit (list string) :=
  l ← get;
  lift (validate_draft l feature);;
  lift (err_if (bool_decide (is_Some (features l !! fd_id feature))) (DuplicateFeature (fd_id feature)));;
  insert_feature (fd_id feature) (into_feature feature 1);;
  mret [fd_id feature].

Definition apply_update (feature : FeatureDraft) (expected : N) : edit (list string) :=
  l ← get;
  lift (validate_draft l feature);;
  previous ← lift (feature_with_revision l (fd_id feature) expected);
  insert_feature (fd_id feature) (into_feature feature (sat_add_u64 (ef_revision previous) 1));;
  mret [fd_id feature].

Definition apply_delete (feature_id : string) (expected : N) : edit (list string) :=
  l ← get;
  lift (feature_with_revision l feature_id expected);;
  remove_feature feature_id;;
  mret [feature_id].

(** The loop over the parts, threading the set of their identities *)
Definition check_part (l : EditableLayer) (feature_id : string) (ids : gset string)
    (part : FeatureDraft) : result EditError (gset string) :=
  validate_draft l part;;
  err_if (bool_decide (fd_id part ∈ ids)
          || (negb (bool_decide (fd_id part = feature_id))
              && bool_decide (is_Some (features l !! fd_id part)))) (DuplicateFeature (fd_id part));;
  Ok ({[fd_id part]} ∪ ids).

Definition apply_split (feature_id : string) (expected : N) (parts : list FeatureDraft)
    : edit (list string) :=
  l ← get;
  source ← lift (feature_with_revision l feature_id expected);
  lift (err_if (length parts <? 2)%nat
          (Conservation "a split requires at least two output features"));;
  ids ← lift (try_fold (check_part l feature_id) ∅ parts);
  let output_area := f64_sum (map (fun part => area (fd_geometry part)) parts) in
  lift (require_area_conservation (area (ef_geometry source)) output_area);;
  remove_feature feature_id;;
  st_each (fun part => insert_feature (fd_id part) (into_feature part (wrap 64 (ef_revision source + 1))))
    parts;;
  mret (str_iter ids).

(** What the merge loop accumulates: members, area, greatest revision *)
Definition merge_member (l : EditableLayer) (acc : list (list ring) * f64 * N)
    (entry : string * N) : result EditError (list (list ring) * f64 * N) :=
  let '(polygons, input_area, max_revision) := acc in
  let '(id, expected) := entry in
  feature ← feature_with_revision l id expected;
  members ← ok_or (polygons_of (ef_geometry feature))
    (Conservation "merge supports polygonal geometry only");
  Ok (polygons ++ members, f64_add input_area (area (ef_geometry feature)),
      N.max max_revision (ef_revision feature)).

Definition apply_merge (feature_ids : list string) (expected : list N) (merged : FeatureDraft)
    : edit (list string) :=
  l ← get;
  lift (err_if ((length feature_ids <? 2)%nat
                || negb (bool_decide (length feature_ids = length expected)))
          (Conservation "merge requires at least two identities and one revision per identity"));;
  let ids : gset string := list_to_set feature_ids in
  lift (err_if (negb (bool_decide (size ids = length feature_ids))) (DuplicateFeature "merge input"));;
  '(polygons, input_area, max_revision) ←
    lift (try_fold (merge_member l) ([], f64_zero, 0) (zip feature_ids expected));
  let merged := {| fd_id := fd_id merged; fd_geometry := MultiPolygon polygons;
                   fd_attributes := fd_attributes merged |} in
  lift (validate_draft l merged);;
  lift (require_area_conservation input_area (area (fd_geometry merged)));;
  lift (err_if (negb (bool_decide (fd_id merged ∈ ids))
                && bool_decide (is_Some (features l !! fd_id merged))) (DuplicateFeature (fd_id merged)));;
  st_each remove_feature (str_iter ids);;
  insert_feature (fd_id merged) (into_feature merged (sat_add_u64 max_revision 1));;
  let changed := str_iter ids in
  mret (if bool_decide (fd_id merged ∈ changed) then changed
        else merge_sort String.le (changed ++ [fd_id merged])).

Definition apply_repair (feature_id : string) (expected : N) : edit (list string) :=
  l ← get;
  previous ← lift (feature_with_revision l feature_id expected);
  let repaired := {| fd_id := ef_id previous; fd_geometry := repair (ef_geometry previous);
                     fd_attributes := ef_attributes previous |} in
  lift (validate_draft l repaired);;
  insert_feature feature_id (into_feature repaired (sat_add_u64 (ef_revision previous) 1));;
  mret [feature_id].

Definition apply_edit (e : FeatureEdit) : edit (list string) :=
  match e with
  | Create feature => apply_create feature
  | Update feature expected => apply_update feature expected
  | Delete feature_id expected => apply_delete feature_id expected
  | Split feature_id expected parts => apply_split feature_id expected parts
  | Merge feature_ids expected merged => apply_merge feature_ids expected merged
  | Repair feature_id expected => apply_repair feature_id expected
  end.

(** [EditableLayer::apply] *)
Definition apply (expected_layer_revision : N) (e : FeatureEdit) : edit EditReceipt :=
  l ← get;
  lift (err_if (negb (revision l =? expected_layer_revision))
          (StaleRevision expected_layer_revision (revision l)));;
  changed ← apply_edit e;
  modify (fun l => with_revision l (sat_add_u64 (revision l) 1));;
  l' ← get;
  mret {| before_revision := revision l; after_revision := revision l';
          changed_features := changed |}.
End Apply.

(** ** What an edit does: the abstract specification *)

Section Spec.
Context `{F64Display}.

Definition draft_ok (l : EditableLayer) (d : FeatureDraft) : Prop := validate_draft l d = Ok tt.

Definition at_revision (l : EditableLayer) (id : string) (r : N) (f : EditableFeature) : Prop :=
  features l !! id = Some f /\ ef_revision f = r.

Definition conserved (input output : f64) : Prop :=
  f64_ltb one_ppm (relative_difference input output) = false.

(** The sources of a merge, read in the order in which they are named *)
Definition merge_sources (l : EditableLayer) (ids : list string) (revisions : list N)
    (sources : list EditableFeature) : Prop :=
  Forall2 (fun '(id, r) f => at_revision l id r f) (zip ids revisions) sources.

Definition merged_draft (d : FeatureDraft) (polygons : list (list ring)) : FeatureDraft :=
  {| fd_id := fd_id d; fd_geometry := MultiPolygon polygons; fd_attributes := fd_attributes d |}.

Definition repaired_draft (f : EditableFeature) : FeatureDraft :=
  {| fd_id := ef_id f; fd_geometry := repair (ef_geometry f); fd_attributes := ef_attributes f |}.

(** [effect l e fs changed]: edit [e] is allowed on [l]; it leaves the features
    [fs] and reports [changed]. *)
Inductive effect (l : EditableLayer) : FeatureEdit -> gmap string EditableFeature -> list string -> Prop :=
| effect_create d :
    draft_ok l d -> features l !! fd_id d = None ->
    effect l (Create d) (<[fd_id d := into_feature d 1]> (features l)) [fd_id d]
| effect_update d r f :
    draft_ok l d -> at_revision l (fd_id d) r f ->
    effect l (Update d r) (<[fd_id d := into_feature d (sat_add_u64 r 1)]> (features l)) [fd_id d]
| effect_delete id r f :
    at_revision l id r f ->
    effect l (Delete id r) (delete id (features l)) [id]
| effect_split id r parts f :
    at_revision l id r f -> (2 <= length parts)%nat ->
    Forall (draft_ok l) parts -> NoDup (map fd_id parts) ->
    (forall p, p ∈ parts -> fd_id p = id \/ features l !! fd_id p = None) ->
    conserved (area (ef_geometry f)) (f64_sum (map (fun p => area (fd_geometry p)) parts)) ->
    effect l (Split id r parts)
      (list_to_map (map (fun p => (fd_id p, into_feature p (wrap 64 (r + 1)))) parts)
       ∪ delete id (features l))
      (str_iter (list_to_set (map fd_id parts)))
| effect_merge ids rs d sources polygons :
    (2 <= length ids)%nat -> length ids = length rs -> NoDup ids ->
    merge_sources l ids rs sources ->
    mapM (fun f => polygons_of (ef_geometry f)) sources = Some polygons ->
    draft_ok l (merged_draft d (concat polygons)) ->
    conserved (foldl f64_add f64_zero (map (fun f => area (ef_geometry f)) sources))
      (area (MultiPolygon (concat polygons))) ->
    (fd_id d ∈ ids \/ features l !! fd_id d = None) ->
    effect l (Merge ids rs d)
      (<[fd_id d := into_feature (merged_draft d (concat polygons)) 
           (sat_add_u64 (foldl N.max 0 (map ef_revision sources)) 1)]>
         (filter (fun '(k, _) => k ∉ ids) (features l)))
      (str_iter ({[fd_id d]} ∪ list_to_set ids))
| effect_repair id r f :
    at_revision l id r f -> draft_ok l (repaired_draft f) ->
    effect l (Repair id r) (<[id := into_feature (repaired_draft f) (sat_add_u64 r 1)]> (features l)) [id].

(** ** Failing edits change nothing *)

Lemma apply_edit_atomic e : atomic (apply_edit e).
Proof.
  destruct e; cbn [apply_edit]; unfold apply_create, apply_update, apply_delete, apply_split,
    apply_merge, apply_repair, insert_feature, remove_feature; cbv zeta; solve_atomic.
  all: match goal with |- atomic (match ?x with _ => _ end) => destruct x as [[? ?] ?] end.
  all: solve_atomic.
Qed.

Lemma apply_atomic r e : atomic (apply r e).
Proof.
  unfold apply. do 2 (apply atomic_bind_reads; [first [apply reads_get | apply reads_lift] | intros ?]).
  apply atomic_bind_infallible; [apply apply_edit_atomic|]. intros ?. solve_infallible.
Qed.

(** ** The operations refine the specification *)

Lemma with_features_self l : with_features l (features l) = l.
Proof. by destruct l. Qed.

Lemma feature_with_revision_ok l id r f :
  feature_with_revision l id r = Ok f <-> at_revision l id r f.
Proof.
  unfold feature_with_revision, at_revision. rewrite bind_ok. setoid_rewrite ok_or_ok.
  setoid_rewrite seq_ok. setoid_rewrite err_if_ok. setoid_rewrite negb_false_iff.
  setoid_rewrite N.eqb_eq. naive_solver.
Qed.

Lemma insert_each_eq {A} (key : A -> string) (value : A -> EditableFeature) parts l :
  st_each (fun p => insert_feature (key p) (value p)) parts l
  = (Ok tt, with_features l (foldl (fun fs p => <[key p := value p]> fs) (features l) parts)).
Proof.
  revert l. induction parts as [|p parts IH]; intros l; cbn [st_each foldl].
  - by rewrite with_features_self.
  - change ((insert_feature (key p) (value p) ;; st_each (fun p => insert_feature (key p) (value p)) parts) l)
      with (st_each (fun p => insert_feature (key p) (value p)) parts
              (with_features l (<[key p := value p]> (features l)))).
    by rewrite IH.
Qed.

Lemma remove_each_eq ids l :
  st_each remove_feature ids l
  = (Ok tt, with_features l (foldl (fun fs id => delete id fs) (features l) ids)).
Proof.
  revert l. induction ids as [|id ids IH]; intros l; cbn [st_each foldl].
  - by rewrite with_features_self.
  - change ((remove_feature id ;; st_each remove_feature ids) l)
      with (st_each remove_feature ids (with_features l (delete id (features l)))).
    by rewrite IH.
Qed.

Lemma foldl_insert_map {A V} (key : A -> string) (value : A -> V) parts (m : gmap string V) :
  NoDup (map key parts) ->
  foldl (fun fs p => <[key p := value p]> fs) m parts
  = list_to_map (map (fun p => (key p, value p)) parts) ∪ m.
Proof.
  revert m. induction parts as [|p parts IH]; intros m; cbn [foldl map list_to_map foldr].
  - intros _. by rewrite map_empty_union.
  - intros [Hp Hnd]%NoDup_cons. rewrite IH by done. simpl.
    rewrite <-insert_union_r; [by rewrite insert_union_l|].
    apply not_elem_of_list_to_map_1. intros Hin. apply Hp.
    apply list_elem_of_fmap in Hin as ([k v] & -> & Hin).
    apply list_elem_of_fmap in Hin as (q & [= -> ->] & Hq).
    by apply (list_elem_of_fmap_2 key).
Qed.

Lemma foldl_delete_filter {V} (ids : list string) (m : gmap string V) :
  foldl (fun fs id => delete id fs) m ids = filter (fun '(k, _) => k ∉ ids) m.
Proof.
  revert m. induction ids as [|id ids IH]; intros m; cbn [foldl].
  - symmetry. apply map_filter_id. intros k v _ Hin. by apply not_elem_of_nil in Hin.
  - rewrite IH. apply map_eq. intros k. apply option_eq. intros v.
    rewrite !map_lookup_filter_Some, lookup_delete_Some, elem_of_cons. naive_solver.
Qed.

(** [m] on [l] succeeds exactly as [Q] says. *)
Definition runs_as {A} (m : edit A) (l : EditableLayer)
    (Q : gmap string EditableFeature -> A -> Prop) : Prop :=
  forall a l', m l = (Ok a, l') <-> exists fs, Q fs a /\ l' = with_features l fs.

Lemma lift_bind {A B} (r : result EditError A) (f : A -> edit B) l b l' :
  (lift r ≫= f) l = (Ok b, l') <-> exists a, r = Ok a /\ f a l = (Ok b, l').
Proof.
  rewrite st_bind_ok. setoid_rewrite lift_ok. split.
  - intros (a & s & [Hr ->] & Hf). by exists a.
  - intros (a & Hr & Hf). by exists a, l.
Qed.

Lemma get_bind {B} (f : EditableLayer -> edit B) l : (get ≫= f) l = f l l.
Proof. done. Qed.

Lemma modify_bind {B} g (f : unit -> edit B) l : (modify g ≫= f) l = f tt (g l).
Proof. done. Qed.

Lemma ret_ok {A} (a b : A) (l l' : EditableLayer) :
  (mret a : edit A) l = (Ok b, l') <-> b = a /\ l' = l.
Proof. unfold mret, st_ret. naive_solver. Qed.

Lemma None_not_Some {A} (o : option A) : ~ is_Some o <-> o = None.
Proof. symmetry. apply eq_None_not_Some. Qed.

Lemma apply_create_spec d l : runs_as (apply_create d) l (effect l (Create d)).
Proof.
  intros a l'. unfold apply_create, insert_feature. rewrite get_bind, lift_bind.
  setoid_rewrite lift_bind. setoid_rewrite modify_bind. setoid_rewrite ret_ok.
  setoid_rewrite err_decide_ok. setoid_rewrite None_not_Some. split.
  - intros ([] & Hv & [] & Hn & -> & ->). eexists. split; [by constructor | done].
  - intros (fs & He & ->). inversion He; subst. by repeat (split || eexists).
Qed.

Lemma apply_update_spec d r l : runs_as (apply_update d r) l (effect l (Update d r)).
Proof.
  intros a l'. unfold apply_update, insert_feature. rewrite get_bind, lift_bind.
  setoid_rewrite lift_bind. setoid_rewrite modify_bind. setoid_rewrite ret_ok.
  setoid_rewrite feature_with_revision_ok. split.
  - intros ([] & Hv & f & Hf & -> & ->). pose proof Hf as [_ <-].
    eexists. split; [by econstructor | done].
  - intros (fs & He & ->). inversion He as [|? ? f Hd Hf | | | |]; subst.
    pose proof Hf as [_ Hr]. exists tt. split; [done|]. exists f. by rewrite Hr.
Qed.

Lemma apply_delete_spec id r l : runs_as (apply_delete id r) l (effect l (Delete id r)).
Proof.
  intros a l'. unfold apply_delete, remove_feature. rewrite get_bind, lift_bind.
  setoid_rewrite modify_bind. setoid_rewrite ret_ok. setoid_rewrite feature_with_revision_ok. split.
  - intros (f & Hf & -> & ->). eexists. split; [by econstructor | done].
  - intros (fs & He & ->). inversion He as [| |? ? f Hf | | |]; subst. by exists f.
Qed.

Lemma apply_repair_spec id r l : runs_as (apply_repair id r) l (effect l (Repair id r)).
Proof.
  intros a l'. unfold apply_repair, insert_feature. rewrite get_bind, lift_bind.
  cbv zeta. setoid_rewrite lift_bind. setoid_rewrite modify_bind. setoid_rewrite ret_ok.
  setoid_rewrite feature_with_revision_ok. split.
  - intros (f & Hf & [] & Hv & -> & ->). pose proof Hf as [_ <-].
    eexists. split; [by apply (effect_repair l id (ef_revision f) f) | done].
  - intros (fs & He & ->). inversion He as [| | | | |? ? f Hf Hd]; subst.
    pose proof Hf as [_ Hr]. exists f. split; [done|]. exists tt. by rewrite Hr.
Qed.

Lemma check_part_ok l id ids p ids' :
  check_part l id ids p = Ok ids' <->
  (draft_ok l p /\ (fd_id p = id \/ features l !! fd_id p = None))
  /\ fd_id p ∉ ids /\ ids' = {[fd_id p]} ∪ ids.
Proof.
  unfold check_part, draft_ok. rewrite !seq_ok, err_if_ok, orb_false_iff, andb_false_iff.
  rewrite negb_false_iff, bool_decide_eq_true, !bool_decide_eq_false, None_not_Some.
  naive_solver.
Qed.

Lemma check_parts_ok l id parts ids :
  try_fold (check_part l id) ∅ parts = Ok ids <->
  Forall (draft_ok l) parts /\ NoDup (map fd_id parts)
  /\ (forall p, p ∈ parts -> fd_id p = id \/ features l !! fd_id p = None)
  /\ ids = list_to_set (map fd_id parts).
Proof.
  pose proof (distinct_fold_ok fd_id _ (check_part l id) parts
    (fun s a s' => check_part_ok l id s a s') ∅) as Hok.
  pose proof (distinct_fold_value fd_id _ (check_part l id) parts
    (fun s a s' => check_part_ok l id s a s') ∅) as Hval.
  rewrite Forall_and, (Forall_forall (fun p => _ \/ _)) in Hok. split.
  - intros Hf. pose proof (Hval ids Hf) as ->.
    destruct (proj1 Hok (ex_intro _ _ Hf)) as ((? & ?) & ? & _).
    split_and!; [done..|]. set_solver.
  - intros (H1 & H2 & H3 & ->). destruct (proj2 Hok) as [s Hs]; [set_solver|].
    pose proof (Hval s Hs) as ->. rewrite Hs. f_equal. set_solver.
Qed.

Lemma apply_split_spec id r parts l : runs_as (apply_split id r parts) l (effect l (Split id r parts)).
Proof.
  intros a l'. unfold apply_split, remove_feature. rewrite get_bind, lift_bind. cbv zeta.
  setoid_rewrite lift_bind. setoid_rewrite lift_bind. setoid_rewrite lift_bind.
  setoid_rewrite modify_bind. setoid_rewrite feature_with_revision_ok.
  setoid_rewrite check_parts_ok. setoid_rewrite err_if_ok. setoid_rewrite Nat.ltb_ge.
  setoid_rewrite st_bind_ok. setoid_rewrite (insert_each_eq fd_id). setoid_rewrite ret_ok. split.
  - intros (f & Hf & [] & Hlen & ids & (Hd & Hnd & Hfree & ->) & [] & Hc & ? & l1 & [-> ->] & -> & ->).
    pose proof Hf as [_ <-]. eexists. split; [by econstructor|].
    simpl. by rewrite (foldl_insert_map fd_id).
  - intros (fs & He & ->). inversion He as [| | |? ? ? f Hf Hlen Hd Hnd Hfree Hc | |]; subst.
    pose proof Hf as [_ Hr]. exists f. split; [done|]. exists tt. split; [done|].
    eexists. split; [done|]. exists tt. split; [done|]. exists tt. eexists. split; [done|].
    split; [done|]. simpl. by rewrite (foldl_insert_map fd_id), Hr.
Qed.

Lemma merge_member_ok l acc id r acc' :
  merge_member l acc (id, r) = Ok acc' <->
  exists f members, at_revision l id r f /\ polygons_of (ef_geometry f) = Some members
    /\ acc' = (acc.1.1 ++ members, f64_add acc.1.2 (area (ef_geometry f)),
               N.max acc.2 (ef_revision f)).
Proof.
  destruct acc as [[ps a] m]. unfold merge_member. rewrite bind_ok.
  setoid_rewrite feature_with_revision_ok. setoid_rewrite bind_ok. setoid_rewrite ok_or_ok.
  simpl. naive_solver.
Qed.

Lemma merge_members_ok l entries : forall acc acc',
  try_fold (merge_member l) acc entries = Ok acc' <->
  exists sources polygons,
    Forall2 (fun '(id, r) f => at_revision l id r f) entries sources
    /\ mapM (fun f => polygons_of (ef_geometry f)) sources = Some polygons
    /\ acc' = (acc.1.1 ++ concat polygons,
               foldl f64_add acc.1.2 (map (fun f => area (ef_geometry f)) sources),
               foldl N.max acc.2 (map ef_revision sources)).
Proof.
  induction entries as [|[id r] entries IH]; intros acc acc'; cbn [try_fold].
  - split.
    + intros [= <-]. exists [], []. destruct acc as [[ps a] m]. simpl. rewrite app_nil_r.
      split_and!; [constructor | done | done].
    + intros (sources & polygons & Hs & Hp & ->). inversion Hs; subst. injection Hp as <-.
      destruct acc as [[ps a] m]. simpl. by rewrite app_nil_r.
  - rewrite bind_ok. setoid_rewrite merge_member_ok. setoid_rewrite IH. split.
    + intros (acc1 & (f & ms & Hf & Hm & ->) & sources & polygons & Hs & Hp & ->).
      exists (f :: sources), (ms :: polygons). split_and!; [by constructor | |].
      * simpl. by rewrite Hm, Hp.
      * simpl. by rewrite app_assoc.
    + intros (sources & polygons & Hs & Hp & ->). inversion Hs as [|? f ? rest Hf Hrest]; subst.
      cbn [mapM] in Hp. apply bind_Some in Hp as (ms & Hm & Hp).
      apply bind_Some in Hp as (polys & Hp & [= <-]).
      eexists. split; [by exists f, ms|]. exists rest, polys. split_and!; [done | done |].
      simpl. by rewrite app_assoc.
Qed.

Lemma changed_by_merge (ids : list string) id :
  (if bool_decide (id ∈ str_iter (list_to_set ids)) then str_iter (list_to_set ids)
   else merge_sort String.le (str_iter (list_to_set ids) ++ [id]))
  = str_iter ({[id]} ∪ list_to_set ids).
Proof.
  case_bool_decide as Hin.
  - f_equal. apply elem_of_btree_iter in Hin. set_solver.
  - unfold btree_iter at 2. apply merge_sort_string_perm.
    rewrite elem_of_btree_iter in Hin.
    rewrite btree_iter_perm, elements_disj_union, elements_singleton by set_solver.
    apply Permutation_app_comm.
Qed.

Lemma err_length_ok {A B} (xs : list A) (ys : list B) (e : EditError) u :
  err_if ((length xs <? 2)%nat || negb (bool_decide (length xs = length ys))) e = Ok u <->
  (2 <= length xs)%nat /\ length xs = length ys.
Proof. by rewrite err_if_ok, orb_false_iff, Nat.ltb_ge, negb_false_iff, bool_decide_eq_true. Qed.

Lemma err_taken_ok (ids : list string) (id : string) (o : option EditableFeature) (e : EditError) u :
  err_if (negb (bool_decide (id ∈ (list_to_set ids : gset string))) && bool_decide (is_Some o)) e = Ok u
  <-> id ∈ ids \/ o = None.
Proof.
  rewrite err_if_ok, andb_false_iff, negb_false_iff, bool_decide_eq_true, bool_decide_eq_false.
  by rewrite elem_of_list_to_set, None_not_Some.
Qed.

Lemma err_repeated_ok (ids : list string) (e : EditError) u :
  err_if (negb (bool_decide (size (list_to_set ids : gset string) = length ids))) e = Ok u
  <-> NoDup ids.
Proof. by rewrite err_unless_ok, bool_decide_eq_true, size_list_to_set_NoDup. Qed.

Lemma filter_str_iter {V} (ids : list string) (m : gmap string V) :
  filter (fun '(k, _) => k ∉ str_iter (list_to_set ids)) m = filter (fun '(k, _) => k ∉ ids) m.
Proof.
  apply map_filter_ext. intros k v _. by rewrite elem_of_btree_iter, elem_of_list_to_set.
Qed.

(** The part of a merge after the members have been collected *)
Definition finish_merge (l : EditableLayer) (ids : list string) (d : FeatureDraft)
    (input_area : f64) (max_revision : N) : edit (list string) :=
  lift (validate_draft l d);;
  lift (require_area_conservation input_area (area (fd_geometry d)));;
  lift (err_if (negb (bool_decide (fd_id d ∈ (list_to_set ids : gset string)))
                && bool_decide (is_Some (features l !! fd_id d))) (DuplicateFeature (fd_id d)));;
  st_each remove_feature (str_iter (list_to_set ids));;
  insert_feature (fd_id d) (into_feature d (sat_add_u64 max_revision 1));;
  let changed := str_iter (list_to_set ids) in
  mret (if bool_decide (fd_id d ∈ changed) then changed
        else merge_sort String.le (changed ++ [fd_id d])).

Lemma finish_merge_ok l ids d input_area max_revision a l' :
  finish_merge l ids d input_area max_revision l = (Ok a, l') <->
  draft_ok l d /\ conserved input_area (area (fd_geometry d))
  /\ (fd_id d ∈ ids \/ features l !! fd_id d = None)
  /\ a = str_iter ({[fd_id d]} ∪ list_to_set ids)
  /\ l' = with_features l (<[fd_id d := into_feature d (sat_add_u64 max_revision 1)]>
                             (filter (fun '(k, _) => k ∉ ids) (features l))).
Proof.
  unfold finish_merge, insert_feature, require_area_conservation. cbv zeta. rewrite lift_bind.
  setoid_rewrite lift_bind. setoid_rewrite lift_bind. setoid_rewrite err_taken_ok.
  setoid_rewrite err_if_ok. setoid_rewrite st_bind_ok. setoid_rewrite remove_each_eq.
  setoid_rewrite modify_bind. setoid_rewrite ret_ok.
  rewrite changed_by_merge. split.
  - intros ([] & Hd & [] & Hc & [] & Hfree & ? & l1 & [-> ->] & -> & ->). split_and!; try done.
    simpl. by rewrite foldl_delete_filter, filter_str_iter.
  - intros (Hd & Hc & Hfree & -> & ->). exists tt. split; [done|]. exists tt. split; [done|].
    exists tt. split; [done|]. eexists _, _. split; [done|]. split; [done|].
    simpl. by rewrite foldl_delete_filter, filter_str_iter.
Qed.

Lemma apply_merge_spec ids rs d l : runs_as (apply_merge ids rs d) l (effect l (Merge ids rs d)).
Proof.
  intros a l'. unfold apply_merge. rewrite get_bind. cbv zeta. rewrite lift_bind.
  setoid_rewrite lift_bind. setoid_rewrite err_length_ok. setoid_rewrite err_repeated_ok.
  setoid_rewrite lift_bind. split.
  - intros (u1 & [Hl1 Hl2] & u2 & Hnd & [[ps ia] mr] & Hm & Hfin).
    apply merge_members_ok in Hm as (sources & polygons & Hs & Hp & [= -> -> ->]).
    apply (finish_merge_ok l ids (merged_draft d (concat polygons))) in Hfin
      as (Hd & Hc & Hfree & -> & ->).
    eexists. split; [|reflexivity]. by apply (effect_merge l ids rs d sources polygons).
  - intros (fs & He & ->).
    inversion He as [| | | |? ? ? sources polygons Hl1 Hl2 Hnd Hs Hp Hd Hc Hfree|]; subst.
    exists tt. split; [done|]. exists tt. split; [done|].
    exists (concat polygons, foldl f64_add f64_zero (map (fun f => area (ef_geometry f)) sources),
            foldl N.max 0 (map ef_revision sources)). split.
    + apply merge_members_ok. by exists sources, polygons.
    + by apply (finish_merge_ok l ids (merged_draft d (concat polygons))).
Qed.

Lemma apply_edit_spec e l : runs_as (apply_edit e) l (effect l e).
Proof.
  destruct e; [apply apply_create_spec | apply apply_update_spec | apply apply_delete_spec
    | apply apply_split_spec | apply apply_merge_spec | apply apply_repair_spec].
Qed.

Lemma apply_edit_ok e l a l' :
  apply_edit e l = (Ok a, l') <-> exists fs, effect l e fs a /\ l' = with_features l fs.
Proof. apply apply_edit_spec. Qed.

(** A successful call, spelled out *)
Lemma apply_ok r e l rc l' :
  apply r e l = (Ok rc, l') <->
  revision l = r /\ exists fs changed,
    effect l e fs changed
    /\ l' = with_revision (with_features l fs) (sat_add_u64 r 1)
    /\ rc = {| before_revision := r; after_revision := sat_add_u64 r 1; changed_features := changed |}.
Proof.
  unfold apply. rewrite get_bind, lift_bind. setoid_rewrite err_unless_ok. setoid_rewrite N.eqb_eq.
  setoid_rewrite st_bind_ok. setoid_rewrite apply_edit_ok. setoid_rewrite modify_bind.
  setoid_rewrite get_bind. setoid_rewrite ret_ok. split.
  - intros ([] & <- & changed & l1 & (fs & He & ->) & -> & ->). split; [done|]. by exists fs, changed.
  - intros (<- & fs & changed & He & -> & ->). exists tt. split; [done|].
    exists changed, (with_features l fs). split; [by exists fs | done].
Qed.

(** ** The layer invariant *)

Definition draft_of (f : EditableFeature) : FeatureDraft :=
  {| fd_id := ef_id f; fd_geometry := ef_geometry f; fd_attributes := ef_attributes f |}.

Definition feature_ok (l : EditableLayer) (id : string) (f : EditableFeature) : Prop :=
  ef_id f = id /\ draft_ok l (draft_of f) /\ ef_revision f <= u64_max.

Definition layer_wf (l : EditableLayer) : Prop :=
  is_Some (definition (layer_crs l))
  /\ layer_coordinate_unit l = Crs.coordinate_unit (layer_crs l)
  /\ validate_schema (schema l) = Ok tt
  /\ revision l <= u64_max
  /\ map_Forall (feature_ok l) (features l).

(** The states of a layer under any sequence of edits, failed ones included *)
Inductive reachable : EditableLayer -> Prop :=
| reachable_new id crs kind s l : layer_new id crs kind s = Ok l -> reachable l
| reachable_apply l r e res l' : reachable l -> apply r e l = (res, l') -> reachable l'.

Lemma sat_add_le a b : sat_add_u64 a b <= u64_max.
Proof. unfold sat_add_u64. lia. Qed.

Lemma feature_ok_into l d r : draft_ok l d -> r <= u64_max -> feature_ok l (fd_id d) (into_feature d r).
Proof. intros Hd Hr. split_and!; [done | by destruct d | done]. Qed.

Lemma wrap_le r : wrap 64 r <= u64_max.
Proof. unfold wrap, u64_max. pose proof (N.mod_upper_bound r (2 ^ 64)). lia. Qed.

Lemma list_to_map_lookup_some {A V} (key : A -> string) (value : A -> V) (l : list A) k v :
  (list_to_map (map (fun p => (key p, value p)) l) : gmap string V) !! k = Some v ->
  exists p, p ∈ l /\ key p = k /\ value p = v.
Proof.
  intros Hk. apply elem_of_list_to_map_2 in Hk.
  apply list_elem_of_fmap in Hk as (p & [= -> ->] & Hp). by exists p.
Qed.

(** Everything an edit writes is valid and sits under its own identity. *)
Lemma effect_writes l e fs changed id f :
  layer_wf l -> effect l e fs changed -> fs !! id = Some f ->
  features l !! id = Some f \/ feature_ok l id f.
Proof.
  intros (_ & _ & _ & _ & Hall) He Hf. destruct He; try rewrite lookup_insert_Some in Hf.
  - destruct Hf as [[<- <-] | [_ ?]]; [right | by left]. by apply feature_ok_into.
  - destruct Hf as [[<- <-] | [_ ?]]; [right | by left]. apply feature_ok_into; [done | apply sat_add_le].
  - apply lookup_delete_Some in Hf as [_ ?]. by left.
  - apply lookup_union_Some_raw in Hf as [Hp | [_ Hp]].
    + apply (list_to_map_lookup_some fd_id) in Hp as (p & Hp & <- & <-). right.
      apply feature_ok_into; [by eapply Forall_forall | apply wrap_le].
    + apply lookup_delete_Some in Hp as [_ ?]. by left.
  - destruct Hf as [[<- <-] | [_ Hf]].
    + right. apply (feature_ok_into l (merged_draft d (concat polygons))); [done | apply sat_add_le].
    + apply map_lookup_filter_Some in Hf as [? _]. by left.
  - destruct Hf as [[<- <-] | [_ ?]]; [right | by left].
    match goal with Hat : at_revision _ _ _ _ |- _ => destruct Hat as [Hl _] end.
    destruct (Hall _ _ Hl) as (<- & _). apply (feature_ok_into l (repaired_draft _)); [done | apply sat_add_le].
Qed.

Lemma effect_preserves_wf l e fs changed r :
  layer_wf l -> effect l e fs changed -> r <= u64_max ->
  layer_wf (with_revision (with_features l fs) r).
Proof.
  intros Hwf He Hr. pose proof Hwf as (H1 & H2 & H3 & _ & Hall).
  split_and!; [exact H1 | exact H2 | exact H3 | exact Hr |].
  intros id f Hf. destruct (effect_writes l e fs changed id f Hwf He Hf) as [Hl | Hok]; [|exact Hok].
  exact (Hall id f Hl).
Qed.

(** ** Which features an edit touches *)

(** [apply] leaves alone every feature it does not report, except that a split
    does not report the feature it removes. *)
Lemma effect_frame l e fs changed id :
  effect l e fs changed -> id ∉ changed ->
  (forall r parts, e = Split id r parts -> False) ->
  fs !! id = features l !! id.
Proof.
  intros He Hn Hs. destruct He; try (rewrite list_elem_of_singleton in Hn).
  - by rewrite lookup_insert_ne.
  - by rewrite lookup_insert_ne.
  - by rewrite lookup_delete_ne.
  - rewrite elem_of_btree_iter, elem_of_list_to_set in Hn.
    rewrite lookup_union_r, lookup_delete_ne; [done| |].
    + intros ->. by apply (Hs r parts).
    + apply eq_None_not_Some. intros [v Hv].
      apply (list_to_map_lookup_some fd_id) in Hv as (p & Hp & <- & _).
      apply Hn. by apply (list_elem_of_fmap_2 fd_id).
  - rewrite elem_of_btree_iter, elem_of_union, elem_of_singleton, elem_of_list_to_set in Hn.
    rewrite lookup_insert_ne by naive_solver. apply option_eq. intros v.
    rewrite map_lookup_filter_Some. naive_solver.
  - by rewrite lookup_insert_ne.
Qed.
End Spec.

(** ** Repairing rings *)

Definition finite_point (p : point) : Prop := f64_is_finite p.1 = true /\ f64_is_finite p.2 = true.

Lemma point_eqb_refl p : finite_point p -> point_eqb p p = true.
Proof. intros [H1 H2]. unfold point_eqb. by rewrite !f64_eqb_refl by auto with rust. Qed.

Lemma point_eqb_sym p q : point_eqb p q = point_eqb q p.
Proof. unfold point_eqb. by rewrite (f64_eqb_sym p.1), (f64_eqb_sym p.2). Qed.

(** No two neighbours are equal. *)
Fixpoint separated (last : point) (r : ring) : Prop :=
  match r with
  | [] => True
  | p :: r => point_eqb p last = false /\ separated p r
  end.

Lemma dedup_after_separated last r : separated last (dedup_after last r).
Proof.
  revert last. induction r as [|p r IH]; intros last; simpl; [done|].
  destruct (point_eqb p last) eqn:Hp; [apply IH | split; [done | apply IH]].
Qed.

Lemma dedup_after_id last r : separated last r -> dedup_after last r = r.
Proof.
  revert last. induction r as [|p r IH]; intros last; simpl; [done|].
  intros [-> Hr]. by rewrite IH.
Qed.

Lemma dedup_after_subset last r : dedup_after last r ⊆ r.
Proof.
  revert last. induction r as [|p r IH]; intros last; simpl; [done|].
  destruct (point_eqb p last).
  - etrans; [apply IH | set_solver].
  - specialize (IH p). set_solver.
Qed.

Lemma separated_snoc last r p :
  separated last r -> point_eqb p (List.last r last) = false -> separated last (r ++ [p]).
Proof.
  revert last. induction r as [|q r IH]; intros last; simpl; [done|].
  intros [Hq Hr] Hp. split; [done|]. apply IH; [done|].
  destruct r as [|q' r]; [done|].
  assert (Hl : List.last (q' :: r) q = List.last (q' :: r) last); [|by rewrite Hl].
  clear. revert q'. induction r as [|a r IHr]; intros q'; [done|]. apply (IHr a).
Qed.

Lemma last_snoc_default (r : ring) p d : List.last (r ++ [p]) d = p.
Proof. apply last_last. Qed.

(** The kept vertices and whether the ring still has to be closed *)
Lemma repair_ring_cases r :
  Forall finite_point r ->
  (dedup r = [] /\ repair_ring r = [])
  \/ exists p t, dedup r = p :: t /\ separated p t /\ finite_point p
     /\ ((point_eqb (List.last t p) p = true /\ repair_ring r = p :: t)
         \/ (point_eqb (List.last t p) p = false /\ repair_ring r = p :: t ++ [p])).
Proof.
  intros Hf. unfold repair_ring. destruct r as [|p r]; [by left|]. right. simpl.
  exists p, (dedup_after p r). split_and!; [done | apply dedup_after_separated | by inversion Hf |].
  destruct (point_eqb (List.last (dedup_after p r) p) p); [by left | by right].
Qed.

Lemma repair_ring_idempotent r : Forall finite_point r -> repair_ring (repair_ring r) = repair_ring r.
Proof.
  intros Hf. destruct (repair_ring_cases r Hf) as [[_ ->] | (p & t & _ & Hs & Hp & [[Hl ->] | [Hl ->]])].
  - done.
  - unfold repair_ring. simpl. by rewrite (dedup_after_id p t Hs), Hl.
  - assert (Hs' : separated p (t ++ [p])) by (apply separated_snoc; [done | by rewrite point_eqb_sym]).
    unfold repair_ring. simpl. rewrite (dedup_after_id p (t ++ [p]) Hs'), last_snoc_default.
    by rewrite point_eqb_refl.
Qed.

Definition finite_geometry (g : FeatureGeometry) : Prop := Forall finite_point (coordinates g).

Lemma map_repair_idempotent rings :
  Forall finite_point (concat rings) -> map repair_ring (map repair_ring rings) = map repair_ring rings.
Proof.
  induction rings as [|r rings IH]; simpl; [done|]. intros [Hr Hrest]%Forall_app.
  by rewrite repair_ring_idempotent, IH.
Qed.

(** A ring as validation wants it: its last vertex equals its first. *)
Definition closed_ring (r : ring) : Prop :=
  match r with [] => True | p :: t => point_eqb p (List.last t p) = true end.

Lemma repair_ring_closed r : Forall finite_point r -> closed_ring (repair_ring r).
Proof.
  intros Hf. destruct (repair_ring_cases r Hf) as [[_ ->] | (p & t & _ & _ & Hp & [[Hl ->] | [Hl ->]])].
  - done.
  - simpl. by rewrite point_eqb_sym.
  - simpl. rewrite last_snoc_default. by apply point_eqb_refl.
Qed.

Definition rings_of (g : FeatureGeometry) : list ring :=
  match g with Polygon rings => rings | MultiPolygon ps => concat ps | _ => [] end.

Lemma Forall_concat_rings (P : point -> Prop) (rings : list ring) :
  Forall P (concat rings) -> Forall (Forall P) rings.
Proof. induction rings; simpl; [constructor|]. intros [? ?]%Forall_app. constructor; auto. Qed.

Lemma rings_of_finite g : finite_geometry g -> Forall (Forall finite_point) (rings_of g).
Proof. destruct g; intros Hf; try constructor; by apply Forall_concat_rings. Qed.

Lemma rings_of_repair g : rings_of (repair g) = map repair_ring (rings_of g).
Proof. destruct g; try done. simpl. by rewrite List.concat_map. Qed.

(** ** Properties *)

(** C7: an edit is accepted exactly when the abstract specification allows it:
    matching layer and feature revisions, valid drafts, free identities and
    conserved area; the layer then holds the specified features, its revision
    has moved by one, and the receipt reports both revisions and the change. *)
Theorem apply_refines_effect `{F64Display} r e l rc l' :
  apply r e l = (Ok rc, l') <->
  revision l = r /\ exists fs changed,
    effect l e fs changed
    /\ l' = with_revision (with_features l fs) (sat_add_u64 r 1)
    /\ rc = {| before_revision := r; after_revision := sat_add_u64 r 1; changed_features := changed |}.
Proof. apply apply_ok. Qed.

(** An edit that fails, for whatever reason and at whatever point, leaves the
    layer exactly as it was. *)
Theorem failed_edit_changes_nothing `{F64Display} r e l x l' :
  apply r e l = (Err x, l') -> l' = l.
Proof. apply apply_atomic. Qed.

(** C10: in every layer that can be reached from [EditableLayer::new] by edits,
    each feature sits under its own identity, passes the validation of the layer
    (geometry family, CRS domain, closed schema) and carries a [u64] revision;
    CRS, unit and schema stay as validated. *)
Theorem reachable_layer_wf `{F64Display} l : reachable l -> layer_wf l.
Proof.
  induction 1 as [id crs kind s l Hn | l r e res l' _ IH Ha].
  - unfold layer_new in Hn. apply bind_ok in Hn as (d & Hk & Hn). apply seq_ok in Hn as [Hs [= <-]].
    apply map_err_ok, ok_or_ok in Hk.
    split_and!; simpl; [by exists d | done | done | unfold u64_max; lia | apply map_Forall_empty].
  - destruct res as [rc|x]; [|apply apply_atomic in Ha; by subst].
    apply apply_ok in Ha as (_ & fs & changed & He & -> & _).
    by eapply effect_preserves_wf; [|done | apply sat_add_le].
Qed.

(** Optimistic concurrency: of two edits prepared against the same layer
    revision only the first can succeed; the second is told the revision it
    missed. (At the greatest revision the counter saturates.) *)
Theorem second_writer_is_stale `{F64Display} r e l rc l' e2 :
  apply r e l = (Ok rc, l') -> r < u64_max ->
  apply r e2 l' = (Err (StaleRevision r (r + 1)), l').
Proof.
  intros (_ & fs & changed & _ & -> & _)%apply_ok Hr. unfold apply.
  assert (Hsat : sat_add_u64 r 1 = r + 1) by (unfold sat_add_u64; lia).
  rewrite get_bind. cbn [revision with_revision]. rewrite Hsat.
  destruct (N.eqb_spec (r + 1) r) as [|_]; [lia | done].
Qed.

(** Features outside the reported change are untouched; the one change the
    receipt does not report is the removal of the feature a split divides. *)
Theorem unreported_features_untouched `{F64Display} r e l rc l' id :
  apply r e l = (Ok rc, l') -> id ∉ changed_features rc ->
  (forall fr parts, e = Split id fr parts -> False) ->
  features l' !! id = features l !! id.
Proof.
  intros (_ & fs & changed & He & -> & ->)%apply_ok Hn Hs. by eapply effect_frame.
Qed.

(** Repairing a geometry with finite coordinates closes every ring and is
    idempotent. *)
Theorem repair_closes_and_is_idempotent g :
  finite_geometry g -> repair (repair g) = repair g /\ Forall closed_ring (rings_of (repair g)).
Proof.
  intros Hf. split.
  - destruct g as [p|ps|rings|polygons]; [done|done| |].
    + simpl. f_equal. by apply map_repair_idempotent.
    + simpl. f_equal. unfold finite_geometry in Hf. simpl in Hf.
      induction polygons as [|rings polygons IH]; simpl in *; [done|].
      rewrite concat_app, Forall_app in Hf. destruct Hf as [Hr Hrest].
      by rewrite map_repair_idempotent, IH.
  - rewrite rings_of_repair, List.Forall_map. eapply Forall_impl; [by apply rings_of_finite|].
    apply repair_ring_closed.
Qed.

(** ** A concrete layer *)

#[local] Instance no_display : F64Display := fun _ => "".

Definition vertex (x y : Z) : point := (f64_of_Z x, f64_of_Z y).
Definition rectangle (x0 y0 x1 y1 : Z) : FeatureGeometry :=
  Polygon [[vertex x0 y0; vertex x1 y0; vertex x1 y1; vertex x0 y1; vertex x0 y0]].
Definition example_draft (id : string) (g : FeatureGeometry) : FeatureDraft :=
  {| fd_id := id; fd_geometry := g; fd_attributes := {["ward" := AV_Text id]} |}.
Definition example_schema : FeatureSchema :=
  {| primary_key := "ward";
     fields := [ {| field_name := "ward"; value_type := AT_Text; nullable := false |} ] |}.
Definition empty_layer : EditableLayer :=
  {| layer_id := "layer"; layer_crs := nagoya_projected; layer_coordinate_unit := Metres;
     layer_geometry_kind := EG_Polygon; schema := example_schema; revision := 0; features := ∅ |}.

Definition create_whole : FeatureEdit := Create (example_draft "whole" (rectangle 0 0 10 4)).
Definition whole_layer : EditableLayer := (apply 0 create_whole empty_layer).2.
Definition split_whole : FeatureEdit :=
  Split "whole" 1 [example_draft "west" (rectangle 0 0 4 4); example_draft "east" (rectangle 4 0 10 4)].
Definition parts_layer : EditableLayer := (apply 1 split_whole whole_layer).2.
Definition merge_parts : FeatureEdit :=
  Merge ["east"; "west"] [2; 2] (example_draft "whole" (rectangle 0 0 1 1)).

Lemma example_session :
  layer_new "layer" nagoya_projected EG_Polygon example_schema = Ok empty_layer
  /\ is_ok (apply 0 create_whole empty_layer).1 = true
  /\ is_ok (apply 1 split_whole whole_layer).1 = true
  /\ is_ok (apply 2 merge_parts parts_layer).1 = true.
Proof. split_and!; by vm_compute. Qed.

(** The divided feature is gone, but the receipt only lists the parts. *)
Lemma split_receipt_omits_source :
  features parts_layer !! "whole" = None
  /\ match (apply 1 split_whole whole_layer).1 with
     | Ok rc => changed_features rc = ["east"; "west"] | Err _ => False end.
Proof. split; by vm_compute. Qed.

Lemma failed_edit_changes_nothing_witness :
  (apply 1 (Delete "missing" 1) whole_layer).2 = whole_layer.
Proof.
  apply (failed_edit_changes_nothing 1 (Delete "missing" 1) whole_layer (FeatureNotFound "missing")).
  by vm_compute.
Defined.

Lemma reachable_layer_wf_witness : layer_wf whole_layer.
Proof.
  apply reachable_layer_wf. eapply (reachable_apply empty_layer 0 create_whole).
  - apply (reachable_new "layer" nagoya_projected EG_Polygon example_schema). by vm_compute.
  - apply surjective_pairing.
Defined.

Lemma second_writer_is_stale_witness :
  apply 0 (Delete "whole" 1) whole_layer = (Err (StaleRevision 0 1), whole_layer).
Proof.
  apply (second_writer_is_stale 0 create_whole empty_layer
    {| before_revision := 0; after_revision := 1; changed_features := ["whole"] |}); by vm_compute.
Defined.

Lemma unreported_features_untouched_witness :
  features whole_layer !! "other" = features empty_layer !! "other".
Proof.
  apply (unreported_features_untouched 0 create_whole empty_layer
    {| before_revision := 0; after_revision := 1; changed_features := ["whole"] |}).
  - by vm_compute.
  - simpl. set_solver.
  - discriminate.
Defined.

Lemma repair_closes_and_is_idempotent_witness :
  repair (repair (Polygon [[vertex 0 0; vertex 0 0; vertex 1 0; vertex 1 1]]))
  = repair (Polygon [[vertex 0 0; vertex 0 0; vertex 1 0; vertex 1 1]]).
Proof. apply repair_closes_and_is_idempotent. repeat constructor; done. Defined.
