(* ===== verification/Bytes.v ===== *)
(** * Bytes, little-endian integers and varints
    (the codecs of crates/genegis-tile/src/pmtiles.rs)

    A byte is [Byte.byte]; [u64] values are [N] with their width written out. *)

From Stdlib Require Import Strings.Byte.
From S2P Require Import Prelude RustStd.
Local Open Scope N_scope.

Abbreviation bytes := (list byte).
#[export] Instance byte_eq_dec : EqDecision byte := Byte.byte_eq_dec.

(** [n as u8] *)
Definition u8 (n : N) : byte := default x00 (Byte.of_N (n mod 256)).

Lemma to_N_u8 n : Byte.to_N (u8 n) = n mod 256.
Proof.
  unfold u8. destruct (Byte.of_N (n mod 256)) as [b|] eqn:Hb; simpl.
  - by apply Byte.to_of_N.
  - apply Byte.of_N_None_iff in Hb. pose proof (N.mod_upper_bound n 256). lia.
Qed.

Lemma byte_bound b : Byte.to_N b < 256.
Proof. pose proof (Byte.to_N_bounded b). lia. Qed.

Lemma u8_to_N b : u8 (Byte.to_N b) = b.
Proof. unfold u8. rewrite N.mod_small by apply byte_bound. by rewrite Byte.of_to_N. Qed.

(** ** [u64::to_le_bytes] and [u64::from_le_bytes] *)

Definition to_le_bytes (n : N) : bytes :=
  [u8 n; u8 (N.shiftr n 8); u8 (N.shiftr n 16); u8 (N.shiftr n 24);
   u8 (N.shiftr n 32); u8 (N.shiftr n 40); u8 (N.shiftr n 48); u8 (N.shiftr n 56)].

Fixpoint from_le_bytes (l : bytes) : N :=
  match l with
  | [] => 0
  | b :: l => Byte.to_N b + 256 * from_le_bytes l
  end.

Lemma from_to_le_bytes n : n < 2 ^ 64 -> from_le_bytes (to_le_bytes n) = n.
Proof.
  intros Hn. unfold to_le_bytes, from_le_bytes. rewrite !to_N_u8, !N.shiftr_div_pow2.
  set (q := fun k => n / 2 ^ (8 * k)).
  assert (Hq : forall k, q k = (q k) mod 256 + 256 * q (k + 1)).
  { intros k. unfold q. replace (8 * (k + 1)) with (8 * k + 8) by lia.
    rewrite N.pow_add_r, <-N.Div0.div_div. change (2 ^ 8) with 256.
    pose proof (N.div_mod' (n / 2 ^ (8 * k)) 256). lia. }
  assert (H8 : q 8 = 0) by (unfold q; by apply N.div_small).
  pose proof (Hq 0) as H0. pose proof (Hq 1) as H1. pose proof (Hq 2) as H2. pose proof (Hq 3) as H3.
  pose proof (Hq 4) as H4. pose proof (Hq 5) as H5. pose proof (Hq 6) as H6. pose proof (Hq 7) as H7.
  assert (Hz : q 0 = n) by (unfold q; apply N.div_1_r).
  change (n / 2 ^ 8) with (q 1). change (n / 2 ^ 16) with (q 2). change (n / 2 ^ 24) with (q 3).
  change (n / 2 ^ 32) with (q 4). change (n / 2 ^ 40) with (q 5). change (n / 2 ^ 48) with (q 6).
  change (n / 2 ^ 56) with (q 7).
  change (0 + 1) with 1 in *. change (1 + 1) with 2 in *. change (2 + 1) with 3 in *.
  change (3 + 1) with 4 in *. change (4 + 1) with 5 in *. change (5 + 1) with 6 in *.
  change (6 + 1) with 7 in *. change (7 + 1) with 8 in *.
  rewrite Hz in *. lia.
Qed.

(** ** Varints *)

Inductive VarintError := TruncatedVarint | VarintOverflow.

(** [for shift in (0..=63).step_by(7)] *)
Definition varint_shifts : list N := [0; 7; 14; 21; 28; 35; 42; 49; 56; 63].

(** The cursor is an index; [u64::from(byte & 0x7f) << shift] drops the bits
    that leave the word. *)
Fixpoint read_varint_loop (input : bytes) (shifts : list N) (cursor : nat) (value : N)
    : result VarintError (N * nat) :=
  match shifts with
  | [] => Err VarintOverflow
  | shift :: shifts =>
      byte ← ok_or (input !! cursor) TruncatedVarint;
      let b := Byte.to_N byte in
      let value := N.lor value (wrap 64 (N.shiftl (N.land b 127) shift)) in
      if N.land b 128 =? 0 then Ok (value, S cursor)
      else read_varint_loop input shifts (S cursor) value
  end.

Definition read_varint (input : bytes) (cursor : nat) : result VarintError (N * nat) :=
  read_varint_loop input varint_shifts cursor 0.

(** [push_varint] appends to a buffer; a [u64] needs at most ten bytes, and
    [varint_bytes_fuel] shows that more fuel changes nothing. *)
Fixpoint varint_bytes (fuel : nat) (value : N) : bytes :=
  match fuel with
  | O => []
  | S fuel =>
      let byte := N.land value 127 in
      let value := N.shiftr value 7 in
      if value =? 0 then [u8 byte] else u8 (N.lor byte 128) :: varint_bytes fuel value
  end.
Definition push_varint (buffer : bytes) (value : N) : bytes := buffer ++ varint_bytes 10 value.

Lemma land_127 n : N.land n 127 = n mod 128.
Proof. change 127 with (N.ones 7). by rewrite N.land_ones. Qed.

Lemma varint_bytes_fuel fuel fuel' value :
  value < 2 ^ (7 * N.of_nat fuel) -> (0 < fuel <= fuel')%nat ->
  varint_bytes fuel' value = varint_bytes fuel value.
Proof.
  revert fuel' value. induction fuel as [|fuel IH]; intros fuel' value Hv [H1 H2]; [lia|].
  destruct fuel' as [|fuel']; [lia|]. cbn [varint_bytes]. cbv zeta.
  destruct (N.eqb_spec (N.shiftr value 7) 0) as [|Hne]; [done|]. f_equal.
  assert (Hs : N.shiftr value 7 < 2 ^ (7 * N.of_nat fuel)).
  { rewrite N.shiftr_div_pow2. apply N.Div0.div_lt_upper_bound.
    rewrite <-N.pow_add_r. by replace (7 + 7 * N.of_nat fuel) with (7 * N.of_nat (S fuel)) by lia. }
  destruct fuel as [|fuel]; [change (2 ^ (7 * N.of_nat 0)) with 1 in Hs; lia|].
  apply IH; [done | lia].
Qed.

Lemma varint_bytes_length fuel v : (length (varint_bytes fuel v) <= fuel)%nat.
Proof.
  revert v. induction fuel as [|fuel IH]; intros v; cbn [varint_bytes]; [done|]. cbv zeta.
  destruct (N.shiftr v 7 =? 0); cbn [length]; [lia|]. specialize (IH (N.shiftr v 7)). lia.
Qed.

Lemma last_byte_bits v : v < 128 ->
  N.land (Byte.to_N (u8 (N.land v 127))) 128 = 0
  /\ N.land (Byte.to_N (u8 (N.land v 127))) 127 = v.
Proof.
  intros Hv. rewrite to_N_u8, land_127, (N.mod_small v 128), N.mod_small by lia. split.
  - apply N.bits_inj. intros i. rewrite N.land_spec, N.bits_0.
    destruct (decide (i = 7)) as [->|Hi].
    + rewrite <-(N.mod_small v (2 ^ 7)), N.mod_pow2_bits_high by (done || lia). done.
    + change 128 with (2 ^ 7). rewrite N.pow2_bits_false by done. apply andb_false_r.
  - rewrite land_127. apply N.mod_small. lia.
Qed.

(** Adding a septet above the bits read so far *)
Lemma lor_septet value d s :
  value < 2 ^ s -> N.lor value (N.shiftl d s) = value + d * 2 ^ s.
Proof.
  intros Hv. rewrite N.shiftl_mul_pow2.
  assert (Hl : N.land value (d * 2 ^ s) = 0).
  { apply N.bits_inj. intros i. rewrite N.land_spec, N.bits_0.
    destruct (N.lt_ge_cases i s) as [Hi|Hi].
    - by rewrite N.mul_pow2_bits_low, andb_false_r.
    - by rewrite <-(N.mod_small value (2 ^ s)), N.mod_pow2_bits_high. }
  by rewrite N.add_nocarry_lxor, N.lxor_lor.
Qed.

Lemma more_byte_bits v :
  N.land (Byte.to_N (u8 (N.lor (N.land v 127) 128))) 128 <> 0
  /\ N.land (Byte.to_N (u8 (N.lor (N.land v 127) 128))) 127 = v mod 128.
Proof.
  rewrite land_127. pose proof (N.mod_upper_bound v 128) as Hv.
  assert (Hl : N.lor (v mod 128) 128 = v mod 128 + 128).
  { change 128 with (N.shiftl 1 7) at 2. rewrite lor_septet by (change (2 ^ 7) with 128; lia). done. }
  rewrite Hl, to_N_u8, N.mod_small by lia. rewrite <-Hl. split.
  - intros H. apply (f_equal (fun n => N.testbit n 7)) in H.
    rewrite N.land_spec, N.lor_spec, N.bits_0 in H. simpl in H. by rewrite orb_true_r in H.
  - rewrite N.land_lor_distr_l, land_127, N.Div0.mod_mod.
    change (N.land 128 127) with 0. by rewrite N.lor_0_r.
Qed.

(** ** Round trip *)

Lemma lookup_middle' {A} (l k : list A) x : (l ++ x :: k) !! length l = Some x.
Proof. by apply list_lookup_middle. Qed.

(** [shift] is [7 * i] at the [i]-th byte of the ten. *)
Lemma varint_shifts_lookup i : (i < 10)%nat -> varint_shifts !! i = Some (7 * N.of_nat i).
Proof. intros Hi. do 10 (destruct i as [|i]; [done|]). lia. Qed.

Lemma accumulate_septet acc d i :
  acc < 2 ^ (7 * N.of_nat i) -> d * 2 ^ (7 * N.of_nat i) < 2 ^ 64 ->
  N.lor acc (wrap 64 (N.shiftl d (7 * N.of_nat i))) = acc + d * 2 ^ (7 * N.of_nat i).
Proof.
  intros Ha Hd. unfold wrap. rewrite (N.mod_small (N.shiftl _ _)) by (by rewrite N.shiftl_mul_pow2).
  by apply lor_septet.
Qed.

Lemma read_varint_loop_bytes fuel i pre post acc v :
  (0 < fuel)%nat -> (i + fuel = 10)%nat ->
  acc < 2 ^ (7 * N.of_nat i) -> acc + v * 2 ^ (7 * N.of_nat i) < 2 ^ 64 ->
  read_varint_loop (pre ++ varint_bytes fuel v ++ post) (drop i varint_shifts) (length pre) acc
  = Ok (acc + v * 2 ^ (7 * N.of_nat i), (length pre + length (varint_bytes fuel v))%nat).
Proof.
  revert i pre acc v. induction fuel as [|fuel IH]; intros i pre acc v Hf Hi Ha Hv; [lia|].
  set (P := 2 ^ (7 * N.of_nat i)) in *.
  assert (HP : 0 < P) by (subst P; apply N.neq_0_lt_0, N.pow_nonzero; done).
  assert (HP' : 2 ^ (7 * N.of_nat (S i)) = 128 * P).
  { subst P. replace (7 * N.of_nat (S i)) with (7 + 7 * N.of_nat i) by lia. by rewrite N.pow_add_r. }
  pose proof (N.div_mod' v 128) as Hdm. pose proof (N.mod_upper_bound v 128) as Hm.
  rewrite (drop_S _ (7 * N.of_nat i) i) by (apply varint_shifts_lookup; lia).
  cbn [varint_bytes]. cbv zeta. rewrite N.shiftr_div_pow2. change (2 ^ 7) with 128.
  cbn [read_varint_loop]. destruct (N.eqb_spec (v / 128) 0) as [Hz|Hz].
  - assert (Hv128 : v < 128) by (rewrite Hdm, Hz; lia).
    cbn [app]. rewrite lookup_middle'. cbn [ok_or mbind result_bind].
    destruct (last_byte_bits v Hv128) as [-> ->]. cbn [N.eqb].
    rewrite accumulate_septet by (done || lia). fold P. cbn [length]. f_equal. f_equal. lia.
  - cbn [app]. rewrite lookup_middle'. cbn [ok_or mbind result_bind].
    destruct (more_byte_bits v) as [Hne ->]. apply N.eqb_neq in Hne. rewrite Hne.
    rewrite accumulate_septet; fold P; [|done|nia].
    assert (Hfuel : (0 < fuel)%nat).
    { destruct fuel; [|lia]. exfalso. assert (i = 9)%nat as -> by lia.
      change P with (2 ^ 63) in *. apply Hz. apply N.div_small. lia. }
    set (b := u8 (N.lor (N.land v 127) 128)).
    assert (Hlen : S (length pre) = length (pre ++ [b])) by (rewrite length_app; simpl; lia).
    replace (pre ++ b :: varint_bytes fuel (v / 128) ++ post)
      with ((pre ++ [b]) ++ varint_bytes fuel (v / 128) ++ post) by (by rewrite <-app_assoc).
    rewrite Hlen.
    rewrite (IH (S i)); rewrite ?HP'; [|lia|lia|nia|nia].
    rewrite length_app. cbn [length]. f_equal. f_equal; [|lia].
    rewrite Hdm at 3. lia.
Qed.

(** Every [u64] a buffer is extended with is read back, and the cursor is left
    behind it. *)
Lemma read_varint_bytes pre v post :
  v < 2 ^ 64 ->
  read_varint (pre ++ varint_bytes 10 v ++ post) (length pre)
  = Ok (v, (length pre + length (varint_bytes 10 v))%nat).
Proof.
  intros Hv. unfold read_varint. change varint_shifts with (drop 0 varint_shifts) at 1.
  rewrite (read_varint_loop_bytes 10 0) by (simpl; lia).
  change (2 ^ (7 * N.of_nat 0)) with 1. by rewrite N.add_0_l, N.mul_1_r.
Qed.

(** A run of the reader never leaves its input. *)
Lemma read_varint_loop_cursor input shifts cursor value v cursor' :
  read_varint_loop input shifts cursor value = Ok (v, cursor') ->
  (cursor < cursor' <= length input)%nat.
Proof.
  revert cursor value. induction shifts as [|s shifts IH]; intros cursor value; cbn [read_varint_loop]; [done|].
  intros (b & Hb%ok_or_ok & H)%bind_ok. apply lookup_lt_Some in Hb. cbv zeta in H.
  destruct (N.land (Byte.to_N b) 128 =? 0).
  - simplify_eq. lia.
  - apply IH in H. lia.
Qed.
