(* ===== verification/Storage.v ===== *)
(** * Byte-range storage access (crates/genegis-storage)

    range.rs, policy.rs, asset.rs, http.rs and io_receipt.rs: inclusive byte
    ranges, the remote access policy, exact local and HTTP range reads, and the
    budget gates over the evidence they leave. The file system is a map from
    paths to contents; [Url::parse] (crate url) and the HTTP agent (crate ureq)
    are the parameters [World] collects. Error texts are the data they are
    formatted from. *)

From Stdlib Require Import Ascii.
From S2P Require Import Prelude RustStd Bytes.
Local Open Scope N_scope.

(** ** Errors *)

Inductive RangeFault :=
| Inverted (start end' : N)
| NoDash (input : string)
| BadOffset (value : string).
Inductive HttpFault :=
| NotAllowlisted (host : string)
| CredentialsNotPermitted
| NoHost
| RangeAboveLimit (limit : N)
| HttpStatus (status : N) (detail : string)
| LengthMismatch (expected got : N)
| Transport (text : string)
| NoRangeProbes (url : string) (status : N)
| MissingContentRange (url : string)
| BadContentRange (content_range : string).
Inductive StorageError :=
| UnsupportedScheme (text : string)
| Local (text : string)
| Http (fault : HttpFault)
| InvalidRange (fault : RangeFault).

(** ** range.rs *)

Record ByteRange := mkRange { range_start : N; range_end : N }.
#[export] Instance ByteRange_eq_dec : EqDecision ByteRange.
Proof. solve_decision. Defined.

Definition range_new (start end' : N) : result StorageError ByteRange :=
  if end' <? start then Err (InvalidRange (Inverted start end')) else Ok (mkRange start end').

(** [self.end - self.start + 1] *)
Definition range_len (r : ByteRange) : N := wrap 64 (sub_wrap 64 (range_end r) (range_start r) + 1).

Definition header_value (r : ByteRange) : string :=
  "bytes=" +:+ show_N (range_start r) +:+ "-" +:+ show_N (range_end r).

Definition parse_u64 (value : string) : result StorageError N :=
  ok_or (parse_N u64_max (trim value)) (InvalidRange (BadOffset value)).

Definition range_parse (input : string) : result StorageError ByteRange :=
  let trimmed := trim input in
  let spec := default trimmed (strip_prefix "bytes=" trimmed) in
  '(start, end') ← ok_or (split_once "-"%char spec) (InvalidRange (NoDash input));
  s ← parse_u64 start;
  e ← parse_u64 end';
  range_new s e.

(** ** policy.rs *)

Record RemoteAccessPolicy := mkRemotePolicy {
  allowed_hosts : list string;
  allow_loopback : bool;
  max_response_bytes : N;
  timeout_ms : N;
  max_redirects : N }.

(** [std::env::var(REMOTE_ALLOWED_HOSTS_ENV).unwrap_or_default()] is the argument. *)
Definition from_env (var : string) : RemoteAccessPolicy :=
  {| allowed_hosts :=
       map to_ascii_lowercase
         (List.filter (fun host => negb (is_empty host)) (map trim (split ","%char var)));
     allow_loopback := true;
     max_response_bytes := 8 * 1024 * 1024;
     timeout_ms := 15000;
     max_redirects := 0 |}.

(** What [Url::parse] (crate url) gives. *)
Record Url := mkUrl {
  url_scheme : string; url_username : string; url_password : option string;
  url_host_str : option string }.

(** *** [str::parse::<IpAddr>] (core::net::parser)

    The parser reads from a cursor; a reader that fails leaves it in place. *)

Definition to_digit (radix : N) (a : ascii) : option N :=
  let c := Ascii.N_of_ascii a in
  let d := if is_ascii_digit a then Some (c - 48)
           else if (97 <=? c) && (c <=? 122) then Some (c - 87)
           else if (65 <=? c) && (c <=? 90) then Some (c - 55)
           else None in
  match d with Some d => if d <? radix then Some d else None | None => None end.

Fixpoint read_digits (radix : N) (s : string) (value : N) (count : N) : N * N * string :=
  match s with
  | String a s' =>
      match to_digit radix a with
      | Some d => read_digits radix s' (value * radix + d) (count + 1)
      | None => (value, count, s)
      end
  | EmptyString => (value, count, s)
  end.

Definition read_number (radix max_digits bound : N) (allow_zero_prefix : bool) (s : string)
    : option (N * string) :=
  let '(value, count, rest) := read_digits radix s 0 0 in
  let leading_zero := match s with String a _ => bool_decide (a = "0"%char) | _ => false end in
  if (count =? 0) || (max_digits <? count) || (bound <? value)
     || (negb allow_zero_prefix && leading_zero && (1 <? count))
  then None else Some (value, rest).

Definition read_given_char (c : ascii) (s : string) : option string :=
  match s with String a s => if bool_decide (a = c) then Some s else None | _ => None end.

Definition read_separator {A} (sep : ascii) (index : nat)
    (read : string -> option (A * string)) (s : string) : option (A * string) :=
  match index with O => read s | S _ => read_given_char sep s ≫= read end.

Definition read_ipv4_addr (s : string) : option ((N * N * N * N) * string) :=
  let octet i s := read_separator "."%char i (read_number 10 3 255 false) s in
  '(a, s) ← octet 0%nat s; '(b, s) ← octet 1%nat s; '(c, s) ← octet 2%nat s;
  '(d, s) ← octet 3%nat s; Some ((a, b, c, d), s).

(** [read_groups] with [left] slots still to fill of the [i + left]; an IPv4
    address may fill the last two it finds. *)
Fixpoint read_groups (left i : nat) (s : string) : list N * bool * string :=
  match left with
  | O => ([], false, s)
  | S left' =>
      match (match left' with
             | O => None
             | S _ => read_separator ":"%char i read_ipv4_addr s
             end) with
      | Some ((a, b, c, d), s') => ([a * 256 + b; c * 256 + d], true, s')
      | None =>
          match read_separator ":"%char i (read_number 16 4 65535 true) s with
          | Some (g, s') =>
              let '(groups, v4, rest) := read_groups left' (S i) s' in (g :: groups, v4, rest)
          | None => ([], false, s)
          end
      end
  end.

Definition read_ipv6_addr (s : string) : option (list N * string) :=
  let '(head, head_ipv4, rest) := read_groups 8 0 s in
  if Nat.eqb (length head) 8 then Some (head, rest)
  else if head_ipv4 then None
  else
    s1 ← read_given_char ":"%char rest;
    s2 ← read_given_char ":"%char s1;
    let '(tail, _, rest') := read_groups (8 - (length head + 1)) 0 s2 in
    Some (head ++ replicate (8 - length head - length tail) 0 ++ tail, rest').

Inductive IpAddr := V4 (octets : N * N * N * N) | V6 (groups : list N).

Definition parse_ip (s : string) : option IpAddr :=
  match read_ipv4_addr s with
  | Some (v4, rest) => if is_empty rest then Some (V4 v4) else None
  | None =>
      '(v6, rest) ← read_ipv6_addr s; if is_empty rest then Some (V6 v6) else None
  end.

Definition is_loopback (ip : IpAddr) : bool :=
  match ip with
  | V4 (a, _, _, _) => a =? 127
  | V6 groups => bool_decide (groups = [0; 0; 0; 0; 0; 0; 0; 1])
  end.

Definition is_loopback_host (host : string) : bool :=
  bool_decide (host = "localhost")
  || match parse_ip host with Some address => is_loopback address | None => false end.

Definition host_matches (host allowed : string) : bool :=
  let allowed := to_ascii_lowercase (trim allowed) in
  match strip_prefix "*." allowed with
  | Some suffix => negb (bool_decide (host = suffix)) && ends_with ("." +:+ suffix) host
  | None => bool_decide (host = allowed)
  end.

Example ip_loopback : map is_loopback_host
  ["localhost"; "127.0.0.1"; "127.9.8.7"; "::1"; "0:0:0:0:0:0:0:1"; "::0.0.0.1"]
  = replicate 6 true.
Proof. reflexivity. Qed.
Example ip_not_loopback : map is_loopback_host
  ["128.0.0.1"; "127.0.0.01"; "127.0.0"; "127.0.0.1.1"; "::2"; "1::1"; "[::1]"; "::1%lo"; "0:0:0:0:0:0:0:0:1"]
  = replicate 9 false.
Proof. reflexivity. Qed.

(** ** The outside world *)

(** A response of the HTTP agent: the status, the value of a header that is
    readable text, and its body read under a byte limit. *)
Record HttpResponse := mkResponse {
  rs_status : N;
  rs_header : string -> option string;
  rs_body : N -> result string bytes;
  rs_text : N -> string }.

(** The file system by path, [std::io::Error] texts, the writes the system
    refuses (with the text and what it leaves at the path), [Url::parse] and the
    agent built from a policy (crate ureq): GET with an optional [Range] header,
    HEAD. *)
Record World := mkWorld {
  disk : gmap string bytes;
  io_error : string -> string;
  write_fault : string -> bytes -> option (string * option bytes);
  url_parse : string -> result string Url;
  http_get : RemoteAccessPolicy -> string -> option string -> result string HttpResponse;
  http_head : RemoteAccessPolicy -> string -> result string HttpResponse }.

Definition set_disk (d : gmap string bytes) (w : World) : World :=
  {| disk := d; io_error := io_error w; write_fault := write_fault w;
     url_parse := url_parse w; http_get := http_get w; http_head := http_head w |}.

(** [std::fs::write] creates the file or replaces its contents; a refused write
    may already have truncated it. *)
Definition fs_write (path : string) (contents : bytes) : st World string unit := fun w =>
  match write_fault w path contents with
  | None => (Ok tt, set_disk (<[path := contents]> (disk w)) w)
  | Some (text, remains) => (Err text, set_disk (partial_alter (fun _ => remains) path (disk w)) w)
  end.

Section Access.
Context (w : World).

Definition remote_url_host (value : string) : result StorageError string :=
  url ← map_err UnsupportedScheme (url_parse w value);
  err_if (negb (bool_decide (url_scheme url = "http") || bool_decide (url_scheme url = "https")))
    (UnsupportedScheme (url_scheme url));;
  err_if (negb (is_empty (url_username url)) || bool_decide (is_Some (url_password url)))
    (Http CredentialsNotPermitted);;
  ok_or (to_ascii_lowercase <$> url_host_str url) (Http NoHost).

Definition validate_url (policy : RemoteAccessPolicy) (value : string) : result StorageError unit :=
  host ← remote_url_host value;
  if allow_loopback policy && is_loopback_host host then Ok tt
  else if existsb (host_matches host) (allowed_hosts policy) then Ok tt
  else Err (Http (NotAllowlisted host)).

(** ** asset.rs *)

Definition is_remote_uri (uri : string) : bool :=
  starts_with "http://" uri || starts_with "https://" uri.

Definition read_local_bytes (path : string) : result StorageError bytes :=
  ok_or (disk w !! path) (Local (io_error w path)).

(** [open], [seek(SeekFrom::Start(..))] (an offset beyond [i64::MAX] is
    refused) and [read_exact] into a buffer of the range's length. *)
Definition read_local_range (path : string) (range : ByteRange) : result StorageError bytes :=
  file ← ok_or (disk w !! path) (Local (io_error w path));
  err_if (2 ^ 63 <=? range_start range) (Local (io_error w path));;
  err_if (N.of_nat (length file) <? range_start range + range_len range) (Local (io_error w path));;
  Ok (take (N.to_nat (range_len range)) (drop (N.to_nat (range_start range)) file)).

(** ** http.rs *)

Record HttpFetchResult := mkFetch {
  fetch_status : N; fetch_bytes : bytes; content_range : option string; content_type : option string }.

Definition fetch_http_bytes (policy : RemoteAccessPolicy) (url : string)
    : result StorageError HttpFetchResult :=
  validate_url policy url;;
  response ← map_err (fun text => Http (Transport text)) (http_get w policy url None);
  err_if (negb (rs_status response =? 200))
    (Http (HttpStatus (rs_status response) (rs_text response (max_response_bytes policy))));;
  body ← map_err (fun text => Http (Transport text)) (rs_body response (max_response_bytes policy));
  Ok (mkFetch (rs_status response) body None (rs_header response "Content-Type")).

Definition fetch_http_range (policy : RemoteAccessPolicy) (url : string) (range : ByteRange)
    : result StorageError HttpFetchResult :=
  validate_url policy url;;
  err_if (max_response_bytes policy <? range_len range)
    (Http (RangeAboveLimit (max_response_bytes policy)));;
  response ← map_err (fun text => Http (Transport text))
    (http_get w policy url (Some (header_value range)));
  err_if (negb (rs_status response =? 206) && negb (rs_status response =? 200))
    (Http (HttpStatus (rs_status response) (rs_text response (max_response_bytes policy))));;
  body ← map_err (fun text => Http (Transport text)) (rs_body response (max_response_bytes policy));
  err_if ((rs_status response =? 206) && negb (N.of_nat (length body) =? range_len range))
    (Http (LengthMismatch (range_len range) (N.of_nat (length body))));;
  Ok (mkFetch (rs_status response) body
        (rs_header response "Content-Range") (rs_header response "Content-Type")).

Definition parse_content_range_total (content_range : string) : option N :=
  '(_, total) ← split_once "/"%char content_range; parse_N u64_max (trim total).

Definition probe_http_content_length (policy : RemoteAccessPolicy) (url : string)
    : result StorageError N :=
  validate_url policy url;;
  match (match http_head w policy url with
         | Ok head =>
             if rs_status head =? 200
             then value ← rs_header head "Content-Length"; parse_N u64_max value
             else None
         | Err _ => None
         end) with
  | Some len => Ok len
  | None =>
      response ← map_err (fun text => Http (Transport text))
        (http_get w policy url (Some "bytes=0-0"));
      err_if (negb (rs_status response =? 206)) (Http (NoRangeProbes url (rs_status response)));;
      content_range ← ok_or (rs_header response "Content-Range") (Http (MissingContentRange url));
      ok_or (parse_content_range_total content_range) (Http (BadContentRange content_range))
  end.

Definition read_asset_bytes (policy : RemoteAccessPolicy) (uri : string) : result StorageError bytes :=
  if is_remote_uri uri then http ← fetch_http_bytes policy uri; Ok (fetch_bytes http)
  else read_local_bytes uri.

Definition read_asset_range (policy : RemoteAccessPolicy) (uri : string) (range : ByteRange)
    : result StorageError bytes :=
  if is_remote_uri uri then http ← fetch_http_range policy uri range; Ok (fetch_bytes http)
  else read_local_range uri range.

Record AssetFetchResult := mkAsset {
  asset_uri : string; asset_range : option ByteRange; byte_len : N; asset_status : option N;
  asset_content_range : option string; asset_bytes : bytes }.

Definition fetch_asset (policy : RemoteAccessPolicy) (uri : string) (range : option ByteRange)
    : result StorageError AssetFetchResult :=
  if is_remote_uri uri then
    http ← match range with
           | Some range => fetch_http_range policy uri range
           | None => fetch_http_bytes policy uri
           end;
    Ok (mkAsset uri range (N.of_nat (length (fetch_bytes http))) (Some (fetch_status http))
          (content_range http) (fetch_bytes http))
  else
    bytes ← match range with
            | Some range => read_local_range uri range
            | None => read_local_bytes uri
            end;
    Ok (mkAsset uri range (N.of_nat (length bytes)) None None bytes).
End Access.

(** ** io_receipt.rs *)

Inductive CloudFormat := Cog | GeoParquet | Copc | PmTiles | Wms | Wfs | Geocoding | LiveFeed.

Inductive IoSelection :=
| CogWindow (level row_offset column_offset rows columns : N)
| GeoParquetRowGroups (row_groups : list N) (bbox : option (string * string * string * string))
| CopcHierarchyNodes (node_keys : list string)
| PmTilesTile (z x y : N)
| OgcCapabilities (service version : string)
| WmsMap (layers : list string) (crs : string) (bbox : string * string * string * string)
    (width height : N) (format : string)
| WfsFeatures (type_names : list string) (crs : string)
    (bbox : option (string * string * string * string)) (count : option N)
| GeocodingQueries (query_count max_candidates : N) (language : string)
| LiveFeedWindow (domain : string) (after_cursor limit : N) (watermark : string).

Record IoRequestEvidence := mkRequest {
  req_start : N; req_end : N; response_bytes : N; http_status : option N }.

Record GpuFrameMetrics := mkGpu {
  adapter : string; backend : string; upload_bytes : N; upload_ns : N; first_frame_ns : N;
  steady_state_fps : f64 }.

Record IoReceipt := mkReceipt {
  schema_version : string;
  format : CloudFormat;
  object_digest : string;
  object_bytes : N;
  logical_dataset_bytes : N;
  selection : IoSelection;
  requests : list IoRequestEvidence;
  transferred_bytes : N;
  maximum_response_bytes : N;
  whole_object_fallback : bool;
  decoded_items : N;
  elapsed_ns : N;
  peak_rss_bytes : N;
  gpu : option GpuFrameMetrics }.

Definition receipt_new (format : CloudFormat) (object_digest : string)
    (object_bytes logical_dataset_bytes : N) (selection : IoSelection)
    (requests : list IoRequestEvidence) (whole_object_fallback : bool)
    (decoded_items elapsed_ns peak_rss_bytes : N) (gpu : option GpuFrameMetrics) : IoReceipt :=
  {| schema_version := "0.1.0"; format := format; object_digest := object_digest;
     object_bytes := object_bytes; logical_dataset_bytes := logical_dataset_bytes;
     selection := selection; requests := requests;
     transferred_bytes := foldl (fun a b => wrap 64 (a + b)) 0 (map response_bytes requests);
     maximum_response_bytes := foldr N.max 0 (map response_bytes requests);
     whole_object_fallback := whole_object_fallback; decoded_items := decoded_items;
     elapsed_ns := elapsed_ns; peak_rss_bytes := peak_rss_bytes; gpu := gpu |}.

(** [as f64] of a [u64] rounds to the nearest, ties to even. *)
Definition f64_of_u64 (n : N) : f64 := f64_of_Z (Z.of_N n).

Definition transfer_ratio (r : IoReceipt) : f64 :=
  f64_div (f64_of_u64 (transferred_bytes r)) (f64_of_u64 (N.max (object_bytes r) 1)).

Record IoBudget := mkBudget {
  minimum_object_bytes : N;
  minimum_logical_dataset_bytes : N;
  maximum_transfer_ratio : f64;
  budget_response_bytes : N;
  maximum_peak_rss_bytes : N;
  maximum_first_frame_ns : N;
  minimum_steady_state_fps : f64;
  require_gpu : bool }.

(** The literals [0.2] and [30.0] *)
Definition phase_12_full (require_gpu : bool) : IoBudget :=
  {| minimum_object_bytes := 256 * 1024 * 1024;
     minimum_logical_dataset_bytes := 1024 * 1024 * 1024;
     maximum_transfer_ratio := f64_lit 7205759403792794 (-55);
     budget_response_bytes := 8 * 1024 * 1024;
     maximum_peak_rss_bytes := 1024 * 1024 * 1024;
     maximum_first_frame_ns := 2000000000;
     minimum_steady_state_fps := f64_of_Z 30;
     require_gpu := require_gpu |}.

Definition ci_budget (gpu : bool) : IoBudget :=
  let full := phase_12_full gpu in
  {| minimum_object_bytes := 1;
     minimum_logical_dataset_bytes := 1;
     maximum_transfer_ratio := maximum_transfer_ratio full;
     budget_response_bytes := budget_response_bytes full;
     maximum_peak_rss_bytes := maximum_peak_rss_bytes full;
     maximum_first_frame_ns := maximum_first_frame_ns full;
     minimum_steady_state_fps := minimum_steady_state_fps full;
     require_gpu := require_gpu full |}.

(** In the source's order, which is the derived [Ord]. *)
Inductive IoBudgetFailure :=
| ObjectTooSmall | LogicalDatasetTooSmall | WholeObjectFallback | TransferRatioExceeded
| ResponseExceeded | PeakRssExceeded | FirstFrameExceeded | GpuMetricsMissing
| InvalidGpuMetrics | SteadyStateFpsBelowMinimum | MalformedRequestEvidence.
#[export] Instance IoBudgetFailure_eq_dec : EqDecision IoBudgetFailure.
Proof. solve_decision. Defined.

Definition failure_index (f : IoBudgetFailure) : nat :=
  match f with
  | ObjectTooSmall => 0 | LogicalDatasetTooSmall => 1 | WholeObjectFallback => 2
  | TransferRatioExceeded => 3 | ResponseExceeded => 4 | PeakRssExceeded => 5
  | FirstFrameExceeded => 6 | GpuMetricsMissing => 7 | InvalidGpuMetrics => 8
  | SteadyStateFpsBelowMinimum => 9 | MalformedRequestEvidence => 10
  end.
Definition failure_le (a b : IoBudgetFailure) : Prop := (failure_index a <= failure_index b)%nat.
#[export] Instance failure_le_dec : RelDecision failure_le.
Proof. intros a b. unfold failure_le. apply _. Defined.

(** [Vec::dedup] *)
Fixpoint dedup_failures (l : list IoBudgetFailure) : list IoBudgetFailure :=
  match l with
  | [] => []
  | x :: l =>
      match dedup_failures l with
      | [] => [x]
      | y :: k => if bool_decide (x = y) then y :: k else x :: y :: k
      end
  end.

(** A request whose range or byte count is inconsistent *)
Definition malformed_request (b : IoBudget) (request : IoRequestEvidence) : bool :=
  (req_end request <? req_start request)
  || negb (response_bytes request =? wrap 64 (sub_wrap 64 (req_end request) (req_start request) + 1))
  || (budget_response_bytes b <? response_bytes request).

Definition when (b : bool) (f : IoBudgetFailure) : list IoBudgetFailure := if b then [f] else [].

Definition gpu_failures (r : IoReceipt) (b : IoBudget) : list IoBudgetFailure :=
  match gpu r with
  | Some gpu =>
      when (maximum_first_frame_ns b <? first_frame_ns gpu) FirstFrameExceeded ++
      (if negb (f64_is_finite (steady_state_fps gpu)) || f64_leb (steady_state_fps gpu) f64_zero
       then [InvalidGpuMetrics]
       else when (f64_ltb (steady_state_fps gpu) (minimum_steady_state_fps b))
              SteadyStateFpsBelowMinimum)
  | None => when (require_gpu b) GpuMetricsMissing
  end.

Definition receipt_validate (r : IoReceipt) (b : IoBudget) : list IoBudgetFailure :=
  let failures :=
    when (object_bytes r <? minimum_object_bytes b) ObjectTooSmall ++
    when (logical_dataset_bytes r <? minimum_logical_dataset_bytes b) LogicalDatasetTooSmall ++
    when (whole_object_fallback r) WholeObjectFallback ++
    when (f64_ltb (maximum_transfer_ratio b) (transfer_ratio r)) TransferRatioExceeded ++
    when (budget_response_bytes b <? maximum_response_bytes r) ResponseExceeded ++
    when (maximum_peak_rss_bytes b <? peak_rss_bytes r) PeakRssExceeded ++
    gpu_failures r b ++
    when (existsb (malformed_request b) (requests r)) MalformedRequestEvidence in
  dedup_failures (merge_sort failure_le failures).

(** * Theory *)

(** ** Byte ranges *)

Definition valid_range (r : ByteRange) : Prop := range_start r <= range_end r <= u64_max.

Lemma range_new_ok s e r : range_new s e = Ok r <-> r = mkRange s e /\ s <= e.
Proof.
  unfold range_new. destruct (N.ltb_spec e s); split.
  - done.
  - intros [_ ?]. lia.
  - by intros [= <-].
  - by intros [-> _].
Qed.

Lemma range_len_valid r :
  valid_range r -> range_end r - range_start r < u64_max ->
  range_len r = range_end r - range_start r + 1.
Proof.
  unfold valid_range, u64_max. intros [H1 H2] H3. unfold range_len. rewrite sub_wrap_small by lia.
  unfold wrap. apply N.mod_small. lia.
Qed.

Lemma digits_not_dash s :
  string_forall is_ascii_digit s = true ->
  string_forall (fun a => negb (bool_decide (a = "-"%char))) s = true.
Proof.
  apply string_forall_impl. intros a Ha. apply negb_true_iff, bool_decide_eq_false.
  by intros ->.
Qed.

Lemma digits_graphic s : string_forall is_ascii_digit s = true -> string_forall is_graphic s = true.
Proof. apply string_forall_impl, digit_graphic. Qed.

Lemma parse_u64_show n : n <= u64_max -> parse_u64 (show_N n) = Ok n.
Proof.
  intros Hn. unfold parse_u64.
  rewrite trim_graphic by apply digits_graphic, show_N_digits. by rewrite parse_show_N.
Qed.

(** The [bytes=] unit is optional. *)
Lemma range_parse_spec input spec r :
  string_forall is_graphic input = true -> valid_range r ->
  default input (strip_prefix "bytes=" input) = spec ->
  spec = show_N (range_start r) +:+ "-" +:+ show_N (range_end r) ->
  range_parse input = Ok r.
Proof.
  intros Hg [Hle Hmax] Hspec Heq. unfold range_parse. rewrite trim_graphic by done.
  rewrite Hspec, Heq.
  change ("-" +:+ show_N (range_end r)) with (String "-" (show_N (range_end r))).
  rewrite split_once_app by by apply digits_not_dash, show_N_digits.
  cbn [ok_or mbind result_bind]. rewrite !parse_u64_show by lia. cbn [mbind result_bind].
  destruct r as [s e]. by apply range_new_ok.
Qed.

Lemma range_text_graphic r :
  string_forall is_graphic (show_N (range_start r) +:+ "-" +:+ show_N (range_end r)) = true.
Proof.
  rewrite !string_forall_app.
  by rewrite (digits_graphic _ (show_N_digits (range_start r))),
    (digits_graphic _ (show_N_digits (range_end r))).
Qed.

Lemma strip_prefix_digits p a s t :
  is_ascii_digit a = false -> string_forall is_ascii_digit s = true ->
  s <> "" -> strip_prefix (String a p) (s +:+ t) = None.
Proof.
  intros Ha Hs Hne. destruct s as [|b s]; [done|]. apply andb_true_iff in Hs as [Hb _].
  change (String b s +:+ t) with (String b (s +:+ t)). cbn [strip_prefix].
  rewrite bool_decide_false; [done|]. intros ->. congruence.
Qed.

Lemma show_N_nonempty n : show_N n <> "".
Proof. unfold show_N. by destruct (N.to_uint n). Qed.

(** Every valid inclusive range is recovered from the HTTP header value it is
    rendered to, and from the same text without the [bytes=] unit. *)
Theorem range_header_roundtrip r :
  range_start r <= range_end r <= u64_max ->
  range_parse (header_value r) = Ok r
  /\ range_parse (show_N (range_start r) +:+ "-" +:+ show_N (range_end r)) = Ok r.
Proof.
  intros Hr. split; (eapply range_parse_spec; [|done| |reflexivity]).
  - unfold header_value. rewrite string_forall_app, range_text_graphic. done.
  - unfold header_value. by rewrite strip_prefix_app.
  - apply range_text_graphic.
  - rewrite strip_prefix_digits; [done..| apply show_N_digits | apply show_N_nonempty].
Qed.

Lemma range_header_roundtrip_witness :
  range_parse (header_value (mkRange 128 u64_max)) = Ok (mkRange 128 u64_max)
  /\ range_parse (show_N 128 +:+ "-" +:+ show_N u64_max) = Ok (mkRange 128 u64_max).
Proof. apply (range_header_roundtrip (mkRange 128 u64_max)). done. Defined.

(** ** The remote access gate *)

(** The hosts an allowlist entry stands for: a [*.] entry stands for the names
    below its suffix. *)
Definition entry_allows (allowed host : string) : Prop :=
  (exists suffix label, to_ascii_lowercase (trim allowed) = "*." +:+ suffix
     /\ host = label +:+ "." +:+ suffix)
  \/ (starts_with "*." (to_ascii_lowercase (trim allowed)) = false
      /\ host = to_ascii_lowercase (trim allowed)).

Lemma string_app_length s t : String.length (s +:+ t) = (String.length s + String.length t)%nat.
Proof.
  induction s as [|a s IH]; [done|].
  change (S (String.length (s +:+ t)) = S (String.length s + String.length t)). by rewrite IH.
Qed.

Lemma host_matches_iff host allowed : host_matches host allowed = true <-> entry_allows allowed host.
Proof.
  unfold host_matches, entry_allows, starts_with.
  destruct (strip_prefix "*." (to_ascii_lowercase (trim allowed))) as [suffix|] eqn:Hs.
  - apply strip_prefix_some in Hs. rewrite Hs, andb_true_iff, ends_with_iff, negb_true_iff,
      bool_decide_eq_false. split.
    + intros [_ [label ->]]. left. by exists suffix, label.
    + intros [(suffix' & label & Heq & ->)|[? _]]; [|done].
      assert (suffix' = suffix) as ->.
      { apply (f_equal (strip_prefix "*.")) in Heq.
        pose proof (strip_prefix_app "*." suffix) as H1.
        pose proof (strip_prefix_app "*." suffix') as H2. congruence. }
      split; [|by exists label].
      intros Hl%(f_equal String.length). rewrite !string_app_length in Hl. simpl in Hl. lia.
  - rewrite bool_decide_eq_true. split; [by right|].
    intros [(suffix & label & Heq & _)|[_ ?]]; [|done].
    apply strip_prefix_some in Heq. congruence.
Qed.

(** A URL the policy admits, spelled out. *)
Definition admitted (w : World) (policy : RemoteAccessPolicy) (value : string) : Prop :=
  exists url host,
    url_parse w value = Ok url
    /\ (url_scheme url = "http" \/ url_scheme url = "https")
    /\ url_username url = "" /\ url_password url = None
    /\ url_host_str url = Some host
    /\ (allow_loopback policy = true /\ is_loopback_host (to_ascii_lowercase host) = true
        \/ exists allowed, allowed ∈ allowed_hosts policy
             /\ entry_allows allowed (to_ascii_lowercase host)).

Lemma remote_url_host_ok w value host :
  remote_url_host w value = Ok host <->
  exists url h, url_parse w value = Ok url
    /\ (url_scheme url = "http" \/ url_scheme url = "https")
    /\ url_username url = "" /\ url_password url = None
    /\ url_host_str url = Some h /\ host = to_ascii_lowercase h.
Proof.
  unfold remote_url_host. rewrite bind_ok. setoid_rewrite map_err_ok.
  setoid_rewrite seq_ok. setoid_rewrite seq_ok. setoid_rewrite err_if_ok. setoid_rewrite ok_or_ok.
  split.
  - intros (url & Hurl & Hs & Hc & Hh).
    apply negb_false_iff, orb_true_iff in Hs. rewrite !bool_decide_eq_true in Hs.
    apply orb_false_iff in Hc as [Hu Hp]. apply negb_false_iff, bool_decide_eq_true in Hu.
    apply bool_decide_eq_false, eq_None_not_Some in Hp.
    apply fmap_Some in Hh as (h & Hh & ->). by exists url, h.
  - intros (url & h & Hurl & Hs & Hu & Hp & Hh & ->). exists url. split_and!; [done|..].
    + apply negb_false_iff, orb_true_iff. by rewrite !bool_decide_eq_true.
    + by rewrite Hu, Hp.
    + by rewrite Hh.
Qed.

Lemma validate_url_ok w policy value :
  validate_url w policy value = Ok tt <-> admitted w policy value.
Proof.
  unfold validate_url, admitted. rewrite bind_ok. setoid_rewrite remote_url_host_ok.
  assert (Hgate : forall host,
    (if allow_loopback policy && is_loopback_host host then Ok tt
     else if existsb (host_matches host) (allowed_hosts policy) then Ok tt
     else Err (Http (NotAllowlisted host))) = Ok tt
    <-> (allow_loopback policy = true /\ is_loopback_host host = true
        \/ exists allowed, allowed ∈ allowed_hosts policy /\ entry_allows allowed host)).
  { intros host. rewrite <-andb_true_iff.
    setoid_rewrite <-host_matches_iff. setoid_rewrite list_elem_of_In. rewrite <-existsb_exists.
    destruct (_ && _), (existsb _ _); naive_solver. }
  setoid_rewrite Hgate. naive_solver.
Qed.

Lemma validate_url_unit w policy value u :
  validate_url w policy value = Ok u <-> admitted w policy value.
Proof. destruct u. apply validate_url_ok. Qed.

Lemma fetch_http_bytes_ok w policy url f :
  fetch_http_bytes w policy url = Ok f ->
  admitted w policy url /\ fetch_status f = 200.
Proof.
  unfold fetch_http_bytes. intros (u & Hu%validate_url_unit & H)%bind_ok. inv_rs H.
  apply negb_false_iff, N.eqb_eq in Hr0. done.
Qed.

Lemma fetch_http_range_ok w policy url range f :
  fetch_http_range w policy url range = Ok f ->
  admitted w policy url
  /\ range_len range <= max_response_bytes policy
  /\ (fetch_status f = 206 /\ N.of_nat (length (fetch_bytes f)) = range_len range
      \/ fetch_status f = 200).
Proof.
  unfold fetch_http_range. intros (u & Hu%validate_url_unit & H)%bind_ok. inv_rs H. simpl.
  apply N.ltb_ge in Hr. split_and!; [done..|].
  apply andb_false_iff in Hr1 as [?|?]; apply andb_false_iff in Hr3 as [?|?]; lia.
Qed.

(** C35: Bytes of a remote asset, whole or ranged, come only from an HTTP(S) URL
    without credentials whose host is a permitted loopback or is named by the
    allowlist; a partial response has exactly the length of the range asked for,
    and the range is within the policy's limit. *)
Theorem remote_bytes_are_admitted w policy uri range asset :
  is_remote_uri uri = true -> fetch_asset w policy uri range = Ok asset ->
  admitted w policy uri
  /\ match range with
     | None => asset_status asset = Some 200
     | Some range =>
         range_len range <= max_response_bytes policy
         /\ (asset_status asset = Some 206 /\ byte_len asset = range_len range
             \/ asset_status asset = Some 200)
     end.
Proof.
  intros Hr. unfold fetch_asset. rewrite Hr. intros (http & Hf & [= <-])%bind_ok. simpl.
  destruct range as [range|].
  - apply fetch_http_range_ok in Hf as (Ha & Hm & [[-> ->]| ->]); auto.
  - apply fetch_http_bytes_ok in Hf as [Ha ->]. done.
Qed.

(** A one-page web for the witnesses. *)
Definition sample_world : World :=
  {| disk := {["/data/a.bin" := to_le_bytes 513]};
     io_error := fun path => "No such file: " +:+ path;
     write_fault := fun _ _ => None;
     url_parse := fun _ => Ok (mkUrl "https" "" None (Some "tiles.cloud.example.org"));
     http_get := fun _ _ _ =>
       Ok (mkResponse 206 (fun _ => None) (fun _ => Ok [u8 1; u8 2]) (fun _ => ""));
     http_head := fun _ _ => Err "offline" |}.
Definition sample_policy : RemoteAccessPolicy := from_env "data.example.org, *.Cloud.example.org,".

Lemma remote_bytes_are_admitted_witness :
  admitted sample_world sample_policy "https://tiles.cloud.example.org/a"
  /\ (range_len (mkRange 8 9) <= max_response_bytes sample_policy
      /\ (Some 206 = Some 206 /\ 2 = range_len (mkRange 8 9) \/ Some 206 = Some 200)).
Proof.
  exact (remote_bytes_are_admitted sample_world sample_policy "https://tiles.cloud.example.org/a"
    (Some (mkRange 8 9))
    (mkAsset "https://tiles.cloud.example.org/a" (Some (mkRange 8 9)) 2 (Some 206) None [u8 1; u8 2])
    eq_refl eq_refl).
Defined.

(** A host in brackets, the form [Url::host_str] gives IPv6 addresses in, never
    parses as an address, so [http://[::1]] is not a loopback to the policy. *)
Lemma bracketed_host_never_loopback s : is_loopback_host (String "["%char s) = false.
Proof. reflexivity. Qed.

(** ** Local ranges *)

Lemma read_local_range_ok w path range b :
  read_local_range w path range = Ok b <->
  exists file, disk w !! path = Some file /\ range_start range < 2 ^ 63
    /\ range_start range + range_len range <= N.of_nat (length file)
    /\ b = take (N.to_nat (range_len range)) (drop (N.to_nat (range_start range)) file).
Proof.
  unfold read_local_range. rewrite bind_ok. setoid_rewrite ok_or_ok.
  setoid_rewrite seq_ok. setoid_rewrite seq_ok. setoid_rewrite err_if_ok.
  setoid_rewrite N.leb_gt. setoid_rewrite N.ltb_ge. naive_solver.
Qed.

Lemma read_local_range_length w path range b :
  read_local_range w path range = Ok b -> N.of_nat (length b) = range_len range.
Proof.
  intros (file & _ & _ & Hlen & ->)%read_local_range_ok. rewrite length_take, length_drop. lia.
Qed.

(** ** Receipts *)

(** What each failure means. *)
Definition violates (r : IoReceipt) (b : IoBudget) (f : IoBudgetFailure) : Prop :=
  match f with
  | ObjectTooSmall => object_bytes r < minimum_object_bytes b
  | LogicalDatasetTooSmall => logical_dataset_bytes r < minimum_logical_dataset_bytes b
  | WholeObjectFallback => whole_object_fallback r = true
  | TransferRatioExceeded => f64_ltb (maximum_transfer_ratio b) (transfer_ratio r) = true
  | ResponseExceeded => budget_response_bytes b < maximum_response_bytes r
  | PeakRssExceeded => maximum_peak_rss_bytes b < peak_rss_bytes r
  | FirstFrameExceeded => exists g, gpu r = Some g /\ maximum_first_frame_ns b < first_frame_ns g
  | GpuMetricsMissing => gpu r = None /\ require_gpu b = true
  | InvalidGpuMetrics => exists g, gpu r = Some g
      /\ (f64_is_finite (steady_state_fps g) = false
          \/ f64_leb (steady_state_fps g) f64_zero = true)
  | SteadyStateFpsBelowMinimum => exists g, gpu r = Some g
      /\ f64_is_finite (steady_state_fps g) = true
      /\ f64_leb (steady_state_fps g) f64_zero = false
      /\ f64_ltb (steady_state_fps g) (minimum_steady_state_fps b) = true
  | MalformedRequestEvidence => exists q, q ∈ requests r /\ malformed_request b q = true
  end.

Lemma elem_of_when f b g : f ∈ when b g <-> b = true /\ f = g.
Proof. destruct b; simpl; rewrite ?list_elem_of_singleton; set_solver. Qed.

Lemma elem_of_dedup f l : f ∈ dedup_failures l <-> f ∈ l.
Proof.
  induction l as [|x l IH]; [done|]. cbn [dedup_failures]. rewrite elem_of_cons, <-IH.
  destruct (dedup_failures l) as [|y k]; [set_solver|].
  case_bool_decide; subst; set_solver.
Qed.

Lemma elem_of_gpu_failures r b f :
  f ∈ gpu_failures r b <->
  (f = FirstFrameExceeded \/ f = GpuMetricsMissing \/ f = InvalidGpuMetrics
   \/ f = SteadyStateFpsBelowMinimum) /\ violates r b f.
Proof.
  unfold gpu_failures, violates. destruct (gpu r) as [g|].
  - rewrite elem_of_app, elem_of_when, N.ltb_lt. split.
    + intros [[Hlt ->]|Hf]; [split; [by left | by exists g]|].
      destruct (f64_is_finite (steady_state_fps g)) eqn:Hfin; simpl in Hf;
        [destruct (f64_leb (steady_state_fps g) f64_zero) eqn:Hle|].
      * apply list_elem_of_singleton in Hf as ->. split; [tauto|]. exists g. tauto.
      * apply elem_of_when in Hf as [? ->]. split; [tauto|]. by exists g.
      * apply list_elem_of_singleton in Hf as ->. split; [tauto|]. exists g. tauto.
    + intros [[->|[->|[->| ->]]] H].
      * left. destruct H as (? & [= <-] & ?). done.
      * by destruct H.
      * right. destruct H as (? & [= <-] & [-> |Hle]); simpl; [by apply list_elem_of_singleton|].
        rewrite Hle, orb_true_r. by apply list_elem_of_singleton.
      * right. destruct H as (? & [= <-] & -> & -> & Hlt). simpl. by apply elem_of_when.
  - rewrite elem_of_when. split; [intros [? ->]; tauto|].
    intros [[->|[->|[->| ->]]] H]; [by destruct H as (? & ? & _)|tauto|by destruct H as (? & ? & _)..].
Qed.

Lemma failures_violated r b f : f ∈ receipt_validate r b <-> violates r b f.
Proof.
  unfold receipt_validate. rewrite elem_of_dedup, merge_sort_Permutation.
  rewrite !elem_of_app, !elem_of_when, elem_of_gpu_failures, !N.ltb_lt, existsb_exists.
  setoid_rewrite <-list_elem_of_In.
  split; [|destruct f; simpl; tauto].
  intros H. destruct_or! H; destruct H as [H1 H2]; first [by subst f | done].
Qed.

Lemma failure_index_inj a b : failure_index a = failure_index b -> a = b.
Proof. by destruct a, b. Qed.

#[export] Instance failure_le_trans : Transitive failure_le.
Proof. intros a b c. unfold failure_le. lia. Qed.
#[export] Instance failure_le_total : Total failure_le.
Proof. intros a b. unfold failure_le. lia. Qed.

(** Sorting and dropping repetitions leaves the failures strictly increasing. *)
Lemma dedup_sorted l :
  StronglySorted failure_le l -> StronglySorted lt (map failure_index (dedup_failures l)).
Proof.
  induction 1 as [|x l Hl IH Hx]; [constructor|]. cbn [dedup_failures].
  assert (Hx' : Forall (failure_le x) (dedup_failures l)).
  { apply Forall_forall. intros y Hy. rewrite elem_of_dedup in Hy. rewrite Forall_forall in Hx. by apply Hx. }
  destruct (dedup_failures l) as [|y k]; [cbn [map]; repeat constructor|].
  case_bool_decide as Hxy; [done|]. cbn [map] in *. constructor; [done|].
  apply Forall_cons in Hx' as [Hxy' _]. inversion IH as [|? ? ? Hy]; subst.
  assert (failure_index x < failure_index y)%nat.
  { unfold failure_le in Hxy'. destruct (decide (failure_index x = failure_index y)); [|lia].
    destruct Hxy. by apply failure_index_inj. }
  constructor; [done|]. eapply Forall_impl; [done|]. simpl. lia.
Qed.

Lemma receipt_failures_sorted r b : StronglySorted lt (map failure_index (receipt_validate r b)).
Proof. apply dedup_sorted, (StronglySorted_merge_sort failure_le). Qed.

(** A receipt is checked against a budget gate by gate: a failure is reported
    exactly when its gate is violated, each once and in the order of the
    enumeration, so nothing is reported exactly when every gate holds. *)
Theorem budget_failures_exact r b :
  (forall f, f ∈ receipt_validate r b <-> violates r b f)
  /\ StronglySorted lt (map failure_index (receipt_validate r b))
  /\ (receipt_validate r b = [] <-> forall f, ~ violates r b f).
Proof.
  split_and!; [apply failures_violated | apply receipt_failures_sorted|].
  setoid_rewrite <-failures_violated. destruct (receipt_validate r b) as [|f l]; split; try done.
  - intros _ f H. by apply not_elem_of_nil in H.
  - intros H. destruct (H f). apply list_elem_of_here.
Qed.

(** The ratio exceeds one as soon as requests overlap. *)
Lemma overlapping_requests_exceed_one :
  let q := mkRequest 0 9 10 None in
  f64_ltb (f64_of_Z 1)
    (transfer_ratio (receipt_new Cog "" 10 10 (PmTilesTile 0 0 0) [q; q] false 0 0 0 None)) = true.
Proof. reflexivity. Qed.
