(* ===== verification/PmTiles.v ===== *)
(** * PMTiles v3 archives (crates/genegis-tile/src/pmtiles.rs)

    The header, the Hilbert tile identity, the varint-coded directory, the range
    reader that fetches one tile and the writer of a local archive. gzip (crate
    flate2) is a parameter. Arithmetic is that of [u64] and [u32] in a release
    build. *)

From Stdlib Require Import Strings.Byte Strings.String.
From S2P Require Import Prelude RustStd Bytes Storage.
Local Open Scope N_scope.

Definition HEADER_BYTES : N := 127.
Definition ROOT_DIRECTORY_LIMIT : N := 16384.
Definition MAX_DIRECTORY_BYTES : N := 16 * 1024 * 1024.

(** ** Data *)

Record PmTilesHeader := mkHeader {
  version : N;
  root_directory_offset : N;
  root_directory_length : N;
  leaf_directory_offset : N;
  leaf_directory_length : N;
  tile_data_offset : N;
  tile_data_length : N;
  addressed_tiles : N;
  internal_compression : N;
  tile_compression : N;
  tile_type : N;
  minimum_zoom : N;
  maximum_zoom : N }.

Record PmTilesTileRead := mkTileRead {
  tr_header : PmTilesHeader; tr_z : N; tr_x : N; tr_y : N; tr_tile_id : N; tr_bytes : bytes;
  tr_object_bytes : N; tr_requests : list IoRequestEvidence }.

Inductive Section' := DirectorySection | TileSection.
Inductive InvalidReason :=
| RangeLength (length : N)
| RangeOverflow
| RangeMismatch (requested got : N)
| MagicLengthOrVersion
| SectionBounds
| EntryCount
| TileIdOverflow
| ZeroLength
| OffsetOverflow
| FirstOffsetSentinel
| TrailingBytes
| LeafOffsetOverflow
| TileOffsetOverflow
| Gzip (section : Section') (text : string)
| BudgetExceeded (section : Section')
| Varint (e : VarintError)
| NoEntries
| EmptyPayload (z x y : N)
| DuplicateTile
| OutsideHilbertDomain.
Inductive StorageFault := FromStorage (e : StorageError) | FromIo (text : string).
Inductive PmTilesError :=
| StorageFailed (fault : StorageFault)
| Invalid (reason : InvalidReason)
| UnsupportedCompression (code : N)
| WholeObjectFallback (status : N)
| TileNotFound (z x y : N).

Record DirectoryEntry := mkEntry {
  entry_tile_id : N; entry_offset : N; entry_length : N; run_length : N }.

(** ** Tile identity: the position on the Hilbert curve of the zoom level *)

Definition bit_u32 (b : bool) : N := if b then 1 else 0.

(** [while scale > 0]; a [u32] scale halves to zero within 32 rounds. *)
Fixpoint hilbert_loop (fuel : nat) (z x y scale distance : N) : N :=
  match fuel with
  | O => distance
  | S fuel =>
      if scale =? 0 then distance else
      let rx := negb (N.land x scale =? 0) in
      let ry := negb (N.land y scale =? 0) in
      let distance :=
        wrap 64 (distance + scale * scale * N.lxor (3 * bit_u32 rx) (bit_u32 ry)) in
      let flip v := sub_wrap 32 (sub_wrap 32 (N.shiftl 1 z) 1) v in
      let '(x, y) :=
        if ry then (x, y) else if rx then (flip y, flip x) else (y, x) in
      hilbert_loop fuel z x y (scale / 2) distance
  end.

Definition zxy_to_tile_id (z x y : N) : result PmTilesError N :=
  err_if ((31 <? z) || (N.shiftl 1 z <=? x) || (N.shiftl 1 z <=? y)) (Invalid OutsideHilbertDomain);;
  let base := (N.shiftl 1 (z * 2) - 1) / 3 in
  let distance := hilbert_loop 32 z x y (N.shiftl 1 (z - 1)) 0 in
  Ok (wrap 64 (base + distance)).

Example ids : map (fun '(z, x, y) => zxy_to_tile_id z x y)
  [(0, 0, 0); (1, 0, 0); (1, 0, 1); (1, 1, 1); (1, 1, 0); (2, 0, 0); (12, 3423, 1763); (32, 0, 0)]
  = [Ok 0; Ok 1; Ok 2; Ok 3; Ok 4; Ok 5; Ok 19078479; Err (Invalid OutsideHilbertDomain)].
Proof. vm_compute. reflexivity. Qed.

(** ** Header *)

(** [header[offset..offset + value.len()].copy_from_slice(value)] *)
Definition splice (offset : nat) (value header : bytes) : bytes :=
  take offset header ++ value ++ drop (offset + length value) header.

Record ArchiveLayout := mkLayout {
  root_length : N; metadata_length : N; layout_tile_data_offset : N; layout_tile_data_length : N;
  layout_addressed_tiles : N; layout_minimum_zoom : N; layout_maximum_zoom : N }.

Definition magic : bytes := [x50; x4d; x54; x69; x6c; x65; x73].

Definition build_header (layout : ArchiveLayout) (tile_compression : N) : bytes :=
  let put_u64 offset value := splice offset (to_le_bytes value) in
  let put_u8 offset value := splice offset [u8 value] in
  let h := replicate 127 x00 in
  let h := splice 0 magic h in
  let h := put_u8 7%nat 3 h in
  let h := put_u64 8%nat HEADER_BYTES h in
  let h := put_u64 16%nat (root_length layout) h in
  let h := put_u64 24%nat (wrap 64 (HEADER_BYTES + root_length layout)) h in
  let h := put_u64 32%nat (metadata_length layout) h in
  let h := put_u64 40%nat 0 h in
  let h := put_u64 48%nat 0 h in
  let h := put_u64 56%nat (layout_tile_data_offset layout) h in
  let h := put_u64 64%nat (layout_tile_data_length layout) h in
  let h := put_u64 72%nat (layout_addressed_tiles layout) h in
  let h := put_u64 80%nat (layout_addressed_tiles layout) h in
  let h := put_u64 88%nat (layout_addressed_tiles layout) h in
  let h := put_u8 96%nat 1 h in
  let h := put_u8 97%nat 2 h in
  let h := put_u8 98%nat tile_compression h in
  let h := put_u8 99%nat 1 h in
  let h := put_u8 100%nat (layout_minimum_zoom layout) h in
  put_u8 101%nat (layout_maximum_zoom layout) h.

(** [offset.checked_add(length)] is none or beyond the limit *)
Definition invalid_section (offset length limit : N) : bool :=
  match checked_add_u64 offset length with
  | Some end' => limit <? end'
  | None => true
  end.

Definition u8_at (h : bytes) (offset : nat) : N := Byte.to_N (default x00 (h !! offset)).
Definition u64_at (h : bytes) (offset : nat) : N := from_le_bytes (take 8 (drop offset h)).

(** The length is checked first, so no index is out of range. *)
Definition parse_header (h : bytes) (object_bytes : N) : result PmTilesError PmTilesHeader :=
  err_if (negb (N.of_nat (length h) =? HEADER_BYTES) || negb (bool_decide (take 7 h = magic))
          || negb (u8_at h 7 =? 3)) (Invalid MagicLengthOrVersion);;
  let header :=
    {| version := u8_at h 7;
       root_directory_offset := u64_at h 8;
       root_directory_length := u64_at h 16;
       leaf_directory_offset := u64_at h 40;
       leaf_directory_length := u64_at h 48;
       tile_data_offset := u64_at h 56;
       tile_data_length := u64_at h 64;
       addressed_tiles := u64_at h 72;
       internal_compression := u8_at h 97;
       tile_compression := u8_at h 98;
       tile_type := u8_at h 99;
       minimum_zoom := u8_at h 100;
       maximum_zoom := u8_at h 101 |} in
  err_if
    ((root_directory_offset header <? HEADER_BYTES)
     || invalid_section (root_directory_offset header) (root_directory_length header)
          ROOT_DIRECTORY_LIMIT
     || (maximum_zoom header <? minimum_zoom header)
     || invalid_section (tile_data_offset header) (tile_data_length header) object_bytes
     || invalid_section (leaf_directory_offset header) (leaf_directory_length header) object_bytes
     || invalid_section (root_directory_offset header) (root_directory_length header) object_bytes)
    (Invalid SectionBounds);;
  Ok header.

(** ** Directory *)

(** The four passes of [encode_directory] *)
Fixpoint encode_ids (last_id : N) (entries : list DirectoryEntry) : bytes :=
  match entries with
  | [] => []
  | e :: entries =>
      varint_bytes 10 (sub_wrap 64 (entry_tile_id e) last_id) ++ encode_ids (entry_tile_id e) entries
  end.
Fixpoint encode_offsets (previous : option DirectoryEntry) (entries : list DirectoryEntry) : bytes :=
  match entries with
  | [] => []
  | e :: entries =>
      let plus_one := wrap 64 (entry_offset e + 1) in
      varint_bytes 10
        match previous with
        | None => plus_one
        | Some p =>
            if wrap 64 (entry_offset p + entry_length p) =? entry_offset e then 0 else plus_one
        end ++ encode_offsets (Some e) entries
  end.
Definition encode_directory (entries : list DirectoryEntry) : bytes :=
  let buffer := push_varint [] (N.of_nat (length entries)) in
  let buffer := buffer ++ encode_ids 0 entries in
  let buffer := foldl (fun b e => push_varint b (run_length e)) buffer entries in
  let buffer := foldl (fun b e => push_varint b (entry_length e)) buffer entries in
  buffer ++ encode_offsets None entries.

(** The passes of [decode_directory] fill in the preallocated entries; the
    cursor is threaded. *)
Definition varint (decoded : bytes) (cursor : nat) : result PmTilesError (N * nat) :=
  map_err (fun e => Invalid (Varint e)) (read_varint decoded cursor).

Fixpoint decode_ids (decoded : bytes) (last_id : N) (entries : list DirectoryEntry) (cursor : nat)
    : result PmTilesError (list DirectoryEntry * nat) :=
  match entries with
  | [] => Ok ([], cursor)
  | e :: entries =>
      '(delta, cursor) ← varint decoded cursor;
      last_id ← ok_or (checked_add_u64 last_id delta) (Invalid TileIdOverflow);
      '(entries, cursor) ← decode_ids decoded last_id entries cursor;
      Ok (mkEntry last_id (entry_offset e) (entry_length e) (run_length e) :: entries, cursor)
  end.
Fixpoint decode_runs (decoded : bytes) (entries : list DirectoryEntry) (cursor : nat)
    : result PmTilesError (list DirectoryEntry * nat) :=
  match entries with
  | [] => Ok ([], cursor)
  | e :: entries =>
      '(run, cursor) ← varint decoded cursor;
      '(entries, cursor) ← decode_runs decoded entries cursor;
      Ok (mkEntry (entry_tile_id e) (entry_offset e) (entry_length e) run :: entries, cursor)
  end.
Fixpoint decode_lengths (decoded : bytes) (entries : list DirectoryEntry) (cursor : nat)
    : result PmTilesError (list DirectoryEntry * nat) :=
  match entries with
  | [] => Ok ([], cursor)
  | e :: entries =>
      '(length, cursor) ← varint decoded cursor;
      err_if (length =? 0) (Invalid ZeroLength);;
      '(entries, cursor) ← decode_lengths decoded entries cursor;
      Ok (mkEntry (entry_tile_id e) (entry_offset e) length (run_length e) :: entries, cursor)
  end.
Fixpoint decode_offsets (decoded : bytes) (previous : option DirectoryEntry)
    (entries : list DirectoryEntry) (cursor : nat)
    : result PmTilesError (list DirectoryEntry * nat) :=
  match entries with
  | [] => Ok ([], cursor)
  | e :: entries =>
      '(encoded, cursor) ← varint decoded cursor;
      offset ←
        match previous with
        | Some p =>
            if encoded =? 0
            then ok_or (checked_add_u64 (entry_offset p) (entry_length p)) (Invalid OffsetOverflow)
            else Ok (encoded - 1)
        | None => if 0 <? encoded then Ok (encoded - 1) else Err (Invalid FirstOffsetSentinel)
        end;
      let e := mkEntry (entry_tile_id e) offset (entry_length e) (run_length e) in
      '(entries, cursor) ← decode_offsets decoded (Some e) entries cursor;
      Ok (e :: entries, cursor)
  end.

(** [take_while(..).last()] *)
Fixpoint take_while {A} (f : A -> bool) (l : list A) : list A :=
  match l with
  | [] => []
  | x :: l => if f x then x :: take_while f l else []
  end.
Definition find_entry (entries : list DirectoryEntry) (tile_id : N) : option DirectoryEntry :=
  last (take_while (fun e => entry_tile_id e <=? tile_id) entries).

Record PmTilesTileEntry := mkTile { te_z : N; te_x : N; te_y : N; te_bytes : bytes }.
Record PmTilesWriteOptions := mkOptions { metadata_json : string; compress_tiles : bool }.
Definition compressed (metadata_json : string) : PmTilesWriteOptions := mkOptions metadata_json true.
Record PmTilesWriteReceipt := mkWriteReceipt {
  wr_object_bytes : N; wr_addressed_tiles : N; wr_entry_count : N; wr_internal_compression : N;
  wr_tile_compression : N; wr_minimum_zoom : N; wr_maximum_zoom : N }.

(** The order of [sort_by_key(|(tile_id, _)| *tile_id)] *)
Definition id_le (a b : N * bytes) : Prop := a.1 <= b.1.
#[export] Instance id_le_dec : RelDecision id_le.
Proof. intros a b. unfold id_le. apply _. Defined.
#[export] Instance id_le_trans : Transitive id_le.
Proof. intros a b c. unfold id_le. lia. Qed.
#[export] Instance id_le_total : Total id_le.
Proof. intros a b. unfold id_le. lia. Qed.

Section Archive.
(** [GzEncoder] at the default level; [GzDecoder::new(..).take(limit)] read to
    its end. *)
Context (gzip_encode : bytes -> result string bytes)
        (gzip_decode : bytes -> N -> result string bytes).

Definition gzip (b : bytes) : result PmTilesError bytes :=
  map_err (fun text => StorageFailed (FromIo text)) (gzip_encode b).

Definition encode_payload (b : bytes) (compression : N) : result PmTilesError bytes :=
  if compression =? 1 then Ok b
  else if compression =? 2 then gzip b
  else Err (UnsupportedCompression compression).

Definition decode_payload (b : bytes) (compression : N) (section : Section')
    : result PmTilesError bytes :=
  if compression =? 1 then Ok b
  else if compression =? 2 then
    output ← map_err (fun text => Invalid (Gzip section text)) (gzip_decode b (MAX_DIRECTORY_BYTES + 1));
    err_if (MAX_DIRECTORY_BYTES <? N.of_nat (length output)) (Invalid (BudgetExceeded section));;
    Ok output
  else Err (UnsupportedCompression compression).

Definition decode_tile_payload (b : bytes) (tile_compression : N) : result PmTilesError bytes :=
  decode_payload b tile_compression TileSection.

Definition decode_entries (decoded : bytes) : result PmTilesError (list DirectoryEntry) :=
  '(count, cursor) ← varint decoded 0;
  err_if ((count =? 0) || (1000000 <? count)) (Invalid EntryCount);;
  let entries := replicate (N.to_nat count) (mkEntry 0 0 0 0) in
  '(entries, cursor) ← decode_ids decoded 0 entries cursor;
  '(entries, cursor) ← decode_runs decoded entries cursor;
  '(entries, cursor) ← decode_lengths decoded entries cursor;
  '(entries, cursor) ← decode_offsets decoded None entries cursor;
  err_if (negb (Nat.eqb cursor (length decoded))) (Invalid TrailingBytes);;
  Ok entries.

Definition decode_directory (b : bytes) (compression : N) : result PmTilesError (list DirectoryEntry) :=
  decoded ← decode_payload b compression DirectorySection;
  decode_entries decoded.

(** ** Reading a tile *)

Section Read.
Context (w : World) (policy : RemoteAccessPolicy).

Definition read_exact_range (uri : string) (start length' : N)
    : st (list IoRequestEvidence) PmTilesError bytes :=
  lift (err_if ((length' =? 0) || (MAX_DIRECTORY_BYTES <? length')) (Invalid (RangeLength length')));;
  end' ← lift (ok_or (checked_add_u64 start (length' - 1)) (Invalid RangeOverflow));
  range ← lift (map_err (fun e => StorageFailed (FromStorage e)) (range_new start end'));
  '(b, status) ←
    (if is_remote_uri uri then
       response ← lift (map_err (fun e => StorageFailed (FromStorage e))
                          (fetch_http_range w policy uri range));
       lift (err_if (negb (fetch_status response =? 206)) (WholeObjectFallback (fetch_status response)));;
       mret (fetch_bytes response, Some (fetch_status response))
     else
       b ← lift (map_err (fun e => StorageFailed (FromStorage e)) (read_local_range w uri range));
       mret (b, None));
  lift (err_if (negb (N.of_nat (length b) =? length'))
          (Invalid (RangeMismatch length' (N.of_nat (length b)))));;
  modify (fun requests => requests ++ [mkRequest start end' (N.of_nat (length b)) status]);;
  mret b.

Definition object_size (uri : string) : result PmTilesError N :=
  if is_remote_uri uri
  then map_err (fun e => StorageFailed (FromStorage e)) (probe_http_content_length w policy uri)
  else file ← ok_or (disk w !! uri) (StorageFailed (FromIo (io_error w uri)));
       Ok (N.of_nat (length file)).

(** [1_u32.checked_shl(z as u32).unwrap_or(0)] *)
Definition dimension (z : N) : N := if z <? 32 then N.shiftl 1 z else 0.

Definition read_tile_body (uri : string) (z x y object_bytes : N)
    : st (list IoRequestEvidence) PmTilesError (PmTilesHeader * N * bytes) :=
  header_bytes ← read_exact_range uri 0 HEADER_BYTES;
  header ← lift (parse_header header_bytes object_bytes);
  lift (err_if ((z <? minimum_zoom header) || (maximum_zoom header <? z)
                || (dimension z <=? x) || (dimension z <=? y)) (TileNotFound z x y));;
  tile_id ← lift (zxy_to_tile_id z x y);
  root_bytes ← read_exact_range uri (root_directory_offset header) (root_directory_length header);
  root ← lift (decode_directory root_bytes (internal_compression header));
  selected ← lift (ok_or (find_entry root tile_id) (TileNotFound z x y));
  tile_entry ←
    (if run_length selected =? 0 then
       leaf_offset ← lift (ok_or (checked_add_u64 (leaf_directory_offset header) (entry_offset selected))
                             (Invalid LeafOffsetOverflow));
       leaf_bytes ← read_exact_range uri leaf_offset (entry_length selected);
       leaf ← lift (decode_directory leaf_bytes (internal_compression header));
       lift (ok_or (entry ← find_entry leaf tile_id; guard (0 < run_length entry);; Some entry)
               (TileNotFound z x y))
     else mret selected);
  lift (err_if ((tile_id <? entry_tile_id tile_entry)
                || (wrap 64 (entry_tile_id tile_entry + run_length tile_entry) <=? tile_id))
          (TileNotFound z x y));;
  offset ← lift (ok_or (checked_add_u64 (tile_data_offset header) (entry_offset tile_entry))
                   (Invalid TileOffsetOverflow));
  b ← read_exact_range uri offset (entry_length tile_entry);
  mret (header, tile_id, b).

Definition read_pmtiles_tile (uri : string) (z x y : N) : result PmTilesError PmTilesTileRead :=
  object_bytes ← object_size uri;
  let '(r, requests) := read_tile_body uri z x y object_bytes [] in
  '(header, tile_id, b) ← r;
  Ok (mkTileRead header z x y tile_id b object_bytes requests).
End Read.

(** ** Writing an archive *)

Definition write_sorted (entries : list PmTilesTileEntry) : result PmTilesError (list (N * bytes)) :=
  sorted ← try_map (fun entry =>
    err_if (bool_decide (te_bytes entry = []))
      (Invalid (EmptyPayload (te_z entry) (te_x entry) (te_y entry)));;
    tile_id ← zxy_to_tile_id (te_z entry) (te_x entry) (te_y entry);
    Ok (tile_id, te_bytes entry)) entries;
  Ok (merge_sort id_le sorted).

(** [sorted.windows(2).any(|pair| pair[0].0 == pair[1].0)] *)
Fixpoint adjacent_duplicate (sorted : list (N * bytes)) : bool :=
  match sorted with
  | a :: (b :: _) as rest => (a.1 =? b.1) || adjacent_duplicate rest
  | _ => false
  end.

(** One turn per tile: encode it and give it the next slot of the data section. *)
Fixpoint place_tiles (tile_compression offset : N) (sorted : list (N * bytes))
    : result PmTilesError (list bytes * list DirectoryEntry) :=
  match sorted with
  | [] => Ok ([], [])
  | (tile_id, b) :: sorted =>
      encoded ← encode_payload b tile_compression;
      let length' := N.of_nat (length encoded) in
      '(payloads, directory) ← place_tiles tile_compression (wrap 64 (offset + length')) sorted;
      Ok (encoded :: payloads, mkEntry tile_id offset length' 1 :: directory)
  end.

Definition archive_of (entries : list PmTilesTileEntry) (options : PmTilesWriteOptions)
    : result PmTilesError (bytes * PmTilesWriteReceipt) :=
  match entries with
  | [] => Err (Invalid NoEntries)
  | first :: others =>
      sorted ← write_sorted entries;
      err_if (adjacent_duplicate sorted) (Invalid DuplicateTile);;
      let tile_compression := if compress_tiles options then 2 else 1 in
      '(encoded_payloads, directory) ← place_tiles tile_compression 0 sorted;
      root_directory ← gzip (encode_directory directory);
      metadata_bytes ← gzip (String.list_byte_of_string (metadata_json options));
      let encoded_tiles := concat encoded_payloads in
      let json_metadata_offset := wrap 64 (HEADER_BYTES + N.of_nat (length root_directory)) in
      let tile_data_offset := wrap 64 (json_metadata_offset + N.of_nat (length metadata_bytes)) in
      let addressed_tiles := N.of_nat (length directory) in
      let minimum_zoom := foldl N.min (te_z first) (map te_z others) in
      let maximum_zoom := foldl N.max (te_z first) (map te_z others) in
      let layout :=
        {| root_length := N.of_nat (length root_directory);
           metadata_length := N.of_nat (length metadata_bytes);
           layout_tile_data_offset := tile_data_offset;
           layout_tile_data_length := N.of_nat (length encoded_tiles);
           layout_addressed_tiles := addressed_tiles;
           layout_minimum_zoom := minimum_zoom;
           layout_maximum_zoom := maximum_zoom |} in
      let archive :=
        build_header layout tile_compression ++ root_directory ++ metadata_bytes ++ encoded_tiles in
      Ok (archive,
          {| wr_object_bytes := N.of_nat (length archive);
             wr_addressed_tiles := addressed_tiles;
             wr_entry_count := N.of_nat (length directory);
             wr_internal_compression := 2;
             wr_tile_compression := tile_compression;
             wr_minimum_zoom := minimum_zoom;
             wr_maximum_zoom := maximum_zoom |})
  end.

Definition write_pmtiles_archive (path : string) (entries : list PmTilesTileEntry)
    (options : PmTilesWriteOptions) : st World PmTilesError PmTilesWriteReceipt := fun w =>
  match archive_of entries options with
  | Err e => (Err e, w)
  | Ok (archive, receipt) =>
      let '(written, w') := fs_write path archive w in
      (map_err (fun text => StorageFailed (FromIo text)) written;; Ok receipt, w')
  end.
End Archive.

(** A stored-only gzip for the witnesses: a magic byte and the contents. *)
Definition sample_gzip (b : bytes) : result string bytes := Ok (x1f :: b).
Definition sample_gunzip (b : bytes) (limit : N) : result string bytes :=
  match b with x1f :: b => Ok (take (N.to_nat limit) b) | _ => Err "invalid gzip header" end.
Definition sample_tiles : list PmTilesTileEntry :=
  [mkTile 1 1 0 [x01; x02; x03]; mkTile 0 0 0 [x04]; mkTile 1 0 1 [x05; x06]].
Definition sample_archive : result PmTilesError PmTilesWriteReceipt * World :=
  write_pmtiles_archive sample_gzip "/tiles.pmtiles" sample_tiles (compressed "{}") sample_world.

(** * Theory *)

(** ** Tile identities *)

(** The position of a tile inside its zoom level, quadrant by quadrant: [k]
    levels are left, the quadrant is read off bit [k - 1] of the coordinates, and
    the rest of the curve is entered in the quadrant's orientation. *)
Definition quadrant (rx ry : bool) : N := N.lxor (3 * bit_u32 rx) (bit_u32 ry).
Definition turn (z : N) (rx ry : bool) (p : N * N) : N * N :=
  if ry then p
  else if rx then (2 ^ z - 1 - p.2, 2 ^ z - 1 - p.1)
  else (p.2, p.1).
Fixpoint curve (z : N) (k : nat) (p : N * N) : N :=
  match k with
  | O => 0
  | S k =>
      let rx := N.testbit p.1 (N.of_nat k) in
      let ry := N.testbit p.2 (N.of_nat k) in
      4 ^ N.of_nat k * quadrant rx ry + curve z k (turn z rx ry p)
  end.

Definition in_zoom (z : N) (p : N * N) : Prop := p.1 < 2 ^ z /\ p.2 < 2 ^ z.

Lemma quadrant_lt rx ry : quadrant rx ry < 4.
Proof. by destruct rx, ry. Qed.

Lemma quadrant_inj rx ry rx' ry' : quadrant rx ry = quadrant rx' ry' -> rx = rx' /\ ry = ry'.
Proof. by destruct rx, ry, rx', ry'. Qed.

Lemma curve_lt z k p : curve z k p < 4 ^ N.of_nat k.
Proof.
  revert p. induction k as [|k IH]; intros p; cbn [curve]; [done|]. cbv zeta.
  rewrite Nat2N.inj_succ, N.pow_succ_r'.
  set (rx := N.testbit p.1 _). set (ry := N.testbit p.2 _).
  pose proof (IH (turn z rx ry p)). pose proof (quadrant_lt rx ry). nia.
Qed.

Lemma turn_in_zoom z rx ry p : in_zoom z p -> in_zoom z (turn z rx ry p).
Proof. unfold in_zoom, turn. destruct rx, ry; simpl; lia. Qed.

Lemma flip_mod z k v :
  k <= z -> v < 2 ^ z -> (2 ^ z - 1 - v) mod 2 ^ k = 2 ^ k - 1 - v mod 2 ^ k.
Proof.
  intros Hk Hv. assert (Hz : 2 ^ z = 2 ^ (z - k) * 2 ^ k).
  { rewrite <-N.pow_add_r. f_equal. lia. }
  assert (HP : 2 ^ k <> 0) by (by apply N.pow_nonzero).
  pose proof (N.div_mod' v (2 ^ k)) as Hdm. pose proof (N.mod_upper_bound v (2 ^ k) HP) as Hr.
  assert (Hq : v / 2 ^ k < 2 ^ (z - k)) by (apply N.Div0.div_lt_upper_bound; lia).
  set (P := 2 ^ k) in *. set (q := v / P) in *. set (r := v mod P) in *.
  set (m := 2 ^ (z - k) - 1 - q). symmetry. apply N.mod_unique with m; [lia|].
  assert (Hm : 2 ^ (z - k) = 1 + q + m) by lia. rewrite Hz, Hm, Hdm, !N.mul_add_distr_r.
  rewrite (N.mul_comm q P), (N.mul_comm m P). lia.
Qed.

Lemma mod_pow2_succ v k :
  v mod 2 ^ N.of_nat (S k) = v mod 2 ^ N.of_nat k + 2 ^ N.of_nat k * N.b2n (N.testbit v (N.of_nat k)).
Proof.
  rewrite Nat2N.inj_succ, N.pow_succ_r', (N.mul_comm 2), N.Div0.mod_mul_r. f_equal. f_equal.
  rewrite <-N.testbit_spec'. by rewrite N.testbit_spec'.
Qed.

Lemma flip_inj z k v v' :
  k <= z -> v < 2 ^ z -> v' < 2 ^ z ->
  (2 ^ z - 1 - v) mod 2 ^ k = (2 ^ z - 1 - v') mod 2 ^ k -> v mod 2 ^ k = v' mod 2 ^ k.
Proof.
  intros Hk Hv Hv'. rewrite !flip_mod by done.
  assert (HP : 2 ^ k <> 0) by (by apply N.pow_nonzero).
  pose proof (N.mod_upper_bound v (2 ^ k) HP) as H1.
  pose proof (N.mod_upper_bound v' (2 ^ k) HP) as H2.
  generalize dependent (v mod 2 ^ k). generalize dependent (v' mod 2 ^ k).
  clear. generalize (2 ^ k). lia.
Qed.

Lemma curve_inj z k p q :
  N.of_nat k <= z -> in_zoom z p -> in_zoom z q -> curve z k p = curve z k q ->
  p.1 mod 2 ^ N.of_nat k = q.1 mod 2 ^ N.of_nat k
  /\ p.2 mod 2 ^ N.of_nat k = q.2 mod 2 ^ N.of_nat k.
Proof.
  revert p q. induction k as [|k IH]; intros p q Hk Hp Hq Heq.
  { change (2 ^ N.of_nat 0) with 1. by rewrite !N.mod_1_r. }
  cbn [curve] in Heq. cbv zeta in Heq. rewrite !mod_pow2_succ.
  set (rx := N.testbit p.1 _) in *. set (ry := N.testbit p.2 _) in *.
  set (rx' := N.testbit q.1 _) in *. set (ry' := N.testbit q.2 _) in *.
  pose proof (curve_lt z k (turn z rx ry p)) as H1.
  pose proof (curve_lt z k (turn z rx' ry' q)) as H2.
  assert (quadrant rx ry = quadrant rx' ry') as [-> ->]%quadrant_inj by nia.
  assert (curve z k (turn z rx' ry' p) = curve z k (turn z rx' ry' q)) as Hc by lia.
  apply IH in Hc as [Hx Hy]; [|lia|by apply turn_in_zoom..].
  destruct Hp as [Hp1 Hp2], Hq as [Hq1 Hq2]. assert (Hk' : N.of_nat k <= z) by lia.
  unfold turn in Hx, Hy. destruct ry'; [by rewrite Hx, Hy|]. destruct rx'; cbn [fst snd] in *.
  - apply flip_inj in Hx, Hy; try done. by rewrite Hx, Hy.
  - by rewrite Hx, Hy.
Qed.

(** *** The loop walks the curve *)

Lemma land_pow2_testbit v k : negb (N.land v (2 ^ k) =? 0) = N.testbit v k.
Proof.
  assert (Hl : N.land v (2 ^ k) = if N.testbit v k then 2 ^ k else 0).
  { apply N.bits_inj. intros i. rewrite N.land_spec. destruct (decide (i = k)) as [->|Hi].
    - rewrite N.pow2_bits_true, andb_true_r. destruct (N.testbit v k); [by rewrite N.pow2_bits_true|done].
    - rewrite N.pow2_bits_false by done. rewrite andb_false_r.
      destruct (N.testbit v k); [by rewrite N.pow2_bits_false|done]. }
  rewrite Hl. destruct (N.testbit v k); [|done].
  apply negb_true_iff, N.eqb_neq. by apply N.pow_nonzero.
Qed.

Lemma pow2_le z k : k <= z -> 2 ^ k <= 2 ^ z.
Proof. intros. by apply N.pow_le_mono_r. Qed.

Lemma flip_u32 z v : z <= 31 -> v < 2 ^ z ->
  sub_wrap 32 (sub_wrap 32 (N.shiftl 1 z) 1) v = 2 ^ z - 1 - v.
Proof.
  intros Hz Hv. pose proof (pow2_le 31 z Hz) as H31. change (2 ^ 31) with 2147483648 in H31.
  rewrite N.shiftl_1_l. assert (H32 : 2 ^ 32 = 4294967296) by done.
  rewrite (sub_wrap_small 32 (2 ^ z)); [|lia|rewrite H32; lia].
  apply sub_wrap_small; [|rewrite H32]; lia.
Qed.

(** [2^k / 2] is the scale with [k] levels to go. *)
Lemma half_pow2 k : 2 ^ N.of_nat (S k) / 2 = 2 ^ N.of_nat k.
Proof. by rewrite Nat2N.inj_succ, N.pow_succ_r', N.mul_comm, N.div_mul. Qed.

Lemma hilbert_loop_curve k fuel z p d :
  (k < fuel)%nat -> N.of_nat k <= z <= 31 -> in_zoom z p ->
  d + 4 ^ N.of_nat k <= 2 ^ 64 ->
  hilbert_loop fuel z p.1 p.2 (2 ^ N.of_nat k / 2) d = d + curve z k p.
Proof.
  revert fuel p d. induction k as [|k IH]; intros fuel p d Hf Hk Hp Hd;
    (destruct fuel as [|fuel]; [lia|]); cbn [hilbert_loop curve]; cbv zeta.
  { change (2 ^ N.of_nat 0 / 2 =? 0) with true. cbv iota. lia. }
  rewrite half_pow2, !land_pow2_testbit.
  set (rx := N.testbit p.1 _). set (ry := N.testbit p.2 _).
  assert (Hne : 2 ^ N.of_nat k <> 0) by (by apply N.pow_nonzero).
  apply N.eqb_neq in Hne. rewrite Hne.
  assert (Hsq : 2 ^ N.of_nat k * 2 ^ N.of_nat k = 4 ^ N.of_nat k) by (by rewrite <-N.pow_mul_l).
  rewrite Hsq. change (N.lxor (3 * bit_u32 rx) (bit_u32 ry)) with (quadrant rx ry).
  rewrite Nat2N.inj_succ, N.pow_succ_r' in Hd. pose proof (quadrant_lt rx ry) as Hq.
  assert (Hpos : 0 < 4 ^ N.of_nat k) by (apply N.neq_0_lt_0; by apply N.pow_nonzero).
  assert (Hw : wrap 64 (d + 4 ^ N.of_nat k * quadrant rx ry) = d + 4 ^ N.of_nat k * quadrant rx ry).
  { unfold wrap. apply N.mod_small. generalize dependent (4 ^ N.of_nat k).
    generalize dependent (quadrant rx ry). generalize (2 ^ 64). clear. nia. }
  rewrite Hw. destruct Hp as [Hp1 Hp2]. rewrite !flip_u32 by (done || lia).
  assert (Hturn : (if ry then (p.1, p.2) else if rx then (2 ^ z - 1 - p.2, 2 ^ z - 1 - p.1)
                   else (p.2, p.1)) = turn z rx ry p) by (by destruct p).
  rewrite Hturn. destruct (turn z rx ry p) as [x' y'] eqn:Ht.
  change x' with (fst (x', y')) at 1. change y' with (snd (x', y')) at 2.
  rewrite IH; [by rewrite N.add_assoc|lia|lia| |].
  - rewrite <-Ht. apply turn_in_zoom. by split.
  - generalize dependent (4 ^ N.of_nat k). generalize dependent (quadrant rx ry).
    generalize (2 ^ 64). clear. nia.
Qed.

(** *** Bounds and injectivity *)

(** The number of tiles of all coarser zoom levels *)
Definition zoom_base (z : N) : N := (4 ^ z - 1) / 3.

Lemma zoom_base_spec z : 3 * zoom_base z + 1 = 4 ^ z.
Proof.
  assert (H : exists q, 4 ^ z = 3 * q + 1).
  { induction z as [|z [q IH]] using N.peano_ind; [by exists 0|].
    exists (4 * q + 1). rewrite N.pow_succ_r', IH. lia. }
  destruct H as [q Hq]. unfold zoom_base. rewrite Hq, N.add_sub, (N.mul_comm 3 q), N.div_mul by done. lia.
Qed.

Lemma zoom_base_succ z : zoom_base (z + 1) = zoom_base z + 4 ^ z.
Proof.
  rewrite N.add_1_r. pose proof (zoom_base_spec z) as H1.
  pose proof (zoom_base_spec (N.succ z)) as H2. rewrite N.pow_succ_r' in H2. generalize dependent (4 ^ z).
  generalize (zoom_base z), (zoom_base (N.succ z)). clear. lia.
Qed.

Lemma zoom_base_mono z z' : z <= z' -> zoom_base z <= zoom_base z'.
Proof.
  intros Hz. pose proof (zoom_base_spec z). pose proof (zoom_base_spec z').
  assert (4 ^ z <= 4 ^ z') by (by apply N.pow_le_mono_r). lia.
Qed.

Lemma tile_id_ok z x y id :
  zxy_to_tile_id z x y = Ok id <->
  z <= 31 /\ in_zoom z (x, y) /\ id = zoom_base z + curve z (N.to_nat z) (x, y).
Proof.
  unfold zxy_to_tile_id, in_zoom. rewrite seq_ok, err_if_ok, N.shiftl_1_l. cbv zeta.
  rewrite !orb_false_iff, N.ltb_ge, !N.leb_gt. cbn [fst snd].
  assert (Hbody : z <= 31 -> x < 2 ^ z -> y < 2 ^ z ->
    wrap 64 ((N.shiftl 1 (z * 2) - 1) / 3 + hilbert_loop 32 z x y (N.shiftl 1 (z - 1)) 0)
    = zoom_base z + curve z (N.to_nat z) (x, y)).
  { intros Hz Hx Hy.
    assert (Hbase : (N.shiftl 1 (z * 2) - 1) / 3 = zoom_base z).
    { unfold zoom_base. rewrite N.shiftl_1_l, (N.mul_comm z 2), N.pow_mul_r. done. }
    assert (Hloop : hilbert_loop 32 z x y (N.shiftl 1 (z - 1)) 0 = curve z (N.to_nat z) (x, y)).
    { destruct (decide (z = 0)) as [->|Hz0].
      - assert (x = 0) as -> by (change (2 ^ 0) with 1 in Hx; lia).
        assert (y = 0) as -> by (change (2 ^ 0) with 1 in Hy; lia). reflexivity.
      - assert (Hscale : N.shiftl 1 (z - 1) = 2 ^ N.of_nat (N.to_nat z) / 2).
        { rewrite N2Nat.id, N.shiftl_1_l. replace z with (N.succ (z - 1)) at 2 by lia.
          by rewrite N.pow_succ_r', N.mul_comm, N.div_mul. }
        rewrite Hscale. change x with (fst (x, y)) at 1. change y with (snd (x, y)) at 2.
        rewrite hilbert_loop_curve; [by rewrite N.add_0_l|lia|lia|done|].
        rewrite N2Nat.id, N.add_0_l. etrans; [by apply (N.pow_le_mono_r 4 z 31)|done]. }
    rewrite Hbase, Hloop. unfold wrap. apply N.mod_small.
    pose proof (curve_lt z (N.to_nat z) (x, y)) as Hc. rewrite N2Nat.id in Hc.
    pose proof (zoom_base_spec z) as Hb.
    assert (H31 : 4 ^ z <= 4611686018427387904) by (by apply (N.pow_le_mono_r 4 z 31)).
    change (2 ^ 64) with 18446744073709551616.
    generalize dependent (4 ^ z). generalize (zoom_base z), (curve z (N.to_nat z) (x, y)).
    clear. lia. }
  split.
  - intros [[[Hz Hx] Hy] Heq]. rewrite Hbody in Heq by done. split; [done|]. split; [done|].
    by injection Heq as <-.
  - intros (Hz & [Hx Hy] & ->). rewrite Hbody by done. done.
Qed.

Lemma curve_inj_zoom z p q :
  in_zoom z p -> in_zoom z q -> curve z (N.to_nat z) p = curve z (N.to_nat z) q -> p = q.
Proof.
  intros Hp Hq Hc. apply curve_inj in Hc; [|lia|done|done]. rewrite N2Nat.id in Hc.
  destruct Hp, Hq. rewrite !N.mod_small in Hc by done. destruct p, q, Hc. by simplify_eq/=.
Qed.

(** The curve through a zoom level passes every position: it is injective from
    the [4^z] tiles into as many positions. *)
Definition zoom_tiles (z : N) : list (N * N) :=
  (fun i => (N.of_nat i / 2 ^ z, N.of_nat i mod 2 ^ z)) <$> seq 0 (N.to_nat (4 ^ z)).

Lemma zoom_tiles_in z p : p ∈ zoom_tiles z -> in_zoom z p.
Proof.
  intros (i & -> & Hi%elem_of_seq)%list_elem_of_fmap. split; cbn [fst snd].
  - apply N.Div0.div_lt_upper_bound.
    replace (2 ^ z * 2 ^ z) with (4 ^ z) by (by rewrite <-N.pow_mul_l). lia.
  - apply N.mod_upper_bound. by apply N.pow_nonzero.
Qed.

Lemma zoom_tiles_NoDup z : NoDup (zoom_tiles z).
Proof.
  apply NoDup_fmap_2_strong; [|apply NoDup_seq]. intros i j _ _ [= Hd Hm].
  apply Nat2N.inj. rewrite (N.div_mod' (N.of_nat i) (2 ^ z)), (N.div_mod' (N.of_nat j) (2 ^ z)).
  by rewrite Hd, Hm.
Qed.

Lemma curve_surj z d : d < 4 ^ z -> exists p, in_zoom z p /\ curve z (N.to_nat z) p = d.
Proof.
  intros Hd. set (f := curve z (N.to_nat z)).
  assert (Hin : incl (N.of_nat <$> seq 0 (N.to_nat (4 ^ z))) (f <$> zoom_tiles z)).
  { apply NoDup_length_incl.
    - apply NoDup_ListNoDup, NoDup_fmap_2_strong; [|apply zoom_tiles_NoDup].
      intros p q Hp%zoom_tiles_in Hq%zoom_tiles_in. by apply curve_inj_zoom.
    - unfold zoom_tiles. by rewrite !length_fmap.
    - intros v (p & -> & _)%list_elem_of_In%list_elem_of_fmap.
      apply list_elem_of_In, list_elem_of_fmap. exists (N.to_nat (f p)).
      rewrite N2Nat.id, elem_of_seq. split; [done|]. unfold f.
      pose proof (curve_lt z (N.to_nat z) p) as Hc. rewrite N2Nat.id in Hc. lia. }
  assert (Hd' : In d (N.of_nat <$> seq 0 (N.to_nat (4 ^ z)))).
  { apply list_elem_of_In, list_elem_of_fmap. exists (N.to_nat d).
    rewrite N2Nat.id, elem_of_seq. split; [done|lia]. }
  apply Hin, list_elem_of_In, list_elem_of_fmap in Hd' as (p & -> & Hp%zoom_tiles_in). eauto.
Qed.

Lemma tile_id_inj z x y z' x' y' id :
  zxy_to_tile_id z x y = Ok id -> zxy_to_tile_id z' x' y' = Ok id -> z = z' /\ x = x' /\ y = y'.
Proof.
  intros (Hz & Hp & H1)%tile_id_ok (Hz' & Hq & H2)%tile_id_ok.
  pose proof (curve_lt z (N.to_nat z) (x, y)) as Hc1. rewrite N2Nat.id in Hc1.
  pose proof (curve_lt z' (N.to_nat z') (x', y')) as Hc2. rewrite N2Nat.id in Hc2.
  assert (z = z') as <-.
  { destruct (N.lt_trichotomy z z') as [Hlt|[?|Hlt]]; [|done|]; exfalso.
    - pose proof (zoom_base_mono (z + 1) z' ltac:(lia)). rewrite zoom_base_succ in *. lia.
    - pose proof (zoom_base_mono (z' + 1) z ltac:(lia)). rewrite zoom_base_succ in *. lia. }
  assert ((x, y) = (x', y')) as [= -> ->] by (apply (curve_inj_zoom z); [done..|lia]). done.
Qed.

(** C22: The tile identity is total on the coordinates of zoom levels 0 to 31 and
    rejects everything else; two tiles never share one; and the identities of a
    zoom level are exactly the [4^z] numbers after those of all coarser levels. *)
Theorem tile_id_exact :
  (forall z x y, (exists id, zxy_to_tile_id z x y = Ok id) <-> z <= 31 /\ x < 2 ^ z /\ y < 2 ^ z)
  /\ (forall z x y z' x' y' id,
        zxy_to_tile_id z x y = Ok id -> zxy_to_tile_id z' x' y' = Ok id ->
        z = z' /\ x = x' /\ y = y')
  /\ (forall z id, z <= 31 ->
        (exists x y, zxy_to_tile_id z x y = Ok id) <-> zoom_base z <= id < zoom_base (z + 1)).
Proof.
  split_and!.
  - intros z x y. setoid_rewrite tile_id_ok. unfold in_zoom. cbn [fst snd]. naive_solver.
  - apply tile_id_inj.
  - intros z id Hz. rewrite zoom_base_succ. setoid_rewrite tile_id_ok. split.
    + intros (x & y & _ & _ & ->). pose proof (curve_lt z (N.to_nat z) (x, y)) as Hc.
      rewrite N2Nat.id in Hc. lia.
    + intros Hid. destruct (curve_surj z (id - zoom_base z)) as ([x y] & Hp & Hc); [lia|].
      exists x, y. rewrite Hc. split_and!; [done..|lia].
Qed.

Lemma tile_id_exact_witness : exists x y, zxy_to_tile_id 12 x y = Ok 19078479.
Proof. apply (proj2 (proj2 tile_id_exact) 12 19078479); [done | by vm_compute]. Defined.

(** *** Consecutive identities are neighbours *)

Definition low (k : nat) (p : N * N) : N * N := (p.1 mod 2 ^ N.of_nat k, p.2 mod 2 ^ N.of_nat k).

Lemma low_lt k p : (low k p).1 < 2 ^ N.of_nat k /\ (low k p).2 < 2 ^ N.of_nat k.
Proof. split; apply N.mod_upper_bound; by apply N.pow_nonzero. Qed.

(** The orientation acts on the low bits alone. *)
Lemma low_turn z k rx ry p :
  N.of_nat k <= z -> in_zoom z p -> low k (turn z rx ry p) = turn (N.of_nat k) rx ry (low k p).
Proof.
  intros Hk [H1 H2]. unfold low, turn. destruct ry; [done|]. destruct rx; [|done].
  cbn [fst snd]. by rewrite !flip_mod.
Qed.

Lemma low_succ k p :
  low (S k) p
  = ((low k p).1 + 2 ^ N.of_nat k * N.b2n (N.testbit p.1 (N.of_nat k)),
     (low k p).2 + 2 ^ N.of_nat k * N.b2n (N.testbit p.2 (N.of_nat k))).
Proof. unfold low. cbn [fst snd]. by rewrite !mod_pow2_succ. Qed.

(** One quadrant digit and the position inside it *)
Lemma digits_unique P a b c d : b < P -> d < P -> P * a + b = P * c + d -> a = c /\ b = d.
Proof. intros. nia. Qed.

Lemma pow2_succ k : 2 ^ N.of_nat (S k) = 2 * 2 ^ N.of_nat k.
Proof. by rewrite Nat2N.inj_succ, N.pow_succ_r'. Qed.
Lemma pow4_succ k : 4 ^ N.of_nat (S k) = 4 * 4 ^ N.of_nat k.
Proof. by rewrite Nat2N.inj_succ, N.pow_succ_r'. Qed.
Lemma pow_pos b k : 0 < b -> 0 < b ^ N.of_nat k.
Proof. intros Hb. apply N.neq_0_lt_0, N.pow_nonzero. lia. Qed.

(** The curve through [k] levels starts at the origin ... *)
Lemma curve_start z k p :
  N.of_nat k <= z -> in_zoom z p -> curve z k p = 0 -> low k p = (0, 0).
Proof.
  revert p. induction k as [|k IH]; intros p Hk Hp Hc.
  { unfold low. change (2 ^ N.of_nat 0) with 1. by rewrite !N.mod_1_r. }
  cbn [curve] in Hc. cbv zeta in Hc. rewrite low_succ.
  set (rx := N.testbit p.1 _) in *. set (ry := N.testbit p.2 _) in *.
  pose proof (pow_pos 4 k ltac:(done)).
  assert (quadrant rx ry = quadrant false false) as [-> ->]%quadrant_inj by (change (quadrant false false) with 0; nia).
  assert (Hc' : curve z k (turn z false false p) = 0) by lia.
  apply IH in Hc'; [|lia|by apply turn_in_zoom]. rewrite low_turn in Hc' by (done || lia).
  destruct (low k p) as [x y]. unfold turn in Hc'. cbn [fst snd N.b2n] in *. injection Hc' as -> ->.
  by rewrite !N.mul_0_r.
Qed.

(** ... and ends at the far end of the first axis. *)
Lemma curve_end z k p :
  N.of_nat k <= z -> in_zoom z p -> curve z k p = 4 ^ N.of_nat k - 1 ->
  low k p = (2 ^ N.of_nat k - 1, 0).
Proof.
  revert p. induction k as [|k IH]; intros p Hk Hp Hc.
  { unfold low. change (2 ^ N.of_nat 0) with 1. by rewrite !N.mod_1_r. }
  cbn [curve] in Hc. cbv zeta in Hc. rewrite low_succ, pow2_succ. rewrite pow4_succ in Hc.
  set (rx := N.testbit p.1 _) in *. set (ry := N.testbit p.2 _) in *.
  pose proof (pow_pos 4 k ltac:(done)) as HP. pose proof (pow_pos 2 k ltac:(done)) as HP2.
  pose proof (curve_lt z k (turn z rx ry p)) as Hlt.
  destruct (digits_unique (4 ^ N.of_nat k) (quadrant rx ry) (curve z k (turn z rx ry p))
    (quadrant true false) (4 ^ N.of_nat k - 1) Hlt) as [Hq Hc'];
    [lia | change (quadrant true false) with 3; lia |].
  apply quadrant_inj in Hq as [-> ->].
  apply IH in Hc'; [|lia|by apply turn_in_zoom]. rewrite low_turn in Hc' by (done || lia).
  pose proof (low_lt k p) as [Hx Hy].
  destruct (low k p) as [x y]. unfold turn in Hc'. cbn [fst snd N.b2n] in *. injection Hc' as H1 H2.
  f_equal; lia.
Qed.

Definition adjacent (p q : N * N) : Prop :=
  p.1 = q.1 /\ (p.2 = q.2 + 1 \/ q.2 = p.2 + 1) \/ p.2 = q.2 /\ (p.1 = q.1 + 1 \/ q.1 = p.1 + 1).

Lemma adjacent_turn k rx ry p q :
  p.1 < 2 ^ k /\ p.2 < 2 ^ k -> q.1 < 2 ^ k /\ q.2 < 2 ^ k ->
  adjacent (turn k rx ry p) (turn k rx ry q) -> adjacent p q.
Proof.
  unfold turn, adjacent. generalize (2 ^ k). intros P. destruct p, q, rx, ry; cbn [fst snd]; lia.
Qed.

Lemma curve_adjacent z k p q :
  N.of_nat k <= z -> in_zoom z p -> in_zoom z q -> curve z k q = curve z k p + 1 ->
  adjacent (low k p) (low k q).
Proof.
  revert p q. induction k as [|k IH]; intros p q Hk Hp Hq Hc; [cbn [curve] in Hc; lia|].
  cbn [curve] in Hc. cbv zeta in Hc. rewrite !low_succ.
  set (rx := N.testbit p.1 _) in *. set (ry := N.testbit p.2 _) in *.
  set (rx' := N.testbit q.1 _) in *. set (ry' := N.testbit q.2 _) in *.
  pose proof (pow_pos 4 k ltac:(done)) as HP. pose proof (pow_pos 2 k ltac:(done)) as HP2.
  pose proof (curve_lt z k (turn z rx ry p)) as Hlt. pose proof (curve_lt z k (turn z rx' ry' q)) as Hlt'.
  pose proof (low_lt k p) as Hlp. pose proof (low_lt k q) as Hlq.
  assert (Hk' : N.of_nat k <= z) by lia.
  destruct (decide (curve z k (turn z rx ry p) + 1 = 4 ^ N.of_nat k)) as [Hend|Hin].
  - (* the next quadrant starts *)
    destruct (digits_unique (4 ^ N.of_nat k) (quadrant rx' ry') (curve z k (turn z rx' ry' q))
      (quadrant rx ry + 1) 0) as [Hquad Hstart]; [done | done | lia |].
    apply curve_start in Hstart; [|done|by apply turn_in_zoom].
    assert (Hlast : low k (turn z rx ry p) = (2 ^ N.of_nat k - 1, 0)).
    { apply (curve_end z); [done|by apply turn_in_zoom|lia]. }
    rewrite low_turn in Hstart, Hlast by done. unfold turn in Hstart, Hlast. clear Hend Hc Hlt Hlt' IH.
    generalize dependent (low k p). generalize dependent (low k q). revert HP2.
    generalize (2 ^ N.of_nat k). clear -Hquad. intros P HP [x' y'] Hq Hs [x y] Hp Hl.
    unfold adjacent. destruct rx, ry, rx', ry'; try (vm_compute in Hquad; discriminate);
      cbn [fst snd N.b2n] in *; injection Hs as H1 H2; injection Hl as H3 H4; clear Hquad; lia.
  - destruct (digits_unique (4 ^ N.of_nat k) (quadrant rx' ry') (curve z k (turn z rx' ry' q))
      (quadrant rx ry) (curve z k (turn z rx ry p) + 1)) as [Hquad Hstep]; [done | lia | lia |].
    apply quadrant_inj in Hquad as [Hrx Hry]. rewrite Hrx, Hry in Hstep |- *.
    apply IH in Hstep; [|done|by apply turn_in_zoom..]. rewrite !low_turn in Hstep by done.
    apply adjacent_turn in Hstep; [|done|done].
    revert Hstep. unfold adjacent. cbn [fst snd]. clear. lia.
Qed.

Lemma low_zoom z p : in_zoom z p -> low (N.to_nat z) p = p.
Proof. intros [H1 H2]. unfold low. rewrite N2Nat.id, !N.mod_small by done. by destruct p. Qed.

(** The identities follow a space-filling curve: within a zoom level, tiles
    with consecutive identities share an edge. *)
Theorem consecutive_ids_adjacent z x y x' y' id :
  zxy_to_tile_id z x y = Ok id -> zxy_to_tile_id z x' y' = Ok (id + 1) ->
  adjacent (x, y) (x', y').
Proof.
  intros (Hz & Hp & ->)%tile_id_ok (_ & Hq & Heq)%tile_id_ok.
  rewrite <-(low_zoom z (x, y)), <-(low_zoom z (x', y')) by done.
  apply (curve_adjacent z); [lia|done|done|lia].
Qed.

Lemma consecutive_ids_adjacent_witness : adjacent (3423, 1763) (3423, 1762).
Proof.
  apply (consecutive_ids_adjacent 12 3423 1763 3423 1762 19078479); vm_compute; reflexivity.
Defined.

(** ** Headers *)

Lemma build_header_length layout c : length (build_header layout c) = 127%nat.
Proof. reflexivity. Qed.

(** The fields sit where the reader looks for them. *)
Lemma build_header_fields layout c :
  let h := build_header layout c in
  take 7 h = magic /\ u8_at h 7 = Byte.to_N (u8 3)
  /\ u64_at h 8 = from_le_bytes (to_le_bytes HEADER_BYTES)
  /\ u64_at h 16 = from_le_bytes (to_le_bytes (root_length layout))
  /\ u64_at h 40 = from_le_bytes (to_le_bytes 0)
  /\ u64_at h 48 = from_le_bytes (to_le_bytes 0)
  /\ u64_at h 56 = from_le_bytes (to_le_bytes (layout_tile_data_offset layout))
  /\ u64_at h 64 = from_le_bytes (to_le_bytes (layout_tile_data_length layout))
  /\ u64_at h 72 = from_le_bytes (to_le_bytes (layout_addressed_tiles layout))
  /\ u8_at h 97 = Byte.to_N (u8 2)
  /\ u8_at h 98 = Byte.to_N (u8 c)
  /\ u8_at h 99 = Byte.to_N (u8 1)
  /\ u8_at h 100 = Byte.to_N (u8 (layout_minimum_zoom layout))
  /\ u8_at h 101 = Byte.to_N (u8 (layout_maximum_zoom layout)).
Proof. repeat split. Qed.

Definition layout_fits (layout : ArchiveLayout) : Prop :=
  root_length layout < 2 ^ 64 /\ layout_tile_data_offset layout < 2 ^ 64
  /\ layout_tile_data_length layout < 2 ^ 64 /\ layout_addressed_tiles layout < 2 ^ 64
  /\ layout_minimum_zoom layout < 256 /\ layout_maximum_zoom layout < 256.

(** The header the reader makes of the writer's *)
Definition header_of (layout : ArchiveLayout) (c : N) : PmTilesHeader :=
  {| version := 3; root_directory_offset := HEADER_BYTES;
     root_directory_length := root_length layout;
     leaf_directory_offset := 0; leaf_directory_length := 0;
     tile_data_offset := layout_tile_data_offset layout;
     tile_data_length := layout_tile_data_length layout;
     addressed_tiles := layout_addressed_tiles layout;
     internal_compression := 2; tile_compression := c; tile_type := 1;
     minimum_zoom := layout_minimum_zoom layout; maximum_zoom := layout_maximum_zoom layout |}.

Lemma invalid_section_false offset length' limit :
  invalid_section offset length' limit = false <->
  offset + length' <= u64_max /\ offset + length' <= limit.
Proof.
  unfold invalid_section, checked_add_u64. destruct (N.leb_spec (offset + length') u64_max).
  - rewrite N.ltb_ge. tauto.
  - split; [done|]. lia.
Qed.

(** What the bounds checks of the reader ask of a layout. *)
Definition layout_readable (layout : ArchiveLayout) (object_bytes : N) : Prop :=
  HEADER_BYTES + root_length layout <= N.min ROOT_DIRECTORY_LIMIT object_bytes
  /\ layout_minimum_zoom layout <= layout_maximum_zoom layout
  /\ layout_tile_data_offset layout + layout_tile_data_length layout <= N.min u64_max object_bytes.

#[export] Instance layout_readable_dec layout n : Decision (layout_readable layout n).
Proof. unfold layout_readable. apply _. Defined.

Lemma parse_build_header layout c object_bytes :
  layout_fits layout -> c < 256 ->
  parse_header (build_header layout c) object_bytes
  = if bool_decide (layout_readable layout object_bytes)
    then Ok (header_of layout c) else Err (Invalid SectionBounds).
Proof.
  intros (H1 & H2 & H3 & H4 & H5 & H6) Hc. unfold parse_header.
  destruct (build_header_fields layout c) as (Hm & F7 & F8 & F16 & F40 & F48 & F56 & F64 & F72
    & F97 & F98 & F99 & F100 & F101).
  rewrite build_header_length, Hm, F7, F8, F16, F40, F48, F56, F64, F72, F97, F98, F99, F100, F101.
  rewrite !from_to_le_bytes by done. rewrite !to_N_u8, !N.mod_small by done.
  rewrite bool_decide_true by done.
  change (negb (N.of_nat 127 =? HEADER_BYTES) || negb true || negb (3 =? 3)) with false.
  cbn [err_if mbind result_bind]. fold (header_of layout c).
  cbn [root_directory_offset root_directory_length leaf_directory_offset leaf_directory_length
    tile_data_offset tile_data_length minimum_zoom maximum_zoom header_of].
  match goal with |- context [err_if ?b _] => set (bad := b) end.
  assert (Hbad : bad = false <-> layout_readable layout object_bytes).
  { subst bad. unfold layout_readable. rewrite !orb_false_iff, !invalid_section_false, !N.ltb_ge.
    unfold HEADER_BYTES, ROOT_DIRECTORY_LIMIT, u64_max. lia. }
  destruct (decide (layout_readable layout object_bytes)) as [Hr|Hr].
  - rewrite bool_decide_true, (proj2 Hbad Hr) by done. done.
  - rewrite bool_decide_false by done. destruct bad; [done|]. by destruct Hr; apply Hbad.
Qed.

(** ** Directories *)

(** [b] stands in the input at the cursor. *)
Definition segment (decoded : bytes) (cursor : nat) (b : bytes) : Prop :=
  exists pre post, decoded = pre ++ b ++ post /\ length pre = cursor.

Lemma segment_app decoded cursor a b :
  segment decoded cursor (a ++ b) ->
  segment decoded cursor a /\ segment decoded (cursor + length a) b.
Proof.
  intros (pre & post & -> & <-). split.
  - exists pre, (b ++ post). by rewrite <-app_assoc.
  - exists (pre ++ a), post. by rewrite length_app, <-!app_assoc.
Qed.

Lemma varint_segment decoded cursor v :
  v < 2 ^ 64 -> segment decoded cursor (varint_bytes 10 v) ->
  varint decoded cursor = Ok (v, (cursor + length (varint_bytes 10 v))%nat).
Proof.
  intros Hv (pre & post & -> & <-). unfold varint. by rewrite read_varint_bytes.
Qed.

(** Entries the reader can hold: identities that do not decrease, lengths that
    are not zero, ends that fit the word. *)
Fixpoint ids_from (last_id : N) (entries : list DirectoryEntry) : Prop :=
  match entries with
  | [] => True
  | e :: entries => last_id <= entry_tile_id e < 2 ^ 64 /\ ids_from (entry_tile_id e) entries
  end.
Definition entry_fits (e : DirectoryEntry) : Prop :=
  run_length e < 2 ^ 64 /\ 0 < entry_length e /\ entry_offset e + entry_length e < 2 ^ 64.
Definition directory_wf (entries : list DirectoryEntry) : Prop :=
  (0 < length entries)%nat /\ N.of_nat (length entries) <= 1000000
  /\ ids_from 0 entries /\ Forall entry_fits entries.

Definition with_id (t e : DirectoryEntry) := mkEntry (entry_tile_id e) (entry_offset t) (entry_length t) (run_length t).
Definition with_run (t e : DirectoryEntry) := mkEntry (entry_tile_id t) (entry_offset t) (entry_length t) (run_length e).
Definition with_length (t e : DirectoryEntry) := mkEntry (entry_tile_id t) (entry_offset t) (entry_length e) (run_length t).

Definition runs_bytes (entries : list DirectoryEntry) : bytes :=
  concat (map (fun e => varint_bytes 10 (run_length e)) entries).
Definition lengths_bytes (entries : list DirectoryEntry) : bytes :=
  concat (map (fun e => varint_bytes 10 (entry_length e)) entries).

Lemma foldl_push_varint (f : DirectoryEntry -> N) entries buffer :
  foldl (fun b e => push_varint b (f e)) buffer entries
  = buffer ++ concat (map (fun e => varint_bytes 10 (f e)) entries).
Proof.
  revert buffer. induction entries as [|e entries IH]; intros buffer; cbn [foldl map concat].
  - by rewrite app_nil_r.
  - rewrite IH. unfold push_varint. by rewrite <-app_assoc.
Qed.

Lemma encode_directory_segments entries :
  encode_directory entries
  = varint_bytes 10 (N.of_nat (length entries)) ++ encode_ids 0 entries ++ runs_bytes entries
    ++ lengths_bytes entries ++ encode_offsets None entries.
Proof.
  unfold encode_directory. rewrite !foldl_push_varint. unfold push_varint at 1. cbn [app].
  by rewrite <-!app_assoc.
Qed.

Lemma decode_ids_segment decoded last_id ts entries cursor :
  ids_from last_id entries -> length ts = length entries ->
  segment decoded cursor (encode_ids last_id entries) ->
  decode_ids decoded last_id ts cursor
  = Ok (zip_with with_id ts entries, (cursor + length (encode_ids last_id entries))%nat).
Proof.
  revert last_id ts cursor. induction entries as [|e entries IH]; intros last_id [|t ts] cursor Hids Hl Hs;
    try done; cbn [decode_ids encode_ids zip_with].
  { by rewrite Nat.add_0_r. }
  cbn [encode_ids] in Hs. apply segment_app in Hs as [Hs1 Hs2]. destruct Hids as [Hid Hids].
  rewrite sub_wrap_small in * by lia.
  rewrite (varint_segment _ _ (entry_tile_id e - last_id) ltac:(lia) Hs1). cbn [mbind result_bind].
  assert (Hadd : checked_add_u64 last_id (entry_tile_id e - last_id) = Some (entry_tile_id e)).
  { apply checked_add_u64_some. unfold u64_max. lia. }
  rewrite Hadd. cbn [ok_or mbind result_bind].
  rewrite (IH _ ts _ Hids) by (done || by injection Hl). cbn [mbind result_bind].
  rewrite length_app, Nat.add_assoc. done.
Qed.

Lemma decode_runs_segment decoded ts entries cursor :
  Forall entry_fits entries -> length ts = length entries ->
  segment decoded cursor (runs_bytes entries) ->
  decode_runs decoded ts cursor
  = Ok (zip_with with_run ts entries, (cursor + length (runs_bytes entries))%nat).
Proof.
  revert ts cursor. induction entries as [|e entries IH]; intros [|t ts] cursor Hf Hl Hs;
    try done; cbn [decode_runs runs_bytes zip_with].
  { by rewrite Nat.add_0_r. }
  apply segment_app in Hs as [Hs1 Hs2]. apply Forall_cons in Hf as [[He _] Hf].
  rewrite (varint_segment _ _ _ He Hs1). cbn [mbind result_bind].
  rewrite (IH ts _ Hf) by (done || by injection Hl). cbn [mbind result_bind map concat].
  unfold runs_bytes. cbn [map concat]. by rewrite length_app, Nat.add_assoc.
Qed.

Lemma decode_lengths_segment decoded ts entries cursor :
  Forall entry_fits entries -> length ts = length entries ->
  segment decoded cursor (lengths_bytes entries) ->
  decode_lengths decoded ts cursor
  = Ok (zip_with with_length ts entries, (cursor + length (lengths_bytes entries))%nat).
Proof.
  revert ts cursor. induction entries as [|e entries IH]; intros [|t ts] cursor Hf Hl Hs;
    try done; cbn [decode_lengths lengths_bytes zip_with].
  { by rewrite Nat.add_0_r. }
  apply segment_app in Hs as [Hs1 Hs2]. apply Forall_cons in Hf as [(_ & Hpos & Hend) Hf].
  rewrite (varint_segment _ _ (entry_length e) ltac:(lia) Hs1). cbn [mbind result_bind].
  destruct (N.eqb_spec (entry_length e) 0); [lia|]. cbn [err_if mbind result_bind].
  rewrite (IH ts _ Hf) by (done || by injection Hl). cbn [mbind result_bind].
  unfold lengths_bytes. cbn [map concat]. by rewrite length_app, Nat.add_assoc.
Qed.

(** The offsets pass restores the entries: an offset is coded as zero exactly
    when it is where the entry before ends. *)
Definition without_offset (e : DirectoryEntry) := mkEntry (entry_tile_id e) 0 (entry_length e) (run_length e).

Lemma decode_offsets_segment decoded previous entries cursor :
  (forall p, previous = Some p -> entry_fits p) -> Forall entry_fits entries ->
  segment decoded cursor (encode_offsets previous entries) ->
  decode_offsets decoded previous (map without_offset entries) cursor
  = Ok (entries, (cursor + length (encode_offsets previous entries))%nat).
Proof.
  revert previous cursor. induction entries as [|e entries IH]; intros previous cursor Hp Hf Hs;
    cbn [decode_offsets encode_offsets map].
  { by rewrite Nat.add_0_r. }
  cbn [encode_offsets] in Hs. apply segment_app in Hs as [Hs1 Hs2].
  apply Forall_cons in Hf as [He Hf]. pose proof He as (_ & Hpos & Hend).
  set (code := match previous with None => _ | Some p => _ end) in *.
  assert (Hw : wrap 64 (entry_offset e + 1) = entry_offset e + 1) by (apply N.mod_small; lia).
  assert (Hcode : code < 2 ^ 64).
  { subst code. destruct previous; [case_match; [done|]|]; rewrite Hw; lia. }
  rewrite (varint_segment _ _ _ Hcode Hs1). cbn [mbind result_bind].
  assert (Hoff : (match previous with
     | Some p => if code =? 0
         then ok_or (checked_add_u64 (entry_offset p) (entry_length p)) (Invalid OffsetOverflow)
         else Ok (code - 1)
     | None => if 0 <? code then Ok (code - 1) else Err (Invalid FirstOffsetSentinel)
     end) = Ok (entry_offset e)).
  { subst code. rewrite Hw. destruct previous as [p|].
    - destruct (Hp p eq_refl) as (_ & _ & Hpe).
      destruct (N.eqb_spec (wrap 64 (entry_offset p + entry_length p)) (entry_offset e)) as [Hc|Hc].
      + unfold wrap in Hc. rewrite N.mod_small in Hc by done. cbn [N.eqb].
        apply ok_or_ok, checked_add_u64_some. unfold u64_max. lia.
      + destruct (N.eqb_spec (entry_offset e + 1) 0); [lia|]. by rewrite N.add_sub.
    - destruct (N.ltb_spec 0 (entry_offset e + 1)); [|lia]. by rewrite N.add_sub. }
  rewrite Hoff. cbn [mbind result_bind without_offset entry_tile_id entry_length run_length].
  assert (Heta : mkEntry (entry_tile_id e) (entry_offset e) (entry_length e) (run_length e) = e) by (by destruct e).
  rewrite Heta, IH; [| by intros p [= <-] | done | done]. cbn [mbind result_bind].
  by rewrite length_app, Nat.add_assoc.
Qed.

Lemma filled_entries entries :
  zip_with with_length
    (zip_with with_run
       (zip_with with_id (replicate (length entries) (mkEntry 0 0 0 0)) entries) entries) entries
  = map without_offset entries.
Proof. induction entries as [|e entries IH]; cbn; [done|]. f_equal. apply IH. Qed.

Lemma decode_encode_entries entries :
  directory_wf entries -> decode_entries (encode_directory entries) = Ok entries.
Proof.
  intros (Hpos & Hmax & Hids & Hfit). unfold decode_entries.
  set (n := N.of_nat (length entries)) in *.
  assert (Hs : segment (encode_directory entries) 0 (encode_directory entries)).
  { exists [], []. by rewrite app_nil_r. }
  rewrite encode_directory_segments in Hs at 2. fold n in Hs.
  apply segment_app in Hs as [Hs0 Hs]. apply segment_app in Hs as [Hs1 Hs].
  apply segment_app in Hs as [Hs2 Hs]. apply segment_app in Hs as [Hs3 Hs4].
  rewrite (varint_segment _ _ n ltac:(lia) Hs0). cbn [mbind result_bind].
  destruct (N.eqb_spec n 0); [lia|]. destruct (N.ltb_spec 1000000 n); [lia|].
  cbn [orb err_if mbind result_bind]. subst n. rewrite Nat2N.id.
  rewrite (decode_ids_segment _ _ _ _ _ Hids) by (done || apply length_replicate).
  cbn [mbind result_bind].
  rewrite (decode_runs_segment _ _ _ _ Hfit)
    by (done || by rewrite length_zip_with, length_replicate, Nat.min_id).
  cbn [mbind result_bind].
  rewrite (decode_lengths_segment _ _ _ _ Hfit)
    by (done || by rewrite !length_zip_with, length_replicate, !Nat.min_id).
  cbn [mbind result_bind]. rewrite filled_entries, decode_offsets_segment by done.
  cbn [mbind result_bind]. rewrite encode_directory_segments at 1. rewrite !length_app.
  match goal with |- context [Nat.eqb ?a ?b] => replace a with b by lia end.
  by rewrite Nat.eqb_refl.
Qed.

(** A directory with 1 to 1,000,000 entries, identities that do not decrease
    and entries that are not empty and end within the word is decoded from its
    encoding exactly: run-length, lengths, and offsets, whether coded as the zero
    sentinel or in full; nothing of the encoding is left over. *)
Theorem directory_roundtrip entries :
  directory_wf entries -> decode_entries (encode_directory entries) = Ok entries.
Proof. apply decode_encode_entries. Qed.

Definition sample_directory : list DirectoryEntry :=
  [mkEntry 0 0 300 1; mkEntry 5 300 7 3; mkEntry 5 40 1 0; mkEntry 19078479 (2 ^ 40) 9 1].

Lemma directory_roundtrip_witness :
  decode_entries (encode_directory sample_directory) = Ok sample_directory.
Proof.
  apply (directory_roundtrip sample_directory).
  split_and!; [simpl; lia | done | repeat split; done | repeat (constructor; [done|]); constructor].
Defined.

(** ** Archives *)

Lemma find_entry_sound entries id e :
  find_entry entries id = Some e -> e ∈ entries /\ entry_tile_id e <= id.
Proof.
  unfold find_entry. intros H%last_Some_elem_of.
  induction entries as [|a l IH]; cbn [take_while] in H; [by apply not_elem_of_nil in H|].
  destruct (N.leb_spec (entry_tile_id a) id); [|by apply not_elem_of_nil in H].
  apply elem_of_cons in H as [->|H].
  - split; [apply list_elem_of_here | done].
  - destruct (IH H). split; [by apply list_elem_of_further | done].
Qed.

(** The greatest identity not above the one looked for, when they increase. *)
Lemma find_entry_strict l e :
  StronglySorted N.lt (map entry_tile_id l) -> e ∈ l -> find_entry l (entry_tile_id e) = Some e.
Proof.
  unfold find_entry. induction l as [|a l IH]; cbn [map take_while]; intros Hs He.
  { by apply not_elem_of_nil in He. }
  apply StronglySorted_inv in Hs as [Hs Ha]. rewrite Forall_forall in Ha.
  assert (Hlt : forall x, x ∈ l -> entry_tile_id a < entry_tile_id x).
  { intros x Hx. apply Ha, list_elem_of_fmap. by exists x. }
  apply elem_of_cons in He as [->|He].
  - rewrite N.leb_refl. destruct l as [|x l]; [done|]. cbn [take_while].
    destruct (N.leb_spec (entry_tile_id x) (entry_tile_id a)); [|done].
    specialize (Hlt x (list_elem_of_here _ _)). lia.
  - specialize (Hlt e He). destruct (N.leb_spec (entry_tile_id a) (entry_tile_id e)); [|lia].
    rewrite last_cons, (IH Hs He). done.
Qed.
