(* ===== verification/PmTilesArchive.v ===== *)
(** * Writing a PMTiles archive and reading it back

    The contract between [write_pmtiles_archive] and [read_pmtiles_tile] of
    PmTiles.v: what an archive on disk returns for every tile coordinate. gzip is
    any codec with the laws of [GzipCodec]. *)

From Stdlib Require Import Strings.Byte Strings.String.
From S2P Require Import Prelude RustStd Bytes Storage PmTiles.
Local Open Scope N_scope.

(** ** Sorting *)

Lemma adjacent_distinct_strict sorted :
  StronglySorted id_le sorted -> adjacent_duplicate sorted = false ->
  StronglySorted N.lt (map fst sorted).
Proof.
  induction 1 as [|a l Hl IH Ha]; intros Hd; [constructor|]. cbn [map].
  destruct l as [|b l]; [repeat constructor|]. cbn [adjacent_duplicate] in Hd.
  apply orb_false_iff in Hd as [Hne%N.eqb_neq Hd]. specialize (IH Hd).
  constructor; [done|]. apply Forall_cons in Ha as [Hab _]. unfold id_le in Hab.
  cbn [map] in *. apply StronglySorted_inv in IH as [_ Hb]. constructor; [lia|].
  eapply Forall_impl; [exact Hb|]. simpl. lia.
Qed.

Definition addressed (e : PmTilesTileEntry) (s : N * bytes) : Prop :=
  zxy_to_tile_id (te_z e) (te_x e) (te_y e) = Ok s.1 /\ s.2 = te_bytes e /\ te_bytes e <> [].

Lemma write_sorted_ok entries sorted :
  write_sorted entries = Ok sorted ->
  StronglySorted id_le sorted /\ exists tiles, sorted ≡ₚ tiles /\ Forall2 addressed entries tiles.
Proof.
  unfold write_sorted. intros (tiles & Ht%try_map_ok & [= <-])%bind_ok.
  split; [apply (StronglySorted_merge_sort id_le)|]. exists tiles.
  split; [apply merge_sort_Permutation|]. eapply Forall2_impl; [exact Ht|].
  intros e s H. apply seq_ok in H as [He%err_if_ok H]. apply bool_decide_eq_false in He.
  apply bind_ok in H as (id & Hid & [= <-]). done.
Qed.

(** ** gzip

    What the archive relies on: an encoding is not empty, and reading its decoder
    under a limit gives the first bytes of what was encoded. *)
Class GzipCodec (encode : bytes -> result string bytes)
    (decode : bytes -> N -> result string bytes) : Prop := {
  gzip_nonempty b c : encode b = Ok c -> c <> [];
  gzip_prefix b c limit : encode b = Ok c -> decode c limit = Ok (take (N.to_nat limit) b) }.

#[export] Instance sample_gzip_codec : GzipCodec sample_gzip sample_gunzip.
Proof. split; unfold sample_gzip; intros b c; [by intros [= <-] | by intros limit [= <-]]. Qed.

(** ** Exact local ranges *)

Lemma slice_middle {A} (a b c : list A) : take (length b) (drop (length a) (a ++ b ++ c)) = b.
Proof. by rewrite drop_app_length, take_app_length. Qed.

Lemma read_exact_range_local w policy path start b reqs pre post :
  is_remote_uri path = false -> disk w !! path = Some (pre ++ b ++ post) ->
  start = N.of_nat (length pre) -> 0 < N.of_nat (length b) <= MAX_DIRECTORY_BYTES ->
  N.of_nat (length (pre ++ b ++ post)) < 2 ^ 63 ->
  read_exact_range w policy path start (N.of_nat (length b)) reqs
  = (Ok b, reqs ++ [mkRequest start (start + N.of_nat (length b) - 1) (N.of_nat (length b)) None]).
Proof.
  intros Hrem Hdisk -> [Hpos Hmax] Hsize. set (n := N.of_nat (length b)) in *.
  set (start := N.of_nat (length pre)).
  assert (Hfile : N.of_nat (length (pre ++ b ++ post)) = start + n + N.of_nat (length post)).
  { rewrite !length_app. subst start n. lia. }
  change (2 ^ 63) with 9223372036854775808 in Hsize.
  unfold read_exact_range, mbind, st_bind, lift, err_if.
  destruct (N.eqb_spec n 0); [lia|]. destruct (N.ltb_spec MAX_DIRECTORY_BYTES n); [lia|]. cbn [orb].
  assert (Hadd : checked_add_u64 start (n - 1) = Some (start + n - 1)).
  { apply checked_add_u64_some. unfold u64_max. lia. }
  rewrite Hadd. cbn [ok_or].
  assert (Hnew : range_new start (start + n - 1) = Ok (mkRange start (start + n - 1))).
  { apply range_new_ok. split; [done|lia]. }
  rewrite Hnew. cbn [map_err]. rewrite Hrem.
  assert (Hlen : range_len (mkRange start (start + n - 1)) = n).
  { rewrite range_len_valid; unfold valid_range, u64_max; cbn [range_start range_end]; lia. }
  assert (Hread : read_local_range w path (mkRange start (start + n - 1)) = Ok b).
  { apply read_local_range_ok. exists (pre ++ b ++ post). rewrite Hlen. cbn [range_start].
    change (2 ^ 63) with 9223372036854775808. split_and!; [done|lia|lia|].
    subst n start. by rewrite !Nat2N.id, slice_middle. }
  rewrite Hread. cbn [map_err]. unfold mret, st_ret. fold n. rewrite N.eqb_refl. done.
Qed.

Section Roundtrip.
Context (encode : bytes -> result string bytes) (decode : bytes -> N -> result string bytes)
        `{!GzipCodec encode decode}.

Lemma encode_payload_nonempty b c enc :
  encode_payload encode b c = Ok enc -> b <> [] -> enc <> [].
Proof.
  unfold encode_payload, gzip. destruct (c =? 1); [by intros [= <-]|].
  destruct (c =? 2); [|done]. intros H%map_err_ok _. by eapply gzip_nonempty.
Qed.

Lemma decode_encode_payload b c enc section :
  encode_payload encode b c = Ok enc -> N.of_nat (length b) <= MAX_DIRECTORY_BYTES ->
  decode_payload decode enc c section = Ok b.
Proof.
  unfold encode_payload, decode_payload, gzip. destruct (c =? 1); [by intros [= <-]|].
  destruct (c =? 2); [|done]. intros H%map_err_ok Hlen.
  rewrite (gzip_prefix _ _ _ H). cbn [map_err mbind result_bind].
  rewrite take_ge by lia. destruct (N.ltb_spec MAX_DIRECTORY_BYTES (N.of_nat (length b))); [lia|done].
Qed.

(** ** The data section: every tile has its own slice. *)

Definition placed (c offset : N) (data : bytes) (s : N * bytes) (e : DirectoryEntry) : Prop :=
  exists pre enc post, data = pre ++ enc ++ post /\ encode_payload encode s.2 c = Ok enc
    /\ e = mkEntry s.1 (offset + N.of_nat (length pre)) (N.of_nat (length enc)) 1.

Lemma placed_shift c offset a data s e :
  placed c (offset + N.of_nat (length a)) data s e -> placed c offset (a ++ data) s e.
Proof.
  intros (pre & enc & post & -> & Henc & ->). exists (a ++ pre), enc, post.
  split_and!; [by rewrite <-app_assoc | done|]. f_equal. rewrite length_app. lia.
Qed.

Lemma place_tiles_ok c offset sorted payloads directory :
  place_tiles encode c offset sorted = Ok (payloads, directory) ->
  offset + N.of_nat (length (concat payloads)) < 2 ^ 64 ->
  Forall2 (placed c offset (concat payloads)) sorted directory.
Proof.
  revert offset payloads directory. induction sorted as [|[id b] sorted IH];
    intros offset payloads directory H Hlt; cbn [place_tiles] in H.
  { injection H as <- <-. constructor. }
  apply bind_ok in H as (enc & Henc & H). cbv zeta in H.
  apply bind_ok in H as ([payloads' directory'] & H & [= <- <-]).
  cbn [concat] in *. rewrite length_app in Hlt.
  unfold wrap in H. rewrite N.mod_small in H by lia. constructor.
  - exists [], enc, (concat payloads'). split_and!; [done..|]. cbn. by rewrite N.add_0_r.
  - eapply Forall2_impl; [eapply IH; [exact H|lia]|]. intros s e. apply placed_shift.
Qed.

Lemma placed_ids c offset data sorted directory :
  Forall2 (placed c offset data) sorted directory -> map entry_tile_id directory = map fst sorted.
Proof. induction 1 as [|s e sorted directory (? & ? & ? & _ & _ & ->) _ IH]; [done|]. cbn. by rewrite IH. Qed.

Lemma placed_fits c data sorted directory :
  Forall2 (placed c 0 data) sorted directory -> Forall (fun s => s.2 <> []) sorted ->
  N.of_nat (length data) < 2 ^ 64 -> Forall entry_fits directory.
Proof.
  intros Hp Hne Hlen. induction Hp as [|s e sorted directory (pre & enc & post & -> & Henc & ->) _ IH];
    [constructor|]. apply Forall_cons in Hne as [Hs Hne]. constructor; [|by apply IH].
  apply encode_payload_nonempty in Henc; [|done]. rewrite !length_app in Hlen.
  unfold entry_fits. cbn [run_length entry_length entry_offset].
  destruct enc; [done|]. cbn [length] in *. split_and!; [done|lia|lia].
Qed.

Lemma strict_ids_from last_id l :
  StronglySorted N.lt (map entry_tile_id l) ->
  Forall (fun e => last_id <= entry_tile_id e < 2 ^ 64) l -> ids_from last_id l.
Proof.
  revert last_id. induction l as [|e l IH]; intros last_id Hs Hf; [done|]. cbn [ids_from].
  apply Forall_cons in Hf as [He Hf]. split; [done|].
  cbn [map] in Hs. apply StronglySorted_inv in Hs as [Hs He']. apply IH; [done|].
  rewrite Forall_forall in He'. apply Forall_forall. intros x Hx.
  assert (entry_tile_id e < entry_tile_id x).
  { apply He', list_elem_of_fmap. by exists x. }
  rewrite Forall_forall in Hf. specialize (Hf x Hx). lia.
Qed.

Lemma tile_id_u64 z x y id : zxy_to_tile_id z x y = Ok id -> z <= 31 /\ id < 2 ^ 64.
Proof.
  intros (Hz & _ & ->)%tile_id_ok. split; [done|].
  pose proof (curve_lt z (N.to_nat z) (x, y)) as Hc. rewrite N2Nat.id in Hc.
  pose proof (zoom_base_spec z) as Hb.
  assert (H31 : 4 ^ z <= 4611686018427387904) by (by apply (N.pow_le_mono_r 4 z 31)).
  change (2 ^ 64) with 18446744073709551616. generalize dependent (4 ^ z).
  generalize (zoom_base z), (curve z (N.to_nat z) (x, y)). clear. lia.
Qed.

(** ** The archive *)

Definition compression_of (options : PmTilesWriteOptions) : N :=
  if compress_tiles options then 2 else 1.

(** Everything the writer puts into an archive. *)
Record written (entries : list PmTilesTileEntry) (options : PmTilesWriteOptions) (archive : bytes)
    (sorted : list (N * bytes)) (payloads : list bytes) (directory : list DirectoryEntry)
    (root meta : bytes) (layout : ArchiveLayout) : Prop := mkWritten {
  wn_sorted : write_sorted entries = Ok sorted;
  wn_distinct : adjacent_duplicate sorted = false;
  wn_placed : place_tiles encode (compression_of options) 0 sorted = Ok (payloads, directory);
  wn_root : encode (encode_directory directory) = Ok root;
  wn_layout : layout =
    {| root_length := N.of_nat (length root);
       metadata_length := N.of_nat (length meta);
       layout_tile_data_offset :=
         wrap 64 (wrap 64 (HEADER_BYTES + N.of_nat (length root)) + N.of_nat (length meta));
       layout_tile_data_length := N.of_nat (length (concat payloads));
       layout_addressed_tiles := N.of_nat (length directory);
       layout_minimum_zoom := foldl N.min (te_z (List.hd (mkTile 0 0 0 []) entries)) (map te_z (tail entries));
       layout_maximum_zoom := foldl N.max (te_z (List.hd (mkTile 0 0 0 []) entries)) (map te_z (tail entries)) |};
  wn_archive : archive = build_header layout (compression_of options) ++ root ++ meta ++ concat payloads }.

Lemma archive_of_written entries options archive receipt :
  archive_of encode entries options = Ok (archive, receipt) ->
  entries <> [] /\ wr_object_bytes receipt = N.of_nat (length archive)
  /\ exists sorted payloads directory root meta layout,
       written entries options archive sorted payloads directory root meta layout.
Proof.
  unfold archive_of. destruct entries as [|e entries]; [done|]. intros H.
  apply bind_ok in H as (sorted & Hs & H). apply seq_ok in H as [Hd%err_if_ok H]. cbv zeta in H.
  apply bind_ok in H as ([payloads directory] & Hp & H).
  apply bind_ok in H as (root & Hr%map_err_ok & H).
  apply bind_ok in H as (meta & Hm & H). injection H as <- <-.
  split; [done|]. split; [done|]. exists sorted, payloads, directory, root, meta. eexists.
  by split.
Qed.

Lemma foldl_min_le l a x : x = a \/ x ∈ l -> foldl N.min a l <= x.
Proof.
  revert a x. induction l as [|b l IH]; intros a x Hx; cbn [foldl].
  - destruct Hx as [->|Hx]; [lia | by apply not_elem_of_nil in Hx].
  - destruct Hx as [->|[->|Hx]%elem_of_cons].
    + transitivity (N.min a b); [apply IH; by left | lia].
    + transitivity (N.min a b); [apply IH; by left | lia].
    + apply IH. by right.
Qed.

Lemma foldl_max_ge l a x : x = a \/ x ∈ l -> x <= foldl N.max a l.
Proof.
  revert a x. induction l as [|b l IH]; intros a x Hx; cbn [foldl].
  - destruct Hx as [->|Hx]; [lia | by apply not_elem_of_nil in Hx].
  - destruct Hx as [->|[->|Hx]%elem_of_cons].
    + transitivity (N.max a b); [lia | apply IH; by left].
    + transitivity (N.max a b); [lia | apply IH; by left].
    + apply IH. by right.
Qed.

Lemma foldl_max_lt l a n : a < n -> Forall (fun x => x < n) l -> foldl N.max a l < n.
Proof.
  intros Ha Hl. revert a Ha. induction Hl as [|b l Hb _ IH]; intros a Ha; cbn [foldl]; [done|].
  apply IH. lia.
Qed.

Lemma hd_elem_of {A} (d : A) l : l <> [] -> List.hd d l ∈ l.
Proof. destruct l; [done|]. intros _. apply list_elem_of_here. Qed.

Lemma tail_elem_of {A} (x : A) l : x ∈ tail l -> x ∈ l.
Proof. destruct l; [done|]. apply list_elem_of_further. Qed.

Lemma elem_of_hd_tail {A} (d x : A) l : x ∈ l -> x = List.hd d l \/ x ∈ tail l.
Proof. destruct l; [intros H; by apply not_elem_of_nil in H|]. by intros [->|?]%elem_of_cons; [left|right]. Qed.

Section Written.
Context entries options archive sorted payloads directory root meta layout
  (Hw : written entries options archive sorted payloads directory root meta layout)
  (Hne : entries <> []) (Hsize : N.of_nat (length archive) < 2 ^ 63)
  (Hcount : N.of_nat (length entries) <= 400000).

Local Abbreviation c := (compression_of options).
Local Abbreviation data := (concat payloads).

Lemma archive_length :
  N.of_nat (length archive)
  = HEADER_BYTES + N.of_nat (length root) + N.of_nat (length meta) + N.of_nat (length data).
Proof using Hw.
  clear Hsize Hcount.
  rewrite (wn_archive _ _ _ _ _ _ _ _ _ Hw), !length_app, build_header_length. unfold HEADER_BYTES. lia.
Qed.

Lemma layout_offset :
  layout_tile_data_offset layout = HEADER_BYTES + N.of_nat (length root) + N.of_nat (length meta).
Proof.
  pose proof archive_length as Hl. rewrite (wn_layout _ _ _ _ _ _ _ _ _ Hw).
  cbn [layout_tile_data_offset]. change (2 ^ 63) with 9223372036854775808 in Hsize.
  unfold wrap. change (2 ^ 64) with 18446744073709551616. rewrite !N.mod_small by lia. lia.
Qed.

Lemma directory_placed : Forall2 (placed c 0 data) sorted directory.
Proof.
  apply place_tiles_ok; [apply (wn_placed _ _ _ _ _ _ _ _ _ Hw)|].
  pose proof archive_length. change (2 ^ 63) with 9223372036854775808 in Hsize.
  change (2 ^ 64) with 18446744073709551616. lia.
Qed.

(** The sorted tiles are the entries, each under its identity. *)
Lemma elem_of_sorted s : s ∈ sorted <-> exists e, e ∈ entries /\ addressed e s.
Proof.
  destruct (write_sorted_ok _ _ (wn_sorted _ _ _ _ _ _ _ _ _ Hw)) as (_ & tiles & -> & Ht). split.
  - intros Hs. destruct (related_r _ _ _ _ Ht Hs) as (e & ? & ?). eauto.
  - intros (e & He & Ha). destruct (related_l _ _ _ _ Ht He) as (s' & Hs' & Ha').
    destruct s as [i b], s' as [i' b'], Ha as (H1 & H2 & _), Ha' as (H1' & H2' & _).
    cbn [fst snd] in *. congruence.
Qed.

Lemma sorted_length : length sorted = length entries.
Proof.
  destruct (write_sorted_ok _ _ (wn_sorted _ _ _ _ _ _ _ _ _ Hw)) as (_ & tiles & -> & Ht).
  symmetry. by eapply Forall2_length.
Qed.

Lemma directory_strict : StronglySorted N.lt (map entry_tile_id directory).
Proof.
  rewrite (placed_ids _ _ _ _ _ directory_placed).
  destruct (write_sorted_ok _ _ (wn_sorted _ _ _ _ _ _ _ _ _ Hw)) as (Hs & _).
  apply adjacent_distinct_strict; [done | apply (wn_distinct _ _ _ _ _ _ _ _ _ Hw)].
Qed.

Lemma elem_of_directory e :
  e ∈ directory -> exists t s, t ∈ entries /\ addressed t s /\ placed c 0 data s e.
Proof.
  intros He. destruct (related_r _ _ _ _ directory_placed He) as (s & Hs & Hp).
  apply elem_of_sorted in Hs as (t & Ht & Ha). eauto.
Qed.

Lemma entries_zoom t : t ∈ entries -> te_z t <= 31.
Proof.
  intros Ht. destruct (write_sorted_ok _ _ (wn_sorted _ _ _ _ _ _ _ _ _ Hw)) as (_ & tiles & _ & Hf).
  destruct (related_l _ _ _ _ Hf Ht) as (s & _ & Hid & _). by destruct (tile_id_u64 _ _ _ _ Hid).
Qed.

Lemma directory_length : length directory = length entries.
Proof. rewrite <-sorted_length. symmetry. eapply Forall2_length, directory_placed. Qed.

Lemma written_directory_wf : directory_wf directory.
Proof.
  pose proof archive_length as Hl. change (2 ^ 63) with 9223372036854775808 in Hsize.
  unfold directory_wf. rewrite directory_length. split_and!.
  - destruct entries; [done|]. cbn [length]. lia.
  - lia.
  - apply strict_ids_from; [apply directory_strict|]. apply Forall_forall.
    intros e (t & s & _ & (Hid & _) & (pre & enc & post & _ & _ & ->))%elem_of_directory.
    cbn [entry_tile_id]. destruct (tile_id_u64 _ _ _ _ Hid). lia.
  - eapply placed_fits; [apply directory_placed| |].
    + apply Forall_forall. intros s (t & _ & (_ & Hb & Hne'))%elem_of_sorted. by rewrite Hb.
    + change (2 ^ 64) with 18446744073709551616. lia.
Qed.

Lemma varints_length (f : DirectoryEntry -> N) l :
  (length (concat (map (fun e => varint_bytes 10 (f e)) l)) <= 10 * length l)%nat.
Proof.
  induction l as [|e l IH]; cbn [map concat length]; [lia|]. rewrite length_app.
  pose proof (varint_bytes_length 10 (f e)). lia.
Qed.

Lemma encode_ids_length last_id l : (length (encode_ids last_id l) <= 10 * length l)%nat.
Proof.
  revert last_id. induction l as [|e l IH]; intros last_id; cbn [encode_ids length]; [lia|].
  rewrite length_app. pose proof (varint_bytes_length 10 (sub_wrap 64 (entry_tile_id e) last_id)).
  specialize (IH (entry_tile_id e)). lia.
Qed.

Lemma encode_offsets_length previous l : (length (encode_offsets previous l) <= 10 * length l)%nat.
Proof.
  revert previous. induction l as [|e l IH]; intros previous; cbn [encode_offsets length]; [lia|].
  rewrite length_app. specialize (IH (Some e)).
  match goal with |- context [varint_bytes 10 ?v] => pose proof (varint_bytes_length 10 v) end. lia.
Qed.

Lemma encode_directory_length l : (length (encode_directory l) <= 10 + 40 * length l)%nat.
Proof.
  rewrite encode_directory_segments, !length_app. unfold runs_bytes, lengths_bytes.
  pose proof (varint_bytes_length 10 (N.of_nat (length l))). pose proof (encode_ids_length 0 l).
  pose proof (varints_length run_length l). pose proof (varints_length entry_length l).
  pose proof (encode_offsets_length None l). lia.
Qed.

(** The reader decodes the root directory to what the writer encoded. *)
Lemma decode_root : decode_directory decode root 2 = Ok directory.
Proof.
  unfold decode_directory.
  rewrite (decode_encode_payload (encode_directory directory) 2 root).
  - cbn [mbind result_bind]. apply decode_encode_entries, written_directory_wf.
  - unfold encode_payload, gzip. cbn [N.eqb Pos.eqb]. by rewrite (wn_root _ _ _ _ _ _ _ _ _ Hw).
  - pose proof (encode_directory_length directory) as Hl. rewrite directory_length in Hl.
    unfold MAX_DIRECTORY_BYTES. lia.
Qed.

Lemma written_layout_fits : layout_fits layout.
Proof.
  pose proof archive_length as Hl. pose proof layout_offset as Ho.
  change (2 ^ 63) with 9223372036854775808 in Hsize. unfold HEADER_BYTES in *.
  unfold layout_fits. change (2 ^ 64) with 18446744073709551616. rewrite Ho.
  rewrite (wn_layout _ _ _ _ _ _ _ _ _ Hw).
  cbn [root_length layout_tile_data_length layout_addressed_tiles layout_minimum_zoom layout_maximum_zoom].
  rewrite directory_length. pose proof (entries_zoom _ (hd_elem_of (mkTile 0 0 0 []) _ Hne)) as Hz.
  split_and!; try lia.
  - eapply N.le_lt_trans; [apply foldl_min_le; by left|]. lia.
  - apply foldl_max_lt; [lia|].
    apply Forall_forall. intros z (t & -> & Ht%tail_elem_of)%list_elem_of_fmap.
    pose proof (entries_zoom t Ht). lia.
Qed.

Lemma zoom_range t : t ∈ entries -> layout_minimum_zoom layout <= te_z t <= layout_maximum_zoom layout.
Proof.
  intros Ht. rewrite (wn_layout _ _ _ _ _ _ _ _ _ Hw). cbn [layout_minimum_zoom layout_maximum_zoom].
  destruct (elem_of_hd_tail (mkTile 0 0 0 []) _ _ Ht) as [->|Ht'].
  - split; [apply foldl_min_le | apply foldl_max_ge]; by left.
  - assert (te_z t ∈ map te_z (tail entries)) by (apply list_elem_of_fmap; by exists t).
    split; [apply foldl_min_le | apply foldl_max_ge]; by right.
Qed.

(** The bounds the reader checks all hold but the limit on the root directory. *)
Lemma written_readable :
  layout_readable layout (N.of_nat (length archive))
  <-> HEADER_BYTES + N.of_nat (length root) <= ROOT_DIRECTORY_LIMIT.
Proof.
  pose proof archive_length as Hl. pose proof layout_offset as Ho.
  pose proof (zoom_range _ (hd_elem_of (mkTile 0 0 0 []) _ Hne)) as Hz.
  change (2 ^ 63) with 9223372036854775808 in Hsize.
  unfold layout_readable, u64_max. change (2 ^ 64) with 18446744073709551616. rewrite Ho.
  assert (Hr : root_length layout = N.of_nat (length root)) by (by rewrite (wn_layout _ _ _ _ _ _ _ _ _ Hw)).
  assert (Hd : layout_tile_data_length layout = N.of_nat (length data))
    by (by rewrite (wn_layout _ _ _ _ _ _ _ _ _ Hw)).
  rewrite Hr, Hd. unfold ROOT_DIRECTORY_LIMIT, HEADER_BYTES in *. lia.
Qed.

(** ** Reading it back *)

Section Reading.
Context (w : World) (policy : RemoteAccessPolicy) (path : string)
  (Hlocal : is_remote_uri path = false) (Hdisk : disk w !! path = Some archive).

Lemma read_header reqs :
  read_exact_range w policy path 0 HEADER_BYTES reqs
  = (Ok (build_header layout c), reqs ++ [mkRequest 0 126 127 None]).
Proof.
  change HEADER_BYTES with (N.of_nat (length (build_header layout c))).
  rewrite (read_exact_range_local w policy path 0 _ reqs [] (root ++ meta ++ data)); try done.
  - by rewrite <-(wn_archive _ _ _ _ _ _ _ _ _ Hw).
  - cbn [app]. by rewrite <-(wn_archive _ _ _ _ _ _ _ _ _ Hw).
Qed.

Lemma parse_written :
  parse_header (build_header layout c) (N.of_nat (length archive))
  = if bool_decide (HEADER_BYTES + N.of_nat (length root) <= ROOT_DIRECTORY_LIMIT)
    then Ok (header_of layout c) else Err (Invalid SectionBounds).
Proof.
  rewrite parse_build_header; [|apply written_layout_fits|by unfold compression_of; case_match].
  by rewrite (bool_decide_ext _ _ written_readable).
Qed.

Lemma size_written : object_size w policy path = Ok (N.of_nat (length archive)).
Proof. unfold object_size. by rewrite Hlocal, Hdisk. Qed.

(** An archive whose root directory exceeds the reader's limit is refused
    whatever the tile. *)
Lemma oversized_root z x y :
  ROOT_DIRECTORY_LIMIT < HEADER_BYTES + N.of_nat (length root) ->
  read_pmtiles_tile decode w policy path z x y = Err (Invalid SectionBounds).
Proof.
  intros Hroot. unfold read_pmtiles_tile. rewrite size_written. cbn [mbind result_bind].
  unfold read_tile_body. unfold mbind at 1, st_bind at 1. rewrite read_header.
  unfold mbind at 1, st_bind at 1, lift at 1. rewrite parse_written, bool_decide_false by lia. done.
Qed.

Context (Hroot : HEADER_BYTES + N.of_nat (length root) <= ROOT_DIRECTORY_LIMIT).

Lemma read_root reqs :
  read_exact_range w policy path HEADER_BYTES (N.of_nat (length root)) reqs
  = (Ok root, reqs ++ [mkRequest HEADER_BYTES (HEADER_BYTES + N.of_nat (length root) - 1)
                         (N.of_nat (length root)) None]).
Proof.
  apply (read_exact_range_local w policy path _ _ reqs (build_header layout c) (meta ++ data)); try done.
  - by rewrite <-(wn_archive _ _ _ _ _ _ _ _ _ Hw).
  - pose proof (gzip_nonempty _ _ (wn_root _ _ _ _ _ _ _ _ _ Hw)) as Hr.
    unfold ROOT_DIRECTORY_LIMIT, HEADER_BYTES, MAX_DIRECTORY_BYTES in *.
    destruct root; [done|]. cbn [length] in *. lia.
  - by rewrite <-(wn_archive _ _ _ _ _ _ _ _ _ Hw).
Qed.

Lemma layout_root : root_length layout = N.of_nat (length root).
Proof. by rewrite (wn_layout _ _ _ _ _ _ _ _ _ Hw). Qed.

Lemma entry_runs e :
  e ∈ directory -> run_length e = 1 /\ entry_offset e + entry_length e <= N.of_nat (length data).
Proof.
  intros (t & s & _ & _ & pre & enc & post & Hdata & _ & ->)%elem_of_directory.
  cbn [run_length entry_offset entry_length]. rewrite Hdata, !length_app. lia.
Qed.

(** What is left of a read once the header and the root directory are in. *)
Lemma read_body_written z x y :
  read_tile_body decode w policy path z x y (N.of_nat (length archive)) []
  = let reqs := [mkRequest 0 126 127 None;
                 mkRequest HEADER_BYTES (HEADER_BYTES + N.of_nat (length root) - 1)
                   (N.of_nat (length root)) None] in
    if (z <? layout_minimum_zoom layout) || (layout_maximum_zoom layout <? z)
       || (dimension z <=? x) || (dimension z <=? y)
    then (Err (TileNotFound z x y), [mkRequest 0 126 127 None])
    else match zxy_to_tile_id z x y with
      | Err e => (Err e, [mkRequest 0 126 127 None])
      | Ok tile_id =>
          match find_entry directory tile_id with
          | None => (Err (TileNotFound z x y), reqs)
          | Some e =>
              if (tile_id <? entry_tile_id e) || (wrap 64 (entry_tile_id e + 1) <=? tile_id)
              then (Err (TileNotFound z x y), reqs)
              else
                match read_exact_range w policy path
                        (layout_tile_data_offset layout + entry_offset e) (entry_length e) reqs with
                | (Ok b, reqs) => (Ok (header_of layout c, tile_id, b), reqs)
                | (Err e, reqs) => (Err e, reqs)
                end
          end
      end.
Proof.
  unfold read_tile_body, mbind, st_bind, lift. rewrite read_header, parse_written, bool_decide_true by done.
  cbn [header_of minimum_zoom maximum_zoom root_directory_offset root_directory_length
    internal_compression tile_data_offset leaf_directory_offset]. cbv zeta.
  destruct (_ || _); [done|]. cbn [err_if].
  destruct (zxy_to_tile_id z x y) as [id|e]; [|done].
  rewrite layout_root, read_root, decode_root.
  destruct (find_entry directory id) as [e|] eqn:He; [|done]. cbn [ok_or].
  destruct (find_entry_sound _ _ _ He) as [Hin _].
  destruct (entry_runs e Hin) as [Hrun Hend]. rewrite Hrun. cbn [N.eqb Pos.eqb].
  unfold mret, st_ret. rewrite Hrun. destruct (_ || _); [done|]. cbn [err_if].
  assert (Hadd : checked_add_u64 (layout_tile_data_offset layout) (entry_offset e)
    = Some (layout_tile_data_offset layout + entry_offset e)).
  { apply checked_add_u64_some. split; [done|]. pose proof archive_length.
    rewrite layout_offset. change (2 ^ 63) with 9223372036854775808 in Hsize. unfold u64_max. lia. }
  by rewrite Hadd.
Qed.

Lemma addressed_in_zoom t s :
  t ∈ entries -> addressed t s ->
  (te_z t <? layout_minimum_zoom layout) || (layout_maximum_zoom layout <? te_z t)
  || (dimension (te_z t) <=? te_x t) || (dimension (te_z t) <=? te_y t) = false.
Proof.
  intros Ht ((Hz & [Hx Hy] & _)%tile_id_ok & _). cbn [fst snd] in *.
  pose proof (zoom_range t Ht) as Hr. unfold dimension.
  destruct (N.ltb_spec (te_z t) 32) as [_|]; [|lia]. rewrite N.shiftl_1_l.
  rewrite !orb_false_iff, !N.ltb_ge, !N.leb_gt. lia.
Qed.

(** The tile's slice of the archive *)
Lemma read_data s e reqs :
  placed c 0 data s e -> 0 < entry_length e <= MAX_DIRECTORY_BYTES ->
  exists enc, encode_payload encode s.2 c = Ok enc
    /\ read_exact_range w policy path (layout_tile_data_offset layout + entry_offset e)
         (entry_length e) reqs
       = (Ok enc, reqs ++ [mkRequest (layout_tile_data_offset layout + entry_offset e)
            (layout_tile_data_offset layout + entry_offset e + entry_length e - 1)
            (entry_length e) None]).
Proof.
  intros (pre & enc & post & Hdata & Henc & ->) Hlen. exists enc. split; [done|].
  cbn [entry_offset entry_length] in *.
  assert (Harch : archive = (build_header layout c ++ root ++ meta ++ pre) ++ enc ++ post).
  { rewrite (wn_archive _ _ _ _ _ _ _ _ _ Hw), Hdata. by rewrite <-!app_assoc. }
  apply (read_exact_range_local w policy path _ _ reqs (build_header layout c ++ root ++ meta ++ pre) post);
    [done | by rewrite <-Harch | | done | by rewrite <-Harch].
  rewrite layout_offset, !length_app, build_header_length. unfold HEADER_BYTES. lia.
Qed.

Lemma read_present t :
  t ∈ entries ->
  (forall enc, encode_payload encode (te_bytes t) c = Ok enc -> N.of_nat (length enc) <= MAX_DIRECTORY_BYTES) ->
  exists enc e, encode_payload encode (te_bytes t) c = Ok enc
    /\ zxy_to_tile_id (te_z t) (te_x t) (te_y t) = Ok (entry_tile_id e)
    /\ read_pmtiles_tile decode w policy path (te_z t) (te_x t) (te_y t)
       = Ok (mkTileRead (header_of layout c) (te_z t) (te_x t) (te_y t) (entry_tile_id e) enc
               (N.of_nat (length archive))
               [mkRequest 0 126 127 None;
                mkRequest HEADER_BYTES (HEADER_BYTES + N.of_nat (length root) - 1)
                  (N.of_nat (length root)) None;
                mkRequest (layout_tile_data_offset layout + entry_offset e)
                  (layout_tile_data_offset layout + entry_offset e + entry_length e - 1)
                  (entry_length e) None]).
Proof.
  intros Ht Hmax.
  destruct (write_sorted_ok _ _ (wn_sorted _ _ _ _ _ _ _ _ _ Hw)) as (_ & tiles & Hperm & Hf).
  destruct (related_l _ _ _ _ Hf Ht) as (s & Hs & Ha). rewrite <-Hperm in Hs.
  destruct (related_l _ _ _ _ directory_placed Hs) as (e & He & Hp).
  pose proof Ha as (Hid & Hb & Hnonempty).
  assert (Hes : entry_tile_id e = s.1) by (by destruct Hp as (? & ? & ? & _ & _ & ->)).
  rewrite <-Hes in Hid. destruct (tile_id_u64 _ _ _ _ Hid) as [_ H64].
  assert (Hlen : 0 < entry_length e <= MAX_DIRECTORY_BYTES).
  { destruct Hp as (pre & enc & post & _ & Henc & ->). cbn [entry_length]. rewrite Hb in Henc.
    split; [|by apply Hmax]. apply encode_payload_nonempty in Henc; [|done].
    destruct enc; [done|]. cbn [length]. lia. }
  edestruct (read_data s e) as (enc & Henc & Hread); [exact Hp | exact Hlen|].
  rewrite Hb in Henc. exists enc, e. split; [done|]. split; [done|].
  unfold read_pmtiles_tile. rewrite size_written. cbn [mbind result_bind].
  rewrite read_body_written. cbv zeta. rewrite (addressed_in_zoom t s Ht Ha), Hid.
  rewrite (find_entry_strict _ _ directory_strict He).
  assert (Hnext : entry_tile_id e + 1 < 2 ^ 64).
  { pose proof (zoom_base_mono (te_z t + 1) 32) as Hm. apply tile_id_ok in Hid as (Hz & Hzoom & ->).
    pose proof (curve_lt (te_z t) (N.to_nat (te_z t)) (te_x t, te_y t)) as Hc. rewrite N2Nat.id in Hc.
    rewrite zoom_base_succ in Hm. change (zoom_base 32) with 6148914691236517205 in Hm.
    change (2 ^ 64) with 18446744073709551616. lia. }
  unfold wrap. rewrite (N.mod_small (_ + 1)) by done.
  destruct (N.ltb_spec (entry_tile_id e) (entry_tile_id e)); [lia|].
  destruct (N.leb_spec (entry_tile_id e + 1) (entry_tile_id e)); [lia|]. cbn [orb].
  rewrite Hread. done.
Qed.

Lemma read_absent z x y :
  (forall t, t ∈ entries -> (te_z t, te_x t, te_y t) <> (z, x, y)) ->
  read_pmtiles_tile decode w policy path z x y = Err (TileNotFound z x y).
Proof.
  intros Habsent. unfold read_pmtiles_tile. rewrite size_written. cbn [mbind result_bind].
  rewrite read_body_written. cbv zeta.
  destruct (_ || _) eqn:Hguard; [done|].
  rewrite !orb_false_iff, !N.ltb_ge, !N.leb_gt in Hguard. destruct Hguard as [[[_ _] Hx] Hy].
  unfold dimension in Hx, Hy. destruct (N.ltb_spec z 32); [|lia]. rewrite N.shiftl_1_l in Hx, Hy.
  assert (Hid : zxy_to_tile_id z x y = Ok (zoom_base z + curve z (N.to_nat z) (x, y))).
  { apply tile_id_ok. split; [lia|]. by split. }
  set (id := zoom_base z + _) in *. rewrite Hid.
  destruct (find_entry directory id) as [e|] eqn:He; [|done].
  destruct (find_entry_sound _ _ _ He) as [Hin Hle].
  assert (Hne' : entry_tile_id e <> id).
  { intros Heq. destruct (elem_of_directory e Hin) as (t & s & Ht & (Htid & _) & Hp).
    apply (Habsent t Ht). destruct Hp as (pre & enc & post & _ & _ & ->). cbn [entry_tile_id] in Heq.
    rewrite Heq in Htid. by destruct (tile_id_inj _ _ _ _ _ _ _ Htid Hid) as (-> & -> & ->). }
  destruct (tile_id_u64 _ _ _ _ Hid) as [_ H64].
  unfold wrap. rewrite (N.mod_small (_ + 1)) by lia.
  destruct (N.ltb_spec id (entry_tile_id e)); [lia|].
  destruct (N.leb_spec (entry_tile_id e + 1) id); [done|lia].
Qed.
End Reading.
End Written.

Lemma write_ok path entries options w receipt w' :
  write_pmtiles_archive encode path entries options w = (Ok receipt, w') ->
  exists archive, archive_of encode entries options = Ok (archive, receipt)
    /\ disk w' = <[path := archive]> (disk w).
Proof.
  unfold write_pmtiles_archive, fs_write.
  destruct (archive_of encode entries options) as [[archive r]|e]; [|done].
  destruct (write_fault w path archive) as [[text remains]|]; [done|].
  cbn [map_err mbind result_bind]. intros [= -> <-]. by exists archive.
Qed.

Lemma written_root_length entries options archive sorted payloads directory root meta layout :
  written entries options archive sorted payloads directory root meta layout ->
  N.of_nat (length archive) < 2 ^ 63 -> u64_at archive 16 = N.of_nat (length root).
Proof.
  intros Hw Hsize. pose proof (archive_length _ _ _ _ _ _ _ _ _ Hw) as Hl.
  rewrite (wn_archive _ _ _ _ _ _ _ _ _ Hw), (wn_layout _ _ _ _ _ _ _ _ _ Hw).
  set (layout' := {| root_length := _ |}).
  change (u64_at _ 16) with (from_le_bytes (to_le_bytes (root_length layout'))).
  apply from_to_le_bytes. subst layout'. cbn [root_length].
  change (2 ^ 63) with 9223372036854775808 in Hsize. change (2 ^ 64) with 18446744073709551616. lia.
Qed.

(** The length of the root directory an archive's header declares *)
Definition root_end (archive : bytes) : N := HEADER_BYTES + u64_at archive 16.

(** C3: Whatever archive the writer leaves on disk, and with it nothing else is
    changed, the reader returns for each of its tiles, with three range requests,
    a payload that decodes to the bytes that were written, and reports every
    other coordinate as not present; provided the root directory ends within the
    reader's 16,384 byte limit and no tile exceeds its 16 MiB budget. *)
Theorem archive_roundtrip policy path entries options w receipt w' :
  write_pmtiles_archive encode path entries options w = (Ok receipt, w') ->
  is_remote_uri path = false ->
  N.of_nat (length entries) <= 400000 -> wr_object_bytes receipt < 2 ^ 63 ->
  (forall t, t ∈ entries -> N.of_nat (length (te_bytes t)) <= MAX_DIRECTORY_BYTES
     /\ forall enc, encode_payload encode (te_bytes t) (compression_of options) = Ok enc ->
          N.of_nat (length enc) <= MAX_DIRECTORY_BYTES) ->
  exists archive,
    disk w' = <[path := archive]> (disk w)
    /\ wr_object_bytes receipt = N.of_nat (length archive)
    /\ (root_end archive <= ROOT_DIRECTORY_LIMIT ->
        (forall t, t ∈ entries -> exists r,
           read_pmtiles_tile decode w' policy path (te_z t) (te_x t) (te_y t) = Ok r
           /\ decode_tile_payload decode (tr_bytes r) (tile_compression (tr_header r)) = Ok (te_bytes t)
           /\ zxy_to_tile_id (te_z t) (te_x t) (te_y t) = Ok (tr_tile_id r)
           /\ length (tr_requests r) = 3%nat)
        /\ (forall z x y,
              (forall t, t ∈ entries -> (te_z t, te_x t, te_y t) <> (z, x, y)) ->
              read_pmtiles_tile decode w' policy path z x y = Err (TileNotFound z x y))).
Proof.
  intros Hwrite Hlocal Hcount Hsize Hpay. apply write_ok in Hwrite as (archive & Ha & Hd).
  destruct (archive_of_written _ _ _ _ Ha)
    as (Hne & Hlen & sorted & payloads & directory & root & meta & layout & Hw).
  rewrite Hlen in Hsize. exists archive. split; [done|]. split; [done|].
  unfold root_end. rewrite (written_root_length _ _ _ _ _ _ _ _ _ Hw Hsize). intros Hroot.
  assert (Hdisk : disk w' !! path = Some archive) by (by rewrite Hd, lookup_insert_eq).
  split.
  - intros t Ht. destruct (Hpay t Ht) as [Hb Hmax].
    destruct (read_present _ _ _ _ _ _ _ _ _ Hw Hne Hsize Hcount w' policy path Hlocal Hdisk Hroot t Ht Hmax)
      as (enc & e & Henc & Hid & Hread).
    eexists. split; [exact Hread|]. cbn [tr_bytes tr_header tr_tile_id tr_requests length].
    split; [|done]. cbn [header_of tile_compression]. by eapply decode_encode_payload.
  - intros z x y Hz.
    by apply (read_absent _ _ _ _ _ _ _ _ _ Hw Hne Hsize Hcount w' policy path Hlocal Hdisk Hroot).
Qed.

(** The writer does not check the limit its reader puts on the root
    directory: an archive it wrote whose root directory ends beyond the first
    16,384 bytes is refused by the reader for every coordinate. *)
Theorem oversized_archive_unreadable policy path entries options w receipt w' archive :
  write_pmtiles_archive encode path entries options w = (Ok receipt, w') ->
  is_remote_uri path = false ->
  N.of_nat (length entries) <= 400000 -> wr_object_bytes receipt < 2 ^ 63 ->
  disk w' !! path = Some archive -> ROOT_DIRECTORY_LIMIT < root_end archive ->
  forall z x y, read_pmtiles_tile decode w' policy path z x y = Err (Invalid SectionBounds).
Proof.
  intros Hwrite Hlocal Hcount Hsize Hdisk Hroot z x y. apply write_ok in Hwrite as (archive' & Ha & Hd).
  assert (archive' = archive) as ->.
  { rewrite Hd, lookup_insert_eq in Hdisk. by injection Hdisk. }
  destruct (archive_of_written _ _ _ _ Ha)
    as (Hne & Hlen & sorted & payloads & directory & root & meta & layout & Hw).
  rewrite Hlen in Hsize. unfold root_end in Hroot.
  rewrite (written_root_length _ _ _ _ _ _ _ _ _ Hw Hsize) in Hroot.
  by apply (oversized_root _ _ _ _ _ _ _ _ _ Hw Hne Hsize Hcount w' policy path Hlocal Hdisk).
Qed.
End Roundtrip.

(** ** Witnesses *)

Lemma pair_fst {A B} (p : A * B) a : p.1 = a -> p = (a, p.2).
Proof. destruct p. by intros <-. Qed.

Lemma sample_archive_written : sample_archive.1 = Ok (mkWriteReceipt 153 3 3 2 2 0 1).
Proof. by vm_compute. Qed.

Lemma archive_roundtrip_witness :
  exists r, read_pmtiles_tile sample_gunzip sample_archive.2 sample_policy "/tiles.pmtiles" 1 1 0 = Ok r
    /\ decode_tile_payload sample_gunzip (tr_bytes r) (tile_compression (tr_header r))
       = Ok [x01; x02; x03].
Proof.
  destruct (archive_roundtrip sample_gzip sample_gunzip sample_policy "/tiles.pmtiles" sample_tiles
    (compressed "{}") sample_world (mkWriteReceipt 153 3 3 2 2 0 1) sample_archive.2)
    as (archive & Hd & Hlen & H).
  - exact (pair_fst sample_archive _ sample_archive_written).
  - reflexivity.
  - done.
  - done.
  - intros t Ht. repeat (apply elem_of_cons in Ht as [->|Ht]; [split; [done|by intros enc [= <-]]|]).
    by apply not_elem_of_nil in Ht.
  - apply (f_equal (lookup "/tiles.pmtiles")) in Hd. rewrite lookup_insert_eq in Hd.
    vm_compute in Hd. injection Hd as <-.
    destruct H as [H _]; [by vm_compute|].
    destruct (H (mkTile 1 1 0 [x01; x02; x03])) as (r & Hr & Hdec & _); [apply list_elem_of_here|].
    exists r. split; [exact Hr | exact Hdec].
Defined.

(** A codec of the class whose encodings carry a comment field of 16,384 bytes:
    one tile is enough for a directory beyond the limit. *)
Definition padding : bytes := x1f :: replicate 16383 x00.
Definition padded_gzip (b : bytes) : result string bytes := Ok (padding ++ b).
Definition padded_gunzip (b : bytes) (limit : N) : result string bytes :=
  Ok (take (N.to_nat limit) (drop (length padding) b)).

#[export] Instance padded_gzip_codec : GzipCodec padded_gzip padded_gunzip.
Proof.
  assert (Hne : padding <> []) by done. unfold padded_gzip, padded_gunzip. generalize dependent padding.
  intros p Hp. split; intros b c.
  - intros Hc. assert (c = p ++ b) as -> by congruence. by destruct p.
  - intros limit Hc. assert (c = p ++ b) as -> by congruence. by rewrite drop_app_length.
Qed.

Definition oversized_archive : result PmTilesError PmTilesWriteReceipt * World :=
  write_pmtiles_archive padded_gzip "/big.pmtiles" [mkTile 0 0 0 [x2a]] (mkOptions "{}" false) sample_world.

Lemma oversized_archive_written : oversized_archive.1 = Ok (mkWriteReceipt 32903 1 1 2 1 0 0).
Proof. vm_compute. reflexivity. Qed.

Definition oversized_bytes : bytes := default [] (disk oversized_archive.2 !! "/big.pmtiles").

Lemma oversized_on_disk : disk oversized_archive.2 !! "/big.pmtiles" = Some oversized_bytes.
Proof.
  assert (H : bool_decide (is_Some (disk oversized_archive.2 !! "/big.pmtiles")) = true)
    by (vm_compute; reflexivity).
  unfold oversized_bytes. apply bool_decide_eq_true in H as [b Hb]. by rewrite Hb.
Qed.

Lemma oversized_root_end : (ROOT_DIRECTORY_LIMIT <? root_end oversized_bytes) = true.
Proof. vm_compute. reflexivity. Qed.

Lemma oversized_archive_unreadable_witness :
  read_pmtiles_tile padded_gunzip oversized_archive.2 sample_policy "/big.pmtiles" 0 0 0
  = Err (Invalid SectionBounds).
Proof.
  refine (oversized_archive_unreadable padded_gzip padded_gunzip sample_policy "/big.pmtiles"
    [mkTile 0 0 0 [x2a]] (mkOptions "{}" false) sample_world
    (mkWriteReceipt 32903 1 1 2 1 0 0) oversized_archive.2
    oversized_bytes _ _ _ _ oversized_on_disk _ 0 0 0).
  - exact (pair_fst oversized_archive _ oversized_archive_written).
  - done.
  - done.
  - done.
  - exact (proj1 (N.ltb_lt _ _) oversized_root_end).
Defined.
