(* ===== verification/Mvt.v ===== *)
(** * Mapbox vector tiles (crates/genegis-tile/src/mvt.rs)

    The polygon encoder: projection to tile space, clipping, winding, the command
    stream, the key and value tables, and the protobuf framing. The trigonometric
    functions of the standard library, whose precision Rust leaves to the platform,
    are the class [Libm]. Arithmetic on [i64] is that of a release build. The
    second half is a reader written from the vector tile format, version 2, and
    what it reads back. *)

From Stdlib Require Import Strings.Byte Strings.String.
From S2P Require Import Prelude RustStd Bytes Ordering Rounding Float.
Local Open Scope N_scope.

Class Libm := { f64_tan : f64 -> f64; f64_cos : f64 -> f64; f64_ln : f64 -> f64 }.

Definition DEFAULT_EXTENT : N := 4096.
(** The double nearest to [85.051_129] *)
Definition MERCATOR_LAT_LIMIT_DEG : f64 := f64_lit 1496235284655625 (-44).
Definition PI : f64 := f64_lit 884279719003555 (-48).

Inductive TileValue := Text (text : string) | U64 (number : N) | F64 (number : f64).

(** The derived [PartialEq]: IEEE equality on the floats *)
Definition value_eqb (a b : TileValue) : bool :=
  match a, b with
  | Text s, Text t => bool_decide (s = t)
  | U64 m, U64 n => m =? n
  | F64 x, F64 y => f64_eqb x y
  | _, _ => false
  end.

Abbreviation point := (f64 * f64)%type.
Abbreviation ring := (list (Z * Z)).

Record TilePolygonPart := mkPart { exterior : list point; holes : list (list point) }.
Record TilePolygonFeature := mkFeature {
  feature_id : N; parts : list TilePolygonPart; feature_properties : list (string * TileValue) }.

(** ** Protobuf framing *)

Definition push_tag (buffer : bytes) (field wire : N) : bytes :=
  push_varint buffer (N.lor (N.shiftl field 3) wire).

Definition push_len_field (buffer : bytes) (field : N) (payload : bytes) : bytes :=
  push_varint (push_tag buffer field 2) (N.of_nat (length payload)) ++ payload.

(** [((value << 1) ^ (value >> 63)) as u64] *)
Definition zigzag (value : Z) : N :=
  Z.to_N (Z.lxor (Z.shiftl value 1) (Z.shiftr value 63) mod 2 ^ 64).

(** ** Projection *)

Section Projection.
Context `{Libm}.

Definition to_radians (x : f64) : f64 := f64_mul x (f64_div PI (f64_of_Z 180)).

Definition lonlat_to_tile_fraction (lon lat : f64) (z : N) : point :=
  let scale := f64_of_Z (Z.of_N (N.shiftl 1 (N.min z 15))) in
  let x := f64_mul (f64_div (f64_add lon (f64_of_Z 180)) (f64_of_Z 360)) scale in
  let lat := f64_clamp (f64_neg MERCATOR_LAT_LIMIT_DEG) MERCATOR_LAT_LIMIT_DEG lat in
  let radians := to_radians lat in
  let one := f64_of_Z 1 in
  let y := f64_mul (f64_div (f64_sub one
             (f64_div (f64_ln (f64_add (f64_tan radians) (f64_div one (f64_cos radians)))) PI))
             (f64_of_Z 2)) scale in
  (x, y).

Definition lon_to_tile_x (lon : f64) (z : N) : N :=
  f64_as_u32 (f64_max (f64_floor (lonlat_to_tile_fraction lon f64_zero z).1) f64_zero).

Definition lat_to_tile_y (lat : f64) (z : N) : N :=
  f64_as_u32 (f64_max (f64_floor (lonlat_to_tile_fraction f64_zero lat z).2) f64_zero).

(** ** Clipping (Sutherland and Hodgman) *)

Inductive ClipEdge := MinX (v : f64) | MaxX (v : f64) | MinY (v : f64) | MaxY (v : f64).

Definition inside (e : ClipEdge) (p : point) : bool :=
  match e with
  | MinX v => f64_leb v p.1
  | MaxX v => f64_leb p.1 v
  | MinY v => f64_leb v p.2
  | MaxY v => f64_leb p.2 v
  end.

Definition crossing (e : ClipEdge) (from to : point) : point :=
  let delta := (f64_sub to.1 from.1, f64_sub to.2 from.2) in
  let t := match e with
           | MinX v | MaxX v => f64_div (f64_sub v from.1) delta.1
           | MinY v | MaxY v => f64_div (f64_sub v from.2) delta.2
           end in
  let t := if f64_is_finite t then f64_clamp f64_zero (f64_of_Z 1) t else f64_zero in
  (f64_add from.1 (f64_mul t delta.1), f64_add from.2 (f64_mul t delta.2)).

(** One round of the loop over the points of the input *)
Definition clip_point (e : ClipEdge) (acc : list point * point) (p : point) : list point * point :=
  let '(output, previous) := acc in
  let output := if eqb (inside e p) (inside e previous) then output
                else output ++ [crossing e previous p] in
  (if inside e p then output ++ [p] else output, p).

(** One edge; [None] is the early return of an empty ring. *)
Definition clip_edge (output : option (list point)) (e : ClipEdge) : option (list point) :=
  input ← output;
  if (length input <? 3)%nat then None
  else Some (foldl (clip_point e) ([], default (f64_zero, f64_zero) (last input)) input).1.

Definition clip_ring (r : list point) (minimum maximum : point) : list point :=
  match foldl clip_edge (Some r) [MinX minimum.1; MaxX maximum.1; MinY minimum.2; MaxY maximum.2] with
  | Some output => if (length output <? 3)%nat then [] else output
  | None => []
  end.

(** [Vec::dedup] *)
Fixpoint dedup_from (previous : Z * Z) (l : ring) : ring :=
  match l with
  | [] => []
  | p :: l => if bool_decide (p = previous) then dedup_from previous l else p :: dedup_from p l
  end.
Definition dedup (l : ring) : ring := match l with [] => [] | p :: l => p :: dedup_from p l end.

(** [removelast] is [Vec::pop]. *)
Definition open_ring (r : ring) : ring :=
  if (1 <? length r)%nat && bool_decide (head r = last r) then removelast r else r.

Definition to_grid (extent : N) (v : f64) : Z :=
  f64_as_i64 (f64_clamp f64_zero (f64_of_Z (Z.of_N extent)) (f64_round v)).

Definition to_tile (z x y extent : N) (p : point) : point :=
  let scale := f64_of_Z (Z.of_N extent) in
  let f := lonlat_to_tile_fraction p.1 p.2 z in
  (f64_mul (f64_sub f.1 (f64_of_Z (Z.of_N x))) scale, f64_mul (f64_sub f.2 (f64_of_Z (Z.of_N y))) scale).

Definition project_ring (r : list point) (z x y extent : N) : ring :=
  let scale := f64_of_Z (Z.of_N extent) in
  let clipped := clip_ring (map (to_tile z x y extent) r) (f64_zero, f64_zero) (scale, scale) in
  dedup (open_ring (map (fun p => (to_grid extent p.1, to_grid extent p.2)) clipped)).

(** ** Winding *)

Definition wrap_i64 (v : Z) : Z := (v + 2 ^ 63) mod 2 ^ 64 - 2 ^ 63.

Definition cross (r : ring) (index : nat) : Z :=
  let current := default (0, 0)%Z (r !! index) in
  let next := default (0, 0)%Z (r !! ((index + 1) mod length r)%nat) in
  wrap_i64 (wrap_i64 (current.1 * next.2) - wrap_i64 (next.1 * current.2)).

(** [total / 2] truncates. *)
Definition signed_area (r : ring) : Z :=
  Z.quot (foldl (fun total index => wrap_i64 (total + cross r index)) 0%Z (seq 0 (length r))) 2.

Definition prepare_ring (r : ring) (is_exterior : bool) : option ring :=
  if (length r <? 3)%nat then None
  else
    let area := signed_area r in
    let oriented_correctly := if is_exterior then (0 <? area)%Z else (area <? 0)%Z in
    Some (if negb (area =? 0)%Z && negb oriented_correctly then reverse r else r).

(** ** Geometry commands *)

Definition push_zigzag_delta (acc : (Z * Z) * bytes) (target : Z * Z) : (Z * Z) * bytes :=
  let '(cursor, buffer) := acc in
  let buffer := push_varint buffer (zigzag (target.1 - cursor.1)) in
  (target, push_varint buffer (zigzag (target.2 - cursor.2))).

(** The ring is not empty: [ring[0]] would panic otherwise, and
    [prepare_ring] only returns rings of three points or more. *)
Definition encode_ring_commands (acc : (Z * Z) * bytes) (r : ring) : (Z * Z) * bytes :=
  match r with
  | [] => acc
  | first :: rest =>
      let '(cursor, buffer) := push_zigzag_delta (acc.1, push_varint acc.2 (N.lor 1 (N.shiftl 1 3))) first in
      let '(cursor, buffer) :=
        if (1 <? length r)%nat then
          foldl push_zigzag_delta
            (cursor, push_varint buffer (N.lor 2 (wrap 64 (N.shiftl (N.of_nat (length r - 1)) 3)))) rest
        else (cursor, buffer) in
      (cursor, push_varint buffer (N.lor 7 (N.shiftl 1 3)))
  end.

Definition encode_part (z x y extent : N) (acc : (Z * Z) * bytes) (p : TilePolygonPart) : (Z * Z) * bytes :=
  match prepare_ring (project_ring (exterior p) z x y extent) true with
  | None => acc
  | Some r =>
      foldl (fun acc hole =>
               match prepare_ring (project_ring hole z x y extent) false with
               | None => acc
               | Some r => encode_ring_commands acc r
               end) (encode_ring_commands acc r) (holes p)
  end.

Definition encode_feature_geometry (f : TilePolygonFeature) (z x y extent : N) : option bytes :=
  let buffer := (foldl (encode_part z x y extent) ((0, 0)%Z, []) (parts f)).2 in
  if bool_decide (buffer = []) then None else Some buffer.

(** ** Tables *)

Definition Tables : Type := gmap string N * list TileValue.

Definition encode_tag (acc : bytes * Tables) (p : string * TileValue) : bytes * Tables :=
  let '(tags, (key_table, value_table)) := acc in
  let '(key_index, key_table) :=
    match key_table !! p.1 with
    | Some index => (index, key_table)
    | None => let index := N.of_nat (size key_table) in (index, <[p.1 := index]> key_table)
    end in
  let '(value_index, value_table) :=
    match list_find (fun candidate => value_eqb candidate p.2 = true) value_table with
    | Some (index, _) => (N.of_nat index, value_table)
    | None => (N.of_nat (length value_table), value_table ++ [p.2])
    end in
  (push_varint (push_varint tags key_index) value_index, (key_table, value_table)).

Definition encode_tags (f : TilePolygonFeature) (tables : Tables) : bytes * Tables :=
  foldl encode_tag ([], tables) (feature_properties f).

(** ** The tile *)

Definition push_feature (z x y extent : N) (acc : Tables * list bytes) (f : TilePolygonFeature)
    : Tables * list bytes :=
  match encode_feature_geometry f z x y extent with
  | None => acc
  | Some geometry =>
      if bool_decide (geometry = []) then acc else
      let message := push_varint (push_tag [] 1 0) (feature_id f) in
      let '(tags, tables) := encode_tags f acc.1 in
      let message := if bool_decide (tags = []) then message else push_len_field message 2 tags in
      let message := push_varint (push_tag message 3 0) 3 in
      (tables, acc.2 ++ [push_len_field message 4 geometry])
  end.

Definition encode_value (v : TileValue) : bytes :=
  match v with
  | Text text => push_len_field [] 1 (String.list_byte_of_string text)
  | F64 number => push_tag [] 3 1 ++ to_le_bytes (f64_bits number)
  | U64 number => push_varint (push_tag [] 5 0) number
  end.

Definition encode_polygon_tile (layer_name : string) (z x y extent : N) (features : list TilePolygonFeature)
    : bytes :=
  let '((key_table, value_table), feature_messages) :=
    foldl (push_feature z x y extent) ((∅, []), []) features in
  if bool_decide (feature_messages = []) then [] else
  let layer := push_varint (push_tag [] 15 0) 2 in
  let layer := push_len_field layer 1 (String.list_byte_of_string layer_name) in
  let layer := foldl (fun layer message => push_len_field layer 2 message) layer feature_messages in
  let layer := foldl (fun layer key => push_len_field layer 3 (String.list_byte_of_string key)) layer
                 (btree_keys String.le key_table) in
  let layer := foldl (fun layer value => push_len_field layer 4 (encode_value value)) layer value_table in
  let layer := push_varint (push_tag layer 5 0) extent in
  push_len_field [] 3 layer.

End Projection.

(** ** A reader of the format

    Written from the Mapbox vector tile specification, version 2, and the
    protobuf wire format; it is what the encoder promises to be read by. *)

Inductive Field := Varint (v : N) | Fixed64 (b : bytes) | Delimited (b : bytes).

Definition next_varint (input : bytes) : option (N * bytes) :=
  match read_varint input 0 with Ok (v, cursor) => Some (v, drop cursor input) | Err _ => None end.

(** Every field takes a byte or more, so the length of the input is enough fuel. *)
Fixpoint fields_of (fuel : nat) (input : bytes) : option (list (N * Field)) :=
  match input, fuel with
  | [], _ => Some []
  | _, O => None
  | _, S fuel =>
      '(tag, rest) ← next_varint input;
      '(field, rest) ←
        match N.land tag 7 with
        | 0 => '(v, rest) ← next_varint rest; Some (Varint v, rest)
        | 1 => if (length rest <? 8)%nat then None else Some (Fixed64 (take 8 rest), drop 8 rest)
        | 2 => '(n, rest) ← next_varint rest;
               if (length rest <? N.to_nat n)%nat then None
               else Some (Delimited (take (N.to_nat n) rest), drop (N.to_nat n) rest)
        | _ => None
        end;
      fields ← fields_of fuel rest;
      Some ((N.shiftr tag 3, field) :: fields)
  end.
Definition parse_fields (input : bytes) : option (list (N * Field)) := fields_of (length input) input.

Fixpoint varints_of (fuel : nat) (input : bytes) : option (list N) :=
  match input, fuel with
  | [], _ => Some []
  | _, O => None
  | _, S fuel => '(v, rest) ← next_varint input; vs ← varints_of fuel rest; Some (v :: vs)
  end.
Definition parse_varints (input : bytes) : option (list N) := varints_of (length input) input.

Definition varint_field (k : N) (fields : list (N * Field)) : option N :=
  match list_find (fun f => f.1 = k) fields with Some (_, (_, Varint v)) => Some v | _ => None end.
Definition delimited (k : N) (fields : list (N * Field)) : list bytes :=
  omap (fun f => match f.2 with Delimited b => if f.1 =? k then Some b else None | _ => None end) fields.

Definition unzigzag (v : N) : Z :=
  let half := Z.of_N (N.shiftr v 1) in if N.testbit v 0 then (- half - 1)%Z else half.

(** [LineTo] with its parameters *)
Fixpoint read_points (count : nat) (cursor : Z * Z) (commands : list N) : option (ring * list N) :=
  match count, commands with
  | O, _ => Some ([], commands)
  | S count, dx :: dy :: rest =>
      let p := (cursor.1 + unzigzag dx, cursor.2 + unzigzag dy)%Z in
      '(l, rest) ← read_points count p rest; Some (p :: l, rest)
  | _, _ => None
  end.

(** [MoveTo] one point, [LineTo] the others, [ClosePath] *)
Fixpoint read_rings (fuel : nat) (cursor : Z * Z) (commands : list N) : option (list ring) :=
  match commands, fuel with
  | [], _ => Some []
  | c :: rest, S fuel =>
      if negb (c =? 9) then None else
      '(start, rest) ← read_points 1 cursor rest;
      match rest with
      | [] => None
      | c :: rest =>
          if negb (N.land c 7 =? 2) then None else
          '(l, rest) ← read_points (N.to_nat (N.shiftr c 3)) (default cursor (last start)) rest;
          match rest with
          | 15 :: rest =>
              rings ← read_rings fuel (default cursor (last (start ++ l))) rest;
              Some ((start ++ l) :: rings)
          | _ => None
          end
      end
  | _, O => None
  end.

Inductive RawValue := RawString (s : string) | RawDouble (bits : N) | RawUint (n : N).
Definition raw_value (v : TileValue) : RawValue :=
  match v with Text s => RawString s | F64 x => RawDouble (f64_bits x) | U64 n => RawUint n end.

Record ReadFeature := mkReadFeature {
  read_id : N; read_type : N; read_tags : list N; read_geometry : list ring }.
Record ReadLayer := mkReadLayer {
  layer_version : N; read_name : string; layer_extent : N; layer_features : list ReadFeature;
  layer_keys : list string; layer_values : list RawValue }.

Definition read_value (b : bytes) : option RawValue :=
  fields ← parse_fields b;
  match fields with
  | [(1, Delimited s)] => Some (RawString (String.string_of_list_byte s))
  | [(3, Fixed64 d)] => Some (RawDouble (from_le_bytes d))
  | [(5, Varint n)] => Some (RawUint n)
  | _ => None
  end.

Definition read_feature (b : bytes) : option ReadFeature :=
  fields ← parse_fields b;
  id ← varint_field 1 fields;
  type ← varint_field 3 fields;
  tags ← parse_varints (concat (delimited 2 fields));
  commands ← parse_varints (concat (delimited 4 fields));
  rings ← read_rings (length commands) (0, 0)%Z commands;
  Some (mkReadFeature id type tags rings).

Definition read_layer (b : bytes) : option ReadLayer :=
  fields ← parse_fields b;
  version ← varint_field 15 fields;
  name ← head (delimited 1 fields);
  extent ← varint_field 5 fields;
  features ← mapM read_feature (delimited 2 fields);
  values ← mapM read_value (delimited 4 fields);
  Some (mkReadLayer version (String.string_of_list_byte name) extent features
          (map String.string_of_list_byte (delimited 3 fields)) values).

Definition read_tile (b : bytes) : option ReadLayer :=
  fields ← parse_fields b;
  match fields with [(3, Delimited layer)] => read_layer layer | _ => None end.

(** The attributes a feature's tags name: pairs of indices into the tables *)
Fixpoint attributes_of (l : ReadLayer) (tags : list N) : option (list (string * RawValue)) :=
  match tags with
  | [] => Some []
  | k :: v :: tags =>
      key ← layer_keys l !! N.to_nat k; value ← layer_values l !! N.to_nat v;
      rest ← attributes_of l tags; Some ((key, value) :: rest)
  | _ => None
  end.

(** ** Framing *)

Definition wire (f : Field) : N := match f with Varint _ => 0 | Fixed64 _ => 1 | Delimited _ => 2 end.
Definition payload (f : Field) : bytes :=
  match f with
  | Varint v => varint_bytes 10 v
  | Fixed64 b => b
  | Delimited b => varint_bytes 10 (N.of_nat (length b)) ++ b
  end.
Definition field_bytes (f : N * Field) : bytes := varint_bytes 10 (N.lor (N.shiftl f.1 3) (wire f.2)) ++ payload f.2.
Definition fields_bytes (l : list (N * Field)) : bytes := concat (map field_bytes l).
Definition varints (l : list N) : bytes := concat (map (varint_bytes 10) l).

Definition field_ok (f : N * Field) : Prop :=
  f.1 < 16 /\ match f.2 with
              | Varint v => v < 2 ^ 64
              | Fixed64 b => length b = 8%nat
              | Delimited b => N.of_nat (length b) < 2 ^ 64
              end.

Lemma next_varint_bytes v post : v < 2 ^ 64 -> next_varint (varint_bytes 10 v ++ post) = Some (v, post).
Proof.
  intros Hv. unfold next_varint. pose proof (read_varint_bytes [] v post Hv) as Hr.
  change ([] ++ varint_bytes 10 v ++ post) with (varint_bytes 10 v ++ post) in Hr.
  change (length []) with 0%nat in Hr. rewrite Hr, Nat.add_0_l. by rewrite drop_app_length.
Qed.

Lemma varint_nonempty v : varint_bytes 10 v <> [].
Proof. cbn [varint_bytes]. cbv zeta. by destruct (_ =? 0). Qed.

Lemma varint_cons v : exists b l, varint_bytes 10 v = b :: l.
Proof. destruct (varint_bytes 10 v) eqn:E; [by apply varint_nonempty in E | eauto]. Qed.

Lemma tag_parts k w : k < 16 -> w < 8 ->
  let tag := N.lor (N.shiftl k 3) w in tag < 2 ^ 64 /\ N.land tag 7 = w /\ N.shiftr tag 3 = k.
Proof.
  intros Hk Hw.
  assert (Hall : forallb (fun p => let tag := N.lor (N.shiftl p.1 3) p.2 in
            (tag <? 2 ^ 64) && (N.land tag 7 =? p.2) && (N.shiftr tag 3 =? p.1))
          (list_prod (map N.of_nat (seq 0 16)) (map N.of_nat (seq 0 8))) = true) by (vm_compute; reflexivity).
  rewrite forallb_forall in Hall. specialize (Hall (k, w)). cbn [fst snd] in Hall. cbv zeta.
  assert (Hin : forall n m, m < N.of_nat n -> In m (map N.of_nat (seq 0 n))).
  { intros n m Hm. apply in_map_iff. exists (N.to_nat m). split; [lia|]. apply in_seq. lia. }
  specialize (Hall (in_prod _ _ _ _ (Hin 16%nat k Hk) (Hin 8%nat w Hw))).
  apply andb_true_iff in Hall as [[?%N.ltb_lt ?%N.eqb_eq]%andb_true_iff ?%N.eqb_eq]. done.
Qed.

Lemma wire_lt f : wire f < 8.
Proof. by destruct f. Qed.

Lemma fields_of_bytes l fuel : Forall field_ok l -> (length l <= fuel)%nat ->
  fields_of fuel (fields_bytes l) = Some l.
Proof.
  intros Hl. revert fuel. induction Hl as [|[k f] l [Hk Hf] Hl IH]; intros fuel Hfuel; [by destruct fuel|].
  destruct fuel as [|fuel]; [cbn [length] in Hfuel; lia|]. cbn [fst snd] in Hk, Hf.
  destruct (tag_parts k (wire f) Hk (wire_lt f)) as (Ht & Hw & Hs).
  unfold fields_bytes. cbn [map concat]. fold (fields_bytes l). unfold field_bytes. cbn [fst snd].
  set (tag := N.lor (N.shiftl k 3) (wire f)) in *. rewrite <-app_assoc.
  destruct (varint_cons tag) as (b & bs & Hb). cbn [fields_of].
  rewrite Hb. cbn [app]. rewrite app_comm_cons, <-Hb. rewrite next_varint_bytes by done. cbn [mbind option_bind].
  rewrite Hw. specialize (IH fuel ltac:(cbn [length] in Hfuel; lia)). destruct f as [v|d|d]; cbn [wire payload].
  - rewrite next_varint_bytes by done. cbn [mbind option_bind]. by rewrite IH, Hs.
  - rewrite length_app, Hf. replace (_ <? _)%nat with false by (symmetry; apply Nat.ltb_ge; lia).
    rewrite <-Hf, take_app_length, drop_app_length. cbn [mbind option_bind]. by rewrite IH, Hs.
  - rewrite <-app_assoc, next_varint_bytes by done. cbn [mbind option_bind]. rewrite Nat2N.id, length_app.
    replace (_ <? _)%nat with false by (symmetry; apply Nat.ltb_ge; lia).
    rewrite take_app_length, drop_app_length. cbn [mbind option_bind]. by rewrite IH, Hs.
Qed.

Lemma length_concat_ge {A} (f : A -> bytes) l : (forall a, f a <> []) -> (length l <= length (concat (map f l)))%nat.
Proof.
  intros Hf. induction l as [|a l IH]; [done|]. cbn [map concat length]. rewrite length_app.
  specialize (Hf a). destruct (f a); [done|]. cbn [length]. lia.
Qed.

Lemma parse_fields_bytes l : Forall field_ok l -> parse_fields (fields_bytes l) = Some l.
Proof.
  intros Hl. apply fields_of_bytes; [done|]. apply length_concat_ge. intros [k f].
  unfold field_bytes. destruct (varint_cons (N.lor (N.shiftl k 3) (wire f))) as (b & bs & Hb).
  cbn [fst snd]. by rewrite Hb.
Qed.

Lemma parse_varints_bytes l : Forall (fun v => v < 2 ^ 64) l -> parse_varints (varints l) = Some l.
Proof.
  intros Hl. unfold parse_varints. pose proof (length_concat_ge (varint_bytes 10) l varint_nonempty) as Hfuel.
  fold (varints l) in Hfuel. revert Hfuel. generalize (length (varints l)). induction Hl as [|v l Hv Hl IH]; intros fuel Hfuel.
  - by destruct fuel.
  - destruct fuel as [|fuel]; [cbn [length] in Hfuel; lia|]. unfold varints. cbn [map concat varints_of].
    destruct (varint_cons v) as (b & bs & Hb). rewrite Hb. cbn [app]. rewrite app_comm_cons, <-Hb.
    rewrite next_varint_bytes by done. cbn [mbind option_bind]. fold (varints l).
    rewrite IH by (cbn [length] in Hfuel; lia). done.
Qed.

Lemma varints_app l k : varints (l ++ k) = varints l ++ varints k.
Proof. unfold varints. by rewrite map_app, concat_app. Qed.

Lemma fields_app l k : fields_bytes (l ++ k) = fields_bytes l ++ fields_bytes k.
Proof. unfold fields_bytes. by rewrite map_app, concat_app. Qed.

Lemma push_varint_field buffer k v : push_varint (push_tag buffer k 0) v = buffer ++ fields_bytes [(k, Varint v)].
Proof. unfold push_tag, push_varint, fields_bytes, field_bytes. cbn. by rewrite app_nil_r, <-app_assoc. Qed.

Lemma push_len_field_bytes buffer k b : push_len_field buffer k b = buffer ++ fields_bytes [(k, Delimited b)].
Proof.
  unfold push_len_field, push_tag, push_varint, fields_bytes, field_bytes. cbn. by rewrite app_nil_r, <-!app_assoc.
Qed.

Lemma foldl_len_fields {A} (k : N) (f : A -> bytes) l buffer :
  foldl (fun acc a => push_len_field acc k (f a)) buffer l
  = buffer ++ fields_bytes (map (fun a => (k, Delimited (f a))) l).
Proof.
  revert buffer. induction l as [|a l IH]; intros buffer; cbn [foldl map]; [by rewrite app_nil_r|].
  rewrite IH, push_len_field_bytes, <-app_assoc. f_equal. by rewrite <-fields_app.
Qed.

(** ** Geometry *)

Definition on_grid (n : Z) (p : Z * Z) : Prop := (0 <= p.1 <= n /\ 0 <= p.2 <= n)%Z.
Abbreviation in_u32 := (on_grid (2 ^ 32)%Z).

Lemma zigzag_value v : (- 2 ^ 62 <= v < 2 ^ 62)%Z ->
  Z.of_N (zigzag v) = if (v <? 0)%Z then (-2 * v - 1)%Z else (2 * v)%Z.
Proof.
  intros Hv. unfold zigzag. rewrite Z.shiftl_mul_pow2, Z.shiftr_div_pow2 by lia.
  change (2 ^ 62)%Z with 4611686018427387904%Z in Hv. change (2 ^ 63)%Z with 9223372036854775808%Z.
  change (2 ^ 64)%Z with 18446744073709551616%Z. change (2 ^ 1)%Z with 2%Z. destruct (Z.ltb_spec v 0).
  - replace (v / 9223372036854775808)%Z with (-1)%Z by (apply Z.div_unique with (v + 9223372036854775808)%Z; lia).
    rewrite Z.lxor_m1_r. unfold Z.lnot. rewrite Z.mod_small by lia. lia.
  - rewrite Z.div_small by lia. rewrite Z.lxor_0_r, Z.mod_small by lia. lia.
Qed.

Lemma unzigzag_zigzag v : (- 2 ^ 62 <= v < 2 ^ 62)%Z -> zigzag v < 2 ^ 64 /\ unzigzag (zigzag v) = v.
Proof.
  intros Hv. pose proof (zigzag_value v Hv) as Hz. change (2 ^ 62)%Z with 4611686018427387904%Z in Hv.
  change (2 ^ 64) with 18446744073709551616. unfold unzigzag. cbv zeta. rewrite N.bit0_odd, <-N.div2_spec.
  pose proof (N.div2_odd (zigzag v)) as Ho. destruct (N.odd (zigzag v)); cbn [N.b2n] in Ho;
    destruct (Z.ltb_spec v 0); lia.
Qed.

Fixpoint deltas (cursor : Z * Z) (l : ring) : list N :=
  match l with
  | [] => []
  | p :: l => zigzag (p.1 - cursor.1) :: zigzag (p.2 - cursor.2) :: deltas p l
  end.

Definition ring_commands (cursor : Z * Z) (r : ring) : list N :=
  match r with
  | [] => []
  | first :: rest =>
      9 :: deltas cursor [first] ++ N.lor 2 (wrap 64 (N.shiftl (N.of_nat (length rest)) 3)) ::
      deltas first rest ++ [15]
  end.

Fixpoint rings_commands (cursor : Z * Z) (rings : list ring) : list N :=
  match rings with
  | [] => []
  | r :: rings => ring_commands cursor r ++ rings_commands (default cursor (last r)) rings
  end.

Lemma push_varints buffer l : foldl push_varint buffer l = buffer ++ varints l.
Proof.
  revert buffer. induction l as [|v l IH]; intros buffer; cbn [foldl]; [by rewrite app_nil_r|].
  rewrite IH. unfold push_varint. by rewrite <-app_assoc.
Qed.

Lemma push_deltas cursor buffer l :
  foldl push_zigzag_delta (cursor, buffer) l = (default cursor (last l), buffer ++ varints (deltas cursor l)).
Proof.
  revert cursor buffer. induction l as [|p l IH]; intros cursor buffer; cbn [foldl]; [by rewrite app_nil_r|].
  unfold push_zigzag_delta at 2. rewrite IH. unfold push_varint, varints. cbn [deltas map concat].
  rewrite <-!app_assoc. f_equal. rewrite last_cons. by destruct (last l).
Qed.

Lemma encode_ring_ok cursor buffer r : (2 <= length r)%nat ->
  encode_ring_commands (cursor, buffer) r = (default cursor (last r), buffer ++ varints (ring_commands cursor r)).
Proof.
  destruct r as [|p [|q r]]; [cbn [length]; lia..|]. intros _. unfold encode_ring_commands.
  change (N.lor 1 (N.shiftl 1 3)) with 9. change (N.lor 7 (N.shiftl 1 3)) with 15. cbn [fst snd].
  pose proof (push_deltas cursor (push_varint buffer 9) [p]) as Hp. cbn [foldl last default] in Hp. rewrite Hp.
  cbn [length]. replace (1 <? S (S (length r)))%nat with true by done. rewrite push_deltas.
  replace (S (S (length r)) - 1)%nat with (length (q :: r)) by (cbn [length]; lia). cbn [ring_commands].
  unfold push_varint. set (L := N.lor 2 _).
  rewrite <-!app_assoc. rewrite (last_cons p (q :: r)). f_equal.
  - destruct (last (q :: r)) eqn:E; [done|]. by apply last_None in E.
  - f_equal. change (9 :: ?l) with ([9] ++ l). rewrite !varints_app.
    change (L :: ?l) with ([L] ++ l). rewrite !varints_app. unfold varints at 3 5 7. cbn [map concat].
    by rewrite ?app_nil_r, <-?app_assoc.
Qed.

Lemma encode_rings_ok cursor buffer rings : Forall (fun r => (2 <= length r)%nat) rings ->
  exists cursor', foldl encode_ring_commands (cursor, buffer) rings
                  = (cursor', buffer ++ varints (rings_commands cursor rings)).
Proof.
  intros Hr. revert cursor buffer. induction Hr as [|r rings Hr Hrs IH]; intros cursor buffer; cbn [foldl].
  - exists cursor. cbn. by rewrite app_nil_r.
  - rewrite encode_ring_ok by done. destruct (IH (default cursor (last r)) (buffer ++ varints (ring_commands cursor r))) as [c' Hc].
    exists c'. rewrite Hc. cbn [rings_commands]. by rewrite varints_app, <-app_assoc.
Qed.

Lemma delta_small p q : in_u32 p -> in_u32 q ->
  (- 2 ^ 62 <= p.1 - q.1 < 2 ^ 62)%Z /\ (- 2 ^ 62 <= p.2 - q.2 < 2 ^ 62)%Z.
Proof.
  unfold on_grid. change (2 ^ 62)%Z with 4611686018427387904%Z. change (2 ^ 32)%Z with 4294967296%Z. lia.
Qed.

Lemma deltas_small cursor l : in_u32 cursor -> Forall in_u32 l -> Forall (fun v => v < 2 ^ 64) (deltas cursor l).
Proof.
  intros Hc Hl. revert cursor Hc. induction Hl as [|p l Hp Hl IH]; intros cursor Hc; cbn [deltas]; [done|].
  destruct (delta_small p cursor Hp Hc) as [H1 H2]. repeat constructor; [by apply unzigzag_zigzag..|]. by apply IH.
Qed.

Lemma read_points_deltas cursor l rest : in_u32 cursor -> Forall in_u32 l ->
  read_points (length l) cursor (deltas cursor l ++ rest) = Some (l, rest).
Proof.
  intros Hc Hl. revert cursor Hc. induction Hl as [|p l Hp Hl IH]; intros cursor Hc; [done|].
  destruct (delta_small p cursor Hp Hc) as [H1 H2].
  cbn [deltas length app read_points]. cbv zeta.
  rewrite (proj2 (unzigzag_zigzag _ H1)), (proj2 (unzigzag_zigzag _ H2)), !Zplus_minus.
  destruct p as [px py]. cbn [fst snd]. by rewrite IH.
Qed.

(** A ring the encoder can write: two points or more on the grid, few enough that
    the count of a command is not shifted out of the word *)
Definition ring_ok (r : ring) : Prop :=
  (2 <= length r)%nat /\ N.of_nat (length r) < 2 ^ 61 /\ Forall in_u32 r.

Lemma low_bits_disjoint n : N.land 2 (N.shiftl n 3) = 0.
Proof.
  apply N.bits_inj. intros i. rewrite N.land_spec, N.bits_0. destruct (N.lt_ge_cases i 3).
  - by rewrite (N.shiftl_spec_low n 3 i), andb_false_r.
  - rewrite (N.bits_above_log2 2 i); [done|]. change (N.log2 2) with 1. lia.
Qed.

Lemma line_command n : n < 2 ^ 61 ->
  let c := N.lor 2 (wrap 64 (N.shiftl n 3)) in c < 2 ^ 64 /\ N.land c 7 = 2 /\ N.shiftr c 3 = n.
Proof.
  intros Hn c. assert (Hw : wrap 64 (N.shiftl n 3) = N.shiftl n 3).
  { unfold wrap. apply N.mod_small. rewrite N.shiftl_mul_pow2. change (2 ^ 3) with 8.
    change (2 ^ 61) with 2305843009213693952 in Hn. change (2 ^ 64) with 18446744073709551616. lia. }
  assert (Hc : c = 2 + 8 * n).
  { unfold c. rewrite Hw, <-N.lxor_lor, <-N.add_nocarry_lxor.
    - rewrite N.shiftl_mul_pow2. change (2 ^ 3) with 8. lia.
    - apply low_bits_disjoint.
    - apply low_bits_disjoint. }
  rewrite Hc. change (2 ^ 61) with 2305843009213693952 in Hn. change (2 ^ 64) with 18446744073709551616.
  split_and!; [lia| |].
  - change 7 with (N.ones 3). rewrite N.land_ones. change (2 ^ 3) with 8.
    rewrite N.add_comm, N.mul_comm, N.Div0.add_mod, N.Div0.mod_mul. done.
  - rewrite N.shiftr_div_pow2. change (2 ^ 3) with 8. symmetry. apply (N.div_unique _ _ _ 2); lia.
Qed.

Lemma ring_commands_small cursor r : in_u32 cursor -> ring_ok r -> Forall (fun v => v < 2 ^ 64) (ring_commands cursor r).
Proof.
  intros Hc (H2 & Hlen & Hr). destruct r as [|p r]; [done|]. cbn [length] in Hlen. inversion_clear Hr.
  cbn [ring_commands]. constructor; [done|]. apply Forall_app. split; [apply deltas_small; [done|]; by constructor|].
  constructor; [apply line_command; lia|]. apply Forall_app. split; [by apply deltas_small|]. by repeat constructor.
Qed.

Lemma last_ok cursor r : in_u32 cursor -> ring_ok r -> in_u32 (default cursor (last r)).
Proof.
  intros Hc (_ & _ & Hr). destruct (last r) as [p|] eqn:E; [|done]. cbn [default]. unfold id.
  apply (proj1 (Forall_forall _ _) Hr). apply last_Some in E as [l ->]. apply elem_of_app. right. by apply list_elem_of_singleton.
Qed.

Lemma rings_commands_small cursor rings : in_u32 cursor -> Forall ring_ok rings ->
  Forall (fun v => v < 2 ^ 64) (rings_commands cursor rings).
Proof.
  intros Hc Hrs. revert cursor Hc. induction Hrs as [|r rings Hr Hrs IH]; intros cursor Hc; cbn [rings_commands]; [done|].
  apply Forall_app. split; [by apply ring_commands_small|]. by apply IH, last_ok.
Qed.

Lemma rings_commands_length cursor rings : Forall ring_ok rings -> (length rings <= length (rings_commands cursor rings))%nat.
Proof.
  intros Hrs. revert cursor. induction Hrs as [|r rings (H2 & _) Hrs IH]; intros cursor; [done|].
  cbn [rings_commands length]. rewrite length_app. destruct r as [|p r]; [cbn [length] in H2; lia|].
  specialize (IH (default cursor (last (p :: r)))). cbn [ring_commands length]. lia.
Qed.

(** The command stream names the rings, the cursor running through them all. *)
Lemma read_rings_commands cursor rings fuel : in_u32 cursor -> Forall ring_ok rings -> (length rings <= fuel)%nat ->
  read_rings fuel cursor (rings_commands cursor rings) = Some rings.
Proof.
  intros Hc Hrs. revert cursor Hc fuel.
  induction Hrs as [|r rings Hr Hrs IH]; intros cursor Hc fuel Hfuel; [by destruct fuel|].
  destruct fuel as [|fuel]; [cbn [length] in Hfuel; lia|]. pose proof (last_ok cursor r Hc Hr) as Hl.
  destruct Hr as (H2 & Hlen & Hr). destruct r as [|p r]; [cbn [length] in H2; lia|].
  apply Forall_cons in Hr as [Hp Hr]. cbn [length] in Hlen.
  destruct (line_command (N.of_nat (length r)) ltac:(lia)) as (_ & Hcmd & Hcount).
  cbn [rings_commands ring_commands app read_rings]. change (negb (9 =? 9)) with false. cbv iota.
  rewrite <-app_assoc. rewrite (read_points_deltas cursor [p]) by (try done; by constructor).
  cbn [mbind option_bind]. rewrite <-app_comm_cons. cbv iota. rewrite Hcmd. change (negb (2 =? 2)) with false. cbv iota.
  rewrite Hcount, Nat2N.id, <-app_assoc. cbn [last default].
  rewrite read_points_deltas by done. cbn [mbind option_bind app]. rewrite IH; [done.. | cbn [length] in Hfuel; lia].
Qed.

Section Geometry.
Context `{Libm}.

(** The rings of a part, the exterior first: none when the exterior does not
    survive, and then its holes are skipped too *)
Definition part_rings (z x y extent : N) (p : TilePolygonPart) : list ring :=
  match prepare_ring (project_ring (exterior p) z x y extent) true with
  | None => []
  | Some r => r :: omap (fun hole => prepare_ring (project_ring hole z x y extent) false) (holes p)
  end.
Definition feature_rings (z x y extent : N) (f : TilePolygonFeature) : list ring :=
  concat (map (part_rings z x y extent) (parts f)).

Lemma encode_part_rings z x y extent acc p :
  encode_part z x y extent acc p = foldl encode_ring_commands acc (part_rings z x y extent p).
Proof.
  unfold encode_part, part_rings. destruct (prepare_ring _ true) as [r|]; [|done]. cbn [foldl].
  generalize (encode_ring_commands acc r). induction (holes p) as [|h hs IH]; intros acc'; [done|].
  cbn [foldl omap list_omap]. by destruct (prepare_ring _ false).
Qed.

Lemma encode_parts_rings z x y extent acc l :
  foldl (encode_part z x y extent) acc l
  = foldl encode_ring_commands acc (concat (map (part_rings z x y extent) l)).
Proof.
  revert acc. induction l as [|p l IH]; intros acc; [done|]. cbn [foldl map concat].
  by rewrite foldl_app, <-encode_part_rings.
Qed.

(** ** Rings on the grid *)

Lemma dedup_from_sub previous l p : p ∈ dedup_from previous l -> p ∈ l.
Proof.
  revert previous. induction l as [|q l IH]; intros previous; cbn [dedup_from]; [done|].
  case_bool_decide; [intros ?%IH; by apply list_elem_of_further|].
  rewrite !elem_of_cons. intros [->|?%IH]; [by left | by right].
Qed.

Lemma dedup_sub l p : p ∈ dedup l -> p ∈ l.
Proof. destruct l as [|q l]; [done|]. cbn [dedup]. rewrite !elem_of_cons. intros [->|?%dedup_from_sub]; [by left | by right]. Qed.

Lemma open_ring_sub r p : p ∈ open_ring r -> p ∈ r.
Proof.
  unfold open_ring. destruct (_ && _); [|done]. destruct r as [|a r _] using rev_ind; [done|].
  rewrite removelast_last, elem_of_app. by left.
Qed.

Lemma project_ring_on_grid r z x y extent : extent < 2 ^ 32 ->
  Forall (on_grid (Z.of_N extent)) (project_ring r z x y extent).
Proof.
  intros He. apply Forall_forall. intros p Hp. unfold project_ring in Hp. cbv zeta in Hp.
  set (l := map _ (clip_ring _ _ _)) in Hp.
  assert (Hl : p ∈ l) by (by apply open_ring_sub, dedup_sub).
  apply list_elem_of_fmap in Hl as (q & -> & _). unfold on_grid, to_grid. cbn [fst snd].
  assert (Hn : (0 <= Z.of_N extent < 2 ^ 53)%Z).
  { change (2 ^ 53)%Z with 9007199254740992%Z. change (2 ^ 32) with 4294967296 in He. lia. }
  split; by apply round_clamp_bounds.
Qed.

Lemma prepare_ring_some r e r' : prepare_ring r e = Some r' -> (3 <= length r)%nat /\ (r' = r \/ r' = reverse r).
Proof.
  unfold prepare_ring. destruct (Nat.ltb_spec (length r) 3); [done|]. cbv zeta.
  intros Heq. simplify_eq. split; [lia|]. destruct (_ && _); tauto.
Qed.

Lemma prepared_on_grid r z x y extent e r' : extent < 2 ^ 32 ->
  prepare_ring (project_ring r z x y extent) e = Some r' ->
  (3 <= length r')%nat /\ Forall (on_grid (Z.of_N extent)) r'.
Proof.
  intros He Hr. pose proof (project_ring_on_grid r z x y extent He) as Hg.
  apply prepare_ring_some in Hr as [Hl [->| ->]]; [done|]. rewrite length_reverse. split; [done|]. by apply Forall_reverse.
Qed.

Lemma part_rings_on_grid z x y extent p : extent < 2 ^ 32 ->
  Forall (fun r => (3 <= length r)%nat /\ Forall (on_grid (Z.of_N extent)) r) (part_rings z x y extent p).
Proof.
  intros He. unfold part_rings. destruct (prepare_ring _ true) as [r|] eqn:E; [|done].
  constructor; [by apply prepared_on_grid in E|]. apply Forall_forall.
  intros r' (h & _ & Hh)%list_elem_of_omap. by apply prepared_on_grid in Hh.
Qed.

Lemma feature_rings_on_grid z x y extent f : extent < 2 ^ 32 ->
  Forall (fun r => (3 <= length r)%nat /\ Forall (on_grid (Z.of_N extent)) r) (feature_rings z x y extent f).
Proof.
  intros He. unfold feature_rings. apply Forall_concat, Forall_map, Forall_forall. intros p _. by apply part_rings_on_grid.
Qed.

Lemma encode_feature_rings f z x y extent : extent < 2 ^ 32 ->
  encode_feature_geometry f z x y extent
  = match feature_rings z x y extent f with
    | [] => None
    | rings => Some (varints (rings_commands (0, 0)%Z rings))
    end.
Proof.
  intros He. unfold encode_feature_geometry. rewrite encode_parts_rings. fold (feature_rings z x y extent f).
  destruct (encode_rings_ok (0, 0)%Z [] (feature_rings z x y extent f)) as [c ->].
  { eapply Forall_impl; [by apply feature_rings_on_grid|]. cbv beta. lia. }
  cbv zeta. cbn [snd app].
  pose proof (feature_rings_on_grid z x y extent f He) as Hg. destruct (feature_rings z x y extent f) as [|r rings]; [done|].
  rewrite bool_decide_eq_false_2; [done|]. apply Forall_cons in Hg as [[Hr _] _].
  destruct r as [|p r]; [cbn [length] in Hr; lia|]. cbn [rings_commands ring_commands app].
  unfold varints. cbn [map concat]. intros [Hv _]%app_eq_nil. by apply varint_nonempty in Hv.
Qed.
End Geometry.

(** ** Tables *)

(** Equal under the encoder's test, or the value itself: a NaN is not equal to
    itself, and [0.0 == -0.0]. *)
Definition same_value (written v : TileValue) : Prop := written = v \/ value_eqb written v = true.

Definition push_key (ks : list string) (k : string) : list string := if decide (k ∈ ks) then ks else ks ++ [k].

(** The key table maps each key to its position in [ks]. *)
Record tables_ok (ks : list string) (t : Tables) : Prop := {
  tables_distinct : NoDup ks;
  tables_size : size t.1 = length ks;
  tables_index : forall k i, t.1 !! k = Some i <-> ks !! N.to_nat i = Some k }.

(** The indices [tags] name these properties in the tables [ks] and [vs]. *)
Fixpoint names (ks : list string) (vs : list TileValue) (tags : list N) (props : list (string * TileValue)) : Prop :=
  match tags, props with
  | [], [] => True
  | k :: v :: tags, p :: props =>
      ks !! N.to_nat k = Some p.1 /\ (exists w, vs !! N.to_nat v = Some w /\ same_value w p.2)
      /\ names ks vs tags props
  | _, _ => False
  end.

Lemma names_mono ks vs ks' vs' tags props : ks `prefix_of` ks' -> vs `prefix_of` vs' ->
  names ks vs tags props -> names ks' vs' tags props.
Proof.
  intros Hk Hv. revert tags. induction props as [|p props IH]; intros [|k [|v tags]]; cbn [names]; try done.
  intros (H1 & (w & H2 & H3) & H4). split_and!; [by eapply prefix_lookup_Some| |by apply IH].
  exists w. split; [by eapply prefix_lookup_Some | done].
Qed.

Lemma names_snoc ks vs tags props k v p : names ks vs tags props -> ks !! N.to_nat k = Some p.1 ->
  (exists w, vs !! N.to_nat v = Some w /\ same_value w p.2) -> names ks vs (tags ++ [k; v]) (props ++ [p]).
Proof.
  revert tags. induction props as [|q props IH]; intros [|i [|j tags]]; cbn [names app]; try done.
  intros (H1 & H2 & H3) Hk Hv. split_and!; [done..|]. by apply IH.
Qed.

Lemma push_key_prefix ks k : ks `prefix_of` push_key ks k.
Proof. unfold push_key. case_decide; [done | by apply prefix_app_r]. Qed.

Lemma push_keys_prefix ks l : ks `prefix_of` foldl push_key ks l.
Proof.
  revert ks. induction l as [|k l IH]; intros ks; [done|]. cbn [foldl]. etrans; [apply push_key_prefix | apply IH].
Qed.

Lemma tables_empty : tables_ok [] (∅, []).
Proof. split; [constructor | done|]. intros k i. cbn [fst]. by rewrite lookup_empty, lookup_nil. Qed.

Lemma lookup_end {A} (l : list A) x : (l ++ [x]) !! length l = Some x.
Proof. by apply list_lookup_middle. Qed.

Lemma tables_insert ks kt vt k : tables_ok ks (kt, vt) -> kt !! k = None ->
  k ∉ ks /\ tables_ok (ks ++ [k]) (<[k := N.of_nat (size kt)]> kt, vt).
Proof.
  intros [Hd Hs Hi] Hk. cbn [fst] in *.
  assert (Hn : k ∉ ks).
  { intros [i Hki]%list_elem_of_lookup. rewrite <-(Nat2N.id i), <-Hi in Hki. congruence. }
  split; [done|]. split; cbn [fst].
  - apply NoDup_app. split_and!; [done| |apply NoDup_singleton]. by intros ? ? ->%list_elem_of_singleton.
  - rewrite map_size_insert_None by done. rewrite length_app, Hs. cbn [length]. lia.
  - intros k' i. destruct (decide (k' = k)) as [->|Hne].
    + rewrite lookup_insert_eq, Hs. split.
      * intros [= <-]. rewrite Nat2N.id. by apply lookup_end.
      * rewrite lookup_snoc_Some. intros [[_ Hl]|[Hl _]]; [|f_equal; lia].
        exfalso. by apply Hn, list_elem_of_lookup_2 with (N.to_nat i).
    + rewrite lookup_insert_ne by done. rewrite Hi, lookup_snoc_Some. split.
      * intros Hl. left. split; [|done]. by apply lookup_lt_Some in Hl.
      * intros [[_ Hl]|[_ ->]]; done.
Qed.

Lemma tables_present ks t k i : tables_ok ks t -> t.1 !! k = Some i -> k ∈ ks.
Proof. intros [_ _ Hi] ?%Hi. by eapply list_elem_of_lookup_2. Qed.

Lemma encode_tag_ok ks kt vt tags p : tables_ok ks (kt, vt) ->
  exists k v kt' vt',
    encode_tag (tags, (kt, vt)) p = (tags ++ varints [k; v], (kt', vt'))
    /\ tables_ok (push_key ks p.1) (kt', vt') /\ vt `prefix_of` vt'
    /\ push_key ks p.1 !! N.to_nat k = Some p.1 /\ (exists w, vt' !! N.to_nat v = Some w /\ same_value w p.2).
Proof.
  intros Hok. unfold encode_tag.
  assert (Hpush : forall k v, push_varint (push_varint tags k) v = tags ++ varints [k; v]).
  { intros k v. by rewrite <-push_varints. }
  set (r := match kt !! p.1 with Some i => (i, kt) | None => _ end).
  assert (Hk : exists k kt', r = (k, kt') /\ (forall vt', tables_ok (push_key ks p.1) (kt', vt'))
                             /\ push_key ks p.1 !! N.to_nat k = Some p.1).
  { unfold r, push_key. destruct (kt !! p.1) as [i|] eqn:E.
    - exists i, kt. rewrite decide_True by (by eapply (tables_present ks (kt, vt))).
      split_and!; [done| |by apply Hok]. intros vt'. by destruct Hok.
    - destruct (tables_insert _ _ _ _ Hok E) as [Hn Hins]. rewrite decide_False by done. eexists _, _.
      split_and!; [done| |].
      + intros vt'. by destruct Hins.
      + destruct Hok as [_ Hs _]. cbn [fst] in Hs. rewrite Nat2N.id, Hs. by apply lookup_end. }
  destruct Hk as (k & kt' & -> & Hkt & Hk).
  destruct (list_find _ vt) as [[i w]|] eqn:E.
  - apply list_find_Some in E as (Hi & Hw & _). exists k, (N.of_nat i), kt', vt. rewrite Hpush.
    split_and!; [done..|]. exists w. rewrite Nat2N.id. split; [done | by right].
  - exists k, (N.of_nat (length vt)), kt', (vt ++ [p.2]). rewrite Hpush.
    split_and!; [done..| |done|]; [by apply prefix_app_r|]. exists p.2. rewrite Nat2N.id, lookup_end. split; [done | by left].
Qed.

Lemma encode_tags_ok f ks kt vt : tables_ok ks (kt, vt) ->
  exists tags kt' vt',
    encode_tags f (kt, vt) = (varints tags, (kt', vt'))
    /\ tables_ok (foldl push_key ks (map fst (feature_properties f))) (kt', vt') /\ vt `prefix_of` vt'
    /\ names (foldl push_key ks (map fst (feature_properties f))) vt' tags (feature_properties f).
Proof.
  unfold encode_tags. generalize (feature_properties f). intros props Hok.
  induction props as [|p props IH] using rev_ind.
  - by exists [], kt, vt.
  - destruct IH as (tags & kt1 & vt1 & IH & Hok1 & Hp1 & Hn1). rewrite foldl_snoc, IH, map_app.
    cbn [map]. rewrite foldl_snoc. destruct (encode_tag_ok _ _ _ (varints tags) p Hok1) as (k & v & kt2 & vt2 & -> & Hok2 & Hp2 & Hk & Hv).
    exists (tags ++ [k; v]), kt2, vt2. rewrite varints_app. split_and!; [done..| |].
    + by etrans.
    + apply names_snoc; [|done..]. eapply names_mono; [apply push_key_prefix|done..].
Qed.

Abbreviation small n := (N.of_nat n < 2 ^ 61).

Lemma member_bytes (f : N * Field) l : f ∈ l -> (length (field_bytes f) <= length (fields_bytes l))%nat.
Proof.
  intros (l1 & l2 & ->)%list_elem_of_split. rewrite fields_app, length_app.
  unfold fields_bytes at 2. cbn [map concat]. rewrite length_app. lia.
Qed.

Lemma delimited_bytes k b l : (k, Delimited b) ∈ l -> (length b <= length (fields_bytes l))%nat.
Proof.
  intros Hin%member_bytes. unfold field_bytes in Hin. cbn [fst snd payload] in Hin. rewrite !length_app in Hin. lia.
Qed.

Lemma small_u64 n : n < 2 ^ 61 -> n < 2 ^ 64.
Proof. change (2 ^ 61) with 2305843009213693952. change (2 ^ 64) with 18446744073709551616. lia. Qed.

Lemma deltas_length cursor l : length (deltas cursor l) = (2 * length l)%nat.
Proof. revert cursor. induction l as [|p l IH]; intros cursor; cbn [deltas length]; [done|]. rewrite IH. lia. Qed.

Lemma ring_commands_long cursor rings r : r ∈ rings -> (length r <= length (rings_commands cursor rings))%nat.
Proof.
  revert cursor. induction rings as [|q rings IH]; intros cursor; [by intros ?%not_elem_of_nil|].
  cbn [rings_commands]. rewrite length_app. intros [->|Hr]%elem_of_cons.
  - destruct q as [|p q]; [cbn; lia|]. cbn [ring_commands length]. rewrite !length_app. cbn [length].
    rewrite length_app, !deltas_length. cbn [length]. lia.
  - specialize (IH (default cursor (last q)) Hr). lia.
Qed.

(** An attribute read back is the property: the same key, and the value or one
    equal to it *)
Definition same_attribute (p : string * TileValue) (a : string * RawValue) : Prop :=
  a.1 = p.1 /\ exists w, a.2 = raw_value w /\ same_value w p.2.

Lemma attributes_named l ks vt tags props : layer_keys l = ks -> layer_values l = map raw_value vt ->
  names ks vt tags props -> exists read, attributes_of l tags = Some read /\ Forall2 same_attribute props read.
Proof.
  intros Hk Hv. revert props. induction tags as [tags IH] using (induction_ltof1 _ (@length N)). unfold ltof in IH.
  destruct tags as [|k [|v tags]]; intros [|p props]; cbn [names]; try done.
  - intros _. by exists [].
  - intros (H1 & (w & H2 & H3) & Hn). destruct (IH tags ltac:(cbn [length]; lia) props Hn) as (read & Hr & Hf).
    exists ((p.1, raw_value w) :: read). cbn [attributes_of]. rewrite Hk, H1. cbn [mbind option_bind].
    rewrite Hv, list_lookup_fmap, H2. cbn [fmap option_fmap option_map mbind option_bind]. rewrite Hr. cbn [mbind option_bind].
    split; [done|]. constructor; [|done]. split; [done|]. by exists w.
Qed.

(** ** Whole tiles *)

Section Tile.
Context `{Libm} (z x y extent : N).
Hypothesis extent_fits : extent < 2 ^ 32.

Abbreviation rings_of := (feature_rings z x y extent).

(** The features with a ring left, in the order of the input *)
Definition surviving (features : list TilePolygonFeature) : list TilePolygonFeature :=
  filter (fun f => rings_of f <> []) features.

(** The keys in the order the features first use them *)
Definition key_order (features : list TilePolygonFeature) : list string :=
  foldl push_key [] (concat (map (fun f => map fst (feature_properties f)) (surviving features))).

Definition geometry_of (f : TilePolygonFeature) : bytes := varints (rings_commands (0, 0)%Z (rings_of f)).

Definition message_fields (m : TilePolygonFeature * list N) : list (N * Field) :=
  (1, Varint (feature_id m.1)) ::
  (if bool_decide (m.2 = []) then [] else [(2, Delimited (varints m.2))]) ++
  [(3, Varint 3); (4, Delimited (geometry_of m.1))].
Definition message_bytes (m : TilePolygonFeature * list N) : bytes := fields_bytes (message_fields m).

Definition value_field (v : TileValue) : N * Field :=
  match v with
  | Text s => (1, Delimited (String.list_byte_of_string s))
  | F64 d => (3, Fixed64 (to_le_bytes (f64_bits d)))
  | U64 n => (5, Varint n)
  end.

Lemma encode_value_field v : encode_value v = fields_bytes [value_field v].
Proof.
  destruct v; cbn [encode_value value_field].
  - by rewrite push_len_field_bytes.
  - by rewrite push_varint_field.
  - unfold push_tag, push_varint, fields_bytes, field_bytes. cbn. by rewrite app_nil_r.
Qed.

Lemma varints_nil l : varints l = [] <-> l = [].
Proof.
  split; [|by intros ->]. destruct l as [|v l]; [done|]. unfold varints. cbn [map concat].
  intros [Hv _]%app_eq_nil. by apply varint_nonempty in Hv.
Qed.

Lemma message_of_pushes f (tags : list N) :
  push_len_field (push_varint (push_tag
    (if bool_decide (varints tags = []) then push_varint (push_tag [] 1 0) (feature_id f)
     else push_len_field (push_varint (push_tag [] 1 0) (feature_id f)) 2 (varints tags)) 3 0) 3) 4 (geometry_of f)
  = message_bytes (f, tags).
Proof.
  rewrite push_len_field_bytes, push_varint_field. unfold message_bytes, message_fields. cbn [fst snd].
  change (?a :: ?l ++ ?r) with ([a] ++ l ++ r). rewrite !fields_app.
  change [(3, Varint 3); (4, Delimited (geometry_of f))] with ([(3, Varint 3)] ++ [(4, Delimited (geometry_of f))]).
  rewrite fields_app. rewrite (bool_decide_ext _ _ (varints_nil tags)). case_bool_decide.
  - rewrite push_varint_field. cbn [app]. by rewrite <-app_assoc.
  - rewrite push_len_field_bytes, push_varint_field. cbn [app]. by rewrite <-!app_assoc.
Qed.

Lemma push_feature_ok f ks kt vt ms : tables_ok ks (kt, vt) ->
  (rings_of f = [] /\ push_feature z x y extent ((kt, vt), ms) f = ((kt, vt), ms))
  \/ (rings_of f <> [] /\ exists tags kt' vt' ks',
        ks' = foldl push_key ks (map fst (feature_properties f))
        /\ push_feature z x y extent ((kt, vt), ms) f = ((kt', vt'), ms ++ [message_bytes (f, tags)])
        /\ tables_ok ks' (kt', vt') /\ vt `prefix_of` vt' /\ names ks' vt' tags (feature_properties f)).
Proof.
  intros Hok. unfold push_feature. rewrite encode_feature_rings by done.
  destruct (rings_of f) as [|r rs] eqn:Hrs; [by left|]. right. split; [done|]. rewrite <-Hrs. fold (geometry_of f).
  rewrite bool_decide_eq_false_2.
  - destruct (encode_tags_ok f ks kt vt Hok) as (tags & kt' & vt' & Hrun & Hok' & Hp & Hn).
    cbn [fst snd]. rewrite Hrun, message_of_pushes. by eexists tags, kt', vt', _.
  - unfold geometry_of. rewrite varints_nil, Hrs.
    pose proof (feature_rings_on_grid z x y extent f extent_fits) as Hg. rewrite Hrs in Hg.
    apply Forall_cons in Hg as [[Hr _] _]. destruct r; [cbn [length] in Hr; lia | done].
Qed.

Lemma push_features_ok features : exists kt vt ms,
  foldl (push_feature z x y extent) ((∅, []), []) features = ((kt, vt), map message_bytes ms)
  /\ map fst ms = surviving features /\ tables_ok (key_order features) (kt, vt)
  /\ Forall (fun m => names (key_order features) vt m.2 (feature_properties m.1)) ms.
Proof.
  induction features as [|f features IH] using rev_ind.
  { exists ∅, [], []. by pose proof tables_empty. }
  destruct IH as (kt & vt & ms & Hrun & Hms & Hok & Hn). rewrite foldl_snoc, Hrun.
  destruct (push_feature_ok f _ _ _ (map message_bytes ms) Hok)
    as [[He ->]|(Hne & tags & kt' & vt' & ks' & Hks & -> & Hok' & Hp & Hn')].
  - exists kt, vt, ms. unfold key_order, surviving. rewrite filter_app, filter_cons_False by (by intros []).
    rewrite filter_nil, app_nil_r. by split_and!.
  - exists kt', vt', (ms ++ [(f, tags)]). unfold key_order, surviving. rewrite filter_app, filter_cons_True by done.
    rewrite !map_app, concat_app, foldl_app, filter_nil. cbn [map concat fst]. rewrite app_nil_r.
    change (foldl push_key [] (concat _)) with (key_order features).
    rewrite <-Hks. split_and!; [done | by rewrite Hms | done|]. apply Forall_app. split; [|by constructor].
    eapply Forall_impl; [exact Hn|]. intros m Hm. eapply names_mono; [|exact Hp|exact Hm].
    rewrite Hks. apply push_keys_prefix.
Qed.

Definition layer_fields (name : string) (kt : gmap string N) (vt : list TileValue)
    (ms : list (TilePolygonFeature * list N)) : list (N * Field) :=
  [(15, Varint 2); (1, Delimited (String.list_byte_of_string name))]
  ++ map (fun m => (2, Delimited (message_bytes m))) ms
  ++ map (fun k => (3, Delimited (String.list_byte_of_string k))) (btree_keys String.le kt)
  ++ map (fun v => (4, Delimited (encode_value v))) vt
  ++ [(5, Varint extent)].

Lemma encode_tag_values P acc p : Forall P acc.2.2 -> P p.2 -> Forall P (encode_tag acc p).2.2.
Proof.
  destruct acc as [tags [kt vt]]. cbn [snd]. intros Hvt Hp. unfold encode_tag.
  destruct (match kt !! p.1 with Some i => (i, kt) | None => _ end) as [k kt'].
  destruct (list_find _ vt) as [[]|]; cbn [snd]; [done|]. apply Forall_app. split; [done | by constructor].
Qed.

Lemma encode_tags_values P f t : Forall P t.2 -> Forall (fun p => P p.2) (feature_properties f) ->
  Forall P (encode_tags f t).2.2.
Proof.
  intros Ht Hf. assert (Hacc : forall acc : bytes * Tables, Forall P acc.2.2 ->
    Forall P (foldl encode_tag acc (feature_properties f)).2.2); [|by apply Hacc].
  induction Hf as [|p props Hp Hf IH]; intros acc Hacc; [done|]. cbn [foldl]. by apply IH, encode_tag_values.
Qed.

Lemma push_features_values P features (acc : Tables * list bytes) : Forall P acc.1.2 ->
  Forall (fun f => Forall (fun p => P p.2) (feature_properties f)) features ->
  Forall P (foldl (push_feature z x y extent) acc features).1.2.
Proof.
  intros Hacc Hf. revert acc Hacc. induction Hf as [|f features Hp Hf IH]; intros acc Hacc; [done|].
  cbn [foldl]. apply IH. unfold push_feature. destruct (encode_feature_geometry f z x y extent) as [g|]; [|done].
  destruct (bool_decide _); [done|]. pose proof (encode_tags_values P f acc.1 Hacc Hp) as Ht.
  destruct (encode_tags f acc.1) as [tags tables]. exact Ht.
Qed.

Lemma encode_polygon_tile_ok (P : TileValue -> Prop) name features : surviving features <> [] ->
  Forall (fun f => Forall (fun p => P p.2) (feature_properties f)) features -> exists kt vt ms,
  Forall P vt /\
  encode_polygon_tile name z x y extent features
  = fields_bytes [(3, Delimited (fields_bytes (layer_fields name kt vt ms)))]
  /\ map fst ms = surviving features /\ tables_ok (key_order features) (kt, vt)
  /\ Forall (fun m => names (key_order features) vt m.2 (feature_properties m.1)) ms.
Proof.
  intros Hne Hp. destruct (push_features_ok features) as (kt & vt & ms & Hrun & Hms & Hok & Hn).
  pose proof (push_features_values P features ((∅, []), []) (Forall_nil_2 P) Hp) as Hv. rewrite Hrun in Hv.
  exists kt, vt, ms. split; [done|]. split; [|done]. unfold encode_polygon_tile. rewrite Hrun.
  rewrite bool_decide_eq_false_2.
  - rewrite push_len_field_bytes. cbn [app]. do 4 f_equal. unfold layer_fields.
    change [(15, Varint 2); (1, Delimited (String.list_byte_of_string name))]
      with ([(15, Varint 2)] ++ [(1, Delimited (String.list_byte_of_string name))]).
    rewrite push_varint_field, !fields_app. rewrite !foldl_len_fields, push_len_field_bytes, push_varint_field.
    cbn [app]. rewrite map_map. by rewrite <-!app_assoc.
  - rewrite <-Hms in Hne. destruct ms; [done|]. by cbn.
Qed.

Lemma no_feature_no_tile name features : surviving features = [] -> encode_polygon_tile name z x y extent features = [].
Proof.
  intros Hs. destruct (push_features_ok features) as (kt & vt & ms & Hrun & Hms & _).
  unfold encode_polygon_tile. rewrite Hrun. rewrite Hs in Hms. by apply fmap_nil_inv in Hms as ->.
Qed.

(** ** Reading a tile back *)

Lemma rings_ok f : small (length (geometry_of f)) -> Forall ring_ok (rings_of f).
Proof.
  intros Hs. pose proof (feature_rings_on_grid z x y extent f extent_fits) as Hg.
  apply Forall_forall. intros r Hr. destruct (proj1 (Forall_forall _ _) Hg r Hr) as [H3 Hgrid].
  pose proof (ring_commands_long (0, 0)%Z _ _ Hr) as Hlong.
  pose proof (length_concat_ge (varint_bytes 10) (rings_commands (0, 0)%Z (rings_of f)) varint_nonempty) as Hbytes.
  change (length (concat _)) with (length (geometry_of f)) in Hbytes. split_and!; [lia | lia|].
  eapply Forall_impl; [exact Hgrid|]. unfold on_grid. intros p [H1 H2].
  change (2 ^ 32)%Z with (Z.of_N (2 ^ 32)). lia.
Qed.

Lemma read_geometry_of f : small (length (geometry_of f)) ->
  exists commands, parse_varints (geometry_of f) = Some commands
    /\ read_rings (length commands) (0, 0)%Z commands = Some (rings_of f).
Proof.
  intros Hs. pose proof (rings_ok f Hs) as Hok. exists (rings_commands (0, 0)%Z (rings_of f)).
  assert (Hc : in_u32 (0, 0)%Z) by (split; cbn; lia). split.
  - by apply parse_varints_bytes, rings_commands_small.
  - apply read_rings_commands; [done..|]. by apply rings_commands_length.
Qed.

Lemma names_small ks vs tags props : names ks vs tags props -> small (length ks) -> small (length vs) ->
  Forall (fun v => v < 2 ^ 64) tags.
Proof.
  revert tags. induction props as [|p props IH]; intros [|k [|v tags]]; cbn [names]; try done.
  intros (Hk & (w & Hv & _) & Hn) Hks Hvs. apply lookup_lt_Some in Hk, Hv.
  repeat constructor; [apply small_u64; lia..|]. by apply IH.
Qed.

Lemma delimited_app k l m : delimited k (l ++ m) = delimited k l ++ delimited k m.
Proof. apply omap_app. Qed.

Lemma delimited_map {A} k k' (f : A -> bytes) l :
  delimited k (map (fun a => (k', Delimited (f a))) l) = if k' =? k then map f l else [].
Proof.
  unfold delimited. induction l as [|a l IH]; [by destruct (k' =? k)|]. cbn [map omap list_omap fst snd].
  rewrite IH. by destruct (k' =? k).
Qed.

Lemma read_message m ks vs : feature_id m.1 < 2 ^ 64 -> small (length (message_bytes m)) ->
  names ks vs m.2 (feature_properties m.1) -> small (length ks) -> small (length vs) ->
  read_feature (message_bytes m) = Some (mkReadFeature (feature_id m.1) 3 m.2 (rings_of m.1)).
Proof.
  intros Hid Hs Hn Hks Hvs. destruct m as [f tags]. cbn [fst snd] in *.
  assert (Hg : (4, Delimited (geometry_of f)) ∈ message_fields (f, tags)).
  { unfold message_fields. rewrite elem_of_cons, elem_of_app. right; right. by apply list_elem_of_further, list_elem_of_here. }
  pose proof (delimited_bytes _ _ _ Hg) as Hgs. fold (message_bytes (f, tags)) in Hgs.
  destruct (read_geometry_of f ltac:(lia)) as (commands & Hc & Hr).
  assert (Hfields : parse_fields (message_bytes (f, tags)) = Some (message_fields (f, tags))).
  { apply parse_fields_bytes. unfold message_fields. cbn [fst snd]. constructor; [by split|].
    apply Forall_app. split.
    - case_bool_decide as Ht; [done|]. constructor; [|done]. split; [done|]. apply small_u64.
      assert (Hin : (2, Delimited (varints tags)) ∈ message_fields (f, tags)).
      { unfold message_fields. cbn [fst snd]. rewrite bool_decide_eq_false_2 by done.
        apply list_elem_of_further, list_elem_of_here. }
      apply delimited_bytes in Hin. fold (message_bytes (f, tags)) in Hin. lia.
    - constructor; [by split|]. constructor; [|done]. split; [done|]. cbn [snd]. apply small_u64. lia. }
  unfold read_feature. rewrite Hfields. cbn [mbind option_bind].
  pose proof (parse_varints_bytes tags (names_small _ _ _ _ Hn Hks Hvs)) as Htags.
  unfold message_fields. cbn [fst snd]. case_bool_decide as Ht; cbn [app].
  - subst tags. cbn -[parse_varints]. rewrite app_nil_r. change (parse_varints []) with (Some ([] : list N)).
    cbn [mbind option_bind]. rewrite Hc. cbn [mbind option_bind]. by rewrite Hr.
  - cbn -[parse_varints]. rewrite !app_nil_r, Htags. cbn [mbind option_bind]. rewrite Hc. cbn [mbind option_bind]. by rewrite Hr.
Qed.

(** Values the machine holds: [u64] integers and binary64 numbers *)
Definition value_fits (v : TileValue) : Prop :=
  match v with U64 n => n < 2 ^ 64 | F64 d => f64_bits d < 2 ^ 64 | Text _ => True end.

Lemma read_value_bytes v : value_fits v -> small (length (encode_value v)) -> read_value (encode_value v) = Some (raw_value v).
Proof.
  intros Hv Hs. unfold read_value. rewrite encode_value_field in Hs |- *.
  rewrite parse_fields_bytes; cbn [mbind option_bind].
  - destruct v; cbn [value_field raw_value]; [by rewrite String.string_of_list_byte_of_string | done|].
    by rewrite from_to_le_bytes.
  - constructor; [|done]. destruct v; cbn [value_field] in *; split; cbn [fst snd]; try done.
    apply small_u64. pose proof (delimited_bytes 1 (String.list_byte_of_string text) [(1, Delimited (String.list_byte_of_string text))]
      (list_elem_of_here _ _)). lia.
Qed.

Definition reader_of (m : TilePolygonFeature * list N) : ReadFeature :=
  mkReadFeature (feature_id m.1) 3 m.2 (rings_of m.1).

Lemma delimited_layer name kt vt ms :
  delimited 1 (layer_fields name kt vt ms) = [String.list_byte_of_string name]
  /\ delimited 2 (layer_fields name kt vt ms) = map message_bytes ms
  /\ delimited 3 (layer_fields name kt vt ms) = map String.list_byte_of_string (btree_keys String.le kt)
  /\ delimited 4 (layer_fields name kt vt ms) = map encode_value vt.
Proof.
  unfold layer_fields. rewrite !delimited_app, !delimited_map. cbn -[encode_value]. by rewrite !app_nil_r.
Qed.

Lemma varint_field_skip k l m : Forall (fun f => f.1 <> k) l -> varint_field k (l ++ m) = varint_field k m.
Proof.
  intros Hl. unfold varint_field. rewrite list_find_app_r.
  - by destruct (list_find _ m) as [[i [k' f]]|].
  - apply list_find_None. exact Hl.
Qed.

Lemma layer_extent_field name kt vt ms : varint_field 5 (layer_fields name kt vt ms) = Some extent.
Proof.
  unfold layer_fields. rewrite !app_assoc. apply varint_field_skip.
  repeat apply Forall_app_2; [by repeat constructor|..]; by apply Forall_map, Forall_forall.
Qed.

Lemma layer_fields_ok name kt vt ms : small (length (fields_bytes (layer_fields name kt vt ms))) ->
  Forall field_ok (layer_fields name kt vt ms).
Proof.
  intros Hs.
  assert (Hd : forall k b, (k, Delimited b) ∈ layer_fields name kt vt ms -> k < 16 -> field_ok (k, Delimited b)).
  { intros k b Hin Hk. split; [done|]. apply delimited_bytes in Hin. cbn [snd]. apply small_u64. lia. }
  apply Forall_forall. intros f Hin. pose proof Hin as Hin'. unfold layer_fields in Hin'.
  rewrite !elem_of_app in Hin'. destruct Hin' as [Hf|[Hf|[Hf|[Hf|Hf]]]].
  - apply elem_of_cons in Hf as [->|Hf]; [by split|]. apply list_elem_of_singleton in Hf as ->. by apply Hd.
  - apply list_elem_of_fmap in Hf as (m & -> & _). by apply Hd.
  - apply list_elem_of_fmap in Hf as (m & -> & _). by apply Hd.
  - apply list_elem_of_fmap in Hf as (m & -> & _). by apply Hd.
  - apply list_elem_of_singleton in Hf as ->. split; [done|]. cbn [snd].
    change (2 ^ 32) with 4294967296 in extent_fits. change (2 ^ 64) with 18446744073709551616. lia.
Qed.

Lemma field_bytes_nonempty f : field_bytes f <> [].
Proof. unfold field_bytes. destruct (varint_cons (N.lor (N.shiftl f.1 3) (wire f.2))) as (b & l & ->). done. Qed.

Lemma string_bytes_keys l : map String.string_of_list_byte (map String.list_byte_of_string l) = l.
Proof.
  rewrite map_map. rewrite <-(map_id l) at 2. apply map_ext. intros k. apply String.string_of_list_byte_of_string.
Qed.

Lemma length_btree_keys {V} (m : gmap string V) : length (btree_keys String.le m) = size m.
Proof. unfold btree_keys. rewrite merge_sort_Permutation. apply size_dom. Qed.

Lemma read_layer_bytes name features kt vt ms :
  small (length (fields_bytes (layer_fields name kt vt ms))) ->
  tables_ok (key_order features) (kt, vt) -> Forall value_fits vt ->
  Forall (fun m => feature_id m.1 < 2 ^ 64 /\ names (key_order features) vt m.2 (feature_properties m.1)) ms ->
  read_layer (fields_bytes (layer_fields name kt vt ms))
  = Some (mkReadLayer 2 name extent (map reader_of ms) (btree_keys String.le kt) (map raw_value vt)).
Proof.
  intros Hs Hok Hv Hms. pose proof (length_concat_ge field_bytes (layer_fields name kt vt ms) field_bytes_nonempty) as Hlen.
  change (length (concat _)) with (length (fields_bytes (layer_fields name kt vt ms))) in Hlen.
  unfold layer_fields in Hlen at 1. rewrite !length_app, !length_map, length_btree_keys in Hlen.
  pose proof (tables_size _ _ Hok) as Hsize. cbn [fst] in Hsize.
  destruct (delimited_layer name kt vt ms) as (D1 & D2 & D3 & D4).
  unfold read_layer. rewrite parse_fields_bytes by (by apply layer_fields_ok). cbn [mbind option_bind].
  rewrite D1, D2, D3, D4, layer_extent_field. change (varint_field 15 _) with (Some 2). cbn [mbind option_bind head].
  assert (Hin : forall k b, b ∈ delimited k (layer_fields name kt vt ms) -> small (length b)).
  { intros k b (f & Hf & Hb)%list_elem_of_omap. destruct f as [k' []]; try done. cbn [fst snd] in Hb.
    destruct (k' =? k); [|done]. simplify_eq. apply delimited_bytes in Hf. lia. }
  assert (Hfeat : mapM read_feature (map message_bytes ms) = Some (map reader_of ms)).
  { apply mapM_Some. rewrite <-D2 in *. rewrite D2. apply Forall2_fmap, Forall_Forall2_diag, Forall_forall.
    intros m Hm. destruct (proj1 (Forall_forall _ _) Hms m Hm) as [Hid Hn]. eapply read_message; try done; try lia.
    apply (Hin 2). rewrite D2. by apply list_elem_of_fmap_2. }
  assert (Hval : mapM read_value (map encode_value vt) = Some (map raw_value vt)).
  { apply mapM_Some. apply Forall2_fmap, Forall_Forall2_diag, Forall_forall. intros v Hin'.
    apply read_value_bytes; [by apply (proj1 (Forall_forall _ _) Hv)|]. apply (Hin 4). rewrite D4. by apply list_elem_of_fmap_2. }
  rewrite Hfeat. cbn [mbind option_bind]. rewrite Hval. cbn [mbind option_bind].
  by rewrite string_bytes_keys, String.string_of_list_byte_of_string.
Qed.

(** The key table is written in the order of a [BTreeMap], not of the indices. *)
Lemma written_keys ks kt vt : tables_ok ks (kt, vt) -> btree_keys String.le kt = merge_sort String.le ks.
Proof.
  intros [Hd _ Hi]. cbn [fst] in Hi. unfold btree_keys. apply merge_sort_string_perm, NoDup_Permutation; [apply NoDup_elements|done|].
  intros k. rewrite elem_of_elements, elem_of_dom. split.
  - intros [i Hk]. apply Hi in Hk. by eapply list_elem_of_lookup_2.
  - intros [i Hk]%list_elem_of_lookup. exists (N.of_nat i). apply Hi. by rewrite Nat2N.id.
Qed.

Lemma sorted_keys ks : StronglySorted String.le ks -> merge_sort String.le ks = ks.
Proof.
  intros Hs. apply (StronglySorted_unique String.le); [by apply StronglySorted_merge_sort; apply _|done|].
  apply merge_sort_Permutation.
Qed.

End Tile.

(** ** Winding *)

Section Winding.
Local Open Scope Z_scope.

Definition turn_of (p q : Z * Z) : Z := p.1 * q.2 - q.1 * p.2.

(** The sum of the cross products along a path, and of a closed ring: twice its
    area *)
Fixpoint path_sum (l : ring) : Z :=
  match l with p :: (q :: _) as rest => turn_of p q + path_sum rest | _ => 0 end.
Definition double_area (r : ring) : Z := path_sum (r ++ take 1 r).

Lemma turn_antisym p q : turn_of q p = - turn_of p q.
Proof. unfold turn_of. lia. Qed.

Lemma path_sum_snoc l p q : path_sum (l ++ [p; q]) = path_sum (l ++ [p]) + turn_of p q.
Proof.
  induction l as [|a l IH]; cbn [app path_sum]; [lia|]. destruct l as [|b l]; cbn [app path_sum] in *; lia.
Qed.

Lemma path_sum_reverse l : path_sum (reverse l) = - path_sum l.
Proof.
  induction l as [|p [|q l] IH]; [done..|]. rewrite !reverse_cons, <-app_assoc in *. cbn [app].
  rewrite path_sum_snoc, IH. cbn [path_sum]. rewrite (turn_antisym p q). lia.
Qed.

(** Reversing a ring negates its area. *)
Lemma double_area_reverse r : double_area (reverse r) = - double_area r.
Proof.
  destruct r as [|p l]; [done|]. unfold double_area. change (take 1 (p :: l)) with [p]. rewrite <-path_sum_reverse.
  rewrite reverse_app, (reverse_cons l p). change (reverse [p]) with [p]. cbn [app].
  destruct (reverse l) as [|h k]; [cbn [app take path_sum]; unfold turn_of; lia|].
  change (take 1 ((h :: k) ++ [p])) with [h]. rewrite <-app_assoc. cbn [app].
  change (h :: k ++ [p; h]) with ((h :: k) ++ [p; h]).
  rewrite path_sum_snoc. cbn [app path_sum]. lia.
Qed.

Definition sum_turns (f : nat -> Z) (n : nat) : Z := foldl (fun total i => total + f i) 0 (seq 0 n).

Lemma sum_turns_S f n : sum_turns f (S n) = sum_turns f n + f n.
Proof. unfold sum_turns. by rewrite seq_S, foldl_snoc. Qed.

Lemma path_sum_turns l n : (n < length l)%nat ->
  path_sum (take (S n) l) = sum_turns (fun i => turn_of (default (0, 0) (l !! i)) (default (0, 0) (l !! S i))) n.
Proof.
  induction n as [|n IH]; intros Hn.
  - destruct l; [cbn [length] in Hn; lia | done].
  - rewrite sum_turns_S, <-IH by lia.
    destruct (lookup_lt_is_Some_2 l (S n) Hn) as [q Hq]. destruct (lookup_lt_is_Some_2 l n ltac:(lia)) as [p Hp].
    rewrite (take_S_r l (S n) q), (take_S_r l n p) by done. rewrite <-app_assoc. cbn [app].
    by rewrite path_sum_snoc, Hp, Hq.
Qed.

Lemma ring_lookup (r : ring) i : (i < length r)%nat -> (r ++ take 1 r) !! i = r !! i /\ (r ++ take 1 r) !! S i = r !! (S i mod length r)%nat.
Proof.
  intros Hi. split; [by apply lookup_app_l|]. destruct (decide (S i = length r)) as [He|Hne].
  - rewrite He, lookup_app_r, Nat.sub_diag, Nat.Div0.mod_same by lia. by destruct r.
  - rewrite lookup_app_l by lia. by rewrite Nat.mod_small by lia.
Qed.

Lemma wrap_i64_id v : - 2 ^ 63 <= v < 2 ^ 63 -> wrap_i64 v = v.
Proof.
  unfold wrap_i64. intros Hv. change (2 ^ 63) with 9223372036854775808 in *. change (2 ^ 64) with 18446744073709551616.
  rewrite Z.mod_small; lia.
Qed.

Lemma cross_exact n r i : 0 <= n -> n * n < 2 ^ 62 -> Forall (on_grid n) r -> (i < length r)%nat ->
  cross r i = turn_of (default (0, 0) (r !! i)) (default (0, 0) (r !! (S i mod length r)%nat))
  /\ - (n * n) <= cross r i <= n * n.
Proof.
  intros Hn Hsq Hr Hi. unfold cross. replace (i + 1)%nat with (S i) by lia.
  assert (Hgrid : forall j, on_grid n (default (0, 0) (r !! j))).
  { intros j. destruct (r !! j) as [p|] eqn:E; [|unfold on_grid; cbn; lia]. cbn. unfold id. by eapply Forall_lookup. }
  pose proof (Hgrid i) as [[] []]. pose proof (Hgrid (S i mod length r)%nat) as [[] []]. unfold turn_of.
  clear Hgrid. set (q := default (0, 0) (r !! (S i mod length r)%nat)) in *. set (p := default (0, 0) (r !! i)) in *.
  assert (0 <= p.1 * q.2 <= n * n) by nia. assert (0 <= q.1 * p.2 <= n * n) by nia.
  change (2 ^ 62) with 4611686018427387904 in Hsq.
  rewrite (wrap_i64_id (p.1 * q.2)), (wrap_i64_id (q.1 * p.2)), wrap_i64_id by (change (2 ^ 63) with 9223372036854775808; lia).
  lia.
Qed.

Lemma signed_area_exact n r : 0 <= n -> Forall (on_grid n) r -> Z.of_nat (length r) * (n * n) < 2 ^ 62 -> r <> [] ->
  signed_area r = Z.quot (double_area r) 2.
Proof.
  intros Hn Hr Hb Hne. assert (Hlen : 1 <= Z.of_nat (length r)) by (destruct r; [done | cbn [length]; lia]).
  assert (Hsq : n * n < 2 ^ 62) by nia. unfold signed_area. f_equal.
  set (turn i := turn_of (default (0, 0) ((r ++ take 1 r) !! i)) (default (0, 0) ((r ++ take 1 r) !! S i))).
  assert (Hsum : forall k, (k <= length r)%nat ->
    foldl (fun total index => wrap_i64 (total + cross r index)) 0 (seq 0 k) = sum_turns turn k
    /\ - (Z.of_nat k * (n * n)) <= sum_turns turn k <= Z.of_nat k * (n * n)).
  { induction k as [|k IH]; intros Hk; [by cbn|]. destruct (IH ltac:(lia)) as [IH1 IH2].
    rewrite seq_S, foldl_snoc, IH1, sum_turns_S. cbn [Nat.add].
    destruct (cross_exact n r k Hn Hsq Hr ltac:(lia)) as [Hc Hcb]. destruct (ring_lookup r k ltac:(lia)) as [L1 L2].
    assert (Ht : turn k = cross r k) by (unfold turn; by rewrite L1, L2, Hc). rewrite Ht.
    change (2 ^ 62) with 4611686018427387904 in *. split; [|lia].
    apply wrap_i64_id. change (2 ^ 63) with 9223372036854775808. nia. }
  destruct (Hsum (length r) ltac:(lia)) as [-> _]. unfold double_area.
  assert (Hl : length (r ++ take 1 r) = S (length r)) by (rewrite length_app, length_take; lia).
  rewrite <-(firstn_all (r ++ take 1 r)), Hl. by rewrite path_sum_turns by lia.
Qed.

(** The bound on the area that keeps it inside an [i64] *)
Definition area_fits (n : Z) (r : ring) : Prop := Z.of_nat (length r) * (n * n) < 2 ^ 62.

Lemma prepared_winding n r e r' : 0 <= n -> Forall (on_grid n) r -> area_fits n r ->
  prepare_ring r e = Some r' ->
  if e then 0 <= signed_area r' else signed_area r' <= 0.
Proof.
  intros Hn Hr Hf. unfold prepare_ring. destruct (Nat.ltb_spec (length r) 3); [done|]. cbv zeta. intros Heq.
  assert (Hne : r <> []) by (by intros ->; cbn [length] in *; lia).
  pose proof (signed_area_exact n r Hn Hr Hf Hne) as Ha.
  assert (Har : signed_area (reverse r) = - signed_area r).
  { rewrite Ha, (signed_area_exact n); [|done|by apply Forall_reverse|by rewrite length_reverse|].
    - rewrite double_area_reverse. apply Z.quot_opp_l. done.
    - intros E. apply Hne. rewrite <-(reverse_involutive r), E. done. }
  simplify_eq. destruct e, (Z.eqb_spec (signed_area r) 0) as [Hz|Hz]; cbn [negb andb]; try lia.
  - destruct (Z.ltb_spec 0 (signed_area r)); cbn [negb]; lia.
  - destruct (Z.ltb_spec (signed_area r) 0); cbn [negb]; lia.
Qed.
End Winding.

(** ** Properties *)

(** C6: An encoded tile is read back by a reader of the vector tile format: the
    layer's version, name, extent and keys, and one feature for every feature with
    a ring left after clipping, in order, with its id, the polygon type and exactly
    its projected rings (the delta- and zigzag-coded command stream loses nothing).
    When the keys are first used in increasing order, the tags of every feature
    resolve to its own properties, each value being the property's or one equal to
    it under [==]. *)
Theorem tile_roundtrip `{Libm} name z x y extent features :
  extent < 2 ^ 32 -> surviving z x y extent features <> [] ->
  Forall (fun f => feature_id f < 2 ^ 64 /\ Forall (fun p => value_fits p.2) (feature_properties f)) features ->
  N.of_nat (length (encode_polygon_tile name z x y extent features)) < 2 ^ 61 ->
  exists layer, read_tile (encode_polygon_tile name z x y extent features) = Some layer
    /\ layer_version layer = 2 /\ read_name layer = name /\ layer_extent layer = extent
    /\ layer_keys layer = merge_sort String.le (key_order z x y extent features)
    /\ Forall2 (fun f r =>
         read_id r = feature_id f /\ read_type r = 3 /\ read_geometry r = feature_rings z x y extent f
         /\ (StronglySorted String.le (key_order z x y extent features) ->
             exists read, attributes_of layer (read_tags r) = Some read
                          /\ Forall2 same_attribute (feature_properties f) read))
         (surviving z x y extent features) (layer_features layer).
Proof.
  intros He Hne Hf Hs.
  destruct (encode_polygon_tile_ok z x y extent He value_fits name features Hne) as (kt & vt & ms & Hv & Htile & Hms & Hok & Hn).
  { eapply Forall_impl; [exact Hf | by intros f []]. }
  rewrite Htile in Hs |- *. set (layer := fields_bytes (layer_fields z x y extent name kt vt ms)) in *.
  assert (Hlayer : small (length layer)).
  { pose proof (delimited_bytes 3 layer [(3, Delimited layer)] (list_elem_of_here _ _)). lia. }
  assert (Hread : read_tile (fields_bytes [(3, Delimited layer)]) = read_layer layer).
  { unfold read_tile. rewrite parse_fields_bytes; [done|]. constructor; [|done]. split; [done|]. by apply small_u64. }
  assert (Hmembers : Forall (fun m => feature_id m.1 < 2 ^ 64
            /\ names (key_order z x y extent features) vt m.2 (feature_properties m.1)) ms).
  { apply Forall_forall. intros m Hm. split; [|by apply (proj1 (Forall_forall _ _) Hn)].
    assert (Hin : m.1 ∈ surviving z x y extent features) by (rewrite <-Hms; by apply list_elem_of_fmap_2).
    apply list_elem_of_filter in Hin as [_ Hin]. by apply (proj1 (Forall_forall _ _) Hf). }
  rewrite Hread. unfold layer. rewrite (read_layer_bytes z x y extent He name features kt vt ms) by done.
  eexists. split; [reflexivity|]. cbn [layer_version read_name layer_extent layer_keys layer_features].
  split_and!; [done..|by eapply written_keys|]. rewrite <-Hms.
  apply Forall2_fmap, Forall_Forall2_diag, Forall_forall. intros m Hm. split_and!; [done..|].
  intros Hsorted. apply (attributes_named _ (key_order z x y extent features) vt); cbn.
  - rewrite (written_keys _ _ _ Hok). by apply sorted_keys.
  - done.
  - by apply (proj1 (Forall_forall _ _) Hn).
Qed.

(** The rings a part is encoded with are closed curves on the tile's grid: every
    ring has at least three points, all within [0, extent]; the exterior comes
    first with a signed area that is not negative, and every hole follows with one
    that is not positive, whatever the winding of the input. *)
Theorem part_rings_wound `{Libm} z x y extent p :
  extent < 2 ^ 32 ->
  (forall r, r = exterior p \/ r ∈ holes p -> area_fits (Z.of_N extent) (project_ring r z x y extent)) ->
  match part_rings z x y extent p with
  | [] => True
  | outer :: inner => (0 <= signed_area outer)%Z /\ Forall (fun r => signed_area r <= 0)%Z inner
  end /\ Forall (fun r => (3 <= length r)%nat /\ Forall (on_grid (Z.of_N extent)) r) (part_rings z x y extent p).
Proof.
  intros He Hfit. split; [|by apply part_rings_on_grid]. unfold part_rings.
  destruct (prepare_ring _ true) as [r|] eqn:E; [|done]. split.
  - apply (prepared_winding (Z.of_N extent) _ true) in E; [done | lia | by apply project_ring_on_grid |]. apply Hfit. by left.
  - apply Forall_forall. intros r' (h & Hh & Hp)%list_elem_of_omap.
    apply (prepared_winding (Z.of_N extent) _ false) in Hp; [done | lia | by apply project_ring_on_grid |].
    apply Hfit. by right.
Qed.

(** A ring that no edge cuts is not changed by clipping. *)
Lemma clip_edge_inside e r : (3 <= length r)%nat -> Forall (fun p => inside e p = true) r ->
  clip_edge (Some r) e = Some r.
Proof.
  intros Hl Hr. unfold clip_edge. cbn [mbind option_bind].
  replace (length r <? 3)%nat with false by (symmetry; apply Nat.ltb_ge; lia). f_equal.
  assert (Hprev : inside e (default (f64_zero, f64_zero) (last r)) = true).
  { destruct (last r) as [p|] eqn:E; [|by apply last_None in E as ->; cbn [length] in Hl; lia].
    apply last_Some in E as [l ->]. apply Forall_app in Hr as [_ Hr]. by inversion_clear Hr. }
  assert (Hrun : forall l q, inside e q = true -> (foldl (clip_point e) (l, q) r).1 = l ++ r); [|by rewrite Hrun].
  clear Hl Hprev. induction Hr as [|p r Hp Hr IH]; intros l q Hq; [by rewrite app_nil_r|].
  cbn [foldl]. unfold clip_point at 2. rewrite Hp, Hq. cbn [eqb]. rewrite IH by done. by rewrite <-app_assoc.
Qed.

Theorem clip_ring_inside r lo hi : (3 <= length r)%nat ->
  Forall (fun p => f64_leb lo.1 p.1 = true /\ f64_leb p.1 hi.1 = true
                   /\ f64_leb lo.2 p.2 = true /\ f64_leb p.2 hi.2 = true) r ->
  clip_ring r lo hi = r.
Proof.
  intros Hl Hr. unfold clip_ring. cbn [foldl].
  assert (Hin : forall e, e = MinX lo.1 \/ e = MaxX hi.1 \/ e = MinY lo.2 \/ e = MaxY hi.2 ->
    clip_edge (Some r) e = Some r).
  { intros e He. apply clip_edge_inside; [done|]. eapply Forall_impl; [exact Hr|].
    intros p (H1 & H2 & H3 & H4). by destruct He as [->|[->|[->| ->]]]. }
  rewrite !Hin by tauto.
  by replace (length r <? 3)%nat with false by (symmetry; apply Nat.ltb_ge; lia).
Qed.

(** Above zoom 15 the projection answers as for zoom 15. *)
Theorem zoom_saturates `{Libm} lon lat z : 15 <= z ->
  lonlat_to_tile_fraction lon lat z = lonlat_to_tile_fraction lon lat 15.
Proof. intros Hz. unfold lonlat_to_tile_fraction. by rewrite (N.min_r z 15) by done. Qed.

(** *** Samples *)

(** A projection simple enough to evaluate: the tile row is linear in latitude. *)
Definition flat_libm : Libm := {|
  f64_tan := fun x => x; f64_cos := fun _ => f64_of_Z 1; f64_ln := fun x => f64_sub x (f64_of_Z 1) |}.

Definition degrees (p : Z * Z) : point := (f64_of_Z p.1, f64_of_Z p.2).
Definition sample_part : TilePolygonPart := {|
  exterior := map degrees [(-90, -60); (90, -60); (90, 60); (-90, 60)]%Z;
  holes := [map degrees [(-10, -10); (10, -10); (10, 10)]%Z] |}.
Definition sample_feature (id : N) (props : list (string * TileValue)) : TilePolygonFeature :=
  {| feature_id := id; parts := [sample_part]; feature_properties := props |}.
Definition sample_wards : list TilePolygonFeature :=
  [sample_feature 1 [("name", Text "Naka"); ("population", U64 93000)];
   sample_feature 2 [("name", Text "Higashi"); ("ratio", F64 (f64_lit 1 (-1)))];
   {| feature_id := 3; parts := []; feature_properties := [] |}].

Lemma tile_roundtrip_witness :
  exists layer, read_tile (@encode_polygon_tile flat_libm "wards" 0 0 0 4096 sample_wards) = Some layer
    /\ read_name layer = "wards" /\ map read_id (layer_features layer) = [1; 2]
    /\ exists r, r ∈ layer_features layer
       /\ attributes_of layer (read_tags r) = Some [("name", RawString "Naka"); ("population", RawUint 93000)].
Proof.
  destruct (@tile_roundtrip flat_libm "wards" 0 0 0 4096 sample_wards) as (layer & Hread & _ & Hname & _ & _ & Hf).
  - reflexivity.
  - vm_compute. discriminate.
  - repeat constructor.
  - vm_compute. reflexivity.
  - assert (Hl : layer = default (mkReadLayer 0 "" 0 [] [] [])
      (read_tile (@encode_polygon_tile flat_libm "wards" 0 0 0 4096 sample_wards))) by (by rewrite Hread).
    exists layer. split; [exact Hread|]. split; [exact Hname|]. rewrite Hl. split; [vm_compute; reflexivity|].
    eexists. split; [vm_compute; apply list_elem_of_here | vm_compute; reflexivity].
Defined.

Lemma part_rings_wound_witness : exists outer inner,
  @part_rings flat_libm 0 0 0 4096 sample_part = outer :: inner
  /\ (0 <= signed_area outer)%Z /\ Forall (fun r => signed_area r <= 0)%Z inner.
Proof.
  destruct (@part_rings_wound flat_libm 0 0 0 4096 sample_part) as [Hw _].
  - reflexivity.
  - intros r [->|Hr]; [vm_compute; reflexivity|].
    apply list_elem_of_singleton in Hr as ->. vm_compute. reflexivity.
  - destruct (@part_rings flat_libm 0 0 0 4096 sample_part) as [|outer inner] eqn:E.
    + vm_compute in E. discriminate.
    + exists outer, inner. split; [reflexivity | exact Hw].
Defined.

Lemma clip_ring_inside_witness :
  clip_ring (exterior sample_part) (degrees (-180, -90)%Z) (degrees (180, 90)%Z) = exterior sample_part.
Proof.
  apply clip_ring_inside; [vm_compute; lia|]. repeat constructor.
Defined.

Lemma zoom_saturates_witness : 15 <= 20 /\ @lonlat_to_tile_fraction flat_libm f64_zero f64_zero 20
  = @lonlat_to_tile_fraction flat_libm f64_zero f64_zero 15.
Proof. split; [done | by apply (@zoom_saturates flat_libm)]. Defined.

(** The key table is written in the order of the keys, but the tags hold the order
    of insertion: with [population] before [name], the reader gives each value to
    the other key. *)
Definition unsorted_ward : list TilePolygonFeature :=
  [sample_feature 1 [("population", U64 93000); ("name", Text "Naka")]].

Theorem unsorted_keys_are_swapped :
  exists layer r, read_tile (@encode_polygon_tile flat_libm "wards" 0 0 0 4096 unsorted_ward) = Some layer
    /\ layer_features layer = [r]
    /\ attributes_of layer (read_tags r) = Some [("name", RawUint 93000); ("population", RawString "Naka")].
Proof. eexists _, _. vm_compute. split_and!; reflexivity. Qed.

(** A ring of half a unit of area keeps the winding it came with: the doubled area
    is halved before its sign is looked at. *)
Theorem half_unit_ring_keeps_winding :
  prepare_ring [(0, 0); (0, 1); (1, 0)]%Z true = Some [(0, 0); (0, 1); (1, 0)]%Z
  /\ double_area [(0, 0); (0, 1); (1, 0)]%Z = (-1)%Z.
Proof. by vm_compute. Qed.
