(* ===== verification/Governance.v ===== *)
(** * Organization governance (crates/genegis-collab/src/governance.rs)

    Roles, approval chains, retention and the hash-chained audit log. The methods
    taking [&mut self] are computations of the state-error monad, so what a
    failing call leaves behind is part of the model. The digests (serde_json and
    SHA-256) and the parsing of RFC 3339 time stamps (chrono) are parameters. *)

From S2P Require Import Prelude RustStd.
Local Open Scope N_scope.

(** ** Data *)

Inductive GovernanceCapability :=
| View | Execute | Publish | ManageProjects | ManageMembership | Approve | ExportAudit
| ManageRetention.
#[export] Instance GovernanceCapability_eq_dec : EqDecision GovernanceCapability.
Proof. solve_decision. Defined.
#[export] Instance GovernanceCapability_countable : Countable GovernanceCapability.
Proof.
  refine (inj_countable'
    (fun c => match c with View => 0 | Execute => 1 | Publish => 2 | ManageProjects => 3
      | ManageMembership => 4 | Approve => 5 | ExportAudit => 6 | ManageRetention => 7 end)
    (fun n => match n with 0 => View | 1 => Execute | 2 => Publish | 3 => ManageProjects
      | 4 => ManageMembership | 5 => Approve | 6 => ExportAudit | _ => ManageRetention end) _).
  by intros [].
Defined.

Inductive GovernedAction :=
| ViewProject | ExecuteWorkflow | PublishResult | ChangeProjectPolicy | ChangeMembership
| ExportAuditLog | ApplyRetention.
#[export] Instance GovernedAction_eq_dec : EqDecision GovernedAction.
Proof. solve_decision. Defined.
#[export] Instance GovernedAction_countable : Countable GovernedAction.
Proof.
  refine (inj_countable'
    (fun a => match a with ViewProject => 0 | ExecuteWorkflow => 1 | PublishResult => 2
      | ChangeProjectPolicy => 3 | ChangeMembership => 4 | ExportAuditLog => 5 | ApplyRetention => 6 end)
    (fun n => match n with 0 => ViewProject | 1 => ExecuteWorkflow | 2 => PublishResult
      | 3 => ChangeProjectPolicy | 4 => ChangeMembership | 5 => ExportAuditLog
      | _ => ApplyRetention end) _).
  by intros [].
Defined.

Definition capability (a : GovernedAction) : GovernanceCapability :=
  match a with
  | ViewProject => View
  | ExecuteWorkflow => Execute
  | PublishResult => Publish
  | ChangeProjectPolicy => ManageProjects
  | ChangeMembership => ManageMembership
  | ExportAuditLog => ExportAudit
  | ApplyRetention => ManageRetention
  end.

Record OrganizationRole := mkRole { role_id : string; capabilities : gset GovernanceCapability }.
Record OrganizationMember := mkMember {
  subject_id : string; member_role_id : string; active : bool }.
Record OrganizationProject := mkProject {
  project_id : string; project_organization_id : string; classification : string }.
Record RetentionPolicy := mkRetention {
  minimum_days : N; maximum_days : N; protected_classes : gset string }.
Record OrganizationPolicy := mkPolicy {
  op_schema_version : string;
  organization_id : string;
  policy_version : string;
  roles : gmap string OrganizationRole;
  approval_thresholds : gmap GovernedAction N;
  retention : RetentionPolicy }.

Record PendingApproval := mkApproval {
  pa_id : string;
  pa_project_id : string;
  pa_action : GovernedAction;
  resource_digest : string;
  requested_by : string;
  requested_at : string;
  required_approvals : N;
  approvers : gset string;
  completed_at : option string;
  pa_digest : string }.

Record AuditEvent := mkEvent {
  sequence : N;
  occurred_at : string;
  actor_id : string;
  ev_project_id : option string;
  event_type : string;
  subject_digest : string;
  previous_event_digest : option string;
  event_digest : string }.
#[export] Instance AuditEvent_eq_dec : EqDecision AuditEvent.
Proof. solve_decision. Defined.

Inductive GovernanceDecision :=
| Authorized (audit_event_digest : string)
| ApprovalRequired (approval : PendingApproval)
| Approved (approval : PendingApproval).

Record RetentionRecord := mkRecord {
  record_id : string; record_class : string; created_at : string; legal_hold : bool;
  record_digest : string }.
Inductive RetentionDisposition :=
| Keep (record_id reason : string)
| EligibleForDeletion (record_id digest : string).

Record AuditExport := mkExport {
  ex_schema_version : string;
  ex_organization_id : string;
  ex_policy_digest : string;
  exported_at : string;
  ex_events : list AuditEvent;
  export_digest : string }.

Record GovernanceState := mkState {
  policy : OrganizationPolicy;
  policy_digest : string;
  members : gmap string OrganizationMember;
  projects : gmap string OrganizationProject;
  approvals : gmap string PendingApproval;
  audit_events : list AuditEvent }.

Inductive GovernanceError :=
| Invalid (reason : string)
| Denied (reason : string)
| DigestMismatch
| Serialization (text : string).

(** ** What the crates chrono, serde_json and sha2 provide

    [parse_rfc3339] gives the instant in nanoseconds; a digest is the SHA-256
    identity of the value's JSON text, or the text of a serialization error. *)
Class GovernanceHost := {
  parse_rfc3339 : string -> option Z;
  policy_digest_of : OrganizationPolicy -> result string string;
  request_digest_of : string -> GovernedAction -> string -> string -> string -> result string string;
  approval_digest_of : PendingApproval -> result string string;
  event_digest_of : AuditEvent -> result string string;
  export_digest_of : AuditExport -> result string string }.

Section Governance.
Context `{GovernanceHost}.

Abbreviation gov := (st GovernanceState GovernanceError).

(** ** Checks *)

Definition semantic_digest (r : result string string) : result GovernanceError string :=
  map_err Serialization r.

Definition parse_time (value : string) : result GovernanceError Z :=
  ok_or (parse_rfc3339 value) (Invalid "timestamp must be RFC 3339").

Definition require_digest (value : string) : result GovernanceError unit :=
  err_if (negb (sha256_identity value)) (Invalid "digest must be SHA-256").

Definition validate_policy (p : OrganizationPolicy) : result GovernanceError unit :=
  err_if
    (negb (bool_decide (op_schema_version p = "0.1.0"))
     || is_blank (organization_id p) || is_blank (policy_version p)
     || bool_decide (roles p = ∅)
     || (maximum_days (retention p) <? minimum_days (retention p))
     || (maximum_days (retention p) =? 0)
     || existsb (fun '(id, role) => negb (bool_decide (id = role_id role)) || is_blank id)
          (map_to_list (roles p)))
    (Invalid "organization policy is invalid").

(** The digest is computed over the value with its digest field cleared. *)
Definition clear_approval_digest (a : PendingApproval) : PendingApproval :=
  {| pa_id := pa_id a; pa_project_id := pa_project_id a; pa_action := pa_action a;
     resource_digest := resource_digest a; requested_by := requested_by a;
     requested_at := requested_at a; required_approvals := required_approvals a;
     approvers := approvers a; completed_at := completed_at a; pa_digest := "" |}.
Definition approval_digest (a : PendingApproval) : result GovernanceError string :=
  semantic_digest (approval_digest_of (clear_approval_digest a)).

Definition with_event_digest (d : string) (e : AuditEvent) : AuditEvent :=
  {| sequence := sequence e; occurred_at := occurred_at e; actor_id := actor_id e;
     ev_project_id := ev_project_id e; event_type := event_type e;
     subject_digest := subject_digest e; previous_event_digest := previous_event_digest e;
     event_digest := d |}.
Definition audit_event_digest (e : AuditEvent) : result GovernanceError string :=
  semantic_digest (event_digest_of (with_event_digest "" e)).

Definition require_project (s : GovernanceState) (project : string) : result GovernanceError unit :=
  match projects s !! project with
  | Some p =>
      err_if (negb (bool_decide (project_organization_id p = organization_id (policy s))))
        (Denied "project is outside the organization boundary")
  | None => Err (Denied "project is outside the organization boundary")
  end.

Definition require_capability (s : GovernanceState) (subject : string) (c : GovernanceCapability)
    : result GovernanceError unit :=
  member ← ok_or (m ← members s !! subject; if active m then Some m else None)
             (Denied "subject is not an active member");
  role ← ok_or (roles (policy s) !! member_role_id member)
           (Denied "member role is absent from policy");
  err_if (negb (bool_decide (c ∈ capabilities role)))
    (Denied "role does not grant the required capability").

(** [for (index, event) in events.iter().enumerate()] *)
Fixpoint verify_from (index : N) (previous : option string) (events : list AuditEvent)
    : result GovernanceError unit :=
  match events with
  | [] => Ok tt
  | e :: events =>
      if negb (sequence e =? wrap 64 (index + 1))
         || negb (bool_decide (previous_event_digest e = previous))
      then Err DigestMismatch
      else
        d ← audit_event_digest e;
        err_if (negb (bool_decide (d = event_digest e))) DigestMismatch;;
        verify_from (index + 1) (Some (event_digest e)) events
  end.
Definition verify_audit_chain (events : list AuditEvent) : result GovernanceError unit :=
  verify_from 0 None events.

(** ** Operations *)

Definition with_members m (s : GovernanceState) :=
  mkState (policy s) (policy_digest s) m (projects s) (approvals s) (audit_events s).
Definition with_projects p (s : GovernanceState) :=
  mkState (policy s) (policy_digest s) (members s) p (approvals s) (audit_events s).
Definition with_approvals a (s : GovernanceState) :=
  mkState (policy s) (policy_digest s) (members s) (projects s) a (audit_events s).
Definition with_events e (s : GovernanceState) :=
  mkState (policy s) (policy_digest s) (members s) (projects s) (approvals s) e.

Definition governance_new (p : OrganizationPolicy) : result GovernanceError GovernanceState :=
  validate_policy p;;
  digest ← semantic_digest (policy_digest_of p);
  Ok (mkState p digest ∅ ∅ ∅ []).

Definition add_member (member : OrganizationMember) : gov unit :=
  s ← get;
  lift (err_if (is_blank (subject_id member)
                || negb (bool_decide (is_Some (roles (policy s) !! member_role_id member))))
          (Invalid "member identity or role is invalid"));;
  modify (fun s => with_members (<[subject_id member := member]> (members s)) s).

Definition add_project (project : OrganizationProject) : gov unit :=
  s ← get;
  lift (err_if (is_blank (project_id project)
                || negb (bool_decide (project_organization_id project = organization_id (policy s)))
                || is_blank (classification project))
          (Invalid "project ownership is invalid"));;
  modify (fun s => with_projects (<[project_id project := project]> (projects s)) s).

Definition append_event (actor : string) (project : option string) (type subject at' : string)
    : gov AuditEvent :=
  s ← get;
  let event :=
    {| sequence := wrap 64 (N.of_nat (length (audit_events s)) + 1);
       occurred_at := at'; actor_id := actor; ev_project_id := project; event_type := type;
       subject_digest := subject;
       previous_event_digest := event_digest <$> last (audit_events s);
       event_digest := "" |} in
  digest ← lift (audit_event_digest event);
  let event := with_event_digest digest event in
  modify (fun s => with_events (audit_events s ++ [event]) s);;
  mret event.

Definition authorize (actor project : string) (action : GovernedAction) (resource at' : string)
    : gov GovernanceDecision :=
  lift (parse_time at');;
  lift (require_digest resource);;
  s ← get;
  lift (require_project s project);;
  lift (require_capability s actor (capability action));;
  let threshold := default 0 (approval_thresholds (policy s) !! action) in
  if threshold =? 0 then
    event ← append_event actor (Some project) "authorized" resource at';
    mret (Authorized (event_digest event))
  else
    id ← lift (semantic_digest (request_digest_of project action resource actor at'));
    let approval :=
      {| pa_id := id; pa_project_id := project; pa_action := action; resource_digest := resource;
         requested_by := actor; requested_at := at'; required_approvals := threshold;
         approvers := ∅; completed_at := None; pa_digest := "" |} in
    digest ← lift (approval_digest approval);
    let approval := mkApproval id project action resource actor at' threshold ∅ None digest in
    modify (fun s => with_approvals (<[id := approval]> (approvals s)) s);;
    append_event actor (Some project) "approval_requested" digest at';;
    mret (ApprovalRequired approval).

Definition set_progress (a : PendingApproval) (by' : gset string) (completed : option string)
    (digest : string) : PendingApproval :=
  mkApproval (pa_id a) (pa_project_id a) (pa_action a) (resource_digest a) (requested_by a)
    (requested_at a) (required_approvals a) by' completed digest.

(** The approval is changed in place: the new approver, the completion and the
    digest are three writes, and the digest may fail between them. *)
Definition approve (approval_id approver at' : string) : gov GovernanceDecision :=
  lift (parse_time at');;
  s ← get;
  lift (require_capability s approver Approve);;
  approval ← lift (ok_or (approvals s !! approval_id) (Invalid "unknown approval"));
  lift (err_if (bool_decide (is_Some (completed_at approval))
                || bool_decide (requested_by approval = approver)
                || bool_decide (approver ∈ approvers approval))
          (Denied "approval must be pending, distinct, and independent"));;
  let by' := {[approver]} ∪ approvers approval in
  let completed :=
    if required_approvals approval <=? N.of_nat (size by') then Some at'
    else completed_at approval in
  let approval := set_progress approval by' completed (pa_digest approval) in
  modify (fun s => with_approvals (<[approval_id := approval]> (approvals s)) s);;
  digest ← lift (approval_digest approval);
  let approval := set_progress approval by' completed digest in
  modify (fun s => with_approvals (<[approval_id := approval]> (approvals s)) s);;
  append_event approver (Some (pa_project_id approval))
    (if bool_decide (is_Some completed) then "approval_completed" else "approval_recorded")
    digest at';;
  mret (if bool_decide (is_Some completed) then Approved approval else ApprovalRequired approval).

Definition nanoseconds_per_day : Z := 86400 * 1000000000.

Definition dispose (s : GovernanceState) (as_of : Z) (r : RetentionRecord)
    : result GovernanceError RetentionDisposition :=
  require_digest (record_digest r);;
  created ← parse_time (created_at r);
  let age := (as_of - created)%Z in
  err_if (age <? 0)%Z (Invalid "record timestamp is in the future");;
  let protected := legal_hold r || bool_decide (record_class r ∈ protected_classes (retention (policy s))) in
  Ok (if protected
         || (Z.quot age nanoseconds_per_day <? Z.of_N (maximum_days (retention (policy s))))%Z
      then Keep (record_id r)
             (if protected then "protected_or_legal_hold" else "within_retention_window")
      else EligibleForDeletion (record_id r) (record_digest r)).

Definition retention_plan (s : GovernanceState) (records : list RetentionRecord) (as_of : string)
    : result GovernanceError (list RetentionDisposition) :=
  as_of ← parse_time as_of;
  try_map (dispose s as_of) records.

Definition export_audit (actor at' : string) : gov AuditExport :=
  lift (parse_time at');;
  s ← get;
  lift (require_capability s actor ExportAudit);;
  let digest := policy_digest s in
  append_event actor None "audit_exported" digest at';;
  s ← get;
  lift (verify_audit_chain (audit_events s));;
  let export :=
    {| ex_schema_version := "0.1.0"; ex_organization_id := organization_id (policy s);
       ex_policy_digest := digest; exported_at := at'; ex_events := audit_events s;
       export_digest := "" |} in
  d ← lift (semantic_digest (export_digest_of export));
  mret (mkExport "0.1.0" (organization_id (policy s)) digest at' (audit_events s) d).

(** * Theory *)

(** ** The audit chain *)

(** An event that continues a chain *)
Definition chained (index : N) (previous : option string) (e : AuditEvent) : Prop :=
  sequence e = wrap 64 (index + 1) /\ previous_event_digest e = previous
  /\ audit_event_digest e = Ok (event_digest e).

Lemma verify_from_cons index previous e events :
  verify_from index previous (e :: events) = Ok tt <->
  chained index previous e /\ verify_from (index + 1) (Some (event_digest e)) events = Ok tt.
Proof.
  cbn [verify_from]. unfold chained.
  destruct (N.eqb_spec (sequence e) (wrap 64 (index + 1))) as [Hs|Hs]; cbn [negb orb]; [|naive_solver].
  destruct (bool_decide_reflect (previous_event_digest e = previous)) as [Hp|Hp]; cbn [negb]; [|naive_solver].
  rewrite bind_ok. setoid_rewrite seq_ok. setoid_rewrite err_if_ok.
  setoid_rewrite negb_false_iff. setoid_rewrite bool_decide_eq_true. split.
  - intros (d & Hd & -> & Hv). done.
  - intros [(_ & _ & Hd) Hv]. by exists (event_digest e).
Qed.

Lemma verify_from_snoc index previous events e :
  verify_from index previous (events ++ [e]) = Ok tt <->
  verify_from index previous events = Ok tt
  /\ chained (index + N.of_nat (length events))
       (match last events with Some l => Some (event_digest l) | None => previous end) e.
Proof.
  revert index previous. induction events as [|a events IH]; intros index previous; cbn [app].
  - rewrite verify_from_cons. cbn [verify_from length last]. rewrite N.add_0_r. naive_solver.
  - rewrite !verify_from_cons, IH, last_cons. cbn [length]. rewrite Nat2N.inj_succ.
    replace (index + 1 + N.of_nat (length events)) with (index + N.succ (N.of_nat (length events))) by lia.
    destruct (last events); naive_solver.
Qed.

Lemma verify_chain_snoc events e :
  verify_audit_chain (events ++ [e]) = Ok tt <->
  verify_audit_chain events = Ok tt
  /\ chained (N.of_nat (length events)) (event_digest <$> last events) e.
Proof.
  unfold verify_audit_chain. rewrite verify_from_snoc, N.add_0_l. by destruct (last events).
Qed.

Lemma audit_digest_cleared d e : audit_event_digest (with_event_digest d e) = audit_event_digest e.
Proof. done. Qed.

(** An event is appended whole or the state is left alone. *)
Lemma append_event_cases actor project type subject at' s r s' :
  append_event actor project type subject at' s = (r, s') ->
  match r with
  | Err _ => s' = s
  | Ok e => s' = with_events (audit_events s ++ [e]) s
      /\ chained (N.of_nat (length (audit_events s))) (event_digest <$> last (audit_events s)) e
      /\ actor_id e = actor /\ ev_project_id e = project /\ event_type e = type
      /\ subject_digest e = subject
  end.
Proof.
  unfold append_event, mbind, st_bind, get, lift, modify, mret, st_ret. cbv zeta.
  set (event := {| sequence := _ |}).
  destruct (audit_event_digest event) as [d|err] eqn:Hd; intros [= <- <-]; [|done].
  split; [done|]. split; [|done]. split; [done|]. split; [done|].
  by rewrite audit_digest_cleared.
Qed.

(** ** The invariant *)

(** A request is never approved by its own requester, and it is closed exactly
    when it has the approvers it requires. *)
Definition approval_ok (a : PendingApproval) : Prop :=
  requested_by a ∉ approvers a /\ 0 < required_approvals a
  /\ (completed_at a = None -> N.of_nat (size (approvers a)) < required_approvals a)
  /\ (is_Some (completed_at a) -> required_approvals a <= N.of_nat (size (approvers a))).

Record governance_wf (s : GovernanceState) : Prop := mkWf {
  wf_policy : validate_policy (policy s) = Ok tt;
  wf_chain : verify_audit_chain (audit_events s) = Ok tt;
  wf_approvals : forall id a, approvals s !! id = Some a -> pa_id a = id /\ approval_ok a;
  wf_members : forall id m, members s !! id = Some m ->
    subject_id m = id /\ is_Some (roles (policy s) !! member_role_id m);
  wf_projects : forall id p, projects s !! id = Some p ->
    project_id p = id /\ project_organization_id p = organization_id (policy s) }.

(** One call of an operation, whatever it returns. *)
Inductive step (s : GovernanceState) : GovernanceState -> Prop :=
| step_member m : step s (add_member m s).2
| step_project p : step s (add_project p s).2
| step_authorize actor project action resource at' :
    step s (authorize actor project action resource at' s).2
| step_approve id approver at' : step s (approve id approver at' s).2
| step_export actor at' : step s (export_audit actor at' s).2.

Inductive reachable (s0 : GovernanceState) : GovernanceState -> Prop :=
| reach_new : reachable s0 s0
| reach_step s s' : reachable s0 s -> step s s' -> reachable s0 s'.

(** How a state may grow: the invariant survives, the policy is fixed and the
    log is only appended to. *)
Definition grows (s s' : GovernanceState) : Prop :=
  (governance_wf s -> governance_wf s')
  /\ policy s' = policy s /\ policy_digest s' = policy_digest s
  /\ audit_events s `prefix_of` audit_events s'.

#[local] Instance grows_preorder : PreOrder grows.
Proof.
  split.
  - intros s. split_and!; done.
  - intros s1 s2 s3 (H1 & P1 & D1 & E1) (H2 & P2 & D2 & E2).
    split_and!; [tauto | congruence | congruence | by etrans].
Qed.

Lemma append_event_grows actor project type subject at' s :
  grows s (append_event actor project type subject at' s).2.
Proof.
  destruct (append_event actor project type subject at' s) as [r s'] eqn:Happ.
  apply append_event_cases in Happ. destruct r as [e|]; [|by subst].
  destruct Happ as (-> & Hc & _). split_and!; [|done|done|by eexists].
  intros [W1 W2 W3 W4 W5]. split; try done. by apply verify_chain_snoc.
Qed.

Lemma with_approval_grows s id a :
  (governance_wf s -> pa_id a = id /\ approval_ok a) ->
  grows s (with_approvals (<[id := a]> (approvals s)) s).
Proof.
  intros Ha. split_and!; [|done..]. intros W. specialize (Ha W). destruct W as [W1 W2 W3 W4 W5].
  split; try done. intros id' a'. cbn [with_approvals approvals].
  rewrite lookup_insert_Some. intros [[<- <-]|[_ ?]]; [done | by apply W3].
Qed.

(** Each lifted check either stops the operation, with the state as it was, or
    passes; [step_lift] walks through a body that way. *)
Lemma lift_bind_grows {A B} (r : result GovernanceError A) (f : A -> gov B) s :
  (forall a, r = Ok a -> grows s ((f a) s).2) -> grows s ((lift r ≫= f) s).2.
Proof.
  intros Hf. unfold mbind, st_bind, lift. destruct r as [a|e]; [by apply Hf | reflexivity].
Qed.

Lemma bind_grows {A B} (m : gov A) (f : A -> gov B) s :
  grows s (m s).2 -> (forall a, grows (m s).2 ((f a) (m s).2).2) -> grows s ((m ≫= f) s).2.
Proof.
  intros Hm Hf. unfold mbind, st_bind. destruct (m s) as [[a|e] s'] eqn:Hs; cbn [snd] in *.
  - etrans; [exact Hm | apply Hf].
  - done.
Qed.

Lemma add_member_grows m s : grows s (add_member m s).2.
Proof.
  unfold add_member. unfold mbind at 1, st_bind at 1, get. apply lift_bind_grows.
  intros [] Hc%err_if_ok. apply orb_false_iff in Hc as [_ Hr].
  apply negb_false_iff, bool_decide_eq_true in Hr. cbn. split_and!; [|done..].
  intros [W1 W2 W3 W4 W5]. split; try done. intros id m'. cbn.
  rewrite lookup_insert_Some. intros [[<- <-]|[_ ?]]; [done | by apply W4].
Qed.

Lemma add_project_grows p s : grows s (add_project p s).2.
Proof.
  unfold add_project. unfold mbind at 1, st_bind at 1, get. apply lift_bind_grows.
  intros [] Hc%err_if_ok. rewrite !orb_false_iff in Hc. destruct Hc as [[_ Ho] _].
  apply negb_false_iff, bool_decide_eq_true in Ho. cbn. split_and!; [|done..].
  intros [W1 W2 W3 W4 W5]. split; try done. intros id p'. cbn.
  rewrite lookup_insert_Some. intros [[<- <-]|[_ ?]]; [done | by apply W5].
Qed.

Lemma authorize_grows actor project action resource at' s :
  grows s (authorize actor project action resource at' s).2.
Proof.
  unfold authorize. apply lift_bind_grows. intros t Ht. apply lift_bind_grows. intros u Hu.
  unfold mbind at 1, st_bind at 1, get. apply lift_bind_grows. intros u1 Hp.
  apply lift_bind_grows. intros u2 Hcap. cbv zeta.
  destruct (N.eqb_spec (default 0 (approval_thresholds (policy s) !! action)) 0) as [Hz|Hz].
  - apply bind_grows; [apply append_event_grows | reflexivity].
  - apply lift_bind_grows. intros id Hid. apply lift_bind_grows. intros d Hd.
    apply bind_grows; [|intros []; apply bind_grows; [apply append_event_grows | reflexivity]].
    apply with_approval_grows. intros _. unfold approval_ok. cbn. split_and!; [done | apply not_elem_of_empty | lia| |].
    + intros _. rewrite size_empty. lia.
    + by intros [].
Qed.

Lemma approve_grows id approver at' s : grows s (approve id approver at' s).2.
Proof.
  unfold approve. apply lift_bind_grows. intros t Ht.
  unfold mbind at 1, st_bind at 1, get. apply lift_bind_grows. intros u Hcap.
  apply lift_bind_grows. intros a Ha%ok_or_ok. apply lift_bind_grows. intros u1 Hc%err_if_ok.
  rewrite !orb_false_iff, !bool_decide_eq_false in Hc. destruct Hc as [[Hopen Hother] Hnew].
  cbv zeta. set (by' := {[approver]} ∪ approvers a).
  set (completed := if _ <=? _ then Some at' else completed_at a).
  assert (Hsize : N.of_nat (size by') = N.of_nat (size (approvers a)) + 1).
  { subst by'. rewrite size_union, size_singleton; [lia|]. by apply disjoint_singleton_l. }
  assert (Hok : forall d, governance_wf s -> approval_ok (set_progress a by' completed d)).
  { intros d W. destruct (wf_approvals _ W _ _ Ha) as [_ (H1 & H2 & H3 & H4)].
    unfold approval_ok. cbn. apply eq_None_not_Some in Hopen. subst completed. rewrite Hopen.
    split_and!; [subst by'; by rewrite not_elem_of_union, not_elem_of_singleton | done| |].
    - destruct (N.leb_spec (required_approvals a) (N.of_nat (size by'))); [done|by intros _].
    - destruct (N.leb_spec (required_approvals a) (N.of_nat (size by'))); [done|by intros []]. }
  apply bind_grows.
  - apply with_approval_grows. intros W. split; [|by apply Hok].
    by destruct (wf_approvals _ W _ _ Ha).
  - intros []. apply lift_bind_grows. intros d Hd.
    apply bind_grows; [|intros []; apply bind_grows; [apply append_event_grows | reflexivity]].
    apply with_approval_grows. intros W.
    destruct (wf_approvals _ W id _ (lookup_insert_eq _ _ _)) as [Hid Hprogress].
    split; [exact Hid | exact Hprogress].
Qed.

Lemma export_audit_grows actor at' s : grows s (export_audit actor at' s).2.
Proof.
  unfold export_audit. apply lift_bind_grows. intros t Ht.
  unfold mbind at 1, st_bind at 1, get. apply lift_bind_grows. intros u Hcap. cbv zeta.
  apply bind_grows; [apply append_event_grows|]. intros e.
  unfold mbind at 1, st_bind at 1. apply lift_bind_grows. intros [] Hv.
  apply lift_bind_grows. intros d Hd. reflexivity.
Qed.

Lemma step_grows s s' : step s s' -> grows s s'.
Proof.
  intros [m|p|actor project action resource at'|id approver at'|actor at'];
    [apply add_member_grows | apply add_project_grows | apply authorize_grows
    | apply approve_grows | apply export_audit_grows].
Qed.

Lemma reachable_grows s s' : reachable s s' -> grows s s'.
Proof. induction 1 as [|s1 s2 _ IH Hs]; [reflexivity|]. etrans; [exact IH | by apply step_grows]. Qed.

Lemma governance_new_wf p s : governance_new p = Ok s -> governance_wf s /\ policy s = p /\ audit_events s = [].
Proof.
  unfold governance_new. intros (u & Hv & Hb)%bind_ok. apply bind_ok in Hb as (d & _ & [= <-]).
  destruct u. by split.
Qed.

(** C11: However an organization's state is operated, failing calls included, the
    audit log is a verifiable chain that only grows, the policy stays the
    validated one, members and projects stay inside it, and every approval
    request is free of its requester's own approval and closed exactly when the
    number of its approvers reaches what the policy required. *)
Theorem governance_invariant p s0 s :
  governance_new p = Ok s0 -> reachable s0 s ->
  policy s = p /\ governance_wf s
  /\ forall s', step s s' -> audit_events s `prefix_of` audit_events s' /\ governance_wf s'.
Proof.
  intros (W & Hp & _)%governance_new_wf (Hw & Hpol & _)%reachable_grows.
  split; [congruence|]. split; [by apply Hw|]. intros s' (Hs & _ & _ & He)%step_grows. auto.
Qed.

(** ** Decisions *)

(** The actor is an active member whose role carries the capability. *)
Definition may (s : GovernanceState) (subject : string) (c : GovernanceCapability) : Prop :=
  exists m role, members s !! subject = Some m /\ active m = true
    /\ roles (policy s) !! member_role_id m = Some role /\ c ∈ capabilities role.

Lemma require_capability_ok s subject c u :
  require_capability s subject c = Ok u <-> may s subject c.
Proof.
  unfold require_capability, may. rewrite bind_ok. setoid_rewrite ok_or_ok.
  setoid_rewrite bind_ok. setoid_rewrite ok_or_ok. setoid_rewrite err_if_ok.
  setoid_rewrite negb_false_iff. setoid_rewrite bool_decide_eq_true. split.
  - intros (m & Hm & role & Hr & Hc). apply bind_Some in Hm as (m' & Hm & Hact).
    destruct (active m') eqn:Ha; simplify_eq. by exists m, role.
  - intros (m & role & Hm & Ha & Hr & Hc). exists m. rewrite Hm. cbn. rewrite Ha. eauto.
Qed.

Lemma require_project_ok s project u :
  require_project s project = Ok u <->
  exists p, projects s !! project = Some p /\ project_organization_id p = organization_id (policy s).
Proof.
  unfold require_project. destruct (projects s !! project) as [p|].
  - rewrite err_if_ok, negb_false_iff, bool_decide_eq_true. split; [by exists p|].
    by intros (? & [= <-] & ?).
  - split; [done|]. by intros (? & ? & _).
Qed.

(** An operation is authorized on the spot only for an active member whose
    role grants it, on a project of the organization and under an action the
    policy puts no approval gate on, and the log then ends with that event; with a
    gate the answer is a stored, open request with no approver yet. *)
Theorem authorize_gate actor project action resource at' s d s' :
  authorize actor project action resource at' s = (Ok d, s') ->
  may s actor (capability action)
  /\ (exists p, projects s !! project = Some p
        /\ project_organization_id p = organization_id (policy s))
  /\ sha256_identity resource = true
  /\ let threshold := default 0 (approval_thresholds (policy s) !! action) in
     match d with
     | Authorized digest =>
         threshold = 0 /\ approvals s' = approvals s
         /\ exists e, audit_events s' = audit_events s ++ [e] /\ event_digest e = digest
              /\ actor_id e = actor /\ event_type e = "authorized" /\ subject_digest e = resource
     | ApprovalRequired a =>
         0 < threshold /\ required_approvals a = threshold /\ requested_by a = actor
         /\ pa_action a = action /\ resource_digest a = resource
         /\ approvers a = ∅ /\ completed_at a = None /\ approvals s' = <[pa_id a := a]> (approvals s)
     | Approved _ => False
     end.
Proof.
  unfold authorize. intros (t & s1 & [_ ->]%lift_ok & H1)%st_bind_ok.
  apply st_bind_ok in H1 as (u & s1 & [Hd ->]%lift_ok & H1).
  apply st_bind_ok in H1 as (s1 & s2 & [-> ->]%get_ok & H1).
  apply st_bind_ok in H1 as (u1 & s1 & [Hp%require_project_ok ->]%lift_ok & H1).
  apply st_bind_ok in H1 as (u2 & s1 & [Hc%require_capability_ok ->]%lift_ok & H1).
  apply err_unless_ok in Hd. split; [done|]. split; [done|]. split; [done|]. cbv zeta in H1 |- *.
  set (threshold := default 0 (approval_thresholds (policy s) !! action)) in *.
  destruct (N.eqb_spec threshold 0) as [Hz|Hz].
  - apply st_bind_ok in H1 as (e & s1 & He%append_event_cases & [= <- <-]).
    destruct He as (-> & _ & Ha & _ & Ht & Hs). split_and!; [done..|]. by exists e.
  - apply st_bind_ok in H1 as (id & s1 & [_ ->]%lift_ok & H1).
    apply st_bind_ok in H1 as (digest & s1 & [_ ->]%lift_ok & H1).
    apply st_bind_ok in H1 as ([] & s1 & Hm & H1). injection Hm as <-.
    apply st_bind_ok in H1 as (e & s1 & He%append_event_cases & [= <- <-]).
    destruct He as (-> & _). split_and!; [lia|done..].
Qed.

(** C27: Approval is a four-eyes rule: whoever approves is an active member with
    the approve capability, differs from the requester and has not approved
    before, the request was still open, and when the answer is [Approved] the
    request that is now stored has at least as many distinct approvers as the
    policy required, the requester not among them; otherwise it stays open. *)
Theorem approve_four_eyes id approver at' s d s' :
  governance_wf s -> approve id approver at' s = (Ok d, s') ->
  may s approver Approve
  /\ exists a, approvals s !! id = Some a /\ completed_at a = None
  /\ requested_by a <> approver /\ approver ∉ approvers a
  /\ exists a', approvals s' !! id = Some a' /\ requested_by a' = requested_by a
       /\ pa_action a' = pa_action a /\ resource_digest a' = resource_digest a
       /\ approvers a' = {[approver]} ∪ approvers a
       /\ required_approvals a' = required_approvals a
       /\ match d with
          | Approved b => b = a' /\ completed_at a' = Some at'
              /\ required_approvals a <= N.of_nat (size (approvers a' ∖ {[requested_by a]}))
          | ApprovalRequired b => b = a' /\ completed_at a' = None
              /\ N.of_nat (size (approvers a')) < required_approvals a
          | Authorized _ => False
          end.
Proof.
  intros W. unfold approve. intros (t & s1 & [_ ->]%lift_ok & H1)%st_bind_ok.
  apply st_bind_ok in H1 as (s1 & s2 & [-> ->]%get_ok & H1).
  apply st_bind_ok in H1 as (u & s1 & [Hc%require_capability_ok ->]%lift_ok & H1).
  apply st_bind_ok in H1 as (a & s1 & [Ha%ok_or_ok ->]%lift_ok & H1).
  apply st_bind_ok in H1 as (u1 & s1 & [Hguard%err_if_ok ->]%lift_ok & H1).
  rewrite !orb_false_iff, !bool_decide_eq_false in Hguard. destruct Hguard as [[Hopen Hother] Hnew].
  apply eq_None_not_Some in Hopen. cbv zeta in H1.
  apply st_bind_ok in H1 as ([] & s1 & Hm & H1). injection Hm as <-.
  apply st_bind_ok in H1 as (digest & s1 & [_ ->]%lift_ok & H1).
  apply st_bind_ok in H1 as ([] & s1 & Hm & H1). injection Hm as <-.
  apply st_bind_ok in H1 as (e & s1 & He%append_event_cases & [= <- <-]). destruct He as (-> & _).
  destruct (wf_approvals _ W _ _ Ha) as [_ (Hself & _)].
  split; [done|]. exists a. split_and!; [done..|].
  eexists. cbn. rewrite lookup_insert_eq. split; [done|]. cbn. do 5 (split; [done|]).
  destruct (N.leb_spec (required_approvals a) (N.of_nat (size ({[approver]} ∪ approvers a)))) as [Hle|Hlt].
  - rewrite bool_decide_true by done. cbn. split_and!; [done..|].
    rewrite difference_disjoint_L; [done|]. apply disjoint_singleton_r.
    by rewrite not_elem_of_union, not_elem_of_singleton.
  - rewrite Hopen, bool_decide_false by (by intros []). cbn. done.
Qed.

(** ** Tamper evidence *)

Lemma with_digest_eta e : with_event_digest (event_digest e) (with_event_digest "" e) = e.
Proof. by destruct e. Qed.

(** C34: The log is tamper evident: two verifiable chains that end in the same
    event digest are the same chain, unless two different events are known with
    one digest. *)
Theorem audit_chain_tamper_evident events1 events2 :
  verify_audit_chain events1 = Ok tt -> verify_audit_chain events2 = Ok tt ->
  event_digest <$> last events1 = event_digest <$> last events2 ->
  events1 = events2
  \/ exists x y d, x <> y /\ event_digest_of x = Ok d /\ event_digest_of y = Ok d.
Proof.
  revert events2. induction events1 as [|x l IH] using rev_ind;
    intros events2 H1 H2 Hlast; destruct events2 as [|y k _] using rev_ind.
  - by left.
  - by rewrite last_snoc in Hlast.
  - by rewrite last_snoc in Hlast.
  - rewrite !last_snoc in Hlast. injection Hlast as Hd.
    apply verify_chain_snoc in H1 as [Hl (_ & Hpx & Hx)].
    apply verify_chain_snoc in H2 as [Hk (_ & Hpy & Hy)].
    apply map_err_ok in Hx, Hy.
    destruct (decide (with_event_digest "" x = with_event_digest "" y)) as [Heq|Hne].
    + assert (x = y) as <-.
      { rewrite <-(with_digest_eta x), <-(with_digest_eta y). by rewrite Heq, Hd. }
      destruct (IH k Hl Hk) as [->|]; [congruence | by left | by right].
    + right. exists (with_event_digest "" x), (with_event_digest "" y), (event_digest y).
      split_and!; [done | congruence | done].
Qed.

(** ** Retention *)

(** A retention plan answers every record in order. A record is eligible for
    deletion exactly when it is under no legal hold, its class is not protected
    and it is at least the maximal number of whole days old. *)
Theorem retention_plan_exact s records as_of plan :
  retention_plan s records as_of = Ok plan ->
  exists now, parse_rfc3339 as_of = Some now
  /\ Forall2 (fun r d => exists created, parse_rfc3339 (created_at r) = Some created
       /\ (created <= now)%Z
       /\ let expired :=
            legal_hold r = false /\ record_class r ∉ protected_classes (retention (policy s))
            /\ (Z.of_N (maximum_days (retention (policy s))) * nanoseconds_per_day <= now - created)%Z in
          match d with
          | EligibleForDeletion id digest => id = record_id r /\ digest = record_digest r /\ expired
          | Keep id _ => id = record_id r /\ ~ expired
          end) records plan.
Proof.
  unfold retention_plan. intros (now & Hnow%ok_or_ok & Hp%try_map_ok)%bind_ok. exists now.
  split; [done|]. eapply Forall2_impl; [exact Hp|]. intros r d Hd. unfold dispose in Hd.
  apply bind_ok in Hd as (u & _ & Hd). apply bind_ok in Hd as (created & Hc%ok_or_ok & Hd).
  apply seq_ok in Hd as [Hage%err_if_ok Hd]. apply Z.ltb_ge in Hage. injection Hd as <-.
  exists created. split; [done|]. split; [lia|]. cbv zeta. set (age := (now - created)%Z) in *.
  set (max := Z.of_N _).
  assert (Hday : (0 < nanoseconds_per_day)%Z) by done.
  assert (Hdays : (Z.quot age nanoseconds_per_day <? max)%Z = false <-> (max * nanoseconds_per_day <= age)%Z).
  { rewrite Z.ltb_ge, Z.quot_div_nonneg by lia. split.
    - intros Hm. etrans; [apply Z.mul_le_mono_nonneg_r; [lia | exact Hm]|].
      rewrite Z.mul_comm. by apply Z.mul_div_le.
    - intros Hm. apply Z.div_le_lower_bound; lia. }
  destruct (legal_hold r); [by split; [done|intros [? _]]|]. cbn [orb].
  destruct (bool_decide_reflect (record_class r ∈ protected_classes (retention (policy s)))) as [Hin|Hout].
  - split; [done|]. by intros (_ & ? & _).
  - cbn [orb]. destruct (Z.quot age nanoseconds_per_day <? max)%Z eqn:Hq.
    + split; [done|]. intros (_ & _ & He). apply Hdays in He. congruence.
    + split_and!; [done..|by apply Hdays].
Qed.
End Governance.

(** ** Witnesses

    A host whose digests spell out what they identify, and the organization of
    the crate's tests: an analyst and a reviewer, publishing behind one approval. *)
#[local] Instance sample_host : GovernanceHost := {
  parse_rfc3339 t := if bool_decide (t = "2025-01-01T00:00:00Z") then Some 0%Z
                     else if bool_decide (t = "2026-08-26T10:00:00Z") then Some (602 * nanoseconds_per_day)%Z
                     else None;
  policy_digest_of p := Ok ("policy:" +:+ policy_version p);
  request_digest_of p _ r a t := Ok ("request:" +:+ p +:+ "|" +:+ a +:+ "|" +:+ r +:+ t);
  approval_digest_of a := Ok ("approval:" +:+ pa_id a +:+ show_N (N.of_nat (size (approvers a))));
  event_digest_of e := Ok ("event:" +:+ show_N (sequence e) +:+ actor_id e +:+ event_type e +:+ subject_digest e);
  export_digest_of x := Ok ("export:" +:+ ex_policy_digest x) }.

Definition sample_now : string := "2026-08-26T10:00:00Z".
Definition sample_resource : string :=
  "sha256:aaaaaaaaaaaaaaaaaaaaaaaaaaaaaaaaaaaaaaaaaaaaaaaaaaaaaaaaaaaaaaaa".
Definition sample_policy : OrganizationPolicy :=
  mkPolicy "0.1.0" "org-1" "1"
    {["analyst" := mkRole "analyst" {[View; Execute; Publish]};
      "reviewer" := mkRole "reviewer" {[Approve; ExportAudit]}]}
    {[PublishResult := 1]} (mkRetention 30 365 {["provenance"]}).
Definition sample_state : GovernanceState :=
  let s := default (mkState sample_policy "" ∅ ∅ ∅ [])
    (match governance_new sample_policy with Ok s => Some s | Err _ => None end) in
  let s := (add_member (mkMember "alice" "analyst" true) s).2 in
  let s := (add_member (mkMember "bob" "reviewer" true) s).2 in
  (add_project (mkProject "project-1" "org-1" "internal") s).2.
Definition sample_requested := authorize "alice" "project-1" PublishResult sample_resource sample_now sample_state.
Definition sample_request_id : string :=
  match sample_requested.1 with Ok (ApprovalRequired a) => pa_id a | _ => "" end.
Definition sample_approved := approve sample_request_id "bob" sample_now sample_requested.2.

Definition ok_or_else {E A} (r : result E A) (d : A) : A := match r with Ok a => a | Err _ => d end.
Lemma pair_ok {E A B} (p : result E A * B) (d : A) : is_ok p.1 = true -> p = (Ok (ok_or_else p.1 d), p.2).
Proof. by destruct p as [[]]. Qed.

Lemma sample_new : governance_new sample_policy = Ok (mkState sample_policy "policy:1" ∅ ∅ ∅ []).
Proof. by vm_compute. Qed.

Lemma sample_reachable : reachable (mkState sample_policy "policy:1" ∅ ∅ ∅ []) sample_requested.2.
Proof.
  unfold sample_requested, sample_state. rewrite sample_new. cbn [default].
  do 4 (eapply reach_step; [|constructor]). apply reach_new.
Qed.

Lemma sample_wf : governance_wf sample_requested.2.
Proof.
  destruct (governance_new_wf _ _ sample_new) as [W _]. by apply (reachable_grows _ _ sample_reachable).
Qed.

Lemma governance_invariant_witness :
  verify_audit_chain (audit_events sample_approved.2) = Ok tt
  /\ audit_events sample_requested.2 `prefix_of` audit_events sample_approved.2.
Proof.
  destruct (governance_invariant sample_policy _ _ sample_new sample_reachable) as (_ & _ & Hs).
  destruct (Hs _ (step_approve _ sample_request_id "bob" sample_now)) as [Hp W].
  split; [exact (wf_chain _ W) | exact Hp].
Defined.

Lemma authorize_gate_witness : may sample_state "alice" (capability PublishResult).
Proof.
  eapply (authorize_gate "alice" "project-1" PublishResult sample_resource sample_now sample_state).
  apply (pair_ok sample_requested (Authorized "")). by vm_compute.
Defined.

Lemma approve_four_eyes_witness : may sample_requested.2 "bob" Approve.
Proof.
  eapply (approve_four_eyes sample_request_id "bob" sample_now sample_requested.2 _ _ sample_wf).
  apply (pair_ok sample_approved (Authorized "")). by vm_compute.
Defined.

Lemma audit_chain_tamper_evident_witness :
  let chain := audit_events sample_approved.2 in
  chain = chain \/ exists x y d, x <> y /\ event_digest_of x = Ok d /\ event_digest_of y = Ok d.
Proof. apply audit_chain_tamper_evident; vm_compute; reflexivity. Defined.

Definition sample_records : list RetentionRecord :=
  [mkRecord "old" "cache" "2025-01-01T00:00:00Z" false sample_resource;
   mkRecord "proof" "provenance" "2025-01-01T00:00:00Z" false sample_resource].

Lemma retention_plan_exact_witness :
  exists now, parse_rfc3339 sample_now = Some now /\
  retention_plan sample_state sample_records sample_now
  = Ok [EligibleForDeletion "old" sample_resource; Keep "proof" "protected_or_legal_hold"].
Proof.
  assert (Hp : retention_plan sample_state sample_records sample_now
    = Ok [EligibleForDeletion "old" sample_resource; Keep "proof" "protected_or_legal_hold"]) by (vm_compute; reflexivity).
  destruct (retention_plan_exact _ _ _ _ Hp) as (now & Hn & _). exists now. split; [exact Hn | exact Hp].
Defined.
