(* ===== verification/MapStyle.v ===== *)
(** * Evidence-carrying map styles (crates/genegis-style/src/evidence.rs)

    Style validation, the classification of values, and the rendering of the
    SVG document with its metadata. Colours and labels are strings; bounds and
    coordinates are binary64 numbers. The text of a number rounded to a fixed
    number of decimals, its JSON form and SHA-256 are parameters. *)

From Stdlib Require Import Ascii.
From S2P Require Import Prelude RustStd Ordering Crs Json.
Local Open Scope N_scope.

(** ** Data *)

Inductive ClassificationMethod := EqualInterval | Quantile | Manual.

Record ClassBreak := mkBreak { minimum : f64; maximum : f64; fill : string; class_label : string }.
Record LegendSpec := mkLegend { legend_title : string; legend_unit : string; legend_x : N; legend_y : N }.
Record LabelStyle := mkLabel {
  label_field : string; font_family : string; font_digest : string; size_px : f64; color : string }.
Record EvidenceMapStyle := mkStyle {
  style_id : string;
  style_layer_id : string;
  style_field : string;
  style_value_unit : string;
  classification : ClassificationMethod;
  breaks : list ClassBreak;
  legend : LegendSpec;
  labels : option LabelStyle }.

Record MapLayout := mkLayout {
  width_px : N; height_px : N; layout_title : string; layout_crs : string;
  coordinate_unit : string; renderer : string; padding_px : N }.
Record ArtifactSourceIdentity := mkIdentity {
  source : string; digest : string; source_license : string }.
Abbreviation pixel_point := (f64 * f64)%type.
Record SvgPolygon := mkPolygon {
  polygon_id : string; exterior : list pixel_point; polygon_value : f64; polygon_label : option string }.
Record MapArtifactMetadata := mkMetadata {
  md_sources : list ArtifactSourceIdentity;
  md_crs : string;
  md_coordinate_unit : string;
  md_value_unit : string;
  md_style_digest : string;
  md_font_digest : option string;
  md_renderer : string;
  md_provenance_digest : string }.
Record MapArtifact := mkArtifact {
  media_type : string; artifact_digest : string; metadata_digest : string; svg : string;
  metadata : MapArtifactMetadata }.

Inductive StyleError :=
| InvalidStyle (reason : string)
| Layout (reason : string)
| Feature (reason : string)
| Evidence (reason : string)
| Serialization (reason : string).

(** ** Validation *)

Definition string_drop (n : nat) (s : string) : string := String.substring n (String.length s - n) s.

Definition valid_hex_color (value : string) : bool :=
  (str_len value =? 7) && starts_with "#" value
  && string_forall is_ascii_hexdigit (string_drop 1 value).
Definition valid_digest (value : string) : bool :=
  (str_len value =? 71) && starts_with "sha256:" value
  && string_forall is_ascii_hexdigit (string_drop 7 value).

Definition class_ok (c : ClassBreak) : bool :=
  f64_is_finite (minimum c) && f64_is_finite (maximum c)
  && negb (f64_leb (maximum c) (minimum c))
  && valid_hex_color (fill c) && negb (is_blank (class_label c)).

(** The loop over [breaks.iter().enumerate()], with the class before *)
Fixpoint check_breaks (index : N) (previous : option ClassBreak) (l : list ClassBreak)
    : result StyleError unit :=
  match l with
  | [] => Ok tt
  | c :: l =>
      err_if (negb (class_ok c))
        (InvalidStyle ("class " +:+ show_N index +:+ " has invalid bounds, fill, or label"));;
      match previous with
      | Some p =>
          err_if (negb (f64_eqb (maximum p) (minimum c)))
            (InvalidStyle ("classes " +:+ show_N (index - 1) +:+ " and " +:+ show_N index
                           +:+ " have a gap or overlap"))
      | None => Ok tt
      end;;
      check_breaks (index + 1) (Some c) l
  end.

Definition f64_four : f64 := f64_of_Z 4.
Definition f64_ninety_six : f64 := f64_of_Z 96.

Definition check_labels (s : LabelStyle) : result StyleError unit :=
  err_if (is_blank (label_field s) || is_blank (font_family s) || negb (valid_digest (font_digest s))
          || negb (f64_is_finite (size_px s))
          || negb (f64_leb f64_four (size_px s) && f64_leb (size_px s) f64_ninety_six)
          || negb (valid_hex_color (color s)))
    (InvalidStyle "labels require field, font identity, 4-96 px size, and color").

(** [EvidenceMapStyle::validate] *)
Definition style_validate (s : EvidenceMapStyle) : result StyleError unit :=
  err_if (is_blank (style_field s) || is_blank (style_value_unit s) || is_blank (legend_title (legend s))
          || negb (bool_decide (legend_unit (legend s) = style_value_unit s))
          || match breaks s with [] => true | _ => false end)
    (InvalidStyle "field, unit, matching legend unit, title, and breaks are required");;
  check_breaks 0 None (breaks s);;
  match labels s with Some l => check_labels l | None => Ok tt end.

(** The closure of [fill_for]'s [find]: the last class includes its maximum. *)
Definition in_class (last : bool) (value : f64) (c : ClassBreak) : bool :=
  f64_leb (minimum c) value
  && (f64_ltb value (maximum c) || (last && f64_leb value (maximum c))).
Fixpoint find_class (value : f64) (l : list ClassBreak) : option ClassBreak :=
  match l with
  | [] => None
  | c :: l => if in_class (match l with [] => true | _ => false end) value c then Some c
              else find_class value l
  end.

Definition fill_for `{F64Display} (s : EvidenceMapStyle) (value : f64) : result StyleError string :=
  err_if (negb (f64_is_finite value)) (Feature "classification value is not finite");;
  ok_or (fill <$> find_class value (breaks s))
    (Feature ("value " +:+ f64_display value +:+ " is outside style breaks")).

(** ** XML text *)

(** [str::replace] of an ASCII character *)
Fixpoint replace_char (c : ascii) (by_ : string) (s : string) : string :=
  match s with
  | EmptyString => EmptyString
  | String a s => if bool_decide (a = c) then by_ +:+ replace_char c by_ s
                  else String a (replace_char c by_ s)
  end.

Definition quote : ascii := ascii_of_N 34.
Definition escape_xml (value : string) : string :=
  replace_char "'"%char "&apos;" (replace_char quote "&quot;"
    (replace_char ">"%char "&gt;" (replace_char "<"%char "&lt;" (replace_char "&"%char "&amp;" value)))).

(** ** Rendering *)

(** [format!("{x:.6}")] and [{:.3}]; [serde_json] of an [f64]; SHA-256 in hexadecimal *)
Class SvgHost := {
  f64_fixed : N -> f64 -> string;
  number_json : f64 -> json;
  sha256_hex : string -> string }.

Section Render.
Context `{F64Display} `{JsonText} `{SvgHost}.

Definition digest_bytes (bytes : string) : string := "sha256:" +:+ sha256_hex bytes.

Definition optional {A} (key : string) (f : A -> json) (o : option A) : list (string * json) :=
  match o with Some a => [(key, f a)] | None => [] end.

Definition method_json (m : ClassificationMethod) : json :=
  JString match m with
    | EqualInterval => "equal_interval" | Quantile => "quantile" | Manual => "manual" end.
Definition break_json (c : ClassBreak) : json :=
  JObject [("minimum", number_json (minimum c)); ("maximum", number_json (maximum c));
           ("fill", JString (fill c)); ("label", JString (class_label c))].
Definition legend_json (l : LegendSpec) : json :=
  JObject [("title", JString (legend_title l)); ("unit", JString (legend_unit l));
           ("x", JNumber (show_N (legend_x l))); ("y", JNumber (show_N (legend_y l)))].
Definition label_json (l : LabelStyle) : json :=
  JObject [("field", JString (label_field l)); ("font_family", JString (font_family l));
           ("font_digest", JString (font_digest l)); ("size_px", number_json (size_px l));
           ("color", JString (color l))].
Definition style_json (s : EvidenceMapStyle) : json :=
  JObject ([("id", JString (style_id s)); ("layer_id", JString (style_layer_id s));
            ("field", JString (style_field s)); ("value_unit", JString (style_value_unit s));
            ("classification", method_json (classification s));
            ("breaks", JArray (map break_json (breaks s))); ("legend", legend_json (legend s))]
           ++ optional "labels" label_json (labels s)).

Definition identity_json (i : ArtifactSourceIdentity) : json :=
  JObject [("source", JString (source i)); ("digest", JString (digest i));
           ("license", JString (source_license i))].
Definition metadata_to_json (d : MapArtifactMetadata) : json :=
  JObject ([("sources", JArray (map identity_json (md_sources d))); ("crs", JString (md_crs d));
            ("coordinate_unit", JString (md_coordinate_unit d));
            ("value_unit", JString (md_value_unit d));
            ("style_digest", JString (md_style_digest d))]
           ++ optional "font_digest" JString (md_font_digest d)
           ++ [("renderer", JString (md_renderer d));
               ("provenance_digest", JString (md_provenance_digest d))]).

(** [name="value"] *)
Definition attribute (name value : string) : string :=
  " " +:+ name +:+ "=" +:+ String quote (value +:+ String quote "").

(** [f64::from(u32)], [min_x] and [max_x] *)
Definition f64_of_N (n : N) : f64 := f64_of_Z (Z.of_N n).
Definition least (l : list f64) : f64 := foldl f64_min f64_infinity l.
Definition greatest (l : list f64) : f64 := foldl f64_max f64_neg_infinity l.

Record frame := mkFrame {
  min_x : f64; min_y : f64; max_x : f64; max_y : f64;
  padding : f64; drawable_width : f64; drawable_height : f64 }.
(** The closure [project] *)
Definition project (f : frame) (p : pixel_point) : pixel_point :=
  (f64_add (padding f)
     (f64_mul (f64_div (f64_sub p.1 (min_x f)) (f64_sub (max_x f) (min_x f))) (drawable_width f)),
   f64_add (padding f)
     (f64_mul (f64_div (f64_sub (max_y f) p.2) (f64_sub (max_y f) (min_y f))) (drawable_height f))).

Definition same_point (a b : pixel_point) : bool := f64_eqb a.1 b.1 && f64_eqb a.2 b.2.
(** [exterior.len() < 4 || exterior.first() != exterior.last()], negated *)
Definition ring_closed (r : list pixel_point) : bool :=
  negb (length r <? 4)%nat
  && match r with [] => true | p :: r' => same_point p (List.last r' p) end.

Definition polygon_text (f : frame) (feature : SvgPolygon) (fill : string) : string :=
  let points := join " " (map (fun p => let '(x, y) := project f p in
                  f64_fixed 6 x +:+ "," +:+ f64_fixed 6 y) (exterior feature)) in
  "<polygon" +:+ attribute "id" (escape_xml (polygon_id feature)) +:+ attribute "points" points
  +:+ attribute "fill" fill +:+ attribute "stroke" "#222222" +:+ attribute "stroke-width" "0.5"
  +:+ "/>".

(** The mean of the vertices without the closing one ([count] is exact below
    2^53 vertices, so [count as usize] is [len - 1]) *)
Definition centroid (r : list pixel_point) : pixel_point :=
  let count := f64_of_N (N.of_nat (length r - 1)) in
  let sum := foldl (fun (acc p : pixel_point) => (f64_add acc.1 p.1, f64_add acc.2 p.2))
               (f64_zero, f64_zero) (take (length r - 1) r) in
  (f64_div sum.1 count, f64_div sum.2 count).

Definition label_text (f : frame) (s : LabelStyle) (feature : SvgPolygon) (label : string) : string :=
  let '(x, y) := project f (centroid (exterior feature)) in
  "<text" +:+ attribute "x" (f64_fixed 6 x) +:+ attribute "y" (f64_fixed 6 y)
  +:+ attribute "text-anchor" "middle" +:+ attribute "font-family" (escape_xml (font_family s))
  +:+ attribute "font-size" (f64_fixed 3 (size_px s)) +:+ attribute "fill" (color s)
  +:+ ">" +:+ escape_xml label +:+ "</text>".

(** One iteration of the loop over the ordered features *)
Definition render_feature (s : EvidenceMapStyle) (f : frame) (body : string) (feature : SvgPolygon)
    : result StyleError string :=
  err_if (negb (ring_closed (exterior feature)))
    (Feature ("feature " +:+ polygon_id feature +:+ " ring is not closed"));;
  fill ← fill_for s (polygon_value feature);
  let body := body +:+ polygon_text f feature fill in
  Ok match labels s, polygon_label feature with
     | Some label_style, Some label => body +:+ label_text f label_style feature label
     | _, _ => body
     end.

(** The [u32] arithmetic of the legend rows *)
Fixpoint legend_rows (s : EvidenceMapStyle) (index : N) (l : list ClassBreak) : string :=
  match l with
  | [] => ""
  | c :: l =>
      let y := wrap 32 (legend_y (legend s) + wrap 32 index * 20) in
      "<rect" +:+ attribute "x" (show_N (legend_x (legend s))) +:+ attribute "y" (show_N y)
      +:+ attribute "width" "14" +:+ attribute "height" "14" +:+ attribute "fill" (fill c) +:+ "/><text"
      +:+ attribute "x" (show_N (wrap 32 (legend_x (legend s) + 20)))
      +:+ attribute "y" (show_N (wrap 32 (y + 12))) +:+ attribute "font-size" "12" +:+ ">"
      +:+ escape_xml (class_label c) +:+ "</text>" +:+ legend_rows s (index + 1) l
  end.

Definition svg_header (layout : MapLayout) : string :=
  let w := show_N (width_px layout) in let h := show_N (height_px layout) in
  "<svg" +:+ attribute "xmlns" "http://www.w3.org/2000/svg" +:+ attribute "width" w
  +:+ attribute "height" h +:+ attribute "viewBox" ("0 0 " +:+ w +:+ " " +:+ h) +:+ ">".
Definition svg_legend (s : EvidenceMapStyle) : string :=
  "<g" +:+ attribute "id" "legend" +:+ "><text" +:+ attribute "x" (show_N (legend_x (legend s)))
  +:+ attribute "y" (show_N (legend_y (legend s) - 8)) +:+ attribute "font-size" "14" +:+ ">"
  +:+ escape_xml (legend_title (legend s)) +:+ "</text>" +:+ legend_rows s 0 (breaks s) +:+ "</g>".

Definition layout_ok (l : MapLayout) : bool :=
  negb ((width_px l <? 64) || (height_px l <? 64)
        || (N.min (width_px l) (height_px l) <=? N.min (padding_px l * 2) u32_max)
        || is_blank (layout_title l) || is_blank (layout_crs l) || is_blank (coordinate_unit l)
        || is_blank (renderer l)).
Definition source_ok (i : ArtifactSourceIdentity) : bool :=
  negb (is_blank (source i) || is_blank (source_license i) || negb (valid_digest (digest i))).

Definition frame_of (layout : MapLayout) (coordinates : list pixel_point) : frame :=
  let padding := f64_of_N (padding_px layout) in
  let two := f64_of_Z 2 in
  {| min_x := least (map fst coordinates); min_y := least (map snd coordinates);
     max_x := greatest (map fst coordinates); max_y := greatest (map snd coordinates);
     padding := padding;
     drawable_width := f64_sub (f64_of_N (width_px layout)) (f64_mul padding two);
     drawable_height := f64_sub (f64_of_N (height_px layout)) (f64_mul padding two) |}.

Definition metadata_of (s : EvidenceMapStyle) (layout : MapLayout)
    (sources : list ArtifactSourceIdentity) (provenance : string) : MapArtifactMetadata :=
  {| md_sources := sources; md_crs := layout_crs layout;
     md_coordinate_unit := coordinate_unit layout; md_value_unit := style_value_unit s;
     md_style_digest := digest_bytes (canonical_json (style_json s));
     md_font_digest := font_digest <$> labels s; md_renderer := renderer layout;
     md_provenance_digest := provenance |}.

Definition render_evidence_svg (s : EvidenceMapStyle) (layout : MapLayout) (features : list SvgPolygon)
    (sources : list ArtifactSourceIdentity) (provenance : string) : result StyleError MapArtifact :=
  style_validate s;;
  err_if (negb (layout_ok layout))
    (Layout "page, padding, title, CRS, coordinate unit, and renderer are required");;
  err_if (match features with [] => true | _ => false end || negb (valid_digest provenance)
          || match sources with [] => true | _ => false end)
    (Evidence "features, sources, and a provenance SHA-256 are required");;
  err_if (existsb (fun i => negb (source_ok i)) sources)
    (Evidence "every source needs identity, license, and SHA-256");;
  let sources := stable_sort (key_le source) sources in
  let ordered := stable_sort (key_le polygon_id) features in
  let coordinates := concat (map exterior ordered) in
  err_if (existsb (fun p : pixel_point => negb (f64_is_finite p.1) || negb (f64_is_finite p.2)) coordinates)
    (Feature "coordinates must be finite");;
  let f := frame_of layout coordinates in
  err_if (f64_leb (max_x f) (min_x f) || f64_leb (max_y f) (min_y f)) (Feature "map extent is empty");;
  let metadata := metadata_of s layout sources provenance in
  let metadata_json := canonical_json (metadata_to_json metadata) in
  body ← try_fold (render_feature s f) "" ordered;
  let text := svg_header layout +:+ "<metadata>" +:+ escape_xml metadata_json +:+ "</metadata><title>"
    +:+ escape_xml (layout_title layout) +:+ "</title>" +:+ body +:+ svg_legend s +:+ "</svg>" in
  Ok {| media_type := "image/svg+xml"; artifact_digest := digest_bytes text;
        metadata_digest := digest_bytes metadata_json; svg := text; metadata := metadata |}.
End Render.

(** ** Classification: gap-free classes partition their range *)

(** Class [i] is the one that receives [value]. *)
Definition assigned (l : list ClassBreak) (value : f64) (i : nat) : Prop :=
  exists c, l !! i = Some c /\ in_class (S i =? length l)%nat value c = true.

(** What [check_breaks] establishes *)
Fixpoint chain (l : list ClassBreak) : Prop :=
  match l with
  | [] => True
  | c :: l =>
      f64_is_finite (minimum c) = true /\ f64_is_finite (maximum c) = true
      /\ f64_ltb (minimum c) (maximum c) = true
      /\ (match l with c' :: _ => f64_eqb (maximum c) (minimum c') = true | [] => True end)
      /\ chain l
  end.

Lemma class_ok_bounds c : class_ok c = true ->
  f64_is_finite (minimum c) = true /\ f64_is_finite (maximum c) = true
  /\ f64_ltb (minimum c) (maximum c) = true.
Proof.
  unfold class_ok. rewrite !andb_true_iff, !negb_true_iff. intros ((((H1 & H2) & H3) & _) & _).
  split_and!; [done..|]. apply finite_number in H1, H2. float_order.
Qed.

Lemma check_breaks_chain l : forall index previous u,
  check_breaks index previous l = Ok u ->
  chain l /\ match previous, l with
             | Some p, c :: _ => f64_eqb (maximum p) (minimum c) = true
             | _, _ => True end.
Proof.
  induction l as [|c l IH]; simpl; intros index previous u Hc; [by destruct previous|].
  inv_rs Hc. rewrite negb_false_iff in Hr. destruct (class_ok_bounds c Hr) as (H1 & H2 & H3).
  destruct (IH _ _ _ Hc) as [Hl Hn]. split.
  - by split_and!.
  - destruct previous as [p|]; [|done]. apply err_if_ok in Hr0. by rewrite negb_false_iff in Hr0.
Qed.

Lemma style_validate_chain s u : style_validate s = Ok u -> chain (breaks s) /\ breaks s <> [].
Proof.
  unfold style_validate. intros Hv. inv_rs Hv. split.
  - by apply check_breaks_chain in Hr0 as [? _].
  - intros Hb. rewrite Hb in Hr. by rewrite !orb_true_r in Hr.
Qed.

(** Later classes start no lower. *)
Lemma chain_above c l c' : chain (c :: l) -> c' ∈ l -> f64_leb (maximum c) (minimum c') = true.
Proof.
  revert c. induction l as [|d l IH]; intros c Hc Hin; [by apply not_elem_of_nil in Hin|].
  destruct Hc as (_ & F2%finite_number & _ & Heq & Hd).
  pose proof Hd as (G1%finite_number & G2%finite_number & Hlt & _).
  apply elem_of_cons in Hin as [->|Hin]; [float_order|].
  specialize (IH d Hd Hin).
  assert (Hn : is_number (minimum c') = true).
  { apply finite_number. clear -Hd Hin. revert d Hd. induction l as [|e l IHl]; intros d Hd;
      [by apply not_elem_of_nil in Hin|]. destruct Hd as (_ & _ & _ & _ & He).
    apply elem_of_cons in Hin as [->|Hin]; [apply He | by apply (IHl Hin e)]. }
  float_order.
Qed.

Lemma assigned_bounds l value i : assigned l value i ->
  exists c, l !! i = Some c /\ f64_leb (minimum c) value = true
            /\ (f64_ltb value (maximum c) = true \/ (S i = length l)%nat).
Proof.
  intros (c & Hi & Hin). exists c. unfold in_class in Hin.
  apply andb_true_iff in Hin as [Hm Hx]. split_and!; [done..|].
  apply orb_true_iff in Hx as [Hx|Hx]; [by left|]. right.
  apply andb_true_iff in Hx as [Hx _]. by apply Nat.eqb_eq.
Qed.

Lemma assigned_unique l value i j :
  chain l -> f64_is_finite value = true -> assigned l value i -> assigned l value j -> i = j.
Proof.
  intros Hl Hf. revert i j. assert (Hlt : forall i j, (i < j)%nat -> assigned l value i -> assigned l value j -> False).
  2:{ intros i j Hi Hj. destruct (Nat.lt_trichotomy i j) as [?|[?|?]]; [|done|]; exfalso; eauto. }
  intros i j Hij Hi Hj.
  destruct (assigned_bounds _ _ _ Hi) as (c & Hci & Hm & Hx).
  destruct (assigned_bounds _ _ _ Hj) as (d & Hdj & Hd & _).
  pose proof (lookup_lt_Some _ _ _ Hdj).
  destruct Hx as [Hx|Hx]; [|lia].
  assert (Hsuf : chain (drop i l)).
  { clear -Hl. revert i. induction l as [|a l IH]; intros [|i]; try done. apply IH, Hl. }
  rewrite (drop_S l c i Hci) in Hsuf.
  assert (Hin : d ∈ drop (S i) l).
  { apply list_elem_of_lookup. exists (j - S i)%nat. rewrite lookup_drop. by replace (S i + (j - S i))%nat with j by lia. }
  pose proof (chain_above c _ d Hsuf Hin) as Ha.
  assert (Hdn : is_number (minimum d) = true).
  { by destruct (minimum d), value. }
  destruct Hsuf as (_ & Hc2%finite_number & _). apply finite_number in Hf. float_order.
Qed.

Lemma assigned_cons c l value i :
  assigned (c :: l) value (S i) <-> assigned l value i.
Proof. done. Qed.

Lemma find_class_some l value c : find_class value l = Some c ->
  exists i, l !! i = Some c /\ assigned l value i.
Proof.
  induction l as [|d l IH]; simpl; [done|].
  destruct (in_class _ value d) eqn:Hd.
  - intros [= <-]. exists 0%nat. split; [done|]. exists d. split; [done|]. by destruct l.
  - intros (i & Hi & Ha)%IH. by exists (S i).
Qed.

Lemma find_class_none l value c0 cn :
  chain l -> f64_is_finite value = true -> find_class value l = None ->
  head l = Some c0 -> last l = Some cn ->
  f64_ltb value (minimum c0) = true \/ f64_ltb (maximum cn) value = true.
Proof.
  intros Hl Hf. revert c0 Hl. induction l as [|c l IH]; intros c0 Hl; [done|].
  intros Hn [= <-] Hlast. cbn [find_class] in Hn. destruct (in_class _ value c) eqn:Hc; [done|].
  destruct Hl as (F1%finite_number & F2%finite_number & Hlt & Heq & Hl).
  pose proof (finite_number _ Hf) as Fv.
  destruct (f64_leb (minimum c) value) eqn:Hm; [|left; float_order].
  right. unfold in_class in Hc. rewrite Hm in Hc. simpl in Hc.
  apply orb_false_iff in Hc as [Hx Hc]. destruct l as [|d l].
  - simplify_eq/=. float_order.
  - destruct (IH d) as [Hd|Hd]; try done.
    destruct Hl as (G1%finite_number & _). exfalso. float_order.
Qed.

(** ** XML text: one pass over the characters, and its reader *)

Definition escape_char (a : ascii) : string :=
  if bool_decide (a = "&"%char) then "&amp;"
  else if bool_decide (a = "<"%char) then "&lt;"
  else if bool_decide (a = ">"%char) then "&gt;"
  else if bool_decide (a = quote) then "&quot;"
  else if bool_decide (a = "'"%char) then "&apos;"
  else String a "".
Fixpoint escape_each (s : string) : string :=
  match s with EmptyString => EmptyString | String a s => escape_char a +:+ escape_each s end.

(** The predefined entities a reader of XML expands *)
Definition entities : list (string * ascii) :=
  [("&amp;", "&"%char); ("&lt;", "<"%char); ("&gt;", ">"%char); ("&quot;", quote); ("&apos;", "'"%char)].
Fixpoint read_entity (l : list (string * ascii)) (s : string) : option (ascii * string) :=
  match l with
  | [] => None
  | (e, c) :: l => match strip_prefix e s with Some rest => Some (c, rest) | None => read_entity l s end
  end.
Fixpoint xml_read (fuel : nat) (s : string) : string :=
  match fuel, s with
  | S fuel, String a rest =>
      match read_entity entities s with
      | Some (c, rest) => String c (xml_read fuel rest)
      | None => String a (xml_read fuel rest)
      end
  | _, _ => EmptyString
  end.

Lemma app_cons a s t : String a s +:+ t = String a (s +:+ t).
Proof. done. Qed.

Lemma string_length_app s t : String.length (s +:+ t) = (String.length s + String.length t)%nat.
Proof. induction s as [|a s IH]; [done|]. rewrite app_cons. simpl. by rewrite IH. Qed.

Lemma replace_char_app c b s t : replace_char c b (s +:+ t) = replace_char c b s +:+ replace_char c b t.
Proof.
  induction s as [|a s IH]; [done|]. rewrite app_cons. cbn [replace_char].
  case_bool_decide; rewrite IH; [by rewrite string_app_assoc | done].
Qed.

Lemma replace_char_one c b a : replace_char c b (String a "") = if bool_decide (a = c) then b else String a "".
Proof. simpl. case_bool_decide; [apply string_app_nil_r | done]. Qed.

Lemma escape_xml_each s : escape_xml s = escape_each s.
Proof.
  unfold escape_xml. induction s as [|a s IH]; [done|].
  change (String a s) with (String a "" +:+ s). rewrite !replace_char_app, IH.
  change (escape_each (String a "" +:+ s)) with (escape_char a +:+ escape_each s). f_equal. clear.
  unfold escape_char. rewrite (replace_char_one "&"%char).
  case_bool_decide as H1; [done|]. rewrite (replace_char_one "<"%char).
  case_bool_decide as H2; [done|]. rewrite (replace_char_one ">"%char).
  case_bool_decide as H3; [done|]. rewrite (replace_char_one quote).
  case_bool_decide as H4; [done|]. by rewrite (replace_char_one "'"%char).
Qed.

Lemma read_entity_plain a s : a <> "&"%char -> read_entity entities (String a s) = None.
Proof. intros Ha. unfold entities. cbn [read_entity strip_prefix]. by rewrite !bool_decide_false by congruence. Qed.

Lemma xml_read_escaped s fuel : (String.length (escape_each s) <= fuel)%nat -> xml_read fuel (escape_each s) = s.
Proof.
  revert fuel. induction s as [|a s IH]; intros fuel Hf; [by destruct fuel|].
  cbn [escape_each] in *. unfold escape_char in *.
  assert (Hent : forall e c, In (e, c) entities ->
    (String.length (e +:+ escape_each s) <= fuel)%nat ->
    xml_read fuel (e +:+ escape_each s) = String c s).
  { intros e c Hin Hlen. simpl in Hin. destruct fuel as [|fuel].
    { decompose [or] Hin; simplify_eq/=; done || lia. }
    assert (He : read_entity entities (e +:+ escape_each s) = Some (c, escape_each s)
                 /\ exists b r, e +:+ escape_each s = String b r).
    { decompose [or] Hin; simplify_eq; try done; split; try (by eexists _, _); by rewrite <-?strip_prefix_app. }
    destruct He as [He (b & r & Hb)]. rewrite Hb in *. cbn [xml_read]. rewrite He. f_equal. apply IH.
    rewrite <-Hb in Hlen. decompose [or] Hin; simplify_eq; try done; rewrite string_length_app in Hlen;
      simpl in Hlen; lia. }
  repeat (case_bool_decide; [subst a; apply Hent; [simpl; tauto | done]|]).
  destruct fuel as [|fuel]; [simpl in Hf; lia|].
  change (String a "" +:+ escape_each s) with (String a (escape_each s)) in *.
  cbn [xml_read]. rewrite read_entity_plain by done. f_equal. apply IH. simpl in Hf. lia.
Qed.

(** Characters that would end text or an attribute value *)
Definition is_markup (a : ascii) : bool :=
  bool_decide (a = "<"%char) || bool_decide (a = ">"%char) || bool_decide (a = quote)
  || bool_decide (a = "'"%char).

Lemma escape_no_markup s : string_forall (fun a => negb (is_markup a)) (escape_each s) = true.
Proof.
  induction s as [|a s IH]; [done|]. cbn [escape_each]. rewrite string_forall_app, IH, andb_true_r.
  unfold escape_char. repeat (case_bool_decide; [done|]). simpl. unfold is_markup.
  by rewrite !bool_decide_false.
Qed.

(** ** Rendering does not depend on the order of its inputs *)

Section RenderTheory.
Context `{F64Display} `{JsonText} `{SvgHost}.

Lemma empty_perm {A} (l k : list A) : l ≡ₚ k ->
  match l with [] => true | _ => false end = match k with [] => true | _ => false end.
Proof. intros Hp%Permutation_length. by destruct l, k. Qed.

Lemma render_perm s layout features features' sources sources' provenance :
  NoDup (map polygon_id features) -> features ≡ₚ features' ->
  NoDup (map source sources) -> sources ≡ₚ sources' ->
  render_evidence_svg s layout features sources provenance
  = render_evidence_svg s layout features' sources' provenance.
Proof.
  intros Hf Pf Hs Ps. unfold render_evidence_svg.
  by rewrite (empty_perm _ _ Pf), (empty_perm _ _ Ps), (existsb_perm _ _ _ Ps),
    (stable_sort_by_key_perm source _ _ Hs Ps), (stable_sort_by_key_perm polygon_id _ _ Hf Pf).
Qed.

(** What a successful rendering went through *)
Lemma render_ok s layout features sources provenance a :
  render_evidence_svg s layout features sources provenance = Ok a ->
  let md := metadata_of s layout (stable_sort (key_le source) sources) provenance in
  let j := canonical_json (metadata_to_json md) in
  metadata a = md /\ metadata_digest a = digest_bytes j /\ artifact_digest a = digest_bytes (svg a)
  /\ exists rest, svg a = svg_header layout +:+ "<metadata>" +:+ escape_each j +:+ "</metadata>" +:+ rest.
Proof.
  unfold render_evidence_svg. intros Hr. inv_rs Hr. simpl.
  rewrite escape_xml_each. split_and!; [done..|]. eexists. rewrite !string_app_assoc. reflexivity.
Qed.
End RenderTheory.

(** ** Properties *)

(** C29: a style that passes validation partitions its range: a finite value
    between the first minimum and the last maximum gets the colour of exactly
    one class, and every other finite value is an error. *)
Theorem classification_partition `{F64Display} s value first final :
  style_validate s = Ok tt -> f64_is_finite value = true ->
  head (breaks s) = Some first -> last (breaks s) = Some final ->
  match fill_for s value with
  | Ok colour => exists i c, breaks s !! i = Some c /\ fill c = colour
      /\ forall j, assigned (breaks s) value j <-> j = i
  | Err _ => f64_ltb value (minimum first) = true \/ f64_ltb (maximum final) value = true
  end.
Proof.
  intros Hv Hf H0 Hn. destruct (style_validate_chain s tt Hv) as [Hc _].
  unfold fill_for. rewrite Hf. simpl. destruct (find_class value (breaks s)) as [c|] eqn:Hfind; simpl.
  - destruct (find_class_some _ _ _ Hfind) as (i & Hi & Ha). exists i, c. split_and!; [done..|].
    intros j. split; [|by intros ->]. intros Hj. by eapply assigned_unique.
  - by eapply find_class_none.
Qed.

(** The rendered document is independent of the order of its inputs: with
    distinct feature identities and distinct sources, permuting either list gives
    the same result, byte for byte, errors included. *)
Theorem render_byte_stable `{F64Display} `{JsonText} `{SvgHost} s layout features features'
    sources sources' provenance :
  NoDup (map polygon_id features) -> features ≡ₚ features' ->
  NoDup (map source sources) -> sources ≡ₚ sources' ->
  render_evidence_svg s layout features sources provenance
  = render_evidence_svg s layout features' sources' provenance.
Proof. apply render_perm. Qed.

(** The evidence inside a rendered document can be read back: the text of the
    metadata element holds no character that would end it, an XML reader gets the
    canonical JSON of the returned metadata from it, and the two digests are those
    of that JSON and of the document. *)
Theorem embedded_metadata_readable `{F64Display} `{JsonText} `{SvgHost} s layout features
    sources provenance a :
  render_evidence_svg s layout features sources provenance = Ok a ->
  exists pre text rest,
    svg a = pre +:+ "<metadata>" +:+ text +:+ "</metadata>" +:+ rest
    /\ string_forall (fun c => negb (is_markup c)) text = true
    /\ xml_read (String.length text) text = canonical_json (metadata_to_json (metadata a))
    /\ metadata_digest a = digest_bytes (canonical_json (metadata_to_json (metadata a)))
    /\ artifact_digest a = digest_bytes (svg a).
Proof.
  intros (Hm & Hd & Ha & rest & Hs)%render_ok. rewrite Hm, Hd. eexists _, _, rest.
  split; [exact Hs|]. split_and!; [apply escape_no_markup | by apply xml_read_escaped | done..].
Qed.

(** ** Witnesses *)

Definition plain_break (a b : Z) (fill label : string) : ClassBreak :=
  {| minimum := f64_of_Z a; maximum := f64_of_Z b; fill := fill; class_label := label |}.
Definition density_style : EvidenceMapStyle :=
  {| style_id := "s"; style_layer_id := "l"; style_field := "density"; style_value_unit := "people/km2";
     classification := Manual;
     breaks := [plain_break 0 10 "#ffeeDD" "low"; plain_break 10 30 "#112233" "high"];
     legend := {| legend_title := "Density"; legend_unit := "people/km2"; legend_x := 8; legend_y := 24 |};
     labels := None |}.
Definition square (id : string) (x : Z) (value : Z) : SvgPolygon :=
  let p a b : pixel_point := (f64_of_Z a, f64_of_Z b) in
  {| polygon_id := id; exterior := [p x 0; p (x + 1) 0; p (x + 1) 1; p x 1; p x 0]%Z;
     polygon_value := f64_of_Z value; polygon_label := None |}.
Definition page : MapLayout :=
  {| width_px := 640; height_px := 480; layout_title := "Map <1>"; layout_crs := "EPSG:6675";
     coordinate_unit := "metre"; renderer := "r"; padding_px := 16 |}.
Definition some_digest : string :=
  "sha256:0123456789abcdef0123456789abcdef0123456789abcdef0123456789abcdef".
Definition survey : ArtifactSourceIdentity :=
  {| source := "survey & census"; digest := some_digest; source_license := "CC0" |}.

Lemma classification_partition_witness :
  let D : F64Display := fun _ => "x" in
  @fill_for D density_style (f64_of_Z 10) = Ok "#112233"
  /\ exists i c, breaks density_style !! i = Some c /\ fill c = "#112233"
      /\ forall j, assigned (breaks density_style) (f64_of_Z 10) j <-> j = i.
Proof.
  intros D. split; [by vm_compute|].
  assert (Hf : @fill_for D density_style (f64_of_Z 10) = Ok "#112233") by (by vm_compute).
  pose proof (@classification_partition D density_style (f64_of_Z 10) (plain_break 0 10 "#ffeeDD" "low")
    (plain_break 10 30 "#112233" "high") ltac:(by vm_compute) ltac:(by vm_compute) eq_refl eq_refl) as Hp.
  rewrite Hf in Hp. exact Hp.
Defined.

Definition echo_host : SvgHost :=
  {| f64_fixed := fun _ _ => "0.0"; number_json := fun _ => JNumber "0"; sha256_hex := fun _ => "00" |}.
Definition echo_text : JsonText := {| json_scalar := fun _ => "x"; json_key := fun k => k |}.
Definition echo_display : F64Display := fun _ => "x".

Lemma render_byte_stable_witness :
  is_ok (@render_evidence_svg echo_display echo_text echo_host density_style page
           [square "b" 3 20; square "a" 0 5] [survey] some_digest) = true
  /\ @render_evidence_svg echo_display echo_text echo_host density_style page
       [square "b" 3 20; square "a" 0 5] [survey] some_digest
     = @render_evidence_svg echo_display echo_text echo_host density_style page
       [square "a" 0 5; square "b" 3 20] [survey] some_digest.
Proof.
  split; [by vm_compute|]. apply render_byte_stable; [ | apply perm_swap | | done];
    apply (bool_decide_unpack _); by vm_compute.
Defined.

Lemma embedded_metadata_readable_witness :
  exists a, @render_evidence_svg echo_display echo_text echo_host density_style page
              [square "a" 0 5] [survey] some_digest = Ok a
    /\ exists pre text rest,
      svg a = pre +:+ "<metadata>" +:+ text +:+ "</metadata>" +:+ rest
      /\ string_forall (fun c => negb (is_markup c)) text = true
      /\ xml_read (String.length text) text
         = @canonical_json echo_text (metadata_to_json (metadata a))
      /\ metadata_digest a = @digest_bytes echo_host (@canonical_json echo_text (metadata_to_json (metadata a)))
      /\ artifact_digest a = @digest_bytes echo_host (svg a).
Proof.
  destruct (@render_evidence_svg echo_display echo_text echo_host density_style page
              [square "a" 0 5] [survey] some_digest) as [a|e] eqn:Ha.
  - exists a. split; [done|]. exact (embedded_metadata_readable _ _ _ _ _ _ Ha).
  - exfalso. assert (Hok : is_ok (@render_evidence_svg echo_display echo_text echo_host density_style page
              [square "a" 0 5] [survey] some_digest) = true) by (by vm_compute).
    rewrite Ha in Hok. done.
Defined.
