(* ===== verification/Project.v ===== *)
(** * The semantic project (crates/genegis-core/src/project.rs, workspace.rs,
    layer.rs, view.rs, source.rs)

    A project is a versioned manifest around a workspace: sources, layers,
    editable layers, map styles, views and an append-only provenance store. Its
    identity is the SHA-256 of its canonical JSON without runtime fields; the
    JSON that serde derives for every record is written out. UUIDs and instants
    are their text; fresh UUIDs and the clock are arguments. *)

From S2P Require Import Prelude RustStd Ordering Crs Json EditLayer MapStyle.
Local Open Scope N_scope.

(** ** Data *)

Abbreviation bbox := (f64 * f64 * f64 * f64)%type.

Inductive SourceKind :=
| SK_File | SK_Directory | SK_ObjectStore | SK_HttpRange | SK_Database | SK_Stac | SK_OgcApi | SK_Rest
| SK_SensorStream | SK_Generated.
Record DataSource := mkDataSource {
  ds_id : string; ds_name : string; ds_kind : SourceKind; ds_uri : string;
  ds_format_hint : option string; ds_crs : option string; ds_license : option string;
  ds_source_url : option string }.

Inductive LayerKind := LK_Vector | LK_Raster | LK_Tile | LK_PointCloud | LK_Scene3d | LK_Table.
#[export] Instance LayerKind_eq_dec : EqDecision LayerKind.
Proof. solve_decision. Defined.
Record LayerStatistics := mkStatistics { feature_count : option N; st_bbox : option bbox }.
(** [opacity] is an [f32]; only the literal [1.0] is ever computed. *)
Record Layer := mkProjectLayer {
  la_id : string;
  la_name : string;
  la_kind : LayerKind;
  la_source_id : string;
  la_crs : option string;
  la_extent : option bbox;
  la_time_extent : option (string * string);
  la_statistics : LayerStatistics;
  la_style_id : option string;
  la_visible : bool;
  la_opacity : spec_float }.

Inductive ViewKind := VK_Map | VK_Scene | VK_Dashboard | VK_Notebook | VK_Report.
Record View := mkView {
  vi_id : string;
  vi_name : string;
  vi_kind : ViewKind;
  vi_layer_ids : list string;
  vi_crs : option string;
  vi_center : option (f64 * f64);
  vi_zoom : option f64 }.

Record ProvenanceEntry := mkEntry {
  pe_id : string;
  pe_timestamp : string;
  pe_actor : string;
  pe_action : string;
  pe_target : string;
  pe_details : json;
  pe_agent_run_id : option string;
  pe_workflow_id : option string }.
Abbreviation ProvenanceStore := (list ProvenanceEntry).

Record Workspace := mkWorkspace {
  ws_id : string;
  ws_name : string;
  ws_created_at : string;
  ws_updated_at : string;
  ws_sources : list DataSource;
  ws_layers : list Layer;
  ws_editable_layers : list EditableLayer;
  ws_map_styles : list EvidenceMapStyle;
  ws_views : list View;
  ws_active_view : option string;
  ws_provenance : ProvenanceStore }.

Record ProjectManifest := mkManifest { schema_version : N; workspace : Workspace }.
Record Project := mkProject { manifest : ProjectManifest; path : option string }.

(** ** Constructors and operations *)

Definition statistics_default : LayerStatistics := {| feature_count := None; st_bbox := None |}.
Definition f32_one : spec_float := binary_normalize 24 128 1 0 false.

(** [DataSource::new], [Layer::new], [View::new]; [id] is the fresh UUID. *)
Definition data_source_new (id name : string) (kind : SourceKind) (uri : string) : DataSource :=
  {| ds_id := id; ds_name := name; ds_kind := kind; ds_uri := uri; ds_format_hint := None;
     ds_crs := None; ds_license := None; ds_source_url := None |}.
Definition project_layer_new (id name : string) (kind : LayerKind) (source_id : string) : Layer :=
  {| la_id := id; la_name := name; la_kind := kind; la_source_id := source_id; la_crs := None;
     la_extent := None; la_time_extent := None; la_statistics := statistics_default;
     la_style_id := None; la_visible := true; la_opacity := f32_one |}.
Definition view_new (id name : string) (kind : ViewKind) : View :=
  {| vi_id := id; vi_name := name; vi_kind := kind; vi_layer_ids := []; vi_crs := None;
     vi_center := None; vi_zoom := None |}.

(** [Workspace::new], [ProjectManifest::new], [Project::new] *)
Definition workspace_new (id now name : string) : Workspace :=
  {| ws_id := id; ws_name := name; ws_created_at := now; ws_updated_at := now; ws_sources := [];
     ws_layers := []; ws_editable_layers := []; ws_map_styles := []; ws_views := [];
     ws_active_view := None; ws_provenance := [] |}.
Definition CURRENT_SCHEMA_VERSION : N := 1.
Definition manifest_new (w : Workspace) : ProjectManifest :=
  {| schema_version := CURRENT_SCHEMA_VERSION; workspace := w |}.
Definition project_new (id now name : string) : Project :=
  {| manifest := manifest_new (workspace_new id now name); path := None |}.

(** Field updates, as mutable borrows of the workspace make them *)
Definition set_sources (s : list DataSource) (w : Workspace) : Workspace :=
  mkWorkspace (ws_id w) (ws_name w) (ws_created_at w) (ws_updated_at w) s (ws_layers w)
    (ws_editable_layers w) (ws_map_styles w) (ws_views w) (ws_active_view w) (ws_provenance w).
Definition set_layers (ls : list Layer) (w : Workspace) : Workspace :=
  mkWorkspace (ws_id w) (ws_name w) (ws_created_at w) (ws_updated_at w) (ws_sources w) ls
    (ws_editable_layers w) (ws_map_styles w) (ws_views w) (ws_active_view w) (ws_provenance w).
Definition set_editable_layers (es : list EditableLayer) (w : Workspace) : Workspace :=
  mkWorkspace (ws_id w) (ws_name w) (ws_created_at w) (ws_updated_at w) (ws_sources w) (ws_layers w)
    es (ws_map_styles w) (ws_views w) (ws_active_view w) (ws_provenance w).
Definition set_map_styles (ss : list EvidenceMapStyle) (w : Workspace) : Workspace :=
  mkWorkspace (ws_id w) (ws_name w) (ws_created_at w) (ws_updated_at w) (ws_sources w) (ws_layers w)
    (ws_editable_layers w) ss (ws_views w) (ws_active_view w) (ws_provenance w).
Definition set_views (vs : list View) (active : option string) (w : Workspace) : Workspace :=
  mkWorkspace (ws_id w) (ws_name w) (ws_created_at w) (ws_updated_at w) (ws_sources w) (ws_layers w)
    (ws_editable_layers w) (ws_map_styles w) vs active (ws_provenance w).
Definition set_provenance (p : ProvenanceStore) (w : Workspace) : Workspace :=
  mkWorkspace (ws_id w) (ws_name w) (ws_created_at w) (ws_updated_at w) (ws_sources w) (ws_layers w)
    (ws_editable_layers w) (ws_map_styles w) (ws_views w) (ws_active_view w) p.
(** [touch] with [now], and the explicit [updated_at = envelope.timestamp] *)
Definition touch (now : string) (w : Workspace) : Workspace :=
  mkWorkspace (ws_id w) (ws_name w) (ws_created_at w) now (ws_sources w) (ws_layers w)
    (ws_editable_layers w) (ws_map_styles w) (ws_views w) (ws_active_view w) (ws_provenance w).

Definition add_source (now : string) (s : DataSource) (w : Workspace) : Workspace :=
  touch now (set_sources (ws_sources w ++ [s]) w).
Definition add_layer (now : string) (l : Layer) (w : Workspace) : Workspace :=
  touch now (set_layers (ws_layers w ++ [l]) w).
Definition add_view (now : string) (v : View) (w : Workspace) : Workspace :=
  let active := match ws_active_view w with None => Some (vi_id v) | some => some end in
  touch now (set_views (ws_views w ++ [v]) active w).

Definition with_workspace (w : Workspace) (p : Project) : Project :=
  {| manifest := {| schema_version := schema_version (manifest p); workspace := w |}; path := path p |}.
Definition workspace_of (p : Project) : Workspace := workspace (manifest p).

(** [ProvenanceStore::record_workflow], [record], [record_agent_run] *)
Definition record_workflow (id now workflow_id actor action target : string) (details : json)
    (s : ProvenanceStore) : ProvenanceStore :=
  s ++ [{| pe_id := id; pe_timestamp := now; pe_actor := actor; pe_action := action; pe_target := target;
           pe_details := details; pe_agent_run_id := None; pe_workflow_id := Some workflow_id |}].
Definition record (id now actor action target : string) (details : json) (s : ProvenanceStore)
    : ProvenanceStore :=
  s ++ [{| pe_id := id; pe_timestamp := now; pe_actor := actor; pe_action := action; pe_target := target;
           pe_details := details; pe_agent_run_id := None; pe_workflow_id := None |}].
Definition record_agent_run (id now run_id workflow_id actor action : string) (details : json)
    (s : ProvenanceStore) : ProvenanceStore :=
  s ++ [{| pe_id := id; pe_timestamp := now; pe_actor := actor; pe_action := action;
           pe_target := workflow_id; pe_details := details; pe_agent_run_id := Some run_id;
           pe_workflow_id := Some workflow_id |}].

(** ** The JSON serde derives *)

(** [serde_json] of an [f32] *)
Class F32Json := f32_json : spec_float -> json.

Section ProjectJson.
Context `{SvgHost} `{F32Json}.

Definition show_Z (z : Z) : string :=
  if (z <? 0)%Z then "-" +:+ show_N (Z.to_N (- z)) else show_N (Z.to_N z).
Definition json_N (n : N) : json := JNumber (show_N n).
(** [Option<T>] without [skip_serializing_if] *)
Definition json_option {A} (f : A -> json) (o : option A) : json :=
  match o with Some a => f a | None => JNull end.
Definition json_map {V} (f : V -> json) (m : gmap string V) : json :=
  JObject (map (fun '(k, v) => (k, f v)) (merge_sort entry_le (map_to_list m))).
Definition json_point (p : point) : json := JArray [number_json p.1; number_json p.2].
Definition json_bbox (b : bbox) : json :=
  let '(x0, y0, x1, y1) := b in
  JArray [number_json x0; number_json y0; number_json x1; number_json y1].

Definition source_kind_json (k : SourceKind) : json :=
  JString match k with
    | SK_File => "file" | SK_Directory => "directory" | SK_ObjectStore => "object_store"
    | SK_HttpRange => "http_range" | SK_Database => "database" | SK_Stac => "stac"
    | SK_OgcApi => "ogc_api" | SK_Rest => "rest" | SK_SensorStream => "sensor_stream"
    | SK_Generated => "generated" end.
Definition data_source_json (s : DataSource) : json :=
  JObject [("id", JString (ds_id s)); ("name", JString (ds_name s)); ("kind", source_kind_json (ds_kind s));
           ("uri", JString (ds_uri s)); ("format_hint", json_option JString (ds_format_hint s));
           ("crs", json_option JString (ds_crs s)); ("license", json_option JString (ds_license s));
           ("source_url", json_option JString (ds_source_url s))].

Definition layer_kind_json (k : LayerKind) : json :=
  JString match k with
    | LK_Vector => "vector" | LK_Raster => "raster" | LK_Tile => "tile"
    | LK_PointCloud => "point_cloud" | LK_Scene3d => "scene3d" | LK_Table => "table" end.
Definition statistics_json (s : LayerStatistics) : json :=
  JObject [("feature_count", json_option json_N (feature_count s)); ("bbox", json_option json_bbox (st_bbox s))].
Definition layer_json (l : Layer) : json :=
  JObject [("id", JString (la_id l)); ("name", JString (la_name l)); ("kind", layer_kind_json (la_kind l));
           ("source_id", JString (la_source_id l)); ("crs", json_option JString (la_crs l));
           ("extent", json_option json_bbox (la_extent l));
           ("time_extent", json_option (fun '(a, b) => JArray [JString a; JString b]) (la_time_extent l));
           ("statistics", statistics_json (la_statistics l));
           ("style_id", json_option JString (la_style_id l)); ("visible", JBool (la_visible l));
           ("opacity", f32_json (la_opacity l))].

Definition view_kind_json (k : ViewKind) : json :=
  JString match k with
    | VK_Map => "map" | VK_Scene => "scene" | VK_Dashboard => "dashboard"
    | VK_Notebook => "notebook" | VK_Report => "report" end.
Definition view_json (v : View) : json :=
  JObject [("id", JString (vi_id v)); ("name", JString (vi_name v)); ("kind", view_kind_json (vi_kind v));
           ("layer_ids", JArray (map JString (vi_layer_ids v))); ("crs", json_option JString (vi_crs v));
           ("center", json_option json_point (vi_center v)); ("zoom", json_option number_json (vi_zoom v))].

(** Editable layers (edit.rs) *)
Definition attribute_value_json (v : AttributeValue) : json :=
  let tagged tag content := JObject [("type", JString tag); ("value", content)] in
  match v with
  | AV_Null => JObject [("type", JString "null")]
  | AV_Boolean b => tagged "boolean" (JBool b)
  | AV_Integer z => tagged "integer" (JNumber (show_Z z))
  | AV_Number x => tagged "number" (number_json x)
  | AV_Text s => tagged "text" (JString s)
  end.
Definition attribute_type_json (t : AttributeType) : json :=
  JString match t with
    | AT_Boolean => "boolean" | AT_Integer => "integer" | AT_Number => "number" | AT_Text => "text" end.
Definition schema_json (s : FeatureSchema) : json :=
  JObject [("primary_key", JString (primary_key s));
           ("fields", JArray (map (fun f => JObject [("name", JString (field_name f));
              ("value_type", attribute_type_json (value_type f)); ("nullable", JBool (nullable f))]) (fields s)))].
Definition geometry_kind_json (k : EditableGeometryKind) : json :=
  JString match k with EG_Point => "point" | EG_LineString => "line_string" | EG_Polygon => "polygon" end.
Definition feature_geometry_json (g : FeatureGeometry) : json :=
  let tagged tag content := JObject [("type", JString tag); ("coordinates", content)] in
  let line (l : list point) := JArray (map json_point l) in
  match g with
  | Point p => tagged "point" (json_point p)
  | LineString l => tagged "line_string" (line l)
  | Polygon rings => tagged "polygon" (JArray (map line rings))
  | MultiPolygon ps => tagged "multi_polygon" (JArray (map (fun rings => JArray (map line rings)) ps))
  end.
Definition editable_feature_json (f : EditableFeature) : json :=
  JObject [("id", JString (ef_id f)); ("revision", json_N (ef_revision f));
           ("geometry", feature_geometry_json (ef_geometry f));
           ("attributes", json_map attribute_value_json (ef_attributes f))].
Definition crs_json (c : Crs) : json := JString (identifier c).
Definition coordinate_unit_json (u : CoordinateUnit) : json := JString (unit_as_str u).
Definition editable_layer_json (l : EditableLayer) : json :=
  JObject [("layer_id", JString (layer_id l)); ("crs", crs_json (layer_crs l));
           ("coordinate_unit", coordinate_unit_json (layer_coordinate_unit l));
           ("geometry_kind", geometry_kind_json (layer_geometry_kind l)); ("schema", schema_json (schema l));
           ("revision", json_N (revision l)); ("features", json_map editable_feature_json (features l))].

Definition provenance_entry_json (e : ProvenanceEntry) : json :=
  JObject ([("id", JString (pe_id e)); ("timestamp", JString (pe_timestamp e));
            ("actor", JString (pe_actor e)); ("action", JString (pe_action e));
            ("target", JString (pe_target e)); ("details", pe_details e)]
           ++ optional "agent_run_id" JString (pe_agent_run_id e)
           ++ optional "workflow_id" JString (pe_workflow_id e)).
Definition workspace_json (w : Workspace) : json :=
  JObject [("id", JString (ws_id w)); ("name", JString (ws_name w));
           ("created_at", JString (ws_created_at w)); ("updated_at", JString (ws_updated_at w));
           ("sources", JArray (map data_source_json (ws_sources w)));
           ("layers", JArray (map layer_json (ws_layers w)));
           ("editable_layers", JArray (map editable_layer_json (ws_editable_layers w)));
           ("map_styles", JArray (map style_json (ws_map_styles w)));
           ("views", JArray (map view_json (ws_views w)));
           ("active_view", json_option JString (ws_active_view w));
           ("provenance", JObject [("entries", JArray (map provenance_entry_json (ws_provenance w)))])].
Definition project_json (p : Project) : json :=
  JObject [("manifest", JObject [("schema_version", json_N (schema_version (manifest p)));
                                 ("workspace", workspace_json (workspace (manifest p)))]);
           ("path", json_option JString (path p))].

(** ** The state digest *)

Definition runtime_fields : list string :=
  ["created_at"; "updated_at"; "timestamp"; "command_timestamp"; "observed_at"; "retrieved_at"; "path"].

(** Removing the runtime fields of an object, then descending into the rest *)
Fixpoint strip_runtime_fields (v : json) : json :=
  match v with
  | JObject entries =>
      JObject (List.filter (fun e => negb (bool_decide (e.1 ∈ runtime_fields)))
                 (map (fun '(k, v) => (k, strip_runtime_fields v)) entries))
  | JArray values => JArray (map strip_runtime_fields values)
  | _ => v
  end.

Definition canonical_state_json (p : Project) : json := strip_runtime_fields (project_json p).
Definition state_digest `{JsonText} (p : Project) : string :=
  digest_bytes (canonical_json (canonical_state_json p)).
End ProjectJson.

(** ** Projects that differ in runtime fields only *)

Definition erase_entry (e : ProvenanceEntry) : ProvenanceEntry :=
  {| pe_id := pe_id e; pe_timestamp := ""; pe_actor := pe_actor e; pe_action := pe_action e;
     pe_target := pe_target e; pe_details := pe_details e; pe_agent_run_id := pe_agent_run_id e;
     pe_workflow_id := pe_workflow_id e |}.
Definition erase_workspace (w : Workspace) : Workspace :=
  mkWorkspace (ws_id w) (ws_name w) "" "" (ws_sources w) (ws_layers w) (ws_editable_layers w)
    (ws_map_styles w) (ws_views w) (ws_active_view w) (map erase_entry (ws_provenance w)).
Definition erase (p : Project) : Project :=
  {| manifest := {| schema_version := schema_version (manifest p);
                    workspace := erase_workspace (workspace (manifest p)) |}; path := None |}.

Definition same_state (p q : Project) : Prop := erase p = erase q.
#[export] Instance same_state_equivalence : Equivalence same_state.
Proof. unfold same_state. split; repeat intro; congruence. Qed.

Section StateDigest.
Context `{SvgHost} `{F32Json} `{JsonText}.

Lemma strip_entry e : strip_runtime_fields (provenance_entry_json (erase_entry e))
  = strip_runtime_fields (provenance_entry_json e).
Proof. unfold provenance_entry_json, erase_entry. by destruct (pe_agent_run_id e), (pe_workflow_id e). Qed.

Lemma canonical_state_erase p : canonical_state_json (erase p) = canonical_state_json p.
Proof.
  unfold canonical_state_json, project_json, erase, workspace_json, erase_workspace.
  cbn [manifest schema_version workspace ws_id ws_name ws_created_at ws_updated_at ws_sources ws_layers
       ws_editable_layers ws_map_styles ws_views ws_active_view ws_provenance path].
  assert (He : map strip_runtime_fields (map provenance_entry_json (map erase_entry (ws_provenance (workspace (manifest p)))))
             = map strip_runtime_fields (map provenance_entry_json (ws_provenance (workspace (manifest p))))).
  { rewrite !List.map_map. apply List.map_ext. intros e. apply strip_entry. }
  simpl. rewrite He. reflexivity.
Qed.

#[export] Instance state_digest_proper : Proper (same_state ==> eq) state_digest.
Proof.
  intros p q Hpq. unfold state_digest.
  by rewrite <-(canonical_state_erase p), Hpq, canonical_state_erase.
Qed.
End StateDigest.

(** ** Properties *)

(** The state digest is a digest of the semantic project: projects that
    differ only in creation, update and provenance times and in their in-memory
    path have the same digest. *)
Theorem digest_ignores_runtime_fields `{SvgHost} `{F32Json} `{JsonText} p q :
  same_state p q -> state_digest p = state_digest q.
Proof. apply state_digest_proper. Qed.

(** A project with one editable feature, whose schema has a field called [path] *)
Definition path_project (now value : string) : Project :=
  let feature := {| ef_id := "f"; ef_revision := 1; ef_geometry := Point (f64_zero, f64_zero);
    ef_attributes := {["id" := AV_Text "f"; "path" := AV_Text value]} |} in
  let store := {| layer_id := "l"; layer_crs := wgs84; layer_coordinate_unit := Degrees;
    layer_geometry_kind := EG_Point;
    schema := {| primary_key := "id"; fields := [mkField "id" AT_Text false; mkField "path" AT_Text false] |};
    revision := 1; features := {["f" := feature]} |} in
  with_workspace (touch now (set_editable_layers [store] (workspace_of (project_new "p" "t" "n"))))
    (project_new "p" "t" "n").

Lemma digest_ignores_runtime_fields_witness :
  path_project "monday" "north" <> path_project "friday" "north"
  /\ @state_digest echo_host (fun _ => JNull) echo_text (path_project "monday" "north")
     = @state_digest echo_host (fun _ => JNull) echo_text (path_project "friday" "north").
Proof.
  split; [intros Heq; by apply (f_equal (fun p => ws_updated_at (workspace_of p))) in Heq|].
  apply digest_ignores_runtime_fields. reflexivity.
Defined.

(** The digest also drops whatever user data has the name of a runtime field: an
    attribute [path] of a feature does not enter it. *)
Theorem digest_misses_attributes `{SvgHost} `{F32Json} `{JsonText} :
  ~ same_state (path_project "t" "north") (path_project "t" "south")
  /\ state_digest (path_project "t" "north") = state_digest (path_project "t" "south").
Proof.
  split.
  - intros Heq. apply (f_equal (fun p => ws_editable_layers (workspace_of p))) in Heq. by vm_compute in Heq.
  - unfold state_digest. do 2 f_equal.
Qed.
