(* ===== verification/Expr.v ===== *)
(** * Attribute expressions (crates/genegis-toolkit/src/expr.rs)

    The filter and field-calculator language: tokenizer, recursive-descent parser
    and evaluator. A [char] is the string of its UTF-8 encoding and a text the
    list of its characters. serde_json's numbers, [powi] (of unspecified precision)
    and the Unicode case tables are the class [ExprHost]. The functions of the
    parser call each other on fuel; [Panic] is fuel that ran out, and [parse_or_total]
    shows that it never does. The grammar the parser accepts is stated as a relation
    in the second half. *)

From Stdlib Require Import Ascii.
From S2P Require Import Prelude RustStd Json Project Float.
Local Open Scope Z_scope.

Inductive UnaryOp := Not | Neg.
Inductive BinaryOp := Or | And | Eq | Ne | Lt | Le | Gt | Ge | Add | Sub | Mul | Div | Rem.
#[export] Instance BinaryOp_eq_dec : EqDecision BinaryOp.
Proof. solve_decision. Defined.

Inductive Expr :=
| Literal (v : json)
| Field (name : string)
| Unary (op : UnaryOp) (e : Expr)
| Binary (a : Expr) (op : BinaryOp) (b : Expr)
| In (e : Expr) (items : list Expr) (negated : bool)
| IsNull (e : Expr) (negated : bool)
| Like (e pattern : Expr) (negated : bool)
| Call (name : string) (args : list Expr).

Inductive Tok :=
| Num (n : f64)
| Str (s : string)
| Ident (word : string)
| Quoted (name : string)
| Op (op : string)
| Open
| Close
| Comma.
#[export] Instance Tok_eq_dec : EqDecision Tok.
Proof. solve_decision. Defined.

(** The messages of [ToolkitError::Expression] *)
Inductive ExprError :=
| UnterminatedString
| UnterminatedName
| InvalidNumber (literal : string)
| EmptyExpression
| UnexpectedToken (t : Tok)
| UnexpectedEnd
| ExpectedNullAfterIs
| ExpectedOpenAfterIn
| ExpectedCloseInList
| ExpectedInOrLike
| MissingClose
| MissingCloseAfterArguments (word : string)
| UnknownField (name : string)
| LikeNeedsString
| UnknownFunction (name : string).

Class ExprHost := {
  number_f64 : string -> f64;              (* [Number::as_f64] *)
  number_text : f64 -> string;             (* [Number::from_f64] of a finite number *)
  f64_powi10 : Z -> f64;                   (* [10f64.powi] *)
  to_lowercase : string -> string;
  to_uppercase : string -> string }.

(** ** Characters *)

Definition is_continuation (a : Ascii.ascii) : bool :=
  ((128 <=? Ascii.N_of_ascii a) && (Ascii.N_of_ascii a <? 192))%N.

(** [str::chars]: the bytes of a text that is UTF-8, a character at a time *)
Fixpoint chars (s : string) : list string :=
  match s with
  | EmptyString => []
  | String a rest =>
      let cs := chars rest in
      match rest, cs with
      | String b _, c :: cs' => if is_continuation b then String a c :: cs' else String a "" :: cs
      | _, _ => String a "" :: cs
      end
  end.
(** [chars.iter().collect::<String>()] *)
Definition of_chars (cs : list string) : string := foldr String.append "" cs.

Definition is_whitespace (c : string) : bool :=
  match c with
  | String a "" => is_ws1 a
  | String a (String b "") => is_ws2 a b
  | String a (String b (String d "")) => is_ws3 a b d
  | _ => false
  end.
Definition digit_char (c : string) : bool := match c with String a "" => is_ascii_digit a | _ => false end.
Definition one_of (l : list string) (c : string) : bool := existsb (fun d => bool_decide (c = d)) l.

(** ** Tokens *)

Definition double_quote : string := String "034"%char "".

(** The characters that end a bare word *)
Definition delimiters : list string :=
  ["("; ")"; "（"; "）"; ","; "、"; "="; "<"; ">"; "!"; "+"; "-"; "*"; "/"; "%"; "'"; double_quote; "["; "`"].

Fixpoint read_string (cs : list string) (s : string) : option (string * list string) :=
  match cs with
  | [] => None
  | c :: rest =>
      if bool_decide (c = "'") then
        match rest with
        | d :: rest' => if bool_decide (d = "'") then read_string rest' (s +:+ "'") else Some (s, rest)
        | [] => Some (s, rest)
        end
      else read_string rest (s +:+ c)
  end.

Fixpoint read_until (close : string) (cs : list string) : option (list string * list string) :=
  match cs with
  | [] => None
  | c :: rest =>
      if bool_decide (c = close) then Some ([], rest)
      else '(name, rest) ← read_until close rest; Some (c :: name, rest)
  end.

(** [previous] is [chars[i - 1]]. *)
Fixpoint read_number (previous : string) (cs : list string) : list string * list string :=
  match cs with
  | c :: rest =>
      if digit_char c || bool_decide (c = ".") || one_of ["e"; "E"] c
         || (one_of ["+"; "-"] c && one_of ["e"; "E"] previous)
      then let '(literal, rest) := read_number c rest in (c :: literal, rest)
      else ([], cs)
  | [] => ([], cs)
  end.

Fixpoint read_word (cs : list string) : list string * list string :=
  match cs with
  | c :: rest =>
      if negb (is_whitespace c) && negb (one_of delimiters c)
      then let '(word, rest) := read_word rest in (c :: word, rest)
      else ([], cs)
  | [] => ([], cs)
  end.

Definition op2 (two : string) : option string :=
  if one_of ["<="; ">="; "!="; "<>"; "=="; "&&"; "||"] two then
    Some (if bool_decide (two = "<>") then "!=" else if bool_decide (two = "==") then "="
          else if bool_decide (two = "&&") then "AND" else if bool_decide (two = "||") then "OR" else two)
  else None.

(** One turn of the loop at the character [c] *)
Definition next_token (c : string) (rest : list string) : result ExprError (option Tok * list string) :=
  if is_whitespace c then Ok (None, rest) else
  match op2 (c +:+ default "" (head rest)) with
  | Some op => Ok (Some (Op op), tail rest)
  | None =>
      if one_of ["("; "（"] c then Ok (Some Open, rest)
      else if one_of [")"; "）"] c then Ok (Some Close, rest)
      else if one_of [","; "、"] c then Ok (Some Comma, rest)
      else if one_of ["="; "<"; ">"; "+"; "-"; "*"; "/"; "%"; "!"] c then
        Ok (Some (Op (if bool_decide (c = "!") then "NOT" else c)), rest)
      else if bool_decide (c = "'") then
        '(s, rest) ← ok_or (read_string rest "") UnterminatedString; Ok (Some (Str s), rest)
      else if one_of [double_quote; "["; "`"] c then
        let close := if bool_decide (c = "[") then "]" else c in
        '(name, rest) ← ok_or (read_until close rest) UnterminatedName; Ok (Some (Quoted (of_chars name)), rest)
      else if digit_char c || (bool_decide (c = ".") && default false (digit_char <$> head rest)) then
        let '(literal, rest) := read_number "" (c :: rest) in
        n ← ok_or (parse_f64 (of_chars literal)) (InvalidNumber (of_chars literal)); Ok (Some (Num n), rest)
      else
        let '(word, rest) := read_word (c :: rest) in Ok (Some (Ident (of_chars word)), rest)
  end.

(** Every turn consumes a character or more ([next_token_shorter]), so the number
    of characters is enough fuel. *)
Fixpoint tokenize_loop (fuel : nat) (cs : list string) (out : list Tok) : outcome ExprError (list Tok) :=
  match cs, fuel with
  | [], _ => Done out
  | _, O => Panic
  | c :: rest, S fuel =>
      '(t, rest) ← attempt (next_token c rest);
      tokenize_loop fuel rest (match t with Some t => out ++ [t] | None => out end)
  end.
Definition tokenize (text : string) : outcome ExprError (list Tok) :=
  tokenize_loop (length (chars text)) (chars text) [].

(** ** The parser

    [pos] is the suffix of the tokens that remains. *)

Abbreviation parser A := (list Tok -> outcome ExprError (A * list Tok)).

Definition fail {A} (e : ExprError) : outcome ExprError A := Failed e.

(** [keyword] and [keyword_at] *)
Definition is_keyword (word : string) (t : Tok) : bool :=
  match t with
  | Ident w => eq_ignore_ascii_case w word
  | Op op => bool_decide (op = word)
  | _ => false
  end.
Definition keyword (word : string) (ts : list Tok) : bool := default false (is_keyword word <$> head ts).
Definition keyword_at (offset : nat) (word : string) (ts : list Tok) : bool :=
  default false (is_keyword word <$> ts !! offset).
Definition peek_is (t : Tok) (ts : list Tok) : bool := bool_decide (head ts = Some t).

(** The operators of a level, by the token *)
Definition or_op (t : Tok) : option BinaryOp :=
  if is_keyword "OR" t || is_keyword "または" t then Some Or else None.
Definition and_op (t : Tok) : option BinaryOp :=
  if is_keyword "AND" t || is_keyword "かつ" t then Some And else None.
Definition additive_op (t : Tok) : option BinaryOp :=
  if bool_decide (t = Op "+") then Some Add else if bool_decide (t = Op "-") then Some Sub else None.
Definition multiplicative_op (t : Tok) : option BinaryOp :=
  if bool_decide (t = Op "*") then Some Mul else if bool_decide (t = Op "/") then Some Div
  else if bool_decide (t = Op "%") then Some Rem else None.
Definition comparison_op (t : Tok) : option BinaryOp :=
  match t with
  | Op op =>
      if bool_decide (op = "=") then Some Eq else if bool_decide (op = "!=") then Some Ne
      else if bool_decide (op = "<") then Some Lt else if bool_decide (op = "<=") then Some Le
      else if bool_decide (op = ">") then Some Gt else if bool_decide (op = ">=") then Some Ge else None
  | _ => None
  end.

(** The loop of [or], [and], [additive] and [multiplicative] *)
Fixpoint chain (fuel : nat) (op : Tok -> option BinaryOp) (operand : parser Expr) (lhs : Expr)
    (ts : list Tok) : outcome ExprError (Expr * list Tok) :=
  match ts with
  | [] => Done (lhs, ts)
  | t :: rest =>
      match op t, fuel with
      | None, _ => Done (lhs, ts)
      | Some _, O => Panic
      | Some o, S fuel => '(e, rest) ← operand rest; chain fuel op operand (Binary lhs o e) rest
      end
  end.

(** [while self.peek() == Some(&Tok::Comma)] *)
Fixpoint comma_loop (fuel : nat) (item : parser Expr) (items : list Expr) (ts : list Tok)
    : outcome ExprError (list Expr * list Tok) :=
  match ts with
  | Comma :: rest =>
      match fuel with
      | O => Panic
      | S fuel => '(e, rest) ← item rest; comma_loop fuel item (items ++ [e]) rest
      end
  | _ => Done (items, ts)
  end.

(** The methods of the parser, loosest first *)
Inductive level := LOr | LAnd | LNot | LComparison | LAdditive | LMultiplicative | LUnary | LPrimary.

Section Parser.
Context `{ExprHost}.

Definition number (n : f64) : json :=
  if f64_eqb (f64_fract n) f64_zero && f64_ltb (f64_abs n) (f64_of_Z (9 * 10 ^ 15)) then
    JNumber (show_Z (f64_as_i64 n))
  else if f64_is_finite n then JNumber (number_text n) else JNull.

(** The methods of [Parser]; [at_level] are the methods they call. *)
Section Methods.
Context (at_level : level -> parser Expr).

Definition parse_or (ts : list Tok) : outcome ExprError (Expr * list Tok) :=
  '(lhs, rest) ← at_level LAnd ts; chain (length rest) or_op (at_level LAnd) lhs rest.

Definition parse_and (ts : list Tok) : outcome ExprError (Expr * list Tok) :=
  '(lhs, rest) ← at_level LNot ts; chain (length rest) and_op (at_level LNot) lhs rest.

Definition parse_not (ts : list Tok) : outcome ExprError (Expr * list Tok) :=
  if keyword "NOT" ts then '(e, rest) ← at_level LNot (tail ts); Done (Unary Not e, rest)
  else at_level LComparison ts.

Definition parse_comparison (ts : list Tok) : outcome ExprError (Expr * list Tok) :=
  '(lhs, ts) ← at_level LAdditive ts;
  if keyword "IS" ts then
    let ts := tail ts in
    let negated := keyword "NOT" ts in
    let ts := if negated then tail ts else ts in
    if negb (keyword "NULL" ts) then fail ExpectedNullAfterIs
    else Done (IsNull lhs negated, tail ts)
  else
    let negated := keyword "NOT" ts && (keyword_at 1 "IN" ts || keyword_at 1 "LIKE" ts) in
    let ts := if negated then tail ts else ts in
    if keyword "IN" ts then
      let ts := tail ts in
      if negb (peek_is Open ts) then fail ExpectedOpenAfterIn else
      '(first, ts) ← at_level LAdditive (tail ts);
      '(items, ts) ← comma_loop (length ts) (at_level LAdditive) [first] ts;
      if negb (peek_is Close ts) then fail ExpectedCloseInList
      else Done (In lhs items negated, tail ts)
    else if keyword "LIKE" ts then
      '(pattern, ts) ← at_level LAdditive (tail ts); Done (Like lhs pattern negated, ts)
    else if negated then fail ExpectedInOrLike
    else
      match head ts ≫= comparison_op with
      | None => Done (lhs, ts)
      | Some op => '(e, ts) ← at_level LAdditive (tail ts); Done (Binary lhs op e, ts)
      end.

Definition parse_additive (ts : list Tok) : outcome ExprError (Expr * list Tok) :=
  '(lhs, rest) ← at_level LMultiplicative ts;
  chain (length rest) additive_op (at_level LMultiplicative) lhs rest.

Definition parse_multiplicative (ts : list Tok) : outcome ExprError (Expr * list Tok) :=
  '(lhs, rest) ← at_level LUnary ts;
  chain (length rest) multiplicative_op (at_level LUnary) lhs rest.

Definition parse_unary (ts : list Tok) : outcome ExprError (Expr * list Tok) :=
  if peek_is (Op "-") ts then '(e, rest) ← at_level LUnary (tail ts); Done (Unary Neg e, rest)
  else at_level LPrimary ts.

Definition parse_primary (ts : list Tok) : outcome ExprError (Expr * list Tok) :=
  match ts with
  | [] => fail UnexpectedEnd
  | token :: ts =>
      match token with
      | Num n => Done (Literal (number n), ts)
      | Str s => Done (Literal (JString s), ts)
      | Quoted name => Done (Field name, ts)
      | Open =>
          '(inner, ts) ← at_level LOr ts;
          if negb (peek_is Close ts) then fail MissingClose else Done (inner, tail ts)
      | Ident word =>
          let upper := to_ascii_uppercase word in
          if bool_decide (upper = "TRUE") then Done (Literal (JBool true), ts)
          else if bool_decide (upper = "FALSE") then Done (Literal (JBool false), ts)
          else if bool_decide (upper = "NULL") then Done (Literal JNull, ts)
          else if peek_is Open ts then
            let ts := tail ts in
            '(args, ts) ←
              (if negb (peek_is Close ts) then
                 '(first, ts) ← at_level LOr ts; comma_loop (length ts) (at_level LOr) [first] ts
               else Done ([], ts));
            if negb (peek_is Close ts) then fail (MissingCloseAfterArguments word)
            else Done (Call (to_ascii_lowercase word) args, tail ts)
          else Done (Field word, ts)
      | other => fail (UnexpectedToken other)
      end
  end.
End Methods.

(** Every call gives the callee less fuel; the loops run on the tokens left. *)
Fixpoint parse_at (l : level) (fuel : nat) (ts : list Tok) : outcome ExprError (Expr * list Tok) :=
  match fuel with
  | O => Panic
  | S fuel =>
      let at_level l' := parse_at l' fuel in
      match l with
      | LOr => parse_or at_level ts
      | LAnd => parse_and at_level ts
      | LNot => parse_not at_level ts
      | LComparison => parse_comparison at_level ts
      | LAdditive => parse_additive at_level ts
      | LMultiplicative => parse_multiplicative at_level ts
      | LUnary => parse_unary at_level ts
      | LPrimary => parse_primary at_level ts
      end
  end.

(** Every level but the innermost is entered at most once per token
    ([parse_or_total]). *)
Definition parse_fuel (ts : list Tok) : nat := 8 * S (length ts).

Definition parse_tokens (ts : list Tok) : outcome ExprError Expr :=
  match ts with
  | [] => fail EmptyExpression
  | _ =>
      '(e, rest) ← parse_at LOr (parse_fuel ts) ts;
      match rest with [] => Done e | t :: _ => fail (UnexpectedToken t) end
  end.

Definition parse (text : string) : outcome ExprError Expr := ts ← tokenize text; parse_tokens ts.
End Parser.

(** ** Evaluation *)

Section Evaluation.
Context `{ExprHost} `{JsonText}.

Definition as_f64 (v : json) : option f64 :=
  match v with
  | JNumber n => Some (number_f64 n)
  | JBool b => Some (if b then f64_of_Z 1 else f64_zero)
  | JString s => parse_f64 (trim s)
  | _ => None
  end.

Definition truthy (v : json) : bool :=
  match v with
  | JNull => false
  | JBool b => b
  | JNumber n => negb (f64_eqb (number_f64 n) f64_zero)
  | JString s => negb (is_empty s)
  | _ => true
  end.

Definition is_null (v : json) : bool := match v with JNull => true | _ => false end.
Definition is_string (v : json) : bool := match v with JString _ => true | _ => false end.
Definition as_str (v : json) : option string := match v with JString s => Some s | _ => None end.

(** [f64::partial_cmp] is [SFcompare]; strings are compared by their bytes. *)
Definition compare (a b : json) : option comparison :=
  if is_null a || is_null b then None
  else
    let by_text :=
      match a, b with
      | JString x, JString y => Some (String.compare x y)
      | _, _ => Some (String.compare (compact_json a) (compact_json b))
      end in
    match as_f64 a, as_f64 b with
    | Some x, Some y => if is_string a && is_string b then by_text else SFcompare x y
    | _, _ => by_text
    end.

(** [like]'s inner [go]; it moves along the pattern, and along the text at a [%]. *)
Fixpoint like_go (p : list string) : list string -> bool :=
  match p with
  | [] => fun t => match t with [] => true | _ => false end
  | pc :: p =>
      if bool_decide (pc = "%") then
        fix skip (t : list string) : bool :=
          like_go p t || match t with [] => false | _ :: t => skip t end
      else fun t =>
        match t with
        | [] => false
        | tc :: t => if bool_decide (pc = "_") || bool_decide (pc = tc) then like_go p t else false
        end
  end.
Definition like (text pattern : string) : bool := like_go (chars pattern) (chars text).

(** [collect_fields]; [fields] sorts them and drops repetitions. *)
Fixpoint collect_fields (e : Expr) (out : list string) : list string :=
  match e with
  | Literal _ => out
  | Field name => out ++ [name]
  | Unary _ e | IsNull e _ => collect_fields e out
  | Binary a _ b | Like a b _ => collect_fields b (collect_fields a out)
  | In e items _ => fold_left (fun out item => collect_fields item out) items (collect_fields e out)
  | Call _ args => fold_left (fun out arg => collect_fields arg out) args out
  end.

Fixpoint dedup_from (previous : string) (l : list string) : list string :=
  match l with
  | [] => []
  | s :: l => if bool_decide (s = previous) then dedup_from previous l else s :: dedup_from s l
  end.
Definition dedup (l : list string) : list string := match l with [] => [] | s :: l => s :: dedup_from s l end.
Definition fields (e : Expr) : list string := dedup (merge_sort String.le (collect_fields e [])).

Definition json_float (v : option f64) : json :=
  match v with Some x => if f64_is_finite x then JNumber (number_text x) else JNull | None => JNull end.

(** [v as i32] *)
Definition f64_as_i32 : f64 -> Z := as_int (- 2 ^ 31) (2 ^ 31 - 1).
Definition f64_sqrt : f64 -> f64 := SFsqrt 53 1024.
Definition f64_ceil (x : f64) : f64 := f64_neg (f64_floor (f64_neg x)).
Definition number_or_null (v : option f64) : json := match v with Some x => number x | None => JNull end.

Definition call (name : string) (args : list json) : result ExprError json :=
  let arg i := default JNull (args !! i) in
  let num i := as_f64 (arg i) in
  if bool_decide (name = "abs") then Ok (json_float (f64_abs <$> num 0%nat))
  else if bool_decide (name = "round") then
    let digits := f64_as_i32 (default f64_zero (num 1%nat)) in
    let factor := f64_powi10 digits in
    let v := (fun v => f64_div (f64_round (f64_mul v factor)) factor) <$> num 0%nat in
    Ok (if digits <=? 0 then number_or_null v else json_float v)
  else if bool_decide (name = "floor") then Ok (number_or_null (f64_floor <$> num 0%nat))
  else if bool_decide (name = "ceil") then Ok (number_or_null (f64_ceil <$> num 0%nat))
  else if bool_decide (name = "sqrt") then
    Ok (json_float (x ← num 0%nat; if f64_leb f64_zero x then Some (f64_sqrt x) else None))
  else if bool_decide (name = "lower") then
    Ok (match as_str (arg 0%nat) with Some s => JString (to_lowercase s) | None => JNull end)
  else if bool_decide (name = "upper") then
    Ok (match as_str (arg 0%nat) with Some s => JString (to_uppercase s) | None => JNull end)
  else if bool_decide (name = "length") || bool_decide (name = "len") then
    Ok (match as_str (arg 0%nat) with Some s => JNumber (show_Z (Z.of_nat (length (chars s)))) | None => JNull end)
  else if bool_decide (name = "coalesce") then
    Ok (match list_find (fun v => is_null v = false) args with Some (_, v) => v | None => JNull end)
  else if bool_decide (name = "number") || bool_decide (name = "to_number") then Ok (json_float (num 0%nat))
  else if bool_decide (name = "text") || bool_decide (name = "to_text") then
    Ok (match arg 0%nat with JNull => JNull | JString s => JString s | other => JString (compact_json other) end)
  else Err (UnknownFunction name).

(** The comparison operators on the ordering of two values *)
Definition holds (op : BinaryOp) (c : comparison) : bool :=
  match op, c with
  | Eq, Datatypes.Eq => true
  | Eq, _ => false
  | Ne, Datatypes.Eq => false
  | Ne, _ => true
  | Lt, Datatypes.Lt => true
  | Lt, _ => false
  | Le, Datatypes.Gt => false
  | Le, _ => true
  | Gt, Datatypes.Gt => true
  | Gt, _ => false
  | _, Datatypes.Lt => false
  | _, _ => true
  end.

(** [as_str().unwrap_or_else(|| to_string())] *)
Definition display (v : json) : string := default (compact_json v) (as_str v).

Definition arithmetic (op : BinaryOp) (a b : json) : json :=
  match as_f64 a, as_f64 b with
  | Some x, Some y =>
      match op with
      | Add => number (f64_add x y)
      | Sub => number (f64_sub x y)
      | Mul => number (f64_mul x y)
      | Div => if f64_eqb y f64_zero then JNull else json_float (Some (f64_div x y))
      | _ => if f64_eqb y f64_zero then JNull else number (f64_rem x y)
      end
  | _, _ => JNull
  end.

(** The comparison and arithmetic arms: both operands have been evaluated. *)
Definition strict_op (op : BinaryOp) (a b : json) : json :=
  match op with
  | Eq | Ne | Lt | Le | Gt | Ge => JBool (match compare a b with Some c => holds op c | None => false end)
  | Add => if is_string a then JString (default "" (as_str a) +:+ display b) else arithmetic op a b
  | _ => arithmetic op a b
  end.

Definition like_op (value pattern : json) (negated : bool) : result ExprError json :=
  match value, pattern with
  | JNull, _ | _, JNull => Ok (JBool false)
  | v, JString p => Ok (JBool (negb (eqb (like (display v) p) negated)))
  | _, _ => Err LikeNeedsString
  end.

Context (properties : gmap string json).

Fixpoint eval (e : Expr) : result ExprError json :=
  match e with
  | Literal v => Ok v
  | Field name => ok_or (properties !! name) (UnknownField name)
  | Unary Not e => v ← eval e; Ok (JBool (negb (truthy v)))
  | Unary Neg e => v ← eval e; Ok (match as_f64 v with Some x => number (f64_neg x) | None => JNull end)
  | Binary a And b =>
      x ← eval a;
      if negb (truthy x) then Ok (JBool false) else y ← eval b; Ok (JBool (truthy y))
  | Binary a Or b =>
      x ← eval a;
      if truthy x then Ok (JBool true) else y ← eval b; Ok (JBool (truthy y))
  | Binary a op b => x ← eval a; y ← eval b; Ok (strict_op op x y)
  | In e items negated =>
      value ← eval e;
      if is_null value then Ok (JBool false) else
      found ← (fix search (items : list Expr) : result ExprError bool :=
                 match items with
                 | [] => Ok false
                 | item :: items =>
                     v ← eval item;
                     if bool_decide (compare value v = Some Datatypes.Eq) then Ok true else search items
                 end) items;
      Ok (JBool (negb (eqb found negated)))
  | IsNull e negated => v ← eval e; Ok (JBool (negb (eqb (is_null v) negated)))
  | Like e pattern negated => value ← eval e; p ← eval pattern; like_op value p negated
  | Call name args =>
      values ← (fix eval_all (args : list Expr) : result ExprError (list json) :=
                  match args with
                  | [] => Ok []
                  | a :: args => v ← eval a; vs ← eval_all args; Ok (v :: vs)
                  end) args;
      call name values
  end.
End Evaluation.

(** ** The parser ends *)

(** A run that does not panic and, when it succeeds, leaves fewer than [n] tokens *)
Definition consumes {A} (n : nat) (r : outcome ExprError (A * list Tok)) : Prop :=
  match r with Done (_, rest) => (length rest < n)%nat | Failed _ => True | Panic => False end.

Lemma consumes_bind {A B} n m (r : outcome ExprError (A * list Tok)) (k : A * list Tok -> outcome ExprError (B * list Tok)) :
  consumes n r -> (forall a rest, (length rest < n)%nat -> consumes m (k (a, rest))) -> consumes m (r ≫= k).
Proof. intros Hr Hk. destruct r as [[a rest]| |]; [|done|done]. by apply Hk. Qed.

Lemma consumes_weaken {A} n m (r : outcome ExprError (A * list Tok)) : consumes n r -> (n <= m)%nat -> consumes m r.
Proof. destruct r as [[a rest]| |]; cbn [consumes]; try done. lia. Qed.

Lemma consumes_chain n fuel op operand lhs ts :
  (forall r, (length r < n)%nat -> consumes (length r) (operand r)) ->
  (length ts < n)%nat -> (length ts <= fuel)%nat -> consumes n (chain fuel op operand lhs ts).
Proof.
  intros Hop. revert lhs ts. induction fuel as [|fuel IH]; intros lhs [|t ts] Hn Hf; cbn [chain consumes length] in *.
  1-3: try done; destruct (op t); cbn [consumes length]; lia.
  destruct (op t) as [o|]; [|done]. eapply consumes_bind; [apply Hop; lia|].
  intros e rest Hr. apply IH; lia.
Qed.

Lemma consumes_comma n fuel item items ts :
  (forall r, (length r < n)%nat -> consumes (length r) (item r)) ->
  (length ts < n)%nat -> (length ts <= fuel)%nat -> consumes n (comma_loop fuel item items ts).
Proof.
  intros Hit. revert items ts. induction fuel as [|fuel IH]; intros items ts Hn Hf.
  { destruct ts as [|[] ts]; cbn [comma_loop consumes length] in *; lia. }
  destruct ts as [|[] ts]; cbn [comma_loop consumes length] in *; try done.
  eapply consumes_bind; [apply Hit; lia|]. intros e rest Hr. apply IH; lia.
Qed.

Lemma keyword_cons word ts : keyword word ts = true -> exists t rest, ts = t :: rest /\ is_keyword word t = true.
Proof. destruct ts as [|t ts]; [done|]. intros Ht. by exists t, ts. Qed.

Lemma peek_cons t ts : peek_is t ts = true -> exists rest, ts = t :: rest.
Proof.
  unfold peek_is. intros Hp%bool_decide_eq_true. destruct ts as [|u ts]; [done|]. cbn in Hp. simplify_eq. by exists ts.
Qed.

(** Splitting on the first token in a goal *)
Ltac look := match goal with
  | |- context [if keyword ?w ?ts then _ else _] =>
      let E := fresh "E" in destruct (keyword w ts) eqn:E; [apply keyword_cons in E as (? & ? & -> & ?); cbn [tail length] in *|]
  | |- context [if negb (keyword ?w ?ts) then _ else _] =>
      let E := fresh "E" in destruct (keyword w ts) eqn:E; cbn [negb]; [apply keyword_cons in E as (? & ? & -> & ?); cbn [tail length] in *|]
  | |- context [if peek_is ?t ?ts then _ else _] =>
      let E := fresh "E" in destruct (peek_is t ts) eqn:E; [apply peek_cons in E as (? & ->); cbn [tail length] in *|]
  | |- context [if negb (peek_is ?t ?ts) then _ else _] =>
      let E := fresh "E" in destruct (peek_is t ts) eqn:E; cbn [negb]; [apply peek_cons in E as (? & ->); cbn [tail length] in *|]
  end.

Definition rank (l : level) : nat :=
  match l with
  | LOr => 8 | LAnd => 7 | LNot => 6 | LComparison => 5 | LAdditive => 4 | LMultiplicative => 3 | LUnary => 2 | LPrimary => 1
  end.

Section Total.
Context `{ExprHost}.

(** Every level ends on fuel for eight calls a token, and takes a token at least. *)
Lemma parse_at_consumes l fuel ts : (8 * length ts + rank l <= fuel)%nat -> consumes (length ts) (parse_at l fuel ts).
Proof.
  revert l ts. induction fuel as [|fuel IH]; intros l ts Hf; [destruct l; cbn [rank] in Hf; lia|].
  assert (Hat : forall l' r, (8 * length r + rank l' <= fuel)%nat -> consumes (length r) (parse_at l' fuel r)) by auto.
  assert (Hchain : forall l' op, (rank l' < rank l)%nat ->
    consumes (length ts) ('(lhs, rest) ← parse_at l' fuel ts; chain (length rest) op (parse_at l' fuel) lhs rest)).
  { intros l' op Hl. eapply consumes_bind; [apply Hat; lia|]. intros e rest Hr.
    apply consumes_chain; [|lia..]. intros r Hrr. apply Hat. lia. }
  destruct l; cbn [rank] in Hf; cbn [parse_at]; cbv zeta.
  - apply (Hchain LAnd or_op). cbn; lia.
  - apply (Hchain LNot and_op). cbn; lia.
  - unfold parse_not. look.
    + eapply consumes_bind; [apply (Hat LNot); cbn [rank]; lia|]. intros e rest Hr. cbn [consumes]. lia.
    + apply (Hat LComparison). cbn [rank]. lia.
  - unfold parse_comparison. eapply consumes_bind; [apply (Hat LAdditive); cbn [rank]; lia|]. intros e r Hr.
    look.
    { look; look; cbn [consumes]; try done; lia. }
    assert (Hshort : exists r', (if keyword "NOT" r && (keyword_at 1 "IN" r || keyword_at 1 "LIKE" r) then tail r else r) = r'
                                /\ (length r' <= length r)%nat).
    { destruct (_ && _); eexists; (split; [reflexivity|]); [destruct r; cbn [tail length]; lia | lia]. }
    destruct Hshort as (r' & -> & Hr'). cbv zeta. clear E.
    assert (Hitem : forall k, (length k < length ts)%nat -> consumes (length k) (parse_at LAdditive fuel k)).
    { intros k Hk. apply (Hat LAdditive). cbn [rank]. lia. }
    look; [|look].
    + look; [|done]. eapply consumes_bind; [apply Hitem; lia|]. intros e1 r1 Hr1.
      eapply consumes_bind; [apply (consumes_comma (length ts)); [exact Hitem | lia | lia]|].
      intros items r2 Hr2. look; cbn [consumes]; [lia | done].
    + eapply consumes_bind; [apply Hitem; lia|]. intros e1 r1 Hr1. cbn [consumes]. lia.
    + destruct (_ && _); [done|]. destruct r' as [|t r']; cbn [head mbind option_bind]; [cbn [consumes length] in *; lia|].
      destruct (comparison_op t); cbn [consumes length tail] in *; [|lia].
      eapply consumes_bind; [apply Hitem; lia|]. intros e1 r1 Hr1. cbn [consumes]. lia.
  - apply (Hchain LMultiplicative additive_op). cbn; lia.
  - apply (Hchain LUnary multiplicative_op). cbn; lia.
  - unfold parse_unary. look.
    + eapply consumes_bind; [apply (Hat LUnary); cbn [rank]; lia|]. intros e r Hr. cbn [consumes]. lia.
    + apply (Hat LPrimary). cbn [rank]. lia.
  - destruct ts as [|t ts]; [done|]. unfold parse_primary; cbn [length] in *.
    assert (Hitem : forall k, (length k < S (length ts))%nat -> consumes (length k) (parse_at LOr fuel k)).
    { intros k Hk. apply (Hat LOr). cbn [rank]. lia. }
    destruct t as [n|s|word|name|op| | |]; cbn [consumes]; try done; try lia.
    + do 3 (destruct (bool_decide _); [cbn [consumes]; lia|]). look; [|cbn [consumes]; lia].
      assert (Hargs : consumes (S (length x)) (if negb (peek_is Close x) then
                 '(first, ts) ← parse_at LOr fuel x; comma_loop (length ts) (parse_at LOr fuel) [first] ts
               else Done ([], x))).
      { destruct (peek_is Close x); cbn [negb consumes]; [cbn [length] in *; lia|].
        eapply consumes_bind; [apply Hitem; cbn [length] in *; lia|]. intros e1 r1 Hr1.
        apply consumes_comma; [|cbn [length] in *; lia..]. intros k Hk. apply Hitem. cbn [length] in *; lia. }
      eapply consumes_bind; [exact Hargs|]. intros args r Hr. look; cbn [consumes]; [lia | done].
    + eapply consumes_bind; [apply Hitem; lia|]. intros e r Hr. look; cbn [consumes]; [lia | done].
Qed.
End Total.

(** ** More fuel changes nothing *)

Definition refines {A} (r r' : outcome ExprError A) : Prop := r <> Panic -> r' = r.

Lemma refines_refl {A} (r : outcome ExprError A) : refines r r.
Proof. done. Qed.

Lemma refines_bind {A B} (m m' : outcome ExprError A) (k k' : A -> outcome ExprError B) :
  refines m m' -> (forall a, refines (k a) (k' a)) -> refines (m ≫= k) (m' ≫= k').
Proof.
  intros Hm Hk Hr. destruct m as [a|e|]; cbn in Hr.
  - rewrite Hm by done. cbn. by apply Hk.
  - by rewrite Hm.
  - done.
Qed.

Lemma refines_chain fuel op operand operand' lhs ts : (forall r, refines (operand r) (operand' r)) ->
  refines (chain fuel op operand lhs ts) (chain fuel op operand' lhs ts).
Proof.
  intros Hop. revert lhs ts. induction fuel as [|fuel IH]; intros lhs [|t ts]; cbn [chain]; try apply refines_refl.
  destruct (op t); [|apply refines_refl]. apply refines_bind; [done|]. intros [e r]. apply IH.
Qed.

Lemma refines_comma fuel item item' items ts : (forall r, refines (item r) (item' r)) ->
  refines (comma_loop fuel item items ts) (comma_loop fuel item' items ts).
Proof.
  intros Hit. revert items ts. induction fuel as [|fuel IH]; intros items [|[] ts]; cbn [comma_loop]; try apply refines_refl.
  apply refines_bind; [apply Hit|]. intros [e r]. apply IH.
Qed.

Section Fuel.
Context `{ExprHost}.

Lemma parse_at_step l fuel ts : refines (parse_at l fuel ts) (parse_at l (S fuel) ts).
Proof.
  revert l ts. induction fuel as [|fuel IH]; intros l ts; [by intros []|].
  remember (S fuel) as fuel' eqn:E. rewrite E at 1. cbn [parse_at]. cbv zeta. clear E.
  destruct l; cbv beta zeta delta [parse_or parse_and parse_not parse_comparison parse_additive parse_multiplicative
    parse_unary parse_primary].
  all: repeat first [ apply refines_refl | apply IH
    | apply refines_chain | apply refines_comma
    | apply refines_bind; [|intros [? ?]] | match goal with |- forall r, _ => intros r end
    | match goal with |- refines (if ?b then _ else _) _ => destruct b end
    | match goal with |- refines (match ?x with _ => _ end) _ => destruct x end ].
Qed.

Lemma parse_at_mono l fuel fuel' ts : (fuel <= fuel')%nat -> parse_at l fuel ts <> Panic ->
  parse_at l fuel' ts = parse_at l fuel ts.
Proof.
  intros Hle Hp. induction Hle as [|fuel' Hle IH]; [done|]. rewrite <-IH. apply parse_at_step. by rewrite IH.
Qed.
End Fuel.

(** ** The grammar

    [derives l ts e]: the tokens [ts] are a phrase of the level [l] that means [e].
    The four chains are left-associative; a comparison is not associative; a word
    that is [NOT] cannot open a comparison, but any word other than a literal's can
    be the name of a field. *)

Inductive chain_level : level -> level -> (Tok -> option BinaryOp) -> Prop :=
| chain_or : chain_level LOr LAnd or_op
| chain_and : chain_level LAnd LNot and_op
| chain_additive : chain_level LAdditive LMultiplicative additive_op
| chain_multiplicative : chain_level LMultiplicative LUnary multiplicative_op.

Definition reserved (word : string) : bool :=
  one_of ["TRUE"; "FALSE"; "NULL"] (to_ascii_uppercase word).

Section Grammar.
Context `{ExprHost}.

(** An optional [NOT] *)
Inductive negation : list Tok -> bool -> Prop :=
| negation_none : negation [] false
| negation_not t : is_keyword "NOT" t = true -> negation [t] true.

Inductive derives : level -> list Tok -> Expr -> Prop :=
| D_operand l l' op ts e : chain_level l l' op -> derives l' ts e -> derives l ts e
| D_chain l l' op ts1 a t o ts2 b : chain_level l l' op -> derives l ts1 a -> op t = Some o -> derives l' ts2 b ->
    derives l (ts1 ++ t :: ts2) (Binary a o b)
| D_not t ts e : is_keyword "NOT" t = true -> derives LNot ts e -> derives LNot (t :: ts) (Unary Not e)
| D_comparison ts e : derives LComparison ts e -> keyword "NOT" ts = false -> derives LNot ts e
| D_additive ts e : derives LAdditive ts e -> derives LComparison ts e
| D_compare ts1 a t o ts2 b : derives LAdditive ts1 a -> comparison_op t = Some o -> derives LAdditive ts2 b ->
    derives LComparison (ts1 ++ t :: ts2) (Binary a o b)
| D_is_null ts e t not negated u : derives LAdditive ts e -> is_keyword "IS" t = true -> negation not negated ->
    is_keyword "NULL" u = true -> derives LComparison (ts ++ t :: not ++ [u]) (IsNull e negated)
| D_in ts e not negated t ts' items : derives LAdditive ts e -> negation not negated -> is_keyword "IN" t = true ->
    derives_list LAdditive ts' items ->
    derives LComparison (ts ++ not ++ t :: Open :: ts' ++ [Close]) (In e items negated)
| D_like ts e not negated t ts' p : derives LAdditive ts e -> negation not negated -> is_keyword "LIKE" t = true ->
    derives LAdditive ts' p -> derives LComparison (ts ++ not ++ t :: ts') (Like e p negated)
| D_neg ts e : derives LUnary ts e -> derives LUnary (Op "-" :: ts) (Unary Neg e)
| D_primary ts e : derives LPrimary ts e -> derives LUnary ts e
| D_number n : derives LPrimary [Num n] (Literal (number n))
| D_string s : derives LPrimary [Str s] (Literal (JString s))
| D_quoted name : derives LPrimary [Quoted name] (Field name)
| D_true word : to_ascii_uppercase word = "TRUE" -> derives LPrimary [Ident word] (Literal (JBool true))
| D_false word : to_ascii_uppercase word = "FALSE" -> derives LPrimary [Ident word] (Literal (JBool false))
| D_null word : to_ascii_uppercase word = "NULL" -> derives LPrimary [Ident word] (Literal JNull)
| D_field word : reserved word = false -> derives LPrimary [Ident word] (Field word)
| D_call word : reserved word = false -> derives LPrimary [Ident word; Open; Close] (Call (to_ascii_lowercase word) [])
| D_call_args word ts args : reserved word = false -> derives_list LOr ts args ->
    derives LPrimary (Ident word :: Open :: ts ++ [Close]) (Call (to_ascii_lowercase word) args)
| D_paren ts e : derives LOr ts e -> derives LPrimary (Open :: ts ++ [Close]) e
with derives_list : level -> list Tok -> list Expr -> Prop :=
| D_one l ts e : derives l ts e -> derives_list l ts [e]
| D_more l ts es ts' e : derives_list l ts es -> derives l ts' e -> derives_list l (ts ++ Comma :: ts') (es ++ [e]).

Scheme derives_mutual := Induction for derives Sort Prop
  with derives_list_mutual := Induction for derives_list Sort Prop.
Combined Scheme derives_both from derives_mutual, derives_list_mutual.

(** ** What is parsed is a phrase *)

(** [r] consumed a phrase of level [l]. *)
Definition phrase (l : level) (ts : list Tok) (r : outcome ExprError (Expr * list Tok)) : Prop :=
  forall e rest, r = Done (e, rest) -> exists used, ts = used ++ rest /\ derives l used e.

Lemma nothing_used {A} (P : list Tok -> A -> Prop) used0 (ts : list Tok) a : P used0 a ->
  exists used, ts = used ++ ts /\ P (used0 ++ used) a.
Proof. intros Ha. exists []. by rewrite (app_nil_r used0). Qed.

Lemma chain_phrase l l' op fuel operand : chain_level l l' op -> (forall ts, phrase l' ts (operand ts)) ->
  forall lhs ts e rest used0, derives l used0 lhs -> chain fuel op operand lhs ts = Done (e, rest) ->
  exists used, ts = used ++ rest /\ derives l (used0 ++ used) e.
Proof.
  intros Hl Hop. induction fuel as [|fuel IH]; intros lhs [|t ts] e rest used0 H0; cbn [chain];
    try (intros [= <- <-]; by apply nothing_used).
  - destruct (op t); [done|]. intros [= <- <-]. by apply nothing_used.
  - destruct (op t) as [o|] eqn:Ho; [|intros [= <- <-]; by apply nothing_used].
    intros ([b r] & Hb & Hc)%outcome_bind_done. destruct (Hop _ _ _ Hb) as (u1 & -> & Hu1).
    destruct (IH _ _ _ _ (used0 ++ t :: u1) (D_chain _ _ _ _ _ _ _ _ _ Hl H0 Ho Hu1) Hc) as (u2 & -> & Hu2).
    exists (t :: u1 ++ u2). rewrite <-app_assoc in *. cbn [app] in *. by rewrite <-app_assoc.
Qed.

Lemma comma_phrase l fuel item : (forall ts, phrase l ts (item ts)) ->
  forall items ts es rest used0, derives_list l used0 items -> comma_loop fuel item items ts = Done (es, rest) ->
  exists used, ts = used ++ rest /\ derives_list l (used0 ++ used) es.
Proof.
  intros Hit. induction fuel as [|fuel IH]; intros items ts es rest used0 H0.
  - destruct ts as [|[] ts]; cbn [comma_loop]; try done; intros [= <- <-]; by apply nothing_used.
  - destruct ts as [|[] ts]; cbn [comma_loop]; try (intros [= <- <-]; by apply nothing_used).
    intros ([b r] & Hb & Hc)%outcome_bind_done. destruct (Hit _ _ _ Hb) as (u1 & -> & Hu1).
    destruct (IH _ _ _ _ (used0 ++ Comma :: u1) (D_more _ _ _ _ _ H0 Hu1) Hc) as (u2 & -> & Hu2).
    exists (Comma :: u1 ++ u2). rewrite <-app_assoc in *. cbn [app] in *. by rewrite <-app_assoc.
Qed.
End Grammar.

Section Soundness.
Context `{ExprHost}.

Lemma keyword_tail word ts : keyword word ts = true -> exists t, ts = t :: tail ts /\ is_keyword word t = true.
Proof. intros (t & rest & -> & Ht)%keyword_cons. by exists t. Qed.

Lemma peek_tail t ts : peek_is t ts = true -> ts = t :: tail ts.
Proof. intros (rest & ->)%peek_cons. done. Qed.

(** [let negated = ..; if negated { self.pos += 1 }] *)
Lemma negation_used (b : bool) ts : b = true -> keyword "NOT" ts = true -> exists not, ts = not ++ tail ts /\ negation not true.
Proof. intros -> (t & Hts & Ht)%keyword_tail. exists [t]. split; [exact Hts | by constructor]. Qed.

Lemma optional_not (b : bool) ts : (b = true -> keyword "NOT" ts = true) ->
  exists not, ts = not ++ (if b then tail ts else ts) /\ negation not b.
Proof.
  destruct b; intros Hb.
  - by apply (negation_used true); [|apply Hb].
  - exists []. split; [done | constructor].
Qed.

Lemma chain_level_phrase l l' op fuel ts :
  chain_level l l' op -> (forall ts, phrase l' ts (parse_at l' fuel ts)) ->
  phrase l ts ('(lhs, rest) ← parse_at l' fuel ts; chain (length rest) op (parse_at l' fuel) lhs rest).
Proof.
  intros Hl Hop e rest. intros ([a r] & Ha & Hc)%outcome_bind_done. destruct (Hop _ _ _ Ha) as (u1 & -> & Hu1).
  destruct (chain_phrase l l' op _ _ Hl Hop _ _ _ _ u1 (D_operand _ _ _ _ _ Hl Hu1) Hc) as (u2 & -> & Hu2).
  exists (u1 ++ u2). by rewrite <-app_assoc.
Qed.

Lemma comparison_phrase fuel ts : (forall ts, phrase LAdditive ts (parse_at LAdditive fuel ts)) ->
  phrase LComparison ts (parse_at LComparison (S fuel) ts).
Proof.
  intros Had e rest. cbn [parse_at]; unfold parse_comparison. intros ([a r] & Ha & Hk)%outcome_bind_done.
  destruct (Had _ _ _ Ha) as (u & -> & Hu). destruct (keyword "IS" r) eqn:Eis.
  { apply keyword_tail in Eis as (t & Hr & Ht). cbv zeta in Hk.
    destruct (optional_not (keyword "NOT" (tail r)) (tail r) id) as (not & Hnot & Hneg).
    destruct (keyword "NULL" _) eqn:Enull; cbn [negb] in Hk; [|done]. injection Hk as <- <-.
    apply keyword_tail in Enull as (v & Hv & Hnull).
    exists (u ++ t :: not ++ [v]). split; [|by apply D_is_null].
    rewrite <-app_assoc. cbn [app]. rewrite <-app_assoc. cbn [app]. rewrite <-Hv. f_equal. rewrite Hr at 1. f_equal. exact Hnot. }
  cbv zeta in Hk. set (negated := keyword "NOT" r && _) in Hk.
  destruct (optional_not negated r) as (not & Hnot & Hneg); [by intros [? _]%andb_prop|].
  set (r' := if negated then tail r else r) in *. clearbody r' negated. destruct (keyword "IN" r') eqn:Ein.
  { apply keyword_tail in Ein as (t & Hr' & Ht). destruct (peek_is Open _) eqn:Eopen; cbn [negb] in Hk; [|done].
    apply peek_tail in Eopen. apply outcome_bind_done in Hk as ([e1 r1] & H1 & Hk). apply outcome_bind_done in Hk as ([items r2] & H2 & Hk).
    destruct (peek_is Close r2) eqn:Eclose; cbn [negb] in Hk; [|done]. apply peek_tail in Eclose. injection Hk as <- <-.
    destruct (Had _ _ _ H1) as (u1 & Hu1 & Hd1).
    destruct (comma_phrase LAdditive _ _ Had _ _ _ _ u1 (D_one _ _ _ Hd1) H2) as (u2 & -> & Hd2).
    exists (u ++ not ++ t :: Open :: (u1 ++ u2) ++ [Close]). split; [|by apply D_in].
    rewrite Hnot, Hr', Eopen, Hu1, Eclose. cbn [tail]. rewrite <-!app_assoc. cbn [app]. by rewrite <-!app_assoc. }
  destruct (keyword "LIKE" r') eqn:Elike.
  { apply keyword_tail in Elike as (t & Hr' & Ht). apply outcome_bind_done in Hk as ([p r1] & H1 & Hk). injection Hk as <- <-.
    destruct (Had _ _ _ H1) as (u1 & Hu1 & Hd1). exists (u ++ not ++ t :: u1). split; [|by apply D_like].
    rewrite Hnot, Hr', Hu1. rewrite <-!app_assoc. done. }
  destruct negated; [done|]. inversion Hneg; subst not. cbn [app] in Hnot. subst r'.
  destruct r as [|t r]; cbn [head mbind option_bind] in Hk.
  { injection Hk as <- <-. exists u. split; [done | by apply D_additive]. }
  destruct (comparison_op t) as [op|] eqn:Eop.
  - apply outcome_bind_done in Hk as ([b r1] & H1 & Hk). injection Hk as <- <-. cbn [tail] in H1.
    destruct (Had _ _ _ H1) as (u1 & -> & Hd1). exists (u ++ t :: u1). split; [by rewrite <-app_assoc | by apply D_compare].
  - injection Hk as <- <-. exists u. split; [done | by apply D_additive].
Qed.

Lemma reserved_false word : to_ascii_uppercase word <> "TRUE" -> to_ascii_uppercase word <> "FALSE" ->
  to_ascii_uppercase word <> "NULL" -> reserved word = false.
Proof. intros H1 H2 H3. unfold reserved, one_of. cbn [existsb]. by rewrite !bool_decide_eq_false_2. Qed.

Lemma primary_phrase fuel ts : (forall ts, phrase LOr ts (parse_at LOr fuel ts)) ->
  phrase LPrimary ts (parse_at LPrimary (S fuel) ts).
Proof.
  intros Hor e rest. destruct ts as [|t ts]; [done|]. cbn [parse_at]; unfold parse_primary.
  destruct t as [n|s|word|name|op| | |]; try done.
  - intros [= <- <-]. exists [Num n]. split; [done | constructor].
  - intros [= <- <-]. exists [Str s]. split; [done | constructor].
  - cbv zeta. case_bool_decide as Ht; [intros [= <- <-]; exists [Ident word]; split; [done | by constructor]|].
    case_bool_decide as Hf; [intros [= <- <-]; exists [Ident word]; split; [done | by constructor]|].
    case_bool_decide as Hn; [intros [= <- <-]; exists [Ident word]; split; [done | by constructor]|].
    pose proof (reserved_false word Ht Hf Hn) as Hres. destruct (peek_is Open ts) eqn:Eopen.
    + apply peek_tail in Eopen. intros ([args r] & Hargs & Hk)%outcome_bind_done.
      destruct (peek_is Close r) eqn:Eclose; cbn [negb] in Hk; [|done]. apply peek_tail in Eclose. simplify_eq.
      destruct (peek_is Close (tail ts)) eqn:Eempty; cbn [negb] in Hargs.
      * simplify_eq. exists [Ident word; Open; Close]. split; [|by apply D_call]. rewrite Eopen. cbn [app tail]. by rewrite <-Eclose.
      * apply outcome_bind_done in Hargs as ([e1 r1] & H1 & H2).
        destruct (Hor _ _ _ H1) as (u1 & Hu1 & Hd1).
        destruct (comma_phrase LOr _ _ Hor _ _ _ _ u1 (D_one _ _ _ Hd1) H2) as (u2 & -> & Hd2).
        exists (Ident word :: Open :: (u1 ++ u2) ++ [Close]). split; [|by apply D_call_args].
        rewrite Eopen, Hu1, Eclose. cbn [app tail]. by rewrite <-!app_assoc.
    + intros [= <- <-]. exists [Ident word]. split; [done | by constructor].
  - intros [= <- <-]. exists [Quoted name]. split; [done | constructor].
  - intros ([e1 r1] & H1 & Hk)%outcome_bind_done. destruct (peek_is Close r1) eqn:Eclose; cbn [negb] in Hk; [|done].
    apply peek_tail in Eclose. simplify_eq. destruct (Hor _ _ _ H1) as (u1 & -> & Hd1).
    exists (Open :: u1 ++ [Close]). split; [|by apply D_paren]. rewrite Eclose. cbn [app tail]. by rewrite <-app_assoc.
Qed.

Lemma parse_at_phrase l fuel ts : phrase l ts (parse_at l fuel ts).
Proof.
  revert l ts. induction fuel as [|fuel IH]; intros l ts; [by destruct l|].
  destruct l.
  - exact (chain_level_phrase LOr LAnd or_op fuel ts chain_or (IH LAnd)).
  - exact (chain_level_phrase LAnd LNot and_op fuel ts chain_and (IH LNot)).
  - intros e rest. cbn [parse_at]; unfold parse_not. destruct (keyword "NOT" ts) eqn:Enot.
    + apply keyword_tail in Enot as (t & Hts & Ht). intros ([e1 r1] & H1 & Hk)%outcome_bind_done. simplify_eq.
      destruct (IH LNot _ _ _ H1) as (u & Hu & Hd). exists (t :: u). split; [by rewrite Hts, Hu | by apply D_not].
    + intros H1. destruct (IH LComparison _ _ _ H1) as (u & Hu & Hd). exists u. split; [done|]. apply D_comparison; [done|].
      destruct u as [|t u]; [done|]. by rewrite Hu in Enot.
  - exact (comparison_phrase fuel ts (IH LAdditive)).
  - exact (chain_level_phrase LAdditive LMultiplicative additive_op fuel ts chain_additive (IH LMultiplicative)).
  - exact (chain_level_phrase LMultiplicative LUnary multiplicative_op fuel ts chain_multiplicative (IH LUnary)).
  - intros e rest. cbn [parse_at]; unfold parse_unary. destruct (peek_is (Op "-") ts) eqn:Eneg.
    + apply peek_tail in Eneg. intros ([e1 r1] & H1 & Hk)%outcome_bind_done. simplify_eq.
      destruct (IH LUnary _ _ _ H1) as (u & Hu & Hd). exists (Op "-" :: u). split; [by rewrite Eneg, Hu | by apply D_neg].
    + intros H1. destruct (IH LPrimary _ _ _ H1) as (u & Hu & Hd). exists u. split; [done | by apply D_primary].
  - exact (primary_phrase fuel ts (IH LOr)).
Qed.
End Soundness.

(** ** Every phrase is parsed *)

(** One case for each member of the list in [H : one_of l c = true] *)
Ltac one_of_cases H tac :=
  unfold one_of in H; cbn [existsb] in H;
  repeat (apply orb_prop in H as [->%bool_decide_eq_true|H]; [tac|]); done.

Definition no_op (op : Tok -> option BinaryOp) (ts : list Tok) : bool :=
  match head ts with Some t => bool_decide (op t = None) | None => true end.

(** What follows does not continue a phrase of the level. *)
Definition ends (l : level) (ts : list Tok) : bool :=
  let primary := negb (peek_is Open ts) in
  let multiplicative := primary && no_op multiplicative_op ts in
  let additive := multiplicative && no_op additive_op ts in
  let comparison := additive && negb (keyword "IS" ts) && negb (keyword "IN" ts) && negb (keyword "LIKE" ts)
    && negb (keyword "NOT" ts && (keyword_at 1 "IN" ts || keyword_at 1 "LIKE" ts)) && no_op comparison_op ts in
  match l with
  | LPrimary | LUnary => primary
  | LMultiplicative => multiplicative
  | LAdditive => additive
  | LComparison | LNot => comparison
  | LAnd => comparison && no_op and_op ts
  | LOr => comparison && no_op and_op ts && no_op or_op ts
  end.

Lemma ends_chain l l' op ts : chain_level l l' op -> ends l ts = ends l' ts && no_op op ts.
Proof. by destruct 1. Qed.

Lemma ends_primary l ts : ends l ts = true -> peek_is Open ts = false.
Proof.
  intros He. apply negb_true_iff. destruct l; cbn [ends] in He; repeat (apply andb_prop in He as [He _]); exact He.
Qed.

Lemma keyword_excludes a b t : is_keyword a t = true -> to_ascii_lowercase a <> to_ascii_lowercase b ->
  is_keyword b t = false.
Proof.
  intros Ha Hne. destruct t as [| |w| |op| | |]; try done; cbn [is_keyword] in *.
  - unfold eq_ignore_ascii_case in *. apply bool_decide_eq_true in Ha. apply bool_decide_eq_false. congruence.
  - apply bool_decide_eq_true in Ha. apply bool_decide_eq_false. congruence.
Qed.

(** A keyword is none of the tokens that continue an additive phrase. *)
Lemma keyword_ends_additive a t rest : is_keyword a t = true ->
  one_of ["+"; "-"; "*"; "/"; "%"] a = false -> ends LAdditive (t :: rest) = true.
Proof.
  intros Ha Hs. unfold one_of in Hs. cbn [existsb] in Hs. rewrite !orb_false_iff, !bool_decide_eq_false in Hs.
  destruct Hs as (H1 & H2 & H3 & H4 & H5 & _).
  destruct t as [| |w| |op| | |]; try done; cbn [is_keyword] in Ha.
  apply bool_decide_eq_true in Ha as ->. unfold ends, peek_is, no_op, multiplicative_op, additive_op. cbn [head].
  rewrite !(bool_decide_eq_false_2 (Op a = _)) by congruence. reflexivity.
Qed.

Lemma comparison_op_inv t o : comparison_op t = Some o ->
  exists op, t = Op op /\ one_of ["="; "!="; "<"; "<="; ">"; ">="] op = true.
Proof.
  destruct t as [| | | |op| | |]; try done. cbn [comparison_op]. intros Hop. exists op. split; [done|].
  unfold one_of. cbn [existsb].
  repeat (case_bool_decide; [by rewrite ?orb_true_r | cbn [orb]]). done.
Qed.

Lemma comparison_op_ends t o rest : comparison_op t = Some o ->
  ends LAdditive (t :: rest) = true /\ (forall w, one_of ["IS"; "IN"; "LIKE"; "NOT"] w = true -> is_keyword w t = false).
Proof.
  intros (op & -> & Hop)%comparison_op_inv. unfold one_of in *. cbn [existsb] in *. split.
  - one_of_cases Hop ltac:(reflexivity).
  - intros w Hw. cbn [is_keyword]. apply bool_decide_eq_false. intros ->.
    one_of_cases Hop ltac:(by vm_compute in Hw).
Qed.

Lemma chain_op_ends l l' op t o rest : chain_level l l' op -> op t = Some o -> ends l' (t :: rest) = true.
Proof.
  assert (Hword : forall a, is_keyword a t = true -> one_of ["OR"; "または"; "AND"; "かつ"] a = true ->
    ends LComparison (t :: rest) = true
    /\ (one_of ["OR"; "または"] a = true -> no_op and_op (t :: rest) = true)).
  { intros a Ha Hin. unfold one_of in *. cbn [existsb] in *.
    assert (Hadd : ends LAdditive (t :: rest) = true).
    { apply (keyword_ends_additive a); [done|].
      one_of_cases Hin ltac:(reflexivity). }
    assert (Hk : forall w, one_of ["IS"; "IN"; "LIKE"; "NOT"] w = true -> is_keyword w t = false).
    { intros w Hw. apply (keyword_excludes a); [done|]. unfold one_of in Hw. cbn [existsb] in Hw.
      one_of_cases Hw ltac:(one_of_cases Hin ltac:(by vm_compute)). }
    split.
    - unfold ends in *. cbv zeta in *. rewrite Hadd. unfold keyword, keyword_at. cbn [head fmap option_fmap option_map default].
      unfold id. rewrite !Hk by reflexivity. cbn [negb andb]. unfold no_op. cbn [head]. apply bool_decide_eq_true.
      destruct t as [| | | |sym| | |]; try done. cbn [is_keyword] in Ha. apply bool_decide_eq_true in Ha as ->.
      one_of_cases Hin ltac:(reflexivity).
    - intros Hor. unfold no_op, and_op. cbn [head]. apply bool_decide_eq_true.
      rewrite !(keyword_excludes a); [done|done| |done|];
        one_of_cases Hor ltac:(by vm_compute). }
  intros Hl Ho. destruct Hl.
  - unfold or_op in Ho. assert (exists a, is_keyword a t = true /\ one_of ["OR"; "または"] a = true) as (a & Ha & Hin).
    { destruct (is_keyword "OR" t) eqn:E; [by exists "OR"|]. destruct (is_keyword "または" t) eqn:E'; [by exists "または"|done]. }
    destruct (Hword a Ha) as [H1 H2].
    { unfold one_of in *. cbn [existsb] in *. one_of_cases Hin ltac:(reflexivity). }
    change (ends LAnd (t :: rest)) with (ends LComparison (t :: rest) && no_op and_op (t :: rest)). by rewrite H1, H2.
  - unfold and_op in Ho. assert (exists a, is_keyword a t = true /\ one_of ["AND"; "かつ"] a = true) as (a & Ha & Hin).
    { destruct (is_keyword "AND" t) eqn:E; [by exists "AND"|]. destruct (is_keyword "かつ" t) eqn:E'; [by exists "かつ"|done]. }
    apply (Hword a Ha).
    unfold one_of in *. cbn [existsb] in *. one_of_cases Hin ltac:(reflexivity).
  - unfold additive_op in Ho. repeat (case_bool_decide; [by subst t|]). done.
  - unfold multiplicative_op in Ho. repeat (case_bool_decide; [by subst t|]). done.
Qed.

Section Completeness.
Context `{ExprHost}.

(** From some fuel on, the parser of the level reads the phrase and stops behind it. *)
Definition reads (l : level) (ts : list Tok) (e : Expr) : Prop :=
  forall rest, ends l rest = true -> exists f0, forall f, (f0 <= f)%nat -> parse_at l f (ts ++ rest) = Done (e, rest).

(** A chain also when more operands follow: its loop gets behind the phrase in [k]
    turns. *)
Definition reads_chain (l' : level) (op : Tok -> option BinaryOp) (ts : list Tok) (e : Expr) : Prop :=
  forall rest, ends l' rest = true -> exists f0, forall f, (f0 <= f)%nat -> exists a r k,
    parse_at l' f (ts ++ rest) = Done (a, r) /\ (k + length rest <= length r)%nat
    /\ forall n, chain (k + n) op (parse_at l' f) a r = chain n op (parse_at l' f) e rest.

Definition reads_list (l : level) (ts : list Tok) (es : list Expr) : Prop :=
  forall rest, ends l rest = true -> exists f0, forall f, (f0 <= f)%nat -> exists e r k,
    parse_at l f (ts ++ rest) = Done (e, r) /\ (k + length rest <= length r)%nat
    /\ forall n, comma_loop (k + n) (parse_at l f) [e] r = comma_loop n (parse_at l f) es rest.

Definition reads_at (l : level) : list Tok -> Expr -> Prop :=
  match l with
  | LOr => reads_chain LAnd or_op
  | LAnd => reads_chain LNot and_op
  | LAdditive => reads_chain LMultiplicative additive_op
  | LMultiplicative => reads_chain LUnary multiplicative_op
  | _ => reads l
  end.

Lemma reads_at_chain l l' op ts e : chain_level l l' op -> reads_at l ts e = reads_chain l' op ts e.
Proof. by destruct 1. Qed.

Lemma chain_ended op P fuel e ts : no_op op ts = true -> chain fuel op P e ts = Done (e, ts).
Proof.
  destruct ts as [|t ts]; [by destruct fuel|]. unfold no_op. cbn [head].
  intros Ho%bool_decide_eq_true. destruct fuel; cbn [chain]; by rewrite Ho.
Qed.

Lemma parse_at_chain l l' op f ts : chain_level l l' op ->
  parse_at l (S f) ts = ('(lhs, rest) ← parse_at l' f ts; chain (length rest) op (parse_at l' f) lhs rest).
Proof. by destruct 1. Qed.

Lemma reads_at_reads l ts e : reads_at l ts e -> reads l ts e.
Proof.
  assert (Hc : forall l' op, chain_level l l' op -> reads_chain l' op ts e -> reads l ts e).
  { intros l' op Hl Hr rest Hends. rewrite (ends_chain l l' op) in Hends by done. apply andb_prop in Hends as [He Hno].
    destruct (Hr rest He) as [f0 Hf]. exists (S f0). intros [|f] Hle; [lia|].
    destruct (Hf f ltac:(lia)) as (a & r & k & Ha & Hk & Hn). rewrite (parse_at_chain l l' op) by done. rewrite Ha.
    cbn [mbind outcome_bind]. replace (length r) with (k + (length r - k))%nat by lia. rewrite Hn. by apply chain_ended. }
  destruct l; cbn [reads_at]; intros Hr; try exact Hr; eapply Hc; (exact Hr || constructor).
Qed.

Lemma ends_close l rest : ends l (Close :: rest) = true.
Proof. by destruct l. Qed.
Lemma ends_comma l rest : ends l (Comma :: rest) = true.
Proof. by destruct l. Qed.
Lemma ends_nil l : ends l [] = true.
Proof. by destruct l. Qed.

(** The first token of a phrase *)
Lemma derives_head :
  (forall l ts e, derives l ts e -> exists t ts', ts = t :: ts' /\ t <> Close)
  /\ (forall l ts es, derives_list l ts es -> exists t ts', ts = t :: ts' /\ t <> Close).
Proof.
  apply derives_both; intros; try (by eexists _, _); try done;
    repeat match goal with Hx : exists t ts', _ |- _ => destruct Hx as (? & ? & -> & ?) end;
    try (by eexists _, _). eexists _, _. split; [reflexivity|]. by destruct t.
Qed.

Lemma primary_head ts e : derives LPrimary ts e -> exists t ts', ts = t :: ts' /\ t <> Op "-".
Proof. inversion 1; subst; try (match goal with Hc : chain_level _ _ _ |- _ => inversion Hc end); by eexists _, _. Qed.

(** [k] turns of the loop, then one more *)
Lemma chain_turn op P k n a r e t o rest' b rest : op t = Some o -> P rest' = Done (b, rest) ->
  (forall n, chain (k + n) op P a r = chain n op P e (t :: rest')) ->
  chain (S k + n) op P a r = chain n op P (Binary e o b) rest.
Proof.
  intros Ho Hb Hn. replace (S k + n)%nat with (k + S n)%nat by lia. rewrite Hn. cbn [chain]. by rewrite Ho, Hb.
Qed.

Lemma reads_chain_op l l' op ts1 a t o ts2 b : chain_level l l' op -> op t = Some o ->
  reads_chain l' op ts1 a -> reads l' ts2 b -> reads_chain l' op (ts1 ++ t :: ts2) (Binary a o b).
Proof.
  intros Hl Ho H1 H2 rest He.
  destruct (H1 (t :: ts2 ++ rest)) as [f1 Hf1]; [by eapply chain_op_ends|]. destruct (H2 rest He) as [f2 Hf2].
  exists (max f1 f2). intros f Hf. destruct (Hf1 f ltac:(lia)) as (a0 & r & k & Ha & Hk & Hn).
  exists a0, r, (S k). rewrite <-app_assoc. cbn [app]. split; [exact Ha|]. cbn [length] in Hk. rewrite length_app in Hk.
  split; [lia|]. intros n. eapply chain_turn; [done | apply Hf2; lia | exact Hn].
Qed.

Lemma reads_list_more l ts es ts' e : reads_list l ts es -> reads l ts' e -> reads_list l (ts ++ Comma :: ts') (es ++ [e]).
Proof.
  intros H1 H2 rest He. destruct (H1 (Comma :: ts' ++ rest) (ends_comma _ _)) as [f1 Hf1]. destruct (H2 rest He) as [f2 Hf2].
  exists (max f1 f2). intros f Hf. destruct (Hf1 f ltac:(lia)) as (a & r & k & Ha & Hk & Hn).
  exists a, r, (S k). rewrite <-app_assoc. cbn [app]. split; [exact Ha|]. cbn [length] in Hk. rewrite length_app in Hk.
  split; [lia|]. intros n. replace (S k + n)%nat with (k + S n)%nat by lia. rewrite Hn. cbn [comma_loop].
  by rewrite Hf2 by lia.
Qed.

Lemma ends_comparison ts : ends LComparison ts = true ->
  ends LAdditive ts = true /\ keyword "IS" ts = false /\ keyword "IN" ts = false /\ keyword "LIKE" ts = false
  /\ keyword "NOT" ts && (keyword_at 1 "IN" ts || keyword_at 1 "LIKE" ts) = false /\ no_op comparison_op ts = true.
Proof.
  intros He. change (ends LComparison ts) with (ends LAdditive ts && negb (keyword "IS" ts) && negb (keyword "IN" ts)
    && negb (keyword "LIKE" ts) && negb (keyword "NOT" ts && (keyword_at 1 "IN" ts || keyword_at 1 "LIKE" ts))
    && no_op comparison_op ts) in He.
  apply andb_prop in He as [He H6]. apply andb_prop in He as [He H5]. apply andb_prop in He as [He H4].
  apply andb_prop in He as [He H3]. apply andb_prop in He as [H1 H2].
  by rewrite !negb_true_iff in *.
Qed.

Lemma no_op_head op ts : no_op op ts = true -> head ts ≫= op = None.
Proof. unfold no_op. destruct ts as [|t ts]; [done|]. cbn [head mbind option_bind]. by intros ?%bool_decide_eq_true. Qed.

Lemma reads_additive ts e : reads LAdditive ts e -> reads LComparison ts e.
Proof.
  intros Hr rest He. destruct (ends_comparison rest He) as (E1 & E2 & E3 & E4 & E5 & E6).
  destruct (Hr rest E1) as [f0 Hf]. exists (S f0). intros [|f] Hle; [lia|]. cbn [parse_at]; unfold parse_comparison.
  specialize (Hf f ltac:(lia)). rewrite Hf. cbn [mbind outcome_bind].
  rewrite E2. cbv zeta. rewrite E5, E3, E4. by rewrite no_op_head.
Qed.

Lemma keyword_head w t rest : keyword w (t :: rest) = is_keyword w t.
Proof. reflexivity. Qed.

Lemma reads_compare ts1 a t o ts2 b : reads LAdditive ts1 a -> comparison_op t = Some o -> reads LAdditive ts2 b ->
  reads LComparison (ts1 ++ t :: ts2) (Binary a o b).
Proof.
  intros H1 Ho H2 rest He. destruct (ends_comparison rest He) as (E1 & _).
  destruct (comparison_op_ends t o (ts2 ++ rest) Ho) as [Ht Hk].
  destruct (H1 _ Ht) as [f1 Hf1]. destruct (H2 rest E1) as [f2 Hf2].
  exists (S (max f1 f2)). intros [|f] Hle; [lia|]. rewrite <-app_assoc. cbn [app parse_at]; unfold parse_comparison.
  specialize (Hf1 f ltac:(lia)). specialize (Hf2 f ltac:(lia)). rewrite Hf1.
  cbn [mbind outcome_bind]. cbv zeta. rewrite !keyword_head, !Hk by reflexivity. cbn [andb].
  rewrite !keyword_head, !Hk by reflexivity. cbn [head mbind option_bind]. rewrite Ho. cbn [tail]. by rewrite Hf2.
Qed.

(** The keyword behind an additive phrase, with the optional [NOT] before it *)
Lemma keyword_after w t rest : is_keyword w t = true -> one_of ["IS"; "IN"; "LIKE"; "NOT"] w = true ->
  ends LAdditive (t :: rest) = true.
Proof.
  intros Ht Hw. apply (keyword_ends_additive w); [done|]. unfold one_of in *. cbn [existsb] in Hw.
  one_of_cases Hw ltac:(reflexivity).
Qed.

Lemma reads_is_null ts e t not negated u : reads LAdditive ts e -> is_keyword "IS" t = true -> negation not negated ->
  is_keyword "NULL" u = true -> reads LComparison (ts ++ t :: not ++ [u]) (IsNull e negated).
Proof.
  intros Hr Ht Hneg Hu rest He. destruct (Hr (t :: not ++ u :: rest)) as [f0 Hf]; [by apply (keyword_after "IS")|].
  exists (S f0). intros [|f] Hle; [lia|]. rewrite <-app_assoc. cbn [app]. rewrite <-app_assoc. cbn [app parse_at]; unfold parse_comparison.
  specialize (Hf f ltac:(lia)). rewrite Hf. cbn [mbind outcome_bind]. rewrite keyword_head, Ht. cbv zeta. cbn [tail].
  destruct Hneg as [|v Hv]; cbn [app].
  - rewrite keyword_head, (keyword_excludes "NULL") by (done || by vm_compute). by rewrite keyword_head, Hu.
  - rewrite keyword_head, Hv. cbn [tail]. by rewrite keyword_head, Hu.
Qed.

(** What the parser sees after the phrase: [NOT] taken off when [IN] or [LIKE]
    follows it *)
Lemma negation_seen not negated w t rest : negation not negated -> is_keyword w t = true ->
  w = "IN" \/ w = "LIKE" ->
  let r := not ++ t :: rest in
  ends LAdditive r = true /\ keyword "IS" r = false
  /\ keyword "NOT" r && (keyword_at 1 "IN" r || keyword_at 1 "LIKE" r) = negated
  /\ (if negated then tail r else r) = t :: rest.
Proof.
  intros Hneg Ht Hw r. unfold r. destruct Hneg as [|v Hv]; cbn [app].
  - rewrite !keyword_head. split_and!; [|by destruct Hw as [->| ->]; apply (keyword_excludes _ _ _ Ht); vm_compute| |done].
    + apply (keyword_after w); [done|]. by destruct Hw as [->| ->].
    + by rewrite (keyword_excludes w "NOT") by (done || by destruct Hw as [->| ->]; vm_compute).
  - rewrite !keyword_head, Hv. split_and!; [by apply (keyword_after "NOT")|by apply (keyword_excludes "NOT")| |done].
    unfold keyword_at. cbn [lookup list_lookup fmap option_fmap option_map default andb]. unfold id.
    destruct Hw as [->| ->]; by rewrite Ht, ?orb_true_r.
Qed.

Lemma reads_in ts e not negated t ts' items : reads LAdditive ts e -> negation not negated -> is_keyword "IN" t = true ->
  reads_list LAdditive ts' items -> reads LComparison (ts ++ not ++ t :: Open :: ts' ++ [Close]) (In e items negated).
Proof.
  intros Hr Hneg Ht Hl rest He.
  destruct (negation_seen not negated "IN" t (Open :: ts' ++ Close :: rest) Hneg Ht (or_introl eq_refl)) as (E1 & E2 & E3 & E4).
  destruct (Hr _ E1) as [f1 Hf1]. destruct (Hl (Close :: rest) (ends_close _ _)) as [f2 Hf2].
  exists (S (max f1 f2)). intros [|f] Hle; [lia|]. rewrite <-!app_assoc. cbn [app]. rewrite <-app_assoc. cbn [app parse_at]; unfold parse_comparison.
  specialize (Hf1 f ltac:(lia)).  rewrite Hf1. cbn [mbind outcome_bind].
  rewrite E2. cbv zeta. rewrite E3, E4, keyword_head, Ht. cbn [tail]. change (negb (peek_is Open (Open :: _))) with false.
  cbn [tail]. cbv iota. destruct (Hf2 f ltac:(lia)) as (a & r & k & Ha & Hk & Hn). rewrite Ha.
  cbn [mbind outcome_bind]. replace (length r) with (k + (length r - k))%nat by lia. rewrite Hn.
  by destruct (length r - k)%nat.
Qed.

Lemma reads_like ts e not negated t ts' p : reads LAdditive ts e -> negation not negated -> is_keyword "LIKE" t = true ->
  reads LAdditive ts' p -> reads LComparison (ts ++ not ++ t :: ts') (Like e p negated).
Proof.
  intros Hr Hneg Ht Hp rest He. destruct (ends_comparison rest He) as (Ea & _).
  destruct (negation_seen not negated "LIKE" t (ts' ++ rest) Hneg Ht (or_intror eq_refl)) as (E1 & E2 & E3 & E4).
  destruct (Hr _ E1) as [f1 Hf1]. destruct (Hp rest Ea) as [f2 Hf2].
  exists (S (max f1 f2)). intros [|f] Hle; [lia|]. rewrite <-!app_assoc. cbn [app parse_at]; unfold parse_comparison.
  specialize (Hf1 f ltac:(lia)). specialize (Hf2 f ltac:(lia)). rewrite Hf1. cbn [mbind outcome_bind].
  rewrite E2. cbv zeta. rewrite E3, E4, keyword_head, (keyword_excludes "LIKE") by (done || by vm_compute).
  rewrite keyword_head, Ht. cbn [tail]. by rewrite Hf2.
Qed.

(** ** Primaries *)

Lemma reads_token t ts e : (forall f rest, peek_is Open rest = false -> parse_at LPrimary (S f) (t :: ts ++ rest) = Done (e, rest)) ->
  reads LPrimary (t :: ts) e.
Proof.
  intros Hp rest He%ends_primary. exists 1%nat. intros [|f] Hle; [lia|]. by apply Hp.
Qed.

Lemma reserved_false_inv word : reserved word = false ->
  to_ascii_uppercase word <> "TRUE" /\ to_ascii_uppercase word <> "FALSE" /\ to_ascii_uppercase word <> "NULL".
Proof.
  unfold reserved, one_of. cbn [existsb]. rewrite !orb_false_iff, !bool_decide_eq_false. tauto.
Qed.

Lemma reads_paren ts e : reads LOr ts e -> reads LPrimary (Open :: ts ++ [Close]) e.
Proof.
  intros Hr rest He. destruct (Hr (Close :: rest) (ends_close _ _)) as [f0 Hf]. exists (S f0).
  intros [|f] Hle; [lia|]. cbn [app parse_at]; unfold parse_primary. rewrite <-app_assoc. cbn [app].
  specialize (Hf f ltac:(lia)). by rewrite Hf.
Qed.

Lemma reads_call word ts args : reserved word = false -> (exists t ts', ts = t :: ts' /\ t <> Close) ->
  reads_list LOr ts args -> reads LPrimary (Ident word :: Open :: ts ++ [Close]) (Call (to_ascii_lowercase word) args).
Proof.
  intros (H1 & H2 & H3)%reserved_false_inv (u & us & Hts & Hu) Hl rest He.
  destruct (Hl (Close :: rest) (ends_close _ _)) as [f0 Hf]. exists (S f0). intros [|f] Hle; [lia|].
  cbn [app parse_at]; unfold parse_primary. rewrite <-app_assoc. cbn [app]. cbv zeta. rewrite !bool_decide_eq_false_2 by done.
  change (peek_is Open (Open :: _)) with true. cbn [tail].
  replace (peek_is Close (ts ++ Close :: rest)) with false.
  2:{ symmetry. rewrite Hts. unfold peek_is. cbn [app head]. apply bool_decide_eq_false. congruence. }
  cbn [negb]. destruct (Hf f ltac:(lia)) as (a & r & k & Ha & Hk & Hn). rewrite Ha.
  cbn [mbind outcome_bind]. replace (length r) with (k + (length r - k))%nat by lia. rewrite Hn. by destruct (length r - k)%nat.
Qed.

Lemma derives_reads :
  (forall l ts e, derives l ts e -> reads_at l ts e) /\ (forall l ts es, derives_list l ts es -> reads_list l ts es).
Proof.
  apply derives_both; cbn [reads_at].
  - intros l l' op ts e Hl _ IH%reads_at_reads. rewrite (reads_at_chain l l' op) by done. intros rest He.
    destruct (IH rest He) as [f0 Hf]. exists f0. intros f Hle. exists e, rest, 0%nat. split; [by apply Hf | by split].
  - intros l l' op ts1 a t o ts2 b Hl _ IH1 Ho _ IH2%reads_at_reads. rewrite (reads_at_chain l l' op) in * by done.
    by eapply reads_chain_op.
  - intros t ts e Ht _ IH rest He. destruct (IH rest He) as [f0 Hf]. exists (S f0). intros [|f] Hle; [lia|].
    cbn [app parse_at]; unfold parse_not. rewrite keyword_head, Ht. cbn [tail]. specialize (Hf f ltac:(lia)). by rewrite Hf.
  - intros ts e Hd IH Hnot rest He. destruct (IH rest He) as [f0 Hf]. exists (S f0). intros [|f] Hle; [lia|].
    destruct (proj1 derives_head _ _ _ Hd) as (t & ts' & -> & _). cbn [app parse_at]; unfold parse_not. rewrite keyword_head in *.
    rewrite Hnot. apply Hf. lia.
  - intros ts e _ IH. by apply reads_additive, (reads_at_reads LAdditive).
  - intros ts1 a t o ts2 b _ IH1 Ho _ IH2. by apply reads_compare; [apply (reads_at_reads LAdditive)|..|apply (reads_at_reads LAdditive)].
  - intros ts e t not negated u _ IH Ht Hneg Hu. by apply reads_is_null; [apply (reads_at_reads LAdditive)|..].
  - intros ts e not negated t ts' items _ IH Hneg Ht _ IHl. by apply reads_in; [apply (reads_at_reads LAdditive)|..].
  - intros ts e not negated t ts' p _ IH Hneg Ht _ IHp.
    by apply reads_like; [apply (reads_at_reads LAdditive)|..|apply (reads_at_reads LAdditive)].
  - intros ts e _ IH rest He. destruct (IH rest He) as [f0 Hf]. exists (S f0). intros [|f] Hle; [lia|].
    cbn [app parse_at]; unfold parse_unary. change (peek_is (Op "-") (Op "-" :: _)) with true. cbn [tail].
    specialize (Hf f ltac:(lia)). by rewrite Hf.
  - intros ts e Hd IH rest He. destruct (IH rest He) as [f0 Hf]. exists (S f0). intros [|f] Hle; [lia|].
    destruct (primary_head _ _ Hd) as (t & ts' & -> & Ht). cbn [app parse_at]; unfold parse_unary.
    replace (peek_is _ _) with false; [apply Hf; lia|]. symmetry. apply bool_decide_eq_false. cbn [head]. congruence.
  - intros n. by apply reads_token.
  - intros s. by apply reads_token.
  - intros name. by apply reads_token.
  - intros word Hw. apply reads_token. intros f rest _. cbn [app parse_at]; unfold parse_primary. cbv zeta. by rewrite Hw.
  - intros word Hw. apply reads_token. intros f rest _. cbn [app parse_at]; unfold parse_primary. cbv zeta. by rewrite Hw.
  - intros word Hw. apply reads_token. intros f rest _. cbn [app parse_at]; unfold parse_primary. cbv zeta. by rewrite Hw.
  - intros word (H1 & H2 & H3)%reserved_false_inv. apply reads_token. intros f rest Hrest. cbn [app parse_at]; unfold parse_primary. cbv zeta.
    rewrite !bool_decide_eq_false_2 by done. by rewrite Hrest.
  - intros word (H1 & H2 & H3)%reserved_false_inv. apply reads_token. intros f rest Hrest. cbn [app parse_at]; unfold parse_primary. cbv zeta.
    by rewrite !bool_decide_eq_false_2 by done.
  - intros word ts args Hres Hd IH. apply reads_call; [done | by apply (proj2 derives_head) in Hd | done].
  - intros ts e _ IH. by apply reads_paren, (reads_at_reads LOr).
  - intros l ts e _ IH%reads_at_reads rest He. destruct (IH rest He) as [f0 Hf]. exists f0. intros f Hle.
    exists e, rest, 0%nat. split; [by apply Hf | by split].
  - intros l ts es ts' e _ IH1 _ IH2%reads_at_reads. by apply reads_list_more.
Qed.

Lemma parse_or_total ts : parse_at LOr (parse_fuel ts) ts <> Panic.
Proof.
  intros Hp. pose proof (parse_at_consumes LOr (parse_fuel ts) ts) as Hc. rewrite Hp in Hc.
  apply Hc. unfold parse_fuel. cbn [rank]. lia.
Qed.

Lemma parse_tokens_iff ts e : parse_tokens ts = Done e <-> derives LOr ts e.
Proof.
  unfold parse_tokens. split.
  - destruct ts as [|t ts]; [done|]. intros ([a r] & Ha & Hk)%outcome_bind_done. destruct r as [|u r]; [|done]. simplify_eq.
    destruct (parse_at_phrase LOr _ _ _ _ Ha) as (used & Hused & Hd). by rewrite Hused, app_nil_r.
  - intros Hd. destruct (proj1 derives_head _ _ _ Hd) as (t & ts' & -> & _).
    destruct (reads_at_reads _ _ _ (proj1 derives_reads _ _ _ Hd) [] (ends_nil _)) as [f0 Hf]. rewrite app_nil_r in Hf.
    pose proof (parse_at_mono LOr (parse_fuel (t :: ts')) (max f0 (parse_fuel (t :: ts'))) (t :: ts') ltac:(lia) (parse_or_total _)) as Hm.
    rewrite (Hf (max f0 _)) in Hm by lia. by rewrite <-Hm.
Qed.

Lemma parse_tokens_total ts : parse_tokens ts <> Panic.
Proof.
  unfold parse_tokens. destruct ts as [|t ts]; [done|]. pose proof (parse_or_total (t :: ts)) as Hp.
  destruct (parse_at LOr _ _) as [[e r]| |]; [|done|done]. cbn. by destruct r.
Qed.
End Completeness.

(** ** The tokenizer *)

Lemma read_string_shorter cs s r rest : read_string cs s = Some (r, rest) -> (length rest <= length cs)%nat.
Proof.
  revert s. induction cs as [cs IH] using (induction_ltof1 _ (@length string)). unfold ltof in IH. intros s.
  destruct cs as [|c cs]; cbn [read_string]; [done|]. case_bool_decide.
  - destruct cs as [|d cs]; [intros [= <- <-]; cbn; lia|]. case_bool_decide.
    + intros Hr%IH; [|cbn [length]; lia]. cbn [length]. lia.
    + intros [= <- <-]. cbn [length]. lia.
  - intros Hr%IH; [|cbn [length]; lia]. cbn [length]. lia.
Qed.

Lemma read_until_shorter close cs name rest : read_until close cs = Some (name, rest) -> (length rest <= length cs)%nat.
Proof.
  revert name. induction cs as [|c cs IH]; intros name; cbn [read_until]; [done|].
  case_bool_decide; [intros [= <- <-]; cbn [length]; lia|].
  destruct (read_until close cs) as [[n r]|]; [|done]. intros [= <- <-]. specialize (IH n eq_refl). cbn [length]. lia.
Qed.

Lemma read_number_shorter previous cs : (length (read_number previous cs).2 <= length cs)%nat.
Proof.
  revert previous. induction cs as [|c cs IH]; intros previous; cbn [read_number]; [done|].
  destruct (_ || _); [|cbn [snd length]; lia]. specialize (IH c). destruct (read_number c cs). cbn [snd length] in *. lia.
Qed.

Lemma read_word_shorter cs : (length (read_word cs).2 <= length cs)%nat.
Proof.
  induction cs as [|c cs IH]; cbn [read_word]; [done|].
  destruct (_ && _); [|cbn [snd length]; lia]. destruct (read_word cs). cbn [snd length] in *. lia.
Qed.

Lemma next_token_shorter c rest t rest' : next_token c rest = Ok (t, rest') -> (length rest' <= length rest)%nat.
Proof.
  unfold next_token. destruct (is_whitespace c) eqn:Ews; [intros [= <- <-]; lia|].
  destruct (op2 _); [intros [= <- <-]; destruct rest; cbn [tail length]; lia|].
  destruct (one_of ["("; "（"] c) eqn:E1; [intros [= <- <-]; lia|].
  destruct (one_of [")"; "）"] c) eqn:E2; [intros [= <- <-]; lia|].
  destruct (one_of [","; "、"] c) eqn:E3; [intros [= <- <-]; lia|].
  destruct (one_of ["="; "<"; ">"; "+"; "-"; "*"; "/"; "%"; "!"] c) eqn:E4; [intros [= <- <-]; lia|].
  case_bool_decide as E5.
  { destruct (read_string rest "") as [[s r]|] eqn:E; [|done]. intros [= <- <-]. by eapply read_string_shorter. }
  destruct (one_of [double_quote; "["; "`"] c) eqn:E6.
  { cbv zeta. destruct (read_until _ rest) as [[s r]|] eqn:E; [|done]. intros [= <- <-]. by eapply read_until_shorter. }
  destruct (digit_char c || _) eqn:E7.
  - cbn [read_number]. replace (digit_char c || bool_decide (c = ".") || _ || _) with true.
    + pose proof (read_number_shorter c rest) as Hr. destruct (read_number c rest) as [literal r]. cbn [snd] in Hr.
      destruct (parse_f64 _); [|done]. by intros [= <- <-].
    + symmetry. destruct (digit_char c); [done|]. destruct (bool_decide (c = ".")); [done|]. by cbn in E7.
  - cbn [read_word]. rewrite Ews. replace (one_of delimiters c) with false.
    + cbn [negb andb]. pose proof (read_word_shorter rest) as Hr. destruct (read_word rest) as [word r]. cbn [snd] in Hr.
      by intros [= <- <-].
    + symmetry. unfold one_of, delimiters in *. cbn [existsb] in *. rewrite !orb_false_iff, !bool_decide_eq_false in *.
      tauto.
Qed.

Lemma tokenize_loop_total fuel cs out : (length cs <= fuel)%nat -> tokenize_loop fuel cs out <> Panic.
Proof.
  revert cs out. induction fuel as [|fuel IH]; intros [|c cs] out; cbn [tokenize_loop length]; try done; try lia.
  intros Hf. destruct (next_token c cs) as [[t rest]|e] eqn:E; [|done]. cbn [attempt mbind outcome_bind].
  apply next_token_shorter in E. apply IH. lia.
Qed.

(** The spellings of a token, as characters *)
Definition quote (cs : list string) : list string := mbind (fun c => if bool_decide (c = "'") then ["'"; "'"] else [c]) cs.

Inductive lexeme : Tok -> list string -> Prop :=
| L_open : lexeme Open ["("]
| L_close : lexeme Close [")"]
| L_comma : lexeme Comma [","]
| L_symbol c : one_of ["="; "<"; ">"; "+"; "-"; "*"; "/"; "%"] c = true -> lexeme (Op c) [c]
| L_not : lexeme (Op "NOT") ["!"]
| L_le : lexeme (Op "<=") ["<"; "="]
| L_ge : lexeme (Op ">=") [">"; "="]
| L_ne : lexeme (Op "!=") ["!"; "="]
| L_unequal : lexeme (Op "!=") ["<"; ">"]
| L_equal : lexeme (Op "=") ["="; "="]
| L_and : lexeme (Op "AND") ["&"; "&"]
| L_or : lexeme (Op "OR") ["|"; "|"]
| L_string cs : lexeme (Str (of_chars cs)) ("'" :: quote cs ++ ["'"])
| L_quoted cs : double_quote ∉ cs -> lexeme (Quoted (of_chars cs)) (double_quote :: cs ++ [double_quote])
| L_number c cs n : digit_char c = true -> Forall (fun d => digit_char d = true \/ d = ".") cs ->
    parse_f64 (of_chars (c :: cs)) = Some n -> lexeme (Num n) (c :: cs)
| L_word c cs : op2 (c +:+ default " " (head cs)) = None -> digit_char c = false -> c <> "." ->
    Forall (fun d => is_whitespace d = false /\ one_of delimiters d = false) (c :: cs) -> lexeme (Ident (of_chars (c :: cs))) (c :: cs).

Lemma read_string_quote cs s rest : read_string (quote cs ++ "'" :: " " :: rest) s = Some (s +:+ of_chars cs, " " :: rest).
Proof.
  revert s. induction cs as [|c cs IH]; intros s.
  - cbn. by rewrite string_app_nil_r.
  - unfold quote. cbn [mbind list_bind]. fold (quote cs). case_bool_decide as Hc.
    + subst c. cbn [app read_string]. rewrite !bool_decide_eq_true_2 by done. rewrite IH. cbn [of_chars foldr].
      by rewrite string_app_assoc.
    + cbn [app read_string]. rewrite bool_decide_eq_false_2 by done. rewrite IH. cbn [of_chars foldr]. by rewrite string_app_assoc.
Qed.

Lemma read_until_quote cs rest : double_quote ∉ cs -> read_until double_quote (cs ++ double_quote :: rest) = Some (cs, rest).
Proof.
  induction cs as [|c cs IH]; intros Hn; cbn [app read_until].
  - by rewrite bool_decide_eq_true_2.
  - apply not_elem_of_cons in Hn as [Hc Hn]. rewrite bool_decide_eq_false_2 by done. by rewrite IH.
Qed.

Lemma read_number_space previous cs rest : Forall (fun d => digit_char d = true \/ d = ".") cs ->
  read_number previous (cs ++ " " :: rest) = (cs, " " :: rest).
Proof.
  intros Hcs. revert previous. induction Hcs as [|c cs Hc Hcs IH]; intros previous; cbn [app read_number].
  - reflexivity.
  - replace (digit_char c || bool_decide (c = ".")) with true; [by rewrite IH|].
    symmetry. destruct Hc as [->| ->]; [done|]. by rewrite orb_true_r.
Qed.

Lemma read_word_space cs rest : Forall (fun d => is_whitespace d = false /\ one_of delimiters d = false) cs ->
  read_word (cs ++ " " :: rest) = (cs, " " :: rest).
Proof.
  induction 1 as [|c cs [H1 H2] Hcs IH]; cbn [app read_word]; [reflexivity|]. rewrite H1, H2. cbn [negb andb]. by rewrite IH.
Qed.

Lemma digit_char_facts c : digit_char c = true ->
  is_whitespace c = false /\ (forall d, op2 (c +:+ d) = None) /\ one_of delimiters c = false.
Proof.
  destruct c as [|a [|]]; try done. cbn [digit_char]. intros Ha.
  destruct a as [[] [] [] [] [] [] [] []]; try discriminate Ha; by (split_and!; [|intros d|]).
Qed.

(** A spelling followed by a space is read as its token. *)
Lemma next_token_lexeme t c cs rest : lexeme t (c :: cs) -> next_token c (cs ++ " " :: rest) = Ok (Some t, " " :: rest).
Proof.
  intros Hl. inversion Hl; subst; try reflexivity.
  - match goal with Hs : one_of _ c = true |- _ => unfold one_of in Hs; cbn [existsb] in Hs;
      repeat (apply orb_prop in Hs as [->%bool_decide_eq_true|Hs]; [reflexivity|]) end. done.
  - unfold next_token. change (is_whitespace "'") with false. cbv iota.
    replace (op2 _) with (@None string) by (destruct (quote cs0) as [|d ds]; [reflexivity|]; cbn; unfold op2, one_of; cbn [existsb]; by rewrite !bool_decide_eq_false_2).
    cbn [one_of existsb]. rewrite <-app_assoc. cbn [app]. rewrite !bool_decide_eq_false_2 by done. cbn [orb].
    rewrite bool_decide_eq_true_2 by done. by rewrite read_string_quote.
  - unfold next_token. change (is_whitespace double_quote) with false. cbv iota.
    replace (op2 _) with (@None string) by (destruct cs0 as [|d ds]; [reflexivity|]; cbn; unfold op2, one_of; cbn [existsb]; by rewrite !bool_decide_eq_false_2).
    rewrite <-app_assoc. cbn [app]. change (read_until _ _) with (read_until double_quote (cs0 ++ double_quote :: " " :: rest)).
    cbn -[read_until]. by rewrite read_until_quote.
  - destruct (digit_char_facts c) as (Hws & Hop & Hs); [done|]. unfold next_token. rewrite Hws, Hop.
    unfold one_of, delimiters in Hs |- *. cbn [existsb] in Hs |- *. rewrite !orb_false_iff in Hs.
    destruct Hs as (-> & -> & -> & -> & -> & -> & -> & -> & -> & -> & -> & -> & -> & -> & -> & -> & -> & -> & -> & _).
    cbn [orb]. match goal with Hd : digit_char c = true |- _ => rewrite Hd end. cbn [orb].
    rewrite app_comm_cons, read_number_space by (constructor; [by left | done]).
    match goal with Hp : parse_f64 _ = Some _ |- _ => by rewrite Hp end.
  - unfold next_token. match goal with Hf : Forall _ (c :: cs) |- _ => pose proof Hf as Hall; apply Forall_cons in Hf as [[Hws Hd] _] end.
    rewrite Hws. replace (op2 _) with (@None string) by (by destruct cs).
    unfold one_of, delimiters in Hd |- *. cbn [existsb] in Hd |- *. rewrite !orb_false_iff in Hd.
    destruct Hd as (-> & -> & -> & -> & -> & -> & -> & -> & -> & -> & -> & -> & -> & -> & -> & -> & -> & -> & -> & _).
    cbn [orb]. match goal with Hd : digit_char c = false |- _ => rewrite Hd end.
    rewrite (bool_decide_eq_false_2 (c = ".")) by done. cbn [orb andb].
    by rewrite app_comm_cons, read_word_space.
Qed.

Lemma tokenize_lexemes ts ls fuel out : Forall2 lexeme ts ls ->
  (length (concat (map (fun l => l ++ [" "]) ls)) <= fuel)%nat ->
  tokenize_loop fuel (concat (map (fun l => l ++ [" "]) ls)) out = Done (out ++ ts).
Proof.
  intros Hl. revert fuel out. induction Hl as [|t l ts ls Ht Hl IH]; intros fuel out Hf.
  - cbn [map concat]. rewrite app_nil_r. by destruct fuel.
  - destruct l as [|c cs]; [inversion Ht|]. cbn [map concat] in *. rewrite <-app_assoc in *. cbn [app] in *.
    destruct fuel as [|fuel]; [cbn [length] in Hf; lia|]. cbn [tokenize_loop].
    rewrite next_token_lexeme with (t := t) by done. cbn [attempt mbind outcome_bind].
    cbn [length] in Hf. rewrite length_app in Hf. cbn [length] in Hf. destruct fuel as [|fuel]; [lia|].
    cbn [tokenize_loop]. change (next_token " " ?r) with (Ok (None, r) : result ExprError (option Tok * list string)).
    cbn [attempt mbind outcome_bind]. rewrite IH by lia. by rewrite <-app_assoc.
Qed.

(** ** Wildcards *)

(** What a pattern means: [%] is any run of characters, [_] any one character,
    anything else itself. *)
Inductive wildcard : list string -> list string -> Prop :=
| wildcard_nil : wildcard [] []
| wildcard_any p skipped t : wildcard p t -> wildcard ("%" :: p) (skipped ++ t)
| wildcard_one p c t : wildcard p t -> wildcard ("_" :: p) (c :: t)
| wildcard_char c p t : c <> "%" -> wildcard p t -> wildcard (c :: p) (c :: t).

Lemma like_go_any p t : like_go ("%" :: p) t = like_go p t || match t with [] => false | _ :: t => like_go ("%" :: p) t end.
Proof. by destruct t. Qed.

Lemma like_go_wildcard p t : like_go p t = true <-> wildcard p t.
Proof.
  revert t. induction p as [|c p IH]; intros t.
  - destruct t; split; try done; [constructor | inversion 1].
  - destruct (decide (c = "%")) as [->|Hc].
    + split.
      * induction t as [|d t IHt]; rewrite like_go_any; intros [Hp|Hs]%orb_prop; try done.
        -- apply (wildcard_any p []). by apply IH.
        -- apply (wildcard_any p []). by apply IH.
        -- specialize (IHt Hs). inversion IHt; subst; [|done]. by apply (wildcard_any p (d :: skipped)).
      * inversion 1 as [|? skipped t' Hw| |]; subst; [|done]. clear H.
        induction skipped as [|d skipped IHs]; cbn [app].
        -- rewrite like_go_any. apply orb_true_intro. left. by apply IH.
        -- rewrite like_go_any, IHs. apply orb_true_r.
    + cbn [like_go]. rewrite bool_decide_eq_false_2 by done. destruct t as [|d t]; [by split; [|inversion 1]|].
      split.
      * destruct (bool_decide (c = "_") || bool_decide (c = d)) eqn:E; [|done].
        intros Hw%IH. apply orb_prop in E as [->%bool_decide_eq_true| ->%bool_decide_eq_true]; by constructor.
      * inversion 1; subst; try done.
        -- rewrite bool_decide_eq_true_2 by done. by apply IH.
        -- rewrite (bool_decide_eq_true_2 (d = d)) by done. rewrite orb_true_r. by apply IH.
Qed.

(** ** Evaluation *)

Section Semantics.
Context `{ExprHost} `{JsonText}.

Lemma Expr_nested_ind (P : Expr -> Prop) :
  (forall v, P (Literal v)) -> (forall name, P (Field name)) -> (forall op e, P e -> P (Unary op e)) ->
  (forall a op b, P a -> P b -> P (Binary a op b)) ->
  (forall e items negated, P e -> Forall P items -> P (In e items negated)) ->
  (forall e negated, P e -> P (IsNull e negated)) ->
  (forall e p negated, P e -> P p -> P (Like e p negated)) ->
  (forall name args, Forall P args -> P (Call name args)) -> forall e, P e.
Proof.
  intros H1 H2 H3 H4 H5 H6 H7 H8. fix IH 1. intros [v|name|op e|a op b|e items negated|e negated|e p negated|name args].
  - apply H1.
  - apply H2.
  - apply H3, IH.
  - apply H4; apply IH.
  - apply H5; [apply IH|]. induction items as [|i items IHi]; constructor; [apply IH | exact IHi].
  - apply H6, IH.
  - apply H7; apply IH.
  - apply H8. induction args as [|a args IHa]; constructor; [apply IH | exact IHa].
Qed.

(** The fields an expression mentions *)
Fixpoint mentions (e : Expr) : list string :=
  match e with
  | Literal _ => []
  | Field name => [name]
  | Unary _ e | IsNull e _ => mentions e
  | Binary a _ b | Like a b _ => mentions a ++ mentions b
  | In e items _ => mentions e ++ mbind mentions items
  | Call _ args => mbind mentions args
  end.

Lemma collect_list (es : list Expr) : Forall (fun e => forall out, collect_fields e out = out ++ mentions e) es ->
  forall out, fold_left (fun out e => collect_fields e out) es out = out ++ mbind mentions es.
Proof.
  induction 1 as [|e es He Hes IH]; intros out; cbn [fold_left mbind list_bind]; [by rewrite app_nil_r|].
  by rewrite IH, He, <-app_assoc.
Qed.

Lemma collect_mentions e out : collect_fields e out = out ++ mentions e.
Proof.
  revert out. induction e using Expr_nested_ind; intros out; cbn [collect_fields mentions]; try done.
  - by rewrite app_nil_r.
  - by rewrite IHe1, IHe2, <-app_assoc.
  - by rewrite collect_list, IHe, <-app_assoc.
  - by rewrite IHe1, IHe2, <-app_assoc.
  - by rewrite collect_list.
Qed.

Lemma elem_of_dedup_from previous l x : x ∈ dedup_from previous l \/ x = previous <-> x ∈ l \/ x = previous.
Proof.
  revert previous. induction l as [|s l IH]; intros previous; cbn [dedup_from]; [done|].
  specialize (IH s). case_bool_decide as Hs; rewrite !elem_of_cons; subst; tauto.
Qed.

Lemma elem_of_fields e f : f ∈ fields e <-> f ∈ mentions e.
Proof.
  unfold fields. rewrite collect_mentions. cbn [app].
  assert (Hp : f ∈ mentions e <-> f ∈ merge_sort String.le (mentions e)) by (by rewrite merge_sort_Permutation).
  rewrite Hp. clear Hp. destruct (merge_sort String.le (mentions e)) as [|s l]; [done|]. cbn [dedup]. rewrite !elem_of_cons.
  pose proof (elem_of_dedup_from s l f). tauto.
Qed.

(** Errors that evaluation can end with *)
Definition function_known (name : string) : bool :=
  one_of ["abs"; "round"; "floor"; "ceil"; "sqrt"; "lower"; "upper"; "length"; "len"; "coalesce"; "number";
          "to_number"; "text"; "to_text"] name.

Lemma call_error name args x : call name args = Err x <-> function_known name = false /\ x = UnknownFunction name.
Proof.
  unfold call, function_known, one_of. cbn [existsb].
  repeat (case_bool_decide; [subst; split; [done | by intros []] | cbn [orb]]). cbn [orb]. split.
  - by intros [= <-].
  - by intros [_ ->].
Qed.

(** The list of a [IN] or a call, as a function of the evaluation of one member *)
Definition search_in (value : json) (ev : Expr -> result ExprError json) : list Expr -> result ExprError bool :=
  fix search items :=
    match items with
    | [] => Ok false
    | item :: items =>
        v ← ev item; if bool_decide (compare value v = Some Datatypes.Eq) then Ok true else search items
    end.
Definition eval_list (ev : Expr -> result ExprError json) : list Expr -> result ExprError (list json) :=
  fix eval_all args :=
    match args with
    | [] => Ok []
    | a :: args => v ← ev a; vs ← eval_all args; Ok (v :: vs)
    end.

Lemma search_in_ext value ev ev' items : Forall (fun e => ev e = ev' e) items ->
  search_in value ev items = search_in value ev' items.
Proof. induction 1 as [|e items He Hes IH]; cbn [search_in]; [done|]. rewrite He. by rewrite IH. Qed.

Lemma eval_list_ext ev ev' args : Forall (fun e => ev e = ev' e) args -> eval_list ev args = eval_list ev' args.
Proof. induction 1 as [|e items He Hes IH]; cbn [eval_list]; [done|]. rewrite He. by rewrite IH. Qed.

Lemma eval_agree (p q : gmap string json) e : (forall f, f ∈ mentions e -> p !! f = q !! f) -> eval p e = eval q e.
Proof.
  assert (Hlist : forall es, Forall (fun e => (forall f, f ∈ mentions e -> p !! f = q !! f) -> eval p e = eval q e) es ->
    (forall f, f ∈ mbind mentions es -> p !! f = q !! f) -> Forall (fun e => eval p e = eval q e) es).
  { intros es Hes Hf. apply Forall_forall. intros e' He'. apply (proj1 (Forall_forall _ _) Hes); [done|].
    intros f Hin. apply Hf. apply list_elem_of_bind. by exists e'. }
  induction e as [v|name|op e IH|a op b IHa IHb|e items negated IH IHs|e negated IH|e pat negated IHe IHp|name args IHs]
    using Expr_nested_ind; intros Hf; cbn [mentions] in Hf; cbn [eval].
  - done.
  - by rewrite Hf by apply list_elem_of_here.
  - by rewrite IH.
  - assert (Ha : eval p a = eval q a) by (apply IHa; intros f ?; apply Hf, elem_of_app; by left).
    assert (Hb : eval p b = eval q b) by (apply IHb; intros f ?; apply Hf, elem_of_app; by right).
    by destruct op; rewrite Ha, ?Hb.
  - assert (He : eval p e = eval q e) by (apply IH; intros f ?; apply Hf, elem_of_app; by left).
    rewrite He. destruct (eval q e) as [value|]; [|done]. cbn [mbind result_bind]. destruct (is_null value); [done|].
    change (search_in value (eval p) items ≫= (fun found => Ok (JBool (negb (eqb found negated))))
      = search_in value (eval q) items ≫= (fun found => Ok (JBool (negb (eqb found negated))))).
    f_equal. apply search_in_ext, Hlist; [done|]. intros f ?. apply Hf, elem_of_app. by right.
  - by rewrite IH.
  - assert (Ha : eval p e = eval q e) by (apply IHe; intros f ?; apply Hf, elem_of_app; by left).
    assert (Hb : eval p pat = eval q pat) by (apply IHp; intros f ?; apply Hf, elem_of_app; by right).
    by rewrite Ha, Hb.
  - change (eval_list (eval p) args ≫= call name = eval_list (eval q) args ≫= call name).
    f_equal. by apply eval_list_ext, Hlist.
Qed.

(** What an error of the evaluation says of the expression *)
Fixpoint calls (e : Expr) : list string :=
  match e with
  | Literal _ | Field _ => []
  | Unary _ e | IsNull e _ => calls e
  | Binary a _ b | Like a b _ => calls a ++ calls b
  | In e items _ => calls e ++ mbind calls items
  | Call name args => name :: mbind calls args
  end.

Definition explained (p : gmap string json) (e : Expr) (x : ExprError) : Prop :=
  match x with
  | UnknownField f => f ∈ mentions e /\ p !! f = None
  | UnknownFunction name => name ∈ calls e /\ function_known name = false
  | LikeNeedsString => True
  | _ => False
  end.

Lemma explained_sub p e e' x : (forall f, f ∈ mentions e -> f ∈ mentions e') -> (forall c, c ∈ calls e -> c ∈ calls e') ->
  explained p e x -> explained p e' x.
Proof. intros Hm Hc. destruct x; cbn [explained]; try done; intros [? ?]; auto. Qed.

Lemma bind_err {A B} (m : result ExprError A) (k : A -> result ExprError B) x : (m ≫= k) = Err x ->
  m = Err x \/ exists a, m = Ok a /\ k a = Err x.
Proof. destruct m as [a|e]; cbn; [right; by exists a | intros [= ->]; by left]. Qed.

Lemma eval_explained p e x : eval p e = Err x -> explained p e x.
Proof.
  assert (Hlist : forall (ev : Expr -> result ExprError json) es x, (forall e, e ∈ es -> ev e = Err x -> explained p e x) -> forall e',
    (forall f, f ∈ mbind mentions es -> f ∈ mentions e') -> (forall c, c ∈ mbind calls es -> c ∈ calls e') ->
    forall e0, e0 ∈ es -> ev e0 = Err x -> explained p e' x).
  { intros ev es y Hev e' Hm Hc e0 Hin He0. eapply explained_sub; [..|by apply (Hev e0)].
    - intros f Hf. apply Hm, list_elem_of_bind. by exists e0.
    - intros f Hf. apply Hc, list_elem_of_bind. by exists e0. }
  assert (Hsearch : forall value ev items, search_in value ev items = Err x -> exists e0, e0 ∈ items /\ ev e0 = Err x).
  { intros value ev items. induction items as [|i items IH]; cbn [search_in]; [done|].
    intros [Hi|(v & Hv & Hk)]%bind_err; [exists i; split; [apply list_elem_of_here | done]|].
    case_bool_decide; [done|]. destruct (IH Hk) as (e0 & ? & ?). exists e0. split; [by apply list_elem_of_further | done]. }
  assert (Hargs : forall ev args, eval_list ev args = Err x -> exists e0, e0 ∈ args /\ ev e0 = Err x).
  { intros ev args. induction args as [|i args IH]; cbn [eval_list]; [done|].
    intros [Hi|(v & Hv & [Hk|(? & _ & ?)]%bind_err)]%bind_err; [exists i; split; [apply list_elem_of_here | done]| |done].
    destruct (IH Hk) as (e0 & ? & ?). exists e0. split; [by apply list_elem_of_further | done]. }
  induction e as [v|name|op e IH|a op b IHa IHb|e items negated IH IHs|e negated IH|e pat negated IHe IHp|name args IHs]
    using Expr_nested_ind; cbn [eval].
  - done.
  - destruct (p !! name) eqn:E; cbn [ok_or]; [done|]. intros [= <-]. split; [apply list_elem_of_here | done].
  - intros He. assert (eval p e = Err x) by (destruct op; apply bind_err in He as [He|(? & _ & ?)]; done). by apply IH.
  - intros He. assert (Hab : eval p a = Err x \/ eval p b = Err x).
    { destruct op; apply bind_err in He as [He|(u & _ & He)]; try (by left); right;
        try (destruct (negb (truthy u)); [done|]); try (destruct (truthy u); [done|]);
        apply bind_err in He as [He|(? & _ & ?)]; done. }
    destruct Hab as [Ha|Hb]; [apply IHa in Ha; eapply explained_sub; [..|exact Ha] | apply IHb in Hb; eapply explained_sub; [..|exact Hb]];
      cbn [mentions calls]; intros f; rewrite elem_of_app; tauto.
  - intros [He|(value & _ & He)]%bind_err.
    + eapply explained_sub; [..|by apply IH]; cbn [mentions calls]; intros f; rewrite elem_of_app; tauto.
    + destruct (is_null value); [done|]. apply bind_err in He as [He|(? & _ & ?)]; [|done].
      apply (Hsearch value (eval p)) in He as (e0 & Hin & He0).
      eapply (Hlist (eval p) items x); [|..|exact Hin|exact He0].
      * intros e1 H1 H2. by apply (proj1 (Forall_forall _ _) IHs).
      * intros f ?. apply elem_of_app. by right.
      * intros f ?. apply elem_of_app. by right.
  - intros [He|(? & _ & ?)]%bind_err; [by apply IH | done].
  - intros [He|(value & _ & [He|(pv & _ & He)]%bind_err)]%bind_err.
    + eapply explained_sub; [..|by apply IHe]; cbn [mentions calls]; intros f; rewrite elem_of_app; tauto.
    + eapply explained_sub; [..|by apply IHp]; cbn [mentions calls]; intros f; rewrite elem_of_app; tauto.
    + unfold like_op in He. destruct value, pv; by simplify_eq.
  - intros [He|(values & _ & [Hk ->]%call_error)]%bind_err.
    + apply (Hargs (eval p)) in He as (e0 & Hin & He0). eapply (Hlist (eval p) args x); [|..|exact Hin|exact He0].
      * intros e1 H1 H2. by apply (proj1 (Forall_forall _ _) IHs).
      * done.
      * intros c ?. by apply list_elem_of_further.
    + split; [apply list_elem_of_here | done].
Qed.
End Semantics.

(** ** Properties *)

(** C8: The parser accepts exactly the phrases of the grammar, with the meaning the
    grammar gives them (so no text has two), and it always answers: neither the
    tokenizer nor the parser runs out of fuel on any text. *)
Theorem parser_accepts_grammar `{ExprHost} :
  (forall ts e, parse_tokens ts = Done e <-> derives LOr ts e) /\ (forall text, parse text <> Panic).
Proof.
  split; [apply parse_tokens_iff|]. intros text. unfold parse, tokenize.
  pose proof (tokenize_loop_total (length (chars text)) (chars text) [] ltac:(lia)) as Ht.
  destruct (tokenize_loop _ _ _) as [ts| |]; [|done|done]. apply parse_tokens_total.
Qed.

(** Spelled tokens separated by spaces are read back one for one, however they
    are spelled: quotes doubled inside a string, quoted field names, the
    alternative spellings of the operators, bare words and numbers. *)
Theorem spelled_tokens_read_back text ts spellings :
  Forall2 lexeme ts spellings -> chars text = concat (map (fun l => l ++ [" "]) spellings) ->
  tokenize text = Done ts.
Proof. intros Hl Ht. unfold tokenize. rewrite Ht. by rewrite (tokenize_lexemes ts). Qed.

(** The value of an expression depends on the fields it lists and on no other,
    and an evaluation that fails names a listed field the feature lacks, a function
    the expression calls and the language does not have, or a LIKE pattern that is
    not a string. *)
Theorem eval_reads_listed_fields `{ExprHost} `{JsonText} e p :
  (forall q, (forall f, f ∈ fields e -> p !! f = q !! f) -> eval p e = eval q e)
  /\ (forall x, eval p e = Err x ->
        (exists f, x = UnknownField f /\ f ∈ fields e /\ p !! f = None)
        \/ (exists name, x = UnknownFunction name /\ name ∈ calls e /\ function_known name = false)
        \/ x = LikeNeedsString).
Proof.
  split.
  - intros q Hq. apply eval_agree. intros f Hf. by apply Hq, elem_of_fields.
  - intros x Hx%eval_explained. destruct x; cbn [explained] in Hx; try done.
    + left. eexists. split; [done|]. by rewrite elem_of_fields.
    + by right; right.
    + right; left. by eexists.
Qed.

Theorem like_matches_wildcard text pattern : like text pattern = true <-> wildcard (chars pattern) (chars text).
Proof. apply like_go_wildcard. Qed.

(** *** Samples *)

Definition sample_host : ExprHost := {|
  number_f64 := fun n => default S754_nan (parse_f64 n); number_text := fun _ => "0.5"; f64_powi10 := fun _ => f64_of_Z 1;
  to_lowercase := to_ascii_lowercase; to_uppercase := to_ascii_uppercase |}.
Definition sample_text : JsonText := {|
  json_scalar := fun v => match v with JNull => "null" | JBool true => "true" | JBool false => "false"
                          | JNumber n => n | JString s => double_quote +:+ s +:+ double_quote | _ => "" end;
  json_key := fun k => double_quote +:+ k +:+ double_quote |}.
Definition ward : gmap string json :=
  {[ "人口" := JNumber "1500"; "区名" := JString "中区"; "code" := JString "23106"; "note" := JNull ]}.
Definition run (text : string) : option json :=
  match @parse sample_host text with
  | Done e => match @eval sample_host sample_text ward e with Ok v => Some v | Err _ => None end
  | _ => None
  end.

Example run_filter : run "人口 >= 1000 AND 区名 LIKE '%中%'" = Some (JBool true).
Proof. vm_compute. reflexivity. Qed.
Example run_in : run "区名 NOT IN ('中区') OR NOT (人口 = 1500)" = Some (JBool false).
Proof. vm_compute. reflexivity. Qed.
Example run_arithmetic : run "人口 * 2 - 1" = Some (JNumber "2999").
Proof. vm_compute. reflexivity. Qed.
Example run_division : run "人口 / 0" = Some JNull.
Proof. vm_compute. reflexivity. Qed.
Example run_code : run "code = 23106 AND length(区名) = 2" = Some (JBool true).
Proof. vm_compute. reflexivity. Qed.

Lemma spelled_tokens_read_back_witness :
  tokenize "人口 >= 1000 && name = 'O''Hara' " =
  Done [Ident "人口"; Op ">="; Num (f64_of_Z 1000); Op "AND"; Ident "name"; Op "="; Str "O'Hara"].
Proof.
  apply (spelled_tokens_read_back _ _ [["人"; "口"]; [">"; "="]; ["1"; "0"; "0"; "0"]; ["&"; "&"]; ["n"; "a"; "m"; "e"]; ["="];
    ["'"; "O"; "'"; "'"; "H"; "a"; "r"; "a"; "'"]]); [|reflexivity].
  repeat apply Forall2_cons_2; [| | | | | | |apply Forall2_nil_2].
  - apply (L_word "人" ["口"]); [reflexivity..|done|repeat constructor].
  - constructor.
  - apply L_number; [reflexivity | repeat constructor | reflexivity].
  - constructor.
  - apply (L_word "n" ["a"; "m"; "e"]); [reflexivity..|done|repeat constructor].
  - by constructor.
  - exact (L_string ["O"; "'"; "H"; "a"; "r"; "a"]).
Defined.

Definition sample_filter : Expr := Binary (Field "人口") Ge (Field "missing").

Lemma eval_reads_listed_fields_witness :
  @eval sample_host sample_text ward sample_filter = Err (UnknownField "missing")
  /\ "missing" ∈ fields sample_filter /\ ward !! "missing" = None
  /\ @eval sample_host sample_text ward (Field "人口") = @eval sample_host sample_text {[ "人口" := JNumber "1500" ]} (Field "人口").
Proof.
  split; [reflexivity|].
  destruct (proj2 (@eval_reads_listed_fields sample_host sample_text sample_filter ward) (UnknownField "missing") eq_refl)
    as [(f & Hf & Hin & Hn)|[(name & Hx & _)|Hx]]; [|discriminate Hx|discriminate Hx].
  injection Hf as <-. split; [exact Hin|]. split; [exact Hn|].
  apply (proj1 (@eval_reads_listed_fields sample_host sample_text (Field "人口") ward)).
  intros f Hin'. vm_compute in Hin'. apply list_elem_of_singleton in Hin' as ->. reflexivity.
Defined.

(** [NULL] added to a string is not [NULL] but the text [null] appended. *)
Theorem null_is_concatenated : run "'ward ' + note" = Some (JString "ward null").
Proof. vm_compute. reflexivity. Qed.

(** A comparison with [NULL] is false and so its negation true, unlike [NOT IN] and
    [NOT LIKE], which are false on [NULL]. *)
Theorem negated_null_comparison :
  run "NOT (note = 1)" = Some (JBool true) /\ run "note NOT IN (1)" = Some (JBool false)
  /\ run "note NOT LIKE 'a'" = Some (JBool false) /\ run "NOT (note LIKE 'a')" = Some (JBool true).
Proof. vm_compute. by repeat split. Qed.

(** [&&] and [||] are operators only after a space: [&] and [|] do not end a bare
    word. *)
Theorem unspaced_and_is_a_word :
  tokenize "code=a&&code=b" = Done [Ident "code"; Op "="; Ident "a&&code"; Op "="; Ident "b"].
Proof. vm_compute. reflexivity. Qed.
