(* ===== verification/WorkflowDigest.v ===== *)
(** * The identity of a workflow graph (crates/genegis-workflow/src/graph.rs and
    step.rs)

    The builders of steps and input contracts, the canonical document of a
    graph, and its stable SHA-256 digest. The JSON that serde derives for a
    semantic contract ([GeoContract]) is a parameter, like SHA-256. *)

From S2P Require Import Prelude RustStd Ordering Crs Json GeoContract WorkflowGraph MapStyle Project.
Local Open Scope N_scope.

(** ** Builders *)

Section Builders.
Context `{JsonText} `{SvgHost}.

(** [WorkflowStep::new] and [named]; [id] is the fresh UUID. *)
Definition step_new (id operation : string) (parameters : json) : WorkflowStep :=
  {| step_id := id; stable_id := generated_stable_id sha256_hex operation parameters;
     operation := operation; parameters := parameters; expected_schema := None; validation := None;
     provenance := None; depends_on := []; inputs := []; outputs := []; output_contracts := [] |}.
Definition with_graph (s : WorkflowStep) (sid : string) (deps : list WorkflowNodeId)
    (ins outs : list WorkflowDataRef) (cs : list WorkflowPortContract) : WorkflowStep :=
  {| step_id := step_id s; stable_id := sid; operation := operation s; parameters := parameters s;
     expected_schema := expected_schema s; validation := validation s; provenance := provenance s;
     depends_on := deps; inputs := ins; outputs := outs; output_contracts := cs |}.
Definition named (stable_id id operation : string) (parameters : json) : WorkflowStep :=
  let s := step_new id operation parameters in
  with_graph s stable_id (depends_on s) (inputs s) (outputs s) (output_contracts s).
Definition with_dependencies (deps : list WorkflowNodeId) (s : WorkflowStep) : WorkflowStep :=
  with_graph s (stable_id s) deps (inputs s) (outputs s) (output_contracts s).
Definition with_inputs (ins : list WorkflowDataRef) (s : WorkflowStep) : WorkflowStep :=
  with_graph s (stable_id s) (depends_on s) ins (outputs s) (output_contracts s).
Definition with_outputs (outs : list WorkflowDataRef) (s : WorkflowStep) : WorkflowStep :=
  with_graph s (stable_id s) (depends_on s) (inputs s) outs (output_contracts s).
Definition with_output_contracts (cs : list WorkflowPortContract) (s : WorkflowStep) : WorkflowStep :=
  with_graph s (stable_id s) (depends_on s) (inputs s) (outputs s) cs.
End Builders.

Definition with_coordinate_unit (u : CoordinateUnit) (c : WorkflowInputContract) : WorkflowInputContract :=
  {| ic_name := ic_name c; ic_crs := ic_crs c; ic_coordinate_unit := Some u; value_unit := value_unit c;
     source_snapshot := source_snapshot c; geo_contract := geo_contract c |}.
Definition with_value_unit (u : string) (c : WorkflowInputContract) : WorkflowInputContract :=
  {| ic_name := ic_name c; ic_crs := ic_crs c; ic_coordinate_unit := ic_coordinate_unit c;
     value_unit := Some u; source_snapshot := source_snapshot c; geo_contract := geo_contract c |}.
Definition with_source_snapshot (s : SourceSnapshot) (c : WorkflowInputContract) : WorkflowInputContract :=
  {| ic_name := ic_name c; ic_crs := ic_crs c; ic_coordinate_unit := ic_coordinate_unit c;
     value_unit := value_unit c; source_snapshot := Some s; geo_contract := geo_contract c |}.
Definition with_geo_contract (g : GeoContract) (c : WorkflowInputContract) : WorkflowInputContract :=
  {| ic_name := ic_name c; ic_crs := ic_crs c; ic_coordinate_unit := ic_coordinate_unit c;
     value_unit := value_unit c; source_snapshot := source_snapshot c; geo_contract := Some g |}.

(** ** JSON *)

Class GeoContractJson := geo_contract_json : GeoContract -> json.

Section Digest.
Context `{F64Display} `{JsonText} `{SvgHost} `{GeoContractJson}.

Definition checksum_json (c : ChecksumVerification) : json :=
  JString match c with
    | CV_Verified => "verified" | CV_Declared => "declared" | CV_Unknown => "unknown"
    | CV_Mismatch => "mismatch" end.
Definition source_json (s : SourceSnapshot) : json :=
  JObject (optional "dataset_id" JString (dataset_id s) ++ [("uri", JString (uri s))]
           ++ optional "license" JString (license s) ++ optional "checksum" JString (checksum s)
           ++ optional "expected_checksum" JString (expected_checksum s)
           ++ optional "observed_checksum" JString (observed_checksum s)
           ++ optional "retrieved_at" JString (retrieved_at s)
           ++ optional "source_version" JString (source_version s)
           ++ [("checksum_status", checksum_json (checksum_status s))]).
Definition input_contract_json (c : WorkflowInputContract) : json :=
  JObject ([("name", JString (ic_name c)); ("crs", json_option crs_json (ic_crs c));
            ("coordinate_unit", json_option coordinate_unit_json (ic_coordinate_unit c));
            ("value_unit", json_option JString (value_unit c));
            ("source_snapshot", json_option source_json (source_snapshot c))]
           ++ optional "geo_contract" geo_contract_json (geo_contract c)).
Definition data_ref_json (r : WorkflowDataRef) : json :=
  JObject [("node", json_option JString (ref_node r)); ("port", JString (port r))].
Definition port_contract_json (c : WorkflowPortContract) : json :=
  JObject [("port", JString (pc_port c)); ("contract", geo_contract_json (pc_contract c))].
Definition citation_json (c : Citation) : json :=
  JObject [("title", JString (title c)); ("url", json_option JString (url c));
           ("license", json_option JString (citation_license c))].

(** ** The canonical document *)

(** [values.sort_by_key(canonical_json)] *)
Definition sort_values (l : list json) : list json := stable_sort (key_le canonical_json) l.

(** A step; [previous] is the step before it. *)
Definition canonical_step (legacy_linear : bool) (previous : option WorkflowStep) (step : WorkflowStep)
    : string * json :=
  let id := node_id sha256_hex step in
  let deps := match legacy_linear, previous with
              | true, Some p => [node_id sha256_hex p] | _, _ => depends_on step end in
  let ins := match legacy_linear, previous with
             | true, Some p => [ref_output (node_id sha256_hex p) "result"] | _, _ => inputs step end in
  let outs := if legacy_linear then [ref_output id "result"] else outputs step in
  (canonical_json (JString id),
   JObject [("stable_id", JString id); ("operation", JString (operation step));
            ("parameters", parameters step);
            ("expected_schema", json_option (fun v => v) (expected_schema step));
            ("validation", json_option (fun v => v) (validation step));
            ("provenance", json_option JString (provenance step));
            ("depends_on", JArray (sort_values (map JString deps)));
            ("inputs", JArray (sort_values (map data_ref_json ins)));
            ("outputs", JArray (sort_values (map data_ref_json outs)));
            ("output_contracts", JArray (sort_values (map port_contract_json (output_contracts step))))]).
Fixpoint canonical_steps (legacy_linear : bool) (previous : option WorkflowStep) (l : list WorkflowStep)
    : list (string * json) :=
  match l with
  | [] => []
  | step :: l => canonical_step legacy_linear previous step :: canonical_steps legacy_linear (Some step) l
  end.

Definition canonical_output_refs (w : GeoWorkflow) : list WorkflowDataRef :=
  match output_refs w with
  | [] => if is_legacy_linear w
          then match last (steps w) with
               | Some step => [ref_output (node_id sha256_hex step) "result"] | None => [] end
          else []
  | refs => refs
  end.

(** The document is sorted, first the steps by the text of their identities,
    then every set-like array by the text of its elements. *)
Definition document (w : GeoWorkflow) : json :=
  JObject [("goal", JString (goal w)); ("assumptions", JArray (map JString (assumptions w)));
           ("inputs", JArray (wf_inputs w));
           ("input_contracts", JArray (sort_values (map input_contract_json (input_contracts w))));
           ("outputs", JArray (wf_outputs w));
           ("output_refs", JArray (sort_values (map data_ref_json (canonical_output_refs w))));
           ("steps", JArray (map snd (stable_sort (key_le fst)
              (canonical_steps (is_legacy_linear w) None (steps w)))));
           ("citations", JArray (sort_values (map citation_json (citations w))))].

(** [strip_runtime_fields] of graph.rs: retrieval events only *)
Fixpoint strip_retrieval (v : json) : json :=
  match v with
  | JObject entries =>
      JObject (List.filter (fun e => negb (bool_decide (e.1 = "retrieved_at")))
                 (map (fun '(k, v) => (k, strip_retrieval v)) entries))
  | JArray values => JArray (map strip_retrieval values)
  | _ => v
  end.

(** [GeoWorkflow::stable_digest_unchecked] and [stable_digest] *)
Definition stable_digest_unchecked (w : GeoWorkflow) : string :=
  digest_bytes (canonical_json (strip_retrieval (document w))).
Definition stable_digest (w : GeoWorkflow) : graph_run string :=
  validate sha256_hex w;; Done (stable_digest_unchecked w).
End Digest.

(** ** What the digest does not depend on *)

Section Reordering.
Context `{F64Display} `{JsonText} `{SvgHost} `{GeoContractJson}.

(** Different elements of the list have different canonical texts. *)
Definition told_apart {A} (f : A -> json) (l : list A) : Prop :=
  forall x y, x ∈ l -> y ∈ l -> canonical_json (f x) = canonical_json (f y) -> x = y.

(** The same step with its set-like lists in another order, and another runtime identity *)
Record same_step (a b : WorkflowStep) : Prop := {
  ss_id : stable_id a = stable_id b;
  ss_operation : operation a = operation b;
  ss_parameters : parameters a = parameters b;
  ss_schema : expected_schema a = expected_schema b;
  ss_validation : validation a = validation b;
  ss_provenance : provenance a = provenance b;
  ss_deps : depends_on a ≡ₚ depends_on b /\ told_apart JString (depends_on a);
  ss_inputs : inputs a ≡ₚ inputs b /\ told_apart data_ref_json (inputs a);
  ss_outputs : outputs a ≡ₚ outputs b /\ told_apart data_ref_json (outputs a);
  ss_contracts : output_contracts a ≡ₚ output_contracts b
    /\ told_apart port_contract_json (output_contracts a) }.

(** The same graph: runtime identity, review status and retrieval times of
    citations aside, and the steps, references, contracts and citations in any order *)
Record same_graph (v w : GeoWorkflow) : Prop := {
  sg_goal : goal v = goal w;
  sg_assumptions : assumptions v = assumptions w;
  sg_inputs : wf_inputs v = wf_inputs w;
  sg_outputs : wf_outputs v = wf_outputs w;
  sg_steps : exists l, steps v ≡ₚ l /\ Forall2 same_step l (steps w);
  sg_ids : NoDup (map (fun s => canonical_json (JString (node_id sha256_hex s))) (steps v));
  sg_contracts : input_contracts v ≡ₚ input_contracts w
    /\ told_apart input_contract_json (input_contracts v);
  sg_refs : output_refs v ≡ₚ output_refs w /\ told_apart data_ref_json (output_refs v);
  sg_citations : map citation_json (citations v) ≡ₚ map citation_json (citations w)
    /\ told_apart (fun j => j) (map citation_json (citations v)) }.

Lemma sort_values_same {A} (f : A -> json) l k :
  l ≡ₚ k -> told_apart f l -> sort_values (map f l) = sort_values (map f k).
Proof.
  intros Hp Ht. unfold sort_values. apply stable_sort_unique; try apply _; [|by rewrite Hp].
  intros x y (a & -> & Ha)%list_elem_of_fmap (b & -> & Hb)%list_elem_of_fmap L1 L2.
  f_equal. apply Ht; try done. by apply (anti_symm String.le).
Qed.

Lemma node_id_same a b : same_step a b -> node_id sha256_hex a = node_id sha256_hex b.
Proof. intros []. unfold node_id. by rewrite ss_id0, ss_operation0, ss_parameters0. Qed.

Lemma canonical_step_same p q a b :
  same_step a b -> canonical_step false p a = canonical_step false q b.
Proof.
  intros Hs. unfold canonical_step. rewrite (node_id_same a b Hs). destruct Hs as [].
  rewrite ss_operation0, ss_parameters0, ss_schema0, ss_validation0, ss_provenance0.
  rewrite (sort_values_same _ _ _ (proj1 ss_deps0) (proj2 ss_deps0)),
    (sort_values_same _ _ _ (proj1 ss_inputs0) (proj2 ss_inputs0)),
    (sort_values_same _ _ _ (proj1 ss_outputs0) (proj2 ss_outputs0)),
    (sort_values_same _ _ _ (proj1 ss_contracts0) (proj2 ss_contracts0)). done.
Qed.

Lemma canonical_steps_map p l : canonical_steps false p l = map (canonical_step false None) l.
Proof. revert p. induction l as [|s l IH]; intros p; simpl; [done|]. by rewrite IH. Qed.

Lemma canonical_steps_same p q l k :
  Forall2 same_step l k -> canonical_steps false p l = canonical_steps false q k.
Proof.
  rewrite !canonical_steps_map. induction 1 as [|a b l k Hab _ IH]; [done|]. cbn [map].
  by rewrite IH, (canonical_step_same None None a b Hab).
Qed.

Lemma empty_decide_perm {A} `{EqDecision A} (l k : list A) :
  l ≡ₚ k -> bool_decide (l = []) = bool_decide (k = []).
Proof.
  intros Hp. apply bool_decide_ext. split; intros ->.
  - by apply Permutation_nil.
  - by apply Permutation_nil_r.
Qed.

Lemma legacy_same v w : same_graph v w -> is_legacy_linear v = is_legacy_linear w.
Proof.
  intros []. destruct sg_steps0 as (l & Hp & Hl). unfold is_legacy_linear.
  rewrite (forallb_perm _ _ _ Hp). clear -Hl. induction Hl as [|a b l k [] _ IH]; [done|]. simpl.
  by rewrite IH, ss_id0, (empty_decide_perm _ _ (proj1 ss_deps0)),
    (empty_decide_perm _ _ (proj1 ss_inputs0)), (empty_decide_perm _ _ (proj1 ss_outputs0)).
Qed.

Lemma document_same v w : is_legacy_linear v = false -> same_graph v w -> document v = document w.
Proof.
  intros Hlin Hs. pose proof (legacy_same v w Hs) as Hlin'. rewrite Hlin in Hlin'. destruct Hs as [].
  unfold document, canonical_output_refs. rewrite <-Hlin', Hlin.
  rewrite sg_goal0, sg_assumptions0, sg_inputs0, sg_outputs0.
  rewrite (sort_values_same _ _ _ (proj1 sg_contracts0) (proj2 sg_contracts0)).
  assert (Hrefs : forall u : GeoWorkflow, match output_refs u with [] => [] | w0 :: l => w0 :: l end = output_refs u).
  { intros u. by destruct (output_refs u). }
  rewrite !Hrefs, (sort_values_same _ _ _ (proj1 sg_refs0) (proj2 sg_refs0)).
  assert (Hcit : sort_values (map citation_json (citations v)) = sort_values (map citation_json (citations w))).
  { pose proof (sort_values_same _ _ _ (proj1 sg_citations0) (proj2 sg_citations0)) as Hc.
    by rewrite !List.map_id in Hc. }
  rewrite Hcit. destruct sg_steps0 as (l & Hp & Hl).
  rewrite <-(canonical_steps_same None None l (steps w) Hl), !canonical_steps_map.
  rewrite (stable_sort_by_key_perm fst (map (canonical_step false None) (steps v))
             (map (canonical_step false None) l)); [done| |by rewrite Hp].
  rewrite List.map_map. exact sg_ids0.
Qed.
End Reordering.

(** ** Examples *)

(** The same division with its operands, steps and runtime identifier in another order *)
Definition reordered_density_workflow : GeoWorkflow :=
  {| workflow_id := "another"; goal := "density"; assumptions := []; wf_inputs := [];
     input_contracts := input_contracts density_workflow;
     steps := [example_step "population" "Load" [] [] [ref_output "population" "result"];
               example_step "area" "Area" [] [ref_input "wards"] [ref_output "area" "result"];
               example_step "density" "Divide" ["area"; "population"]
                 [ref_output "population" "result"; ref_output "area" "result"]
                 [ref_output "density" "result"]];
     wf_outputs := []; output_refs := output_refs density_workflow; citations := [];
     review_status := Approved |}.

Definition plain_text : JsonText :=
  {| json_scalar := fun v => match v with JString s => s | _ => "null" end; json_key := fun k => k |}.
Definition plain_host : SvgHost :=
  {| f64_fixed := fun _ _ => "0"; number_json := fun _ => JNull; sha256_hex := fun s => s |}.
Definition plain_contract : GeoContractJson := fun _ => JNull.
