(* ===== verification/WorkflowIdentity.v ===== *)
(** * What the digest of a workflow identifies

    Two graphs with the same digest do the same work, or their canonical texts are
    a collision of the hash: read back, the text gives the steps with everything
    they say, the references, contracts and citations. Conversely the order in which
    a graph is written down does not matter (WorkflowDigest.v). *)

From S2P Require Import Prelude RustStd Ordering Crs Json JsonReading GeoContract WorkflowGraph MapStyle Project WorkflowDigest.

(** ** The content of a value: retrieval events and the order of keys aside *)

Definition content (v : json) : json := normal_json (strip_retrieval v).
Definition same_content (a b : json) : Prop := content a = content b.

Lemma content_array l : content (JArray l) = JArray (map content l).
Proof. unfold content. cbn. by rewrite List.map_map. Qed.
Lemma same_arrays l k : same_content (JArray l) (JArray k) -> map content l = map content k.
Proof. unfold same_content. rewrite !content_array. by intros [= ->]. Qed.
Lemma same_strings a b : same_content (JString a) (JString b) -> a = b.
Proof. by intros [= ->]. Qed.
Lemma same_text_options a b : same_content (json_option JString a) (json_option JString b) -> a = b.
Proof. by destruct a, b; intros [=]; subst. Qed.
Lemma string_arrays l k : map content (map JString l) = map content (map JString k) -> l = k.
Proof. revert k. induction l as [|a l IH]; intros [|b k]; cbn; try done. intros [= -> ?%IH]. by subst. Qed.

Lemma numbers_strip v : numbers_ok v = true -> numbers_ok (strip_retrieval v) = true.
Proof.
  induction v as [v Hs|l IH|l IH] using json_induction; [by destruct v| |]; cbn; rewrite !forallb_forall; intros Hok; rewrite List.Forall_forall in IH.
  - intros x (y & <- & Hy)%in_map_iff. by apply IH, Hok.
  - intros x [([k y] & <- & Hy)%in_map_iff _]%filter_In. exact (IH (k, y) Hy (Hok (k, y) Hy)).
Qed.

Lemma json_get_strip k (l : list (string * json)) : k <> "retrieved_at" ->
  json_get k (strip_retrieval (JObject l)) = strip_retrieval <$> json_get k (JObject l).
Proof.
  intros Hk. cbn [json_get strip_retrieval]. induction l as [|[j v] l IH]; [done|]. cbn [map List.filter List.find fst].
  destruct (bool_decide_reflect (j = "retrieved_at")) as [->|Hj]; cbn [negb].
  - rewrite bool_decide_false by congruence. exact IH.
  - cbn [List.find fst]. by case_bool_decide.
Qed.

Lemma strip_keys (l : list (string * json)) : NoDup (map fst l) ->
  NoDup (map fst (List.filter (fun e => negb (bool_decide (e.1 = "retrieved_at"))) (map (fun '(k, v) => (k, strip_retrieval v)) l))).
Proof.
  induction l as [|[j v] l IH]; intros Hn; [apply NoDup_nil_2|]. cbn [map fst] in Hn. apply NoDup_cons in Hn as [Hj Hn].
  cbn [map List.filter fst]. destruct (negb _); [|by apply IH]. cbn [map fst]. apply NoDup_cons. split; [|by apply IH].
  intros (e & -> & Hin)%list_elem_of_fmap. apply Hj. apply list_elem_of_In, filter_In in Hin as [Hin _].
  apply in_map_iff in Hin as ([k x] & <- & Hin). apply list_elem_of_In in Hin. exact (list_elem_of_fmap_2 fst _ _ Hin).
Qed.

(** Objects with the same content have members with the same content. *)
Lemma member_same k l l' x y : NoDup (map fst l) -> NoDup (map fst l') -> k <> "retrieved_at" ->
  same_content (JObject l) (JObject l') -> json_get k (JObject l) = Some x -> json_get k (JObject l') = Some y -> same_content x y.
Proof.
  intros Hn Hn' Hk Heq Hx Hy. apply (f_equal (json_get k)) in Heq. unfold content in Heq. cbn [strip_retrieval] in Heq.
  rewrite !json_get_normal in Heq by (by apply strip_keys).
  change (normal_json <$> json_get k (strip_retrieval (JObject l)) = normal_json <$> json_get k (strip_retrieval (JObject l'))) in Heq.
  rewrite !json_get_strip, Hx, Hy in Heq by done. by injection Heq.
Qed.

(** Lists that hold the same things in some order *)
Lemma matching {A B} (f : A -> B) (l k : list A) : map f l ≡ₚ map f k -> exists k', k ≡ₚ k' /\ Forall2 (fun a b => f a = f b) l k'.
Proof.
  intros (k' & Heq & Hp)%Permutation_map_inv. exists k'. split; [exact Hp|]. clear Hp. revert k' Heq.
  induction l as [|a l IH]; intros [|b k']; cbn; try done. intros [= Hab Heq]. constructor; [exact Hab | by apply IH].
Qed.
Lemma forall2_eq {A} (l k : list A) : Forall2 eq l k -> l = k.
Proof. induction 1; congruence. Qed.
Lemma matching_eq {A B} (f : A -> B) (l k : list A) : (forall a b, f a = f b -> a = b) -> map f l ≡ₚ map f k -> l ≡ₚ k.
Proof.
  intros Hf (k' & Hp & Hm)%matching. rewrite Hp. apply Forall2_impl with (Q := eq) in Hm; [|exact Hf].
  by apply forall2_eq in Hm as ->.
Qed.
Lemma option_json_same (a b : option json) : same_content (json_option (fun v => v) a) (json_option (fun v => v) b) ->
  same_content (default JNull a) (default JNull b).
Proof. by destruct a, b. Qed.

(** ** Graphs that do the same work *)

Section Identity.
Context `{F64Display} `{JsonTextLaws} `{SvgHost} `{GeoContractJson}.

Record same_work (a b : WorkflowStep) : Prop := {
  sw_node : node_id sha256_hex a = node_id sha256_hex b;
  sw_operation : operation a = operation b;
  sw_parameters : same_content (parameters a) (parameters b);
  sw_schema : same_content (default JNull (expected_schema a)) (default JNull (expected_schema b));
  sw_validation : same_content (default JNull (validation a)) (default JNull (validation b));
  sw_provenance : provenance a = provenance b;
  sw_deps : depends_on a ≡ₚ depends_on b;
  sw_inputs : inputs a ≡ₚ inputs b;
  sw_outputs : outputs a ≡ₚ outputs b;
  sw_contracts : exists l, output_contracts b ≡ₚ l
    /\ Forall2 (fun c d => pc_port c = pc_port d /\ same_content (geo_contract_json (pc_contract c)) (geo_contract_json (pc_contract d)))
         (output_contracts a) l }.

(** Titles, addresses and licences of citations; every field of the input contracts *)
Record same_workflow (v w : GeoWorkflow) : Prop := {
  sv_goal : goal v = goal w;
  sv_assumptions : assumptions v = assumptions w;
  sv_inputs : map content (wf_inputs v) = map content (wf_inputs w);
  sv_outputs : map content (wf_outputs v) = map content (wf_outputs w);
  sv_contracts : exists l, input_contracts w ≡ₚ l
    /\ Forall2 (fun c d => same_content (input_contract_json c) (input_contract_json d)) (input_contracts v) l;
  sv_refs : output_refs v ≡ₚ output_refs w;
  sv_citations : exists l, citations w ≡ₚ l
    /\ Forall2 (fun c d => title c = title d /\ url c = url d /\ citation_license c = citation_license d) (citations v) l;
  sv_steps : exists l, steps w ≡ₚ l /\ Forall2 same_work (steps v) l }.

Ltac distinct_keys := apply (bool_decide_unpack _); vm_compute; exact I.
(** [member "k" in Heq as Hk]: the member of both sides of [Heq] *)
Tactic Notation "member" constr(k) "in" hyp(Heq) "as" ident(Hk) :=
  lazymatch type of Heq with same_content (JObject ?l) (JObject ?l') =>
    pose proof (fun x y Hn Hn' => member_same k l l' x y Hn Hn' ltac:(discriminate) Heq) as Hk;
    specialize (Hk _ _ ltac:(distinct_keys) ltac:(distinct_keys) eq_refl eq_refl) end.

Lemma data_refs_injective a b : content (data_ref_json a) = content (data_ref_json b) -> a = b.
Proof.
  intros Heq. change (same_content (data_ref_json a) (data_ref_json b)) in Heq. unfold data_ref_json in Heq.
  member "node" in Heq as Hn. member "port" in Heq as Hp. apply same_text_options in Hn. apply same_strings in Hp.
  destruct a, b; cbn in *; congruence.
Qed.

Lemma sorted_matching {A} (f : A -> json) l k :
  same_content (JArray (sort_values (map f l))) (JArray (sort_values (map f k))) ->
  map (fun x => content (f x)) l ≡ₚ map (fun x => content (f x)) k.
Proof.
  intros Heq%same_arrays. rewrite <-!(List.map_map f content), <-(stable_sort_perm (key_le canonical_json) (map f l)),
    <-(stable_sort_perm (key_le canonical_json) (map f k)).
  unfold sort_values in Heq. by rewrite Heq.
Qed.

Lemma step_same a b : same_content (canonical_step false None a).2 (canonical_step false None b).2 -> same_work a b.
Proof.
  intros Heq. unfold canonical_step in Heq. cbn [snd] in Heq.
  member "stable_id" in Heq as Hi. member "operation" in Heq as Ho. member "parameters" in Heq as Hp.
  member "expected_schema" in Heq as Hs. member "validation" in Heq as Hv. member "provenance" in Heq as Hr.
  member "depends_on" in Heq as Hd. member "inputs" in Heq as Hin. member "outputs" in Heq as Hout.
  member "output_contracts" in Heq as Hc. split.
  - by apply same_strings.
  - by apply same_strings.
  - exact Hp.
  - by apply option_json_same.
  - by apply option_json_same.
  - by apply same_text_options.
  - apply (matching_eq (fun x => content (JString x))); [apply same_strings | by apply sorted_matching].
  - apply (matching_eq (fun x => content (data_ref_json x))); [apply data_refs_injective | by apply sorted_matching].
  - apply (matching_eq (fun x => content (data_ref_json x))); [apply data_refs_injective | by apply sorted_matching].
  - destruct (matching (fun x => content (port_contract_json x)) (output_contracts a) (output_contracts b)) as (l & Hl & Hm); [by apply sorted_matching|].
    exists l. split; [exact Hl|]. eapply Forall2_impl; [exact Hm|]. intros c d Hcd. cbn beta in Hcd.
    change (same_content (port_contract_json c) (port_contract_json d)) in Hcd. unfold port_contract_json in Hcd.
    member "port" in Hcd as Hport. member "contract" in Hcd as Hcon. split; [by apply same_strings | exact Hcon].
Qed.

Lemma document_identifies v w : is_legacy_linear v = false -> is_legacy_linear w = false ->
  same_content (document v) (document w) -> same_workflow v w.
Proof.
  intros Hv Hw Heq. unfold document in Heq. rewrite Hv, Hw in Heq.
  member "goal" in Heq as Hg. member "assumptions" in Heq as Ha. member "inputs" in Heq as Hi. member "outputs" in Heq as Ho.
  member "input_contracts" in Heq as Hc. member "output_refs" in Heq as Hr. member "steps" in Heq as Hs. member "citations" in Heq as Hct.
  split.
  - by apply same_strings.
  - by apply string_arrays, same_arrays.
  - by apply same_arrays.
  - by apply same_arrays.
  - apply matching. by apply sorted_matching.
  - assert (Hrefs : forall u, is_legacy_linear u = false -> canonical_output_refs u = output_refs u).
    { intros u Hu. unfold canonical_output_refs. rewrite Hu. by destruct (output_refs u). }
    rewrite !Hrefs in Hr by done.
    apply (matching_eq (fun x => content (data_ref_json x))); [apply data_refs_injective | by apply sorted_matching].
  - destruct (matching (fun x => content (citation_json x)) (citations v) (citations w)) as (l & Hl & Hm); [by apply sorted_matching|].
    exists l. split; [exact Hl|]. eapply Forall2_impl; [exact Hm|]. intros c d Hcd.
    change (same_content (citation_json c) (citation_json d)) in Hcd. unfold citation_json in Hcd.
    member "title" in Hcd as Ht. member "url" in Hcd as Hu. member "license" in Hcd as Hlic.
    split_and!; [by apply same_strings | by apply same_text_options | by apply same_text_options].
  - apply same_arrays in Hs. rewrite !canonical_steps_map in Hs.
    destruct (matching (fun s => content (canonical_step false None s).2) (steps v) (steps w)) as (l & Hl & Hm).
    { rewrite <-!(List.map_map (canonical_step false None) (fun p => content p.2)), <-!(List.map_map snd content).
      rewrite <-(stable_sort_perm (key_le fst) (map (canonical_step false None) (steps v))),
        <-(stable_sort_perm (key_le fst) (map (canonical_step false None) (steps w))). by rewrite Hs. }
    exists l. split; [exact Hl|]. eapply Forall2_impl; [exact Hm|]. intros a b. apply step_same.
Qed.

(** The text the digest hashes *)
Definition identity_text (w : GeoWorkflow) : string := canonical_json (strip_retrieval (document w)).

(** C39: The digest that authorizes a workflow identifies its graph. Two graphs with
    the same digest do the same work: goal, assumptions, inputs and outputs, and, each
    in some order, the steps with their operations, parameters, schemas, dependencies,
    references and contracts, the input contracts, output references and citations
    agree, retrieval times aside; or their canonical texts collide under SHA-256.
    And the digest does not depend on the order a graph is written in, nor on runtime
    identifiers, the review status or the citations' retrieval times. *)
Theorem workflow_digest_identifies_graph (v w : GeoWorkflow) :
  is_legacy_linear v = false -> is_legacy_linear w = false ->
  numbers_ok (document v) = true -> numbers_ok (document w) = true ->
  (stable_digest_unchecked v = stable_digest_unchecked w ->
     same_workflow v w \/ identity_text v <> identity_text w /\ sha256_hex (identity_text v) = sha256_hex (identity_text w))
  /\ (same_graph v w -> stable_digest_unchecked v = stable_digest_unchecked w).
Proof.
  intros Hv Hw Hnv Hnw. split; [|intros Hs; unfold stable_digest_unchecked; by rewrite (document_same v w Hv Hs)].
  intros Heq. destruct (decide (identity_text v = identity_text w)) as [Ht|Ht].
  - left. apply document_identifies; [done|done|]. apply canonical_read; [by apply numbers_strip | by apply numbers_strip | exact Ht].
  - right. split; [exact Ht|]. exact (inj (String.append "sha256:") _ _ Heq).
Qed.
End Identity.

Module Examples.
Import Writer.
#[local] Existing Instances plain_host plain_contract.

Lemma apart {A} (f : A -> json) (l : list A) : NoDup (map (fun x => canonical_json (f x)) l) -> told_apart f l.
Proof. intros Hn x y Hx Hy Hxy. by eapply (NoDup_key_inj (fun x => canonical_json (f x))). Qed.
Ltac told := split; [reflexivity || apply perm_swap | apply apart, (bool_decide_unpack _); vm_compute; exact I].

Lemma reordered_same_graph : same_graph density_workflow reordered_density_workflow.
Proof.
  split; try reflexivity; try told.
  - exists [example_step "population" "Load" [] [] [ref_output "population" "result"];
            example_step "area" "Area" [] [ref_input "wards"] [ref_output "area" "result"];
            example_step "density" "Divide" ["population"; "area"]
              [ref_output "area" "result"; ref_output "population" "result"] [ref_output "density" "result"]].
    split; [exact (Permutation_cons_append [_; _] _)|]. repeat apply Forall2_cons_2; try apply Forall2_nil_2; split; try reflexivity; told.
  - apply (bool_decide_unpack _). vm_compute. exact I.
Qed.

(** The density graph with another parameter in one step *)
Definition rescaled : GeoWorkflow :=
  let scaled s := {| step_id := step_id s; stable_id := stable_id s; operation := operation s;
    parameters := JObject [("scale", JNumber "1000")]; expected_schema := expected_schema s; validation := validation s;
    provenance := provenance s; depends_on := depends_on s; inputs := inputs s; outputs := outputs s; output_contracts := output_contracts s |} in
  {| workflow_id := "another"; goal := goal density_workflow; assumptions := assumptions density_workflow;
     wf_inputs := wf_inputs density_workflow; input_contracts := input_contracts density_workflow;
     steps := map scaled (steps density_workflow); wf_outputs := wf_outputs density_workflow;
     output_refs := output_refs density_workflow; citations := citations density_workflow; review_status := review_status density_workflow |}.

Lemma density_numbers : numbers_ok (document density_workflow) = true.
Proof. vm_compute. reflexivity. Qed.
Lemma reordered_numbers : numbers_ok (document reordered_density_workflow) = true.
Proof. vm_compute. reflexivity. Qed.
Lemma rescaled_numbers : numbers_ok (document rescaled) = true.
Proof. vm_compute. reflexivity. Qed.

Lemma workflow_digest_identifies_graph_witness :
  stable_digest_unchecked density_workflow = stable_digest_unchecked reordered_density_workflow
  /\ same_workflow density_workflow reordered_density_workflow
  /\ stable_digest_unchecked density_workflow <> stable_digest_unchecked rescaled.
Proof.
  destruct (workflow_digest_identifies_graph density_workflow reordered_density_workflow eq_refl eq_refl
    density_numbers reordered_numbers) as [Hsame Horder].
  pose proof (Horder reordered_same_graph) as Heq. split; [exact Heq|]. split.
  - destruct (Hsame Heq) as [Hw|[Hne Hcol]]; [exact Hw | destruct (Hne Hcol)].
  - intros Hd. destruct (workflow_digest_identifies_graph density_workflow rescaled eq_refl eq_refl density_numbers rescaled_numbers) as [Hr _].
    destruct (Hr Hd) as [Hw|[Hne Hcol]]; [|exact (Hne Hcol)]. destruct (sv_steps _ _ Hw) as (l & Hp & Hm).
    inversion Hm as [|a b k k' Hab _ Hk Hl]. subst. assert (Hb : b ∈ steps rescaled) by (rewrite Hp; apply list_elem_of_here).
    pose proof (sw_parameters _ _ Hab) as Hpar. cbn in Hb. rewrite !elem_of_cons, elem_of_nil in Hb.
    destruct Hb as [->|[->|[->|[]]]]; vm_compute in Hpar; discriminate Hpar.
Defined.

(** A retrieval time inside a semantic contract can change the digest: the input
    contracts are sorted by their text before retrieval times are dropped. *)
#[local] Instance source_contract : GeoContractJson := fun g =>
  JObject (optional "source" (fun s => source_json (snapshot s)) (gc_source g)).
Definition retrieved (t : string) : SourceSnapshot :=
  let s := source_new "file:///wards" in
  {| dataset_id := dataset_id s; uri := uri s; license := license s; checksum := checksum s; expected_checksum := expected_checksum s;
     observed_checksum := observed_checksum s; retrieved_at := Some t; source_version := source_version s; checksum_status := checksum_status s |}.
Definition two_inputs (first second : string) : GeoWorkflow :=
  let input name t := {| ic_name := name; ic_crs := None; ic_coordinate_unit := None; value_unit := None; source_snapshot := None;
    geo_contract := Some (with_source (source_contract_new (retrieved t)) (contract_new "wards")) |} in
  {| workflow_id := "two"; goal := "two inputs"; assumptions := []; wf_inputs := []; input_contracts := [input "a" first; input "b" second];
     steps := []; wf_outputs := []; output_refs := []; citations := []; review_status := Approved |}.
Example retrieval_time_changes_digest :
  bool_decide (stable_digest_unchecked (two_inputs "2026-01-01" "2026-01-02") = stable_digest_unchecked (two_inputs "2026-01-02" "2026-01-01")) = false.
Proof. vm_compute. reflexivity. Qed.
End Examples.
