(* ===== verification/Templates.v ===== *)
(** * The workflow templates (crates/genegis-workflow/src/graph.rs)

    The builders of the workflow graphs that the application offers: each is a
    chain of [dag_step]s over declared input contracts, closed by [finish_dag].
    Every template whose sources are named validates and has a digest. *)

From S2P Require Import Prelude RustStd Crs Json GeoContract WorkflowGraph WorkflowAccept MapStyle Project WorkflowDigest.
Local Open Scope N_scope.
Local Open Scope builder_scope.

(** ** Building blocks *)

(** [json!({..})] and an array of strings; the order of the keys is that of the
    source (the map sorts them, and every reader of a map sorts them again). *)
Definition obj (entries : list (string * json)) : json := JObject entries.
Definition strs (l : list string) : json := JArray (map JString l).

(** [GeoWorkflow::new]; [id] is the fresh UUID. *)
Definition workflow_new (id goal : string) : GeoWorkflow :=
  {| workflow_id := id; goal := goal; assumptions := []; wf_inputs := []; input_contracts := [];
     steps := []; wf_outputs := []; output_refs := []; citations := []; review_status := Draft |}.

(** Assignments to, and pushes on, the fields of the graph under construction *)
Definition assume (a : string) (w : GeoWorkflow) : GeoWorkflow :=
  {| workflow_id := workflow_id w; goal := goal w; assumptions := assumptions w ++ [a];
     wf_inputs := wf_inputs w; input_contracts := input_contracts w; steps := steps w;
     wf_outputs := wf_outputs w; output_refs := output_refs w; citations := citations w;
     review_status := review_status w |}.
Definition push_workflow_input (v : json) (w : GeoWorkflow) : GeoWorkflow :=
  {| workflow_id := workflow_id w; goal := goal w; assumptions := assumptions w;
     wf_inputs := wf_inputs w ++ [v]; input_contracts := input_contracts w; steps := steps w;
     wf_outputs := wf_outputs w; output_refs := output_refs w; citations := citations w;
     review_status := review_status w |}.
Definition set_contracts (cs : list WorkflowInputContract) (w : GeoWorkflow) : GeoWorkflow :=
  with_steps w cs (steps w) (output_refs w).
Definition set_steps (ss : list WorkflowStep) (w : GeoWorkflow) : GeoWorkflow :=
  with_steps w (input_contracts w) ss (output_refs w).
Definition finish_dag (stable_id : string) (w : GeoWorkflow) : GeoWorkflow :=
  with_steps w (input_contracts w) (steps w) [ref_output stable_id "result"].
Definition push_input (r : WorkflowDataRef) (s : WorkflowStep) : WorkflowStep :=
  with_inputs (inputs s ++ [r]) s.
Definition with_authority (a : string) (c : SourceContract) : SourceContract :=
  {| snapshot := snapshot c; source_authority := Some a; max_age_days := max_age_days c |}.

Record DesktopLayerBridgeInput := mkLayerInput {
  dl_layer_id : string; dl_format : string; dl_crs : Crs; dl_source : SourceSnapshot }.

(** ** The templates *)

Definition nagoya_ward_coverage : CoverageContract :=
  mkCoverageContract "JP-23/Nagoya wards" (Some 16) ["ward_code"] KU_Unique NP_Reject.

Section Templates.
Context `{JsonText} `{SvgHost}.
(** The UUID drawn for the step of that stable identity, and for the graph itself
    (the empty identity) *)
Variable uuid : string -> string.
(** The digest of a file, read by [SourceSnapshot::from_uri] *)
Variable sha256_file : string -> option string.

Definition dag_step (stable_id operation : string) (parameters : json) (dependencies : list string)
    : WorkflowStep :=
  named stable_id (uuid stable_id) operation parameters
  |> with_dependencies dependencies
  |> with_inputs (map (fun dependency => ref_output dependency "result") dependencies)
  |> with_outputs [ref_output stable_id "result"].

Definition stac_endpoint_registry_template (action : string) (endpoint_id : string) : GeoWorkflow :=
  let validate_stac_endpoint :=
    dag_step "validate-stac-endpoint" "ValidateStacEndpoint"
      (obj [("endpoint_id", JString endpoint_id)]) []
    |> push_input (ref_input "search") in
  workflow_new (uuid "") (action +:+ " STAC endpoint " +:+ endpoint_id)
  |> add_input_contract
       (input_contract_new "search"
        |> with_crs wgs84
        |> with_value_unit "degrees"
        |> with_source_snapshot (source_new ("catalog://stac/" +:+ endpoint_id)))
  |> push_workflow_input
       (obj
         [("endpoint_id", JString endpoint_id); ("crs", JString "EPSG:4326");
          ("units", JString "degrees")])
  |> set_steps
       [validate_stac_endpoint;
        dag_step "apply-catalog-command" "ApplyCatalogCommand" (obj [("action", JString action)])
          ["validate-stac-endpoint"];
        dag_step "record-provenance" "RecordProvenance" (obj []) ["apply-catalog-command"]]
  |> finish_dag "record-provenance".

Definition federated_stac_search_template (endpoint_ids : list string) : GeoWorkflow :=
  let resolve_stac_endpoints :=
    dag_step "resolve-stac-endpoints" "ResolveStacEndpoints" (obj []) []
    |> push_input (ref_input "search") in
  workflow_new (uuid "") "Search federated STAC endpoints"
  |> add_input_contract
       (input_contract_new "search"
        |> with_crs wgs84
        |> with_value_unit "degrees"
        |> with_source_snapshot (source_new "catalog://stac/federated"))
  |> push_workflow_input
       (obj
         [("endpoint_ids", strs endpoint_ids); ("crs", JString "EPSG:4326");
          ("units", JString "degrees")])
  |> set_steps
       [resolve_stac_endpoints;
        dag_step "search-stac-items" "SearchStacItems" (obj [("method", JString "POST")])
          ["resolve-stac-endpoints"];
        dag_step "deduplicate-stac-items" "DeduplicateStacItems" (obj []) ["search-stac-items"];
        dag_step "record-provenance" "RecordProvenance" (obj []) ["deduplicate-stac-items"]]
  |> finish_dag "record-provenance".

Definition remote_geoparquet_range_template (uri : string) (row_groups : option (list N)) : GeoWorkflow :=
  let probe_geoparquet_metadata :=
    dag_step "probe-geoparquet-metadata" "ProbeGeoParquetMetadata"
      (obj [("read_mode", JString "http_range")]) []
    |> push_input (ref_input "asset") in
  workflow_new (uuid "") "Read remote GeoParquet with HTTP ranges"
  |> add_input_contract
       (input_contract_new "asset"
        |> with_value_unit "geoparquet"
        |> with_source_snapshot (from_uri sha256_file uri None None))
  |> push_workflow_input
       (obj
         [("uri", JString uri);
          ("row_groups", json_option (fun gs => JArray (map json_N gs)) row_groups);
          ("crs", JString "from GeoParquet metadata");
          ("units", JString "from declared CRS")])
  |> set_steps
       [probe_geoparquet_metadata;
        dag_step "select-row-groups" "SelectRowGroups"
          (obj [("row_groups", json_option (fun gs => JArray (map json_N gs)) row_groups)])
          ["probe-geoparquet-metadata"];
        dag_step "decode-geoparquet" "DecodeGeoParquet" (obj []) ["select-row-groups"];
        dag_step "verify-geoparquet" "VerifyGeoParquet"
          (obj [("schema", JBool true); ("crs", JBool true); ("source_coverage", JBool true)])
          ["decode-geoparquet"];
        dag_step "record-provenance" "RecordProvenance" (obj []) ["verify-geoparquet"]]
  |> finish_dag "record-provenance".

Definition federated_asset_execution_template (endpoint_ids : list string) (stac_item_key : string)
   (asset_key : string) (uri : string) : GeoWorkflow :=
  let enforce_remote_access_policy :=
    dag_step "enforce-remote-access-policy" "EnforceRemoteAccessPolicy"
      (obj
        [("allowed_hosts_env", JString "GENEGIS_REMOTE_ALLOWED_HOSTS");
         ("allow_loopback", JBool true);
         ("max_response_bytes", json_N 8388608);
         ("timeout_ms", json_N 15000);
         ("max_redirects", json_N 0);
         ("url_credentials", JBool false)]) []
    |> push_input (ref_input "search")
    |> push_input (ref_input "asset") in
  workflow_new (uuid "") "Search, compare, bind, execute, and verify a federated STAC asset"
  |> set_contracts
       [input_contract_new "search"
        |> with_crs wgs84
        |> with_value_unit "degrees"
        |> with_source_snapshot (source_new "catalog://stac/federated");
        input_contract_new "asset"
        |> with_value_unit "geoparquet"
        |> with_source_snapshot (from_uri sha256_file uri None None)]
  |> push_workflow_input
       (obj
         [("endpoint_ids", strs endpoint_ids);
          ("stac_item_key", JString stac_item_key);
          ("asset_key", JString asset_key);
          ("uri", JString uri);
          ("search_crs", JString "EPSG:4326");
          ("search_units", JString "degrees")])
  |> set_steps
       [enforce_remote_access_policy;
        dag_step "search-stac-items" "SearchStacItems" (obj [("method", JString "POST")])
          ["enforce-remote-access-policy"];
        dag_step "compare-asset-candidates" "CompareAssetCandidates"
          (obj [("policy", JString "deterministic_verified_score")]) ["search-stac-items"];
        dag_step "verify-asset-metadata" "VerifyAssetMetadata"
          (obj
            [("schema", JBool true); ("crs", JBool true); ("units", JBool true);
             ("license", JBool true); ("source_coverage", JBool true)]) ["compare-asset-candidates"];
        dag_step "bind-stac-asset" "BindStacAsset"
          (obj [("stac_item_key", JString stac_item_key); ("asset_key", JString asset_key)])
          ["verify-asset-metadata"];
        dag_step "read-geoparquet-ranges" "ReadGeoParquetRanges"
          (obj [("read_mode", JString "http_range")]) ["bind-stac-asset"];
        dag_step "verify-execution" "VerifyExecution" (obj [("provenance", JBool true)])
          ["read-geoparquet-ranges"];
        dag_step "record-provenance" "RecordProvenance" (obj []) ["verify-execution"]]
  |> finish_dag "record-provenance".

Definition nagoya_population_density_template : GeoWorkflow :=
  let boundary_source := source_new "catalog://genegis/nagoya-boundaries" in
  let population_source := source_new "catalog://genegis/nagoya-population" in
  let boundary_source_contract :=
    source_contract_new boundary_source |> with_authority "MLIT National Land Numerical Information" in
  let population_source_contract :=
    source_contract_new population_source |> with_authority "Nagoya City" in
  let boundary_geo_contract :=
    contract_new "nagoya.boundary.2020"
    |> with_spatial (spatial_known GK_Polygon wgs84 AO_LongitudeLatitude)
    |> with_measure (measure_simple MK_Geometry "geometry" AB_None)
    |> with_temporal (mkTemporalContract "2020" TG_Year None)
    |> with_coverage nagoya_ward_coverage
    |> with_source boundary_source_contract in
  let population_geo_contract :=
    contract_new "nagoya.population.2020"
    |> with_measure
         (mkMeasureContract MK_Count "persons" None None AB_Sum (Some "2020 census population"))
    |> with_temporal (mkTemporalContract "2020" TG_Year None)
    |> with_coverage nagoya_ward_coverage
    |> with_source population_source_contract in
  let load_boundary :=
    dag_step "load-boundary" "LoadBoundary" (obj []) ["find-boundary"]
    |> push_input (ref_input "boundary") in
  let load_population :=
    dag_step "load-population" "LoadPopulation" (obj []) ["find-population"]
    |> push_input (ref_input "population") in
  let density_geo_contract :=
    contract_new "nagoya.population-density.2020"
    |> with_spatial (spatial_known GK_Polygon wgs84 AO_LongitudeLatitude)
    |> with_measure
         (mkMeasureContract MK_Density "persons/km2" (Some (mkMeasureTerm MK_Count "persons"))
           (Some (mkMeasureTerm MK_Area "km2")) AB_RatioOfSums (Some "2020 census population"))
    |> with_temporal (mkTemporalContract "2020" TG_Year None)
    |> with_coverage nagoya_ward_coverage
    |> with_quality (mkQualityContract None [mkQualityTolerance "density_relative_error" 5000]) in
  let calculate_density :=
    dag_step "calculate-density" "CalculateDensity" (obj [("formula", JString "population / area_km2")])
      ["join-population-to-geometry"]
    |> with_output_contracts [mkPortContract "result" density_geo_contract] in
  workflow_new (uuid "") "名古屋市の人口密度を表示"
  |> assume "行政区域は ward または cho 粒度"
  |> set_contracts
       [input_contract_new "boundary"
        |> with_crs wgs84
        |> with_value_unit "geometry"
        |> with_source_snapshot boundary_source
        |> with_geo_contract boundary_geo_contract;
        input_contract_new "population"
        |> with_value_unit "persons"
        |> with_source_snapshot population_source
        |> with_geo_contract population_geo_contract]
  |> set_steps
       [dag_step "resolve-place" "ResolvePlace" (obj [("name", JString "名古屋市")]) [];
        dag_step "find-boundary" "FindDataset"
          (obj [("type", JString "admin_boundary"); ("area", JString "Nagoya")]) ["resolve-place"];
        dag_step "find-population" "FindDataset"
          (obj [("type", JString "population"); ("area", JString "Nagoya")]) ["resolve-place"];
        load_boundary;
        load_population;
        dag_step "normalize-schema" "NormalizeSchema" (obj []) ["load-boundary"; "load-population"];
        dag_step "reproject-for-area" "ReprojectForAreaCalculation"
          (obj
            [("method", JString "ellipsoidal_wgs84"); ("crs", JString "EPSG:4326");
             ("area_unit", JString "km²")]) ["normalize-schema"];
        dag_step "calculate-area-km2" "CalculateAreaKm2" (obj []) ["reproject-for-area"];
        dag_step "join-population-to-geometry" "JoinPopulationToGeometry" (obj [])
          ["calculate-area-km2"; "load-population"];
        calculate_density;
        dag_step "generate-choropleth" "GenerateChoropleth" (obj []) ["calculate-density"];
        dag_step "verify-units" "VerifyUnits" (obj []) ["generate-choropleth"];
        dag_step "render-map" "RenderMap" (obj []) ["verify-units"];
        dag_step "attach-sources" "AttachSources" (obj []) ["render-map"]]
  |> finish_dag "attach-sources".

Definition remote_cog_metadata_template : GeoWorkflow :=
  workflow_new (uuid "") "リモートCOGデモのメタデータを表示"
  |> assume "Asset is fetched over HTTP range-read when remote"
  |> set_steps
       [dag_step "find-dataset" "FindDataset" (obj [("tags", strs ["cog"; "remote"; "demo"])]) [];
        dag_step "probe-raster-metadata" "ProbeRasterMetadata"
          (obj [("read_mode", JString "http_range")]) ["find-dataset"];
        dag_step "summarize-cog-info" "SummarizeCogInfo" (obj []) ["probe-raster-metadata"];
        dag_step "attach-sources" "AttachSources" (obj []) ["summarize-cog-info"]]
  |> finish_dag "attach-sources".

Definition local_cog_metadata_template : GeoWorkflow :=
  workflow_new (uuid "") "ローカルCOGデモのメタデータを表示"
  |> assume "Asset is read from bundled smoke GeoTIFF fixture"
  |> set_steps
       [dag_step "find-dataset" "FindDataset" (obj [("tags", strs ["cog"; "local"; "demo"])]) [];
        dag_step "probe-raster-metadata" "ProbeRasterMetadata" (obj [("read_mode", JString "local")])
          ["find-dataset"];
        dag_step "summarize-cog-info" "SummarizeCogInfo" (obj []) ["probe-raster-metadata"];
        dag_step "attach-sources" "AttachSources" (obj []) ["summarize-cog-info"]]
  |> finish_dag "attach-sources".

Definition nagoya_geoparquet_template : GeoWorkflow :=
  let load_geoparquet :=
    dag_step "load-geoparquet" "LoadGeoParquet" (obj [("format", JString "geoparquet")])
      ["find-dataset"]
    |> push_input (ref_input "wards") in
  workflow_new (uuid "") "名古屋 wards GeoParquet を検証"
  |> add_input_contract
       (input_contract_new "wards"
        |> with_crs wgs84
        |> with_value_unit "persons"
        |> with_source_snapshot (source_new "catalog://genegis/nagoya-wards-geoparquet"))
  |> assume "Bundled GeoParquet fixture with 16 Nagoya wards"
  |> set_steps
       [dag_step "find-dataset" "FindDataset" (obj [("tags", strs ["nagoya"; "geoparquet"; "demo"])]) [];
        load_geoparquet;
        dag_step "verify-feature-count" "VerifyFeatureCount"
          (obj [("expected", json_N 16); ("field", JString "ward_name")]) ["load-geoparquet"];
        dag_step "attach-sources" "AttachSources" (obj []) ["verify-feature-count"]]
  |> finish_dag "attach-sources".

Definition scene3d_copc_lod1_template (copc_source : SourceSnapshot)
   (building_source : SourceSnapshot) (crs : Crs) : GeoWorkflow :=
  let load_copc :=
    dag_step "load-copc" "LoadCopcPoints"
      (obj [("coordinate_unit", JString "metres"); ("vertical_unit", JString "metres")]) []
    |> push_input (ref_input "copc") in
  let load_buildings :=
    dag_step "load-buildings" "LoadMeasuredLod1Buildings"
      (obj [("height_field", JString "height_m"); ("height_unit", JString "metres")]) []
    |> push_input (ref_input "buildings") in
  workflow_new (uuid "") "COPC点群と実高さLOD1建物を3D表示"
  |> set_contracts
       [input_contract_new "copc"
        |> with_crs crs
        |> with_value_unit "metres"
        |> with_source_snapshot copc_source;
        input_contract_new "buildings"
        |> with_crs crs
        |> with_value_unit "metres"
        |> with_source_snapshot building_source]
  |> set_steps
       [load_copc;
        load_buildings;
        dag_step "compose-scene" "ComposeScene3d"
          (obj [("crs", JString (identifier crs)); ("camera", JString "orbit")])
          ["load-copc"; "load-buildings"];
        dag_step "render-webgpu" "RenderScene3dWebGpu"
          (obj [("depth_test", JBool true); ("point_primitive", JString "point_list")])
          ["compose-scene"];
        dag_step "record-performance" "RecordScene3dPerformance"
          (obj [("metrics", strs ["first_frame_ns"; "steady_state_fps"; "upload_bytes"])])
          ["render-webgpu"]]
  |> finish_dag "record-performance".

Definition ogc_service_read_template (service : string) (operation : string)
   (source : SourceSnapshot) (crs : option Crs) : GeoWorkflow :=
  let input :=
    input_contract_new "service"
    |> with_value_unit "response_bytes"
    |> with_source_snapshot source
    |> match crs with Some crs => with_crs crs | None => fun c => c end in
  let admit_adapter :=
    dag_step "admit-ogc-adapter" "AdmitOgcAdapter"
      (obj
        [("adapter_id", JString "org.genegis.ogc-web-service");
         ("service", JString service);
         ("operation", JString operation);
         ("capability", JString "network_read")]) []
    |> push_input (ref_input "service") in
  workflow_new (uuid "") (service +:+ " " +:+ operation +:+ " を検証して取得")
  |> set_contracts [input]
  |> set_steps
       [admit_adapter;
        dag_step "execute-ogc-request" "ExecuteOgcRequest"
          (obj [("service", JString service); ("operation", JString operation)]) ["admit-ogc-adapter"];
        dag_step "validate-ogc-response" "ValidateOgcResponse"
          (obj [("reject_exception_documents", JBool true)]) ["execute-ogc-request"];
        dag_step "attach-io-receipt" "AttachIoReceipt" (obj [("schema_version", JString "0.1.0")])
          ["validate-ogc-response"]]
  |> finish_dag "attach-io-receipt".

Definition geocoding_template (mode : string) (provider_id : string)
   (provider_source : SourceSnapshot) (query_count : N) (max_candidates : N)
   (privacy_policy : string) (minimum_interval_ms : N) : GeoWorkflow :=
  let admit_step :=
    dag_step "admit-geocoding-provider" "AdmitGeocodingProvider"
      (obj
        [("adapter_id", JString "org.genegis.geocoding");
         ("provider_id", JString provider_id);
         ("mode", JString mode);
         ("query_count", json_N query_count)]) []
    |> push_input (ref_input "queries") in
  workflow_new (uuid "") (show_N query_count +:+ "件を" +:+ provider_id +:+ "でジオコーディング")
  |> set_contracts
       [input_contract_new "queries"
        |> with_value_unit "address_queries"
        |> with_source_snapshot provider_source]
  |> set_steps
       [admit_step;
        dag_step "apply-geocoding-policy" "ApplyGeocodingPrivacyAndRatePolicy"
          (obj
            [("privacy_policy", JString privacy_policy);
             ("minimum_interval_ms", json_N minimum_interval_ms);
             ("max_candidates", json_N max_candidates)]) ["admit-geocoding-provider"];
        dag_step "execute-geocoding-queries" "ExecuteGeocodingQueries"
          (obj [("output_crs", JString "EPSG:4326"); ("coordinate_unit", JString "degrees")])
          ["apply-geocoding-policy"];
        dag_step "validate-geocoding-candidates" "ValidateGeocodingCandidates"
          (obj
            [("require", strs ["confidence"; "provider_id"; "source_receipt"]);
             ("confidence_range", JArray [JNumber "0.0"; JNumber "1.0"])]) ["execute-geocoding-queries"];
        dag_step "attach-geocoding-receipts" "AttachGeocodingReceipts"
          (obj [("retain_raw_queries", JBool false); ("schema_version", JString "0.1.0")])
          ["validate-geocoding-candidates"]]
  |> finish_dag "attach-geocoding-receipts".

Definition narrative_project_view_template (result_source : SourceSnapshot) (result_digest : string)
   (frame_count : N) : GeoWorkflow :=
  let validate :=
    dag_step "validate-narrative-result" "ValidateNarrativeResultIdentity"
      (obj [("result_digest", JString result_digest)]) []
    |> push_input (ref_input "verified-result") in
  workflow_new (uuid "") (show_N frame_count +:+ "場面の検証可能な物語地図を構成")
  |> set_contracts
       [input_contract_new "verified-result"
        |> with_value_unit "digest_bound_project_view"
        |> with_source_snapshot result_source]
  |> set_steps
       [validate;
        dag_step "compose-narrative-frames" "ComposeNarrativeFrames"
          (obj [("frame_count", json_N frame_count); ("ordered", JBool true)])
          ["validate-narrative-result"];
        dag_step "validate-narrative-media" "ValidateNarrativeMediaReferences"
          (obj [("require_content_digest", JBool true); ("reject_local_paths", JBool true)])
          ["compose-narrative-frames"];
        dag_step "bind-narrative-dashboards" "BindNarrativeDashboardDigests"
          (obj [("require_result_identity", JBool true)]) ["validate-narrative-media"];
        dag_step "seal-narrative-view" "SealNarrativeProjectView"
          (obj [("digest", JString "sha256"); ("copy_screenshots", JBool false)])
          ["bind-narrative-dashboards"]]
  |> finish_dag "seal-narrative-view".

Definition live_feed_ingest_template (domain : string) (provider_id : string)
   (source : SourceSnapshot) (after_cursor : N) (watermark : string) (limit : N) : GeoWorkflow :=
  let admit_step :=
    dag_step "admit-live-feed" "AdmitLiveFeedAdapter"
      (obj
        [("adapter_id", JString "org.genegis.live-feed");
         ("provider_id", JString provider_id);
         ("domain", JString domain);
         ("capability", JString "network_read")]) []
    |> push_input (ref_input "live-feed") in
  workflow_new (uuid "") (provider_id +:+ "の" +:+ domain +:+ "更新を取り込む")
  |> set_contracts
       [input_contract_new "live-feed"
        |> with_value_unit "immutable_observation_snapshots"
        |> with_source_snapshot source]
  |> set_steps
       [admit_step;
        dag_step "read-live-feed-window" "ReadLiveFeedCursorWindow"
          (obj
            [("after_cursor", json_N after_cursor); ("watermark", JString watermark);
             ("limit", json_N limit)]) ["admit-live-feed"];
        dag_step "validate-live-feed-window" "ValidateLiveFeedCursorWatermarkFreshness"
          (obj
            [("reject_cursor_regression", JBool true);
             ("reject_watermark_regression", JBool true);
             ("require_crs_units_source", JBool true)]) ["read-live-feed-window"];
        dag_step "seal-observation-snapshots" "SealImmutableObservationSnapshots"
          (obj [("digest", JString "sha256"); ("retain_raw_response_receipt", JBool true)])
          ["validate-live-feed-window"];
        dag_step "commit-live-feed-cursor" "CommitLiveFeedCursorWatermark"
          (obj [("commit_after_snapshot_seal", JBool true)]) ["seal-observation-snapshots"]]
  |> finish_dag "commit-live-feed-cursor".

Definition operational_dashboard_view_template (source : SourceSnapshot) (result_digest : string)
   (view_version : N) : GeoWorkflow :=
  let validate :=
    dag_step "validate-operational-result" "ValidateOperationalResultIdentity"
      (obj [("result_digest", JString result_digest); ("view_version", json_N view_version)]) []
    |> push_input (ref_input "operational-result") in
  workflow_new (uuid "") ("運用ダッシュボード view v" +:+ show_N view_version +:+ " を更新")
  |> set_contracts
       [input_contract_new "operational-result"
        |> with_value_unit "versioned_operational_view"
        |> with_source_snapshot source]
  |> set_steps
       [validate;
        dag_step "bind-operational-map" "BindOperationalMapLayers"
          (obj [("require_same_result", JBool true)]) ["validate-operational-result"];
        dag_step "bind-operational-widgets" "BindOperationalDashboardWidgets"
          (obj [("require_unique_widget_ids", JBool true)]) ["bind-operational-map"];
        dag_step "bind-operational-status" "BindOperationalCursorWatermarkStatus"
          (obj [("require_incremental_state_digest", JBool true)]) ["bind-operational-widgets"];
        dag_step "bind-operational-alert-history" "BindOperationalAlertHistory"
          (obj [("append_only", JBool true)]) ["bind-operational-status"];
        dag_step "seal-operational-view" "SealOperationalViewVersion"
          (obj [("digest", JString "sha256"); ("require_previous_version", JBool (1 <? view_version))])
          ["bind-operational-alert-history"]]
  |> finish_dag "seal-operational-view".

Definition verified_alert_evaluation_template (source : SourceSnapshot) (policy_digest : string)
   (result_digest : string) : GeoWorkflow :=
  let validate :=
    dag_step "validate-alert-window" "ValidateAlertTriggeringWindow"
      (obj [("result_digest", JString result_digest)]) []
    |> push_input (ref_input "alert-window") in
  workflow_new (uuid "") "決定論的な空間アラート条件を検証"
  |> set_contracts
       [input_contract_new "alert-window"
        |> with_value_unit "observation_window"
        |> with_source_snapshot source]
  |> set_steps
       [validate;
        dag_step "admit-alert-policy" "AdmitDeterministicAlertPolicy"
          (obj [("policy_digest", JString policy_digest); ("llm_judgement", JBool false)])
          ["validate-alert-window"];
        dag_step "evaluate-alert-rule" "EvaluateThresholdOrAnomalyRule"
          (obj [("numeric_only", JBool true)]) ["admit-alert-policy"];
        dag_step "verify-alert-evaluation" "VerifyAlertEvaluation"
          (obj [("require_checks", JBool true)]) ["evaluate-alert-rule"];
        dag_step "seal-alert-record" "SealVerifiedAlertRecord"
          (obj [("digest", JString "sha256"); ("acknowledgements", JString "append_only")])
          ["verify-alert-evaluation"]]
  |> finish_dag "seal-alert-record".

Definition alert_acknowledgement_template (source : SourceSnapshot) (alert_digest : string)
   (acknowledgement_count : N) : GeoWorkflow :=
  let validate :=
    dag_step "validate-alert-chain" "ValidateAlertAcknowledgementChain"
      (obj [("alert_digest", JString alert_digest)]) []
    |> push_input (ref_input "verified-alert") in
  workflow_new (uuid "") "検証済みアラートを確認済みにする"
  |> set_contracts
       [input_contract_new "verified-alert"
        |> with_value_unit "alert_record"
        |> with_source_snapshot source]
  |> set_steps
       [validate;
        dag_step "append-alert-acknowledgement" "AppendAlertAcknowledgement"
          (obj [("acknowledgement_count", json_N acknowledgement_count)]) ["validate-alert-chain"];
        dag_step "seal-alert-acknowledgement" "SealAcknowledgedAlertRecord"
          (obj [("digest", JString "sha256"); ("preserve_trigger", JBool true)])
          ["append-alert-acknowledgement"]]
  |> finish_dag "seal-alert-acknowledgement".

Definition scenario_branch_template (source : SourceSnapshot) (branch_id : string) : GeoWorkflow :=
  let validate :=
    dag_step "validate-scenario-base" "ValidateScenarioBaseIdentity"
      (obj [("branch_id", JString branch_id)]) []
    |> push_input (ref_input "scenario-base") in
  workflow_new (uuid "") ("scenario " +:+ branch_id +:+ " を分岐")
  |> set_contracts
       [input_contract_new "scenario-base"
        |> with_value_unit "project_state"
        |> with_source_snapshot source]
  |> set_steps
       [validate;
        dag_step "bind-scenario-assumptions" "BindTypedScenarioAssumptions"
          (obj [("require_units", JBool true)]) ["validate-scenario-base"];
        dag_step "bind-scenario-outcomes" "BindSpatialScenarioOutcomes"
          (obj [("require_result_digest", JBool true)]) ["bind-scenario-assumptions"];
        dag_step "seal-scenario-branch" "SealScenarioBranch" (obj [("digest", JString "sha256")])
          ["bind-scenario-outcomes"]]
  |> finish_dag "seal-scenario-branch".

Definition scenario_comparison_template (source : SourceSnapshot) : GeoWorkflow :=
  let validate :=
    dag_step "validate-scenario-branches" "ValidateScenarioBranchIdentities"
      (obj [("same_base_required", JBool true)]) []
    |> push_input (ref_input "scenario-comparison") in
  workflow_new (uuid "") "scenario の仮定と空間結果を比較"
  |> set_contracts
       [input_contract_new "scenario-comparison"
        |> with_value_unit "semantic_diff"
        |> with_source_snapshot source]
  |> set_steps
       [validate;
        dag_step "diff-scenario-assumptions" "DiffScenarioAssumptions" (obj [("semantic", JBool true)])
          ["validate-scenario-branches"];
        dag_step "diff-scenario-outcomes" "DiffSpatialScenarioOutcomes"
          (obj [("preserve_units", JBool true)]) ["diff-scenario-assumptions"];
        dag_step "seal-scenario-diff" "SealScenarioSemanticDiff" (obj [("digest", JString "sha256")])
          ["diff-scenario-outcomes"]]
  |> finish_dag "seal-scenario-diff".

Definition scenario_merge_template (source : SourceSnapshot) (diff_digest : string) : GeoWorkflow :=
  let validate :=
    dag_step "validate-scenario-approval" "ValidateScenarioDiffApproval"
      (obj [("diff_digest", JString diff_digest)]) []
    |> push_input (ref_input "scenario-merge") in
  workflow_new (uuid "") "承認済み scenario diff を merge"
  |> set_contracts
       [input_contract_new "scenario-merge"
        |> with_value_unit "reviewed_semantic_diff"
        |> with_source_snapshot source]
  |> set_steps
       [validate;
        dag_step "apply-scenario-merge" "ApplyReviewedScenarioMerge"
          (obj [("reject_stale_approval", JBool true)]) ["validate-scenario-approval"];
        dag_step "seal-scenario-merge" "SealScenarioMergeCommit" (obj [("digest", JString "sha256")])
          ["apply-scenario-merge"]]
  |> finish_dag "seal-scenario-merge".

Definition city_scene_stream_template (source : SourceSnapshot) : GeoWorkflow :=
  let validate :=
    dag_step "validate-city-scene" "ValidateCitySceneOpenFormatsAndSources"
      (obj [("formats", strs ["3dtiles-1.1"; "copc-1.0"; "cog"; "pmtiles"])]) []
    |> push_input (ref_input "city-scene") in
  workflow_new (uuid "") "都市スケールの2D/3D stream frame を計画"
  |> set_contracts
       [input_contract_new "city-scene"
        |> with_value_unit "open_city_stream_manifest"
        |> with_source_snapshot source]
  |> set_steps
       [validate;
        dag_step "bind-shared-spatial-view" "BindShared2d3dCameraSelectionTemporalState"
          (obj [("require", strs ["crs"; "camera"; "selection"; "temporal_cursor"])])
          ["validate-city-scene"];
        dag_step "select-city-stream-frontier" "SelectCityStreamScreenSpaceErrorFrontier"
          (obj [("hierarchical_refinement", JBool true)]) ["bind-shared-spatial-view"];
        dag_step "apply-city-stream-budget" "ApplyCityStreamTileByteBudget"
          (obj [("hard_limit", JBool true)]) ["select-city-stream-frontier"];
        dag_step "seal-city-frame-plan" "SealCitySceneFramePlan"
          (obj [("digest", JString "sha256"); ("retain_provenance", JBool true)])
          ["apply-city-stream-budget"]]
  |> finish_dag "seal-city-frame-plan".

Definition organization_governance_template (source : SourceSnapshot) (operation : string) : GeoWorkflow :=
  let validate :=
    dag_step "validate-governance-policy" "ValidateOrganizationPolicyAndRoleBinding"
      (obj [("operation", JString operation); ("fail_closed", JBool true)]) []
    |> push_input (ref_input "organization-governance") in
  workflow_new (uuid "") "組織ポリシーに従って操作を判定し監査証拠を封印"
  |> set_contracts
       [input_contract_new "organization-governance"
        |> with_value_unit "policy_governed_state"
        |> with_source_snapshot source]
  |> set_steps
       [validate;
        dag_step "evaluate-governance-operation" "EvaluateRoleApprovalRetentionPolicy"
          (obj [("operation", JString operation)]) ["validate-governance-policy"];
        dag_step "append-governance-audit" "AppendHashChainedGovernanceAudit"
          (obj [("digest", JString "sha256")]) ["evaluate-governance-operation"];
        dag_step "seal-governance-receipt" "SealGovernanceOperationReceipt"
          (obj [("portable", JBool true)]) ["append-governance-audit"]]
  |> finish_dag "seal-governance-receipt".

Definition private_federated_catalog_template (source : SourceSnapshot) : GeoWorkflow :=
  let validate :=
    dag_step "validate-private-catalog-policy" "ValidatePrivateCatalogPolicyCoverage"
      (obj [("fail_closed", JBool true)]) []
    |> push_input (ref_input "catalog-policy") in
  workflow_new (uuid "") "private catalog federation のアクセス境界を検証"
  |> set_contracts
       [input_contract_new "catalog-policy"
        |> with_value_unit "federated_catalog_access_policy"
        |> with_source_snapshot source]
  |> set_steps
       [validate;
        dag_step "filter-private-catalogs" "FilterCatalogEndpointsBySubjectBoundary"
          (obj [("do_not_disclose_denied_identity", JBool true)]) ["validate-private-catalog-policy"];
        dag_step "seal-private-catalog-admission" "SealPrivateCatalogAdmission"
          (obj [("retain_endpoint_source_identity", JBool true); ("digest", JString "sha256")])
          ["filter-private-catalogs"]]
  |> finish_dag "seal-private-catalog-admission".

Definition plugin_registry_operation_template (source : SourceSnapshot) (operation : string) : GeoWorkflow :=
  let verify :=
    dag_step "verify-plugin-registry-operation" "VerifyPluginSignatureCapabilityAndRevocation"
      (obj
        [("operation", JString operation); ("signature", JString "ed25519");
         ("fail_closed", JBool true)]) []
    |> push_input (ref_input "plugin-registry") in
  workflow_new (uuid "") "署名付き SDK v1 plugin registry を更新"
  |> set_contracts
       [input_contract_new "plugin-registry"
        |> with_value_unit "signed_plugin_registry_state"
        |> with_source_snapshot source]
  |> set_steps
       [verify;
        dag_step "apply-plugin-registry-operation" "ApplyImmutablePluginRegistryOperation"
          (obj [("operation", JString operation)]) ["verify-plugin-registry-operation"];
        dag_step "seal-plugin-registry" "SealPluginRegistryReceipt" (obj [("digest", JString "sha256")])
          ["apply-plugin-registry-operation"]]
  |> finish_dag "seal-plugin-registry".

Definition solution_pack_admission_template (source : SourceSnapshot) : GeoWorkflow :=
  let validate :=
    dag_step "validate-solution-pack" "ValidateSolutionPackOpenStateAndIdentity"
      (obj [("core_forks", JBool false)]) []
    |> push_input (ref_input "solution-pack") in
  workflow_new (uuid "") "domain solution pack の template/plugin 構成を検証"
  |> set_contracts
       [input_contract_new "solution-pack"
        |> with_value_unit "portable_solution_pack_manifest"
        |> with_source_snapshot source]
  |> set_steps
       [validate;
        dag_step "resolve-solution-pack-templates" "ResolveReviewedWorkflowTemplates"
          (obj [("reviewed_only", JBool true)]) ["validate-solution-pack"];
        dag_step "resolve-solution-pack-plugins" "ResolveSignedActiveSdkV1Plugins"
          (obj [("reject_revoked", JBool true)]) ["validate-solution-pack"];
        dag_step "seal-solution-pack-admission" "SealSolutionPackAdmission"
          (obj [("digest", JString "sha256")])
          ["resolve-solution-pack-templates"; "resolve-solution-pack-plugins"]]
  |> finish_dag "seal-solution-pack-admission".

Definition performance_matrix_evaluation_template (source : SourceSnapshot) : GeoWorkflow :=
  let validate :=
    dag_step "validate-performance-matrix" "ValidatePerformanceFixtureBuildAndEnvironment"
      (obj [("dimensions", strs ["cpu"; "gpu"; "dataset"; "network"; "concurrency"])]) []
    |> push_input (ref_input "performance-matrix") in
  workflow_new (uuid "") "deployment performance matrix の regression gate を評価"
  |> set_contracts
       [input_contract_new "performance-matrix"
        |> with_value_unit "reproducible_performance_measurements"
        |> with_source_snapshot source]
  |> set_steps
       [validate;
        dag_step "evaluate-performance-budgets" "EvaluatePerformanceRegressionBudgets"
          (obj [("missing_required", JString "pending"); ("regression", JString "fail")])
          ["validate-performance-matrix"];
        dag_step "seal-performance-matrix" "SealPerformanceMatrixReceipt"
          (obj [("digest", JString "sha256")]) ["evaluate-performance-budgets"]]
  |> finish_dag "seal-performance-matrix".

Definition nagoya_geoparquet_density_template : GeoWorkflow :=
  let load_geoparquet :=
    dag_step "load-geoparquet" "LoadGeoParquet" (obj [("format", JString "geoparquet")])
      ["find-dataset"]
    |> push_input (ref_input "wards") in
  workflow_new (uuid "") "名古屋 GeoParquet 人口密度を表示"
  |> set_contracts
       [input_contract_new "wards"
        |> with_crs wgs84
        |> with_value_unit "persons"
        |> with_source_snapshot (source_new "catalog://genegis/nagoya-wards-geoparquet")]
  |> assume "Density computed from bundled GeoParquet wards fixture"
  |> set_steps
       [dag_step "find-dataset" "FindDataset" (obj [("tags", strs ["nagoya"; "geoparquet"; "density"])])
          [];
        load_geoparquet;
        dag_step "calculate-area-km2" "CalculateAreaKm2" (obj []) ["load-geoparquet"];
        dag_step "calculate-density" "CalculateDensity"
          (obj [("formula", JString "population / area_km2")]) ["calculate-area-km2"];
        dag_step "generate-choropleth" "GenerateChoropleth" (obj []) ["calculate-density"];
        dag_step "verify-units" "VerifyUnits" (obj []) ["generate-choropleth"];
        dag_step "render-map" "RenderMap" (obj []) ["verify-units"];
        dag_step "attach-sources" "AttachSources" (obj []) ["render-map"]]
  |> finish_dag "attach-sources".

Definition external_stac_fetch_template : GeoWorkflow :=
  workflow_new (uuid "") "外部 STAC collection を fetch"
  |> assume "Collection URL is extracted from the user prompt"
  |> set_steps
       [dag_step "find-dataset" "FindDataset" (obj [("tags", strs ["stac"; "external"; "demo"])]) [];
        dag_step "fetch-stac-collection" "FetchStacCollection" (obj [("tool", JString "stac_fetch")])
          ["find-dataset"];
        dag_step "summarize-collection" "SummarizeCollection" (obj []) ["fetch-stac-collection"];
        dag_step "attach-sources" "AttachSources" (obj []) ["summarize-collection"]]
  |> finish_dag "attach-sources".

Definition dashboard_export_template : GeoWorkflow :=
  workflow_new (uuid "") "検証済み人口密度を PMTiles ダッシュボードとして書き出し"
  |> assume "Input is the bundled Nagoya density result"
  |> assume "Tiles are encoded from WGS84 lon/lat into Web Mercator at zoom 7–11"
  |> set_steps
       [dag_step "find-dataset" "FindDataset" (obj [("tags", strs ["nagoya"; "density"; "population"])])
          [];
        dag_step "run-density-analysis" "RunDensityAnalysis" (obj [("tool", JString "density")])
          ["find-dataset"];
        dag_step "encode-vector-tiles" "EncodeVectorTiles"
          (obj [("extent", json_N 4096); ("zoom_range", JArray [json_N 7; json_N 11])])
          ["run-density-analysis"];
        dag_step "write-pmtiles-archive" "WritePmTilesArchive"
          (obj [("format", JString "pmtiles-v3"); ("clustered", JBool true)]) ["encode-vector-tiles"];
        dag_step "verify-roundtrip" "VerifyRoundTrip" (obj [("sampled_tiles", json_N 8)])
          ["write-pmtiles-archive"];
        dag_step "attach-sources" "AttachSources" (obj []) ["verify-roundtrip"]]
  |> finish_dag "attach-sources".

Definition nagoya_flood_exposure_template : GeoWorkflow :=
  workflow_new (uuid "") "名古屋市の洪水浸水リスクと人口曝露を表示"
  |> assume "Flood zones are the bundled synthetic depth-band fixture"
  |> assume "Exposure is estimated by deterministic even-odd grid sampling"
  |> set_steps
       [dag_step "find-flood-dataset" "FindDataset" (obj [("tags", strs ["nagoya"; "flood"; "hazard"])])
          [];
        dag_step "load-ward-population" "LoadWardPopulation"
          (obj [("dataset", JString "nagoya-wards-density")]) ["find-flood-dataset"];
        dag_step "grid-sample-exposure" "GridSampleExposure"
          (obj [("samples_per_axis", json_N 96); ("predicate", JString "even_odd_point_in_polygon")])
          ["load-ward-population"];
        dag_step "classify-depth-bands" "ClassifyDepthBands"
          (obj [("bands_m", JArray [JNumber "0.5"; JNumber "3.0"; JNumber "5.0"])])
          ["grid-sample-exposure"];
        dag_step "verify-exposure" "VerifyExposure" (obj [("tool", JString "duckdb_verify")])
          ["classify-depth-bands"];
        dag_step "attach-sources" "AttachSources" (obj []) ["verify-exposure"]]
  |> finish_dag "attach-sources".

Definition nagoya_xmin_city_template : GeoWorkflow :=
  workflow_new (uuid "") "名古屋市の15分都市アクセシビリティを表示"
  |> assume "Walk network is the bundled ~400m grid fixture"
  |> assume "Scores are cumulative-opportunity counts within 15 walk minutes"
  |> set_steps
       [dag_step "find-network-dataset" "FindDataset"
          (obj [("tags", strs ["nagoya"; "walk"; "network"])]) [];
        dag_step "load-ward-population" "LoadWardPopulation"
          (obj [("dataset", JString "nagoya-wards-density")]) ["find-network-dataset"];
        dag_step "build-walk-graph" "BuildWalkGraph"
          (obj [("algorithm", JString "dijkstra"); ("snap_tolerance", JString "nearest_node")])
          ["find-network-dataset"];
        dag_step "snap-pois-and-centroids" "SnapPoisAndCentroids" (obj []) ["build-walk-graph"];
        dag_step "compute-accessibility-scores" "ComputeAccessibilityScores"
          (obj [("measure", JString "cumulative_opportunity"); ("threshold_min", json_N 15)])
          ["snap-pois-and-centroids"];
        dag_step "verify-route-sanity" "VerifyRouteSanity"
          (obj [("checks", strs ["triangle_inequality"; "threshold_monotonicity"])])
          ["compute-accessibility-scores"];
        dag_step "attach-sources" "AttachSources" (obj []) ["verify-route-sanity"]]
  |> finish_dag "attach-sources".

Definition nagoya_evacuation_template : GeoWorkflow :=
  workflow_new (uuid "") "名古屋市の洪水浸水リスクと避難所アクセシビリティを表示"
  |> assume "Shelters are the bundled synthetic fixture (2 per ward, outside flood zones)"
  |> assume "Flooded segments are slowed by 1 + depth × penalty per metre of inundation"
  |> set_steps
       [dag_step "find-shelter-dataset" "FindDataset"
          (obj [("tags", strs ["nagoya"; "shelter"; "evacuation"])]) [];
        dag_step "load-ward-population" "LoadWardPopulation"
          (obj [("dataset", JString "nagoya-wards-density")]) ["find-shelter-dataset"];
        dag_step "build-walk-graph" "BuildWalkGraph"
          (obj [("algorithm", JString "dijkstra"); ("snap_tolerance", JString "nearest_node")])
          ["find-shelter-dataset"];
        dag_step "classify-flooded-segments" "ClassifyFloodedSegments"
          (obj
            [("bands_m", JArray [JNumber "0.5"; JNumber "3.0"; JNumber "5.0"]);
             ("cost_model", JString "speed_x_depth")]) ["build-walk-graph"];
        dag_step "route-centroids-to-shelters" "RouteCentroidsToShelters"
          (obj [("clean_baseline", JBool true); ("penalized_route", JBool true)])
          ["classify-flooded-segments"];
        dag_step "verify-evacuation" "VerifyEvacuation"
          (obj [("checks", strs ["penalty_monotonicity"; "triangle_inequality"; "duckdb_cross_check"])])
          ["route-centroids-to-shelters"];
        dag_step "attach-sources" "AttachSources" (obj []) ["verify-evacuation"]]
  |> finish_dag "attach-sources".

Definition sentinel_ndvi_timeseries_template : GeoWorkflow :=
  workflow_new (uuid "") "名古屋周辺のNDVI時系列をSentinel-2から作成して検証"
  |> assume "Raster fixtures are synthetic Sentinel-2-like COGs (two epochs)"
  |> assume "Zonal means use pixel-center sampling inside ward polygons"
  |> set_steps
       [dag_step "find-ndvi-collection" "FindDataset"
          (obj [("tags", strs ["ndvi"; "sentinel"; "timeseries"])]) [];
        dag_step "fetch-stac-items" "FetchStacItems"
          (obj [("tool", JString "stac_fetch"); ("min_items", json_N 2)]) ["find-ndvi-collection"];
        dag_step "range-read-band-assets" "RangeReadBandAssets"
          (obj [("bands", strs ["red"; "nir"]); ("mode", JString "window_decode")]) ["fetch-stac-items"];
        dag_step "compute-ndvi" "ComputeNdvi"
          (obj
            [("formula", JString "(nir - red) / (nir + red)");
             ("clamp", JArray [JNumber "-1"; json_N 1])]) ["range-read-band-assets"];
        dag_step "zonal-mean-per-ward" "ZonalMeanPerWard"
          (obj [("method", JString "pixel_center_point_in_polygon")]) ["compute-ndvi"];
        dag_step "verify-index-range" "VerifyIndexRange"
          (obj
            [("checks",
              strs ["index_range_all_pixels"; "pixel_reconciliation"; "determinism_recompute"])])
          ["zonal-mean-per-ward"];
        dag_step "attach-sources" "AttachSources" (obj []) ["verify-index-range"]]
  |> finish_dag "attach-sources".

Definition copc_change_detect_template : GeoWorkflow :=
  workflow_new (uuid "") "2時期の点群から建物・植生の変化を抽出して検証"
  |> assume "Fixtures are synthetic uncompressed LAS epochs; COPC streams via the same reader"
  |> assume "Classification uses per-cell p90 nDSM deltas with geometric thresholds"
  |> set_steps
       [dag_step "find-pointcloud-dataset" "FindDataset"
          (obj [("tags", strs ["pointcloud"; "change"; "demo"])]) [];
        dag_step "load-epoch-clouds" "LoadEpochClouds"
          (obj [("epochs", strs ["a"; "b"]); ("reader", JString "las_or_copc_streaming")])
          ["find-pointcloud-dataset"];
        dag_step "grid-height-statistics" "GridHeightStatistics"
          (obj [("cell_size_m", json_N 5); ("stat", JString "p90_minus_min")]) ["load-epoch-clouds"];
        dag_step "epoch-difference" "EpochDifference" (obj [("ground_ref", JString "epoch_a_min")])
          ["grid-height-statistics"];
        dag_step "classify-changes" "ClassifyChanges"
          (obj
            [("classes",
              strs
                ["building_added"; "building_removed"; "vegetation_growth"; "vegetation_removal";
                 "stable"])]) ["epoch-difference"];
        dag_step "verify-volume-delta" "VerifyVolumeDelta"
          (obj
            [("checks",
              strs ["volume_sign_consistency"; "control_area_stable"; "nn_control_exact_match"])])
          ["classify-changes"];
        dag_step "attach-sources" "AttachSources" (obj []) ["verify-volume-delta"]]
  |> finish_dag "attach-sources".

Definition desktop_layer_bridge_template (layers : list DesktopLayerBridgeInput) : GeoWorkflow :=
  let validate :=
    dag_step "validate-layer-declarations" "ValidateDesktopLayerDeclarations"
      (obj [("formats", strs (map dl_format layers));
            ("require", strs ["crs"; "coordinate_unit"; "license"; "source_checksum"])]) [] in
  let validate :=
    with_inputs (inputs validate ++ map (fun layer => ref_input (dl_layer_id layer)) layers) validate in
  workflow_new (uuid "") "選択したデスクトップGISレイヤーをプロジェクトカプセルへ転送"
  |> set_contracts
       (map (fun layer =>
          input_contract_new (dl_layer_id layer)
          |> with_crs (dl_crs layer)
          |> with_value_unit "source_bytes"
          |> with_source_snapshot (dl_source layer)) layers)
  |> set_steps
       [validate;
        dag_step "copy-content-addressed-assets" "CopyContentAddressedLayerAssets"
          (obj [("reject_path_escape", JBool true)]) ["validate-layer-declarations"];
        dag_step "build-project-capsule" "BuildDesktopBridgeProjectCapsule"
          (obj [("schema_version", JString "0.1.0")]) ["copy-content-addressed-assets"];
        dag_step "verify-bridge-inventory" "VerifyDesktopBridgeInventory"
          (obj [("require_byte_exact_assets", JBool true)]) ["build-project-capsule"]]
  |> finish_dag "verify-bridge-inventory".
End Templates.

(** ** Templates are executable *)

(** The graph whose input contracts are reduced to their names *)
Definition bare (w : GeoWorkflow) : GeoWorkflow :=
  with_steps w (map (fun c => input_contract_new (ic_name c)) (input_contracts w)) (steps w) (output_refs w).

Definition named_source (s : SourceSnapshot) : Prop := is_blank (uri s) = false.
Definition known_crs (c : Crs) : Prop := is_Some (definition c).

Section Theory.
Context `{F64Display} `{JsonText} `{SvgHost}.
Abbreviation executable := (executable sha256_hex).

Lemma bare_executable w : input_contracts_wf w -> executable (bare w) -> executable w.
Proof.
  intros Hc []. split; try assumption.
  - intros i r Hi Hr. specialize (ex_inputs i r Hi Hr). destruct ex_inputs as [Hb Hn]. split; [exact Hb|].
    destruct (ref_node r); [exact Hn|]. destruct Hn as (c & Hin & Hp).
    apply list_elem_of_fmap in Hin as (c0 & -> & Hin). by exists c0.
Qed.

(** The builders keep a contract well formed, as long as no [GeoContract] is attached. *)
Lemma new_contract_wf name : is_blank name = false -> input_contract_wf (input_contract_new name).
Proof. intros Hn. by split. Qed.

Lemma value_unit_wf u c :
  geo_contract c = None -> is_blank u = false -> input_contract_wf c -> input_contract_wf (with_value_unit u c).
Proof. intros Hg Hu []. split; try done. simpl. by rewrite Hg. Qed.

Lemma source_snapshot_wf s c :
  geo_contract c = None -> named_source s -> input_contract_wf c -> input_contract_wf (with_source_snapshot s c).
Proof. intros Hg Hu []. split; try done. simpl. by rewrite Hg. Qed.

Lemma with_crs_wf crs c :
  geo_contract c = None -> known_crs crs -> input_contract_wf c -> input_contract_wf (with_crs crs c).
Proof.
  intros Hg [d Hd] []. split; simpl; try done.
  - exists d. split; [done|]. unfold Crs.coordinate_unit. by rewrite Hd.
  - unfold Crs.coordinate_unit. rewrite Hd. simpl. intros [= He].
    by apply definition_sound in Hd as (_ & _ & _ & _ & ? & _).
  - by rewrite Hg.
Qed.

(** Graph inputs that are declared can be added to the steps of an executable
    graph, and contracts can be added for them. *)
Definition reads_more (w : GeoWorkflow) (s0 s : WorkflowStep) : Prop :=
  node_id sha256_hex s = node_id sha256_hex s0 /\ is_blank (stable_id s) = is_blank (stable_id s0)
  /\ depends_on s = depends_on s0 /\ outputs s = outputs s0 /\ output_contracts s = output_contracts s0
  /\ forall r, r ∈ inputs s -> r ∈ inputs s0
       \/ ref_node r = None /\ is_blank (port r) = false /\ port r ∈ map ic_name (input_contracts w).

Lemma reads_more_refl w s : reads_more w s s.
Proof. split_and!; try done. by left. Qed.

Lemma reads_more_lookup w l0 l i s :
  Forall2 (reads_more w) l0 l -> l !! i = Some s -> exists s0, l0 !! i = Some s0 /\ reads_more w s0 s.
Proof. intros Hf Hs. by apply (Forall2_lookup_r _ _ _ _ _ Hf) in Hs. Qed.

Lemma reads_more_ids w w0 :
  Forall2 (reads_more w) (steps w0) (steps w) -> ids_of sha256_hex w = ids_of sha256_hex w0.
Proof.
  unfold ids_of. induction 1 as [|a b l k (Hid & _) _ IH]; simpl; [done|]. by rewrite Hid, IH.
Qed.

Lemma not_legacy w : existsb (fun s => negb (is_blank (stable_id s))) (steps w) = true -> is_legacy_linear w = false.
Proof.
  unfold is_legacy_linear. induction (steps w) as [|s l IH]; [done|]. simpl.
  destruct (is_blank (stable_id s)); simpl; [|done]. intros Hs. by rewrite (IH Hs), andb_false_r.
Qed.

Lemma reads_more_named w l0 l :
  Forall2 (reads_more w) l0 l ->
  existsb (fun s => negb (is_blank (stable_id s))) l = existsb (fun s => negb (is_blank (stable_id s))) l0.
Proof. induction 1 as [|a b l k (_ & Hb & _) _ IH]; simpl; [done|]. by rewrite Hb, IH. Qed.

Lemma reads_more_deps w0 w i :
  Forall2 (reads_more w) (steps w0) (steps w) -> is_legacy_linear w0 = false -> is_legacy_linear w = false ->
  effective_deps sha256_hex w i = effective_deps sha256_hex w0 i.
Proof.
  intros Hf Hl0 Hl. unfold effective_deps. rewrite Hl0, Hl. simpl.
  pose proof (proj1 (Forall2_lookup _ _ _) Hf i) as Hi.
  inversion Hi as [a b (_ & _ & Hd & _)|]; simpl; [exact Hd | done].
Qed.

Section More.
Context (w0 w : GeoWorkflow) (Hex : executable w0) (Hf : Forall2 (reads_more w) (steps w0) (steps w)).
Context (Hl0 : is_legacy_linear w0 = false) (Hl : is_legacy_linear w = false).
Context (Hnames : forall n, n ∈ map ic_name (input_contracts w0) -> n ∈ map ic_name (input_contracts w)).
Context (Hrefs : output_refs w = output_refs w0).

Lemma more_ids : ids_of sha256_hex w = ids_of sha256_hex w0.
Proof. apply (reads_more_ids w w0 Hf). Qed.

Lemma more_depends d c : depends sha256_hex w d c <-> depends sha256_hex w0 d c.
Proof.
  unfold depends. rewrite more_ids. split; intros (i & Hi & Hd); exists i; split; try done.
  - by rewrite <-(reads_more_deps w0 w i Hf Hl0 Hl).
  - by rewrite (reads_more_deps w0 w i Hf Hl0 Hl).
Qed.

Lemma more_exports i d s s0 p :
  steps w !! i = Some s -> steps w0 !! i = Some s0 ->
  (exists o, o ∈ outputs s0 /\ ref_node o = Some d /\ port o = p) ->
  exists o, o ∈ outputs s /\ ref_node o = Some d /\ port o = p.
Proof.
  intros Hs Hs0. destruct (reads_more_lookup w _ _ _ _ Hf Hs) as (s' & Hs' & _ & _ & _ & Ho & _).
  rewrite Hs0 in Hs'. injection Hs' as <-. by rewrite Ho.
Qed.

Lemma more_steps i s0 : steps w0 !! i = Some s0 -> exists s, steps w !! i = Some s.
Proof. intros Hs. apply (Forall2_lookup_l _ _ _ _ _ Hf) in Hs as (s & ? & _). by exists s. Qed.

Lemma more_resolves i r :
  (i < length (steps w0))%nat ->
  input_resolves sha256_hex w0 i r -> input_resolves sha256_hex w i r.
Proof.
  intros Hi [Hb Hr]. split; [exact Hb|]. destruct (ref_node r) as [d|].
  - destruct Hr as [Hd Ho]. split; [by rewrite (reads_more_deps w0 w i Hf Hl0 Hl)|]. right.
    destruct Ho as [?|(j & s0 & Hj & Hs0 & Ho)]; [congruence|].
    destruct (more_steps j s0 Hs0) as [s Hs]. exists j, s. rewrite more_ids.
    split_and!; [done|done|]. by eapply more_exports.
  - destruct Hr as (c & Hc & Hp). assert (Hin : port r ∈ map ic_name (input_contracts w)).
    { apply Hnames. rewrite <-Hp. apply list_elem_of_fmap. by exists c. }
    apply list_elem_of_fmap in Hin as (j & Hj & Hin). by exists j.
Qed.

Lemma more_inputs i r :
  (i < length (steps w))%nat -> r ∈ effective_inputs sha256_hex w i -> input_resolves sha256_hex w i r.
Proof.
  intros Hi Hr. unfold effective_inputs in Hr. rewrite Hl in Hr. simpl in Hr.
  destruct (steps w !! i) as [s|] eqn:Hs; [simpl in Hr | by apply not_elem_of_nil in Hr].
  destruct (reads_more_lookup w _ _ _ _ Hf Hs) as (s0 & Hs0 & _ & _ & _ & _ & _ & Hin).
  pose proof (lookup_lt_Some _ _ _ Hs0) as Hlt.
  destruct (Hin r Hr) as [Hr0|(Hn & Hb & Hp)].
  - apply more_resolves; [done|]. apply (ex_inputs _ _ Hex); [done|].
    unfold effective_inputs. rewrite Hl0. simpl. by rewrite Hs0.
  - split; [done|]. rewrite Hn. apply list_elem_of_fmap in Hp as (c & Hc & Hcin). by exists c.
Qed.

Lemma more_each (P : string -> WorkflowStep -> Prop) :
  (forall n s s0, outputs s = outputs s0 -> output_contracts s = output_contracts s0 -> P n s0 -> P n s) ->
  each_step sha256_hex w0 P -> each_step sha256_hex w P.
Proof.
  intros HP Hall i n s Hn Hs.
  destruct (reads_more_lookup w _ _ _ _ Hf Hs) as (s0 & Hs0 & _ & _ & _ & Ho & Hc & _).
  apply (HP n s s0); [done|done|]. apply (Hall i); [by rewrite <-more_ids | done].
Qed.

Lemma executable_more : input_contracts_wf w -> executable w.
Proof.
  intros Hc. split.
  - intros He. apply (ex_steps _ _ Hex). apply Forall2_length in Hf as Hlen. rewrite He in Hlen.
    by apply nil_length_inv.
  - rewrite more_ids. apply (ex_ids _ _ Hex).
  - done.
  - intros d c Hd%more_depends. rewrite more_ids. by apply (ex_deps _ _ Hex d c).
  - intros c Hd. apply (ex_acyclic _ _ Hex c). revert Hd.
    apply (tc_congruence (fun x => x)). intros. by apply more_depends.
  - intros x y. rewrite more_ids. intros Hx Hy. generalize (ex_connected _ _ Hex x y Hx Hy).
    apply (rtc_congruence (fun x => x)). intros a b [Hd|Hd]; [left|right]; by apply more_depends.
  - apply more_inputs.
  - intros _. apply more_each; [|by apply (ex_outputs _ _ Hex)].
    intros n s s0 Ho _ [Hne Hall]. split; rewrite Ho; done.
  - rewrite Hrefs. eapply Forall_impl; [apply (ex_refs _ _ Hex)|].
    intros o (node & i & s0 & Hn & Hi & Hs0 & Ho). destruct (more_steps i s0 Hs0) as [s Hs].
    exists node, i, s. rewrite more_ids. split_and!; [done..|]. right.
    destruct Ho as [?|Ho]; [congruence|]. by eapply more_exports.
  - rewrite Hl. apply more_each; [|rewrite <-Hl0; apply (ex_output_contracts _ _ Hex)].
    unfold output_contracts_wf, exports. intros n s s0 Ho Hoc. by rewrite Ho, Hoc.
Qed.
End More.

(** ** The catalogue *)

Section Catalogue.
Variable uuid : string -> string.
Variable sha256_file : string -> option string.

(** The graphs that the builders return, for sources with a URI and registered
    reference systems *)
Inductive template : GeoWorkflow -> Prop :=
| T_stac_endpoint_registry action endpoint_id :
    template (stac_endpoint_registry_template uuid action endpoint_id)
| T_federated_stac_search endpoint_ids : template (federated_stac_search_template uuid endpoint_ids)
| T_remote_geoparquet_range uri row_groups : is_blank uri = false ->
    template (remote_geoparquet_range_template uuid sha256_file uri row_groups)
| T_federated_asset_execution endpoint_ids stac_item_key asset_key uri : is_blank uri = false ->
    template (federated_asset_execution_template uuid sha256_file endpoint_ids stac_item_key asset_key uri)
| T_nagoya_population_density : template (nagoya_population_density_template uuid)
| T_remote_cog_metadata : template (remote_cog_metadata_template uuid)
| T_local_cog_metadata : template (local_cog_metadata_template uuid)
| T_nagoya_geoparquet : template (nagoya_geoparquet_template uuid)
| T_scene3d_copc_lod1 copc_source building_source crs : named_source copc_source -> named_source
    building_source -> known_crs crs ->
    template (scene3d_copc_lod1_template uuid copc_source building_source crs)
| T_ogc_service_read service operation source crs : named_source source -> on_some crs known_crs ->
    template (ogc_service_read_template uuid service operation source crs)
| T_geocoding mode provider_id provider_source query_count max_candidates privacy_policy minimum_interval_ms
    : named_source provider_source ->
        template (geocoding_template uuid mode provider_id provider_source query_count max_candidates
      privacy_policy minimum_interval_ms)
| T_narrative_project_view result_source result_digest frame_count : named_source result_source ->
    template (narrative_project_view_template uuid result_source result_digest frame_count)
| T_live_feed_ingest domain provider_id source after_cursor watermark limit : named_source source ->
    template (live_feed_ingest_template uuid domain provider_id source after_cursor watermark limit)
| T_operational_dashboard_view source result_digest view_version : named_source source ->
    template (operational_dashboard_view_template uuid source result_digest view_version)
| T_verified_alert_evaluation source policy_digest result_digest : named_source source ->
    template (verified_alert_evaluation_template uuid source policy_digest result_digest)
| T_alert_acknowledgement source alert_digest acknowledgement_count : named_source source ->
    template (alert_acknowledgement_template uuid source alert_digest acknowledgement_count)
| T_scenario_branch source branch_id : named_source source ->
    template (scenario_branch_template uuid source branch_id)
| T_scenario_comparison source : named_source source -> template (scenario_comparison_template uuid source)
| T_scenario_merge source diff_digest : named_source source ->
    template (scenario_merge_template uuid source diff_digest)
| T_city_scene_stream source : named_source source -> template (city_scene_stream_template uuid source)
| T_organization_governance source operation : named_source source ->
    template (organization_governance_template uuid source operation)
| T_private_federated_catalog source : named_source source ->
    template (private_federated_catalog_template uuid source)
| T_plugin_registry_operation source operation : named_source source ->
    template (plugin_registry_operation_template uuid source operation)
| T_solution_pack_admission source : named_source source ->
    template (solution_pack_admission_template uuid source)
| T_performance_matrix_evaluation source : named_source source ->
    template (performance_matrix_evaluation_template uuid source)
| T_nagoya_geoparquet_density : template (nagoya_geoparquet_density_template uuid)
| T_external_stac_fetch : template (external_stac_fetch_template uuid)
| T_dashboard_export : template (dashboard_export_template uuid)
| T_nagoya_flood_exposure : template (nagoya_flood_exposure_template uuid)
| T_nagoya_xmin_city : template (nagoya_xmin_city_template uuid)
| T_nagoya_evacuation : template (nagoya_evacuation_template uuid)
| T_sentinel_ndvi_timeseries : template (sentinel_ndvi_timeseries_template uuid)
| T_copc_change_detect : template (copc_change_detect_template uuid)
| T_desktop_layer_bridge layers :
    NoDup (map dl_layer_id layers) ->
    Forall (fun l => is_blank (dl_layer_id l) = false /\ known_crs (dl_crs l) /\ named_source (dl_source l)) layers ->
    template (desktop_layer_bridge_template uuid layers).

Lemma named_uri u : named_source (source_new u) <-> is_blank u = false.
Proof. done. Qed.

Lemma from_uri_named f u e v : is_blank u = false -> named_source (from_uri f u e v).
Proof.
  intros Hu. unfold named_source, from_uri. cbv zeta.
  destruct (local_path u) as [path|]; [destruct (f path)|]; exact Hu.
Qed.

Lemma catalog_named id : named_source (source_new ("catalog://stac/" +:+ id)).
Proof. by apply is_blank_graphic. Qed.

Lemma wgs84_known : known_crs wgs84.
Proof. by eexists. Qed.

(** The contracts of a template are chains of builders. *)
Ltac built_contract :=
  repeat first
    [ apply source_snapshot_wf; [done | first [assumption | exact eq_refl | solve [auto using from_uri_named, catalog_named]] |]
    | apply value_unit_wf; [done | done |]
    | apply with_crs_wf; [done | solve [auto using wgs84_known] |]
    | apply new_contract_wf; done ].
Ltac distinct_names := apply (bool_decide_unpack _); vm_compute; exact I.
Ltac built_contracts :=
  split;
  [ cbv [input_contracts]; repeat (apply Forall_cons; split; [by built_contract|]); apply Forall_nil; exact I
  | distinct_names ].
Ltac runs := apply validated_executable; vm_compute; reflexivity.
Ltac parametric := intros; apply bare_executable; [built_contracts | runs].

Lemma ogc_executable service operation source crs :
  named_source source -> on_some crs known_crs ->
  executable (ogc_service_read_template uuid service operation source crs).
Proof. destruct crs; parametric. Qed.

(** With layers added, the bridge of no layers reads more graph inputs. *)
Lemma bridge_executable layers :
  NoDup (map dl_layer_id layers) ->
  Forall (fun l => is_blank (dl_layer_id l) = false /\ known_crs (dl_crs l) /\ named_source (dl_source l)) layers ->
  executable (desktop_layer_bridge_template uuid layers).
Proof.
  intros Hnd Hall.
  assert (Hnames : map ic_name (input_contracts (desktop_layer_bridge_template uuid layers)) = map dl_layer_id layers).
  { simpl. rewrite map_map. done. }
  apply (executable_more (desktop_layer_bridge_template uuid [])); [runs| |reflexivity|reflexivity| |reflexivity|].
  - constructor; [|repeat (constructor; [apply reads_more_refl|]); constructor].
    split_and!; try done. intros r Hr. right.
    apply list_elem_of_fmap in Hr as (l & -> & Hl). rewrite Forall_forall in Hall.
    split_and!; [done | by apply Hall | rewrite Hnames; apply list_elem_of_fmap; by exists l].
  - by intros n Hn%not_elem_of_nil.
  - split; [|by rewrite Hnames]. simpl. apply Forall_map. eapply Forall_impl; [exact Hall|].
    intros l (Hb & Hc & Hs). built_contract.
Qed.

Lemma template_executable w : template w -> executable w.
Proof.
  destruct 1; [..|by apply bridge_executable].
  all: first [by apply ogc_executable | solve [parametric] | runs].
Qed.
End Catalogue.
End Theory.

(** ** Properties *)

(** C16: every template validates, whatever its arguments, as long as its sources
    have a URI, its reference systems are registered and its layers are named
    apart; so it has a digest. *)
Theorem templates_validate `{F64Display} `{JsonText} `{SvgHost} `{GeoContractJson} uuid sha256_file w :
  template uuid sha256_file w ->
  validate sha256_hex w = Done tt /\ stable_digest w = Done (stable_digest_unchecked w).
Proof.
  intros Ht%template_executable%validated_executable. split; [done|]. unfold stable_digest. by rewrite Ht.
Qed.

(** Two layers of a desktop project *)
Definition two_layers : list DesktopLayerBridgeInput :=
  [{| dl_layer_id := "roads"; dl_format := "geojson"; dl_crs := wgs84; dl_source := source_new "file:///roads" |};
   {| dl_layer_id := "parcels"; dl_format := "geoparquet"; dl_crs := nagoya_projected;
      dl_source := source_new "file:///parcels" |}].

Lemma templates_validate_witness :
  @validate (fun _ => "") plain_text (@sha256_hex plain_host)
    (@desktop_layer_bridge_template plain_text plain_host (fun id => id) two_layers) = Done tt.
Proof.
  apply (@templates_validate (fun _ => "") plain_text plain_host plain_contract (fun id => id) (fun _ => None)).
  apply T_desktop_layer_bridge.
  - apply (bool_decide_unpack _). vm_compute. exact I.
  - repeat constructor; try exact eq_refl; by eexists.
Defined.
