(* ===== verification/Composer.v ===== *)
(** * The no-code workflow composer (crates/genegis-workflow/src/composer.rs)

    Typed edits of a draft graph with undo, redo and an event log, over the
    templates of [Templates]. The draft is threaded as a state: an edit returns
    its verdict and the graph it leaves behind, also when it fails. *)

From Stdlib Require Import Ascii.
From S2P Require Import Prelude RustStd Crs Json GeoContract WorkflowGraph WorkflowAccept MapStyle Project WorkflowDigest Templates.
Local Open Scope N_scope.

(** ** Data *)

Inductive AnalysisTemplateCategory :=
| AC_Density | AC_Exposure | AC_Accessibility | AC_Change | AC_Suitability | AC_Proximity
| AC_Aggregation | AC_Geocoding | AC_Utility.
#[export] Instance AnalysisTemplateCategory_eq_dec : EqDecision AnalysisTemplateCategory.
Proof. solve_decision. Defined.

Record ReviewedWorkflowTemplate := mkReviewed {
  rt_id : string; rt_title : string; rt_node_count : nat; rt_workflow_digest : string;
  rt_categories : list AnalysisTemplateCategory; rt_verification_profile : string }.

Inductive ComposerCommand :=
| SetGoal (goal : string)
| AddReviewedNode (template_id source_node_id new_node_id : string)
| RemoveNode (node_id : string)
| Connect (source_node_id source_port target_node_id : string)
| Disconnect (source_node_id target_node_id : string)
| SetParameters (node_id : string) (parameters : json)
| Undo
| Redo.

Record ComposerEvent := mkEvent {
  ce_id : string; ce_command : ComposerCommand; ce_executable_digest : option string }.

Record WorkflowComposer := mkComposer {
  cw_workflow : GeoWorkflow; cw_events : list ComposerEvent;
  cw_undo : list GeoWorkflow; cw_redo : list GeoWorkflow }.

(** [Digest] keeps the error whose text the code stores. *)
Inductive ComposerError :=
| UnknownTemplate (id : string)
| NotFound (target : string)
| InvalidNodeId (id : string)
| EmptyHistory (stack : string)
| InvalidWorkflow (e : WorkflowValidationError)
| Digest (e : WorkflowValidationError).

Abbreviation composer_fault := (fault ComposerError).

(** ** Catalogue *)

Definition template_ids : list string :=
  ["nagoya-density"; "nagoya-geoparquet"; "nagoya-geoparquet-density"; "local-cog-metadata";
   "external-stac"; "dashboard-export"; "flood-exposure"; "xmin-city"; "evacuation";
   "ndvi-timeseries"; "pointcloud-change"; "geocoding"].

Definition template_categories (id : string) : list AnalysisTemplateCategory :=
  if bool_decide (id ∈ ["nagoya-density"; "nagoya-geoparquet-density"]) then [AC_Density; AC_Aggregation]
  else if bool_decide (id = "flood-exposure") then [AC_Exposure; AC_Aggregation]
  else if bool_decide (id = "xmin-city") then [AC_Accessibility; AC_Proximity]
  else if bool_decide (id = "evacuation") then [AC_Accessibility; AC_Suitability; AC_Proximity]
  else if bool_decide (id = "ndvi-timeseries") then [AC_Change; AC_Aggregation]
  else if bool_decide (id = "pointcloud-change") then [AC_Change]
  else if bool_decide (id = "geocoding") then [AC_Geocoding]
  else [AC_Utility].

Definition template_verification_profile (id : string) : string :=
  if bool_decide (id = "geocoding") then "adapter_admission+privacy+rate+confidence+source_receipt"
  else if bool_decide (id = "flood-exposure") then "source_snapshot+crs+units+independent_aggregation"
  else if bool_decide (id ∈ ["xmin-city"; "evacuation"]) then "source_snapshot+projected_crs+route_cost_receipt"
  else if bool_decide (id ∈ ["ndvi-timeseries"; "pointcloud-change"])
  then "epoch_sources+crs+units+change_receipt"
  else if bool_decide (id ∈ ["nagoya-density"; "nagoya-geoparquet-density"])
  then "source_snapshot+crs+units+independent_density_verifier"
  else "source_snapshot+workflow_digest+execution_receipt".

Section Catalogue.
Context `{F64Display} `{JsonText} `{SvgHost} `{GeoContractJson}.
Variable sha256_file : string -> option string.

(** [uuid] draws the runtime identities of this call. *)
Definition template_workflow (uuid : string -> string) (id : string) : result ComposerError GeoWorkflow :=
  if bool_decide (id = "nagoya-density") then Ok (nagoya_population_density_template uuid)
  else if bool_decide (id = "nagoya-geoparquet") then Ok (nagoya_geoparquet_template uuid)
  else if bool_decide (id = "nagoya-geoparquet-density") then Ok (nagoya_geoparquet_density_template uuid)
  else if bool_decide (id = "local-cog-metadata") then Ok (local_cog_metadata_template uuid)
  else if bool_decide (id = "external-stac") then Ok (external_stac_fetch_template uuid)
  else if bool_decide (id = "dashboard-export") then Ok (dashboard_export_template uuid)
  else if bool_decide (id = "flood-exposure") then Ok (nagoya_flood_exposure_template uuid)
  else if bool_decide (id = "xmin-city") then Ok (nagoya_xmin_city_template uuid)
  else if bool_decide (id = "evacuation") then Ok (nagoya_evacuation_template uuid)
  else if bool_decide (id = "ndvi-timeseries") then Ok (sentinel_ndvi_timeseries_template uuid)
  else if bool_decide (id = "pointcloud-change") then Ok (copc_change_detect_template uuid)
  else if bool_decide (id = "geocoding") then
    Ok (geocoding_template uuid "interactive" "provider-slot"
          (from_uri sha256_file "provider://geocoding/runtime-bound"
             (Some "sha256:2a8c9e31f42ba3eb211df915f0989d459a199636682c7387e143b328759a88a5")
             (Some "contract-1"))
          1 3 "local_only" 100)
  else Err (UnknownTemplate id).

Definition reviewed_template (uuid : string -> string) (id : string)
    : outcome WorkflowValidationError (list ReviewedWorkflowTemplate) :=
  match template_workflow uuid id with
  | Err _ => Done []
  | Ok w =>
      digest ← match stable_digest w with Done d => Done d | _ => Panic end;
      Done [{| rt_id := id; rt_title := goal w; rt_node_count := length (steps w);
               rt_workflow_digest := digest; rt_categories := template_categories id;
               rt_verification_profile := template_verification_profile id |}]
  end.

(** The [expect] on the digest panics when the template does not validate. *)
Fixpoint reviewed_templates (uuid : string -> string) (ids : list string)
    : outcome WorkflowValidationError (list ReviewedWorkflowTemplate) :=
  match ids with
  | [] => Done []
  | id :: ids => t ← reviewed_template uuid id; ts ← reviewed_templates uuid ids; Done (t ++ ts)
  end.
Definition reviewed_workflow_templates (uuid : string -> string) := reviewed_templates uuid template_ids.
End Catalogue.

(** ** Edits of a draft *)

Abbreviation edit A := (st GeoWorkflow composer_fault A).

Definition validate_node_id (value : string) : result composer_fault unit :=
  err_if (is_empty value
          || negb (string_forall (fun a => is_ascii_lowercase a || is_ascii_digit a || bool_decide (a = "-"%char)) value))
    (Error (InvalidNodeId value)).

Definition set_goal (g : string) (w : GeoWorkflow) : GeoWorkflow :=
  {| workflow_id := workflow_id w; goal := g; assumptions := assumptions w; wf_inputs := wf_inputs w;
     input_contracts := input_contracts w; steps := steps w; wf_outputs := wf_outputs w;
     output_refs := output_refs w; citations := citations w; review_status := review_status w |}.
Definition set_output_refs (os : list WorkflowDataRef) (w : GeoWorkflow) : GeoWorkflow :=
  with_steps w (input_contracts w) (steps w) os.
Definition set_status (s : ReviewStatus) (w : GeoWorkflow) : GeoWorkflow :=
  {| workflow_id := workflow_id w; goal := goal w; assumptions := assumptions w; wf_inputs := wf_inputs w;
     input_contracts := input_contracts w; steps := steps w; wf_outputs := wf_outputs w;
     output_refs := output_refs w; citations := citations w; review_status := s |}.
Definition set_parameters (v : json) (s : WorkflowStep) : WorkflowStep :=
  {| step_id := step_id s; stable_id := stable_id s; operation := operation s; parameters := v;
     expected_schema := expected_schema s; validation := validation s; provenance := provenance s;
     depends_on := depends_on s; inputs := inputs s; outputs := outputs s;
     output_contracts := output_contracts s |}.

(** [steps.iter().find(|s| s.stable_id == id)], and the [iter_mut] of the same *)
Definition called (id : string) (s : WorkflowStep) : bool := bool_decide (stable_id s = id).
Fixpoint update_first (p : WorkflowStep -> bool) (f : WorkflowStep -> WorkflowStep) (l : list WorkflowStep)
    : list WorkflowStep :=
  match l with [] => [] | s :: l => if p s then f s :: l else s :: update_first p f l end.

(** The palette's step under its new names: no edges, graph inputs only *)
Definition palette_node (uuid new_node_id : string) (s : WorkflowStep) : WorkflowStep :=
  {| step_id := uuid; stable_id := new_node_id; operation := operation s; parameters := parameters s;
     expected_schema := expected_schema s; validation := validation s; provenance := provenance s;
     depends_on := []; inputs := List.filter (fun r => bool_decide (ref_node r = None)) (inputs s);
     outputs := outputs s; output_contracts := output_contracts s |}.

(** [retain(|d| d != id)], [retain(|r| r.node.is_none_or(|n| n != id))] *)
Definition drop_deps (id : string) (deps : list string) : list string :=
  List.filter (fun d => negb (bool_decide (d = id))) deps.
Definition drop_refs (id : string) (refs : list WorkflowDataRef) : list WorkflowDataRef :=
  List.filter (fun r => negb (bool_decide (ref_node r = Some id))) refs.
Definition drop_edges (id : string) (s : WorkflowStep) : WorkflowStep :=
  with_inputs (drop_refs id (inputs s)) (with_dependencies (drop_deps id (depends_on s)) s).

(** One new edge, unless it is there already *)
Definition add_edge_from (source source_port : string) (s : WorkflowStep) : WorkflowStep :=
  let s := if bool_decide (source ∈ depends_on s) then s
           else with_dependencies (depends_on s ++ [source]) s in
  if bool_decide (ref_output source source_port ∈ inputs s) then s
  else with_inputs (inputs s ++ [ref_output source source_port]) s.

Section Edit.
Context `{F64Display} `{JsonText} `{SvgHost} `{GeoContractJson}.
Variable sha256_file : string -> option string.

(** The UUIDs drawn while one command runs: for the event, for an added step,
    and for the template it is copied from *)
Record Draws := { event_uuid : string; node_uuid : string; template_uuid : string -> string }.
Variable draws : Draws.

Definition find_step (id : string) : edit WorkflowStep :=
  w ← get; lift (ok_or (find (called id) (steps w)) (Error (NotFound id))).

Definition apply_edit (command : ComposerCommand) : edit unit :=
  match command with
  | SetGoal g =>
      lift (err_if (is_blank g) (Error (InvalidNodeId "blank goal")));;
      modify (set_goal (trim g))
  | AddReviewedNode template_id source_node_id new_node_id =>
      lift (validate_node_id new_node_id);;
      w ← get;
      lift (err_if (existsb (called new_node_id) (steps w)) (Error (InvalidNodeId new_node_id)));;
      template ← lift (as_fault (template_workflow sha256_file (template_uuid draws) template_id));
      node ← lift (ok_or (find (called source_node_id) (steps template)) (Error (NotFound source_node_id)));
      modify (push_step (palette_node (node_uuid draws) new_node_id node))
  | RemoveNode node_id =>
      before ← get;
      modify (fun w => set_steps (List.filter (fun s => negb (called node_id s)) (steps w)) w);;
      w ← get;
      lift (err_if (bool_decide (length (steps w) = length (steps before))) (Error (NotFound node_id)));;
      modify (fun w => set_steps (map (drop_edges node_id) (steps w)) w);;
      modify (fun w => set_output_refs (drop_refs node_id (output_refs w)) w)
  | Connect source_node_id source_port target_node_id =>
      lift (err_if (bool_decide (source_node_id = target_node_id)) (Error (InvalidNodeId source_node_id)));;
      source ← find_step source_node_id;
      lift (err_if (negb (exports source source_node_id source_port))
              (Error (NotFound (source_node_id +:+ "." +:+ source_port))));;
      find_step target_node_id;;
      modify (fun w => set_steps (update_first (called target_node_id)
        (add_edge_from source_node_id source_port) (steps w)) w)
  | Disconnect source_node_id target_node_id =>
      find_step target_node_id;;
      modify (fun w => set_steps (update_first (called target_node_id)
        (drop_edges source_node_id) (steps w)) w)
  | SetParameters node_id parameters =>
      lift (err_if (match parameters with JObject _ => false | _ => true end)
              (Error (InvalidNodeId "parameters must be an object")));;
      find_step node_id;;
      modify (fun w => set_steps (update_first (called node_id) (set_parameters parameters) (steps w)) w)
  | Undo | Redo => lift (Err Panicked)
  end.

(** ** The session *)

Abbreviation composing A := (st WorkflowComposer composer_fault A).

(** An edit of the [workflow] field *)
Definition on_workflow {A} (m : edit A) : composing A := fun c =>
  let '(r, w) := m (cw_workflow c) in
  (r, {| cw_workflow := w; cw_events := cw_events c; cw_undo := cw_undo c; cw_redo := cw_redo c |}).
Definition set_history (w : GeoWorkflow) (undo redo : list GeoWorkflow) (c : WorkflowComposer) : WorkflowComposer :=
  {| cw_workflow := w; cw_events := cw_events c; cw_undo := undo; cw_redo := redo |}.

(** [Vec::pop] *)
Definition pop (l : list GeoWorkflow) (stack : string) : result composer_fault (GeoWorkflow * list GeoWorkflow) :=
  match last l with
  | Some w => Ok (w, removelast l)
  | None => Err (Error (EmptyHistory stack))
  end.

(** [workflow.validate().ok().and_then(|_| workflow.stable_digest().ok())] *)
Definition executable_digest (w : GeoWorkflow) : result composer_fault (option string) :=
  match validate sha256_hex w with
  | Done _ => match stable_digest w with
              | Done d => Ok (Some d) | Failed _ => Ok None | Panic => Err Panicked end
  | Failed _ => Ok None
  | Panic => Err Panicked
  end.

Definition change (command : ComposerCommand) : composing unit :=
  match command with
  | Undo =>
      c ← get;
      '(previous, undo) ← lift (pop (cw_undo c) "undo");
      modify (set_history previous undo (cw_redo c ++ [cw_workflow c]))
  | Redo =>
      c ← get;
      '(next, redo) ← lift (pop (cw_redo c) "redo");
      modify (set_history next (cw_undo c ++ [cw_workflow c]) redo)
  | edit =>
      before ← get;
      on_workflow (apply_edit edit);;
      modify (fun c => set_history (cw_workflow c) (cw_undo c ++ [cw_workflow before]) [] c)
  end.

Definition apply (command : ComposerCommand) : composing ComposerEvent :=
  change command;;
  c ← get;
  digest ← lift (executable_digest (cw_workflow c));
  let event := {| ce_id := event_uuid draws; ce_command := command; ce_executable_digest := digest |} in
  modify (fun c => {| cw_workflow := cw_workflow c; cw_events := cw_events c ++ [event];
                      cw_undo := cw_undo c; cw_redo := cw_redo c |});;
  mret event.
End Edit.

Section Admission.
Context `{F64Display} `{JsonText} `{SvgHost} `{GeoContractJson}.
Variable sha256_file : string -> option string.

Definition from_reviewed_workflow (w : GeoWorkflow) : result composer_fault WorkflowComposer :=
  checked_run InvalidWorkflow (validate sha256_hex w);;
  checked_run Digest (stable_digest w);;
  Ok {| cw_workflow := set_status Draft w; cw_events := []; cw_undo := []; cw_redo := [] |}.

Definition from_template (uuid : string -> string) (template_id : string) : result composer_fault WorkflowComposer :=
  w ← as_fault (template_workflow sha256_file uuid template_id);
  from_reviewed_workflow w.

Definition workflow_for_execution (c : WorkflowComposer) : result composer_fault GeoWorkflow :=
  checked_run InvalidWorkflow (validate sha256_hex (cw_workflow c));;
  checked_run Digest (stable_digest (cw_workflow c));;
  Ok (cw_workflow c).
End Admission.

(** ** Edits either happen or change nothing *)

Section Theory.
Context `{F64Display} `{JsonText} `{SvgHost} `{GeoContractJson}.
Variable sha256_file : string -> option string.
Abbreviation apply_edit := (apply_edit sha256_file).
Abbreviation apply := (apply sha256_file).
Abbreviation executable := (executable sha256_hex).

Lemma filter_all {A} (p : A -> bool) l : length (List.filter p l) = length l -> List.filter p l = l.
Proof.
  induction l as [|a l IH]; [done|]. simpl. destruct (p a); simpl.
  - intros [= Hl]. by rewrite IH.
  - intros Hl. pose proof (List.filter_length_le p l). lia.
Qed.

Lemma with_steps_same w : with_steps w (input_contracts w) (steps w) (output_refs w) = w.
Proof. by destruct w. Qed.

Lemma reads_find id : reads (find_step id).
Proof. intros w. unfold find_step. simpl. unfold lift, mbind, st_bind, get. by destruct (find (called id) (steps w)). Qed.

Lemma edit_atomic d command : atomic (apply_edit d command).
Proof.
  destruct command; try (unfold Composer.apply_edit;
    repeat first [ apply atomic_bind_reads;
                   [first [apply reads_get | apply reads_lift | apply reads_find] | intros ?]
                 | apply infallible_atomic, infallible_modify | apply reads_atomic, reads_lift ]; fail).
  intros w e w' Hr. unfold Composer.apply_edit, mbind, st_bind, get, modify, lift in Hr. simpl in Hr.
  case_bool_decide as Hl; simplify_eq/=. apply filter_all in Hl. unfold set_steps. rewrite Hl.
  apply with_steps_same.
Qed.

(** ** The digest of a draft *)

Lemma executable_digest_done w : exists o, executable_digest w = Ok o /\
  forall d, o = Some d <-> executable w /\ d = stable_digest_unchecked w.
Proof.
  unfold executable_digest, stable_digest.
  destruct (order_cases sha256_hex w) as
    [(e & He & Hl) | [(o & He & _) | [(l & He & _) | (l & He & _)]]].
  2: { assert (Hv : validate sha256_hex w = Done tt) by (apply validated_order; by exists o).
       rewrite Hv. simpl. eexists. split; [done|]. apply validated_executable in Hv. naive_solver. }
  all: unfold validate; rewrite He; simpl; eexists; split; [done|]; intros d; split; [done|];
    intros [Hx _]; apply executable_ordered in Hx as [o Ho]; congruence.
Qed.

Lemma executable_digest_ok w o : executable_digest w = Ok o ->
  forall d, o = Some d <-> executable w /\ d = stable_digest_unchecked w.
Proof. destruct (executable_digest_done w) as (o' & Ho & Hd). rewrite Ho. by intros [= <-]. Qed.

(** ** One action *)

Definition with_event (e : ComposerEvent) (c : WorkflowComposer) : WorkflowComposer :=
  {| cw_workflow := cw_workflow c; cw_events := cw_events c ++ [e]; cw_undo := cw_undo c;
     cw_redo := cw_redo c |}.

Lemma composer_apply_ok d command c e c' :
  apply d command c = (Ok e, c') <->
  exists c1 o, change sha256_file d command c = (Ok tt, c1) /\ executable_digest (cw_workflow c1) = Ok o
    /\ e = {| ce_id := event_uuid d; ce_command := command; ce_executable_digest := o |}
    /\ c' = with_event e c1.
Proof.
  unfold Composer.apply. split.
  - intros ([] & c1 & Hc & Hr)%st_bind_ok. apply st_bind_ok in Hr as (c1' & c1'' & [-> ->]%get_ok & Hr).
    apply st_bind_ok in Hr as (o & c2 & [Ho ->]%lift_ok & Hr).
    apply st_bind_ok in Hr as ([] & c3 & [= <-] & [= <- <-]). exists c1, o. by split_and!.
  - intros (c1 & o & Hc & Ho & -> & ->). apply st_bind_ok. exists tt, c1. split; [done|].
    apply st_bind_ok. exists c1, c1. split; [done|]. apply st_bind_ok. exists o, c1. split; [by apply lift_ok|].
    done.
Qed.

Lemma on_workflow_atomic {A} (m : edit A) : atomic m -> atomic (on_workflow m).
Proof.
  intros Hm c e c' Hr. unfold on_workflow in Hr. destruct (m (cw_workflow c)) as [r w] eqn:Hw.
  injection Hr as -> <-. apply Hm in Hw as ->. by destruct c.
Qed.

Lemma change_atomic d command : atomic (change sha256_file d command).
Proof.
  assert (Hedit : forall k, atomic (before ← get; on_workflow (apply_edit d k);;
    modify (fun c => set_history (cw_workflow c) (cw_undo c ++ [cw_workflow before]) [] c))).
  { intros k. apply atomic_bind_reads; [apply reads_get | intros before].
    apply atomic_bind_infallible; [apply on_workflow_atomic, edit_atomic | intros _; apply infallible_modify]. }
  destruct command; try exact (Hedit _).
  all: simpl; apply atomic_bind_reads; [apply reads_get | intros c];
    apply atomic_bind_reads; [apply reads_lift | intros [w l]]; apply infallible_atomic, infallible_modify.
Qed.

Lemma composer_apply_atomic d command : atomic (apply d command).
Proof.
  intros c e c' [Hr|([] & c1 & _ & Hr)]%st_bind_err; [by eapply change_atomic|].
  exfalso. apply st_bind_err in Hr as [?|(c2 & c2' & [-> ->]%get_ok & Hr)]; [done|].
  destruct (executable_digest_done (cw_workflow c1)) as (o & Ho & _).
  apply st_bind_err in Hr as [Hr|(o' & c3 & _ & Hr)]; [by rewrite Ho in Hr | done].
Qed.

Definition is_history (command : ComposerCommand) : bool :=
  match command with Undo | Redo => true | _ => false end.

(** What a successful action does to the draft and its history *)
Lemma change_ok d command c c' :
  change sha256_file d command c = (Ok tt, c') <->
  match command with
  | Undo => exists w undo, cw_undo c = undo ++ [w] /\ c' = set_history w undo (cw_redo c ++ [cw_workflow c]) c
  | Redo => exists w redo, cw_redo c = redo ++ [w] /\ c' = set_history w (cw_undo c ++ [cw_workflow c]) redo c
  | edit => exists w, apply_edit d edit (cw_workflow c) = (Ok tt, w)
      /\ c' = set_history w (cw_undo c ++ [cw_workflow c]) [] c
  end.
Proof.
  assert (Hpop : forall l st w l', pop l st = Ok (w, l') <-> l = l' ++ [w]).
  { intros l st w l'. unfold pop. destruct l as [|x l _] using rev_ind; simpl.
    - split; [done|]. intros Hl. by destruct l'.
    - rewrite last_snoc, removelast_last. split; [by intros [= -> ->]|]. by intros [-> [= ->]]%app_inj_tail. }
  assert (Hedit : forall k, (before ← get; on_workflow (apply_edit d k);;
      modify (fun c => set_history (cw_workflow c) (cw_undo c ++ [cw_workflow before]) [] c)) c = (Ok tt, c')
    <-> exists w, apply_edit d k (cw_workflow c) = (Ok tt, w)
      /\ c' = set_history w (cw_undo c ++ [cw_workflow c]) [] c).
  { intros k. unfold mbind, st_bind, get, modify, on_workflow.
    destruct (apply_edit d k (cw_workflow c)) as [[[]|e] w]; simpl; split.
    - intros [= <-]. by exists w.
    - by intros (w' & [= <-] & ->).
    - done.
    - by intros (? & ? & ?). }
  destruct command; try exact (Hedit _); simpl.
  - split.
    + intros (c0 & c1 & [-> ->]%get_ok & Hr)%st_bind_ok.
      apply st_bind_ok in Hr as ([w l] & c2 & [Hp%Hpop ->]%lift_ok & [= <-]). by exists w, l.
    + intros (w & l & Hp%(Hpop _ "undo") & ->). unfold mbind, st_bind, get, lift, modify. simpl. by rewrite Hp.
  - split.
    + intros (c0 & c1 & [-> ->]%get_ok & Hr)%st_bind_ok.
      apply st_bind_ok in Hr as ([w l] & c2 & [Hp%Hpop ->]%lift_ok & [= <-]). by exists w, l.
    + intros (w & l & Hp%(Hpop _ "redo") & ->). unfold mbind, st_bind, get, lift, modify. simpl. by rewrite Hp.
Qed.

(** ** Sessions *)

Definition act (c : WorkflowComposer) (a : Draws * ComposerCommand) : WorkflowComposer :=
  (apply a.1 a.2 c).2.
Definition session (c : WorkflowComposer) (l : list (Draws * ComposerCommand)) : WorkflowComposer :=
  foldl act c l.

(** A session in which every action succeeds, and its events *)
Inductive accepted : WorkflowComposer -> list (Draws * ComposerCommand) -> list ComposerEvent ->
    WorkflowComposer -> Prop :=
| accepted_nil c : accepted c [] [] c
| accepted_cons c a l e es c1 c2 :
    apply a.1 a.2 c = (Ok e, c1) -> accepted c1 l es c2 -> accepted c (a :: l) (e :: es) c2.

Lemma apply_event d command c e c' :
  apply d command c = (Ok e, c') ->
  cw_events c' = cw_events c ++ [e] /\ ce_command e = command
  /\ forall digest, ce_executable_digest e = Some digest <->
       executable (cw_workflow c') /\ digest = stable_digest_unchecked (cw_workflow c').
Proof.
  intros (c1 & o & Hc & Ho & -> & ->)%composer_apply_ok. split_and!; [|done|by apply executable_digest_ok].
  apply change_ok in Hc. destruct command; destruct Hc as (w & Hc); try (destruct Hc as (x & _ & ->); done);
    destruct Hc as (_ & ->); done.
Qed.

Lemma session_accepted l : forall c, exists done es,
  done `sublist_of` l /\ accepted c done es (session c l)
  /\ cw_events (session c l) = cw_events c ++ es /\ map ce_command es = map snd done.
Proof.
  induction l as [|[d command] l IH]; intros c.
  - exists [], []. split_and!; [constructor | constructor | by rewrite app_nil_r | done].
  - change (session c ((d, command) :: l)) with (session (act c (d, command)) l).
    destruct (IH (act c (d, command))) as (k & es & Hk & Ha & He & Hm).
    unfold act in *. simpl in *. destruct (apply d command c) as [[e|e] c1] eqn:Hr.
    + simpl in *. apply apply_event in Hr as Hev. destruct Hev as (Hev & Hcmd & _).
      exists ((d, command) :: k), (e :: es). split_and!.
      * by constructor.
      * by eapply accepted_cons.
      * by rewrite He, Hev, <-app_assoc.
      * simpl. by rewrite Hm, Hcmd.
    + apply composer_apply_atomic in Hr as ->. simpl in *. exists k, es. split_and!; try done. by constructor.
Qed.

(** ** The history is a timeline *)

Record History := { versions : list GeoWorkflow; cursor : nat }.

(** Redone versions come back in the order in which they were undone. *)
Definition history (c : WorkflowComposer) : History :=
  {| versions := cw_undo c ++ cw_workflow c :: reverse (cw_redo c); cursor := length (cw_undo c) |}.

(** The timeline's own actions: undo and redo move the cursor within the
    versions; an edit of the current version forgets those after the cursor. *)
Definition timeline_step (d : Draws) (command : ComposerCommand) (h : History) : option History :=
  match command with
  | Undo => match cursor h with
            | O => None
            | S n => Some {| versions := versions h; cursor := n |} end
  | Redo => if decide (S (cursor h) < length (versions h))%nat
            then Some {| versions := versions h; cursor := S (cursor h) |} else None
  | edit => w ← versions h !! cursor h;
            match apply_edit d edit w with
            | (Ok _, w') => Some {| versions := take (S (cursor h)) (versions h) ++ [w']; cursor := S (cursor h) |}
            | _ => None end
  end.

Lemma current_version c : versions (history c) !! cursor (history c) = Some (cw_workflow c).
Proof. simpl. by rewrite lookup_app_r, Nat.sub_diag by lia. Qed.

Lemma edited_history c w :
  history (set_history w (cw_undo c ++ [cw_workflow c]) [] c) =
  {| versions := take (S (cursor (history c))) (versions (history c)) ++ [w]; cursor := S (cursor (history c)) |}.
Proof.
  unfold history. simpl. f_equal; [|rewrite length_app; simpl; lia].
  replace (S (length (cw_undo c))) with (length (cw_undo c ++ [cw_workflow c]))
    by (rewrite length_app; simpl; lia).
  replace (cw_undo c ++ cw_workflow c :: reverse (cw_redo c))
    with ((cw_undo c ++ [cw_workflow c]) ++ reverse (cw_redo c)) by (by rewrite <-app_assoc).
  by rewrite take_app_length.
Qed.

(** The outcome of an action as the timeline sees it *)
Definition seen {A} (r : result composer_fault A * WorkflowComposer) : option History :=
  match r with (Ok _, c) => Some (history c) | (Err _, _) => None end.

Lemma seen_apply d command c : seen (apply d command c) = seen (change sha256_file d command c).
Proof.
  destruct (change sha256_file d command c) as [[[]|e] c1] eqn:Hc.
  - destruct (executable_digest_done (cw_workflow c1)) as (o & Ho & _).
    assert (Ha : apply d command c = (Ok {| ce_id := event_uuid d; ce_command := command;
      ce_executable_digest := o |}, with_event {| ce_id := event_uuid d; ce_command := command;
      ce_executable_digest := o |} c1)) by (apply composer_apply_ok; by exists c1, o).
    by rewrite Ha.
  - unfold Composer.apply, mbind at 1, st_bind. by rewrite Hc.
Qed.

Lemma history_refines_change d command c :
  timeline_step d command (history c) = seen (change sha256_file d command c).
Proof.
  assert (Hedit : forall k,
    (w ← versions (history c) !! cursor (history c);
     match apply_edit d k w with
     | (Ok _, w') => Some {| versions := take (S (cursor (history c))) (versions (history c)) ++ [w'];
                             cursor := S (cursor (history c)) |}
     | _ => None end)
    = seen ((before ← get; on_workflow (apply_edit d k);;
        modify (fun c => set_history (cw_workflow c) (cw_undo c ++ [cw_workflow before]) [] c)) c)).
  { intros k. rewrite current_version. simpl. unfold mbind, st_bind, get, modify, on_workflow.
    destruct (apply_edit d k (cw_workflow c)) as [[[]|e] w]; [|done]. simpl. f_equal.
    symmetry. exact (edited_history c w). }
  destruct command; try exact (Hedit _); simpl; unfold mbind, st_bind, get, lift, modify, pop; simpl.
  - destruct (cw_undo c) as [|w us _] using rev_ind; [done|].
    rewrite last_snoc, removelast_last, length_app, Nat.add_comm. simpl. unfold history. simpl.
    by rewrite reverse_app, <-app_assoc.
  - destruct (cw_redo c) as [|w rs _] using rev_ind.
    + rewrite decide_False; [done|]. rewrite length_app. simpl. lia.
    + rewrite last_snoc, removelast_last, reverse_app. simpl. rewrite decide_True.
      * unfold history. simpl. by rewrite <-app_assoc, length_app, Nat.add_comm.
      * rewrite length_app. simpl. lia.
Qed.

Lemma history_refines_apply d command c : timeline_step d command (history c) = seen (apply d command c).
Proof. by rewrite seen_apply, history_refines_change. Qed.

Lemma timeline_apply d command c h :
  timeline_step d command (history c) = Some h -> exists e c', apply d command c = (Ok e, c') /\ history c' = h.
Proof.
  rewrite history_refines_apply. destruct (apply d command c) as [[e|e] c']; simpl; [|done].
  intros [= <-]. by exists e, c'.
Qed.

(** The first version stays. *)
Lemma timeline_first d command h h' w :
  versions h !! 0%nat = Some w -> timeline_step d command h = Some h' -> versions h' !! 0%nat = Some w.
Proof.
  intros Hw. assert (Hedit : forall k,
    (w ← versions h !! cursor h;
     match apply_edit d k w with
     | (Ok _, w') => Some {| versions := take (S (cursor h)) (versions h) ++ [w']; cursor := S (cursor h) |}
     | _ => None end) = Some h' -> versions h' !! 0%nat = Some w).
  { intros k. destruct (versions h !! cursor h) as [v|]; [|done]. simpl.
    destruct (apply_edit d k v) as [[u|e] w']; [|done]. intros [= <-]. cbn [versions].
    destruct (versions h) as [|x l]; [done|]. exact Hw. }
  destruct command; try exact (Hedit _); simpl.
  - destruct (cursor h); [done|]. by intros [= <-].
  - destruct (decide _); [|done]. by intros [= <-].
Qed.

Lemma act_history c a w :
  versions (history c) !! 0%nat = Some w -> versions (history (act c a)) !! 0%nat = Some w.
Proof.
  intros Hw. destruct a as [d command]. unfold act. simpl.
  pose proof (history_refines_apply d command c) as Hh.
  destruct (apply d command c) as [[e|e] c'] eqn:Hr; simpl in Hh |- *.
  - exact (timeline_first d command _ _ w Hw Hh).
  - by apply composer_apply_atomic in Hr as ->.
Qed.

Lemma session_first l : forall c w,
  versions (history c) !! 0%nat = Some w -> versions (history (session c l)) !! 0%nat = Some w.
Proof. induction l as [|a l IH]; intros c w Hw; [done|]. by apply IH, act_history. Qed.

Lemma history_inj c c' : history c = history c' ->
  cw_undo c = cw_undo c' /\ cw_workflow c = cw_workflow c' /\ cw_redo c = cw_redo c'.
Proof.
  unfold history. intros [= Hv Hn]. apply app_inj_1 in Hv as [Hu [= Hw Hr%(inj reverse)]]; done.
Qed.

(** As many undos as there are versions before the cursor, and redos as after it *)
Lemma undo_all ds : forall c, (length ds <= cursor (history c))%nat -> exists es c',
  accepted c (map (fun d => (d, Undo)) ds) es c'
  /\ history c' = {| versions := versions (history c); cursor := cursor (history c) - length ds |}.
Proof.
  induction ds as [|d ds IH]; intros c Hlen.
  - exists [], c. split; [constructor|]. simpl. by rewrite Nat.sub_0_r.
  - cbn [length] in Hlen. destruct (cursor (history c)) as [|n] eqn:Hn; [lia|].
    destruct (timeline_apply d Undo c {| versions := versions (history c); cursor := n |}) as (e & c1 & Hr & Hh).
    { unfold timeline_step. by rewrite Hn. }
    destruct (IH c1) as (es & c2 & Ha & H2'); [rewrite Hh; cbn [versions cursor]; lia|].
    exists (e :: es), c2. split; [by eapply accepted_cons|]. by rewrite H2', Hh.
Qed.

Lemma redo_all ds : forall c, (cursor (history c) + length ds < length (versions (history c)))%nat -> exists es c',
  accepted c (map (fun d => (d, Redo)) ds) es c'
  /\ history c' = {| versions := versions (history c); cursor := cursor (history c) + length ds |}.
Proof.
  induction ds as [|d ds IH]; intros c Hlen.
  - exists [], c. split; [constructor|]. simpl. by rewrite Nat.add_0_r.
  - cbn [length] in Hlen.
    destruct (timeline_apply d Redo c {| versions := versions (history c); cursor := S (cursor (history c)) |})
      as (e & c1 & Hr & Hh).
    { unfold timeline_step. rewrite decide_True; [done | lia]. }
    destruct (IH c1) as (es & c2 & Ha & H2'); [rewrite Hh; cbn [versions cursor]; lia|].
    exists (e :: es), c2. split; [by eapply accepted_cons|]. rewrite H2', Hh. cbn [versions cursor length]. f_equal. lia.
Qed.

(** ** What every draft keeps *)

(** Steps are named apart, and no edge or reference dangles: dependencies are
    other steps, a value read from a step comes with its dependency and from a
    port of that step, and so do the outputs of the graph. *)
Record draft_ok (w : GeoWorkflow) : Prop := {
  do_named : Forall (fun s => is_blank (stable_id s) = false) (steps w);
  do_distinct : NoDup (map stable_id (steps w));
  do_deps : forall s d, s ∈ steps w -> d ∈ depends_on s -> d <> stable_id s /\ d ∈ map stable_id (steps w);
  do_refs : forall s r d, s ∈ steps w -> r ∈ inputs s -> ref_node r = Some d ->
    d ∈ depends_on s /\ exists t, t ∈ steps w /\ stable_id t = d /\ exports t d (port r) = true;
  do_outs : forall r, r ∈ output_refs w ->
    exists d t, ref_node r = Some d /\ t ∈ steps w /\ stable_id t = d /\ exports t d (port r) = true }.

Lemma elem_of_filter_bool {A} (p : A -> bool) l x : x ∈ List.filter p l <-> x ∈ l /\ p x = true.
Proof. rewrite !list_elem_of_In. apply filter_In. Qed.

Lemma find_called id l s : find (called id) l = Some s -> s ∈ l /\ stable_id s = id.
Proof. intros [Hs Hp%bool_decide_eq_true]%find_some. split; [by apply list_elem_of_In | done]. Qed.

Lemma map_update_first {A} (g : WorkflowStep -> A) p f l :
  (forall s, g (f s) = g s) -> map g (update_first p f l) = map g l.
Proof. intros Hg. induction l as [|s l IH]; [done|]. simpl. destruct (p s); simpl; by rewrite ?Hg, ?IH. Qed.

Lemma update_first_id p f l (Q : WorkflowStep -> Prop) :
  Forall Q l -> (forall s, Q s -> Q (f s)) -> Forall Q (update_first p f l).
Proof. intros Hl Hf. induction Hl as [|s l Hs Hl IH]; simpl; [constructor|]. destruct (p s); constructor; auto. Qed.

Lemma elem_update_first p f l s :
  s ∈ update_first p f l -> s ∈ l \/ exists s0, s0 ∈ l /\ p s0 = true /\ s = f s0.
Proof.
  induction l as [|x l IH]; simpl; [by intros ?%not_elem_of_nil|].
  destruct (p x) eqn:Hp; rewrite !elem_of_cons.
  - intros [->|Hs]; [right; exists x; by rewrite elem_of_cons; auto | tauto].
  - intros [->|Hs]; [tauto|]. destruct (IH Hs) as [?|(s0 & ? & ? & ?)]; [tauto|].
    right. exists s0. rewrite elem_of_cons. tauto.
Qed.

Lemma update_first_elem p f l t : t ∈ l -> exists t', t' ∈ update_first p f l /\ (t' = t \/ t' = f t).
Proof.
  induction l as [|x l IH]; simpl; [by intros ?%not_elem_of_nil|].
  destruct (p x); rewrite elem_of_cons; intros [->|Ht].
  - exists (f x). rewrite elem_of_cons. tauto.
  - exists t. rewrite elem_of_cons. tauto.
  - exists x. rewrite elem_of_cons. tauto.
  - destruct (IH Ht) as (t' & ? & ?). exists t'. rewrite elem_of_cons. tauto.
Qed.

(** A step changed in place keeps its name and outputs; then only its own edges
    need a check. *)
Lemma update_draft p f w :
  (forall s, stable_id (f s) = stable_id s /\ outputs (f s) = outputs s) ->
  (forall s d, s ∈ steps w -> p s = true -> d ∈ depends_on (f s) ->
    d <> stable_id s /\ d ∈ map stable_id (steps w)) ->
  (forall s r d, s ∈ steps w -> p s = true -> r ∈ inputs (f s) -> ref_node r = Some d ->
    d ∈ depends_on (f s) /\ exists t, t ∈ steps w /\ stable_id t = d /\ exports t d (port r) = true) ->
  draft_ok w -> draft_ok (set_steps (update_first p f (steps w)) w).
Proof.
  intros Hf Hdeps Hrefs [].
  assert (Hids : map stable_id (update_first p f (steps w)) = map stable_id (steps w))
    by (apply map_update_first; intros s; apply Hf).
  assert (Hexp : forall t d q, t ∈ steps w -> stable_id t = d -> exports t d q = true ->
    exists t', t' ∈ update_first p f (steps w) /\ stable_id t' = d /\ exports t' d q = true).
  { intros t d q Ht Hd Hq. destruct (update_first_elem p f _ t Ht) as (t' & Ht' & He). exists t'.
    destruct (Hf t) as [Hi Ho]. destruct He as [->| ->]; [done|]. unfold exports in *. by rewrite Hi, Ho. }
  split; cbn [steps output_refs set_steps with_steps].
  - apply update_first_id; [done|]. intros s. by rewrite (proj1 (Hf s)).
  - by rewrite Hids.
  - intros s d Hs Hd. rewrite Hids. apply elem_update_first in Hs as [Hs|(s0 & Hs & Hp & ->)]; [by apply do_deps0|].
    rewrite (proj1 (Hf s0)). by apply Hdeps.
  - intros s r d Hs Hr Hn.
    assert (Hgoal : d ∈ depends_on s /\ exists t, t ∈ steps w /\ stable_id t = d /\ exports t d (port r) = true).
    { apply elem_update_first in Hs as [Hs|(s0 & Hs & Hp & ->)]; [by apply do_refs0 | by apply Hrefs]. }
    destruct Hgoal as (Hd & t & Ht & Hi & He). split; [done|]. by apply (Hexp t).
  - intros r Hr. destruct (do_outs0 r Hr) as (d & t & Hn & Ht & Hi & He).
    destruct (Hexp t d (port r) Ht Hi He) as (t' & ? & ? & ?). by exists d, t'.
Qed.

Lemma add_edge_deps source q s d :
  d ∈ depends_on (add_edge_from source q s) <-> d ∈ depends_on s \/ d = source.
Proof.
  unfold add_edge_from. cbv zeta. case_bool_decide as Hs; case_bool_decide; cbn [with_inputs with_dependencies
    with_graph depends_on]; rewrite ?elem_of_app, ?list_elem_of_singleton; naive_solver.
Qed.

Lemma add_edge_inputs source q s r :
  r ∈ inputs (add_edge_from source q s) <-> r ∈ inputs s \/ r = ref_output source q.
Proof.
  unfold add_edge_from. cbv zeta. case_bool_decide; case_bool_decide as Hs; cbn [with_inputs with_dependencies
    with_graph inputs] in *; rewrite ?elem_of_app, ?list_elem_of_singleton; naive_solver.
Qed.

Lemma add_edge_same source q s :
  stable_id (add_edge_from source q s) = stable_id s /\ outputs (add_edge_from source q s) = outputs s.
Proof. unfold add_edge_from. cbv zeta. case_bool_decide; case_bool_decide; done. Qed.

Lemma elem_drop_deps id d l : d ∈ drop_deps id l <-> d ∈ l /\ d <> id.
Proof. unfold drop_deps. by rewrite elem_of_filter_bool, negb_true_iff, bool_decide_eq_false. Qed.
Lemma elem_drop_refs id r l : r ∈ drop_refs id l <-> r ∈ l /\ ref_node r <> Some id.
Proof. unfold drop_refs. by rewrite elem_of_filter_bool, negb_true_iff, bool_decide_eq_false. Qed.

Lemma elem_others id l s : s ∈ List.filter (fun s => negb (called id s)) l <-> s ∈ l /\ stable_id s <> id.
Proof. unfold called. by rewrite elem_of_filter_bool, negb_true_iff, bool_decide_eq_false. Qed.

Lemma connect_draft source q target w t :
  source <> target -> t ∈ steps w -> stable_id t = source -> exports t source q = true ->
  draft_ok w -> draft_ok (set_steps (update_first (called target) (add_edge_from source q) (steps w)) w).
Proof.
  intros Hne Ht Hi He Hok. apply update_draft; [apply add_edge_same | | |done].
  - intros s d Hs Hc%bool_decide_eq_true [Hd| ->]%add_edge_deps; [by apply (do_deps _ Hok)|].
    split; [by rewrite Hc|]. rewrite <-Hi. apply list_elem_of_fmap. by exists t.
  - intros s r d Hs Hc [Hr| ->]%add_edge_inputs Hn.
    + destruct (do_refs _ Hok s r d Hs Hr Hn) as [? ?]. split; [|done]. apply add_edge_deps. by left.
    + injection Hn as <-. split; [apply add_edge_deps; by right|]. by exists t.
Qed.

Lemma disconnect_draft source target w :
  draft_ok w -> draft_ok (set_steps (update_first (called target) (drop_edges source) (steps w)) w).
Proof.
  intros Hok. apply update_draft; [done | | |done].
  - intros s d Hs _ [Hd _]%elem_drop_deps. by apply (do_deps _ Hok).
  - intros s r d Hs _ [Hr Hne]%elem_drop_refs Hn.
    destruct (do_refs _ Hok s r d Hs Hr Hn) as [Hd Ht]. split; [|exact Ht].
    apply elem_drop_deps. split; [done|]. congruence.
Qed.

Lemma parameters_draft v id w :
  draft_ok w -> draft_ok (set_steps (update_first (called id) (set_parameters v) (steps w)) w).
Proof.
  intros Hok. apply update_draft; [done | | |done].
  - intros s d Hs _ Hd. by apply (do_deps _ Hok).
  - intros s r d Hs _ Hr Hn. by apply (do_refs _ Hok s r d).
Qed.

Lemma remove_draft id w :
  draft_ok w ->
  draft_ok (set_output_refs (drop_refs id (output_refs w))
    (set_steps (map (drop_edges id) (List.filter (fun s => negb (called id s)) (steps w))) w)).
Proof.
  intros []. set (others := List.filter (fun s => negb (called id s)) (steps w)).
  assert (Hids : map stable_id (map (drop_edges id) others) = map stable_id others) by by rewrite map_map.
  assert (Hin : forall x, x ∈ map stable_id others <-> x ∈ map stable_id (steps w) /\ x <> id).
  { intros x. rewrite !list_elem_of_fmap. unfold others. setoid_rewrite elem_others. naive_solver. }
  assert (Hexp : forall t d q, t ∈ steps w -> stable_id t = d -> d <> id -> exports t d q = true ->
    exists t', t' ∈ map (drop_edges id) others /\ stable_id t' = d /\ exports t' d q = true).
  { intros t d q Ht Hd Hne Hq. exists (drop_edges id t). split; [|done].
    apply list_elem_of_fmap. exists t. split; [done|]. apply elem_others. by rewrite Hd. }
  split; cbn [steps output_refs set_steps set_output_refs with_steps].
  - apply Forall_map, Forall_forall. intros s [Hs _]%elem_others. rewrite Forall_forall in do_named0.
    exact (do_named0 s Hs).
  - rewrite Hids. unfold others. clear -do_distinct0. induction (steps w) as [|s l IH]; [constructor|].
    cbn [map List.filter] in *. apply NoDup_cons in do_distinct0 as [Hn Hd].
    destruct (negb (called id s)); [|by apply IH]. cbn [map]. apply NoDup_cons. split; [|by apply IH].
    intros (t & Hi & [Ht _]%elem_others)%list_elem_of_fmap. apply Hn. rewrite Hi. apply list_elem_of_fmap. by exists t.
  - intros s d (s0 & -> & [Hs0 _]%elem_others)%list_elem_of_fmap [Hd Hne]%elem_drop_deps.
    destruct (do_deps0 s0 d Hs0 Hd). rewrite Hids, Hin. done.
  - intros s r d (s0 & -> & [Hs0 _]%elem_others)%list_elem_of_fmap [Hr Hne]%elem_drop_refs Hn.
    destruct (do_refs0 s0 r d Hs0 Hr Hn) as (Hd & t & Ht & Hi & He).
    assert (d <> id) by congruence. split; [by apply elem_drop_deps | by apply (Hexp t)].
  - intros r [Hr Hne]%elem_drop_refs. destruct (do_outs0 r Hr) as (d & t & Hn & Ht & Hi & He).
    destruct (Hexp t d (port r) Ht Hi) as (t' & ? & ? & ?); [congruence|done|]. by exists d, t'.
Qed.

Lemma add_draft s w :
  is_blank (stable_id s) = false -> stable_id s ∉ map stable_id (steps w) -> depends_on s = [] ->
  Forall (fun r => ref_node r = None) (inputs s) -> draft_ok w -> draft_ok (push_step s w).
Proof.
  intros Hb Hn Hd Hi []. split; cbn [steps output_refs push_step with_steps].
  - apply Forall_app. split; [done|]. by constructor.
  - rewrite map_app. apply NoDup_app. split_and!; [done| |apply NoDup_singleton].
    intros x Hx Hs. simpl in Hs. apply list_elem_of_singleton in Hs as ->. done.
  - intros t d [Ht| ->%list_elem_of_singleton]%elem_of_app Hdt; [|rewrite Hd in Hdt; by apply not_elem_of_nil in Hdt].
    destruct (do_deps0 t d Ht Hdt). split; [done|]. rewrite map_app. apply elem_of_app. by left.
  - intros t r d [Ht| ->%list_elem_of_singleton]%elem_of_app Hr Hrn.
    + destruct (do_refs0 t r d Ht Hr Hrn) as (Hdt & u & Hu & ? & ?). split; [done|].
      exists u. rewrite elem_of_app. auto.
    + rewrite Forall_forall in Hi. apply Hi in Hr. congruence.
  - intros r Hr. destruct (do_outs0 r Hr) as (d & t & ? & Ht & ? & ?). exists d, t. rewrite elem_of_app. auto.
Qed.

Lemma valid_node_id id u : validate_node_id id = Ok u -> is_blank id = false.
Proof.
  intros [He Hc%negb_false_iff]%err_if_ok%orb_false_iff.
  apply bool_decide_eq_false in He. destruct id as [|a s]; [done|]. apply (is_blank_graphic sha256_hex).
  apply andb_true_iff in Hc as [Ha _]. unfold is_ascii_lowercase, is_ascii_digit, is_graphic in *.
  case_bool_decide as Hd; [by subst|]. lia.
Qed.

Lemma edit_draft d command w w' :
  apply_edit d command w = (Ok tt, w') -> draft_ok w -> draft_ok w'.
Proof.
  intros Hr Hok. destruct command; unfold Composer.apply_edit in Hr.
  - apply st_bind_ok in Hr as (u & w1 & [_ ->]%lift_ok & [= <-]). by destruct Hok.
  - apply st_bind_ok in Hr as (u & w1 & [Hv ->]%lift_ok & Hr).
    apply st_bind_ok in Hr as (w2 & w3 & [-> ->]%get_ok & Hr).
    apply st_bind_ok in Hr as (u2 & w4 & [Hn%err_if_ok ->]%lift_ok & Hr).
    apply st_bind_ok in Hr as (t & w5 & [_ ->]%lift_ok & Hr).
    apply st_bind_ok in Hr as (node & w6 & [_ ->]%lift_ok & [= <-]).
    apply add_draft; try done.
    + by apply valid_node_id in Hv.
    + intros (t1 & He & Ht)%list_elem_of_fmap. apply not_true_iff_false in Hn. apply Hn, existsb_exists.
      exists t1. split; [by apply list_elem_of_In | by apply bool_decide_eq_true].
    + apply Forall_forall. intros r [_ Hr%bool_decide_eq_true]%elem_of_filter_bool. done.
  - apply st_bind_ok in Hr as (w0 & w1 & [-> ->]%get_ok & Hr).
    apply st_bind_ok in Hr as (u & w2 & [= <-] & Hr). apply st_bind_ok in Hr as (w3 & w4 & [-> ->]%get_ok & Hr).
    apply st_bind_ok in Hr as (u2 & w5 & [_ ->]%lift_ok & Hr).
    apply st_bind_ok in Hr as (u3 & w6 & [= <-] & [= <-]). subst w2 w6.
    exact (remove_draft node_id w Hok).
  - apply st_bind_ok in Hr as (u & w1 & [Hne%err_decide_ok ->]%lift_ok & Hr).
    apply st_bind_ok in Hr as (t & w2 & Ht & Hr).
    apply st_bind_ok in Ht as (w3 & w4 & [-> ->]%get_ok & [Ht%ok_or_ok ->]%lift_ok).
    apply st_bind_ok in Hr as (u2 & w5 & [He%err_unless_ok ->]%lift_ok & Hr).
    apply st_bind_ok in Hr as (t2 & w6 & Ht2 & [= <-]).
    apply st_bind_ok in Ht2 as (w7 & w8 & [-> ->]%get_ok & [_ ->]%lift_ok).
    apply find_called in Ht as [Ht Hi]. by apply connect_draft with (t := t).
  - apply st_bind_ok in Hr as (t & w2 & Ht & [= <-]).
    apply st_bind_ok in Ht as (w3 & w4 & [-> ->]%get_ok & [_ ->]%lift_ok). by apply disconnect_draft.
  - apply st_bind_ok in Hr as (u & w1 & [_ ->]%lift_ok & Hr).
    apply st_bind_ok in Hr as (t & w2 & Ht & [= <-]).
    apply st_bind_ok in Ht as (w3 & w4 & [-> ->]%get_ok & [_ ->]%lift_ok). by apply parameters_draft.
  - done.
  - done.
Qed.

(** All versions of a session are drafts of this kind. *)
Definition all_drafts (c : WorkflowComposer) : Prop := Forall draft_ok (versions (history c)).

Lemma timeline_drafts d command h h' :
  Forall draft_ok (versions h) -> timeline_step d command h = Some h' -> Forall draft_ok (versions h').
Proof.
  intros Hall. assert (Hedit : forall k,
    (w ← versions h !! cursor h;
     match apply_edit d k w with
     | (Ok _, w') => Some {| versions := take (S (cursor h)) (versions h) ++ [w']; cursor := S (cursor h) |}
     | _ => None end) = Some h' -> Forall draft_ok (versions h')).
  { intros k. destruct (versions h !! cursor h) as [v|] eqn:Hv; [|done]. simpl.
    destruct (apply_edit d k v) as [[[]|e] w'] eqn:Hr; [|done]. intros [= <-]. cbn [versions].
    apply Forall_app. split; [by apply Forall_take|]. constructor; [|constructor].
    apply (edit_draft d k v w' Hr). by eapply Forall_lookup_1. }
  destruct command; try exact (Hedit _); simpl.
  - destruct (cursor h); [done|]. by intros [= <-].
  - destruct (decide _); [|done]. by intros [= <-].
Qed.

Lemma session_drafts l : forall c, all_drafts c -> all_drafts (session c l).
Proof.
  induction l as [|[d command] l IH]; intros c Hc; [done|]. apply IH. unfold act. simpl.
  pose proof (history_refines_apply d command c) as Hh.
  destruct (apply d command c) as [[e|e] c'] eqn:Hr; simpl in Hh |- *.
  - exact (timeline_drafts d command _ _ Hc Hh).
  - by apply composer_apply_atomic in Hr as ->.
Qed.

Lemma current_draft c : all_drafts c -> draft_ok (cw_workflow c).
Proof. intros Hall. eapply Forall_lookup_1; [exact Hall | apply current_version]. Qed.

(** ** What is left to check before a draft runs *)

Lemma named_id s : is_blank (stable_id s) = false -> node_id sha256_hex s = stable_id s.
Proof. intros Hb. unfold node_id. by rewrite Hb. Qed.

Lemma named_ids w :
  Forall (fun s => is_blank (stable_id s) = false) (steps w) -> ids_of sha256_hex w = map stable_id (steps w).
Proof. unfold ids_of. induction 1 as [|s l Hs _ IH]; [done|]. simpl. by rewrite named_id, IH. Qed.

Lemma named_not_legacy w :
  steps w <> [] -> Forall (fun s => is_blank (stable_id s) = false) (steps w) -> is_legacy_linear w = false.
Proof. unfold is_legacy_linear. intros Hne Hall. destruct Hall as [|s l Hs _]; [done|]. simpl. by rewrite Hs. Qed.

Definition graph_inputs_declared (w : GeoWorkflow) : Prop :=
  forall s r, s ∈ steps w -> r ∈ inputs s -> is_blank (port r) = false
    /\ (ref_node r = None -> port r ∈ map ic_name (input_contracts w)).

Record ready (w : GeoWorkflow) : Prop := {
  rd_steps : steps w <> [];
  rd_contracts : input_contracts_wf w;
  rd_acyclic : acyclic sha256_hex w;
  rd_connected : weakly_connected sha256_hex w;
  rd_inputs : graph_inputs_declared w;
  rd_outputs : Forall (fun s => outputs_wf (stable_id s) s /\ output_contracts_wf false (stable_id s) s) (steps w) }.

Lemma named_steps w i node step :
  Forall (fun s => is_blank (stable_id s) = false) (steps w) -> steps w !! i = Some step ->
  ids_of sha256_hex w !! i = Some node <-> node = stable_id step.
Proof.
  intros Hall Hs. rewrite named_ids by done.
  assert (Hl : map stable_id (steps w) !! i = Some (stable_id step)) by (apply list_lookup_fmap_Some; by exists step).
  rewrite Hl. naive_solver.
Qed.

Lemma elem_deps w i step : is_legacy_linear w = false -> steps w !! i = Some step ->
  effective_deps sha256_hex w i = depends_on step /\ effective_inputs sha256_hex w i = inputs step.
Proof. intros Hl Hs. unfold effective_deps, effective_inputs. by rewrite Hl, Hs. Qed.

(** The step called [d] *)
Lemma named_lookup w d t :
  Forall (fun s => is_blank (stable_id s) = false) (steps w) ->
  t ∈ steps w -> stable_id t = d -> exists j, ids_of sha256_hex w !! j = Some d /\ steps w !! j = Some t.
Proof.
  intros Hall [j Hj]%list_elem_of_lookup Hd. exists j. split; [|done].
  by apply (named_steps w j d t Hall Hj).
Qed.

Lemma draft_ready w : draft_ok w -> executable w <-> ready w.
Proof.
  intros Hok. pose proof (do_named _ Hok) as Hnamed. split.
  - intros Hex. pose proof (named_not_legacy w (ex_steps _ _ Hex) Hnamed) as Hl. split; try by destruct Hex.
    + intros s r [i Hs]%list_elem_of_lookup Hr. destruct (elem_deps w i s Hl Hs) as [_ Hin].
      destruct (ex_inputs _ _ Hex i r) as [Hb Hp]; [by eapply lookup_lt_Some | by rewrite Hin|].
      split; [done|]. intros Hn. rewrite Hn in Hp. destruct Hp as (c & Hc & <-).
      apply list_elem_of_fmap. by exists c.
    + apply Forall_lookup. intros i s Hs. assert (Hi : ids_of sha256_hex w !! i = Some (stable_id s))
        by by apply (named_steps w i _ s Hnamed Hs).
      split; [by apply (ex_outputs _ _ Hex Hl i)|]. rewrite <-Hl. by apply (ex_output_contracts _ _ Hex i).
  - intros Hrd. pose proof (named_not_legacy w (rd_steps _ Hrd) Hnamed) as Hl.
    pose proof (rd_outputs _ Hrd) as Hout. rewrite Forall_lookup in Hout. split; try by destruct Hrd.
    + rewrite named_ids by done. apply (do_distinct _ Hok).
    + intros d c (i & Hi & Hd). destruct (steps w !! i) as [s|] eqn:Hs.
      * rewrite named_ids by done. destruct (elem_deps w i s Hl Hs) as [He _]. rewrite He in Hd.
        apply (do_deps _ Hok s d); [by eapply list_elem_of_lookup_2 | done].
      * apply lookup_ge_None in Hs. apply lookup_lt_Some in Hi. rewrite length_ids_of in Hi. lia.
    + intros i r Hi Hr. apply lookup_lt_is_Some_2 in Hi as [s Hs].
      destruct (elem_deps w i s Hl Hs) as [Hd He]. rewrite He in Hr.
      assert (Hin : s ∈ steps w) by by eapply list_elem_of_lookup_2.
      destruct (rd_inputs _ Hrd s r Hin Hr) as [Hb Hp]. split; [done|].
      destruct (ref_node r) as [d|] eqn:Hn.
      * destruct (do_refs _ Hok s r d Hin Hr Hn) as (Hdd & t & Ht & Hti & Hte). rewrite Hd. split; [done|].
        right. destruct (named_lookup w d t Hnamed Ht Hti) as (j & Hj & Hjs). exists j, t.
        split_and!; [done|done|]. by apply exports_true.
      * destruct (list_elem_of_fmap_1 _ _ _ (Hp eq_refl)) as (c & Hc & Hcin). by exists c.
    + intros _ i node s Hi Hs. apply (named_steps w i node s Hnamed Hs) in Hi as ->. by apply (Hout i s).
    + apply Forall_forall. intros r Hr. destruct (do_outs _ Hok r Hr) as (d & t & Hn & Ht & Hti & Hte).
      destruct (named_lookup w d t Hnamed Ht Hti) as (j & Hj & Hjs).
      exists d, j, t. split_and!; [done..|]. right. by apply exports_true.
    + rewrite Hl. intros i node s Hi Hs. apply (named_steps w i node s Hnamed Hs) in Hi as ->. by apply (Hout i s).
Qed.

Lemma executable_draft w :
  Forall (fun s => is_blank (stable_id s) = false) (steps w) -> executable w -> draft_ok w.
Proof.
  intros Hnamed Hex. pose proof (named_not_legacy w (ex_steps _ _ Hex) Hnamed) as Hl. split.
  - done.
  - rewrite <-named_ids by done. apply (ex_ids _ _ Hex).
  - intros s d [i Hs]%list_elem_of_lookup Hd. destruct (elem_deps w i s Hl Hs) as [He _].
    assert (Hi : ids_of sha256_hex w !! i = Some (stable_id s)) by by apply (named_steps w i _ s Hnamed Hs).
    assert (Hdep : depends sha256_hex w d (stable_id s)) by (exists i; by rewrite He).
    split; [|rewrite <-named_ids by done; by apply (ex_deps _ _ Hex d (stable_id s))].
    intros ->. apply (ex_acyclic _ _ Hex (stable_id s)). by apply tc_once.
  - intros s r d [i Hs]%list_elem_of_lookup Hr Hn. destruct (elem_deps w i s Hl Hs) as [He Hin].
    destruct (ex_inputs _ _ Hex i r) as [_ Hp]; [by eapply lookup_lt_Some | by rewrite Hin|].
    rewrite Hn, He in Hp. destruct Hp as [Hd [?|(j & t & Hj & Ht & Ho)]]; [congruence|].
    split; [done|]. exists t. split_and!; [by eapply list_elem_of_lookup_2 | | by apply exports_true].
    symmetry. by apply (named_steps w j d t Hnamed Ht).
  - intros r Hr. pose proof (ex_refs _ _ Hex) as Hrefs. rewrite Forall_forall in Hrefs.
    destruct (Hrefs r Hr) as (d & j & t & Hn & Hj & Ht & [?|Ho]); [congruence|].
    exists d, t. split_and!; [done | by eapply list_elem_of_lookup_2 | | by apply exports_true].
    symmetry. by apply (named_steps w j d t Hnamed Ht).
Qed.

(** ** Drafts of the templates *)

(** The steps of a template are named, and each exports its own result. *)
Definition plain_steps (w : GeoWorkflow) : Prop :=
  Forall (fun s => is_blank (stable_id s) = false /\ outputs s = [ref_output (stable_id s) "result"]) (steps w).

Lemma template_workflow_ok uuid id w :
  template_workflow sha256_file uuid id = Ok w -> template uuid sha256_file w /\ plain_steps w.
Proof.
  unfold template_workflow. intros Hw.
  repeat match type of Hw with
  | (if ?b then _ else _) = _ => destruct b;
      [injection Hw as <-; split; [constructor; try exact eq_refl | repeat (apply Forall_cons; split; [done|]);
        apply Forall_nil; exact I]|]
  end; done.
Qed.

Lemma template_workflow_listed uuid id :
  (exists w, template_workflow sha256_file uuid id = Ok w) <-> id ∈ template_ids.
Proof.
  unfold template_workflow, template_ids. rewrite !elem_of_cons. split.
  - intros [w Hw]. repeat (case_bool_decide; [tauto|]). done.
  - intros Hid. repeat (case_bool_decide; [by eexists|]).
    repeat (destruct Hid as [Hid|Hid]; [done|]). by apply not_elem_of_nil in Hid.
Qed.

Lemma set_status_executable st w : executable w -> executable (set_status st w).
Proof. destruct 1. by split. Qed.

Lemma from_template_ok uuid id c :
  from_template sha256_file uuid id = Ok c <->
  exists w, template_workflow sha256_file uuid id = Ok w
    /\ c = {| cw_workflow := set_status Draft w; cw_events := []; cw_undo := []; cw_redo := [] |}.
Proof.
  unfold from_template. split.
  - intros (w & Hw & Hc)%bind_ok. apply map_err_ok in Hw. exists w. split; [done|].
    unfold from_reviewed_workflow in Hc. apply bind_ok in Hc as (u & _ & Hc).
    apply bind_ok in Hc as (g & _ & [= <-]). done.
  - intros (w & Hw & ->). unfold as_fault. rewrite Hw. cbn [map_err mbind result_bind].
    apply template_workflow_ok in Hw as [Ht%template_executable%validated_executable _].
    unfold from_reviewed_workflow, stable_digest. by rewrite Ht.
Qed.

Lemma from_template_draft uuid id c :
  from_template sha256_file uuid id = Ok c ->
  draft_ok (cw_workflow c) /\ executable (cw_workflow c) /\ cw_undo c = [] /\ cw_redo c = [] /\ cw_events c = [].
Proof.
  intros (w & Hw & ->)%from_template_ok. apply template_workflow_ok in Hw as [Ht Hp].
  assert (Hex : executable (set_status Draft w)) by by apply set_status_executable, (template_executable uuid sha256_file).
  split_and!; try done. apply executable_draft; [|done]. eapply Forall_impl; [exact Hp|]. by intros s [? _].
Qed.

Lemma reviewed_templates_done uuid ids :
  Forall (fun id => id ∈ template_ids) ids -> exists l, reviewed_templates sha256_file uuid ids = Done l
  /\ map rt_id l = ids /\ Forall (fun t => rt_categories t = template_categories (rt_id t)
       /\ exists w, template_workflow sha256_file uuid (rt_id t) = Ok w
          /\ rt_workflow_digest t = stable_digest_unchecked w /\ rt_node_count t = length (steps w)) l.
Proof.
  induction 1 as [|id ids Hid _ (l & Hl & Hm & Hall)]; [exists []; split_and!; [done | done | constructor]|].
  apply (template_workflow_listed uuid) in Hid as [w Hw]. cbn [reviewed_templates].
  unfold reviewed_template at 1. rewrite Hw. pose proof Hw as Hw'.
  apply template_workflow_ok in Hw as [Ht%template_executable%validated_executable _].
  unfold stable_digest. rewrite Ht. cbn [mbind outcome_bind]. rewrite Hl. cbn [mbind outcome_bind].
  eexists. split; [done|]. split; [simpl; by rewrite Hm|]. constructor; [|done]. cbn. split; [done|]. by exists w.
Qed.

(** A palette step keeps the output references of the step it is copied from. *)
Lemma palette_step d t source new w w' :
  apply_edit d (AddReviewedNode t source new) w = (Ok tt, w') ->
  is_blank new = false /\ existsb (called new) (steps w) = false /\ exists node,
    w' = push_step (palette_node (node_uuid d) new node) w /\ outputs node = [ref_output source "result"].
Proof.
  intros Hr. unfold Composer.apply_edit in Hr.
  apply st_bind_ok in Hr as (u & w1 & [Hv%valid_node_id ->]%lift_ok & Hr).
  apply st_bind_ok in Hr as (w2 & w3 & [-> ->]%get_ok & Hr).
  apply st_bind_ok in Hr as (u2 & w4 & [Hn%err_if_ok ->]%lift_ok & Hr).
  apply st_bind_ok in Hr as (tw & w5 & [Ht%map_err_ok ->]%lift_ok & Hr).
  apply st_bind_ok in Hr as (node & w6 & [Hf%ok_or_ok ->]%lift_ok & [= <-]).
  split_and!; [done|done|]. exists node. split; [done|].
  apply find_called in Hf as [Hin Hid]. apply template_workflow_ok in Ht as [_ Hp].
  unfold plain_steps in Hp. rewrite Forall_forall in Hp. by destruct (Hp node Hin) as [_ ->]; rewrite Hid.
Qed.

Lemma find_none_app p l (s : WorkflowStep) : existsb p l = false -> p s = true -> find p (l ++ [s]) = Some s.
Proof.
  induction l as [|x l IH]; simpl; [by intros _ ->|]. intros [Hx Hl]%orb_false_iff Hs. rewrite Hx. by apply IH.
Qed.

Lemma renamed_step_blocks d t source new w w' :
  apply_edit d (AddReviewedNode t source new) w = (Ok tt, w') -> source <> new -> ~ executable w'.
Proof.
  intros (Hb & Hn & node & -> & Ho)%palette_step Hne Hex.
  set (s := palette_node (node_uuid d) new node) in Hex.
  assert (Hl : is_legacy_linear (push_step s w) = false).
  { apply not_legacy. simpl. rewrite existsb_app. simpl. rewrite Hb. by rewrite orb_true_r. }
  assert (Hs : steps (push_step s w) !! length (steps w) = Some s).
  { simpl. by rewrite lookup_app_r, Nat.sub_diag by lia. }
  assert (Hi : ids_of sha256_hex (push_step s w) !! length (steps w) = Some new).
  { unfold ids_of. change (map ?f ?l) with (f <$> l). rewrite list_lookup_fmap, Hs. simpl.
    f_equal. by apply named_id. }
  destruct (ex_outputs _ _ Hex Hl _ _ _ Hi Hs) as [_ Hall]. cbn [s palette_node outputs] in Hall.
  rewrite Ho in Hall. apply Forall_cons in Hall as [[[= He] _] _]. done.
Qed.

Lemma renamed_step_unconnectable d d' t source new w w' q target :
  apply_edit d (AddReviewedNode t source new) w = (Ok tt, w') -> source <> new -> new <> target ->
  apply_edit d' (Connect new q target) w' = (Err (Error (NotFound (new +:+ "." +:+ q))), w').
Proof.
  intros (Hb & Hn & node & -> & Ho)%palette_step Hne Ht. unfold Composer.apply_edit.
  rewrite (bool_decide_false (new = target) Ht). unfold find_step, mbind, st_bind, lift, get. simpl.
  rewrite find_none_app; [|done|by apply bool_decide_eq_true]. simpl. unfold exports. simpl. rewrite Ho. simpl.
  rewrite bool_decide_false by congruence. done.
Qed.
End Theory.

(** ** Properties *)

(** C17: the undo and redo stacks implement a timeline: an action succeeds exactly
    when the timeline allows it, undo and redo only move the cursor among the
    versions, an edit forgets the versions after the cursor, and the draft is
    the version under the cursor. An action that fails changes nothing at all. *)
Theorem composer_refines_timeline `{F64Display} `{JsonText} `{SvgHost} `{GeoContractJson} f d command c :
  timeline_step f d command (history c) = seen (apply f d command c)
  /\ versions (history c) !! cursor (history c) = Some (cw_workflow c)
  /\ (forall e c', apply f d command c = (Err e, c') -> c' = c).
Proof.
  split_and!; [apply history_refines_apply | apply current_version | apply composer_apply_atomic].
Qed.

(** C32: whatever is done to the draft of a template, the undo button leads back
    to the reviewed graph: undoing as often as the undo stack is deep succeeds
    and reaches a graph that validation accepts, and redoing as often returns to
    the draft, its stacks included. *)
Theorem undo_recovers_template `{F64Display} `{JsonText} `{SvgHost} `{GeoContractJson} f uuid id c0 l ds :
  from_template f uuid id = Ok c0 ->
  let c := session f c0 l in
  length ds = length (cw_undo c) ->
  exists es c1, accepted f c (map (fun d => (d, Undo)) ds) es c1
    /\ cw_workflow c1 = cw_workflow c0 /\ executable sha256_hex (cw_workflow c1)
    /\ exists es' c2, accepted f c1 (map (fun d => (d, Redo)) ds) es' c2
       /\ cw_undo c2 = cw_undo c /\ cw_workflow c2 = cw_workflow c /\ cw_redo c2 = cw_redo c.
Proof.
  intros (_ & Hex & Hu & Hr & _)%from_template_draft c Hlen.
  assert (Hfirst : versions (history c) !! 0%nat = Some (cw_workflow c0)).
  { apply session_first. unfold history. by rewrite Hu. }
  destruct (undo_all f ds c) as (es & c1 & Ha & Hh); [simpl; lia|].
  assert (Hw : cw_workflow c1 = cw_workflow c0).
  { pose proof (current_version c1) as Hc. rewrite Hh in Hc. cbn [versions cursor] in Hc.
    simpl cursor in Hc. rewrite Hlen, Nat.sub_diag in Hc. congruence. }
  exists es, c1. split_and!; [done|done|by rewrite Hw|].
  destruct (redo_all f ds c1) as (es' & c2 & Ha' & Hh').
  { rewrite Hh. cbn [versions cursor]. unfold history. cbn [versions cursor]. rewrite length_app. simpl. lia. }
  exists es', c2. split; [done|]. apply history_inj. rewrite Hh', Hh. cbn [versions cursor].
  unfold history. cbn [versions cursor]. f_equal. lia.
Qed.

(** C12: however a draft of a template is edited, undone and redone, its steps keep
    distinct names and no dependency, input or output reference ever dangles; so
    the draft runs exactly when it has steps, contracts, no cycle, one component,
    declared graph inputs and outputs of its own. *)
Theorem drafts_never_dangle `{F64Display} `{JsonText} `{SvgHost} `{GeoContractJson} f uuid id c0 l :
  from_template f uuid id = Ok c0 ->
  let w := cw_workflow (session f c0 l) in
  draft_ok w /\ (validate sha256_hex w = Done tt <-> ready w).
Proof.
  intros (Hd & _ & Hu & Hr & _)%from_template_draft w.
  assert (Hok : draft_ok w).
  { apply (current_draft (session f c0 l)), session_drafts. unfold all_drafts, history. rewrite Hu, Hr. simpl.
    by constructor. }
  split; [done|]. rewrite validated_executable. by apply draft_ready.
Qed.

(** The event log is the session: it holds one event per successful action, in
    order; each event carries the digest of the draft exactly when that draft
    was executable; and running only the logged actions gives the same draft,
    history and log. *)
Theorem event_log_replays `{F64Display} `{JsonText} `{SvgHost} `{GeoContractJson} f c l :
  (exists done es, done `sublist_of` l /\ accepted f c done es (session f c l)
    /\ cw_events (session f c l) = cw_events c ++ es /\ map ce_command es = map snd done)
  /\ forall d command e c', apply f d command c = (Ok e, c') ->
     forall digest, ce_executable_digest e = Some digest <->
       validate sha256_hex (cw_workflow c') = Done tt /\ digest = stable_digest_unchecked (cw_workflow c').
Proof.
  split; [apply session_accepted|]. intros d command e c' (_ & _ & He)%apply_event digest.
  by rewrite He, validated_executable.
Qed.

(** A palette step added under a name of its own can never run: it keeps the
    output references of the template's step, so the draft does not validate,
    and no edge can be drawn from it. *)
Theorem renamed_palette_step_never_runs `{F64Display} `{JsonText} `{SvgHost} `{GeoContractJson}
    f d t source new w w' :
  apply_edit f d (AddReviewedNode t source new) w = (Ok tt, w') -> source <> new ->
  validate sha256_hex w' <> Done tt
  /\ forall d' q target, new <> target ->
     apply_edit f d' (Connect new q target) w' = (Err (Error (NotFound (new +:+ "." +:+ q))), w').
Proof.
  intros Hr Hne. split.
  - rewrite validated_executable. by apply (renamed_step_blocks f d t source new w).
  - intros d' q target. by apply (renamed_step_unconnectable f d d' t source new w).
Qed.

(** The palette is complete and runs: listing it never panics and gives every
    template of the catalogue with the digest of its graph, every one of them
    opens as a draft, and every analytical family has a template. *)
Theorem palette_runs `{F64Display} `{JsonText} `{SvgHost} `{GeoContractJson} f uuid :
  exists l, reviewed_workflow_templates f uuid = Done l /\ map rt_id l = template_ids
    /\ (forall t, t ∈ l -> exists w, template_workflow f uuid (rt_id t) = Ok w
          /\ validate sha256_hex w = Done tt /\ rt_workflow_digest t = stable_digest_unchecked w)
    /\ (forall id, (exists c, from_template f uuid id = Ok c) <-> id ∈ template_ids)
    /\ forall category, exists t, t ∈ l /\ category ∈ rt_categories t.
Proof.
  destruct (reviewed_templates_done f uuid template_ids) as (l & Hl & Hm & Hall).
  { by apply Forall_forall. }
  rewrite Forall_forall in Hall. exists l. split_and!; [done|done| | |].
  - intros t Ht. destruct (Hall t Ht) as (_ & w & Hw & Hd & _). exists w. split_and!; [done| |done].
    apply validated_executable. apply template_workflow_ok in Hw as [Hw _]. by eapply (template_executable uuid f).
  - intros id. rewrite <-(template_workflow_listed f uuid). setoid_rewrite from_template_ok.
    split; [intros (c & w & Hw & _); exists w; exact Hw|].
    intros (w & Hw). eexists. exists w. split; [exact Hw | reflexivity].
  - intros category. assert (Hid : exists id, id ∈ template_ids /\ category ∈ template_categories id).
    { destruct category;
        [exists "nagoya-density"|exists "flood-exposure"|exists "xmin-city"|exists "ndvi-timeseries"
        |exists "evacuation"|exists "xmin-city"|exists "nagoya-density"|exists "geocoding"|exists "external-stac"];
        split; apply (bool_decide_unpack _); vm_compute; exact I. }
    destruct Hid as (id & Hid & Hc). rewrite <-Hm in Hid. apply list_elem_of_fmap in Hid as (t & -> & Ht).
    exists t. split; [done|]. by destruct (Hall t Ht) as [-> _].
Qed.

(** A session on the draft of the raster template: a new goal, an edge, one undo,
    and an edit that fails *)
Definition demo_draws : Draws := {| event_uuid := "event"; node_uuid := "node"; template_uuid := fun id => id |}.
Definition demo_actions : list (Draws * ComposerCommand) :=
  map (fun k => (demo_draws, k))
    [SetGoal " Inspect the raster "; Connect "find-dataset" "result" "attach-sources"; Undo;
     RemoveNode "no-such-step"].

Section Demo.
#[local] Instance demo_display : F64Display := fun _ => "".
#[local] Existing Instance plain_text.
#[local] Existing Instance plain_host.
#[local] Existing Instance plain_contract.

Definition demo_start : WorkflowComposer :=
  match from_template (fun _ => None) (fun id => id) "local-cog-metadata" with
  | Ok c => c
  | Err _ => {| cw_workflow := workflow_new "" ""; cw_events := []; cw_undo := []; cw_redo := [] |}
  end.
Definition demo_draft : WorkflowComposer := session (fun _ => None) demo_start demo_actions.

Lemma demo_opens : from_template (fun _ => None) (fun id => id) "local-cog-metadata" = Ok demo_start.
Proof. vm_compute. reflexivity. Qed.

(** Undoing a fresh draft *)
Lemma composer_refines_timeline_witness :
  (apply (fun _ => None) demo_draws Undo demo_start).2 = demo_start
  /\ timeline_step (fun _ => None) demo_draws Undo (history demo_start) = None.
Proof.
  destruct (composer_refines_timeline (fun _ => None) demo_draws Undo demo_start) as (Hs & _ & Hf).
  split; [|vm_compute; reflexivity].
  apply (Hf (Error (EmptyHistory "undo"))). vm_compute. reflexivity.
Defined.

Lemma undo_recovers_template_witness :
  exists es c1, accepted (fun _ => None) demo_draft [(demo_draws, Undo)] es c1
    /\ cw_workflow c1 = cw_workflow demo_start.
Proof.
  destruct (undo_recovers_template (fun _ => None) (fun id => id) "local-cog-metadata" demo_start demo_actions
    [demo_draws]) as (es & c1 & Ha & Hw & _).
  - exact demo_opens.
  - vm_compute. reflexivity.
  - exists es, c1. split; [exact Ha | exact Hw].
Defined.

Lemma drafts_never_dangle_witness : draft_ok (cw_workflow demo_draft).
Proof.
  exact (proj1 (drafts_never_dangle (fun _ => None) (fun id => id) "local-cog-metadata" demo_start demo_actions
    demo_opens)).
Defined.

Lemma event_log_replays_witness :
  map ce_command (cw_events demo_draft)
    = [SetGoal " Inspect the raster "; Connect "find-dataset" "result" "attach-sources"; Undo]
  /\ exists done es, done `sublist_of` demo_actions /\ accepted (fun _ => None) demo_start done es demo_draft.
Proof.
  split; [vm_compute; reflexivity|].
  destruct (event_log_replays (fun _ => None) demo_start demo_actions) as [(k & es & Hk & Ha & _) _].
  exists k, es. split; [exact Hk | exact Ha].
Defined.

Lemma renamed_palette_step_never_runs_witness :
  let w := (apply_edit (fun _ => None) demo_draws (AddReviewedNode "xmin-city" "build-walk-graph" "walk")
              (cw_workflow demo_start)).2 in
  validate sha256_hex w <> Done tt.
Proof.
  intros w.
  assert (Hr : apply_edit (fun _ => None) demo_draws (AddReviewedNode "xmin-city" "build-walk-graph" "walk")
                 (cw_workflow demo_start) = (Ok tt, w)) by (vm_compute; reflexivity).
  exact (proj1 (renamed_palette_step_never_runs (fun _ => None) demo_draws "xmin-city" "build-walk-graph"
    "walk" (cw_workflow demo_start) w Hr ltac:(discriminate))).
Defined.

Lemma palette_runs_witness : exists l, reviewed_workflow_templates (fun _ => None) (fun id => id) = Done l
  /\ map rt_id l = template_ids.
Proof.
  destruct (palette_runs (fun _ => None) (fun id => id)) as (l & Hl & Hm & _).
  exists l. split; [exact Hl | exact Hm].
Defined.
End Demo.
