(* ===== verification/Incremental.v ===== *)
(** * Incremental recomputation (crates/genegis-core/src/incremental.rs)

    The partition-aware scheduler: one changed input partition invalidates the
    workflow nodes downstream of it, which an executor recomputes in dependency
    order with a retry budget; every step is an event of the run's receipt. The
    executor is an [FnMut] closure and may keep state of its own, of type [X].
    RFC 3339 parsing (crate chrono) is the parameter [Rfc3339]. *)

From S2P Require Import Prelude RustStd Ordering Crs Json Dag GeoContract WorkflowGraph MapStyle Project WorkflowDigest.
Local Open Scope N_scope.

Definition INCREMENTAL_RECEIPT_SCHEMA_VERSION : string := "0.1.0".

(** ** Data *)

Record IncrementalInputWindow := mkWindow {
  win_partition : string;
  cursor_start : N;
  cursor_end : N;
  watermark_start : string;
  watermark_end : string }.

Inductive IncrementalChangeKind :=
| Append
| Late (lateness_seconds : N)
| Replacement (replaced_snapshot_digest : string).

Record IncrementalChange := mkChange {
  input_name : string;
  window : IncrementalInputWindow;
  snapshot_digest : string;
  change_kind : IncrementalChangeKind }.

Record IncrementalDecision := mkDecision {
  dec_node : string;
  dec_partition : string;
  dec_reason : string }.

Inductive IncrementalEvent :=
| WindowAdmitted (w : IncrementalInputWindow)
| LateDataAccepted (partition : string) (lateness_seconds : N)
| InputReplacement (partition replaced_snapshot_digest replacement_snapshot_digest : string)
| Attempt (node_id partition : string) (attempt : N)
| Retry (node_id partition : string) (failed_attempt : N) (error : string)
| OutputCommitted (node_id partition output_digest : string) (replaced_output_digest : option string)
| RunFailed (node_id partition : string) (attempts : N) (error : string).

Record IncrementalRunReceipt := mkReceipt {
  rc_schema_version : string;
  rc_workflow_digest : string;
  rc_change_digest : string;
  rc_decisions : list IncrementalDecision;
  rc_events : list IncrementalEvent;
  rc_completed : bool;
  rc_state_digest : string }.

(** Serialising these types cannot fail, so [Digest] is never built here. *)
Inductive IncrementalError :=
| InvalidWorkflow (error : WorkflowValidationError)
| Invalid (reason : string).

Abbreviation node_outputs := (gmap string (gmap string string)).

Record IncrementalScheduler := mkScheduler {
  sched_outputs : node_outputs;
  sched_history : list IncrementalRunReceipt }.

Definition scheduler_default : IncrementalScheduler :=
  {| sched_outputs := ∅; sched_history := [] |}.

Definition committed_output (o : node_outputs) (node partition : string) : option string :=
  partitions ← o !! node; partitions !! partition.
Definition output_digest (s : IncrementalScheduler) (node partition : string) : option string :=
  committed_output (sched_outputs s) node partition.

Abbreviation checked A := (result (fault IncrementalError) A).

(** ** Admission of a change *)

Definition require_digest (value label : string) : result IncrementalError unit :=
  err_if (negb (sha256_identity value)) (Invalid ("invalid " +:+ label)).

Definition validate_change `{Rfc3339} (w : GeoWorkflow) (c : IncrementalChange)
    : result IncrementalError unit :=
  err_if (is_blank (input_name c) || is_blank (win_partition (window c))
          || negb (existsb (fun input => bool_decide (ic_name input = input_name c)) (input_contracts w))
          || (cursor_end (window c) <? cursor_start (window c)))
    (Invalid "input, partition, or cursor window is invalid");;
  require_digest (snapshot_digest c) "snapshot digest";;
  first ← ok_or (rfc3339_instant (watermark_start (window c))) (Invalid "invalid start watermark");
  final ← ok_or (rfc3339_instant (watermark_end (window c))) (Invalid "invalid end watermark");
  err_if (final <? first)%Z (Invalid "watermark regressed");;
  match change_kind c with
  | Replacement replaced =>
      require_digest replaced "replaced snapshot digest";;
      err_if (bool_decide (replaced = snapshot_digest c)) (Invalid "replacement snapshot must differ")
  | _ => Ok tt
  end.

(** ** The affected nodes *)

Definition consumes (c : IncrementalChange) (step : WorkflowStep) : bool :=
  existsb (fun input => bool_decide (ref_node input = None) && bool_decide (port input = input_name c))
    (inputs step).
Definition direct_consumers (w : GeoWorkflow) (c : IncrementalChange) : gset string :=
  list_to_set (map stable_id (filter (fun step => consumes c step = true) (steps w))).

(** One step of the scan for the nodes downstream of [source]: a node that was
    not affected yet is marked and queued. *)
Definition mark_downstream (source : string) (acc : gset string * list string) (step : WorkflowStep)
    : gset string * list string :=
  let '(affected, queue) := acc in
  if bool_decide (source ∈ depends_on step) && bool_decide (stable_id step ∉ affected)
  then ({[stable_id step]} ∪ affected, queue ++ [stable_id step])
  else (affected, queue).

(** [while let Some(source) = queue.pop_front()]; [None] is fuel that ran out. *)
Fixpoint invalidate (ss : list WorkflowStep) (fuel : nat) (queue : list string) (affected : gset string)
    : option (gset string) :=
  match queue with
  | [] => Some affected
  | source :: queue =>
      match fuel with
      | O => None
      | S fuel =>
          let '(affected, queue) := foldl (mark_downstream source) (affected, queue) ss in
          invalidate ss fuel queue affected
      end
  end.

Definition reason_text (k : IncrementalChangeKind) : string :=
  match k with
  | Append => "input_append"
  | Late _ => "late_data_invalidation"
  | Replacement _ => "replacement_invalidation"
  end.

Definition step_ready (remaining : gset string) (ordered : list IncrementalDecision) (step : WorkflowStep)
    : bool :=
  bool_decide (stable_id step ∈ remaining)
  && forallb (fun d => bool_decide (d ∉ remaining)
                       || existsb (fun dec => bool_decide (dec_node dec = d)) ordered) (depends_on step).

(** [while !remaining.is_empty()]: each round takes one node out. *)
Fixpoint order_affected (w : GeoWorkflow) (c : IncrementalChange) (fuel : nat) (remaining : gset string)
    (ordered : list IncrementalDecision) : checked (list IncrementalDecision) :=
  if bool_decide (remaining = ∅) then Ok ordered
  else match fuel with
    | O => Err Panicked
    | S fuel =>
        ready ← ok_or (List.find (step_ready remaining ordered) (steps w))
                  (Error (Invalid "affected graph is cyclic"));
        order_affected w c fuel (remaining ∖ {[stable_id ready]})
          (ordered ++ [{| dec_node := stable_id ready; dec_partition := win_partition (window c);
                          dec_reason := reason_text (change_kind c) |}])
    end.

(** Every node is queued and taken out at most once. *)
Definition affected_decisions (w : GeoWorkflow) (c : IncrementalChange)
    : checked (list IncrementalDecision) :=
  let direct := direct_consumers w c in
  err_if (bool_decide (direct = ∅)) (Error (Invalid "no workflow node consumes changed input"));;
  affected ← expected (invalidate (steps w) (length (steps w)) (str_iter direct) direct);
  order_affected w c (size affected) affected [].

(** ** Digests *)

Section Incremental.
Context `{F64Display} `{JsonText} `{SvgHost} `{GeoContractJson} `{Rfc3339}.

Definition window_json (w : IncrementalInputWindow) : json :=
  JObject [("partition", JString (win_partition w)); ("cursor_start", json_N (cursor_start w));
           ("cursor_end", json_N (cursor_end w)); ("watermark_start", JString (watermark_start w));
           ("watermark_end", JString (watermark_end w))].
Definition change_kind_json (k : IncrementalChangeKind) : json :=
  JObject match k with
    | Append => [("kind", JString "append")]
    | Late n => [("kind", JString "late"); ("lateness_seconds", json_N n)]
    | Replacement d => [("kind", JString "replacement"); ("replaced_snapshot_digest", JString d)]
    end.
Definition change_json (c : IncrementalChange) : json :=
  JObject [("input_name", JString (input_name c)); ("window", window_json (window c));
           ("snapshot_digest", JString (snapshot_digest c));
           ("change", change_kind_json (change_kind c))].
Definition outputs_json (o : node_outputs) : json := json_map (json_map JString) o.

(** [digest] *)
Definition digest (v : json) : string := digest_bytes (compact_json v).

(** ** Execution *)

Context {X : Type} (executor : X -> WorkflowStep -> string -> N -> result string string * X).

(** The scheduler's outputs, the executor's state and the events so far: what
    the loop over the decisions mutates. *)
Record progress := mkProgress { pr_outputs : node_outputs; pr_env : X; pr_events : list IncrementalEvent }.
Abbreviation run A := (st progress (fault IncrementalError) A).

Definition push_event (e : IncrementalEvent) : run unit :=
  modify (fun p => mkProgress (pr_outputs p) (pr_env p) (pr_events p ++ [e])).
Definition call_executor (step : WorkflowStep) (partition : string) (attempt : N)
    : run (result string string) := fun p =>
  let '(answer, env) := executor (pr_env p) step partition attempt in
  (Ok answer, mkProgress (pr_outputs p) env (pr_events p)).

Definition maximum_attempts (max_retries : N) : N := N.min (max_retries + 1) u32_max.

(** [for attempt in attempt..=maximum], [budget] attempts in number *)
Fixpoint attempts (step : WorkflowStep) (d : IncrementalDecision) (maximum : N) (budget : nat) (attempt : N)
    : run (option string) :=
  match budget with
  | O => mret None
  | S budget =>
      push_event (Attempt (dec_node d) (dec_partition d) attempt);;
      answer ← call_executor step (dec_partition d) attempt;
      match answer with
      | Ok digest => lift (as_fault (require_digest digest "output digest"));; mret (Some digest)
      | Err error =>
          (if attempt <? maximum
           then push_event (Retry (dec_node d) (dec_partition d) attempt error)
           else push_event (RunFailed (dec_node d) (dec_partition d) attempt error));;
          attempts step d maximum budget (attempt + 1)
      end
  end.

Definition insert_output (node partition digest : string) (o : node_outputs) : node_outputs :=
  <[node := <[partition := digest]> (default ∅ (o !! node))]> o.

Definition commit_output (d : IncrementalDecision) (digest : string) : run unit :=
  p ← get;
  modify (fun p => mkProgress (insert_output (dec_node d) (dec_partition d) digest (pr_outputs p))
                     (pr_env p) (pr_events p));;
  push_event (OutputCommitted (dec_node d) (dec_partition d) digest
                (committed_output (pr_outputs p) (dec_node d) (dec_partition d))).

(** The loop over the decisions; whether it completed *)
Fixpoint run_decisions (w : GeoWorkflow) (max_retries : N) (ds : list IncrementalDecision) : run bool :=
  match ds with
  | [] => mret true
  | d :: ds =>
      step ← lift (expected (List.find (fun s => bool_decide (stable_id s = dec_node d)) (steps w)));
      let maximum := maximum_attempts max_retries in
      committed ← attempts step d maximum (N.to_nat maximum) 1;
      match committed with
      | Some digest => commit_output d digest;; run_decisions w max_retries ds
      | None => mret false
      end
  end.

Definition admission_events (c : IncrementalChange) : list IncrementalEvent :=
  WindowAdmitted (window c) ::
  match change_kind c with
  | Append => []
  | Late n => [LateDataAccepted (win_partition (window c)) n]
  | Replacement d => [InputReplacement (win_partition (window c)) d (snapshot_digest c)]
  end.

(** The guards before the first attempt *)
Definition prepared (w : GeoWorkflow) (c : IncrementalChange)
    : checked (list IncrementalDecision * string) :=
  checked_run InvalidWorkflow (validate sha256_hex w);;
  as_fault (validate_change w c);;
  decisions ← affected_decisions w c;
  workflow_digest ← checked_run InvalidWorkflow (stable_digest w);
  Ok (decisions, workflow_digest).

(** [IncrementalScheduler::execute]: the scheduler and the executor's state are
    left as they are when it fails. *)
Definition execute (w : GeoWorkflow) (c : IncrementalChange) (max_retries : N)
    : st (IncrementalScheduler * X) (fault IncrementalError) IncrementalRunReceipt := fun '(s, env) =>
  match prepared w c with
  | Err e => (Err e, (s, env))
  | Ok (decisions, workflow_digest) =>
      match run_decisions w max_retries decisions
              (mkProgress (sched_outputs s) env (admission_events c)) with
      | (Err e, p) => (Err e, (mkScheduler (pr_outputs p) (sched_history s), pr_env p))
      | (Ok completed, p) =>
          let receipt :=
            {| rc_schema_version := INCREMENTAL_RECEIPT_SCHEMA_VERSION;
               rc_workflow_digest := workflow_digest; rc_change_digest := digest (change_json c);
               rc_decisions := decisions; rc_events := pr_events p; rc_completed := completed;
               rc_state_digest := digest (outputs_json (pr_outputs p)) |} in
          (Ok receipt, (mkScheduler (pr_outputs p) (sched_history s ++ [receipt]), pr_env p))
      end
  end.
End Incremental.

(** ** The affected nodes are the ones reachable from a consumer *)

Section Affected.
Variable w : GeoWorkflow.

Definition stable_ids : list string := map stable_id (steps w).
Definition downstream (x y : string) : Prop :=
  exists step, step ∈ steps w /\ stable_id step = y /\ x ∈ depends_on step.

Lemma stable_id_elem step : step ∈ steps w -> stable_id step ∈ stable_ids.
Proof. intros Hs. apply list_elem_of_fmap. by exists step. Qed.

Lemma mark_downstream_spec source ss : forall affected queue affected' queue',
  foldl (mark_downstream source) (affected, queue) ss = (affected', queue') ->
  exists new, queue' = queue ++ new /\ affected' = affected ∪ list_to_set new /\ NoDup new
    /\ (forall y, y ∈ new -> y ∉ affected
          /\ exists step, step ∈ ss /\ stable_id step = y /\ source ∈ depends_on step)
    /\ (forall step, step ∈ ss -> source ∈ depends_on step -> stable_id step ∈ affected').
Proof.
  induction ss as [|step ss IH]; intros affected queue affected' queue' Hf; simpl in Hf.
  - simplify_eq. exists []. split_and!; [by rewrite app_nil_r | set_solver | constructor | |];
      intros ? Hn; by apply not_elem_of_nil in Hn.
  - destruct (decide (source ∈ depends_on step /\ stable_id step ∉ affected)) as [[Hd Ha]|Hskip].
    + rewrite !bool_decide_eq_true_2 in Hf by done. simpl in Hf.
      apply IH in Hf as (new & -> & -> & Hnd & Hnew & Hall).
      exists (stable_id step :: new). split_and!.
      * by rewrite <-app_assoc.
      * set_solver.
      * apply NoDup_cons. split; [|done]. intros Hin. destruct (Hnew _ Hin) as [Hn _]. set_solver.
      * intros y [->|Hy]%elem_of_cons.
        -- split; [done|]. exists step. split_and!; [apply list_elem_of_here | done | done].
        -- destruct (Hnew y Hy) as (Hn & s & Hs & He). split; [set_solver|].
           exists s. split; [by apply list_elem_of_further | done].
      * intros s [->|Hs]%elem_of_cons Hin; [set_solver | by apply Hall].
    + rewrite <-bool_decide_and, bool_decide_eq_false_2 in Hf by done.
      apply IH in Hf as (new & -> & -> & Hnd & Hnew & Hall).
      exists new. split_and!; try done.
      * intros y Hy. destruct (Hnew y Hy) as (Hn & s & Hs & He). split; [done|].
        exists s. split; [by apply list_elem_of_further | done].
      * intros s [->|Hs]%elem_of_cons Hin; [|by apply Hall].
        apply elem_of_union_l. apply dec_stable. tauto.
Qed.

Lemma size_difference_app (ids affected : gset string) new :
  NoDup new -> (forall y, y ∈ new -> y ∉ affected) -> (forall y, y ∈ new -> y ∈ ids) ->
  size (ids ∖ affected) = (length new + size (ids ∖ (affected ∪ list_to_set new)))%nat.
Proof.
  intros Hnd Ha Hi. rewrite <-(size_list_to_set (C:=gset string) new) by done.
  rewrite <-size_union by set_solver. f_equal. apply set_eq. intros y.
  destruct (decide (y ∈ new)); set_solver.
Qed.

Lemma invalidate_spec fuel : forall queue affected,
  let ids : gset string := list_to_set stable_ids in
  (forall x, x ∈ queue -> x ∈ affected) ->
  (forall x y, x ∈ affected -> downstream x y -> y ∈ affected \/ x ∈ queue) ->
  (length queue + size (ids ∖ affected) <= fuel)%nat ->
  exists found, invalidate (steps w) fuel queue affected = Some found /\ affected ⊆ found
    /\ (forall x y, x ∈ found -> downstream x y -> y ∈ found)
    /\ (forall y, y ∈ found -> y ∈ affected \/ exists x, x ∈ affected /\ rtc downstream x y).
Proof.
  induction fuel as [|fuel IH]; intros queue affected ids Hq Hc Hf; destruct queue as [|source queue];
    simpl in *; try lia.
  1-2: exists affected; split_and!; [done|done| |by left]; intros x y Hx Hxy;
       destruct (Hc x y Hx Hxy) as [|Hn]; [done | by apply not_elem_of_nil in Hn].
  destruct (foldl _ _ _) as [affected' queue'] eqn:Hfold.
  apply mark_downstream_spec in Hfold as (new & -> & -> & Hnd & Hnew & Hall).
  assert (Hids : forall y, y ∈ new -> y ∈ ids).
  { intros y (_ & s & Hs & <- & _)%Hnew. apply elem_of_list_to_set. by apply stable_id_elem. }
  rewrite (size_difference_app ids affected new) in Hf; [|done|by intros y []%Hnew|done].
  assert (Hsource : source ∈ affected) by (apply Hq; set_solver).
  destruct (IH (queue ++ new) (affected ∪ list_to_set new)) as (found & He & H1 & H2 & H3).
  - set_solver.
  - intros x y [Hx|Hx%elem_of_list_to_set]%elem_of_union Hxy; [|right; set_solver].
    destruct (Hc x y Hx Hxy) as [Hy|[->|Hin]%elem_of_cons]; [set_solver| |right; set_solver].
    left. destruct Hxy as (s & Hs & <- & Hin). by apply Hall.
  - rewrite length_app. subst ids. lia.
  - exists found. split_and!; [done|set_solver|done|].
    intros y [Hy|(x & Hx & Hr)]%H3.
    + apply elem_of_union in Hy as [Hy|Hy%elem_of_list_to_set]; [by left|]. right.
      destruct (Hnew y Hy) as (_ & s & Hs & <- & Hin). exists source. split; [done|].
      apply rtc_once. by exists s.
    + right. apply elem_of_union in Hx as [Hx|Hx%elem_of_list_to_set]; [by exists x|].
      destruct (Hnew x Hx) as (_ & s & Hs & <- & Hin). exists source. split; [done|].
      eapply rtc_l; [|done]. by exists s.
Qed.

Lemma elem_of_direct c x :
  x ∈ direct_consumers w c
  <-> exists step, step ∈ steps w /\ consumes c step = true /\ stable_id step = x.
Proof.
  unfold direct_consumers. rewrite elem_of_list_to_set, list_elem_of_fmap. split.
  - intros (step & -> & [Hc Hs]%list_elem_of_filter). by exists step.
  - intros (step & Hs & Hc & <-). exists step. split; [done|]. by apply list_elem_of_filter.
Qed.

Lemma affected_reachable c :
  exists found, invalidate (steps w) (length (steps w)) (str_iter (direct_consumers w c))
                  (direct_consumers w c) = Some found
    /\ (forall y, y ∈ found <-> exists x, x ∈ direct_consumers w c /\ rtc downstream x y)
    /\ (forall y, y ∈ found -> y ∈ stable_ids).
Proof.
  set (direct := direct_consumers w c).
  assert (Hd : forall x, x ∈ direct -> x ∈ stable_ids).
  { intros x (s & Hs & _ & <-)%elem_of_direct. by apply stable_id_elem. }
  destruct (invalidate_spec (length (steps w)) (str_iter direct) direct)
    as (found & He & H1 & H2 & H3).
  - intros x. by rewrite elem_of_btree_iter.
  - intros x y Hx _. right. by apply elem_of_btree_iter.
  - rewrite length_btree_iter, <-size_union by set_solver.
    assert (direct ∪ list_to_set stable_ids ∖ direct = list_to_set stable_ids) as ->.
    { apply set_eq. intros y. destruct (decide (y ∈ direct)) as [Hy|]; [|set_solver].
      specialize (Hd y Hy). set_solver. }
    rewrite <-(length_map stable_id). apply size_list_to_set_le.
  - assert (Hiff : forall y, y ∈ found <-> exists x, x ∈ direct /\ rtc downstream x y).
    { intros y. split.
      - intros [Hy|?]%H3; [|done]. by exists y.
      - intros (x & Hx & Hr). specialize (H1 x Hx). clear He H3 Hx.
        induction Hr as [|a b z Hab _ IH]; [done|]. apply IH. by eapply H2. }
    exists found. split_and!; [done|done|]. intros y (x & Hx & Hr)%Hiff.
    apply rtc_inv_r in Hr as [->|(z & _ & s & Hs & <- & _)]; [by apply Hd|].
    by apply stable_id_elem.
Qed.

(** ** Their order *)

Definition ready (remaining : gset string) (step : WorkflowStep) : Prop :=
  stable_id step ∈ remaining /\ forall d, d ∈ depends_on step -> d ∉ remaining.

Lemma step_ready_true remaining ordered step :
  (forall dec, dec ∈ ordered -> dec_node dec ∉ remaining) ->
  step_ready remaining ordered step = true <-> ready remaining step.
Proof.
  intros Ho. unfold step_ready, ready. rewrite andb_true_iff, bool_decide_eq_true, forallb_forall.
  split; intros [H1 H2]; split; try done; intros d Hd.
  - specialize (H2 d). rewrite <-list_elem_of_In in H2. specialize (H2 Hd).
    apply orb_true_iff in H2 as [H2%bool_decide_eq_true|H2]; [done|].
    apply existsb_exists in H2 as (dec & Hdec%list_elem_of_In & <-%bool_decide_eq_true). by apply Ho.
  - apply orb_true_iff. left. apply bool_decide_eq_true, H2. by apply list_elem_of_In.
Qed.

(** As long as every non-empty set of affected nodes has a ready one, the loop
    orders them all. *)
Lemma order_affected_spec c fuel : forall remaining ordered,
  (forall dec, dec ∈ ordered -> dec_node dec ∉ remaining) ->
  (forall r : gset string, r ⊆ remaining -> r <> ∅ -> exists step, step ∈ steps w /\ ready r step) ->
  (size remaining <= fuel)%nat ->
  exists new, order_affected w c fuel remaining ordered = Ok (ordered ++ new)
    /\ map dec_node new ≡ₚ elements remaining
    /\ (forall dec, dec ∈ new -> dec_partition dec = win_partition (window c)
                                /\ dec_reason dec = reason_text (change_kind c))
    /\ forall l1 dec l2, new = l1 ++ dec :: l2 -> exists step, step ∈ steps w
          /\ stable_id step = dec_node dec
          /\ forall d, d ∈ depends_on step -> d ∈ remaining -> d ∈ map dec_node l1.
Proof.
  induction fuel as [|fuel IH]; intros remaining ordered Ho Hready Hf; simpl; case_bool_decide as He.
  1,3: subst remaining; exists []; rewrite app_nil_r; split_and!;
       [done | by rewrite elements_empty | by intros ? ?%not_elem_of_nil | by intros [|? ?] ? ?].
  { exfalso. apply He, leibniz_equiv, size_empty_iff. lia. }
  destruct (Hready remaining) as (s0 & Hs0 & Hr0); [done|done|].
  destruct (List.find _ _) as [step|] eqn:Hfind; simpl.
  2: { apply List.find_none with (x := s0) in Hfind; [|by apply list_elem_of_In].
       apply (step_ready_true _ ordered) in Hr0; [congruence | done]. }
  apply List.find_some in Hfind as [Hin%list_elem_of_In Hr].
  apply step_ready_true in Hr as [Hmem Hdeps]; [|done].
  set (dec := {| dec_node := _; dec_partition := _; dec_reason := _ |}).
  destruct (IH (remaining ∖ {[stable_id step]}) (ordered ++ [dec])) as (new & Hrun & Hp & Hfields & Hord).
  - intros d [Hd| ->%list_elem_of_singleton]%elem_of_app; [specialize (Ho d Hd)|simpl]; set_solver.
  - intros r Hsub. apply Hready. set_solver.
  - assert (size (remaining ∖ {[stable_id step]}) = size remaining - 1)%nat as ->; [|lia].
    rewrite size_difference by set_solver. by rewrite size_singleton.
  - exists (dec :: new). rewrite Hrun. split_and!.
    + by rewrite <-app_assoc.
    + simpl. rewrite Hp, <-elements_union_singleton by set_solver.
      apply elements_proper. intros x. destruct (decide (x = stable_id step)); set_solver.
    + intros d [->|Hd]%elem_of_cons; [done | by apply Hfields].
    + intros [|d' l1] d l2 [= <- Hnew].
      * exists step. split_and!; [done|done|]. intros x Hx Hrem. by destruct (Hdeps x Hx).
      * destruct (Hord l1 d l2 Hnew) as (s & Hs & Hid & Hbefore). exists s. split_and!; [done|done|].
        intros x Hx Hrem. simpl. destruct (decide (x = stable_id step)) as [->|Hne]; [left|].
        right. apply Hbefore; [done|]. set_solver.
Qed.

(** Whatever the graph, the loop ends within its fuel and only names nodes. *)
Lemma order_affected_graceful c fuel : forall remaining ordered,
  (size remaining <= fuel)%nat -> (forall dec, dec ∈ ordered -> dec_node dec ∈ stable_ids) ->
  order_affected w c fuel remaining ordered = Err (Error (Invalid "affected graph is cyclic"))
  \/ exists ds, order_affected w c fuel remaining ordered = Ok ds
       /\ forall dec, dec ∈ ds -> dec_node dec ∈ stable_ids.
Proof.
  induction fuel as [|fuel IH]; intros remaining ordered Hf Ho; simpl; case_bool_decide as He;
    try (right; by exists ordered).
  { exfalso. apply He, leibniz_equiv, size_empty_iff. lia. }
  destruct (List.find _ _) as [step|] eqn:Hfind; simpl; [|by left].
  apply List.find_some in Hfind as [Hin%list_elem_of_In Hr].
  unfold step_ready in Hr. apply andb_true_iff in Hr as [Hmem%bool_decide_eq_true _].
  apply IH.
  - rewrite size_difference by set_solver. rewrite size_singleton.
    assert (size remaining <> 0)%nat; [|lia]. intros H0%size_empty_iff. set_solver.
  - intros d [Hd| ->%list_elem_of_singleton]%elem_of_app; [by apply Ho|]. by apply stable_id_elem.
Qed.

Lemma affected_decisions_graceful c :
  (exists e, affected_decisions w c = Err (Error e))
  \/ exists ds, affected_decisions w c = Ok ds /\ forall dec, dec ∈ ds -> dec_node dec ∈ stable_ids.
Proof.
  unfold affected_decisions. case_bool_decide; simpl; [left; by eexists|].
  destruct (affected_reachable c) as (found & -> & _). simpl.
  destruct (order_affected_graceful c (size found) found []) as [->|]; [done| | |].
  - by intros ? ?%not_elem_of_nil.
  - left. by eexists.
  - by right.
Qed.
End Affected.

(** Two ways to split a list at an element, when the list ends in a known one *)
Lemma list_last_split {A} (h2 h1 : list A) r h x :
  h ++ [x] = h1 ++ r :: h2 ->
  (exists h2', h2 = h2' ++ [x] /\ h = h1 ++ r :: h2') \/ (h2 = [] /\ r = x /\ h1 = h).
Proof.
  intros Heq. destruct h2 as [|y h2' _] using rev_ind.
  - right. by apply app_inj_tail in Heq as [-> ->].
  - left. exists h2'. rewrite app_comm_cons, app_assoc in Heq.
    by apply app_inj_tail in Heq as [-> ->].
Qed.

(** The first element of a list that lies in a set *)
Lemma first_in (l : list string) (r : gset string) :
  (exists x, x ∈ l /\ x ∈ r) ->
  exists l1 x l2, l = l1 ++ x :: l2 /\ x ∈ r /\ forall y, y ∈ l1 -> y ∉ r.
Proof.
  induction l as [|a l IH]; intros (x & Hx & Hr); [by apply not_elem_of_nil in Hx|].
  destruct (decide (a ∈ r)) as [Ha|Ha].
  - exists [], a, l. split_and!; [done|done|]. by intros y ?%not_elem_of_nil.
  - destruct IH as (l1 & y & l2 & -> & Hy & Hl).
    { exists x. split; [|done]. by apply elem_of_cons in Hx as [->|?]. }
    exists (a :: l1), y, l2. split_and!; [done|done|]. intros z [->|Hz]%elem_of_cons; auto.
Qed.

Section ValidAffected.
Context `{F64Display} `{JsonText} (sha : string -> string).

(** In a valid workflow whose steps spell their identifiers, the step of an
    identifier is unique, its dependencies are the ones written down, and the
    first node of the execution order that is affected is ready. *)
Lemma spelled_ids w :
  Forall (fun s => is_blank (stable_id s) = false) (steps w) -> ids_of sha w = stable_ids w.
Proof.
  intros Hf. unfold ids_of, stable_ids. apply map_ext_in. intros s Hs%list_elem_of_In.
  rewrite Forall_forall in Hf. unfold node_id. by rewrite (Hf s Hs).
Qed.

Lemma spelled_not_legacy w :
  steps w <> [] -> Forall (fun s => is_blank (stable_id s) = false) (steps w) ->
  is_legacy_linear w = false.
Proof.
  unfold is_legacy_linear. destruct (steps w) as [|s ss]; [done|].
  intros _ [Hs _]%Forall_cons. simpl. by rewrite Hs.
Qed.

Lemma spelled_depends w d y :
  steps w <> [] -> Forall (fun s => is_blank (stable_id s) = false) (steps w) ->
  depends sha w d y <-> downstream w d y.
Proof.
  intros Hne Hf. unfold depends, effective_deps, downstream.
  rewrite spelled_ids, spelled_not_legacy by done. simpl. unfold stable_ids.
  setoid_rewrite list_lookup_fmap_Some. split.
  - intros (i & (s & -> & Hs) & Hd). rewrite Hs in Hd. exists s.
    split_and!; [by eapply list_elem_of_lookup_2 | done | done].
  - intros (s & Hs & <- & Hd). apply list_elem_of_lookup in Hs as [i Hi].
    exists i. split; [by exists s|]. by rewrite Hi.
Qed.

Lemma spelled_step w order step d y :
  topological_order sha w = Done order ->
  Forall (fun s => is_blank (stable_id s) = false) (steps w) ->
  step ∈ steps w -> stable_id step = y -> depends sha w d y -> d ∈ depends_on step.
Proof.
  intros Ho Hf Hs <- Hd.
  assert (Hne : steps w <> []) by (intros Hn; rewrite Hn in Hs; by apply not_elem_of_nil in Hs).
  apply spelled_depends in Hd as (s & Hs' & Heq & Hd); [|done|done].
  destruct (order_cases sha w) as
    [(e & He & _) | [(o & He & (Hnd & _) & _) | [(l & He & _) | (l & He & _)]]];
    rewrite He in Ho; simplify_eq.
  rewrite spelled_ids in Hnd by done. by rewrite <-(NoDup_key_inj stable_id (steps w) s step).
Qed.

Lemma first_affected_ready w order (r : gset string) :
  topological_order sha w = Done order ->
  Forall (fun s => is_blank (stable_id s) = false) (steps w) ->
  (forall y, y ∈ r -> y ∈ stable_ids w) -> r <> ∅ ->
  exists step, step ∈ steps w /\ ready r step.
Proof.
  intros Ho Hf Hr Hne.
  assert (Hsteps : steps w <> []).
  { intros Hs. unfold topological_order in Ho. by rewrite Hs in Ho. }
  destruct (order_cases sha w) as
    [(e & He & _) | [(o & He & (Hnd & Hp & Hresp & _) & _) | [(l & He & _) | (l & He & _)]]];
    rewrite He in Ho; simplify_eq.
  rewrite spelled_ids in Hp, Hnd by done.
  destruct (first_in order r) as (l1 & x & l2 & -> & Hx & Hl1).
  { apply set_choose_L in Hne as [x Hx]. exists x. split; [|done]. rewrite Hp. by apply Hr. }
  assert (Hin : x ∈ stable_ids w) by (by apply Hr).
  apply list_elem_of_fmap in Hin as (step & -> & Hin). exists step. split; [done|].
  split; [done|]. intros d Hd Hdr. apply (Hl1 d); [|done].
  eapply Hresp; [done|]. apply spelled_depends; [done|done|]. by exists step.
Qed.
End ValidAffected.

(** ** What a run does *)

Section Runs.
Context {X : Type} (executor : X -> WorkflowStep -> string -> N -> result string string * X).
Abbreviation progress := (progress (X:=X)).

(** The attempts for one decision, from number [n]: the events, the committed
    digest if any, and what the executor's state becomes. *)
Inductive tries (step : WorkflowStep) (d : IncrementalDecision) (maximum : N)
    : N -> X -> list IncrementalEvent -> option string -> X -> Prop :=
| tries_commit n x digest x' :
    n <= maximum -> executor x step (dec_partition d) n = (Ok digest, x') ->
    sha256_identity digest = true ->
    tries step d maximum n x [Attempt (dec_node d) (dec_partition d) n] (Some digest) x'
| tries_again n x error x1 evs o x' :
    n < maximum -> executor x step (dec_partition d) n = (Err error, x1) ->
    tries step d maximum (n + 1) x1 evs o x' ->
    tries step d maximum n x
      (Attempt (dec_node d) (dec_partition d) n :: Retry (dec_node d) (dec_partition d) n error :: evs) o x'
| tries_exhausted x error x' :
    executor x step (dec_partition d) maximum = (Err error, x') ->
    tries step d maximum maximum x
      [Attempt (dec_node d) (dec_partition d) maximum;
       RunFailed (dec_node d) (dec_partition d) maximum error] None x'.

(** The decisions in turn, until one exhausts its attempts *)
Inductive run_log (w : GeoWorkflow) (maximum : N)
    : list IncrementalDecision -> node_outputs -> X -> list IncrementalEvent -> node_outputs -> X -> bool -> Prop :=
| run_finished o x : run_log w maximum [] o x [] o x true
| run_committed d ds step o x evs digest x1 evs' o' x' completed :
    List.find (fun s => bool_decide (stable_id s = dec_node d)) (steps w) = Some step ->
    tries step d maximum 1 x evs (Some digest) x1 ->
    run_log w maximum ds (insert_output (dec_node d) (dec_partition d) digest o) x1 evs' o' x' completed ->
    run_log w maximum (d :: ds) o x
      (evs ++ OutputCommitted (dec_node d) (dec_partition d) digest
                (committed_output o (dec_node d) (dec_partition d)) :: evs') o' x' completed
| run_stopped d ds step o x evs x' :
    List.find (fun s => bool_decide (stable_id s = dec_node d)) (steps w) = Some step ->
    tries step d maximum 1 x evs None x' ->
    run_log w maximum (d :: ds) o x evs o x' false.

Definition bad_output_digest : fault IncrementalError := Error (Invalid "invalid output digest").

(** A loop over attempts either follows [tries], or the executor answered with a
    malformed digest; neither touches the outputs. *)
Lemma attempts_spec step d maximum budget : forall n p,
  1 <= n -> N.of_nat budget = maximum + 1 - n -> n <= maximum ->
  (exists evs o x', attempts executor step d maximum budget n p
      = (Ok o, mkProgress (pr_outputs p) x' (pr_events p ++ evs))
     /\ tries step d maximum n (pr_env p) evs o x')
  \/ exists p', attempts executor step d maximum budget n p = (Err bad_output_digest, p')
     /\ pr_outputs p' = pr_outputs p.
Proof.
  induction budget as [|budget IH]; intros n p H1 Hb Hn; [lia|]. destruct p as [o x evs].
  unfold attempts; fold (attempts executor). unfold call_executor, push_event.
  unfold mbind, st_bind, modify. cbn [pr_outputs pr_env pr_events].
  destruct (executor x step (dec_partition d) n) as [[digest|error] x1] eqn:Hx;
    cbn [pr_outputs pr_env pr_events].
  - unfold require_digest. destruct (sha256_identity digest) eqn:Hs; simpl.
    + left. eexists [_], (Some digest), x1. split; [reflexivity|]. by apply tries_commit.
    + right. eexists. split; [reflexivity|]. done.
  - destruct (n <? maximum) eqn:Hlt; cbn [pr_outputs pr_env pr_events]; unfold modify.
    + apply N.ltb_lt in Hlt.
      destruct (IH (n + 1) (mkProgress o x1 ((evs ++ [Attempt (dec_node d) (dec_partition d) n])
                  ++ [Retry (dec_node d) (dec_partition d) n error]))) as [(evs' & r & x' & Hr & Ht)|(p' & Hr & Ho)];
        [lia..| |].
      * left. eexists (_ :: _ :: evs'), r, x'. rewrite Hr. cbn [pr_outputs pr_env pr_events].
        split; [by rewrite <-!app_assoc|]. by eapply tries_again.
      * right. exists p'. rewrite Hr. done.
    + apply N.ltb_ge in Hlt. assert (n = maximum) as -> by lia.
      assert (budget = O) as -> by lia. left. eexists [_; _], None, x1.
      split; [simpl; by rewrite <-app_assoc|]. by apply tries_exhausted.
Qed.

Lemma maximum_attempts_pos max_retries : 1 <= maximum_attempts max_retries.
Proof. unfold maximum_attempts, u32_max. lia. Qed.

Lemma planned_node_exists w d :
  dec_node d ∈ stable_ids w ->
  exists step, List.find (fun s => bool_decide (stable_id s = dec_node d)) (steps w) = Some step
    /\ step ∈ steps w /\ stable_id step = dec_node d.
Proof.
  intros (s0 & Heq & Hs0)%list_elem_of_fmap.
  destruct (List.find _ _) as [step|] eqn:Hf.
  - apply List.find_some in Hf as [Hin%list_elem_of_In Hs%bool_decide_eq_true]. by exists step.
  - apply List.find_none with (x := s0) in Hf; [|by apply list_elem_of_In].
    by apply bool_decide_eq_false in Hf.
Qed.

Lemma run_decisions_spec w max_retries ds : forall p,
  (forall d, d ∈ ds -> dec_node d ∈ stable_ids w) ->
  (exists evs o x' completed, run_decisions executor w max_retries ds p
      = (Ok completed, mkProgress o x' (pr_events p ++ evs))
     /\ run_log w (maximum_attempts max_retries) ds (pr_outputs p) (pr_env p) evs o x' completed)
  \/ exists p', run_decisions executor w max_retries ds p = (Err bad_output_digest, p').
Proof.
  induction ds as [|d ds IH]; intros p Hds.
  { left. exists [], (pr_outputs p), (pr_env p), true. simpl. rewrite app_nil_r. destruct p.
    split; [done | constructor]. }
  destruct (planned_node_exists w d) as (step & Hfind & _); [apply Hds, list_elem_of_here|].
  cbn [run_decisions]. rewrite Hfind. unfold mbind, st_bind, lift. cbn [expected ok_or].
  pose proof (maximum_attempts_pos max_retries) as Hpos.
  destruct (attempts_spec step d (maximum_attempts max_retries)
              (N.to_nat (maximum_attempts max_retries)) 1 p)
    as [(evs & [digest|] & x1 & -> & Ht)|(p' & -> & Hp)]; [lia..| | |].
  - unfold commit_output, push_event, get, modify, mbind, st_bind. cbn [pr_outputs pr_env pr_events].
    match goal with |- context [run_decisions executor w max_retries ds ?q] => destruct (IH q)
      as [(evs' & o & x' & completed & -> & Hl)|(p' & ->)] end;
      [intros; by apply Hds, list_elem_of_further| |].
    + left. eexists (evs ++ _ :: evs'), o, x', completed. split.
      * cbn [pr_events]. by rewrite <-!app_assoc.
      * by eapply run_committed.
    + right. by exists p'.
  - left. exists evs, (pr_outputs p), x1, false. split; [done|]. by eapply run_stopped.
  - right. by exists p'.
Qed.
End Runs.

(** ** Logs *)

Definition apply_event (o : node_outputs) (e : IncrementalEvent) : node_outputs :=
  match e with OutputCommitted n p digest _ => insert_output n p digest o | _ => o end.
(** The outputs a log of events leaves *)
Definition replay_log (o : node_outputs) (evs : list IncrementalEvent) : node_outputs :=
  foldl apply_event o evs.
Definition commit_of (e : IncrementalEvent) : option (string * string) :=
  match e with OutputCommitted n p _ _ => Some (n, p) | _ => None end.
Definition commits (evs : list IncrementalEvent) : list (string * string) := omap commit_of evs.
Definition decision_key (d : IncrementalDecision) : string * string := (dec_node d, dec_partition d).

(** Every commit states the digest it replaced, and commits a SHA-256 identity. *)
Definition log_consistent (o : node_outputs) (evs : list IncrementalEvent) : Prop :=
  forall evs1 n p digest replaced evs2,
    evs = evs1 ++ OutputCommitted n p digest replaced :: evs2 ->
    replaced = committed_output (replay_log o evs1) n p /\ sha256_identity digest = true.

(** A receipt commits a prefix of its decisions, and all of them if completed. *)
Definition receipt_sound (r : IncrementalRunReceipt) : Prop :=
  exists k, (k <= length (rc_decisions r))%nat
    /\ commits (rc_events r) = map decision_key (take k (rc_decisions r))
    /\ (rc_completed r = true <-> k = length (rc_decisions r)).

Definition history_events (h : list IncrementalRunReceipt) : list IncrementalEvent :=
  concat (map rc_events h).

Lemma replay_app o evs evs' : replay_log o (evs ++ evs') = replay_log (replay_log o evs) evs'.
Proof. apply foldl_app. Qed.

Lemma commits_app evs evs' : commits (evs ++ evs') = commits evs ++ commits evs'.
Proof. apply omap_app. Qed.

Lemma silent_replay evs o : commits evs = [] -> replay_log o evs = o.
Proof.
  revert o. induction evs as [|e evs IH]; intros o Hc; [done|].
  destruct e; simpl in *; try done; by apply IH.
Qed.

Lemma silent_consistent evs o : commits evs = [] -> log_consistent o evs.
Proof.
  intros Hc evs1 n p digest replaced evs2 ->. rewrite commits_app in Hc.
  apply app_eq_nil in Hc as [_ Hc]. done.
Qed.

Lemma log_consistent_app o evs evs' :
  log_consistent o evs -> log_consistent (replay_log o evs) evs' -> log_consistent o (evs ++ evs').
Proof.
  intros H1 H2 evs1 n p digest replaced evs2 Heq.
  apply app_eq_inv in Heq as [(k & -> & Heq)|(k & -> & Heq)].
  - destruct k as [|e k]; simpl in Heq.
    + subst evs'. destruct (H2 [] n p digest replaced evs2) as [-> ?]; [done|].
      by rewrite app_nil_r.
    + injection Heq as <- ->. by eapply H1.
  - subst evs'. destruct (H2 k n p digest replaced evs2) as [-> ?]; [done|].
    by rewrite replay_app.
Qed.

Lemma log_consistent_commit o n p digest :
  sha256_identity digest = true ->
  log_consistent o [OutputCommitted n p digest (committed_output o n p)].
Proof.
  intros Hs [|e evs1] n' p' digest' replaced evs2 [= H1].
  - by simplify_eq.
  - by destruct evs1.
Qed.

Section LogTheory.
Context {X : Type} (executor : X -> WorkflowStep -> string -> N -> result string string * X).

Lemma tries_silent step d maximum n x evs o x' :
  tries executor step d maximum n x evs o x' -> commits evs = [].
Proof. by induction 1. Qed.

Lemma tries_digest step d maximum n x evs o x' digest :
  tries executor step d maximum n x evs o x' -> o = Some digest -> sha256_identity digest = true.
Proof. induction 1; intros ?; simplify_eq; auto. Qed.

Lemma run_log_sound w maximum ds o x evs o' x' completed :
  run_log executor w maximum ds o x evs o' x' completed ->
  replay_log o evs = o' /\ log_consistent o evs
  /\ exists k, (k <= length ds)%nat /\ commits evs = map decision_key (take k ds)
       /\ (completed = true <-> k = length ds).
Proof.
  induction 1 as [o x | d ds step o x evs digest x1 evs' o' x' completed Hf Ht Hl IH
                 | d ds step o x evs x' Hf Ht].
  - split_and!; [done | by apply silent_consistent |]. by exists O.
  - destruct IH as (Hr & Hc & k & Hk & Hcom & Hiff).
    pose proof (tries_silent _ _ _ _ _ _ _ _ Ht) as Hsil.
    assert (Hev : forall e, evs ++ e :: evs' = (evs ++ [e]) ++ evs') by (intros; by rewrite <-app_assoc).
    rewrite Hev. clear Hev. split_and!.
    + rewrite !replay_app, (silent_replay evs) by done. done.
    + apply log_consistent_app; [apply log_consistent_app; [by apply silent_consistent|]|].
      * rewrite (silent_replay evs) by done. apply log_consistent_commit. by eapply tries_digest.
      * rewrite replay_app, (silent_replay evs) by done. done.
    + exists (S k). split_and!; [simpl; lia| |simpl; rewrite Hiff; lia].
      rewrite !commits_app, Hsil, Hcom. done.
  - pose proof (tries_silent _ _ _ _ _ _ _ _ Ht) as Hsil.
    split_and!; [by apply silent_replay | by apply silent_consistent |].
    exists O. split_and!; [lia | done | done].
Qed.

Lemma admission_silent c : commits (admission_events c) = [].
Proof. unfold admission_events. by destruct (change_kind c). Qed.
End LogTheory.

Section Executions.
Context `{F64Display} `{JsonText} `{SvgHost} `{GeoContractJson} `{Rfc3339}.
Context {X : Type} (executor : X -> WorkflowStep -> string -> N -> result string string * X).

Lemma validate_not_panic w : validate sha256_hex w <> Panic.
Proof.
  unfold validate. destruct (order_cases sha256_hex w) as
    [(e & Ho & _) | [(o & Ho & _) | [(l & Ho & _) | (l & Ho & _)]]]; by rewrite Ho.
Qed.

Lemma validate_change_graceful w c :
  as_fault (validate_change w c) = Ok tt \/ exists e, as_fault (validate_change w c) = Err (Error e).
Proof. unfold as_fault. destruct (validate_change w c) as [[]|e]; [by left | right; by exists e]. Qed.

Lemma validate_change_error w c reason :
  validate_change w c = Err (Invalid reason) -> reason <> "invalid output digest".
Proof.
  intros Hv ->. unfold validate_change, require_digest, err_if, ok_or in Hv.
  repeat (case_match; simpl in Hv; simplify_eq).
Qed.

Lemma order_affected_error w c fuel remaining ordered e :
  order_affected w c fuel remaining ordered = Err e -> e <> bad_output_digest.
Proof.
  revert remaining ordered. induction fuel as [|fuel IH]; intros remaining ordered; simpl;
    case_bool_decide; try done.
  - by intros [= <-].
  - destruct (List.find _ _) as [step|]; simpl; [apply IH|]. by intros [= <-].
Qed.

Lemma affected_error w c e : affected_decisions w c = Err e -> e <> bad_output_digest.
Proof.
  unfold affected_decisions. case_bool_decide; simpl; [by intros [= <-]|].
  destruct (invalidate _ _ _ _); simpl; [|by intros [= <-]]. apply order_affected_error.
Qed.

Lemma prepared_cases w c :
  (exists e, prepared w c = Err (Error e) /\ Error e <> bad_output_digest)
  \/ exists ds, prepared w c = Ok (ds, stable_digest_unchecked w)
       /\ validate sha256_hex w = Done tt /\ validate_change w c = Ok tt
       /\ affected_decisions w c = Ok ds /\ forall d, d ∈ ds -> dec_node d ∈ stable_ids w.
Proof.
  unfold prepared, stable_digest. pose proof (validate_not_panic w) as Hv.
  destruct (validate sha256_hex w) as [[]|e|]; [|left; by exists (InvalidWorkflow e)|done]. simpl.
  destruct (validate_change w c) as [[]|e] eqn:Hc; simpl.
  - destruct (affected_decisions_graceful w c) as [(e & He)|(ds & He & Hds)].
    + left. exists e. rewrite He. split; [done|]. apply affected_error in He. congruence.
    + right. exists ds. by rewrite He.
  - left. exists e. split; [done|]. intros [= ->]. by apply validate_change_error in Hc.
Qed.

(** What [execute] can do: refuse before the first attempt, run to a receipt,
    or stop at a malformed output digest. *)
Lemma execute_cases w c max_retries s env :
  (exists e, execute executor w c max_retries (s, env) = (Err (Error e), (s, env))
     /\ Error e <> bad_output_digest)
  \/ (exists ds evs o env' completed,
        validate sha256_hex w = Done tt /\ validate_change w c = Ok tt
        /\ affected_decisions w c = Ok ds
        /\ run_log executor w (maximum_attempts max_retries) ds (sched_outputs s) env evs o env' completed
        /\ let r := {| rc_schema_version := INCREMENTAL_RECEIPT_SCHEMA_VERSION;
                       rc_workflow_digest := stable_digest_unchecked w;
                       rc_change_digest := digest (change_json c); rc_decisions := ds;
                       rc_events := admission_events c ++ evs; rc_completed := completed;
                       rc_state_digest := digest (outputs_json o) |} in
           execute executor w c max_retries (s, env)
           = (Ok r, (mkScheduler o (sched_history s ++ [r]), env')))
  \/ exists o env', execute executor w c max_retries (s, env)
       = (Err bad_output_digest, (mkScheduler o (sched_history s), env')).
Proof.
  unfold execute.
  destruct (prepared_cases w c) as [(e & -> & Hne)|(ds & -> & Hv & Hc & Ha & Hds)].
  { left. by exists e. }
  destruct (run_decisions_spec executor w max_retries ds
              (mkProgress (sched_outputs s) env (admission_events c)) Hds)
    as [(evs & o & env' & completed & -> & Hl)|(p & ->)].
  - right; left. by exists ds, evs, o, env', completed.
  - right; right. by eexists _, _.
Qed.
End Executions.

(** Schedulers as runs leave them; what the executor does with a run is up to
    it, except that its digests are SHA-256 identities. *)
Inductive operated `{F64Display} `{JsonText} `{SvgHost} `{GeoContractJson} `{Rfc3339}
    : IncrementalScheduler -> Prop :=
| operated_default : operated scheduler_default
| operated_run X (executor : X -> WorkflowStep -> string -> N -> result string string * X)
    w c max_retries s env answer s' env' :
    operated s -> execute executor w c max_retries (s, env) = (answer, (s', env')) ->
    answer <> Err bad_output_digest -> operated s'.

(** ** Properties *)

(** C15: in a valid workflow whose steps spell their identifiers, the nodes
    selected for recomputation are exactly the ones that consume the changed
    input or depend, directly or not, on one that does; each is selected once,
    after every selected node it depends on; the "cyclic" report is never made,
    and the only refusal is that no node consumes the input. *)
Theorem affected_exact `{F64Display} `{JsonText} (sha : string -> string) w c order :
  topological_order sha w = Done order ->
  Forall (fun s => is_blank (stable_id s) = false) (steps w) ->
  ((forall step, step ∈ steps w -> consumes c step = false)
   /\ affected_decisions w c = Err (Error (Invalid "no workflow node consumes changed input")))
  \/ exists ds, affected_decisions w c = Ok ds /\ NoDup (map dec_node ds)
     /\ (forall y, y ∈ map dec_node ds <-> exists step, step ∈ steps w /\ consumes c step = true
           /\ rtc (depends sha w) (stable_id step) y)
     /\ (forall l1 d l2, ds = l1 ++ d :: l2 -> forall a, depends sha w a (dec_node d) ->
           a ∈ map dec_node ds -> a ∈ map dec_node l1)
     /\ Forall (fun d => dec_partition d = win_partition (window c)
                         /\ dec_reason d = reason_text (change_kind c)) ds.
Proof.
  intros Ho Hf.
  assert (Hne : steps w <> []).
  { intros Hs. unfold topological_order in Ho. by rewrite Hs in Ho. }
  unfold affected_decisions. case_bool_decide as Hdirect; simpl; [left|right].
  { split; [|done]. intros step Hs. apply not_true_is_false. intros Hc.
    assert (Hin : stable_id step ∈ direct_consumers w c) by (apply elem_of_direct; eauto).
    rewrite Hdirect in Hin. set_solver. }
  destruct (affected_reachable w c) as (found & -> & Hreach & Hids). simpl.
  destruct (order_affected_spec w c (size found) found []) as (ds & Hrun & Hp & Hfields & Hord);
    [by intros ? ?%not_elem_of_nil | | done |].
  { intros r Hsub Hr. apply (first_affected_ready sha w order); try done. set_solver. }
  assert (Hmem : forall y, y ∈ map dec_node ds <-> y ∈ found).
  { intros y. by rewrite Hp, elem_of_elements. }
  exists ds. split_and!; [done | rewrite Hp; apply NoDup_elements | | | by apply Forall_forall].
  - intros y. rewrite Hmem, Hreach. setoid_rewrite elem_of_direct. split.
    + intros (x & (s & Hs & Hc & <-) & Hr). exists s. split_and!; [done|done|].
      eapply rtc_subrel; [|exact Hr]. intros a b. by apply spelled_depends.
    + intros (s & Hs & Hc & Hr). exists (stable_id s). split; [by exists s|].
      eapply rtc_subrel; [|exact Hr]. intros a b. by apply spelled_depends.
  - intros l1 d l2 Heq a Ha Hin. destruct (Hord l1 d l2 Heq) as (s & Hs & Hid & Hbefore).
    apply Hbefore; [|by apply Hmem].
    by apply (spelled_step sha w order s a (dec_node d)).
Qed.

(** C19: after any sequence of runs whose executors answer with SHA-256
    identities (or fail), the scheduler's outputs are the ones obtained by
    replaying its history from nothing; every commit in it states the digest it
    replaced at that point; every receipt commits a prefix of its decisions, all
    of them exactly when it says it completed; and every receipt's state digest
    is that of the outputs the history had built when it was issued. *)
Theorem scheduler_history `{F64Display} `{JsonText} `{SvgHost} `{GeoContractJson} `{Rfc3339} s :
  operated s ->
  sched_outputs s = replay_log ∅ (history_events (sched_history s))
  /\ log_consistent ∅ (history_events (sched_history s))
  /\ Forall receipt_sound (sched_history s)
  /\ forall h1 r h2, sched_history s = h1 ++ r :: h2 ->
       rc_state_digest r = digest (outputs_json (replay_log ∅ (history_events (h1 ++ [r])))).
Proof.
  induction 1 as [|X executor w c max_retries s env answer s' env' Hs (Hout & Hlog & Hsound & Hdig) He Hbad].
  { split_and!; [done | by apply silent_consistent | constructor | by intros [|? ?] ? ?]. }
  destruct (execute_cases executor w c max_retries s env) as
    [(e & He' & _)|[(ds & evs & o & env1 & completed & _ & _ & _ & Hl & He')|(o & env1 & He')]];
    cbv zeta in He'; rewrite He in He'; [by simplify_eq| |by simplify_eq].
  pose proof (admission_silent c) as Hsil.
  remember (admission_events c) as adm eqn:Hadm. clear Hadm. simplify_eq.
  apply run_log_sound in Hl as (Hr & Hc & k & Hk & Hcom & Hiff).
  unfold history_events in *. simpl.
  rewrite map_app, concat_app. simpl. rewrite app_nil_r. split_and!.
  - by rewrite !replay_app, (silent_replay adm), <-Hout, Hr.
  - apply log_consistent_app; [done|]. rewrite <-Hout.
    apply log_consistent_app; [by apply silent_consistent|]. by rewrite silent_replay.
  - apply Forall_app. split; [done|]. apply Forall_singleton. exists k. simpl.
    by rewrite commits_app, Hsil, Hcom.
  - intros h1 r h2 Heq. destruct (list_last_split h2 h1 r _ _ Heq) as [(h2' & -> & Hh)|(-> & -> & ->)].
    + by eapply Hdig.
    + simpl. rewrite map_app, concat_app. simpl. rewrite app_nil_r.
      by rewrite !replay_app, (silent_replay adm), <-Hout, Hr.
Qed.

(** A run that fails never panics and never adds to the history; unless the
    executor answered with a malformed output digest, the scheduler and the
    executor's state are exactly as before. *)
Theorem failed_run_is_recorded_nowhere `{F64Display} `{JsonText} `{SvgHost} `{GeoContractJson} `{Rfc3339}
    {X} (executor : X -> WorkflowStep -> string -> N -> result string string * X)
    w c max_retries s env e s' env' :
  execute executor w c max_retries (s, env) = (Err e, (s', env')) ->
  e <> Panicked /\ sched_history s' = sched_history s
  /\ (e <> bad_output_digest -> s' = s /\ env' = env).
Proof.
  intros He.
  destruct (execute_cases executor w c max_retries s env) as
    [(e' & He' & _)|[(ds & evs & o & env1 & completed & _ & _ & _ & Hl & He')|(o & env1 & He')]];
    cbv zeta in He'; rewrite He in He'; by simplify_eq.
Qed.

(** ** Concrete runs *)

#[local] Instance run_display : F64Display := fun _ => "".
#[local] Instance run_text : JsonText := plain_text.
#[local] Instance run_host : SvgHost := plain_host.
#[local] Instance run_contract : GeoContractJson := plain_contract.
#[local] Instance run_times : Rfc3339 := fun _ => Some 0%Z.

Definition digest_a : string :=
  "sha256:aaaaaaaaaaaaaaaaaaaaaaaaaaaaaaaaaaaaaaaaaaaaaaaaaaaaaaaaaaaaaaaa".
Definition wards_change : IncrementalChange :=
  {| input_name := "wards"; snapshot_digest := digest_a; change_kind := Append;
     window := {| win_partition := "ward-1"; cursor_start := 10; cursor_end := 11;
                  watermark_start := "t0"; watermark_end := "t1" |} |}.

(** An executor that fails the first time it is called, and one that answers
    with malformed digests for the second node *)
Definition flaky (calls : N) (step : WorkflowStep) (partition : string) (attempt : N)
    : result string string * N :=
  (if calls =? 0 then Err "transient" else Ok digest_a, calls + 1).
Definition sloppy (_ : unit) (step : WorkflowStep) (partition : string) (attempt : N)
    : result string string * unit :=
  (if bool_decide (stable_id step = "density") then Ok "done" else Ok digest_a, tt).

Definition flaky_run := execute flaky density_workflow wards_change 1 (scheduler_default, 0).
Definition exhausted_run := execute flaky density_workflow wards_change 0 (scheduler_default, 0).

Lemma affected_exact_witness :
  affected_decisions density_workflow wards_change
    = Ok [mkDecision "area" "ward-1" "input_append"; mkDecision "density" "ward-1" "input_append"]
  /\ exists ds, affected_decisions density_workflow wards_change = Ok ds /\ NoDup (map dec_node ds).
Proof.
  split; [by vm_compute|].
  destruct (affected_exact (fun s => s) density_workflow wards_change ["area"; "population"; "density"])
    as [[Hn _]|(ds & Hds & Hnd & _)].
  - by vm_compute.
  - apply (bool_decide_unpack _). by vm_compute.
  - exfalso. by specialize (Hn _ (list_elem_of_lookup_2 (steps density_workflow) 2 _ eq_refl)).
  - exists ds. exact (conj Hds Hnd).
Defined.

Lemma scheduler_history_witness :
  exists r s n, flaky_run = (Ok r, (s, n)) /\ rc_completed r = true /\ length (rc_events r) = 7%nat
    /\ sched_outputs s = replay_log ∅ (history_events (sched_history s)).
Proof.
  destruct flaky_run as [answer [s n]] eqn:Hrun.
  assert (Hop : answer <> Err bad_output_digest -> operated s).
  { intros Ha. eapply (operated_run N flaky density_workflow wards_change 1 scheduler_default 0);
      [constructor | exact Hrun | exact Ha]. }
  assert (Hr : exists r, answer = Ok r /\ rc_completed r = true /\ length (rc_events r) = 7%nat).
  { change answer with (fst (answer, (s, n))). rewrite <-Hrun.
    eexists. split; [vm_compute; reflexivity|]. split; reflexivity. }
  destruct Hr as (r & -> & Hc & Hl). exists r, s, n. split_and!; [done|done|done|].
  by apply scheduler_history, Hop.
Defined.

Lemma failed_run_is_recorded_nowhere_witness :
  let c := {| input_name := "roads"; snapshot_digest := digest_a; change_kind := Append;
              window := window wards_change |} in
  exists e s n, execute flaky density_workflow c 1 (scheduler_default, 0) = (Err e, (s, n))
    /\ s = scheduler_default /\ n = 0.
Proof.
  intros c. destruct (execute flaky density_workflow c 1 (scheduler_default, 0)) as [answer [s n]] eqn:Hrun.
  assert (Ha : answer = Err (Error (Invalid "input, partition, or cursor window is invalid"))).
  { change answer with (fst (answer, (s, n))). rewrite <-Hrun. by vm_compute. }
  subst answer. eexists _, s, n. split; [done|].
  by apply (failed_run_is_recorded_nowhere flaky density_workflow c 1 scheduler_default 0 _ s n Hrun).
Defined.

(** An exhausted budget stops the run, with a receipt that says so. *)
Example exhausted_receipt :
  exists r, exhausted_run.1 = Ok r /\ rc_completed r = false
    /\ rc_events r = [WindowAdmitted (window wards_change); Attempt "area" "ward-1" 1;
                      RunFailed "area" "ward-1" 1 "transient"].
Proof. eexists. split; [vm_compute; reflexivity | by vm_compute]. Qed.

(** A malformed output digest ends the run with an error although the outputs of
    earlier nodes were committed: they are in no receipt. *)
Theorem malformed_digest_leaves_outputs :
  exists s, execute sloppy density_workflow wards_change 0 (scheduler_default, tt)
    = (Err bad_output_digest, (s, tt))
    /\ sched_history s = [] /\ output_digest s "area" "ward-1" = Some digest_a.
Proof. eexists. split; [vm_compute; reflexivity | by vm_compute]. Qed.

(** Steps that leave their identifier to be generated are all called by the
    empty identifier here: downstream nodes are not invalidated. *)
Definition unnamed_workflow : GeoWorkflow :=
  let first := example_step "" "Area" [] [ref_input "wards"] [] in
  let id := node_id sha256_hex first in
  let first := example_step "" "Area" [] [ref_input "wards"] [ref_output id "result"] in
  let second := example_step "density" "Divide" [id] [ref_output id "result"] [ref_output "density" "result"] in
  example_workflow [with_crs jgd2011 (input_contract_new "wards")] [first; second]
    [ref_output "density" "result"].
Theorem unnamed_step_hides_downstream :
  validate sha256_hex unnamed_workflow = Done tt
  /\ affected_decisions unnamed_workflow wards_change = Ok [mkDecision "" "ward-1" "input_append"].
Proof. split; vm_compute; reflexivity. Qed.
