(* ===== verification/WalkNetwork.v ===== *)
(** * Walk-network routing (crates/genegis-network/src/lib.rs)

    A routable graph read from GeoJSON lines, snapping, and Dijkstra's algorithm
    over binary64 minutes. Parsing JSON text (serde_json) and the cosine are
    parameters; [BinaryHeap] is the interface [Heap], whose laws are its
    documentation. A panic, or fuel that ran out, is [Panic]. *)

From S2P Require Import Prelude RustStd Ordering Rounding Crs Json.
Local Open Scope N_scope.

(** ** Data *)

Inductive NetworkError :=
| Storage (text : string)
| Invalid (text : string)
| Routing (text : string).

Abbreviation coord := (f64 * f64)%type.
(** (neighbour node index, cost minutes) *)
Abbreviation arc := (N * f64)%type.

Record WalkGraph := mkWalkGraph {
  wg_nodes : list coord;
  wg_adjacency : list (list arc);
  wg_edge_count : N;
  wg_total_length_m : f64;
  wg_walk_speed : f64 }.

(** [serde_json::from_str], the value of a JSON number, [f64::cos] *)
Class NetworkHost := {
  parse_json : string -> result string json;
  number_f64 : string -> f64;
  f64_cos : f64 -> f64 }.

(** ** Values of the standard library and of serde_json *)

(** [f64::to_radians], [f64::sqrt] *)
Definition f64_pi : f64 := f64_lit 7074237752028440 (-51).
Definition to_radians (x : f64) : f64 := f64_mul x (f64_div f64_pi (f64_of_Z 180)).
Definition f64_sqrt : f64 -> f64 := SFsqrt 53 1024.

(** [x.round() as i64]: half away from zero, saturating, NaN to zero *)
Definition i64_saturate (z : Z) : Z := Z.max (- 2 ^ 63) (Z.min z (2 ^ 63 - 1)).
Definition round_i64 (x : f64) : Z :=
  match x with
  | S754_zero _ | S754_nan => 0
  | S754_infinity s => i64_saturate (if s then - 2 ^ 64 else 2 ^ 64)
  | S754_finite s m e =>
      let magnitude := if (0 <=? e)%Z then Z.pos m * 2 ^ e
                       else (2 * Z.pos m + 2 ^ (- e)) / 2 ^ (1 - e) in
      i64_saturate (if s then - magnitude else magnitude)
  end%Z.

(** [Value::as_str], [as_array], [as_f64] *)
Definition as_str (v : json) : option string := match v with JString s => Some s | _ => None end.
Definition as_array (v : json) : option (list json) := match v with JArray l => Some l | _ => None end.
Definition as_f64 `{NetworkHost} (v : json) : option f64 :=
  match v with JNumber n => Some (number_f64 n) | _ => None end.

(** ** Lengths *)

Definition METERS_PER_DEG_LAT : f64 := f64_of_Z 111320.

Section Network.
Context `{F64Display} `{NetworkHost}.

Definition meters_per_deg_lon (lat : f64) : f64 := f64_mul METERS_PER_DEG_LAT (f64_cos (to_radians lat)).

Definition segment_length_m (from to : coord) : f64 :=
  let dlon := f64_mul (f64_abs (f64_sub to.1 from.1))
                (meters_per_deg_lon (f64_div (f64_add from.2 to.2) (f64_of_Z 2))) in
  let dlat := f64_mul (f64_abs (f64_sub to.2 from.2)) METERS_PER_DEG_LAT in
  f64_sqrt (f64_add (f64_mul dlon dlon) (f64_mul dlat dlat)).

(** ** Reading a graph *)

(** The maps the reading loop builds *)
Record building := mkBuilding {
  b_nodes : list coord;
  b_index : gmap (Z * Z) N;
  b_edges : list ((N * N) * f64);
  b_length : f64 }.

Definition quantize (value : f64) : Z := round_i64 (f64_mul value (f64_of_Z 1000000)).

(** The node at a coordinate, a new one if there is none within rounding *)
Definition node_at (lon lat : f64) (b : building) : N * building :=
  let key := (quantize lon, quantize lat) in
  match b_index b !! key with
  | Some existing => (existing, b)
  | None =>
      let index := wrap 32 (N.of_nat (length (b_nodes b))) in
      (index, mkBuilding (b_nodes b ++ [(lon, lat)]) (<[key := index]> (b_index b)) (b_edges b) (b_length b))
  end.

(** An index into the nodes; only a graph of more than [2^32] nodes could have
    one out of range. *)
Definition node_coord (b : building) (index : N) : coord :=
  default (S754_zero false, S754_zero false) (b_nodes b !! N.to_nat index).

Definition add_coord (walk_speed : f64) (declared_walk_min : option f64) (segments : f64)
    (acc : option N * building) (coord : json) : result NetworkError (option N * building) :=
  let '(previous, b) := acc in
  values ← ok_or (as_array coord) (Invalid "coordinate pair expected");
  lon ← ok_or (head values ≫= as_f64) (Invalid "longitude missing");
  lat ← ok_or ((values !! 1%nat) ≫= as_f64) (Invalid "latitude missing");
  let '(index, b) := node_at lon lat b in
  let b := match previous with
    | Some from =>
        let len := segment_length_m (node_coord b from) (node_coord b index) in
        let cost := match declared_walk_min with
          | Some total => f64_div total (f64_max segments (f64_of_Z 1))
          | None => f64_div len walk_speed end in
        mkBuilding (b_nodes b) (b_index b) (b_edges b ++ [((from, index), cost)])
          (f64_add (b_length b) len)
    | None => b end in
  Ok (Some index, b).

Definition add_feature (walk_speed : f64) (b : building) (feature : json) : result NetworkError building :=
  geometry ← ok_or (json_get "geometry" feature) (Invalid "feature without geometry");
  if negb (bool_decide ((json_get "type" geometry ≫= as_str) = Some "LineString")) then Ok b
  else
    coords ← ok_or (json_get "coordinates" geometry ≫= as_array)
               (Invalid "LineString without coordinates");
    let declared_walk_min :=
      (json_get "properties" feature ≫= json_get "walk_min") ≫= as_f64 in
    let segments := f64_of_Z (Z.of_nat (length coords - 1)) in
    '(_, b) ← try_fold (add_coord walk_speed declared_walk_min segments) (None, b) coords;
    Ok b.

(** [adjacency[from].push((to, cost)); adjacency[to].push((from, cost))] *)
Definition push_arc (from to : N) (cost : f64) (adjacency : list (list arc)) : list (list arc) :=
  alter (fun l => l ++ [(to, cost)]) (N.to_nat from) adjacency.
Definition push_edge (adjacency : list (list arc)) (e : (N * N) * f64) : list (list arc) :=
  let '((from, to), cost) := e in push_arc to from cost (push_arc from to cost adjacency).

Definition from_geojson_str (text : string) : result NetworkError WalkGraph :=
  parsed ← map_err Invalid (parse_json text);
  err_if (negb (bool_decide ((json_get "type" parsed ≫= as_str) = Some "FeatureCollection")))
    (Invalid "expected a FeatureCollection of LineString features");;
  let walk_speed := default (f64_of_Z 80) (json_get "walk_speed_m_per_min" parsed ≫= as_f64) in
  err_if (f64_leb walk_speed f64_zero) (Invalid "non-positive walk speed");;
  features ← ok_or (json_get "features" parsed ≫= as_array) (Invalid "missing features array");
  b ← try_fold (add_feature walk_speed) (mkBuilding [] ∅ [] f64_zero) features;
  err_if (bool_decide (b_nodes b = []) || bool_decide (b_edges b = []))
    (Invalid "network produced no routable nodes or edges");;
  Ok {| wg_nodes := b_nodes b;
        wg_adjacency := foldl push_edge (replicate (length (b_nodes b)) []) (b_edges b);
        wg_edge_count := N.of_nat (length (b_edges b));
        wg_total_length_m := b_length b; wg_walk_speed := walk_speed |}.

(** ** Queries *)

Definition node_count (g : WalkGraph) : N := N.of_nat (length (wg_nodes g)).
Definition total_length_km (g : WalkGraph) : f64 := f64_div (wg_total_length_m g) (f64_of_Z 1000).

(** The nearest node: the first one no later one is closer than *)
Definition nearer (lat_scale px py : f64) (best : option N * f64) (entry : nat * coord) : option N * f64 :=
  let '(index, (lon, lat)) := entry in
  let dx := f64_sub (f64_mul lon lat_scale) px in
  let dy := f64_sub (f64_mul lat METERS_PER_DEG_LAT) py in
  let distance := f64_add (f64_mul dx dx) (f64_mul dy dy) in
  if f64_ltb distance best.2 then (Some (wrap 32 (N.of_nat index)), distance) else best.
Definition snap_node (g : WalkGraph) (point : coord) : result NetworkError N :=
  let lat_scale := f64_max (meters_per_deg_lon point.2) (f64_lit 4835703278458517 (-82)) in
  let best := foldl (nearer lat_scale (f64_mul point.1 lat_scale) (f64_mul point.2 METERS_PER_DEG_LAT))
                (None, f64_infinity) (imap pair (wg_nodes g)) in
  ok_or best.1 (Routing "graph has no nodes").
End Network.

(** ** Dijkstra *)

(** An entry of the queue *)
Abbreviation entry := (f64 * N)%type.

(** What [BinaryHeap] promises about [pop], with the order of [QueueEntry]: the
    least cost, and among equal costs the greatest node. *)
Definition entry_before (a b : entry) : Prop :=
  f64_ltb a.1 b.1 = true \/ (f64_eqb a.1 b.1 = true /\ b.2 <= a.2).
Class Heap (E : Type) (key : E -> entry) := {
  heap_pop : list E -> option (E * list E);
  heap_pop_none : forall l, heap_pop l = None <-> l = [];
  heap_pop_perm : forall l x k, heap_pop l = Some (x, k) -> l ≡ₚ x :: k;
  heap_pop_first : forall l x k, Forall (fun e => is_number (key e).1 = true) l ->
    heap_pop l = Some (x, k) -> forall y, y ∈ k -> entry_before (key x) (key y) }.

Section Dijkstra.
Context `{Heap entry id}.

(** [for &(neighbour, edge_cost) in &self.adjacency[entry.node]] *)
Fixpoint relax_arcs (cost : f64) (arcs : list arc) (distances : list (option f64)) (heap : list entry)
    : option (list (option f64) * list entry) :=
  match arcs with
  | [] => Some (distances, heap)
  | (neighbour, edge_cost) :: arcs =>
      let next := f64_add cost edge_cost in
      known ← distances !! N.to_nat neighbour;
      if match known with None => true | Some known => f64_ltb next known end
      then relax_arcs cost arcs (<[N.to_nat neighbour := Some next]> distances)
             (heap ++ [(next, neighbour)])
      else relax_arcs cost arcs distances heap
  end.

(** [while let Some(entry) = heap.pop()] *)
Fixpoint settle (g : WalkGraph) (fuel : nat) (distances : list (option f64)) (heap : list entry)
    : option (list (option f64)) :=
  match heap_pop heap with
  | None => Some distances
  | Some ((cost, node), heap) =>
      match fuel with
      | O => None
      | S fuel =>
          known ← distances !! N.to_nat node;
          if match known with Some known => f64_ltb known cost | None => false end
          then settle g fuel distances heap
          else
            arcs ← wg_adjacency g !! N.to_nat node;
            '(distances, heap) ← relax_arcs cost arcs distances heap;
            settle g fuel distances heap
      end
  end.

(** One pop for the origin and one for every arc that is relaxed *)
Definition search_fuel (g : WalkGraph) : nat := S (sum_list_with length (wg_adjacency g)).

Definition travel_times_from (g : WalkGraph) (origin : N) : option (list (option f64)) :=
  let distances := replicate (length (wg_nodes g)) None in
  _ ← distances !! N.to_nat origin;
  settle g (search_fuel g) (<[N.to_nat origin := Some f64_zero]> distances) [(f64_zero, origin)].

Definition route_minutes (g : WalkGraph) (from to : N) : option (result NetworkError f64) :=
  times ← travel_times_from g from;
  Some (ok_or (mjoin (times !! N.to_nat to))
          (Routing ("node " +:+ show_N to +:+ " is unreachable from " +:+ show_N from))).

Definition arrives_within (times : list (option f64)) (threshold : f64) (poi : N) : bool :=
  match mjoin (times !! N.to_nat poi) with
  | Some minutes => f64_leb minutes threshold
  | None => false
  end.
Definition cumulative_opportunities (g : WalkGraph) (origin : N) (poi_nodes : list N) (threshold : f64)
    : option N :=
  times ← travel_times_from g origin;
  Some (N.of_nat (length (filter (fun poi => arrives_within times threshold poi = true) poi_nodes))).
End Dijkstra.

(** ** Hazard penalties *)

Section Scaling.
Context `{F64Display} {X : Type} (factor : X -> coord -> coord -> N -> N -> f64 * X).

Definition slightly_over_one : f64 := f64_add (f64_of_Z 1) (f64_lit 4951760157141521 (-92)).

(** The slots of one node; [None] is an index out of bounds. The arcs are
    returned next to an error too: those before it have been scaled. *)
Fixpoint scale_row (nodes : list coord) (from_index : N) (from : coord) (arcs : list arc) (x : X) (scaled : N)
    : option (list arc * X * result NetworkError N) :=
  match arcs with
  | [] => Some ([], x, Ok scaled)
  | (to_index, cost) :: arcs =>
      to ← nodes !! N.to_nat to_index;
      let '(f, x) := factor x from to from_index to_index in
      if negb (f64_is_finite f) || f64_ltb f f64_zero
      then Some ((to_index, cost) :: arcs, x,
                 Err (Invalid ("edge cost factor must be finite and non-negative, got " +:+ f64_display f)))
      else
        let scaled := if f64_ltb slightly_over_one f && (from_index <? to_index) then scaled + 1 else scaled in
        '(arcs, x, r) ← scale_row nodes from_index from arcs x scaled;
        Some ((to_index, f64_mul cost f) :: arcs, x, r)
  end.

Fixpoint scale_rows (nodes : list coord) (from_index : N) (rows : list (list arc)) (x : X) (scaled : N)
    : option (list (list arc) * X * result NetworkError N) :=
  match rows with
  | [] => Some ([], x, Ok scaled)
  | row :: rows =>
      from ← nodes !! N.to_nat from_index;
      '(row, x, r) ← scale_row nodes from_index from row x scaled;
      match r with
      | Err e => Some (row :: rows, x, Err e)
      | Ok scaled =>
          '(rows, x, r) ← scale_rows nodes (from_index + 1) rows x scaled;
          Some (row :: rows, x, r)
      end
  end.

Definition scale_edge_costs (g : WalkGraph) (x : X) : option (WalkGraph * X * result NetworkError N) :=
  '(rows, x, r) ← scale_rows (wg_nodes g) 0 (wg_adjacency g) x 0;
  Some ({| wg_nodes := wg_nodes g; wg_adjacency := rows; wg_edge_count := wg_edge_count g;
           wg_total_length_m := wg_total_length_m g; wg_walk_speed := wg_walk_speed g |}, x, r).
End Scaling.

(** ** Shortest routes *)

(** A graph whose arcs lead to its nodes and cost a non-negative number *)
Record graph_ok (g : WalkGraph) : Prop := {
  ok_rows : length (wg_adjacency g) = length (wg_nodes g);
  ok_arcs : forall u arcs v w, wg_adjacency g !! u = Some arcs -> (v, w) ∈ arcs ->
    (N.to_nat v < length (wg_nodes g))%nat /\ nonneg w = true }.

(** The costs of the routes from a node, summed from the origin on *)
Inductive route (g : WalkGraph) (origin : N) : nat -> f64 -> Prop :=
| route_here : route g origin (N.to_nat origin) f64_zero
| route_arc u c arcs v w :
    route g origin u c -> wg_adjacency g !! u = Some arcs -> (v, w) ∈ arcs ->
    route g origin (N.to_nat v) (f64_add c w).

Lemma route_nonneg g origin u c : graph_ok g -> route g origin u c -> nonneg c = true.
Proof.
  intros Hg. induction 1 as [|u c arcs v w _ IH Ha Hin]; [done|].
  apply add_nonneg; [done|]. by eapply (ok_arcs g Hg).
Qed.

Lemma route_in_range g origin u c :
  graph_ok g -> (N.to_nat origin < length (wg_nodes g))%nat -> route g origin u c ->
  (u < length (wg_nodes g))%nat.
Proof.
  intros Hg Ho. induction 1 as [|u c arcs v w _ IH Ha Hin]; [done|]. by apply (ok_arcs g Hg u arcs v w).
Qed.

Section RelaxTheory.
Context `{Heap entry id}.

(** The distance known for a node *)
Definition dist (D : list (option f64)) (u : nat) (c : f64) : Prop := D !! u = Some (Some c).

Definition ekey (e : entry) : Z * N := (units e.1, e.2).

(** What relaxing the arcs of a node of cost [cost] does to the distances [D]
    and which entries it queues *)
Record relaxed (cost : f64) (arcs : list arc) (D : list (option f64)) (D' : list (option f64))
    (new : list entry) : Prop := {
  rx_length : length D' = length D;
  rx_few : (length new <= length arcs)%nat;
  rx_new : forall c v, (c, v) ∈ new -> exists w, (v, w) ∈ arcs /\ c = f64_add cost w;
  rx_dist : forall u c, dist D' u c -> dist D u c \/ (c, N.of_nat u) ∈ new;
  rx_mono : forall u c, dist D u c -> exists c', dist D' u c' /\ (units c' <= units c)%Z;
  rx_arcs : forall v w, (v, w) ∈ arcs ->
    exists k, dist D' (N.to_nat v) k /\ (units k <= units (f64_add cost w))%Z;
  rx_queued : forall c v, (c, v) ∈ new -> exists k, dist D' (N.to_nat v) k /\ (units k <= units c)%Z;
  rx_better : forall c v k, (c, v) ∈ new -> dist D (N.to_nat v) k -> (units c < units k)%Z;
  rx_nodup : NoDup (map ekey new) }.

Lemma dist_insert D i c u k : (i < length D)%nat ->
  dist (<[i := Some c]> D) u k <-> (u = i /\ k = c) \/ (u <> i /\ dist D u k).
Proof.
  intros Hi. unfold dist. destruct (decide (u = i)) as [->|Hne].
  - rewrite list_lookup_insert_eq by done. split; [intros [= ->]; by left|].
    intros [[_ ->]|[? _]]; done.
  - rewrite list_lookup_insert_ne by done. split; [by right|]. by intros [[? _]|[_ ?]].
Qed.

Lemma dist_fun D u c k : dist D u c -> dist D u k -> c = k.
Proof. unfold dist. congruence. Qed.

Lemma relaxed_skip cost v w arcs D D' new k :
  dist D (N.to_nat v) k -> (units k <= units (f64_add cost w))%Z ->
  relaxed cost arcs D D' new -> relaxed cost ((v, w) :: arcs) D D' new.
Proof.
  intros Hk Hle [H1 H2 H3 H4 H5 H6 H7 H8 H9]. constructor; try done.
  - simpl. lia.
  - intros c x Hin. destruct (H3 c x Hin) as (w' & ? & ?). exists w'. split; [|done].
    by apply list_elem_of_further.
  - intros x y [[= -> ->]|Hin]%elem_of_cons; [|by apply H6].
    destruct (H5 _ _ Hk) as (k' & Hk' & ?). exists k'. split; [done | lia].
Qed.

Lemma relaxed_push cost v w arcs D D' new :
  let next := f64_add cost w in
  (N.to_nat v < length D)%nat -> (forall k, dist D (N.to_nat v) k -> (units next < units k)%Z) ->
  relaxed cost arcs (<[N.to_nat v := Some next]> D) D' new ->
  relaxed cost ((v, w) :: arcs) D D' ((next, v) :: new).
Proof.
  intros next Hlt Hbetter [H1 H2 H3 H4 H5 H6 H7 H8 H9].
  assert (Hv : exists k, dist D' (N.to_nat v) k /\ (units k <= units next)%Z).
  { apply H5. apply dist_insert; [done|]. by left. }
  constructor.
  - by rewrite H1, length_insert.
  - simpl. lia.
  - intros c x [[= -> ->]|Hin]%elem_of_cons.
    + exists w. split; [apply list_elem_of_here | done].
    + destruct (H3 c x Hin) as (w' & ? & ?). exists w'. split; [by apply list_elem_of_further | done].
  - intros u c Hu. destruct (H4 u c Hu) as [Hd|Hin]; [|right; by apply list_elem_of_further].
    apply dist_insert in Hd as [[-> ->]|[_ Hd]]; [|by left|done].
    right. rewrite N2Nat.id. apply list_elem_of_here.
  - intros u c Hu. destruct (decide (u = N.to_nat v)) as [->|Hne].
    + destruct Hv as (k & Hk & Hle). exists k. split; [done|]. specialize (Hbetter c Hu). lia.
    + apply H5. apply dist_insert; [done|]. by right.
  - intros x y [[= -> ->]|Hin]%elem_of_cons; [done | by apply H6].
  - intros c x [[= -> ->]|Hin]%elem_of_cons; [done | by apply H7].
  - intros c x k Hin Hk. apply elem_of_cons in Hin as [Heq|Hin].
    { injection Heq as -> ->. by apply Hbetter. }
    destruct (decide (N.to_nat x = N.to_nat v)) as [Heq|Hne].
    + assert (Hc : (units c < units next)%Z).
      { apply (H8 c x); [done|]. apply dist_insert; [done|]. by left. }
      specialize (Hbetter k). rewrite <-Heq in Hbetter. specialize (Hbetter Hk). lia.
    + apply (H8 c x); [done|]. apply dist_insert; [done|]. by right.
  - simpl. apply NoDup_cons. split; [|done]. intros ([c x] & Heq & Hin)%list_elem_of_fmap.
    unfold ekey in Heq. injection Heq as Hc ->. simpl in Hc.
    assert ((units c < units next)%Z); [|lia].
    apply (H8 c x); [done|]. apply dist_insert; [done|]. by left.
Qed.

Lemma relax_arcs_spec cost arcs : forall D heap,
  nonneg cost = true -> (forall u c, dist D u c -> nonneg c = true) ->
  (forall v w, (v, w) ∈ arcs -> (N.to_nat v < length D)%nat /\ nonneg w = true) ->
  exists D' new, relax_arcs cost arcs D heap = Some (D', heap ++ new) /\ relaxed cost arcs D D' new.
Proof.
  induction arcs as [|[v w] arcs IH]; intros D heap Hc HD Ha.
  { exists D, []. split; [simpl; by rewrite app_nil_r|].
    constructor; simpl.
    - done.
    - lia.
    - by intros c v ?%not_elem_of_nil.
    - by left.
    - intros u c Hu. by exists c.
    - by intros v w ?%not_elem_of_nil.
    - by intros c v ?%not_elem_of_nil.
    - by intros c v k ?%not_elem_of_nil.
    - constructor. }
  destruct (Ha v w) as [Hv Hw]; [apply list_elem_of_here|].
  assert (Hrest : forall v w, (v, w) ∈ arcs -> (N.to_nat v < length D)%nat /\ nonneg w = true).
  { intros x y Hin. apply Ha. by apply list_elem_of_further. }
  destruct (add_nonneg cost w Hc Hw) as [Hn _]. cbn [relax_arcs].
  destruct (lookup_lt_is_Some_2 D (N.to_nat v) Hv) as [known Hknown]. rewrite Hknown. simpl.
  destruct (match known with None => true | Some known => f64_ltb (f64_add cost w) known end) eqn:Hb.
  - destruct (IH (<[N.to_nat v := Some (f64_add cost w)]> D) (heap ++ [(f64_add cost w, v)]))
      as (D' & new & -> & Hr).
    + done.
    + intros u c [[_ ->]|[_ Hu]]%dist_insert; [done | by eapply HD | done].
    + intros x y Hin. rewrite length_insert. by apply Hrest.
    + eexists D', (_ :: new). rewrite <-app_assoc. split; [reflexivity|]. apply relaxed_push; [done| |done].
      intros k Hk. unfold dist in Hk. rewrite Hknown in Hk. injection Hk as ->.
      apply ltb_units; [done | by eapply HD | done].
  - destruct known as [known|]; [|done].
    destruct (IH D heap) as (D' & new & -> & Hr); [done..|].
    exists D', new. split; [done|]. apply (relaxed_skip _ _ _ _ _ _ _ known); [done| |done].
    apply Z.nlt_ge. rewrite <-ltb_units; [by rewrite Hb | done | by eapply HD].
Qed.
End RelaxTheory.

(** ** The search *)

Section SearchTheory.
Context `{Heap entry id} (g : WalkGraph) (origin : N) (g_ok : graph_ok g).

Definition out_degree (u : nat) : nat := length (default [] (wg_adjacency g !! u)).
(** The arcs of the nodes that have not been settled *)
Definition pending_at (settled : gset nat) (u : nat) : nat :=
  if decide (u ∈ settled) then O else out_degree u.
Definition pending (settled : gset nat) : nat :=
  sum_list_with (pending_at settled) (seq 0 (length (wg_nodes g))).

(** [D] knows routes; the queue holds them with the distances still to be
    settled; [settled] nodes are final, at most [L] away, and their arcs relaxed. *)
Record searching (D : list (option f64)) (heap : list entry) (settled : gset nat) (L : Z) : Prop := {
  se_length : length D = length (wg_nodes g);
  se_dist : forall u c, dist D u c -> route g origin u c;
  se_heap : forall c v, (c, v) ∈ heap -> route g origin (N.to_nat v) c /\ (L <= units c)%Z
    /\ exists k, dist D (N.to_nat v) k /\ (units k <= units c)%Z;
  se_open : forall u c, dist D u c -> u ∉ settled ->
    exists c', (c', N.of_nat u) ∈ heap /\ units c' = units c;
  se_settled : forall u, u ∈ settled -> exists c, dist D u c /\ (units c <= L)%Z
    /\ (forall c', (c', N.of_nat u) ∈ heap -> (units c < units c')%Z)
    /\ forall arcs v w, wg_adjacency g !! u = Some arcs -> (v, w) ∈ arcs ->
         exists k, dist D (N.to_nat v) k /\ (units k <= units (f64_add c w))%Z;
  se_nodup : NoDup (map ekey heap) }.

Lemma pending_others settled u l : u ∉ l ->
  sum_list_with (pending_at ({[u]} ∪ settled)) l = sum_list_with (pending_at settled) l.
Proof.
  induction l as [|y l IH]; intros Hu; [done|]. simpl. rewrite IH by set_solver. f_equal.
  unfold pending_at. destruct (decide (y ∈ settled)); [by rewrite decide_True by set_solver|].
  by rewrite decide_False by set_solver.
Qed.

Lemma pending_settle settled u : (u < length (wg_nodes g))%nat -> u ∉ settled ->
  (pending ({[u]} ∪ settled) + out_degree u = pending settled)%nat.
Proof.
  intros Hu Hs. unfold pending.
  assert (Hin : u ∈ seq 0 (length (wg_nodes g))) by (apply elem_of_seq; lia).
  pose proof (NoDup_seq 0 (length (wg_nodes g))) as Hnd. revert Hin Hnd.
  induction (seq _ _) as [|x l IH]; intros Hin Hnd; [by apply not_elem_of_nil in Hin|].
  apply NoDup_cons in Hnd as [Hx Hnd]. simpl. destruct (decide (x = u)) as [->|Hne].
  - rewrite pending_others by done. unfold pending_at at 1 3.
    rewrite decide_True by set_solver. rewrite decide_False by done. lia.
  - apply elem_of_cons in Hin as [?|Hin]; [done|]. specialize (IH Hin Hnd).
    assert (pending_at ({[u]} ∪ settled) x = pending_at settled x) as ->; [|lia].
    unfold pending_at. destruct (decide (x ∈ settled)); [by rewrite decide_True by set_solver|].
    by rewrite decide_False by set_solver.
Qed.

Lemma nonneg_dist D heap settled L u c :
  searching D heap settled L -> dist D u c -> nonneg c = true.
Proof. intros Hs Hd. eapply route_nonneg; [done|]. by eapply se_dist. Qed.

Lemma nonneg_heap D heap settled L c v :
  searching D heap settled L -> (c, v) ∈ heap -> nonneg c = true.
Proof. intros Hs Hd. eapply route_nonneg; [done|]. by apply (se_heap _ _ _ _ Hs). Qed.

Lemma heap_first D heap settled L x rest :
  searching D heap settled L -> heap_pop heap = Some (x, rest) ->
  heap ≡ₚ x :: rest /\ forall y, y ∈ rest -> (units x.1 <= units y.1)%Z.
Proof.
  intros Hs Hp. pose proof (heap_pop_perm _ _ _ Hp) as Hperm. split; [done|].
  assert (Hn : forall e : entry, e ∈ heap -> nonneg e.1 = true).
  { intros [c v] Hin. by eapply nonneg_heap. }
  intros y Hy. apply heap_pop_first with (y := y) in Hp; [|apply Forall_forall|done].
  - assert (Hx : nonneg x.1 = true) by (apply Hn; rewrite Hperm; apply list_elem_of_here).
    assert (Hy' : nonneg y.1 = true) by (apply Hn; rewrite Hperm; by apply list_elem_of_further).
    unfold id in Hp. destruct Hp as [Hlt|[Heq _]]; [apply ltb_units in Hlt; [lia|done..]|].
    apply Z.nlt_ge. intros Hlt. apply klt_units in Hlt; [|done..].
    apply eqb_key in Heq; [|by apply nonneg_number..]. unfold klt in Hlt. rewrite Heq in Hlt. lia.
  - intros e He. by apply nonneg_number, Hn.
Qed.

(** A stale entry: its node has been reached at less. *)
Lemma skip_entry D heap settled L c v rest k :
  searching D heap settled L -> heap ≡ₚ (c, v) :: rest ->
  dist D (N.to_nat v) k -> (units k < units c)%Z -> searching D rest settled L.
Proof.
  intros [H1 H2 H3 H4 H5 H6] Hp Hk Hlt. constructor; try done.
  - intros c' v' Hin. apply H3. rewrite Hp. by apply list_elem_of_further.
  - intros u c' Hu Hs. destruct (H4 u c' Hu Hs) as (c2 & Hin & Heq). exists c2. split; [|done].
    rewrite Hp in Hin. apply elem_of_cons in Hin as [[= -> <-]|Hin]; [|done].
    rewrite Nat2N.id in Hk. rewrite (dist_fun _ _ _ _ Hk Hu) in Hlt. lia.
  - intros u Hu. destruct (H5 u Hu) as (c' & Hc & Hle & Hlater & Harcs). exists c'. split_and!; try done.
    intros c2 Hin. apply Hlater. rewrite Hp. by apply list_elem_of_further.
  - rewrite Hp in H6. simpl in H6. by apply NoDup_cons in H6 as [_ ?].
Qed.

(** Settling a node: [k] is its distance, [c] the cost of its entry. *)
Lemma settle_node D heap settled L c v rest k arcs D' new :
  searching D heap settled L -> heap ≡ₚ (c, v) :: rest ->
  (forall y, y ∈ rest -> (units c <= units y.1)%Z) ->
  dist D (N.to_nat v) k -> units k = units c -> wg_adjacency g !! N.to_nat v = Some arcs ->
  relaxed c arcs D D' new ->
  N.to_nat v ∉ settled
  /\ searching D' (rest ++ new) ({[N.to_nat v]} ∪ settled) (units c).
Proof.
  intros Hs Hp Hfirst Hk Heq Ha Hr. pose proof Hs as [H1 H2 H3 H4 H5 H6].
  pose proof Hr as [R1 R2 R3 R4 R5 R6 R7 R8 R9].
  assert (Hcv : (c, v) ∈ heap) by (rewrite Hp; apply list_elem_of_here).
  destruct (H3 c v Hcv) as (Hroute & HL & _).
  assert (Hcn : nonneg c = true) by (by eapply route_nonneg).
  assert (Hkn : nonneg k = true) by (by eapply nonneg_dist).
  assert (Harcs : forall x w, (x, w) ∈ arcs -> nonneg w = true).
  { intros x w Hin. by apply (ok_arcs g g_ok _ _ _ _ Ha Hin). }
  assert (Hopen : N.to_nat v ∉ settled).
  { intros Hin. destruct (H5 _ Hin) as (c' & Hc' & _ & Hlater & _).
    rewrite (dist_fun _ _ _ _ Hc' Hk) in Hlater. specialize (Hlater c). rewrite N2Nat.id in Hlater.
    specialize (Hlater Hcv). lia. }
  assert (Hnew : forall c' x, (c', x) ∈ new -> (units c <= units c')%Z /\ route g origin (N.to_nat x) c').
  { intros c' x Hin. destruct (R3 c' x Hin) as (w & Hw & ->). split.
    - apply units_add_ge; [done | by eapply Harcs].
    - by eapply route_arc. }
  (* a node at most [c] away is not reached at less *)
  assert (Hfinal : forall u d, dist D u d -> (units d <= units c)%Z ->
    dist D' u d /\ forall c', (c', N.of_nat u) ∉ new).
  { intros u d Hd Hle.
    assert (Hno : forall c', (c', N.of_nat u) ∉ new).
    { intros c' Hin. destruct (Hnew c' _ Hin) as [Hge _].
      assert (Hlt : (units c' < units d)%Z) by (apply (R8 c' (N.of_nat u)); [done | by rewrite Nat2N.id]). lia. }
    split; [|done]. destruct (R5 u d Hd) as (d' & Hd' & _).
    destruct (R4 u d' Hd') as [Hd2|Hin]; [|by destruct (Hno d')].
    by rewrite (dist_fun _ _ _ _ Hd Hd2). }
  split; [done|]. constructor.
  - by rewrite R1.
  - intros u d [Hd|Hin]%R4; [by apply H2|]. rewrite <-(Nat2N.id u). by apply Hnew.
  - intros c' x [Hin|Hin]%elem_of_app.
    + destruct (H3 c' x) as (Hrt & _ & k' & Hk' & Hle); [rewrite Hp; by apply list_elem_of_further|].
      split_and!; [done | by apply (Hfirst (c', x))|].
      destruct (R5 _ _ Hk') as (k2 & Hk2 & ?). exists k2. split; [done | lia].
    + destruct (Hnew c' x Hin) as [Hge Hrt]. split_and!; [done..|]. by apply R7.
  - intros u d [Hd|Hin]%R4 Hu.
    + destruct (H4 u d Hd) as (c' & Hin & Hc'); [set_solver|]. exists c'. split; [|done].
      apply elem_of_app. left. rewrite Hp in Hin. apply elem_of_cons in Hin as [[= -> <-]|Hin]; [|done].
      rewrite Nat2N.id in Hu. set_solver.
    + exists d. split; [|done]. apply elem_of_app. by right.
  - intros u [Hu%elem_of_singleton|Hu]%elem_of_union.
    + subst u. destruct (Hfinal _ k Hk) as [Hk' Hno]; [lia|]. exists k. split_and!; [done | lia | |].
      * rewrite N2Nat.id in *. intros c' [Hin|Hin]%elem_of_app; [|by destruct (Hno c')].
        assert (Hle : (units c <= units c')%Z) by (by apply (Hfirst (c', v))).
        assert (units c <> units c'); [|lia]. intros Hcc.
        rewrite Hp in H6. simpl in H6. apply NoDup_cons in H6 as [Hn _]. apply Hn.
        apply list_elem_of_fmap. exists (c', v). split; [|done]. unfold ekey. simpl. by rewrite Hcc.
      * intros arcs' x w Ha' Hin. rewrite Ha in Ha'. injection Ha' as <-.
        destruct (R6 x w Hin) as (kx & Hkx & Hle). exists kx. split; [done|].
        pose proof (units_add_mono c k w Hcn Hkn (Harcs x w Hin)). lia.
    + destruct (H5 u Hu) as (d & Hd & Hle & Hlater & Hrel). destruct (Hfinal u d Hd) as [Hd' Hno]; [lia|].
      exists d. split_and!; [done | lia | |].
      * intros c' [Hin|Hin]%elem_of_app; [|by destruct (Hno c')]. apply Hlater. rewrite Hp.
        by apply list_elem_of_further.
      * intros arcs' x w Ha' Hin. destruct (Hrel arcs' x w Ha' Hin) as (kx & Hkx & Hlx).
        destruct (R5 _ _ Hkx) as (k2 & Hk2 & ?). exists k2. split; [done | lia].
  - rewrite map_app. apply NoDup_app. rewrite Hp in H6. simpl in H6. apply NoDup_cons in H6 as [_ H6].
    split_and!; [done| |done]. intros key Hin1 Hin2.
    apply list_elem_of_fmap in Hin1 as ([c1 x1] & -> & Hin1).
    apply list_elem_of_fmap in Hin2 as ([c2 x2] & Hkey & Hin2).
    unfold ekey in Hkey. injection Hkey as Hc <-. simpl in Hc.
    destruct (H3 c1 x1) as (_ & _ & d & Hd & Hle); [rewrite Hp; by apply list_elem_of_further|].
    pose proof (R8 c2 x1 d Hin2 Hd). lia.
Qed.

Lemma settle_spec fuel : forall D heap settled L,
  searching D heap settled L -> (length heap + pending settled <= fuel)%nat ->
  exists D' settled' L', settle g fuel D heap = Some D' /\ searching D' [] settled' L'
    /\ forall u c, dist D u c -> exists c', dist D' u c' /\ (units c' <= units c)%Z.
Proof.
  induction fuel as [|fuel IH]; intros D heap settled L Hs Hf;
    cbn [settle]; destruct (heap_pop heap) as [[[c v] rest]|] eqn:Hpop.
  1: { apply heap_first with (1 := Hs) in Hpop as [Hp _]. rewrite Hp in Hf. simpl in Hf. lia. }
  1,3: apply heap_pop_none in Hpop as ->; exists D, settled, L; split_and!; [done|done|];
       intros u c Hc; by exists c.
  destruct (heap_first _ _ _ _ _ _ Hs Hpop) as [Hp Hfirst].
  assert (Hcv : (c, v) ∈ heap) by (rewrite Hp; apply list_elem_of_here).
  destruct (se_heap _ _ _ _ Hs c v Hcv) as (Hroute & HL & k & Hk & Hle).
  assert (Hkn : nonneg k = true) by (by eapply nonneg_dist).
  assert (Hcn : nonneg c = true) by (by eapply nonneg_heap).
  rewrite Hp in Hf. simpl in Hf. pose proof Hk as Hk'. unfold dist in Hk'. rewrite Hk'. simpl.
  destruct (f64_ltb k c) eqn:Hlt.
  - apply (IH D rest settled L); [|lia]. apply ltb_units in Hlt; [|done..]. by eapply skip_entry.
  - assert (Heq : units k = units c).
    { apply Z.le_antisymm; [done|]. apply Z.nlt_ge. by rewrite <-ltb_units, Hlt. }
    assert (Hv : (N.to_nat v < length (wg_nodes g))%nat).
    { rewrite <-(se_length _ _ _ _ Hs). by eapply lookup_lt_Some. }
    destruct (lookup_lt_is_Some_2 (wg_adjacency g) (N.to_nat v)) as [arcs Ha]; [by rewrite (ok_rows g g_ok)|].
    rewrite Ha. simpl.
    destruct (relax_arcs_spec c arcs D rest) as (D1 & new & Hrx & Hr); [done | | |].
    { intros u d Hd. by eapply nonneg_dist. }
    { intros x w Hin. rewrite (se_length _ _ _ _ Hs). by apply (ok_arcs g g_ok _ _ _ _ Ha). }
    rewrite Hrx. simpl.
    destruct (settle_node D heap settled L c v rest k arcs D1 new) as [Hopen Hs1]; [done..|].
    destruct (IH D1 (rest ++ new) ({[N.to_nat v]} ∪ settled) (units c) Hs1) as (D' & settled' & L' & ? & ? & Hm).
    { pose proof (pending_settle settled (N.to_nat v) Hv Hopen) as Hpend. unfold out_degree in Hpend.
      rewrite Ha in Hpend. simpl in Hpend. pose proof (rx_few _ _ _ _ _ Hr). rewrite length_app. lia. }
    exists D', settled', L'. split_and!; [done|done|]. intros u d Hd.
    destruct (rx_mono _ _ _ _ _ Hr u d Hd) as (d1 & Hd1 & ?). destruct (Hm u d1 Hd1) as (d2 & ? & ?).
    exists d2. split; [done | lia].
Qed.
Lemma sum_lookup (rows : list (list arc)) :
  sum_list_with (fun u => length (default [] (rows !! u))) (seq 0 (length rows)) = sum_list_with length rows.
Proof.
  induction rows as [|row rows IH]; simpl; [done|]. f_equal. rewrite <-IH, <-fmap_S_seq.
  generalize (seq 0 (length rows)). induction l as [|u l IHl]; [done|].
  rewrite fmap_cons. cbn [sum_list_with]. by rewrite IHl.
Qed.

Lemma initial_search : (N.to_nat origin < length (wg_nodes g))%nat ->
  searching (<[N.to_nat origin := Some f64_zero]> (replicate (length (wg_nodes g)) None))
    [(f64_zero, origin)] ∅ 0%Z.
Proof.
  intros Ho.
  assert (Hd : forall u c, dist (<[N.to_nat origin := Some f64_zero]> (replicate (length (wg_nodes g)) None)) u c
                 <-> u = N.to_nat origin /\ c = f64_zero).
  { intros u c. rewrite dist_insert by (by rewrite length_replicate). split; [|by left].
    intros [?|[_ Hn]]; [done|]. unfold dist in Hn. by apply lookup_replicate in Hn as [? _]. }
  constructor.
  - by rewrite length_insert, length_replicate.
  - intros u c [-> ->]%Hd. constructor.
  - intros c v [= -> ->]%list_elem_of_singleton. split_and!; [constructor | done |].
    exists f64_zero. split; [by apply Hd | done].
  - intros u c [-> ->]%Hd _. exists f64_zero. rewrite N2Nat.id. split; [by apply list_elem_of_singleton | done].
  - intros u Hu. set_solver.
  - apply NoDup_singleton.
Qed.

Lemma initial_pending : (length [(f64_zero, origin)] + pending ∅ = search_fuel g)%nat.
Proof.
  unfold search_fuel, pending. simpl. f_equal. rewrite <-(ok_rows g g_ok).
  transitivity (sum_list_with out_degree (seq 0 (length (wg_adjacency g)))).
  - induction (seq _ _) as [|u l IH]; simpl; [done|]. rewrite IH. unfold pending_at.
    by rewrite decide_False by set_solver.
  - unfold out_degree. apply sum_lookup.
Qed.
End SearchTheory.

(** ** A heap: a list searched for its first entry *)

Lemma entry_before_key x y : is_number x.1 = true -> is_number y.1 = true ->
  entry_before x y <-> klt (fkey x.1) (fkey y.1) \/ (fkey x.1 = fkey y.1 /\ y.2 <= x.2).
Proof. intros Hx Hy. unfold entry_before. by rewrite ltb_key, eqb_key. Qed.

Lemma entry_before_trans x y z :
  is_number x.1 = true -> is_number y.1 = true -> is_number z.1 = true ->
  entry_before x y -> entry_before y z -> entry_before x z.
Proof.
  intros Hx Hy Hz. rewrite !entry_before_key by done. unfold klt. rewrite !key_eq. lia.
Qed.

Lemma entry_before_refl x : is_number x.1 = true -> entry_before x x.
Proof. intros Hx. rewrite entry_before_key by done. right. by split. Qed.

Definition entry_beats (y x : entry) : bool :=
  f64_ltb y.1 x.1 || (f64_eqb y.1 x.1 && (x.2 <? y.2)).

Lemma entry_beats_key x y : is_number x.1 = true -> is_number y.1 = true ->
  if entry_beats y x then entry_before y x else entry_before x y.
Proof.
  intros Hx Hy. unfold entry_beats.
  destruct (f64_ltb y.1 x.1) eqn:Hlt; simpl; [by left|].
  rewrite <-not_true_iff_false, ltb_key in Hlt by done.
  destruct (f64_eqb y.1 x.1) eqn:Heq; simpl; [destruct (N.ltb_spec x.2 y.2)|];
    rewrite entry_before_key by done; unfold klt in *; rewrite ?key_eq.
  - rewrite eqb_key, key_eq in Heq by done. lia.
  - rewrite eqb_key, key_eq in Heq by done. lia.
  - rewrite <-not_true_iff_false, eqb_key, key_eq in Heq by done. lia.
Qed.

Section ListHeap.
Context {E : Type} (key : E -> entry).

Fixpoint select_first (x : E) (l : list E) : E * list E :=
  match l with
  | [] => (x, [])
  | y :: l =>
      if entry_beats (key y) (key x) then let '(b, r) := select_first y l in (b, x :: r)
      else let '(b, r) := select_first x l in (b, y :: r)
  end.
Definition list_pop (l : list E) : option (E * list E) :=
  match l with [] => None | x :: l => Some (select_first x l) end.

Lemma select_first_perm x l : x :: l ≡ₚ (select_first x l).1 :: (select_first x l).2.
Proof.
  revert x. induction l as [|y l IH]; intros x; simpl; [done|].
  destruct (entry_beats (key y) (key x)).
  - specialize (IH y). destruct (select_first y l) as [b r]. simpl in *. by rewrite IH, perm_swap.
  - specialize (IH x). destruct (select_first x l) as [b r]. simpl in *. by rewrite perm_swap, IH, perm_swap.
Qed.

Lemma select_first_number x l :
  is_number (key x).1 = true -> Forall (fun e => is_number (key e).1 = true) l ->
  is_number (key (select_first x l).1).1 = true.
Proof.
  intros Hx Hl. assert (Hin : (select_first x l).1 ∈ x :: l).
  { rewrite (select_first_perm x l). apply list_elem_of_here. }
  apply elem_of_cons in Hin as [->|Hin]; [done|]. by apply (proj1 (Forall_forall _ _) Hl).
Qed.

Lemma select_first_before x l :
  is_number (key x).1 = true -> Forall (fun e => is_number (key e).1 = true) l ->
  entry_before (key (select_first x l).1) (key x)
  /\ forall y, y ∈ (select_first x l).2 -> entry_before (key (select_first x l).1) (key y).
Proof.
  revert x. induction l as [|z l IH]; intros x Hx Hl.
  { split; [by apply entry_before_refl | by intros y ?%not_elem_of_nil]. }
  apply Forall_cons in Hl as [Hz Hl]. simpl. pose proof (entry_beats_key (key x) (key z) Hx Hz) as Hb.
  destruct (entry_beats (key z) (key x)).
  - destruct (IH z Hz Hl) as [H1 H2]. pose proof (select_first_number z l Hz Hl) as Hn.
    destruct (select_first z l) as [b r]. simpl in *.
    assert (Hbx : entry_before (key b) (key x)) by (by apply (entry_before_trans _ (key z))).
    split; [done|]. intros y [->|Hy]%elem_of_cons; [done | by apply H2].
  - destruct (IH x Hx Hl) as [H1 H2]. pose proof (select_first_number x l Hx Hl) as Hn.
    destruct (select_first x l) as [b r]. simpl in *.
    split; [done|]. intros y [->|Hy]%elem_of_cons; [by apply (entry_before_trans _ (key x)) | by apply H2].
Qed.
End ListHeap.

#[export] Program Instance list_heap {E} (key : E -> entry) : Heap E key := {| heap_pop := list_pop key |}.
Next Obligation. by intros E key [|x l]. Qed.
Next Obligation.
  intros E key [|x0 l] x k; simpl; [done|]. intros [= Hs]. pose proof (select_first_perm key x0 l) as Hp.
  by rewrite Hs in Hp.
Qed.
Next Obligation.
  intros E key [|x0 l] x k; simpl; [done|]. intros [H0 Hl]%Forall_cons [= Hs].
  destruct (select_first_before key x0 l H0 Hl) as [_ Hf]. by rewrite Hs in Hf.
Qed.

(** ** Reading gives an undirected graph *)

Definition linked_rows (adjacency : list (list arc)) : Prop :=
  forall u v w, (exists row, adjacency !! u = Some row /\ (N.of_nat v, w) ∈ row)
    <-> exists row, adjacency !! v = Some row /\ (N.of_nat u, w) ∈ row.

Lemma push_arc_elem from to cost adjacency u e :
  (exists row, push_arc from to cost adjacency !! u = Some row /\ e ∈ row)
  <-> (exists row, adjacency !! u = Some row /\ e ∈ row)
      \/ (u = N.to_nat from /\ (u < length adjacency)%nat /\ e = (to, cost)).
Proof.
  unfold push_arc. rewrite list_lookup_alter. destruct (decide (N.to_nat from = u)) as [->|Hne].
  - destruct (adjacency !! u) as [row|] eqn:Hrow; simpl.
    + pose proof (lookup_lt_Some _ _ _ Hrow). split.
      * intros (r & [= <-] & [Hin|Hin%list_elem_of_singleton]%elem_of_app); [left; by exists row | by right].
      * intros [(r & [= <-] & Hin)|(_ & _ & ->)]; eexists; (split; [done|]); apply elem_of_app;
          [by left | right; by apply list_elem_of_singleton].
    + apply lookup_ge_None in Hrow. split; [by intros (? & ? & ?)|]. intros [(? & ? & ?)|(_ & ? & _)]; [done|lia].
  - destruct (adjacency !! u) as [row|]; simpl; naive_solver.
Qed.

Lemma push_arc_length from to cost adjacency : length (push_arc from to cost adjacency) = length adjacency.
Proof. apply length_alter. Qed.

(** Arcs in range, and back and forth *)
Definition rows_ok (n : nat) (adjacency : list (list arc)) : Prop :=
  length adjacency = n
  /\ (forall u row v w, adjacency !! u = Some row -> (v, w) ∈ row -> (N.to_nat v < n)%nat)
  /\ linked_rows adjacency.

Lemma push_edge_elem from to cost adjacency u e :
  (exists row, push_edge adjacency ((from, to), cost) !! u = Some row /\ e ∈ row)
  <-> (exists row, adjacency !! u = Some row /\ e ∈ row)
      \/ (u = N.to_nat from /\ (u < length adjacency)%nat /\ e = (to, cost))
      \/ (u = N.to_nat to /\ (u < length adjacency)%nat /\ e = (from, cost)).
Proof. unfold push_edge. rewrite !push_arc_elem, push_arc_length. tauto. Qed.

Lemma push_edge_ok n adjacency from to cost :
  (N.to_nat from < n)%nat -> (N.to_nat to < n)%nat -> rows_ok n adjacency ->
  rows_ok n (push_edge adjacency ((from, to), cost)).
Proof.
  intros Hf Ht (Hl & Hr & Hs). split_and!.
  - unfold push_edge. by rewrite !push_arc_length.
  - intros u row v w Hrow Hin.
    assert (He : exists row, push_edge adjacency ((from, to), cost) !! u = Some row /\ (v, w) ∈ row) by eauto.
    apply push_edge_elem in He as [(r & Hr' & Hin')|[(_ & _ & [= -> _])|(_ & _ & [= -> _])]]; [|done..].
    by eapply Hr.
  - intros u v w. rewrite !push_edge_elem, (Hs u v w), Hl. split.
    all: intros [?|[(Hu & _ & [= Hv ->])|(Hu & _ & [= Hv ->])]]; [by left|right; right|right; left].
    all: split_and!; [lia | lia | f_equal; lia].
Qed.

Lemma push_edges_ok n edges adjacency :
  Forall (fun e : (N * N) * f64 => (N.to_nat e.1.1 < n)%nat /\ (N.to_nat e.1.2 < n)%nat) edges ->
  rows_ok n adjacency -> rows_ok n (foldl push_edge adjacency edges).
Proof.
  intros Hf. revert adjacency. induction Hf as [|[[from to] cost] edges [H1 H2] _ IH]; intros adjacency Hr; [done|].
  simpl. apply IH. by apply push_edge_ok.
Qed.

Lemma empty_rows_ok n : rows_ok n (replicate n []).
Proof.
  assert (Hno : forall u row (e : arc), replicate n [] !! u = Some row -> e ∈ row -> False).
  { intros u row e [-> _]%lookup_replicate Hin. by apply not_elem_of_nil in Hin. }
  split_and!; [by rewrite length_replicate | |].
  - intros u row v w Hrow Hin. by destruct (Hno u row (v, w)).
  - intros u v w. split; intros (row & Hrow & Hin); by destruct (Hno _ _ _ Hrow Hin).
Qed.

Section ReadTheory.
Context `{F64Display} `{NetworkHost}.

Definition index_in (n : nat) (i : N) : Prop := (N.to_nat i < n)%nat.
Definition building_ok (b : building) : Prop :=
  (forall k i, b_index b !! k = Some i -> index_in (length (b_nodes b)) i)
  /\ Forall (fun e : (N * N) * f64 => index_in (length (b_nodes b)) e.1.1 /\ index_in (length (b_nodes b)) e.1.2)
       (b_edges b).

Lemma node_at_ok lon lat b index b' :
  node_at lon lat b = (index, b') -> building_ok b ->
  building_ok b' /\ index_in (length (b_nodes b')) index /\ (length (b_nodes b) <= length (b_nodes b'))%nat
  /\ b_edges b' = b_edges b.
Proof.
  unfold node_at, index_in. intros Hn [Hi He].
  destruct (b_index b !! _) as [i|] eqn:Hl; simplify_eq/=.
  - split_and!; [done | by eapply Hi | done | done].
  - assert (Hw : (N.to_nat (wrap 32 (N.of_nat (length (b_nodes b)))) < length (b_nodes b) + 1)%nat).
    { unfold wrap. pose proof (N.Div0.mod_le (N.of_nat (length (b_nodes b))) (2 ^ 32)) as Hle.
      revert Hle. generalize (N.of_nat (length (b_nodes b)) mod 2 ^ 32). lia. }
    rewrite length_app. simpl. split_and!; [split; simpl; rewrite length_app; simpl|lia|lia|done].
    + intros k i Hk. unfold index_in.
      apply lookup_insert_Some in Hk as [[_ <-]|[_ Hk]]; [lia|]. specialize (Hi k i Hk).
      unfold index_in in Hi. lia.
    + eapply Forall_impl; [exact He|]. unfold index_in. simpl. lia.
Qed.

Definition progress_ok (acc : option N * building) : Prop :=
  building_ok acc.2 /\ forall i, acc.1 = Some i -> index_in (length (b_nodes acc.2)) i.

Lemma add_coord_ok walk_speed declared segments acc coord acc' :
  add_coord walk_speed declared segments acc coord = Ok acc' -> progress_ok acc -> progress_ok acc'.
Proof.
  destruct acc as [previous b]. intros Ha [Hb Hp]. unfold add_coord in Ha. simpl in Hb, Hp.
  apply bind_ok in Ha as (values & _ & Ha). apply bind_ok in Ha as (lon & _ & Ha).
  apply bind_ok in Ha as (lat & _ & Ha).
  destruct (node_at lon lat b) as [index b1] eqn:Hn.
  destruct (node_at_ok _ _ _ _ _ Hn Hb) as (Hb1 & Hi & Hle & Hedges).
  injection Ha as <-. destruct previous as [from|]; simpl; [|split; [done | by intros i [= <-]]].
  specialize (Hp from eq_refl). unfold index_in in *.
  split; [|simpl; by intros i [= <-]]. destruct Hb1 as [H1 H2]. split; [done|]. simpl.
  apply Forall_app. split; [done|]. apply Forall_singleton. simpl. split; [|done].
  unfold index_in. lia.
Qed.

Lemma add_feature_ok walk_speed b feature b' :
  add_feature walk_speed b feature = Ok b' -> building_ok b -> building_ok b'.
Proof.
  unfold add_feature. intros (geometry & _ & Ha)%bind_ok Hb. revert Ha.
  case_match; [by intros [= <-]|]. intros (coords & _ & Ha)%bind_ok.
  apply bind_ok in Ha as ([previous b1] & Hfold & [= <-]).
  change b1 with (previous, b1).2.
  refine (proj1 (try_fold_inv _ progress_ok _ _ _ Hfold _ _)).
  - split; [done|]. by intros i.
  - intros acc x acc' _ Hacc. by eapply add_coord_ok.
Qed.
End ReadTheory.

(** What the search returns *)
Definition shortest_times (g : WalkGraph) (origin : N) (times : list (option f64)) : Prop :=
  length times = length (wg_nodes g)
  /\ (forall u c, times !! u = Some (Some c) ->
        route g origin u c /\ forall c', route g origin u c' -> f64_leb c c' = true)
  /\ forall u, times !! u = Some None -> forall c, ~ route g origin u c.

Lemma search_result `{Heap entry id} g origin :
  graph_ok g -> (N.to_nat origin < length (wg_nodes g))%nat ->
  exists times, travel_times_from g origin = Some times /\ shortest_times g origin times.
Proof.
  intros Hg Ho. unfold travel_times_from.
  destruct (lookup_lt_is_Some_2 (replicate (length (wg_nodes g)) (@None f64)) (N.to_nat origin)) as [? Hlk];
    [by rewrite length_replicate|]. rewrite Hlk. simpl.
  destruct (settle_spec g origin Hg (search_fuel g) (<[N.to_nat origin := Some f64_zero]> (replicate (length (wg_nodes g)) None))
              [(f64_zero, origin)] ∅ 0%Z) as (D & settled & L & Hrun & Hs & Hm).
  { by apply initial_search. }
  { by rewrite initial_pending. }
  assert (Hreach : forall u c, route g origin u c -> exists k, dist D u k /\ (units k <= units c)%Z).
  { induction 1 as [|u c arcs v w Hr (k & Hk & Hle) Ha Hin].
    - apply Hm. apply dist_insert; [by rewrite length_replicate | by left].
    - assert (Hu : u ∈ settled).
      { apply dec_stable. intros Hu. destruct (se_open _ _ _ _ _ _ Hs u k Hk Hu) as (? & Hn & _).
        by apply not_elem_of_nil in Hn. }
      destruct (se_settled _ _ _ _ _ _ Hs u Hu) as (k' & Hk' & _ & _ & Harcs).
      rewrite <-(dist_fun _ _ _ _ Hk Hk') in Harcs.
      destruct (Harcs arcs v w Ha Hin) as (kv & Hkv & Hlv). exists kv. split; [done|].
      assert (Hn : (units (f64_add k w) <= units (f64_add c w))%Z); [|lia].
      apply units_add_mono; [|by apply (route_nonneg g origin u) | by apply (ok_arcs g Hg u arcs v w) | done].
      apply (route_nonneg g origin u); [done|]. by eapply se_dist. }
  exists D. unfold shortest_times. split_and!; [done | by apply (se_length _ _ _ _ _ _ Hs) | |].
  - intros u c Hc. pose proof (se_dist _ _ _ _ _ _ Hs u c Hc) as Hr. split; [done|].
    intros c' Hr'. destruct (Hreach u c' Hr') as (k & Hk & Hle).
    rewrite (dist_fun _ _ _ _ Hk Hc) in Hle.
    apply leb_units; [by apply (route_nonneg g origin u) | by apply (route_nonneg g origin u) | done].
  - intros u Hu c Hr. destruct (Hreach u c Hr) as (k & Hk & _). unfold dist in Hk. congruence.
Qed.

(** ** Properties *)

(** C5: on a graph whose arcs stay inside it and cost non-negative binary64
    minutes, the search ends within one step per arc and never indexes out of
    bounds; it gives a node a time exactly when a route reaches it, and that time
    is the cost of a route, as the additions round it, and no route costs less. *)
Theorem travel_times_shortest `{Heap entry id} g origin :
  graph_ok g -> (N.to_nat origin < length (wg_nodes g))%nat ->
  exists times, travel_times_from g origin = Some times /\ length times = length (wg_nodes g)
  /\ (forall u c, times !! u = Some (Some c) ->
        route g origin u c /\ forall c', route g origin u c' -> f64_leb c c' = true)
  /\ forall u, times !! u = Some None -> forall c, ~ route g origin u c.
Proof. apply search_result. Qed.

(** A graph that is read is undirected and closed: it has a row of arcs for
    every node, every arc leads to a node, and comes with its reverse of the
    same cost. *)
Theorem read_graph_undirected `{F64Display} `{NetworkHost} text g :
  from_geojson_str text = Ok g ->
  wg_nodes g <> [] /\ length (wg_adjacency g) = length (wg_nodes g)
  /\ (forall u row v w, wg_adjacency g !! u = Some row -> (v, w) ∈ row ->
        (N.to_nat v < length (wg_nodes g))%nat)
  /\ linked_rows (wg_adjacency g).
Proof.
  unfold from_geojson_str. intros (parsed & _ & Hr)%bind_ok.
  apply bind_ok in Hr as ([] & _ & Hr). apply bind_ok in Hr as ([] & _ & Hr).
  apply bind_ok in Hr as (features & _ & Hr). apply bind_ok in Hr as (b & Hb & Hr).
  apply bind_ok in Hr as ([] & Hne & [= <-]). simpl.
  apply err_if_ok, orb_false_iff in Hne as [Hne%bool_decide_eq_false _].
  assert (Hok : building_ok b).
  { apply (try_fold_inv _ building_ok _ _ _ Hb); [split; [by intros k i | constructor]|].
    intros b1 f b2 _ Hf. by eapply add_feature_ok. }
  destruct (push_edges_ok (length (b_nodes b)) (b_edges b) (replicate (length (b_nodes b)) []))
    as (H1 & H2 & H3); [apply Hok | apply empty_rows_ok |]. done.
Qed.

(** ** Concrete graphs *)

Definition graph_okb (g : WalkGraph) : bool :=
  bool_decide (length (wg_adjacency g) = length (wg_nodes g))
  && forallb (forallb (fun '(v, w) => bool_decide (N.to_nat v < length (wg_nodes g))%nat && nonneg w))
       (wg_adjacency g).

Lemma graph_okb_ok g : graph_okb g = true -> graph_ok g.
Proof.
  unfold graph_okb. rewrite andb_true_iff, bool_decide_eq_true, forallb_forall. intros [Hl Hf].
  constructor; [done|]. intros u arcs v w Ha Hin.
  specialize (Hf arcs). rewrite <-list_elem_of_In, forallb_forall in Hf.
  specialize (Hf (list_elem_of_lookup_2 _ _ _ Ha) (v, w)). rewrite <-list_elem_of_In in Hf.
  specialize (Hf Hin). simpl in Hf. by apply andb_true_iff in Hf as [?%bool_decide_eq_true ?].
Qed.

(** A point of interest counts when a route within the threshold reaches it. *)
Lemma within_exact `{Heap entry id} g origin times threshold poi :
  graph_ok g -> (N.to_nat origin < length (wg_nodes g))%nat -> is_number threshold = true ->
  travel_times_from g origin = Some times ->
  arrives_within times threshold poi = true
  <-> exists c, route g origin (N.to_nat poi) c /\ f64_leb c threshold = true.
Proof.
  intros Hg Ho Ht Htimes.
  destruct (search_result g origin Hg Ho) as (D & Hrun & Hlen & Hmin & Hnone).
  rewrite Htimes in Hrun. injection Hrun as <-. unfold arrives_within. split.
  - destruct (times !! N.to_nat poi) as [[c|]|] eqn:Hc; simpl; try done.
    intros Hle. exists c. by destruct (Hmin _ _ Hc).
  - intros (c & Hr & Hle). destruct (times !! N.to_nat poi) as [[k|]|] eqn:Hk; simpl.
    + destruct (Hmin _ _ Hk) as [Hrk Hall]. specialize (Hall c Hr).
      assert (is_number k = true) by (by eapply nonneg_number, route_nonneg).
      assert (is_number c = true) by (by eapply nonneg_number, route_nonneg). float_order.
    + by destruct (Hnone _ Hk c).
    + apply lookup_ge_None in Hk. pose proof (route_in_range g origin _ c Hg Ho Hr). lia.
Qed.

(** Three crossings in a row, the middle arcs of one and a half and two minutes,
    and a detour of four *)
Definition minutes (m e : Z) : f64 := f64_lit m e.
Definition street : WalkGraph :=
  {| wg_nodes := [(f64_zero, f64_zero); (f64_of_Z 1, f64_zero); (f64_of_Z 2, f64_zero); (f64_of_Z 9, f64_zero)];
     wg_adjacency := [[(1, minutes 3 (-1)); (2, minutes 4 0)]; [(0, minutes 3 (-1)); (2, minutes 2 0)];
                      [(1, minutes 2 0); (0, minutes 4 0)]; []];
     wg_edge_count := 3; wg_total_length_m := f64_zero; wg_walk_speed := f64_of_Z 80 |}.

Lemma travel_times_shortest_witness :
  travel_times_from street 0
    = Some [Some f64_zero; Some (minutes 3 (-1)); Some (f64_lit 7 (-1)); None]
  /\ forall c, route street 0 2 c -> f64_leb (f64_lit 7 (-1)) c = true.
Proof.
  assert (Hrun : travel_times_from street 0
    = Some [Some f64_zero; Some (minutes 3 (-1)); Some (f64_lit 7 (-1)); None]) by (by vm_compute).
  split; [exact Hrun|].
  destruct (travel_times_shortest street 0) as (times & Ht & _ & Hmin & _).
  - apply graph_okb_ok. by vm_compute.
  - apply (bool_decide_unpack _). by vm_compute.
  - rewrite Hrun in Ht. injection Ht as <-. by apply (Hmin 2%nat).
Defined.

(** The GeoJSON text is the key of the parsed value; coordinates in degrees *)
#[local] Instance street_display : F64Display := fun _ => "".
Definition line_json (walk_min : string) : json :=
  JObject [("type", JString "FeatureCollection");
           ("features", JArray [JObject [
              ("properties", JObject [("walk_min", JNumber walk_min)]);
              ("geometry", JObject [("type", JString "LineString");
                 ("coordinates", JArray [JArray [JNumber "0"; JNumber "0"]; JArray [JNumber "1"; JNumber "0"]])])]])].
#[local] Instance street_host : NetworkHost := {|
  parse_json text := Ok (line_json text);
  number_f64 n := if bool_decide (n = "0") then f64_zero
                  else if bool_decide (n = "-1") then f64_of_Z (-1) else f64_of_Z 1;
  f64_cos _ := f64_of_Z 1 |}.

Lemma read_graph_undirected_witness :
  exists g, from_geojson_str "1" = Ok g /\ wg_adjacency g = [[(1, f64_of_Z 1)]; [(0, f64_of_Z 1)]]
    /\ linked_rows (wg_adjacency g).
Proof.
  destruct (from_geojson_str "1") as [g|e] eqn:Hg; [|by vm_compute in Hg].
  exists g. split; [done|]. split.
  - assert (Ha : match from_geojson_str "1" with Ok g => wg_adjacency g | Err _ => [] end
      = [[(1, f64_of_Z 1)]; [(0, f64_of_Z 1)]]) by (by vm_compute). by rewrite Hg in Ha.
  - by apply (read_graph_undirected "1" g).
Defined.

(** A declared walking time may be negative: the graph is accepted, and the
    search goes back and forth over the street, long past its bound. *)
Definition outcome_of (r : result NetworkError WalkGraph) : option (nat * option (list (option f64))) :=
  match r with
  | Ok g => Some (search_fuel g, settle g (200 * search_fuel g) [Some f64_zero; None] [(f64_zero, 0)])
  | Err _ => None
  end.
Theorem negative_walk_time_is_accepted :
  outcome_of (from_geojson_str "-1") = Some (3%nat, None).
Proof. by vm_compute. Qed.

(** A penalty that is refused leaves the arcs before it scaled, so the two
    directions of a street no longer cost the same. *)
Definition collapsing (calls : N) (from to : coord) (i j : N) : f64 * N :=
  (if calls =? 0 then f64_of_Z 2 else S754_nan, calls + 1).
Theorem refused_penalty_is_partial :
  exists g x e, scale_edge_costs collapsing street 0 = Some (g, x, Err e)
    /\ wg_adjacency g = [[(1, f64_of_Z 3); (2, minutes 4 0)]; [(0, minutes 3 (-1)); (2, minutes 2 0)];
                         [(1, minutes 2 0); (0, minutes 4 0)]; []].
Proof. eexists _, _, _. split; [vm_compute; reflexivity | by vm_compute]. Qed.
