(* ===== verification/Transit.v ===== *)
(** * Walk and transit routing (crates/genegis-network/src/transit.rs and
    isochrone.rs)

    Ride corridors over a walk graph, searched like the walk graph but with
    queue entries that remember the line they arrived by; and the convex hull
    around the nodes a walk reaches in time. *)

From S2P Require Import Prelude RustStd Ordering Rounding Crs Json WalkNetwork.
Local Open Scope N_scope.

(** ** Data *)

Inductive TransitError :=
| TransitStorage (text : string)
| TransitInvalid (text : string)
| TransitRouting (text : string).

Record TransitStop := mkStop { stop_id : string; stop_walk_node : N; stop_lines : list string }.
Record RideEdge := mkRide {
  from_walk_node : N;
  to_walk_node : N;
  ride_line : string;
  ride_minutes : f64;
  wait_minutes : f64 }.
Record TransitGraph := mkTransit {
  tg_walk : WalkGraph;
  tg_stops : list TransitStop;
  tg_rides : list RideEdge;
  transfer_penalty : f64 }.

(** ** Construction *)

Definition check_stop (nodes : N) (s : TransitStop) : result TransitError unit :=
  err_if (is_blank (stop_id s) || bool_decide (stop_lines s = []))
    (TransitInvalid ("stop " +:+ stop_id s +:+ " has no id or no lines"));;
  err_if (nodes <=? stop_walk_node s)
    (TransitInvalid ("stop " +:+ stop_id s +:+ " snaps outside the walk graph")).

Definition check_ride (nodes : N) (r : RideEdge) : result TransitError unit :=
  err_if (negb (f64_is_finite (ride_minutes r)) || f64_ltb (ride_minutes r) f64_zero)
    (TransitInvalid ("ride " +:+ ride_line r +:+ " has an invalid ride time"));;
  err_if (negb (f64_is_finite (wait_minutes r) && f64_leb f64_zero (wait_minutes r)))
    (TransitInvalid ("ride " +:+ ride_line r +:+ " has an invalid wait time"));;
  err_if ((nodes <=? from_walk_node r) || (nodes <=? to_walk_node r))
    (TransitInvalid ("ride " +:+ ride_line r +:+ " references a node outside the walk graph")).

Definition transit_new (walk : WalkGraph) (stops : list TransitStop) (rides : list RideEdge) (penalty : f64)
    : result TransitError TransitGraph :=
  err_if (negb (f64_leb f64_zero penalty && f64_is_finite penalty))
    (TransitInvalid "transfer penalty must be finite and non-negative");;
  for_each (check_stop (node_count walk)) stops;;
  for_each (check_ride (node_count walk)) rides;;
  Ok {| tg_walk := walk; tg_stops := stops; tg_rides := rides; transfer_penalty := penalty |}.

Definition line_count (g : TransitGraph) : N :=
  N.of_nat (size (list_to_set (concat (map stop_lines (tg_stops g))) : gset string)).

(** ** The search *)

(** Cost, node, and the line the entry arrived by *)
Record ride_entry := mkEntry { en_cost : f64; en_node : N; en_line : option string }.
Definition ride_key (e : ride_entry) : entry := (en_cost e, en_node e).

(** [rides_by_node]: a ride is listed at both of its ends. *)
Definition rides_at (g : TransitGraph) (node : N) : list RideEdge :=
  flat_map (fun r => (if from_walk_node r =? node then [r] else [])
                     ++ (if to_walk_node r =? node then [r] else [])) (tg_rides g).

Definition epsilon_minutes : f64 := f64_lit 4951760157141521 (-92).

(** [if distances[i].map_or(true, |known| next < known - 1e-12) { .. }] *)
Definition improve (next : ride_entry) (D : list (option f64)) (heap : list ride_entry)
    : option (list (option f64) * list ride_entry) :=
  known ← D !! N.to_nat (en_node next);
  Some (if match known with
           | None => true
           | Some known => f64_ltb (en_cost next) (f64_sub known epsilon_minutes) end
        then (<[N.to_nat (en_node next) := Some (en_cost next)]> D, heap ++ [next])
        else (D, heap)).

(** What an entry leads to: the neighbours on foot, then the far ends of the
    rides, boarding with a wait unless the entry arrived by the same line *)
Definition walk_moves (e : ride_entry) (arcs : list arc) : list ride_entry :=
  map (fun '(neighbour, cost) =>
         {| en_cost := f64_add (en_cost e) cost; en_node := neighbour; en_line := None |}) arcs.
Definition ride_move (g : TransitGraph) (e : ride_entry) (r : RideEdge) : ride_entry :=
  let alight := if from_walk_node r =? en_node e then to_walk_node r else from_walk_node r in
  let is_new_line := negb (bool_decide (en_line e = Some (ride_line r))) in
  let wait := if is_new_line then wait_minutes r else f64_zero in
  let transfer := if is_new_line && bool_decide (is_Some (en_line e)) then transfer_penalty g else f64_zero in
  {| en_cost := f64_add (f64_add (f64_add (en_cost e) wait) transfer) (ride_minutes r);
     en_node := alight; en_line := Some (ride_line r) |}.
Definition moves (g : TransitGraph) (e : ride_entry) (arcs : list arc) : list ride_entry :=
  walk_moves e arcs ++ map (ride_move g e) (rides_at g (en_node e)).

Fixpoint improve_all (nexts : list ride_entry) (D : list (option f64)) (heap : list ride_entry)
    : option (list (option f64) * list ride_entry) :=
  match nexts with
  | [] => Some (D, heap)
  | next :: nexts => '(D, heap) ← improve next D heap; improve_all nexts D heap
  end.

Section Search.
Context `{Heap ride_entry ride_key}.

Fixpoint transit_settle (g : TransitGraph) (fuel : nat) (D : list (option f64)) (heap : list ride_entry)
    : option (list (option f64)) :=
  match heap_pop heap with
  | None => Some D
  | Some (e, heap) =>
      match fuel with
      | O => None
      | S fuel =>
          known ← D !! N.to_nat (en_node e);
          if match known with
             | Some known => f64_ltb (f64_add known epsilon_minutes) (en_cost e)
             | None => false end
          then transit_settle g fuel D heap
          else
            arcs ← wg_adjacency (tg_walk g) !! N.to_nat (en_node e);
            '(D, heap) ← improve_all (moves g e arcs) D heap;
            transit_settle g fuel D heap
      end
  end.

Definition transit_times_from (g : TransitGraph) (fuel : nat) (origin : N) : option (list (option f64)) :=
  let D := replicate (length (wg_nodes (tg_walk g))) None in
  _ ← D !! N.to_nat origin;
  transit_settle g fuel (<[N.to_nat origin := Some f64_zero]> D)
    [{| en_cost := f64_zero; en_node := origin; en_line := None |}].

Definition transit_route_minutes (g : TransitGraph) (fuel : nat) (from to : N)
    : option (result TransitError f64) :=
  times ← transit_times_from g fuel from;
  Some (ok_or (mjoin (times !! N.to_nat to))
          (TransitRouting ("node " +:+ show_N to +:+ " is unreachable from " +:+ show_N from))).
Definition transit_opportunities (g : TransitGraph) (fuel : nat) (origin : N) (poi_nodes : list N)
    (threshold : f64) : option N :=
  times ← transit_times_from g fuel origin;
  Some (N.of_nat (length (filter (fun poi => arrives_within times threshold poi = true) poi_nodes))).
End Search.

(** ** Isochrones *)

Record Isochrone := mkIsochrone {
  iso_origin : N;
  threshold_minutes : f64;
  vertices : list coord;
  reachable_nodes : N;
  area_m2 : f64 }.

(** [sort_by] with incomparable numbers equal, [dedup] *)
Definition coord_le (a b : coord) : bool :=
  match SFcompare a.1 b.1 with
  | Some Lt => true
  | Some Gt => false
  | _ => match SFcompare a.2 b.2 with Some Gt => false | _ => true end
  end.
Definition coord_before (a b : coord) : Prop := coord_le a b = true.
#[export] Instance coord_before_dec : RelDecision coord_before.
Proof. intros a b. unfold coord_before. apply _. Defined.
Definition coord_eqb (a b : coord) : bool := f64_eqb a.1 b.1 && f64_eqb a.2 b.2.
Fixpoint dedup_coords_after (previous : coord) (l : list coord) : list coord :=
  match l with
  | [] => []
  | p :: l => if coord_eqb p previous then dedup_coords_after previous l else p :: dedup_coords_after p l
  end.
Definition dedup_coords (l : list coord) : list coord :=
  match l with [] => [] | p :: l => p :: dedup_coords_after p l end.

Definition cross (o a b : coord) : f64 :=
  f64_sub (f64_mul (f64_sub a.1 o.1) (f64_sub b.2 o.2)) (f64_mul (f64_sub a.2 o.2) (f64_sub b.1 o.1)).

(** A chain with its last vertex first: drop vertices that do not turn left,
    then add the point. *)
Fixpoint pop_turns (point : coord) (chain : list coord) : list coord :=
  match chain with
  | c :: (b :: _) as rest => if f64_leb (cross b c point) f64_zero then pop_turns point rest else chain
  | _ => chain
  end.
Definition half_hull (points : list coord) : list coord :=
  foldl (fun chain point => point :: pop_turns point chain) [] points.

Definition convex_hull (points : list coord) : list coord :=
  let points := dedup_coords (stable_sort coord_before points) in
  if (length points <? 3)%nat then points
  else reverse (tail (half_hull points)) ++ reverse (tail (half_hull (reverse points))).

Section IsochroneOps.
Context `{F64Display} `{NetworkHost} `{Heap entry id}.

Definition shoelace (lon_scale lat_scale : f64) (ring : list coord) (sum : f64) (index : nat) : f64 :=
  let a := default (f64_zero, f64_zero) (ring !! index) in
  let b := default (f64_zero, f64_zero) (ring !! ((index + 1) mod length ring)%nat) in
  f64_add sum (f64_sub (f64_mul (f64_mul a.1 lon_scale) (f64_mul b.2 lat_scale))
                       (f64_mul (f64_mul b.1 lon_scale) (f64_mul a.2 lat_scale))).
Definition polygon_area_m2 (ring : list coord) : f64 :=
  if (length ring <? 3)%nat then f64_zero
  else
    let mean_lat := f64_div (f64_sum (map snd ring)) (f64_of_Z (Z.of_nat (length ring))) in
    let lat_scale := METERS_PER_DEG_LAT in
    let lon_scale := f64_mul METERS_PER_DEG_LAT (f64_cos (to_radians mean_lat)) in
    f64_abs (f64_div (foldl (shoelace lon_scale lat_scale ring) f64_zero (seq 0 (length ring))) (f64_of_Z 2)).

Definition in_time (threshold : f64) (cost : option f64) : bool :=
  match cost with Some minutes => f64_leb minutes threshold | None => false end.

Definition isochrone (g : WalkGraph) (origin : N) (threshold : f64) : option (result NetworkError Isochrone) :=
  if negb (f64_is_finite threshold && f64_ltb f64_zero threshold)
  then Some (Err (Routing ("isochrone threshold must be positive and finite, got " +:+ f64_display threshold)))
  else
    times ← travel_times_from g origin;
    let reachable := map snd (filter (fun e => in_time threshold e.1 = true) (zip times (wg_nodes g))) in
    if bool_decide (reachable = [])
    then Some (Err (Routing "origin reaches no nodes within the threshold"))
    else
      let hull := convex_hull reachable in
      Some (Ok {| iso_origin := origin; threshold_minutes := threshold; vertices := hull;
                  reachable_nodes := N.of_nat (length (filter (fun c => in_time threshold c = true) times));
                  area_m2 := polygon_area_m2 hull |}).
End IsochroneOps.

(** ** Journeys *)

(** Durations a graph may be built from: [f64] values are canonical. *)
Definition canonical (x : f64) : bool :=
  match x with S754_finite _ m e => bounded 53 1024 m e | _ => true end.

Record transit_ok (g : TransitGraph) : Prop := {
  to_walk : graph_ok (tg_walk g);
  to_penalty : nonneg (transfer_penalty g) = true;
  to_rides : forall r, r ∈ tg_rides g ->
    nonneg (ride_minutes r) = true /\ nonneg (wait_minutes r) = true
    /\ (N.to_nat (from_walk_node r) < length (wg_nodes (tg_walk g)))%nat
    /\ (N.to_nat (to_walk_node r) < length (wg_nodes (tg_walk g)))%nat }.

Lemma finite_nonneg x :
  canonical x = true -> f64_is_finite x = true -> f64_ltb x f64_zero = false -> nonneg x = true.
Proof. destruct x as [s|s| |[] m e]; simpl; intros; done. Qed.

Lemma finite_nonneg_le x :
  canonical x = true -> f64_is_finite x = true -> f64_leb f64_zero x = true -> nonneg x = true.
Proof. destruct x as [s|s| |[] m e]; simpl; intros; done. Qed.

(** The constructor establishes what the search needs. *)
Lemma transit_new_ok walk stops rides penalty g :
  transit_new walk stops rides penalty = Ok g -> graph_ok walk -> canonical penalty = true ->
  Forall (fun r => canonical (ride_minutes r) = true /\ canonical (wait_minutes r) = true) rides ->
  transit_ok g.
Proof.
  unfold transit_new. intros Hn Hw Hp Hc.
  apply bind_ok in Hn as ([] & Hpen & Hn). apply bind_ok in Hn as ([] & _ & Hn).
  apply bind_ok in Hn as ([] & Hr & [= <-]).
  rewrite err_if_ok, negb_false_iff, andb_true_iff in Hpen. destruct Hpen.
  constructor; simpl; [done | by apply finite_nonneg_le|].
  intros r Hin. rewrite for_each_ok, Forall_forall in Hr. specialize (Hr r Hin).
  rewrite Forall_forall in Hc. destruct (Hc r Hin) as [H1 H2].
  unfold check_ride, node_count in Hr.
  apply bind_ok in Hr as ([] & Ha & Hr). apply bind_ok in Hr as ([] & Hb & Hr).
  rewrite err_if_ok, orb_false_iff, negb_false_iff in Ha.
  rewrite err_if_ok, negb_false_iff, andb_true_iff in Hb. apply err_if_ok, orb_false_iff in Hr.
  destruct Ha, Hb, Hr as [?%N.leb_gt ?%N.leb_gt].
  split_and!; [by apply finite_nonneg | by apply finite_nonneg_le | lia | lia].
Qed.

(** What one can do from the origin: walk an arc, or ride from a stop *)
Inductive journey (g : TransitGraph) (origin : N) : ride_entry -> Prop :=
| journey_start : journey g origin {| en_cost := f64_zero; en_node := origin; en_line := None |}
| journey_move e arcs next :
    journey g origin e -> wg_adjacency (tg_walk g) !! N.to_nat (en_node e) = Some arcs ->
    next ∈ moves g e arcs -> journey g origin next.

Lemma rides_at_elem g node r :
  r ∈ rides_at g node <-> r ∈ tg_rides g /\ (from_walk_node r = node \/ to_walk_node r = node).
Proof.
  unfold rides_at. rewrite list_elem_of_In, in_flat_map. setoid_rewrite <-list_elem_of_In. split.
  - intros (x & Hx & Hin). destruct (N.eqb_spec (from_walk_node x) node), (N.eqb_spec (to_walk_node x) node);
      simpl in Hin; repeat (apply elem_of_cons in Hin as [->|Hin]); try (split; [done|tauto]);
      by apply not_elem_of_nil in Hin.
  - intros (Hr & Hn). exists r. split; [done|].
    destruct (N.eqb_spec (from_walk_node r) node), (N.eqb_spec (to_walk_node r) node); simpl;
      try apply list_elem_of_here. tauto.
Qed.

Lemma moves_in_graph g e arcs next :
  transit_ok g -> nonneg (en_cost e) = true ->
  wg_adjacency (tg_walk g) !! N.to_nat (en_node e) = Some arcs -> next ∈ moves g e arcs ->
  nonneg (en_cost next) = true /\ (N.to_nat (en_node next) < length (wg_nodes (tg_walk g)))%nat.
Proof.
  intros Hg Hc Ha [Hin|Hin]%elem_of_app.
  - apply list_elem_of_fmap in Hin as ([v w] & -> & Hin).
    destruct (ok_arcs _ (to_walk g Hg) _ _ _ _ Ha Hin). simpl. split; [by apply add_nonneg | done].
  - apply list_elem_of_fmap in Hin as (r & -> & [Hin Hn]%rides_at_elem).
    destruct (to_rides g Hg r Hin) as (H1 & H2 & H3 & H4). unfold ride_move. simpl. split.
    + apply add_nonneg; [|done]. apply add_nonneg; [apply add_nonneg; [done|]|].
      * by destruct (bool_decide _).
      * destruct (_ && _); [apply (to_penalty g Hg) | done].
    + by destruct (_ =? _).
Qed.

Lemma journey_in_graph g origin e :
  transit_ok g -> (N.to_nat origin < length (wg_nodes (tg_walk g)))%nat -> journey g origin e ->
  nonneg (en_cost e) = true /\ (N.to_nat (en_node e) < length (wg_nodes (tg_walk g)))%nat.
Proof.
  intros Hg Ho. induction 1 as [|e arcs next _ [IH _] Ha Hin]; [done|]. by eapply moves_in_graph.
Qed.

(** Where one gets to does not depend on the cost or the line of the entry. *)
Lemma moves_nodes g e e' arcs :
  en_node e = en_node e' -> map en_node (moves g e arcs) = map en_node (moves g e' arcs).
Proof.
  intros Heq. unfold moves, walk_moves. rewrite !map_app, !List.map_map, Heq. f_equal.
  - apply List.map_ext. by intros [].
  - apply List.map_ext. intros r. unfold ride_move. simpl. by rewrite Heq.
Qed.

(** ** The search ends *)

(** A measure of the distances that every improvement lowers *)
Definition pot (d : option f64) : nat :=
  match d with None => S (Z.to_nat infinity_units) | Some c => Z.to_nat (units c) end.
Definition potential (D : list (option f64)) : nat := sum_list_with pot D.
#[local] Arguments pot : simpl never.

Lemma potential_insert D i d x : D !! i = Some d -> (potential (<[i := x]> D) + pot d = potential D + pot x)%nat.
Proof.
  unfold potential. revert i. induction D as [|y D IH]; intros i Hi; [done|]. destruct i as [|i].
  - injection Hi as ->. change (<[0%nat := x]> (d :: D)) with (x :: D). cbn [sum_list_with]. lia.
  - change (<[S i := x]> (y :: D)) with (y :: <[i := x]> D). cbn [sum_list_with].
    specialize (IH i Hi). lia.
Qed.

Lemma pot_improved c d : nonneg c = true ->
  match d with None => True | Some k => (units c < units k)%Z end -> (pot (Some c) < pot d)%nat.
Proof. intros Hc. pose proof (units_nonneg c Hc). unfold pot. destruct d; intros; lia. Qed.

Lemma epsilon_nonneg : nonneg epsilon_minutes = true.
Proof. by vm_compute. Qed.

Section TransitTheory.
Variables (g : TransitGraph) (origin : N).
Hypothesis g_ok : transit_ok g.
Hypothesis origin_in : (N.to_nat origin < length (wg_nodes (tg_walk g)))%nat.

(** The distances are costs of journeys, and so are the queued entries. *)
Definition known_journeys (D : list (option f64)) : Prop :=
  length D = length (wg_nodes (tg_walk g))
  /\ forall u c, dist D u c -> exists e, journey g origin e /\ en_cost e = c /\ en_node e = N.of_nat u.

(** What improving with the entries [nexts] does: [new] were queued. *)
Record improved (nexts : list ride_entry) (D D' : list (option f64)) (new : list ride_entry) : Prop := {
  im_journeys : known_journeys D';
  im_new : forall e, e ∈ new -> e ∈ nexts;
  im_dist : forall u c, dist D' u c ->
    dist D u c \/ exists e, e ∈ new /\ en_node e = N.of_nat u /\ en_cost e = c;
  im_keep : forall u c, dist D u c -> exists c', dist D' u c';
  im_reached : forall e, e ∈ nexts -> exists c, dist D' (N.to_nat (en_node e)) c;
  im_potential : (length new + potential D' <= potential D)%nat }.

Lemma improve_all_spec nexts : forall D heap,
  known_journeys D -> (forall e, e ∈ nexts -> journey g origin e) ->
  exists D' new, improve_all nexts D heap = Some (D', heap ++ new) /\ improved nexts D D' new.
Proof.
  induction nexts as [|e nexts IH]; intros D heap HD Hj.
  { exists D, []. split; [simpl; by rewrite app_nil_r|]. constructor; try done.
    - by left.
    - intros u c Hu. by exists c.
    - by intros e ?%not_elem_of_nil. }
  pose proof HD as [Hl HD'].
  assert (He : journey g origin e) by (apply Hj, list_elem_of_here).
  destruct (journey_in_graph g origin e g_ok origin_in He) as [Hc Hn].
  assert (Hj' : forall e, e ∈ nexts -> journey g origin e) by (intros; by apply Hj, list_elem_of_further).
  destruct (lookup_lt_is_Some_2 D (N.to_nat (en_node e))) as [known Hk]; [by rewrite Hl|].
  cbn [improve_all]. unfold improve. rewrite Hk. cbn [mbind option_bind].
  destruct (match known with None => true | Some known => _ end) eqn:Hb.
  - set (D1 := <[N.to_nat (en_node e) := Some (en_cost e)]> D).
    assert (Hd1 : forall u c, dist D1 u c <-> (u = N.to_nat (en_node e) /\ c = en_cost e)
                                \/ (u <> N.to_nat (en_node e) /\ dist D u c)).
    { intros u c. apply dist_insert. by rewrite Hl. }
    assert (HD1 : known_journeys D1).
    { split; [unfold D1; by rewrite length_insert|]. intros u c [[-> ->]|[_ Hu]]%Hd1; [|by apply HD'].
      exists e. by rewrite N2Nat.id. }
    destruct (IH D1 (heap ++ [e]) HD1 Hj') as (D' & new & Hrun & [M1 M2 M3 M4 M5 M6]).
    exists D', (e :: new). split; [by rewrite Hrun, <-app_assoc|]. constructor; try done.
    + intros x [->|Hx]%elem_of_cons; [apply list_elem_of_here | by apply list_elem_of_further, M2].
    + intros u c Hu. destruct (M3 u c Hu) as [[[-> ->]|[_ Hd]]%Hd1|(x & Hx & ?)]; [| by left|].
      * right. exists e. rewrite N2Nat.id. split; [apply list_elem_of_here | done].
      * right. exists x. split; [by apply list_elem_of_further | done].
    + intros u c Hu. destruct (decide (u = N.to_nat (en_node e))) as [->|Hne].
      * apply (M4 _ (en_cost e)), Hd1. by left.
      * apply (M4 _ c), Hd1. by right.
    + intros x [->|Hx]%elem_of_cons; [|by apply M5]. apply (M4 _ (en_cost e)), Hd1. by left.
    + pose proof (potential_insert D _ known (Some (en_cost e)) Hk) as Hpot. fold D1 in Hpot.
      assert (Hlt : (pot (Some (en_cost e)) < pot known)%nat); [|cbn [length]; lia].
      apply pot_improved; [done|]. destruct known as [k|]; [|done].
      apply (sub_below k epsilon_minutes); [|apply epsilon_nonneg|done|done].
      destruct (HD' _ _ Hk) as (x & Hx & <- & _). by apply (journey_in_graph g origin x).
  - destruct known as [k|]; [|done].
    destruct (IH D heap HD Hj') as (D' & new & Hrun & [M1 M2 M3 M4 M5 M6]).
    exists D', new. split; [done|]. constructor; try done.
    + intros x Hx. by apply list_elem_of_further, M2.
    + intros x [->|Hx]%elem_of_cons; [by apply (M4 _ k) | by apply M5].
Qed.

(** [expanded] nodes have had their moves considered; the others that are known
    are queued with exactly their distance. *)
Record exploring (D : list (option f64)) (heap : list ride_entry) (expanded : gset nat) : Prop := {
  ex_journeys : known_journeys D;
  ex_heap : forall e, e ∈ heap -> journey g origin e;
  ex_open : forall u c, dist D u c -> u ∉ expanded ->
    exists e, e ∈ heap /\ en_node e = N.of_nat u /\ en_cost e = c;
  ex_expanded : forall e arcs next, N.to_nat (en_node e) ∈ expanded ->
    wg_adjacency (tg_walk g) !! N.to_nat (en_node e) = Some arcs -> next ∈ moves g e arcs ->
    exists c, dist D (N.to_nat (en_node next)) c }.

Lemma expand_entry D heap expanded e rest arcs D' new :
  exploring D heap expanded -> heap ≡ₚ e :: rest ->
  wg_adjacency (tg_walk g) !! N.to_nat (en_node e) = Some arcs ->
  improved (moves g e arcs) D D' new ->
  exploring D' (rest ++ new) ({[N.to_nat (en_node e)]} ∪ expanded).
Proof.
  intros [E1 E2 E3 E4] Hp Ha [M1 M2 M3 M4 M5 M6].
  assert (Hje : journey g origin e) by (apply E2; rewrite Hp; apply list_elem_of_here).
  constructor; [done|..].
  - intros x [Hx|Hx]%elem_of_app; [apply E2; rewrite Hp; by apply list_elem_of_further|].
    apply (journey_move g origin e arcs); [done|done|]. by apply M2.
  - intros u c Hu Hx. destruct (M3 u c Hu) as [Hd|(x & Hin & ?)].
    + destruct (E3 u c Hd) as (x & Hin & Hn & Hc); [set_solver|]. exists x. split; [|done].
      apply elem_of_app. left. rewrite Hp in Hin. apply elem_of_cons in Hin as [->|]; [|done].
      rewrite Hn, Nat2N.id in Hx. set_solver.
    + exists x. split; [|done]. apply elem_of_app. by right.
  - intros x arcs' next Hx Ha' Hin. destruct (decide (N.to_nat (en_node x) = N.to_nat (en_node e))) as [Heq|Hne].
    + assert (Hn : en_node x = en_node e) by lia. rewrite Hn, Ha in Ha'. injection Ha' as <-.
      assert (Hnode : en_node next ∈ map en_node (moves g e arcs)).
      { rewrite <-(moves_nodes g x e arcs Hn). apply list_elem_of_fmap. by exists next. }
      apply list_elem_of_fmap in Hnode as (y & -> & Hy). by apply M5.
    + destruct (E4 x arcs' next) as [c Hc]; [set_solver|done|done|]. by apply (M4 _ c).
Qed.

Lemma drop_entry D heap expanded e rest k :
  exploring D heap expanded -> heap ≡ₚ e :: rest -> dist D (N.to_nat (en_node e)) k ->
  f64_ltb (f64_add k epsilon_minutes) (en_cost e) = true -> exploring D rest expanded.
Proof.
  intros [E1 E2 E3 E4] Hp Hk Hlt. constructor; try done.
  - intros x Hx. apply E2. rewrite Hp. by apply list_elem_of_further.
  - intros u c Hu Hx. destruct (E3 u c Hu Hx) as (x & Hin & Hn & Hc). exists x. split; [|done].
    rewrite Hp in Hin. apply elem_of_cons in Hin as [->|]; [|done]. exfalso.
    rewrite Hn, Nat2N.id in Hk. rewrite (dist_fun _ _ _ _ Hk Hu) in Hlt.
    destruct (proj2 E1 u c Hu) as (y & Hy & Hyc & _).
    assert (Hcn : nonneg c = true) by (rewrite <-Hyc; by apply (journey_in_graph g origin y)).
    rewrite Hc in Hlt. pose proof epsilon_nonneg as He.
    apply ltb_units in Hlt; [|by apply add_nonneg | done].
    pose proof (units_add_ge c epsilon_minutes Hcn He). lia.
Qed.

Lemma transit_settle_spec `{Heap ride_entry ride_key} fuel : forall D heap expanded,
  exploring D heap expanded -> (length heap + potential D <= fuel)%nat ->
  exists D' expanded', transit_settle g fuel D heap = Some D' /\ exploring D' [] expanded'
    /\ forall u c, dist D u c -> exists c', dist D' u c'.
Proof.
  induction fuel as [|fuel IH]; intros D heap expanded He Hf;
    cbn [transit_settle]; destruct (heap_pop heap) as [[e rest]|] eqn:Hpop.
  1: { apply heap_pop_perm in Hpop as Hp. rewrite Hp in Hf. simpl in Hf. lia. }
  1,3: apply heap_pop_none in Hpop as ->; exists D, expanded; split_and!; [done|done|];
       intros u c Hc; by exists c.
  apply heap_pop_perm in Hpop as Hp. rewrite Hp in Hf. cbn [length] in Hf.
  assert (Hje : journey g origin e) by (apply (ex_heap _ _ _ He); rewrite Hp; apply list_elem_of_here).
  destruct (journey_in_graph g origin e g_ok origin_in Hje) as [Hc Hn].
  destruct (ex_journeys _ _ _ He) as [Hl _].
  destruct (lookup_lt_is_Some_2 D (N.to_nat (en_node e))) as [known Hk]; [by rewrite Hl|].
  rewrite Hk. cbn [mbind option_bind].
  destruct (match known with Some known => _ | None => false end) eqn:Hb.
  - destruct known as [k|]; [|done]. apply (IH D rest expanded); [by eapply drop_entry | lia].
  - destruct (lookup_lt_is_Some_2 (wg_adjacency (tg_walk g)) (N.to_nat (en_node e))) as [arcs Ha].
    { by rewrite (ok_rows _ (to_walk g g_ok)). }
    rewrite Ha. cbn [mbind option_bind].
    destruct (improve_all_spec (moves g e arcs) D rest) as (D1 & new & Hrun & Him).
    { apply (ex_journeys _ _ _ He). }
    { intros x Hx. by apply (journey_move g origin e arcs). }
    rewrite Hrun. cbn [mbind option_bind].
    pose proof (expand_entry D heap expanded e rest arcs D1 new He Hp Ha Him) as He1.
    destruct (IH D1 (rest ++ new) _ He1) as (D' & expanded' & ? & ? & Hm).
    { pose proof (im_potential _ _ _ _ Him). rewrite length_app. lia. }
    exists D', expanded'. split_and!; [done|done|]. intros u c Hu.
    destruct (im_keep _ _ _ _ Him u c Hu) as [c1 Hu1]. by apply (Hm u c1).
Qed.

Lemma initial_exploring :
  exploring (<[N.to_nat origin := Some f64_zero]> (replicate (length (wg_nodes (tg_walk g))) None))
    [{| en_cost := f64_zero; en_node := origin; en_line := None |}] ∅.
Proof.
  assert (Hd : forall u c, dist (<[N.to_nat origin := Some f64_zero]>
      (replicate (length (wg_nodes (tg_walk g))) None)) u c <-> u = N.to_nat origin /\ c = f64_zero).
  { intros u c. rewrite dist_insert by (by rewrite length_replicate). split; [|by left].
    intros [?|[_ Hn]]; [done|]. unfold dist in Hn. by apply lookup_replicate in Hn as [? _]. }
  constructor.
  - split; [by rewrite length_insert, length_replicate|]. intros u c [-> ->]%Hd.
    eexists. split; [apply journey_start|]. simpl. by rewrite N2Nat.id.
  - intros e ->%list_elem_of_singleton. apply journey_start.
  - intros u c [-> ->]%Hd _. eexists. split; [by apply list_elem_of_singleton|]. simpl. by rewrite N2Nat.id.
  - intros e arcs next Hx. set_solver.
Qed.
End TransitTheory.

(** ** Hulls *)

Lemma pop_turns_subset point chain p : p ∈ pop_turns point chain -> p ∈ chain.
Proof.
  induction chain as [|c chain IH]; [done|]. destruct chain as [|b chain]; [done|].
  cbn [pop_turns]. destruct (f64_leb _ _); [|done]. intros Hp. apply list_elem_of_further. by apply IH.
Qed.

Lemma half_hull_subset points p : p ∈ half_hull points -> p ∈ points.
Proof.
  unfold half_hull. assert (Hg : forall chain, p ∈ foldl (fun chain point => point :: pop_turns point chain) chain points ->
    p ∈ chain \/ p ∈ points); [|intros Hp; by destruct (Hg [] Hp) as [?%not_elem_of_nil|]].
  induction points as [|q points IH]; intros chain Hp; simpl in Hp; [by left|].
  apply IH in Hp as [[->|Hp]%elem_of_cons|Hp].
  - right. apply list_elem_of_here.
  - left. by eapply pop_turns_subset.
  - right. by apply list_elem_of_further.
Qed.

Lemma dedup_coords_subset l p : p ∈ dedup_coords l -> p ∈ l.
Proof.
  assert (Hg : forall l q, p ∈ dedup_coords_after q l -> p ∈ l).
  { clear l. induction l as [|x l IH]; intros q Hp; simpl in Hp; [done|].
    destruct (coord_eqb x q); [by apply list_elem_of_further, (IH q)|].
    apply elem_of_cons in Hp as [->|Hp]; [apply list_elem_of_here|].
    by apply list_elem_of_further, (IH x). }
  destruct l as [|x l]; simpl; [done|]. intros [->|Hp]%elem_of_cons; [apply list_elem_of_here|].
  by apply list_elem_of_further, (Hg l x).
Qed.

Lemma tail_subset {A} (l : list A) p : p ∈ tail l -> p ∈ l.
Proof. destruct l; [done|]. by apply list_elem_of_further. Qed.

Lemma convex_hull_subset points p : p ∈ convex_hull points -> p ∈ points.
Proof.
  unfold convex_hull. set (sorted := dedup_coords _).
  assert (Hs : forall q, q ∈ sorted -> q ∈ points).
  { intros q Hq. apply dedup_coords_subset in Hq. by apply elem_of_stable_sort in Hq. }
  destruct (_ <? _)%nat; [by apply Hs|].
  rewrite elem_of_app, !elem_of_reverse. intros [Hp|Hp]; apply tail_subset, half_hull_subset in Hp;
    apply Hs; [done|]. by rewrite elem_of_reverse in Hp.
Qed.

(** ** Properties *)

(** C38: on a multimodal graph the constructor accepts, over a well-formed walk
    graph, the search ends and never indexes out of bounds; a node is given a
    time exactly when some journey on foot and by ride reaches it, and that time
    is the cost of a journey, waits and transfer penalties included. *)
Theorem transit_times_are_journeys `{Heap ride_entry ride_key} walk stops rides penalty g origin :
  transit_new walk stops rides penalty = Ok g -> graph_ok walk -> canonical penalty = true ->
  Forall (fun r => canonical (ride_minutes r) = true /\ canonical (wait_minutes r) = true) rides ->
  (N.to_nat origin < length (wg_nodes (tg_walk g)))%nat ->
  exists fuel times, transit_times_from g fuel origin = Some times
  /\ length times = length (wg_nodes (tg_walk g))
  /\ (forall u c, times !! u = Some (Some c) ->
        exists e, journey g origin e /\ en_cost e = c /\ en_node e = N.of_nat u)
  /\ forall e, journey g origin e -> exists c, times !! N.to_nat (en_node e) = Some (Some c).
Proof.
  intros Hnew Hw Hp Hr Ho.
  assert (Hg : transit_ok g) by (by eapply transit_new_ok).
  pose proof (initial_exploring g origin Hg Ho) as He.
  match type of He with exploring _ _ ?D ?h _ => set (D0 := D) in *; set (h0 := h) in * end.
  destruct (transit_settle_spec g origin Hg Ho (length h0 + potential D0) D0 h0 ∅ He)
    as (D & expanded & Hrun & Hs & Hm); [done|].
  destruct (lookup_lt_is_Some_2 (replicate (length (wg_nodes (tg_walk g))) (@None f64)) (N.to_nat origin)) as [? Hlk];
    [by rewrite length_replicate|].
  exists (length h0 + potential D0)%nat, D. destruct (ex_journeys _ _ _ _ _ Hs) as [Hl Hj]. split_and!.
  - unfold transit_times_from. rewrite Hlk. exact Hrun.
  - done.
  - exact Hj.
  - induction 1 as [|e arcs next Hje [c Hc] Ha Hin].
    + apply (Hm _ f64_zero). apply dist_insert; [by rewrite length_replicate | by left].
    + assert (Hx : N.to_nat (en_node e) ∈ expanded).
      { apply dec_stable. intros Hx. destruct (ex_open _ _ _ _ _ Hs _ c Hc Hx) as (? & Hn & _).
        by apply not_elem_of_nil in Hn. }
      by apply (ex_expanded _ _ _ _ _ Hs e arcs next).
Qed.

(** Every vertex of an isochrone is the position of a node, and the origin is
    always within the threshold: the "reaches no nodes" error is never made. *)
Theorem isochrone_reaches_origin `{F64Display} `{NetworkHost} `{Heap entry id} g origin threshold :
  graph_ok g -> (N.to_nat origin < length (wg_nodes g))%nat ->
  f64_is_finite threshold = true -> f64_ltb f64_zero threshold = true ->
  exists iso, isochrone g origin threshold = Some (Ok iso)
    /\ forall p, p ∈ vertices iso -> p ∈ wg_nodes g.
Proof.
  intros Hg Ho Hf Hpos. unfold isochrone. rewrite Hf, Hpos. cbn [andb negb].
  destruct (search_result g origin Hg Ho) as (times & -> & Hl & Hmin & Hnone). cbn [mbind option_bind].
  set (reachable := map snd _).
  assert (Hsub : forall p, p ∈ reachable -> p ∈ wg_nodes g).
  { intros p ([c q] & -> & [_ Hz]%list_elem_of_filter)%list_elem_of_fmap. simpl.
    by apply elem_of_zip_r in Hz. }
  rewrite bool_decide_eq_false_2; [eexists; split; [done|]; intros p Hp; by apply Hsub, convex_hull_subset|].
  destruct (lookup_lt_is_Some_2 times (N.to_nat origin)) as [[c|] Ht]; [by rewrite Hl| |].
  - destruct (lookup_lt_is_Some_2 (wg_nodes g) (N.to_nat origin) Ho) as [q Hq].
    assert (Hin : q ∈ reachable).
    { apply list_elem_of_fmap. exists (Some c, q). split; [done|]. apply list_elem_of_filter. simpl. split.
      - destruct (Hmin _ _ Ht) as [Hr Hall]. specialize (Hall f64_zero (route_here g origin)).
        assert (is_number c = true) by (by eapply nonneg_number, route_nonneg).
        assert (is_number threshold = true) by (by apply finite_number).
        assert (is_number f64_zero = true) by done. float_order.
      - apply list_elem_of_lookup. exists (N.to_nat origin). apply lookup_zip_with_Some. by exists (Some c), q. }
    intros Hn. rewrite Hn in Hin. by apply not_elem_of_nil in Hin.
  - by destruct (Hnone _ Ht f64_zero (route_here g origin)).
Qed.

(** ** Concrete journeys *)

(** A line over three crossings; its first two are also joined by a street. *)
Definition line_ride (from to : N) : RideEdge :=
  {| from_walk_node := from; to_walk_node := to; ride_line := "rail"; ride_minutes := f64_of_Z 1;
     wait_minutes := f64_of_Z 10 |}.
Definition rail_street : WalkGraph :=
  {| wg_nodes := [(f64_zero, f64_zero); (f64_of_Z 1, f64_zero); (f64_of_Z 2, f64_zero)];
     wg_adjacency := [[(1, f64_lit 21 (-1))]; [(0, f64_lit 21 (-1))]; []];
     wg_edge_count := 1; wg_total_length_m := f64_zero; wg_walk_speed := f64_of_Z 80 |}.
Definition rail : TransitGraph :=
  {| tg_walk := rail_street; tg_stops := []; tg_rides := [line_ride 0 1; line_ride 1 2];
     transfer_penalty := f64_of_Z 5 |}.

Lemma transit_times_are_journeys_witness :
  transit_new rail_street [] [line_ride 0 1; line_ride 1 2] (f64_of_Z 5) = Ok rail
  /\ exists fuel times, transit_times_from rail fuel 0 = Some times /\ length times = 3%nat.
Proof.
  assert (Hnew : transit_new rail_street [] [line_ride 0 1; line_ride 1 2] (f64_of_Z 5) = Ok rail)
    by (by vm_compute).
  split; [exact Hnew|].
  destruct (transit_times_are_journeys _ _ _ _ rail 0 Hnew) as (fuel & times & Ht & Hl & _).
  - apply graph_okb_ok. by vm_compute.
  - by vm_compute.
  - repeat constructor.
  - apply (bool_decide_unpack _). by vm_compute.
  - exists fuel, times. exact (conj Ht Hl).
Defined.

(** The time of a node does not depend on how one arrived, so the search forgets
    who stayed on board: walking to the second stop in ten and a half minutes
    beats riding to it in eleven, and the third is then given as twenty-one and
    a half minutes although riding through takes twelve. *)
Theorem riding_through_is_missed :
  transit_times_from rail 10 0 = Some [Some f64_zero; Some (f64_lit 21 (-1)); Some (f64_lit 43 (-1))]
  /\ journey rail 0 {| en_cost := f64_of_Z 12; en_node := 2; en_line := Some "rail" |}.
Proof.
  split; [by vm_compute|].
  apply (journey_move rail 0 {| en_cost := f64_of_Z 11; en_node := 1; en_line := Some "rail" |}
           [(0, f64_lit 21 (-1))]); [|done|].
  - apply (journey_move rail 0 {| en_cost := f64_zero; en_node := 0; en_line := None |}
             [(1, f64_lit 21 (-1))]); [constructor | done |].
    apply list_elem_of_lookup. exists 1%nat. by vm_compute.
  - apply list_elem_of_lookup. exists 2%nat. by vm_compute.
Qed.
