(* ===== verification/Command.v ===== *)
(** * The command bus (crates/genegis-core/src/command.rs)

    Every mutation of a project goes through an envelope dispatched by the bus:
    guards on reviewed workflows, an executor call, a mutation of the project,
    and then the history, the state snapshots and the audit log. The bus and the
    caller's project are the state of a state-error monad; an [expect] or an
    [unreachable!] is the error [Panicked]. Executors, the texts of errors and
    the JSON of a log are parameters; the clock is an argument. *)

From S2P Require Import Prelude RustStd Ordering Crs Json GeoContract WorkflowGraph EditLayer MapStyle Project WorkflowDigest.
Local Open Scope N_scope.

(** ** Data *)

Inductive CommandOrigin := Ui | Ai | Cli | Plugin | System.

(** [WorkflowDigest]: [new] trims; serde's transparent form does not. *)
Definition workflow_digest_new (value : string) : string := trim value.

Record InputSnapshot := mkSnapshot {
  sn_name : string;
  sn_source : SourceSnapshot;
  sn_crs : option Crs;
  sn_coordinate_unit : option CoordinateUnit;
  sn_value_unit : option string }.

Record MutationWorkflowBinding := mkBinding { bound_workflow : string; bound_node : string }.

Inductive Command :=
| RegisterStacEndpoint (endpoint_id title url auth_kind : string) (auth_env auth_header : option string)
| RemoveStacEndpoint (endpoint_id : string)
| SearchFederatedStac (endpoint_ids : list string) (bounds : option bbox) (datetime : option string)
    (collections : list string) (limit : option N)
| BindStacAsset (stac_item_key asset_key : string) (source_endpoints : list string)
    (href media_type crs units license : string)
| ReadRemoteGeoParquet (uri : string) (row_groups : option (list N))
| AddLayer (name source_id : string)
| RemoveLayer (layer_id : string)
| SetLayerVisibility (layer_id : string) (visible : bool)
| SetViewCamera (view_id : string) (center : f64 * f64) (zoom : f64)
| InitializeEditableLayer (layer_id : string) (crs : Crs) (geometry_kind : EditableGeometryKind)
    (schema : FeatureSchema) (workflow : MutationWorkflowBinding)
| EditFeatures (layer_id : string) (expected_layer_revision : N) (edit : FeatureEdit)
    (workflow : MutationWorkflowBinding)
| SetEvidenceMapStyle (style : EvidenceMapStyle) (workflow : MutationWorkflowBinding)
| RunWorkflow (workflow_id : string)
| Undo
| Redo.

Record CommandEnvelope := mkEnvelope {
  env_id : string;
  origin : CommandOrigin;
  timestamp : string;
  env_digest : option string;
  source_snapshots : list SourceSnapshot;
  input_snapshots : list InputSnapshot;
  command : Command }.

Record WorkflowExecutionContext := mkContext {
  cx_digest : string;
  cx_command_id : string;
  cx_timestamp : string;
  cx_source_snapshots : list SourceSnapshot;
  cx_input_snapshots : list InputSnapshot }.
Record WorkflowExecutionEvent := mkExecutionEvent {
  event_kind : string; event_source_uri : option string; observed_at : string; event_details : json }.
Record WorkflowExecution := mkExecution {
  result_digest : string; output : json; evidence : json; events : list WorkflowExecutionEvent }.
Record WorkflowExecutionRecord := mkExecutionRecord {
  rec_command_id : string; rec_workflow_digest : string; rec_result_digest : string;
  rec_output : json; rec_evidence : json; rec_events : list WorkflowExecutionEvent }.
(** An implementation of the trait [WorkflowExecutor]: what one call answers *)
Abbreviation WorkflowExecutor := (GeoWorkflow -> WorkflowExecutionContext -> result string WorkflowExecution).

Record CommandExecution := mkCommandExecution {
  ce_command_id : string;
  ce_state_digest : string;
  ce_workflow_digest : option string;
  ce_result_digest : option string;
  ce_output : option json;
  ce_evidence : option json;
  ce_events : list WorkflowExecutionEvent;
  ce_cursor : nat }.

Inductive CommandError :=
| TargetNotFound (target : string)
| UnsupportedCommand (description : string)
| WorkflowNotRegistered (workflow_id : string)
| WorkflowInvalid (reason : string)
| ExecutorRequired
| WorkflowExecutionFailed (reason : string)
| EmptyResultDigest
| MissingWorkflowDigest
| WorkflowDigestMismatch (expected actual : string)
| MutationWorkflowBindingError (reason : string)
| FeatureEditRejected (reason : string)
| MapStyleRejected (reason : string)
| MissingInputSnapshot (input : string)
| InputSnapshotMismatch (input : string)
| NothingToUndo
| NothingToRedo
| MissingStateSnapshot
| UnsupportedLogSchema (version : N)
| MissingLogDigest
| LogDigestMismatch (expected observed : string)
| ReplayDigestMismatch (expected observed : string)
| Io (reason : string)
| JsonError (reason : string).
(** An error value, or an [expect] that fails *)
Abbreviation bus_fault := (fault CommandError).

Record CommandBus := mkBus {
  history : list CommandEnvelope;
  cursor : nat;
  before_states : list Project;
  after_states : list Project;
  initial_state : option Project;
  current_state : option Project;
  audit_log : list CommandEnvelope;
  workflows : gmap string GeoWorkflow;
  workflow_executions : gmap string WorkflowExecutionRecord;
  expected_replay_digest : option string }.

Record CommandLog := mkLog {
  log_schema_version : N;
  log_initial_state : Project;
  log_commands : list CommandEnvelope;
  log_audit_log : list CommandEnvelope;
  log_cursor : nat;
  log_workflows : list GeoWorkflow;
  log_executions : list WorkflowExecutionRecord;
  log_state_digest : string;
  log_digest : option string }.

(** ** Constructors *)

(** [InputSnapshot::new], [with_crs], [with_value_unit] *)
Definition snapshot_new (name : string) (source : SourceSnapshot) : InputSnapshot :=
  {| sn_name := name; sn_source := source; sn_crs := None; sn_coordinate_unit := None;
     sn_value_unit := None |}.
Definition snapshot_with_crs (c : Crs) (s : InputSnapshot) : InputSnapshot :=
  {| sn_name := sn_name s; sn_source := sn_source s; sn_crs := Some c;
     sn_coordinate_unit := Some (Crs.coordinate_unit c); sn_value_unit := sn_value_unit s |}.
Definition snapshot_with_value_unit (u : string) (s : InputSnapshot) : InputSnapshot :=
  {| sn_name := sn_name s; sn_source := sn_source s; sn_crs := sn_crs s;
     sn_coordinate_unit := sn_coordinate_unit s; sn_value_unit := Some u |}.

(** [CommandEnvelope::new] with its fresh UUID and instant, and the builders *)
Definition envelope_new (id now : string) (o : CommandOrigin) (c : Command) : CommandEnvelope :=
  {| env_id := id; origin := o; timestamp := now; env_digest := None; source_snapshots := [];
     input_snapshots := []; command := c |}.
Definition with_workflow_digest (digest : string) (e : CommandEnvelope) : CommandEnvelope :=
  {| env_id := env_id e; origin := origin e; timestamp := timestamp e;
     env_digest := Some (workflow_digest_new digest); source_snapshots := source_snapshots e;
     input_snapshots := input_snapshots e; command := command e |}.
Definition add_source_snapshot (s : SourceSnapshot) (e : CommandEnvelope) : CommandEnvelope :=
  {| env_id := env_id e; origin := origin e; timestamp := timestamp e; env_digest := env_digest e;
     source_snapshots := source_snapshots e ++ [s]; input_snapshots := input_snapshots e;
     command := command e |}.
Definition add_input_snapshot (s : InputSnapshot) (e : CommandEnvelope) : CommandEnvelope :=
  {| env_id := env_id e; origin := origin e; timestamp := timestamp e; env_digest := env_digest e;
     source_snapshots := source_snapshots e; input_snapshots := input_snapshots e ++ [s];
     command := command e |}.

(** [CommandBus::new] *)
Definition bus_new (initial : Project) : CommandBus :=
  {| history := []; cursor := 0; before_states := []; after_states := [];
     initial_state := Some initial; current_state := Some initial; audit_log := [];
     workflows := ∅; workflow_executions := ∅; expected_replay_digest := None |}.

(** ** What else the bus uses *)

(** Texts that only reach error messages: [Display] of the workflow and edit
    errors and [Debug] of a command and of a string *)
Class CommandText := {
  workflow_error_text : WorkflowValidationError -> string;
  debug_string : string -> string;
  debug_command : Command -> string }.

Definition edit_error_text (e : EditError) : string :=
  match e with
  | StaleRevision expected actual =>
      "stale revision: expected " +:+ show_N expected +:+ ", actual " +:+ show_N actual
  | FeatureNotFound id => "feature not found: " +:+ id
  | DuplicateFeature id => "duplicate feature identity: " +:+ id
  | Geometry reason => "invalid geometry: " +:+ reason
  | AttributesError reason => "invalid attributes: " +:+ reason
  | Conservation reason => "topology conservation failed: " +:+ reason
  | LayerError reason => "invalid editable layer: " +:+ reason
  end.
Definition style_error_text (e : StyleError) : string :=
  match e with
  | InvalidStyle reason => "invalid map style: " +:+ reason
  | Layout reason => "invalid map layout: " +:+ reason
  | Feature reason => "invalid render feature: " +:+ reason
  | Evidence reason => "invalid map evidence: " +:+ reason
  | Serialization reason => "map metadata serialization failed: " +:+ reason
  end.

Abbreviation fallible A := (result bus_fault A).
(** A mutation of the project; a method with [&mut self] and [&mut Project] *)
Abbreviation mutation A := (st Project bus_fault A).
Abbreviation session := (CommandBus * Project)%type.
Abbreviation bus_run A := (st (CommandBus * Project)%type bus_fault A).

(** [iter_mut().find(..)] and then a write through the borrow: the element found
    and the list with another element in its place *)
Definition find_slot {A} (test : A -> bool) (l : list A) : option (nat * A) :=
  list_find (fun a => test a = true) l.

(** ** Guards *)

Definition same_source_identity (left right : SourceSnapshot) : bool :=
  let forget s := {| dataset_id := dataset_id s; uri := uri s; license := license s; checksum := checksum s;
    expected_checksum := expected_checksum s; observed_checksum := observed_checksum s;
    retrieved_at := None; source_version := source_version s; checksum_status := checksum_status s |} in
  bool_decide (forget left = forget right).

(** The three loops of [validate_input_snapshots] *)
Definition check_source_snapshot (w : GeoWorkflow) (s : SourceSnapshot) : fallible unit :=
  let known := existsb (fun c => match source_snapshot c with
    | Some expected => same_source_identity s expected | None => false end) (input_contracts w) in
  let belongs_to_contract := existsb (fun c =>
    match source_snapshot c ≫= dataset_id, dataset_id s with
    | Some expected, Some observed => bool_decide (expected = observed) | _, _ => false end)
    (input_contracts w) in
  let supplemental_catalog_source := bool_decide (is_Some (dataset_id s)) && negb belongs_to_contract in
  err_if (negb known && negb supplemental_catalog_source
          && negb match input_contracts w with [] => true | _ => false end)
    (Error (InputSnapshotMismatch (uri s))).
Definition check_input_snapshot (w : GeoWorkflow) (s : InputSnapshot) : fallible unit :=
  contract ← ok_or (List.find (fun c => bool_decide (ic_name c = sn_name s)) (input_contracts w))
    (Error (InputSnapshotMismatch (sn_name s)));
  err_if (negb match source_snapshot contract with
               | Some expected => same_source_identity (sn_source s) expected | None => true end)
    (Error (InputSnapshotMismatch (sn_name s))).
Definition check_contract (e : CommandEnvelope) (c : WorkflowInputContract) : fallible unit :=
  match source_snapshot c with
  | None => Ok tt
  | Some expected =>
      let input_match :=
        match List.find (fun s => bool_decide (sn_name s = ic_name c)) (input_snapshots e) with
        | Some s => same_source_identity (sn_source s) expected | None => false end in
      let source_match := existsb (fun s => same_source_identity s expected) (source_snapshots e) in
      err_if (negb input_match && negb source_match)
        (Error match input_snapshots e, source_snapshots e with
               | [], [] => MissingInputSnapshot (ic_name c)
               | _, _ => InputSnapshotMismatch (ic_name c) end)
  end.
Definition validate_input_snapshots (w : GeoWorkflow) (e : CommandEnvelope) : fallible unit :=
  for_each (check_source_snapshot w) (source_snapshots e);;
  for_each (check_input_snapshot w) (input_snapshots e);;
  for_each (check_contract e) (input_contracts w).

Section Bus.
Context `{F64Display} `{JsonText} `{SvgHost} `{F32Json} `{GeoContractJson} `{CommandText}.

Definition validate_workflow_command (b : CommandBus) (e : CommandEnvelope) : fallible (option string) :=
  match command e with
  | RunWorkflow id =>
      workflow ← ok_or (workflows b !! id) (Error (WorkflowNotRegistered id));
      let invalid error := WorkflowInvalid (workflow_error_text error) in
      checked_run invalid (validate sha256_hex workflow);;
      digest ← checked_run invalid (stable_digest workflow);
      let actual := workflow_digest_new digest in
      expected ← ok_or (env_digest e) (Error MissingWorkflowDigest);
      err_if (negb (bool_decide (expected = actual))) (Error (WorkflowDigestMismatch expected actual));;
      validate_input_snapshots workflow e;;
      Ok (Some actual)
  | _ => Ok None
  end.

(** The binding of a mutation and the operation its node must have *)
Definition mutation_binding (c : Command) : option (MutationWorkflowBinding * string) :=
  match c with
  | InitializeEditableLayer _ _ _ _ workflow => Some (workflow, "InitializeEditableLayer")
  | EditFeatures _ _ edit workflow => Some (workflow, workflow_operation edit)
  | SetEvidenceMapStyle _ workflow => Some (workflow, "SetEvidenceMapStyle")
  | _ => None
  end.
Definition validate_mutation_workflow (b : CommandBus) (e : CommandEnvelope) : fallible unit :=
  match mutation_binding (command e) with
  | None => Ok tt
  | Some (binding, expected_operation) =>
      let rejected reason := MutationWorkflowBindingError reason in
      workflow ← ok_or (workflows b !! bound_workflow binding)
        (Error (rejected ("workflow " +:+ bound_workflow binding +:+ " is not registered")));
      checked_run (fun error => rejected (workflow_error_text error)) (validate sha256_hex workflow);;
      actual ← checked_run (fun error => rejected (workflow_error_text error)) (stable_digest workflow);
      expected ← ok_or (env_digest e) (Error (rejected "command envelope has no workflow digest"));
      err_if (negb (bool_decide (expected = actual))) (Error (WorkflowDigestMismatch expected actual));;
      node ← ok_or (List.find (fun step => bool_decide (node_id sha256_hex step = bound_node binding))
                      (steps workflow))
        (Error (rejected ("node " +:+ bound_node binding +:+ " does not exist")));
      err_if (negb (bool_decide (operation node = expected_operation)))
        (Error (rejected ("node " +:+ bound_node binding +:+ " operation is "
           +:+ debug_string (operation node) +:+ ", expected " +:+ debug_string expected_operation)))
  end.

(** ** Mutations of the project *)

(** [{:?}] of the origin in lower case *)
Definition origin_text (o : CommandOrigin) : string :=
  match o with Ui => "ui" | Ai => "ai" | Cli => "cli" | Plugin => "plugin" | System => "system" end.

Definition provenance_workflow (c : Command) : option string :=
  match c with
  | RunWorkflow id => Some id
  | InitializeEditableLayer _ _ _ _ workflow | EditFeatures _ _ _ workflow
  | SetEvidenceMapStyle _ workflow => Some (bound_workflow workflow)
  | _ => None
  end.
Definition record_command_provenance (e : CommandEnvelope) (action target : string) (details : json)
    : mutation unit :=
  modify (fun p =>
    let w := workspace_of p in
    with_workspace (set_provenance (ws_provenance w ++
      [{| pe_id := env_id e; pe_timestamp := timestamp e; pe_actor := origin_text (origin e);
          pe_action := action; pe_target := target; pe_details := details; pe_agent_run_id := None;
          pe_workflow_id := provenance_workflow (command e) |}]) w) p).

(** A write to the workspace *)
Definition update_workspace (f : Workspace -> Workspace) : mutation unit :=
  modify (fun p => with_workspace (f (workspace_of p)) p).
Definition read_workspace : mutation Workspace := p ← get; mret (workspace_of p).
Definition reject {A} (e : CommandError) : mutation A := lift (Err (Error e)).
Definition found {A} (o : option A) (target : string) : mutation A :=
  lift (ok_or o (Error (TargetNotFound target))).

Definition binding_json (e : CommandEnvelope) (b : MutationWorkflowBinding) : list (string * json) :=
  [("workflow_id", JString (bound_workflow b)); ("workflow_node", JString (bound_node b));
   ("workflow_digest", json_option JString (env_digest e))].
Definition event_json (v : WorkflowExecutionEvent) : json :=
  JObject ([("kind", JString (event_kind v))] ++ optional "source_uri" JString (event_source_uri v)
           ++ [("observed_at", JString (observed_at v)); ("details", event_details v)]).
Definition input_snapshot_json (s : InputSnapshot) : json :=
  JObject ([("name", JString (sn_name s)); ("source", source_json (sn_source s))]
           ++ optional "crs" crs_json (sn_crs s)
           ++ optional "coordinate_unit" coordinate_unit_json (sn_coordinate_unit s)
           ++ optional "value_unit" JString (sn_value_unit s)).
Definition receipt_json (r : EditReceipt) : json :=
  JObject [("before_revision", json_N (before_revision r)); ("after_revision", json_N (after_revision r));
           ("changed_features", JArray (map JString (changed_features r)))].

Definition mutate_add_layer (now : string) (e : CommandEnvelope) (name source_id : string) : mutation unit :=
  let layer := {| la_id := env_id e; la_name := name; la_kind := LK_Vector; la_source_id := source_id;
    la_crs := None; la_extent := None; la_time_extent := None; la_statistics := statistics_default;
    la_style_id := None; la_visible := true; la_opacity := f32_one |} in
  w ← read_workspace;
  lift (err_if (existsb (fun l => bool_decide (la_id l = env_id e)) (ws_layers w))
          (Error (UnsupportedCommand "AddLayer would duplicate envelope identity")));;
  update_workspace (add_layer now layer);;
  record_command_provenance e "add_layer" (env_id e)
    (JObject [("name", JString name); ("source_id", JString source_id)]).

Definition mutate_remove_layer (e : CommandEnvelope) (id : string) : mutation unit :=
  w ← read_workspace;
  '(i, _) ← found (find_slot (fun l => bool_decide (la_id l = id)) (ws_layers w)) ("layer " +:+ id);
  update_workspace (fun w => set_layers (delete i (ws_layers w)) w);;
  update_workspace (touch (timestamp e));;
  record_command_provenance e "remove_layer" id (JObject []).

Definition with_visible (v : bool) (l : Layer) : Layer :=
  {| la_id := la_id l; la_name := la_name l; la_kind := la_kind l; la_source_id := la_source_id l;
     la_crs := la_crs l; la_extent := la_extent l; la_time_extent := la_time_extent l;
     la_statistics := la_statistics l; la_style_id := la_style_id l; la_visible := v;
     la_opacity := la_opacity l |}.
Definition mutate_visibility (e : CommandEnvelope) (id : string) (visible : bool) : mutation unit :=
  w ← read_workspace;
  '(i, l) ← found (find_slot (fun l => bool_decide (la_id l = id)) (ws_layers w)) ("layer " +:+ id);
  update_workspace (fun w => set_layers (<[i := with_visible visible l]> (ws_layers w)) w);;
  update_workspace (touch (timestamp e));;
  record_command_provenance e "set_layer_visibility" id (JObject [("visible", JBool visible)]).

Definition with_camera (center : f64 * f64) (zoom : f64) (v : View) : View :=
  {| vi_id := vi_id v; vi_name := vi_name v; vi_kind := vi_kind v; vi_layer_ids := vi_layer_ids v;
     vi_crs := vi_crs v; vi_center := Some center; vi_zoom := Some zoom |}.
Definition mutate_camera (e : CommandEnvelope) (id : string) (center : f64 * f64) (zoom : f64)
    : mutation unit :=
  w ← read_workspace;
  '(i, v) ← found (find_slot (fun v => bool_decide (vi_id v = id)) (ws_views w)) ("view " +:+ id);
  update_workspace (fun w => set_views (<[i := with_camera center zoom v]> (ws_views w)) (ws_active_view w) w);;
  update_workspace (touch (timestamp e));;
  record_command_provenance e "set_view_camera" id
    (JObject [("center", json_point center); ("zoom", number_json zoom)]).

Definition mutate_initialize (e : CommandEnvelope) (id : string) (crs : Crs) (kind : EditableGeometryKind)
    (schema : FeatureSchema) (workflow : MutationWorkflowBinding) : mutation unit :=
  w ← read_workspace;
  '(_, l) ← found (find_slot (fun l => bool_decide (la_id l = id)) (ws_layers w)) ("layer " +:+ id);
  lift (err_if (negb (bool_decide (la_kind l = LK_Vector)))
          (Error (FeatureEditRejected "only vector layers can become editable")));;
  lift (err_if (existsb (fun x => bool_decide (layer_id x = id)) (ws_editable_layers w))
          (Error (FeatureEditRejected "editable layer already initialized")));;
  editable ← lift (map_err (fun x => Error (FeatureEditRejected (edit_error_text x)))
                     (layer_new id crs kind schema));
  update_workspace (fun w => set_editable_layers (ws_editable_layers w ++ [editable]) w);;
  update_workspace (touch (timestamp e));;
  record_command_provenance e "initialize_editable_layer" id
    (JObject ([("crs", crs_json crs);
               ("coordinate_unit", coordinate_unit_json (layer_coordinate_unit editable));
               ("geometry_kind", geometry_kind_json kind); ("schema", schema_json schema)]
              ++ binding_json e workflow)).

(** [EditableLayer::apply] runs on the layer in place: whatever it leaves behind
    is in the project, also when it fails. *)
Definition mutate_features (e : CommandEnvelope) (id : string) (expected : N) (edit : FeatureEdit)
    (workflow : MutationWorkflowBinding) : mutation unit :=
  w ← read_workspace;
  '(i, l) ← found (find_slot (fun x => bool_decide (layer_id x = id)) (ws_editable_layers w))
    ("editable layer " +:+ id);
  let '(outcome, l') := EditLayer.apply expected edit l in
  update_workspace (fun w => set_editable_layers (<[i := l']> (ws_editable_layers w)) w);;
  receipt ← lift (map_err (fun x => Error (FeatureEditRejected (edit_error_text x))) outcome);
  update_workspace (touch (timestamp e));;
  w ← read_workspace;
  let slot := snd <$> find_slot (fun x => bool_decide (layer_id x = id)) (ws_editable_layers w) in
  record_command_provenance e (workflow_operation edit) id
    (JObject ([("receipt", receipt_json receipt);
               ("crs", json_option (fun x => crs_json (layer_crs x)) slot);
               ("coordinate_unit", json_option (fun x => coordinate_unit_json (layer_coordinate_unit x)) slot)]
              ++ binding_json e workflow)).

Definition with_style (id : string) (l : Layer) : Layer :=
  {| la_id := la_id l; la_name := la_name l; la_kind := la_kind l; la_source_id := la_source_id l;
     la_crs := la_crs l; la_extent := la_extent l; la_time_extent := la_time_extent l;
     la_statistics := la_statistics l; la_style_id := Some id; la_visible := la_visible l;
     la_opacity := la_opacity l |}.
Definition install_style (style : EvidenceMapStyle) (l : list EvidenceMapStyle) : list EvidenceMapStyle :=
  match find_slot (fun s => bool_decide (style_id s = style_id style)) l with
  | Some (i, _) => <[i := style]> l
  | None => stable_sort (key_le style_id) (l ++ [style])
  end.
Definition mutate_style (e : CommandEnvelope) (style : EvidenceMapStyle)
    (workflow : MutationWorkflowBinding) : mutation unit :=
  lift (map_err (fun x => Error (MapStyleRejected (style_error_text x))) (style_validate style));;
  w ← read_workspace;
  '(i, l) ← found (find_slot (fun l => bool_decide (la_id l = style_layer_id style)) (ws_layers w))
    ("layer " +:+ style_layer_id style);
  update_workspace (fun w => set_layers (<[i := with_style (style_id style) l]> (ws_layers w)) w);;
  update_workspace (fun w => set_map_styles (install_style style (ws_map_styles w)) w);;
  update_workspace (touch (timestamp e));;
  record_command_provenance e "set_evidence_map_style" (style_layer_id style)
    (JObject (("style", style_json style) :: binding_json e workflow)).

Definition mutate_workflow_run (e : CommandEnvelope) (id : string) (digest : option string)
    (execution : option WorkflowExecution) : mutation unit :=
  digest ← lift (ok_or digest Panicked);
  execution ← lift (ok_or execution Panicked);
  record_command_provenance e "run_workflow" id
    (JObject [("workflow_digest", JString digest); ("workflow_id", JString id);
              ("result_digest", JString (result_digest execution)); ("evidence", evidence execution);
              ("events", JArray (map event_json (events execution)));
              ("source_snapshots", JArray (map source_json (source_snapshots e)));
              ("input_snapshots", JArray (map input_snapshot_json (input_snapshots e)))]).

Definition apply_project_mutation (now : string) (e : CommandEnvelope) (digest : option string)
    (execution : option WorkflowExecution) : mutation unit :=
  match command e with
  | AddLayer name source_id => mutate_add_layer now e name source_id
  | RemoveLayer id => mutate_remove_layer e id
  | SetLayerVisibility id visible => mutate_visibility e id visible
  | SetViewCamera id center zoom => mutate_camera e id center zoom
  | InitializeEditableLayer id crs kind schema workflow => mutate_initialize e id crs kind schema workflow
  | EditFeatures id expected edit workflow => mutate_features e id expected edit workflow
  | SetEvidenceMapStyle style workflow => mutate_style e style workflow
  | RunWorkflow id => mutate_workflow_run e id digest execution
  | _ => reject (UnsupportedCommand (debug_command (command e)))
  end.

(** ** The dispatcher *)

Definition on_project {A} (m : mutation A) : bus_run A :=
  fun '(b, p) => let '(r, p) := m p in (r, (b, p)).
Definition get_bus : bus_run CommandBus := s ← get; mret s.1.
Definition get_project : bus_run Project := s ← get; mret s.2.
Definition modify_bus (f : CommandBus -> CommandBus) : bus_run unit := modify (fun s => (f s.1, s.2)).

Definition with_audit (e : CommandEnvelope) (b : CommandBus) : CommandBus :=
  mkBus (history b) (cursor b) (before_states b) (after_states b) (initial_state b) (current_state b)
    (audit_log b ++ [e]) (workflows b) (workflow_executions b) (expected_replay_digest b).
Definition at_cursor (c : nat) (state : Project) (b : CommandBus) : CommandBus :=
  mkBus (history b) c (before_states b) (after_states b) (initial_state b) (Some state)
    (audit_log b) (workflows b) (workflow_executions b) (expected_replay_digest b).

(** [CommandBus::undo] and [redo] *)
Definition undo : bus_run unit :=
  b ← get_bus;
  lift (err_if (cursor b =? 0)%nat (Error NothingToUndo));;
  state ← lift (ok_or (before_states b !! (cursor b - 1)%nat) (Error MissingStateSnapshot));
  on_project (put state);;
  modify_bus (fun b => at_cursor (cursor b - 1) state b).
Definition redo : bus_run unit :=
  b ← get_bus;
  lift (err_if (length (history b) <=? cursor b)%nat (Error NothingToRedo));;
  state ← lift (ok_or (after_states b !! cursor b) (Error MissingStateSnapshot));
  on_project (put state);;
  modify_bus (fun b => at_cursor (cursor b + 1) state b).

(** [CommandBus::push]: the catalog adapters' record without a mutation *)
Definition push (e : CommandEnvelope) (b : CommandBus) : CommandBus :=
  let history := take (cursor b) (history b) ++ [e] in
  mkBus history (length history) (take (cursor b) (before_states b)) (take (cursor b) (after_states b))
    (initial_state b) (current_state b) (audit_log b ++ [e]) (workflows b) (workflow_executions b)
    (expected_replay_digest b).

(** [CommandBus::execution] *)
Definition execution (id : string) (digest : option string) (x : option WorkflowExecution)
    : bus_run CommandExecution :=
  s ← get;
  mret {| ce_command_id := id; ce_state_digest := state_digest s.2; ce_workflow_digest := digest;
          ce_result_digest := result_digest <$> x; ce_output := output <$> x;
          ce_evidence := evidence <$> x; ce_events := from_option events [] x; ce_cursor := cursor s.1 |}.

Definition context_of (digest : string) (e : CommandEnvelope) : WorkflowExecutionContext :=
  {| cx_digest := digest; cx_command_id := env_id e; cx_timestamp := timestamp e;
     cx_source_snapshots := source_snapshots e; cx_input_snapshots := input_snapshots e |}.

(** The executor is only called for a validated [RunWorkflow]. *)
Definition execute_workflow (b : CommandBus) (e : CommandEnvelope) (digest : option string)
    (executor : option WorkflowExecutor) : fallible (option WorkflowExecution) :=
  match digest with
  | None => Ok None
  | Some digest =>
      executor ← ok_or executor (Error ExecutorRequired);
      id ← match command e with RunWorkflow id => Ok id | _ => Err Panicked end;
      workflow ← ok_or (workflows b !! id) Panicked;
      x ← map_err (fun m => Error (WorkflowExecutionFailed ("workflow executor failed: " +:+ m)))
            (executor workflow (context_of digest e));
      err_if (is_blank (result_digest x)) (Error EmptyResultDigest);;
      Ok (Some x)
  end.

Definition record_execution (e : CommandEnvelope) (digest : option string) (x : option WorkflowExecution)
    (m : gmap string WorkflowExecutionRecord) : gmap string WorkflowExecutionRecord :=
  match digest, x with
  | Some digest, Some x =>
      <[env_id e := {| rec_command_id := env_id e; rec_workflow_digest := digest;
                       rec_result_digest := result_digest x; rec_output := output x;
                       rec_evidence := evidence x; rec_events := events x |}]> m
  | _, _ => m
  end.

(** What [dispatch] writes after the mutation succeeded *)
Definition commit (e : CommandEnvelope) (before after : Project) (digest : option string)
    (x : option WorkflowExecution) (b : CommandBus) : CommandBus :=
  let history := take (cursor b) (history b) ++ [e] in
  mkBus history (length history) (take (cursor b) (before_states b) ++ [before])
    (take (cursor b) (after_states b) ++ [after])
    (Some (from_option (fun i => i) before (initial_state b))) (Some after) (audit_log b ++ [e])
    (workflows b) (record_execution e digest x (workflow_executions b)) (expected_replay_digest b).

Definition dispatch (now : string) (e : CommandEnvelope) (executor : option WorkflowExecutor)
    : bus_run CommandExecution :=
  match command e with
  | Undo => undo;; modify_bus (with_audit e);; execution (env_id e) None None
  | Redo => redo;; modify_bus (with_audit e);; execution (env_id e) None None
  | _ =>
      b ← get_bus;
      lift (validate_mutation_workflow b e);;
      digest ← lift (validate_workflow_command b e);
      x ← lift (execute_workflow b e digest executor);
      before ← get_project;
      on_project (apply_project_mutation now e digest x);;
      after ← get_project;
      modify_bus (commit e before after digest x);;
      execution (env_id e) digest x
  end.

(** [apply], [apply_with_executor] *)
Definition apply (now : string) (e : CommandEnvelope) : bus_run CommandExecution := dispatch now e None.
Definition apply_with_executor (now : string) (e : CommandEnvelope) (executor : WorkflowExecutor)
    : bus_run CommandExecution := dispatch now e (Some executor).

(** [register_workflow] *)
Definition with_workflow (w : GeoWorkflow) (b : CommandBus) : CommandBus :=
  mkBus (history b) (cursor b) (before_states b) (after_states b) (initial_state b) (current_state b)
    (audit_log b) (<[workflow_id w := w]> (workflows b)) (workflow_executions b) (expected_replay_digest b).
Definition register_workflow (w : GeoWorkflow) : st CommandBus bus_fault string :=
  let invalid error := WorkflowInvalid (workflow_error_text error) in
  lift (checked_run invalid (validate sha256_hex w));;
  digest ← lift (checked_run invalid (stable_digest w));
  modify (with_workflow w);;
  mret (workflow_digest_new digest).

Definition on_bus {A} (m : st CommandBus bus_fault A) : bus_run A :=
  fun '(b, p) => let '(r, b) := m b in (r, (b, p)).
(** [apply_with_workflow], [apply_with_workflow_executor] *)
Definition apply_with_workflow (now : string) (e : CommandEnvelope) (w : GeoWorkflow)
    : bus_run CommandExecution := on_bus (register_workflow w);; apply now e.
Definition apply_with_workflow_executor (now : string) (e : CommandEnvelope) (w : GeoWorkflow)
    (executor : WorkflowExecutor) : bus_run CommandExecution :=
  on_bus (register_workflow w);; apply_with_executor now e executor.

(** ** Replay *)

(** [RecordedWorkflowExecutor] *)
Definition recorded_executor (records : gmap string WorkflowExecutionRecord) : WorkflowExecutor :=
  fun _ cx =>
    match records !! cx_command_id cx with
    | None => Err ("persisted workflow execution missing for command " +:+ cx_command_id cx)
    | Some r =>
        err_if (negb (bool_decide (rec_workflow_digest r = cx_digest cx)))
          "persisted workflow execution digest differs from command";;
        Ok {| result_digest := rec_result_digest r; output := rec_output r; evidence := rec_evidence r;
              events := rec_events r |}
    end.

(** [BTreeMap::values], in key order *)
Definition values {V} (m : gmap string V) : list V := map snd (sorted_entries m).

Fixpoint register_all (ws : list GeoWorkflow) : st CommandBus bus_fault unit :=
  match ws with [] => mret tt | w :: ws => register_workflow w;; register_all ws end.

(** The loop over the events; [clock i] is the instant of the i-th dispatch. *)
Fixpoint replay_events (executor : option WorkflowExecutor) (clock : nat -> string) (i : nat)
    (l : list CommandEnvelope) : bus_run unit :=
  match l with
  | [] => mret tt
  | e :: l => dispatch (clock i) e executor;; replay_events executor clock (S i) l
  end.

Definition replay_executor (executor : option WorkflowExecutor)
    (records : gmap string WorkflowExecutionRecord) : option WorkflowExecutor :=
  match executor with
  | Some x => Some x
  | None => if bool_decide (records = ∅) then None else Some (recorded_executor records)
  end.

(** A fresh bus with the given workflows, after the given events: the bus and
    the project reached *)
Definition rerun (executor : option WorkflowExecutor) (clock : nat -> string) (first : nat)
    (initial : Project) (ws : list GeoWorkflow) (l : list CommandEnvelope) : fallible session :=
  let '(r, b) := register_all ws (bus_new initial) in
  r;;
  let '(r, s) := replay_events executor clock first l (b, initial) in
  r;; Ok s.

Definition replay_inner (executor : option WorkflowExecutor) (clock : nat -> string)
    : st CommandBus bus_fault Project :=
  b ← get;
  initial ← lift (ok_or (initial_state b) (Error MissingStateSnapshot));
  let events := match audit_log b with [] => history b | l => l end in
  let executor := replay_executor executor (workflow_executions b) in
  '(replayed, state) ← lift (rerun executor clock 0 initial (values (workflows b)) events);
  result ← lift (if bool_decide (cursor replayed = cursor b) then Ok state
    else initial ← ok_or (initial_state replayed) (Error MissingStateSnapshot);
         s ← rerun executor clock (length events) initial (values (workflows replayed))
               (take (cursor b) (history b)); Ok s.2);
  lift (match expected_replay_digest b with
        | Some expected => err_if (negb (bool_decide (expected = state_digest result)))
            (Error (ReplayDigestMismatch expected (state_digest result)))
        | None => Ok tt end);;
  put (mkBus (history replayed) (cursor replayed) (before_states replayed) (after_states replayed)
         (initial_state replayed) (Some result) (audit_log b) (workflows b)
         (workflow_executions replayed) (expected_replay_digest b));;
  mret result.

(** ** Persistence *)

(** What serde derives for a log and its records, [serde_json]'s pretty printer
    and its parser with the error text *)
Class LogJson := {
  log_json : CommandLog -> json;
  pretty_json : json -> string;
  parse_log : string -> result string CommandLog }.
Context `{LogJson}.

Definition with_log_digest (d : option string) (l : CommandLog) : CommandLog :=
  mkLog (log_schema_version l) (log_initial_state l) (log_commands l) (log_audit_log l) (log_cursor l)
    (log_workflows l) (log_executions l) (log_state_digest l) d.
Definition digest_json (v : json) : string := digest_bytes (canonical_json v).

(** [current_project_for_persistence], on a copy of the bus *)
Definition current_project (clock : nat -> string) (b : CommandBus) : fallible Project :=
  match current_state b with
  | Some state => Ok state
  | None => (replay_inner None clock b).1
  end.
Definition log_of (clock : nat -> string) (b : CommandBus) : fallible CommandLog :=
  state ← current_project clock b;
  initial ← ok_or (initial_state b) (Error MissingStateSnapshot);
  let log := mkLog 1 initial (history b) (audit_log b) (cursor b) (values (workflows b))
    (values (workflow_executions b)) (state_digest state) None in
  Ok (with_log_digest (Some (digest_json (log_json log))) log).
(** [persist]: the text written to the file *)
Definition persist (clock : nat -> string) (b : CommandBus) : fallible string :=
  log ← log_of clock b; Ok (pretty_json (log_json log)).

(** [load], from the text of the file *)
Definition load (text : string) : fallible CommandBus :=
  log ← map_err (fun m => Error (JsonError m)) (parse_log text);
  err_if (negb (log_schema_version log =? 1)) (Error (UnsupportedLogSchema (log_schema_version log)));;
  expected ← ok_or (log_digest log) (Error MissingLogDigest);
  let observed := digest_json (log_json (with_log_digest None log)) in
  err_if (negb (bool_decide (expected = observed))) (Error (LogDigestMismatch expected observed));;
  err_if (length (log_commands log) <? log_cursor log)%nat
    (Error (JsonError "command cursor exceeds command history"));;
  Ok (mkBus (log_commands log) (log_cursor log) [] [] (Some (log_initial_state log)) None
        (log_audit_log log) (foldl (fun m w => <[workflow_id w := w]> m) ∅ (log_workflows log))
        (foldl (fun m r => <[rec_command_id r := r]> m) ∅ (log_executions log))
        (Some (log_state_digest log))).
End Bus.

(** [can_undo], [can_redo] *)
Definition can_undo (b : CommandBus) : bool := (0 <? cursor b)%nat.
Definition can_redo (b : CommandBus) : bool := (cursor b <? length (history b))%nat.
