(* ===== verification/CommandSession.v ===== *)
(** * Sessions on the command bus

    The theory of Command.v: a failed dispatch changes nothing and the
    [expect]s of the dispatcher hold; the history, the snapshots and the
    project of a session form one timeline; replaying a session's audit log
    gives its project again; what the guards admit. *)

From S2P Require Import Prelude RustStd Ordering Crs Json GeoContract WorkflowGraph EditLayer MapStyle Project WorkflowDigest Command.
Local Open Scope N_scope.

Section Session.
Context `{F64Display} `{JsonText} `{SvgHost} `{F32Json} `{GeoContractJson} `{CommandText}.

(** ** Failures change nothing *)

(** A computation whose failures leave the state alone and are not panics *)
Definition sound_failure {S A} (m : st S bus_fault A) : Prop :=
  forall s f s', m s = (Err f, s') -> s' = s /\ f <> Panicked.
(** A guard that is not a panic *)
Definition graceful {A} (r : fallible A) : Prop := r <> Err Panicked.

Lemma sound_infallible {S A} (m : st S bus_fault A) : infallible m -> sound_failure m.
Proof. intros Hm s f s' He. destruct (Hm s f). by rewrite He. Qed.

Lemma sound_lift {S A} (r : fallible A) : graceful r -> sound_failure (lift r : st S bus_fault A).
Proof. intros Hr s f s' [= -> <-]. split; [done|]. by intros ->. Qed.

Lemma sound_bind {S A B} (m : st S bus_fault A) (k : A -> st S bus_fault B) :
  sound_failure m -> (forall s a s', m s = (Ok a, s') -> (s' = s /\ sound_failure (k a)) \/ infallible (k a)) ->
  sound_failure (m ≫= k).
Proof.
  intros Hm Hk s f s' [He|(a & s1 & Ha & He)]%st_bind_err; [by eapply Hm|].
  destruct (Hk s a s1 Ha) as [[-> Hs]|Hi]; [by eapply Hs|].
  exfalso. destruct (Hi s1 f). by rewrite He.
Qed.

Lemma sound_reads {S A B} (m : st S bus_fault A) (k : A -> st S bus_fault B) :
  reads m -> sound_failure m -> (forall a, sound_failure (k a)) -> sound_failure (m ≫= k).
Proof.
  intros Hr Hm Hk. apply sound_bind; [done|]. intros s a s' Ha. left. split; [|done].
  specialize (Hr s). by rewrite Ha in Hr.
Qed.

Lemma sound_then {S A B} (m : st S bus_fault A) (k : A -> st S bus_fault B) :
  sound_failure m -> (forall a, infallible (k a)) -> sound_failure (m ≫= k).
Proof. intros Hm Hk. apply sound_bind; [done|]. intros. by right. Qed.

Lemma reads_workspace : reads read_workspace.
Proof. done. Qed.
Lemma infallible_read_workspace : infallible read_workspace.
Proof. done. Qed.
Lemma infallible_update f : infallible (update_workspace f).
Proof. done. Qed.
Lemma infallible_provenance e a t d : infallible (record_command_provenance e a t d).
Proof. done. Qed.

Lemma graceful_error {A} e : graceful (Err (Error e) : fallible A).
Proof. done. Qed.
Lemma graceful_ok_or {A} (o : option A) e : graceful (ok_or o (Error e)).
Proof. by destruct o. Qed.
Lemma graceful_err_if b e : graceful (err_if b (Error e)).
Proof. by destruct b. Qed.
Lemma graceful_map_err {E A} (r : result E A) f : graceful (map_err (fun x => Error (f x)) r).
Proof. by destruct r. Qed.
Lemma graceful_bind {A B} (r : fallible A) (k : A -> fallible B) :
  graceful r -> (forall a, r = Ok a -> graceful (k a)) -> graceful (r ≫= k).
Proof. intros Hr Hk. destruct r as [a|f]; [by apply Hk |]. intros [= ->]. by destruct Hr. Qed.
Lemma graceful_for_each {A} (f : A -> fallible unit) l : (forall a, graceful (f a)) -> graceful (for_each f l).
Proof.
  intros Hf. induction l as [|a l IH]; [done|]. change (for_each f (a :: l)) with (f a;; for_each f l).
  apply graceful_bind; [apply Hf | done].
Qed.

Ltac solve_infallible_mutation :=
  repeat first
    [ apply infallible_bind; [|intros ?]
    | apply infallible_update | apply infallible_provenance | apply infallible_read_workspace
    | apply infallible_modify | apply infallible_ret | apply infallible_get | done ].
Ltac solve_graceful :=
  first [ apply graceful_error | apply graceful_ok_or | apply graceful_err_if | apply graceful_map_err ].
(** Reads and guards first, infallible writes last *)
Ltac solve_sound :=
  repeat first
    [ apply sound_infallible; solve [solve_infallible_mutation]
    | apply sound_reads; [done | apply sound_infallible; done | intros ?]
    | apply sound_reads; [done | apply sound_lift; solve_graceful | intros ?]
    | match goal with |- sound_failure (match ?x with _ => _ end) => destruct x end ].

Lemma set_editable_self l i p :
  ws_editable_layers (workspace_of p) !! i = Some l ->
  with_workspace (set_editable_layers (<[i := l]> (ws_editable_layers (workspace_of p))) (workspace_of p)) p = p.
Proof. intros Hi. rewrite list_insert_id by done. by destruct p as [[? []] ?]. Qed.

Lemma sound_features e id expected edit workflow :
  sound_failure (mutate_features e id expected edit workflow).
Proof.
  intros p f p' Hm. unfold mutate_features in Hm.
  apply st_bind_err in Hm as [?|(w & p1 & Hw & Hm)]; [done|]. injection Hw as <- <-.
  apply st_bind_err in Hm as [Hf|([i l] & p1 & Hf & Hm)].
  { eapply sound_lift; [|exact Hf]. apply graceful_ok_or. }
  apply lift_ok in Hf as [Hf ->]. apply ok_or_ok in Hf. unfold find_slot in Hf.
  apply list_find_Some in Hf as (Hi & _ & _).
  destruct (EditLayer.apply expected edit l) as [outcome l'] eqn:Ha.
  apply st_bind_err in Hm as [Hu|([] & p1 & Hu & Hm)]; [done|]. injection Hu as <-.
  apply st_bind_err in Hm as [Hr|(r & p1 & Hr & Hm)].
  - destruct outcome as [r|x]; [done|]. apply apply_atomic in Ha as ->.
    injection Hr as <- <-. split; [by apply set_editable_self | done].
  - exfalso. revert Hm.
    match goal with |- ?m p1 = _ -> _ => assert (Hinf : infallible m) by solve_infallible_mutation end.
    intros Hm. eapply Hinf. by rewrite Hm.
Qed.

Lemma sound_mutation now e digest x :
  (forall id, command e = RunWorkflow id -> is_Some digest /\ is_Some x) ->
  sound_failure (apply_project_mutation now e digest x).
Proof.
  intros Hx. unfold apply_project_mutation.
  destruct (command e) as [| | | | |name source_id|id|id visible|id center zoom|id crs kind sc wf|id r ed wf|style wf|id| |] eqn:Hc;
    try (apply sound_lift; done).
  - unfold mutate_add_layer. cbv zeta. solve_sound.
  - unfold mutate_remove_layer. solve_sound.
  - unfold mutate_visibility. solve_sound.
  - unfold mutate_camera. solve_sound.
  - unfold mutate_initialize. solve_sound.
  - apply sound_features.
  - unfold mutate_style. solve_sound.
  - destruct (Hx id eq_refl) as [[d ->] [y ->]]. by apply sound_infallible.
Qed.

Lemma validate_runs {A} (f : WorkflowValidationError -> CommandError) (k : outcome WorkflowValidationError A) w :
  (k = Panic -> validate sha256_hex w = Panic) -> graceful (checked_run f k).
Proof.
  intros Hk. destruct k as [a|x|]; [done..|]. specialize (Hk eq_refl). unfold validate in Hk.
  destruct (order_cases sha256_hex w) as [(e & Ho & _) | [(o & Ho & _) | [(l & Ho & _) | (l & Ho & _)]]];
    unfold WorkflowGraph.validate in Hk; by rewrite Ho in Hk.
Qed.
Lemma graceful_validate f w : graceful (checked_run f (validate sha256_hex w)).
Proof. by apply (validate_runs f _ w). Qed.
Lemma graceful_digest f w : graceful (checked_run f (stable_digest w)).
Proof. apply (validate_runs f _ w). unfold stable_digest. by destruct (validate sha256_hex w). Qed.

Lemma graceful_snapshots w e : graceful (validate_input_snapshots w e).
Proof.
  apply graceful_bind; [apply graceful_for_each; intros s; apply graceful_err_if|intros _ _].
  apply graceful_bind; [apply graceful_for_each; intros s|intros _ _].
  - apply graceful_bind; [apply graceful_ok_or | intros c _; apply graceful_err_if].
  - apply graceful_for_each. intros c. unfold check_contract. destruct (source_snapshot c); [|done].
    apply graceful_err_if.
Qed.

Lemma graceful_workflow_command b e : graceful (validate_workflow_command b e).
Proof.
  unfold validate_workflow_command. destruct (command e); try done. cbv zeta.
  apply graceful_bind; [apply graceful_ok_or | intros w _].
  apply graceful_bind; [apply graceful_validate | intros _ _].
  apply graceful_bind; [apply graceful_digest | intros d _].
  apply graceful_bind; [apply graceful_ok_or | intros x _].
  apply graceful_bind; [apply graceful_err_if | intros _ _].
  apply graceful_bind; [apply graceful_snapshots | done].
Qed.

Lemma graceful_mutation_workflow b e : graceful (validate_mutation_workflow b e).
Proof.
  unfold validate_mutation_workflow. destruct (mutation_binding (command e)) as [[binding op]|]; [|done]. cbv zeta.
  apply graceful_bind; [apply graceful_ok_or | intros w _].
  apply graceful_bind; [apply graceful_validate | intros _ _].
  apply graceful_bind; [apply graceful_digest | intros d _].
  apply graceful_bind; [apply graceful_ok_or | intros x _].
  apply graceful_bind; [apply graceful_err_if | intros _ _].
  apply graceful_bind; [apply graceful_ok_or | intros n _]. apply graceful_err_if.
Qed.

(** What the workflow guard establishes *)
Definition authorized (b : CommandBus) (e : CommandEnvelope) (id : string) (digest : string) : Prop :=
  exists w, workflows b !! id = Some w /\ validate sha256_hex w = Done tt
    /\ digest = trim (stable_digest_unchecked w) /\ env_digest e = Some digest
    /\ validate_input_snapshots w e = Ok tt.

Lemma stable_digest_done w d :
  stable_digest w = Done d <-> validate sha256_hex w = Done tt /\ d = stable_digest_unchecked w.
Proof.
  unfold stable_digest. destruct (validate sha256_hex w) as [[]|x|]; simpl; split; try done.
  - by intros [= <-].
  - by intros [_ ->].
  - by intros [? _].
  - by intros [? _].
Qed.

Lemma workflow_command_ok b e digest :
  validate_workflow_command b e = Ok digest <->
  (exists id d, command e = RunWorkflow id /\ digest = Some d /\ authorized b e id d)
  \/ ((forall id, command e <> RunWorkflow id) /\ digest = None).
Proof.
  unfold validate_workflow_command, authorized.
  destruct (command e) as [| | | | | | | | | | | |id| |] eqn:Hc;
    try (split; [intros [= <-]; by right | by intros [(? & ? & ? & _)|[_ ->]]]).
  cbv zeta. split.
  - rewrite bind_ok. intros (w & Hw%ok_or_ok & Hk). revert Hk.
    rewrite bind_ok. intros ([] & Hv%checked_run_ok & Hk). revert Hk.
    rewrite bind_ok. intros (d & Hd%checked_run_ok%stable_digest_done & Hk). destruct Hd as [_ ->]. revert Hk.
    rewrite bind_ok. intros (x & Hx%ok_or_ok & Hk). revert Hk.
    rewrite bind_ok. intros ([] & Hxd%err_if_ok & Hk). revert Hk.
    rewrite bind_ok. intros ([] & Hs & [= <-]).
    apply negb_false_iff, bool_decide_eq_true in Hxd as ->. left. eauto 10.
  - intros [(id' & d & [= <-] & -> & w & Hw & Hv & -> & Hx & Hs)|[Hn _]]; [|by destruct (Hn id)].
    rewrite Hw. cbn [ok_or mbind result_bind]. unfold stable_digest. rewrite Hv.
    cbn [checked_run mbind result_bind outcome_bind]. rewrite Hx. cbn [ok_or mbind result_bind].
    rewrite bool_decide_true by done. cbn [negb err_if mbind result_bind]. by rewrite Hs.
Qed.

(** What an executed workflow gives the dispatcher *)
Definition executed (b : CommandBus) (e : CommandEnvelope) (executor : option WorkflowExecutor)
    (digest : option string) (x : option WorkflowExecution) : Prop :=
  match command e with
  | RunWorkflow id => exists d w run y, digest = Some d /\ authorized b e id d
      /\ workflows b !! id = Some w /\ executor = Some run /\ run w (context_of d e) = Ok y
      /\ is_blank (result_digest y) = false /\ x = Some y
  | _ => digest = None /\ x = None
  end.

Lemma execute_workflow_ok b e executor digest x :
  validate_workflow_command b e = Ok digest ->
  execute_workflow b e digest executor = Ok x <-> executed b e executor digest x.
Proof.
  intros [(id & d & Hc & -> & Ha)|[Hn ->]]%workflow_command_ok; unfold executed, execute_workflow.
  - rewrite Hc. split.
    + intros Hx. inv_rs Hx. eauto 15.
    + intros (d' & w & run & y & [= <-] & _ & Hw & -> & Hr & Hb & ->). simpl. rewrite Hw. simpl.
      rewrite Hr. simpl. by rewrite Hb.
  - destruct (command e); try (by (split; [intros [= <-] | intros [_ ->]])). by destruct (Hn workflow_id).
Qed.

Lemma graceful_execute b e digest executor :
  validate_workflow_command b e = Ok digest -> graceful (execute_workflow b e digest executor).
Proof.
  intros [(id & d & Hc & -> & (w & Hw & _))|[Hn ->]]%workflow_command_ok; [|done].
  unfold execute_workflow. rewrite Hc.
  apply graceful_bind; [apply graceful_ok_or | intros run _].
  apply graceful_bind; [done | intros id' [= <-]]. rewrite Hw.
  apply graceful_bind; [done | intros w' _].
  apply graceful_bind; [apply graceful_map_err | intros y _].
  apply graceful_bind; [apply graceful_err_if | done].
Qed.

Lemma executed_present b e executor digest x id :
  executed b e executor digest x -> command e = RunWorkflow id -> is_Some digest /\ is_Some x.
Proof. unfold executed. intros Hx Hc. rewrite Hc in Hx. destruct Hx as (d & w & run & y & -> & _ & _ & _ & _ & _ & ->). eauto. Qed.

Lemma sound_on_project {A} (m : mutation A) : sound_failure m -> sound_failure (on_project m).
Proof.
  intros Hm [b p] f [b' p'] He. unfold on_project in He.
  destruct (m p) as [r q] eqn:Hr. injection He as -> <- <-.
  destruct (Hm _ _ _ Hr) as [-> Hf]. done.
Qed.

Lemma sound_undo : sound_failure undo.
Proof.
  unfold undo. apply sound_reads; [done | by apply sound_infallible | intros b].
  apply sound_reads; [done | apply sound_lift, graceful_err_if | intros _].
  apply sound_reads; [done | apply sound_lift, graceful_ok_or | intros state].
  apply sound_infallible. by intros [] ?.
Qed.
Lemma sound_redo : sound_failure redo.
Proof.
  unfold redo. apply sound_reads; [done | by apply sound_infallible | intros b].
  apply sound_reads; [done | apply sound_lift, graceful_err_if | intros _].
  apply sound_reads; [done | apply sound_lift, graceful_ok_or | intros state].
  apply sound_infallible. by intros [] ?.
Qed.

Lemma sound_dispatch now e executor : sound_failure (dispatch now e executor).
Proof.
  assert (Hmain : sound_failure (b ← get_bus; lift (validate_mutation_workflow b e);;
      digest ← lift (validate_workflow_command b e); x ← lift (execute_workflow b e digest executor);
      before ← get_project; on_project (apply_project_mutation now e digest x);; after ← get_project;
      modify_bus (commit e before after digest x);; execution (env_id e) digest x)).
  { apply sound_reads; [done | by apply sound_infallible | intros b].
    apply sound_reads; [done | apply sound_lift, graceful_mutation_workflow | intros _].
    apply sound_bind; [apply sound_lift, graceful_workflow_command|].
    intros s digest s' [Hd ->]%lift_ok. left. split; [done|].
    apply sound_bind; [by apply sound_lift, graceful_execute|].
    intros s1 x s1' [Hx ->]%lift_ok. left. split; [done|].
    apply (execute_workflow_ok _ _ _ _ _ Hd) in Hx.
    apply sound_reads; [done | by apply sound_infallible | intros before].
    apply sound_then; [|done].
    apply sound_on_project, sound_mutation. intros id. by eapply executed_present. }
  unfold dispatch. destruct (command e); try exact Hmain.
  - apply sound_then; [apply sound_undo | done].
  - apply sound_then; [apply sound_redo | done].
Qed.

(** ** Successful dispatches *)

Lemma undo_ok s s' : undo s = (Ok tt, s') <->
  (cursor s.1 <> 0%nat /\ exists q, before_states s.1 !! (cursor s.1 - 1)%nat = Some q
   /\ s' = (at_cursor (cursor s.1 - 1) q s.1, q)).
Proof.
  destruct s as [b p]. unfold undo, get_bus. simpl. unfold mbind, st_bind, get, mret, st_ret, lift. simpl.
  destruct (Nat.eqb_spec (cursor b) 0) as [Hc|Hc]; simpl.
  - split; [done | by intros [? _]].
  - destruct (before_states b !! (cursor b - 1)%nat) as [q|]; simpl; split.
    + intros [= <-]. eauto.
    + by intros (_ & ? & [= <-] & ->).
    + done.
    + by intros (_ & ? & ? & _).
Qed.

Lemma redo_ok s s' : redo s = (Ok tt, s') <->
  ((cursor s.1 < length (history s.1))%nat /\ exists q, after_states s.1 !! cursor s.1 = Some q
   /\ s' = (at_cursor (cursor s.1 + 1) q s.1, q)).
Proof.
  destruct s as [b p]. unfold redo, get_bus. simpl. unfold mbind, st_bind, get, mret, st_ret, lift. simpl.
  destruct (Nat.leb_spec (length (history b)) (cursor b)) as [Hc|Hc]; simpl.
  - split; [done|]. intros [? _]. lia.
  - destruct (after_states b !! cursor b) as [q|]; simpl; split.
    + intros [= <-]. eauto.
    + by intros (_ & ? & [= <-] & ->).
    + done.
    + by intros (_ & ? & ? & _).
Qed.

(** The receipt of a dispatch that left the session in [s] *)
Definition receipt_of (e : CommandEnvelope) (digest : option string) (x : option WorkflowExecution)
    (s : session) : CommandExecution :=
  {| ce_command_id := env_id e; ce_state_digest := state_digest s.2; ce_workflow_digest := digest;
     ce_result_digest := result_digest <$> x; ce_output := output <$> x; ce_evidence := evidence <$> x;
     ce_events := from_option events [] x; ce_cursor := cursor s.1 |}.

Definition is_history_command (c : Command) : bool := match c with Undo | Redo => true | _ => false end.

(** The branch of [dispatch] that mutates the project *)
Definition committed (now : string) (e : CommandEnvelope) (executor : option WorkflowExecutor)
    (s : session) (c : CommandExecution) (s' : session) : Prop :=
  exists digest x p', validate_mutation_workflow s.1 e = Ok tt
    /\ validate_workflow_command s.1 e = Ok digest /\ executed s.1 e executor digest x
    /\ apply_project_mutation now e digest x s.2 = (Ok tt, p')
    /\ s' = (commit e s.2 p' digest x s.1, p') /\ c = receipt_of e digest x s'.

Lemma on_project_ok {A} (m : mutation A) s a s' :
  on_project m s = (Ok a, s') <-> exists p', m s.2 = (Ok a, p') /\ s' = (s.1, p').
Proof.
  destruct s as [b p]. simpl. unfold on_project. destruct (m p) as [r q]. split.
  - intros [= -> <-]. eauto.
  - by intros (p' & [= -> ->] & ->).
Qed.

Lemma dispatch_ok now e executor s c s' : dispatch now e executor s = (Ok c, s') <->
  match command e with
  | Undo => exists s1, undo s = (Ok tt, s1) /\ s' = (with_audit e s1.1, s1.2) /\ c = receipt_of e None None s'
  | Redo => exists s1, redo s = (Ok tt, s1) /\ s' = (with_audit e s1.1, s1.2) /\ c = receipt_of e None None s'
  | _ => committed now e executor s c s'
  end.
Proof.
  assert (Hmain : (b ← get_bus; lift (validate_mutation_workflow b e);;
      digest ← lift (validate_workflow_command b e); x ← lift (execute_workflow b e digest executor);
      before ← get_project; on_project (apply_project_mutation now e digest x);; after ← get_project;
      modify_bus (commit e before after digest x);; execution (env_id e) digest x) s = (Ok c, s')
      <-> committed now e executor s c s').
  { unfold committed. split.
    - rewrite st_bind_ok. intros (b & s0 & [= <- <-] & Hk). revert Hk.
      rewrite st_bind_ok. intros ([] & s0 & [Hm ->]%lift_ok & Hk). revert Hk.
      rewrite st_bind_ok. intros (digest & s0 & [Hd ->]%lift_ok & Hk). revert Hk.
      rewrite st_bind_ok. intros (x & s0 & [Hx ->]%lift_ok & Hk).
      apply (execute_workflow_ok _ _ _ _ _ Hd) in Hx. revert Hk.
      rewrite st_bind_ok. intros (before & s0 & [= <- <-] & Hk). revert Hk.
      rewrite st_bind_ok. intros ([] & s0 & (p' & Hp & ->)%on_project_ok & Hk).
      injection Hk as <- <-. eauto 15.
    - intros (digest & x & p' & Hm & Hd & Hx & Hp & -> & ->).
      apply (execute_workflow_ok _ _ _ _ _ Hd) in Hx.
      destruct s as [b p]. simpl in *. unfold get_bus, get_project. unfold mbind, st_bind, get, mret, st_ret, lift. simpl.
      by rewrite Hm, Hd, Hx, Hp. }
  unfold dispatch. destruct (command e); try exact Hmain.
  - rewrite st_bind_ok. split.
    + intros ([] & s1 & Hu & [= <- <-]). eauto.
    + intros (s1 & Hu & -> & ->). by exists tt, s1.
  - rewrite st_bind_ok. split.
    + intros ([] & s1 & Hu & [= <- <-]). eauto.
    + intros (s1 & Hu & -> & ->). by exists tt, s1.
Qed.

(** ** One timeline *)

(** The states of the active branch; the state [i] commands in. *)
Definition timeline (b : CommandBus) : list Project :=
  match initial_state b with Some i => i :: after_states b | None => [] end.

Record coherent (s : session) : Prop := {
  co_length : length (timeline s.1) = S (length (history s.1));
  co_before : before_states s.1 = take (length (history s.1)) (timeline s.1);
  co_project : timeline s.1 !! cursor s.1 = Some s.2;
  co_current : current_state s.1 = Some s.2 }.

Lemma coherent_cursor s : coherent s -> (cursor s.1 <= length (history s.1))%nat.
Proof. intros []. apply lookup_lt_Some in co_project0. lia. Qed.

Lemma coherent_initial s : coherent s -> exists i, initial_state s.1 = Some i /\ timeline s.1 = i :: after_states s.1.
Proof. intros [Hl _ _ _]. unfold timeline in *. destruct (initial_state s.1); [eauto | done]. Qed.

Lemma coherent_new p : coherent (bus_new p, p).
Proof. by split. Qed.

Lemma coherent_undo s : coherent s -> (0 < cursor s.1)%nat ->
  exists q, timeline s.1 !! (cursor s.1 - 1)%nat = Some q
    /\ undo s = (Ok tt, (at_cursor (cursor s.1 - 1) q s.1, q)).
Proof.
  intros Hs Hc. pose proof (coherent_cursor s Hs). destruct Hs.
  destruct (lookup_lt_is_Some_2 (timeline s.1) (cursor s.1 - 1)) as [q Hq]; [lia|].
  exists q. split; [done|]. apply undo_ok. split; [lia|]. exists q. split; [|done].
  rewrite co_before0, lookup_take. rewrite decide_True by lia. done.
Qed.

Lemma coherent_redo s : coherent s -> (cursor s.1 < length (history s.1))%nat ->
  exists q, timeline s.1 !! S (cursor s.1) = Some q
    /\ redo s = (Ok tt, (at_cursor (cursor s.1 + 1) q s.1, q)).
Proof.
  intros Hs Hc. destruct (coherent_initial s Hs) as (i & Hi & Ht). destruct Hs.
  destruct (lookup_lt_is_Some_2 (timeline s.1) (S (cursor s.1))) as [q Hq]; [lia|].
  exists q. split; [done|]. apply redo_ok. split; [lia|]. exists q. split; [|done]. by rewrite Ht in Hq.
Qed.

Lemma coherent_at_cursor b p c q :
  coherent (b, p) -> timeline b !! c = Some q -> coherent (at_cursor c q b, q).
Proof. intros [] Hq. by split. Qed.

Lemma coherent_audit b p e : coherent (b, p) -> coherent (with_audit e b, p).
Proof. intros []. by split. Qed.

Lemma timeline_commit e before after digest x b p :
  coherent (b, p) ->
  timeline (commit e before after digest x b) = take (S (cursor b)) (timeline b) ++ [after].
Proof.
  intros Hs. destruct (coherent_initial _ Hs) as (i & Hi & Ht). simpl in *. rewrite Ht.
  unfold timeline, commit. simpl. by rewrite Hi.
Qed.

Lemma coherent_commit e after digest x b p :
  coherent (b, p) -> coherent (commit e p after digest x b, after).
Proof.
  intros Hs. pose proof (coherent_cursor _ Hs) as Hc. pose proof (timeline_commit e p after digest x b p Hs) as Ht.
  destruct Hs. simpl in *. assert (Hh : history (commit e p after digest x b) = take (cursor b) (history b) ++ [e]) by done.
  assert (Hn : cursor (commit e p after digest x b) = S (cursor b)).
  { change (length (take (cursor b) (history b) ++ [e]) = S (cursor b)).
    rewrite length_app, length_take. cbn [length]. lia. }
  split; cbn [fst snd]; rewrite ?Ht, ?Hh, ?Hn.
  - rewrite !length_app, !length_take, co_length0. cbn [length]. lia.
  - change (before_states (commit e p after digest x b)) with (take (cursor b) (before_states b) ++ [p]).
    rewrite co_before0, take_take, length_app, length_take. cbn [length].
    rewrite take_app_le by (rewrite length_take; lia). rewrite take_take.
    replace (_ `min` S (cursor b))%nat with (S (cursor b)) by lia.
    rewrite (take_S_r _ _ p) by done. by replace (cursor b `min` length (history b))%nat with (cursor b) by lia.
  - rewrite lookup_app_r; rewrite length_take; [|lia].
    by replace (S (cursor b) - S (cursor b) `min` length (timeline b))%nat with 0%nat by lia.
  - done.
Qed.

(** ** Mutations do not read runtime fields *)

(** The computations answer alike from projects that differ in runtime fields. *)
Definition agree {A B} (R : A -> B -> Prop) (m : mutation A) (n : mutation B) : Prop :=
  forall p q, same_state p q -> same_state (m p).2 (n q).2 /\
    match (m p).1, (n q).1 with Ok a, Ok b => R a b | Err e, Err f => e = f | _, _ => False end.

Lemma agree_bind {A B C D} (R : A -> B -> Prop) (Q : C -> D -> Prop) m n k l :
  agree R m n -> (forall a b, R a b -> agree Q (k a) (l b)) -> agree Q (m ≫= k) (n ≫= l).
Proof.
  intros Hm Hk p q Hpq. destruct (Hm p q Hpq) as [Hs Hr]. unfold mbind, st_bind.
  destruct (m p) as [[a|e] p'], (n q) as [[b|f] q']; simpl in *; try done. by apply (Hk a b).
Qed.
Lemma agree_lift {A} (r : fallible A) : agree eq (lift r) (lift r).
Proof. intros p q Hpq. split; [exact Hpq|]. simpl. by destruct r. Qed.

Definition alike (w v : Workspace) : Prop := erase_workspace w = erase_workspace v.
Lemma same_alike p q : same_state p q -> alike (workspace_of p) (workspace_of q).
Proof. intros Hpq. exact (f_equal (fun x => workspace (manifest x)) Hpq). Qed.
Lemma agree_read : agree alike read_workspace read_workspace.
Proof. intros p q Hpq. split; [done|]. by apply same_alike. Qed.
Lemma agree_update f g : (forall w v, alike w v -> alike (f w) (g v)) ->
  agree eq (update_workspace f) (update_workspace g).
Proof.
  intros Hf p q Hpq. split; [|done]. pose proof (Hf _ _ (same_alike p q Hpq)) as Hw.
  apply (f_equal (fun x => schema_version (manifest x))) in Hpq. simpl in Hpq.
  unfold same_state, erase. simpl. by rewrite Hpq, Hw.
Qed.

Lemma alike_fields w v : alike w v ->
  ws_layers w = ws_layers v /\ ws_editable_layers w = ws_editable_layers v
  /\ ws_map_styles w = ws_map_styles v /\ ws_views w = ws_views v /\ ws_active_view w = ws_active_view v.
Proof. intros Ha. by injection Ha. Qed.

Ltac solve_alike :=
  let w := fresh "w" in let v := fresh "v" in let Ha := fresh "Ha" in
  intros w v Ha; destruct (alike_fields w v Ha) as (? & ? & ? & ? & ?);
  unfold alike, erase_workspace, add_layer in *; simpl in *; injection Ha as ?; congruence.

Lemma agree_provenance e a t d : agree eq (record_command_provenance e a t d) (record_command_provenance e a t d).
Proof.
  apply (agree_update (fun w => set_provenance (ws_provenance w ++ _) w) (fun w => set_provenance (ws_provenance w ++ _) w)).
  intros w v Ha. unfold alike, erase_workspace in *. simpl. injection Ha as ? ? ? ? ? ? ? ? Hp.
  rewrite !List.map_app, Hp. congruence.
Qed.

Ltac agree_step :=
  match goal with
  | |- agree _ (lift ?r ≫= _) _ => apply (agree_bind eq eq); [apply agree_lift | intros ? ? <-]
  | |- agree _ (found ?o ?t ≫= _) _ => apply (agree_bind eq eq); [apply agree_lift | intros ? ? <-]
  | |- agree _ (update_workspace _ ≫= _) _ =>
      apply (agree_bind eq eq); [apply agree_update; solve_alike | intros ? ? _]
  | |- agree _ (read_workspace ≫= _) _ =>
      let w := fresh "w" in let v := fresh "v" in let Ha := fresh "Ha" in
      let H1 := fresh in let H2 := fresh in let H3 := fresh in let H4 := fresh in let H5 := fresh in
      apply (agree_bind alike eq); [apply agree_read | intros w v Ha;
        destruct (alike_fields w v Ha) as (H1 & H2 & H3 & H4 & H5);
        rewrite ?H1, ?H2, ?H3, ?H4, ?H5; clear H1 H2 H3 H4 H5 Ha]
  | |- agree _ (record_command_provenance _ _ _ _) _ => apply agree_provenance
  | |- agree _ (match ?x with _ => _ end) _ => destruct x
  end.

Lemma agree_mutation now now' e digest x :
  agree eq (apply_project_mutation now e digest x) (apply_project_mutation now' e digest x).
Proof.
  unfold apply_project_mutation.
  destruct (command e); try apply agree_lift;
    unfold mutate_add_layer, mutate_remove_layer, mutate_visibility, mutate_camera, mutate_initialize,
      mutate_features, mutate_style, mutate_workflow_run; cbv zeta; repeat agree_step.
Qed.

Lemma mutation_same_state now now' e digest x p q p' :
  same_state p q -> apply_project_mutation now e digest x p = (Ok tt, p') ->
  exists q', apply_project_mutation now' e digest x q = (Ok tt, q') /\ same_state p' q'.
Proof.
  intros Hpq Hm. destruct (agree_mutation now now' e digest x p q Hpq) as [Hs Hr]. rewrite Hm in Hs, Hr.
  destruct (apply_project_mutation now' e digest x q) as [[[]|f] q'] eqn:Hq; [|done]. by exists q'.
Qed.

(** ** Two runs of the same commands *)

(** Buses that agree up to runtime fields; the workflows are compared apart. *)
Record same_bus (b c : CommandBus) : Prop := {
  sb_history : history b = history c;
  sb_cursor : cursor b = cursor c;
  sb_before : Forall2 same_state (before_states b) (before_states c);
  sb_after : Forall2 same_state (after_states b) (after_states c);
  sb_initial : option_Forall2 same_state (initial_state b) (initial_state c);
  sb_current : option_Forall2 same_state (current_state b) (current_state c);
  sb_audit : audit_log b = audit_log c;
  sb_executions : workflow_executions b = workflow_executions c }.

Lemma mutation_workflow_mono b c e :
  workflows b ⊆ workflows c ->
  validate_mutation_workflow b e = Ok tt -> validate_mutation_workflow c e = Ok tt.
Proof.
  intros Hbc. unfold validate_mutation_workflow. destruct (mutation_binding (command e)) as [[binding op]|]; [|done].
  cbv zeta. destruct (workflows b !! bound_workflow binding) as [w|] eqn:Hw; [|done].
  by rewrite (lookup_weaken _ _ _ _ Hw Hbc).
Qed.

Lemma authorized_mono b c e id d : workflows b ⊆ workflows c -> authorized b e id d -> authorized c e id d.
Proof. intros Hbc (w & Hw & Hr). exists w. split; [by eapply lookup_weaken | done]. Qed.

Lemma workflow_command_mono b c e d :
  workflows b ⊆ workflows c ->
  validate_workflow_command b e = Ok d -> validate_workflow_command c e = Ok d.
Proof.
  intros Hbc [(id & x & Hc & -> & Ha)|Hn]%workflow_command_ok; apply workflow_command_ok; [left|by right].
  exists id, x. split_and!; [done..|]. by eapply authorized_mono.
Qed.

(** The second executor answers like the first for this envelope. *)
Definition answers_alike (e : CommandEnvelope) (digest : option string) (x : option WorkflowExecution)
    (executor : option WorkflowExecutor) : Prop :=
  match digest, x with
  | Some d, Some y => exists run, executor = Some run /\ forall w, run w (context_of d e) = Ok y
  | _, _ => True
  end.

Lemma executed_mono b c e run run' digest x :
  workflows b ⊆ workflows c -> executed b e run digest x -> answers_alike e digest x run' ->
  executed c e run' digest x.
Proof.
  unfold executed. intros Hbc. destruct (command e); try done.
  intros (d & w & r & y & -> & Ha & Hw & -> & Hr & Hb & ->) (r' & -> & Hr').
  exists d, w, r', y. split_and!; try done; [by eapply authorized_mono | by eapply lookup_weaken].
Qed.

Lemma same_commit e p q p' q' digest x b c :
  same_bus b c -> same_state p q -> same_state p' q' ->
  same_bus (commit e p p' digest x b) (commit e q q' digest x c).
Proof.
  intros [] Hpq Hpq'. unfold commit. split; simpl; rewrite <-?sb_history0, <-?sb_cursor0; try congruence; try done.
  - apply Forall2_app; [by apply Forall2_take | by repeat constructor].
  - apply Forall2_app; [by apply Forall2_take | by repeat constructor].
  - inversion sb_initial0; simpl; by constructor.
  - by constructor.
Qed.

Lemma same_at_cursor n p q b c : same_bus b c -> same_state p q -> same_bus (at_cursor n p b) (at_cursor n q c).
Proof. intros [] Hpq. split; simpl; try done. by constructor. Qed.
Lemma same_audit e b c : same_bus b c -> same_bus (with_audit e b) (with_audit e c).
Proof. intros []. split; simpl; congruence || done. Qed.

Lemma undo_same b c p q s : same_bus b c -> same_state p q -> undo (b, p) = (Ok tt, s) ->
  exists s', undo (c, q) = (Ok tt, s') /\ same_bus s.1 s'.1 /\ same_state s.2 s'.2
    /\ workflows s.1 = workflows b /\ workflows s'.1 = workflows c.
Proof.
  intros Hbc Hpq (Hn & r & Hr & ->)%undo_ok. pose proof Hbc as [].
  destruct (Forall2_lookup_l _ _ _ _ _ sb_before0 Hr) as (r' & Hr' & Hrr).
  simpl in *. rewrite sb_cursor0 in *. exists (at_cursor (cursor c - 1) r' c, r').
  split; [apply undo_ok; eauto | split_and!; try done; by apply same_at_cursor].
Qed.
Lemma redo_same b c p q s : same_bus b c -> same_state p q -> redo (b, p) = (Ok tt, s) ->
  exists s', redo (c, q) = (Ok tt, s') /\ same_bus s.1 s'.1 /\ same_state s.2 s'.2
    /\ workflows s.1 = workflows b /\ workflows s'.1 = workflows c.
Proof.
  intros Hbc Hpq (Hn & r & Hr & ->)%redo_ok. pose proof Hbc as [].
  destruct (Forall2_lookup_l _ _ _ _ _ sb_after0 Hr) as (r' & Hr' & Hrr).
  simpl in *. rewrite sb_cursor0, sb_history0 in *. exists (at_cursor (cursor c + 1) r' c, r').
  split; [apply redo_ok; eauto | split_and!; try done; by apply same_at_cursor].
Qed.

(** The second run dispatches the envelope too, whatever its clock, with at
    least the same workflows and an executor that gives the same answer. *)
Lemma dispatch_same now now' e run run' b c p q r s :
  same_bus b c -> same_state p q -> workflows b ⊆ workflows c ->
  dispatch now e run (b, p) = (Ok r, s) ->
  (forall digest x, executed b e run digest x ->
     workflow_executions s.1 = record_execution e digest x (workflow_executions b) ->
     answers_alike e digest x run') ->
  exists r' s', dispatch now' e run' (c, q) = (Ok r', s') /\ same_bus s.1 s'.1 /\ same_state s.2 s'.2
    /\ workflows s.1 = workflows b /\ workflows s'.1 = workflows c.
Proof.
  intros Hbc Hpq Hw Hd Hrun. apply dispatch_ok in Hd.
  assert (Hmain : committed now e run (b, p) r s -> exists r' s', committed now' e run' (c, q) r' s'
    /\ same_bus s.1 s'.1 /\ same_state s.2 s'.2 /\ workflows s.1 = workflows b /\ workflows s'.1 = workflows c).
  { intros (digest & x & p' & Hm & Hv & Hx & Hp & -> & ->). simpl in *.
    destruct (mutation_same_state now now' e digest x p q p' Hpq Hp) as (q' & Hq & Hpq').
    eexists _, (commit e q q' digest x c, q'). split.
    - exists digest, x, q'. simpl. split_and!; [by eapply mutation_workflow_mono | by eapply workflow_command_mono | | done..].
      eapply executed_mono; [exact Hw | exact Hx | by apply Hrun].
    - simpl. split_and!; try done. by apply same_commit. }
  setoid_rewrite dispatch_ok. destruct (command e); try exact (Hmain Hd).
  - destruct Hd as (s1 & Hu & -> & ->). destruct (undo_same _ _ _ _ _ Hbc Hpq Hu) as (s2 & Hs2 & Hb & Hp & W1 & W2).
    eexists _, _. split; [exists s2; split; [exact Hs2 | done]|]. simpl. split_and!; try done. by apply same_audit.
  - destruct Hd as (s1 & Hu & -> & ->). destruct (redo_same _ _ _ _ _ Hbc Hpq Hu) as (s2 & Hs2 & Hb & Hp & W1 & W2).
    eexists _, _. split; [exists s2; split; [exact Hs2 | done]|]. simpl. split_and!; try done. by apply same_audit.
Qed.

(** ** Sessions *)

(** What a client can do with a bus: register workflows, dispatch envelopes, and
    call [undo] and [redo] directly; the calls may fail. *)
Inductive reachable : session -> Prop :=
| re_new p : reachable (bus_new p, p)
| re_register w s r s' : reachable s -> on_bus (register_workflow w) s = (r, s') -> reachable s'
| re_dispatch now e executor s r s' : reachable s -> dispatch now e executor s = (r, s') -> reachable s'
| re_undo s r s' : reachable s -> undo s = (r, s') -> reachable s'
| re_redo s r s' : reachable s -> redo s = (r, s') -> reachable s'.

(** Sessions whose every step is in the audit log: commands, undo and redo go
    through envelopes with fresh identities, and a workflow is registered once. *)
Inductive audited : session -> Prop :=
| au_new p : audited (bus_new p, p)
| au_register w s d b : audited s -> workflows s.1 !! workflow_id w = None ->
    register_workflow w s.1 = (Ok d, b) -> audited (b, s.2)
| au_dispatch now e executor s r s' : audited s -> env_id e ∉ map env_id (audit_log s.1) ->
    dispatch now e executor s = (Ok r, s') -> audited s'.

Lemma register_ok w b d b' : register_workflow w b = (Ok d, b') <->
  validate sha256_hex w = Done tt /\ d = trim (stable_digest_unchecked w) /\ b' = with_workflow w b.
Proof.
  unfold register_workflow. cbv zeta. rewrite st_bind_ok. split.
  - intros ([] & s & [Hv%checked_run_ok ->]%lift_ok & Hk). revert Hk.
    rewrite st_bind_ok. intros (x & s & [Hd%checked_run_ok%stable_digest_done ->]%lift_ok & [= <- <-]).
    destruct Hd as [_ ->]. done.
  - intros (Hv & -> & ->). exists tt, b. rewrite lift_ok, checked_run_ok. split; [done|].
    rewrite st_bind_ok. exists (stable_digest_unchecked w), b.
    by rewrite lift_ok, checked_run_ok, stable_digest_done.
Qed.

Lemma register_fails w b f b' : register_workflow w b = (Err f, b') -> b' = b.
Proof.
  unfold register_workflow. cbv zeta. unfold mbind, st_bind, lift, modify, mret, st_ret.
  destruct (checked_run _ (validate sha256_hex w)); [|by intros [= _ ->]].
  destruct (checked_run _ (stable_digest w)); [done | by intros [= _ ->]].
Qed.

Lemma coherent_register w s r s' : coherent s -> on_bus (register_workflow w) s = (r, s') -> coherent s'.
Proof.
  destruct s as [b p]. intros Hs Hr. unfold on_bus in Hr.
  destruct (register_workflow w b) as [q b'] eqn:Hreg. injection Hr as <- <-.
  destruct q as [d|f].
  - apply register_ok in Hreg as (_ & _ & ->). destruct Hs. by split.
  - by rewrite (register_fails w b f b' Hreg).
Qed.

Lemma coherent_undo_run s r s' : coherent s -> undo s = (r, s') -> coherent s'.
Proof.
  destruct s as [b p]. intros Hs Hu. destruct r as [[]|f]; [|by destruct (sound_undo _ _ _ Hu) as [-> _]].
  pose proof (proj1 (undo_ok _ _) Hu) as (Hn & _). destruct (coherent_undo _ Hs) as (q & Hq & Hu'); [lia|].
  rewrite Hu' in Hu. injection Hu as <-. by eapply coherent_at_cursor.
Qed.
Lemma coherent_redo_run s r s' : coherent s -> redo s = (r, s') -> coherent s'.
Proof.
  destruct s as [b p]. intros Hs Hu. destruct r as [[]|f]; [|by destruct (sound_redo _ _ _ Hu) as [-> _]].
  pose proof (proj1 (redo_ok _ _) Hu) as (Hn & _). destruct (coherent_redo _ Hs Hn) as (q & Hq & Hu').
  rewrite Hu' in Hu. injection Hu as <-. replace (cursor b + 1)%nat with (S (cursor b)) by lia.
  by eapply coherent_at_cursor.
Qed.

Lemma coherent_dispatch now e run s r s' : coherent s -> dispatch now e run s = (r, s') -> coherent s'.
Proof.
  intros Hs Hd. destruct r as [c|f]; [|by destruct (sound_dispatch _ _ _ _ _ _ Hd) as [-> _]].
  apply dispatch_ok in Hd.
  assert (Hmain : committed now e run s c s' -> coherent s').
  { destruct s as [b p]. intros (digest & x & p' & _ & _ & _ & _ & -> & _). by apply (coherent_commit _ _ _ _ _ p). }
  destruct (command e); try exact (Hmain Hd).
  - destruct Hd as ([b1 p1] & Hu & -> & _). apply coherent_audit. by eapply coherent_undo_run.
  - destruct Hd as ([b1 p1] & Hu & -> & _). apply coherent_audit. by eapply coherent_redo_run.
Qed.

Lemma reachable_coherent s : reachable s -> coherent s.
Proof.
  induction 1; eauto using coherent_new, coherent_register, coherent_dispatch, coherent_undo_run,
    coherent_redo_run.
Qed.

Lemma audited_reachable s : audited s -> reachable s.
Proof.
  induction 1 as [p|w s d b _ IH _ Hr|now e run s r s' _ IH _ Hd]; [constructor| |by econstructor].
  eapply re_register; [exact IH|]. unfold on_bus. destruct s as [b0 p]. simpl in *. by rewrite Hr.
Qed.

(** The commands of a dispatch only grow what the log and the maps hold. *)
Record ledger (b : CommandBus) : Prop := {
  le_workflows : forall k w, workflows b !! k = Some w -> workflow_id w = k /\ validate sha256_hex w = Done tt;
  le_executions : forall k r, workflow_executions b !! k = Some r ->
    rec_command_id r = k /\ k ∈ map env_id (audit_log b);
  le_history : audit_log b = [] -> history b = [];
  le_expected : expected_replay_digest b = None }.

Lemma ledger_commit e before after digest x b : ledger b -> ledger (commit e before after digest x b).
Proof.
  intros []. split; simpl; try done.
  - intros k r Hk. rewrite List.map_app, elem_of_app. unfold record_execution in Hk.
    destruct digest as [d|], x as [y|]; try (destruct (le_executions0 k r Hk) as [? ?]; tauto).
    apply lookup_insert_Some in Hk as [[<- <-]|[_ Hk]].
    + split; [done|]. right. apply list_elem_of_here.
    + destruct (le_executions0 k r Hk) as [? ?]. tauto.
  - intros Hl. by apply app_eq_nil in Hl as [_ ?].
Qed.

Lemma ledger_audit n p e b : ledger b -> ledger (with_audit e (at_cursor n p b)).
Proof.
  intros []. split; simpl; try done.
  - intros k r Hk. rewrite List.map_app, elem_of_app. destruct (le_executions0 k r Hk). tauto.
  - intros Hl. by apply app_eq_nil in Hl as [_ ?].
Qed.

Lemma audited_ledger s : audited s -> ledger s.1.
Proof.
  induction 1 as [p|w s d b _ IH Hn Hr|now e run s r s' _ IH _ Hd].
  - by split.
  - apply register_ok in Hr as (Hv & _ & ->). destruct IH. split; simpl; try done.
    intros k v Hk. apply lookup_insert_Some in Hk as [[<- <-]|[_ Hk]]; [done | by apply le_workflows0].
  - apply dispatch_ok in Hd.
    assert (Hmain : committed now e run s r s' -> ledger s'.1).
    { intros (digest & x & p' & _ & _ & _ & _ & -> & _). by apply ledger_commit. }
    destruct (command e); try exact (Hmain Hd).
    + destruct Hd as (s1 & (_ & q & _ & ->)%undo_ok & -> & _). by apply ledger_audit.
    + destruct Hd as (s1 & (_ & q & _ & ->)%redo_ok & -> & _). by apply ledger_audit.
Qed.

(** ** Replay *)

Lemma values_keyed {V} (key : V -> string) (m : gmap string V) :
  (forall k v, m !! k = Some v -> key v = k) ->
  foldl (fun acc v => <[key v := v]> acc) ∅ (values m) = m.
Proof.
  intros Hk. unfold values, sorted_entries. set (l := merge_sort entry_le (map_to_list m)).
  assert (Hl : l ≡ₚ map_to_list m) by apply merge_sort_Permutation.
  assert (He : map (fun v => (key v, v)) (map snd l) = l).
  { rewrite List.map_map. rewrite <-(List.map_id l) at 2. apply List.map_ext_in. intros [k v] Hin.
    apply list_elem_of_In in Hin. rewrite Hl, elem_of_map_to_list in Hin. simpl. by rewrite (Hk k v Hin). }
  assert (Hnd : NoDup (map fst l)).
  { rewrite Hl. apply NoDup_fst_map_to_list. }
  rewrite (foldl_insert_map key (fun v => v)).
  - rewrite He, map_union_empty. rewrite (list_to_map_proper l (map_to_list m)); [|done|done].
    apply list_to_map_to_list.
  - rewrite <-He, List.map_map in Hnd. exact Hnd.
Qed.

Definition with_workflows (ws : gmap string GeoWorkflow) (b : CommandBus) : CommandBus :=
  mkBus (history b) (cursor b) (before_states b) (after_states b) (initial_state b) (current_state b)
    (audit_log b) ws (workflow_executions b) (expected_replay_digest b).

Lemma register_all_ok ws b :
  Forall (fun w => validate sha256_hex w = Done tt) ws ->
  register_all ws b = (Ok tt, with_workflows (foldl (fun m w => <[workflow_id w := w]> m) (workflows b) ws) b).
Proof.
  intros Hv. revert b. induction Hv as [|w ws Hw _ IH]; intros b; [by destruct b|].
  cbn [register_all]. apply st_bind_ok. exists (trim (stable_digest_unchecked w)), (with_workflow w b).
  split; [by apply register_ok|]. by rewrite IH.
Qed.

(** A fresh bus that knows the given workflows *)
Definition fresh_bus (i : Project) (ws : gmap string GeoWorkflow) : CommandBus := with_workflows ws (bus_new i).

Lemma register_values i ws :
  (forall k w, ws !! k = Some w -> workflow_id w = k /\ validate sha256_hex w = Done tt) ->
  register_all (values ws) (bus_new i) = (Ok tt, fresh_bus i ws).
Proof.
  intros Hws. rewrite register_all_ok.
  - unfold fresh_bus. rewrite (values_keyed workflow_id); [done|]. intros k v Hk. by apply Hws in Hk as [? _].
  - apply Forall_forall. intros w Hin. unfold values, sorted_entries in Hin.
    apply list_elem_of_fmap in Hin as ([k v] & -> & Hin). rewrite merge_sort_Permutation in Hin.
    apply elem_of_map_to_list in Hin. by apply Hws in Hin as [_ ?].
Qed.

Lemma replay_events_snoc run clock n l e s s1 r s2 :
  replay_events run clock n l s = (Ok tt, s1) ->
  dispatch (clock (n + length l)%nat) e run s1 = (Ok r, s2) ->
  replay_events run clock n (l ++ [e]) s = (Ok tt, s2).
Proof.
  revert n s. induction l as [|a l IH]; intros n s; cbn [replay_events app length].
  - intros [= <-] Hd. replace (n + 0)%nat with n in Hd by lia. apply st_bind_ok. by exists r, s2.
  - intros (c & s0 & Ha & Hl)%st_bind_ok Hd. apply st_bind_ok. exists c, s0. split; [done|].
    apply IH; [done|]. by replace (S n + length l)%nat with (n + S (length l))%nat by lia.
Qed.

Lemma execution_eta y : {| result_digest := result_digest y; output := output y; evidence := evidence y;
  events := events y |} = y.
Proof. by destruct y. Qed.

(** What one audited dispatch adds to the bus *)
Lemma dispatch_adds now e run s r s' : ledger s.1 -> env_id e ∉ map env_id (audit_log s.1) ->
  dispatch now e run s = (Ok r, s') ->
  workflows s'.1 = workflows s.1 /\ audit_log s'.1 = audit_log s.1 ++ [e]
  /\ workflow_executions s.1 ⊆ workflow_executions s'.1
  /\ (forall i, initial_state s.1 = Some i -> initial_state s'.1 = Some i).
Proof.
  intros Hl Hfresh Hd. apply dispatch_ok in Hd.
  assert (Hmain : committed now e run s r s' -> workflows s'.1 = workflows s.1
    /\ audit_log s'.1 = audit_log s.1 ++ [e] /\ workflow_executions s.1 ⊆ workflow_executions s'.1
    /\ (forall i, initial_state s.1 = Some i -> initial_state s'.1 = Some i)).
  { intros (digest & x & p' & _ & _ & _ & _ & -> & _). simpl. split_and!; [done..| |by intros i ->].
    unfold record_execution. destruct digest, x; try done. apply insert_subseteq.
    destruct (workflow_executions s.1 !! env_id e) as [q|] eqn:Hq; [|done].
    by apply (le_executions _ Hl) in Hq as [_ ?]. }
  destruct (command e); try exact (Hmain Hd).
  - destruct Hd as (s1 & (_ & q & _ & ->)%undo_ok & -> & _). by split_and!.
  - destruct Hd as (s1 & (_ & q & _ & ->)%redo_ok & -> & _). by split_and!.
Qed.

Lemma recorded_answers (E : gmap string WorkflowExecutionRecord) e digest x m :
  record_execution e digest x m ⊆ E -> answers_alike e digest x (replay_executor None E).
Proof.
  unfold answers_alike, record_execution, replay_executor. destruct digest as [d|], x as [y|]; try done.
  intros Hsub. assert (He : E !! env_id e = Some {| rec_command_id := env_id e; rec_workflow_digest := d;
    rec_result_digest := result_digest y; rec_output := output y; rec_evidence := evidence y;
    rec_events := events y |}).
  { eapply lookup_weaken; [|exact Hsub]. apply lookup_insert_eq. }
  rewrite bool_decide_false; [|intros ->; by rewrite lookup_empty in He].
  eexists. split; [done|]. intros w. unfold recorded_executor. cbn [cx_command_id context_of].
  rewrite He. cbn [rec_workflow_digest cx_digest]. rewrite bool_decide_true by done.
  cbn [negb err_if mbind result_bind rec_result_digest rec_output rec_evidence rec_events].
  by rewrite execution_eta.
Qed.

Lemma replay_audited s : audited s ->
  forall E ws clock n i, initial_state s.1 = Some i -> workflow_executions s.1 ⊆ E -> workflows s.1 ⊆ ws ->
  exists s', replay_events (replay_executor None E) clock n (audit_log s.1) (fresh_bus i ws, i) = (Ok tt, s')
    /\ same_bus s.1 s'.1 /\ same_state s.2 s'.2 /\ workflows s'.1 = ws.
Proof.
  induction 1 as [p|w s d b Hs IH Hn Hr|now e run s r s' Hs IH Hf Hd]; intros E ws clock n i Hi HE Hws.
  - injection Hi as <-. exists (fresh_bus p ws, p). split_and!; [done| |done|done].
    split; simpl; try done; by constructor.
  - apply register_ok in Hr as (Hv & _ & ->). destruct (IH E ws clock n i) as (s' & Hrun & Hb & Hp & Hw); try done.
    { etransitivity; [|exact Hws]. simpl. by apply insert_subseteq. }
    exists s'. split_and!; [done| |done|done]. destruct Hb. by split.
  - destruct (dispatch_adds _ _ _ _ _ _ (audited_ledger s Hs) Hf Hd) as (Hw & Ha & He & Hi').
    destruct (coherent_initial s (reachable_coherent s (audited_reachable s Hs))) as (i' & Hi0 & _).
    pose proof (Hi' _ Hi0) as Hi1. rewrite Hi in Hi1. injection Hi1 as <-.
    rewrite Hw in Hws. destruct (IH E ws clock n i) as ([c q] & Hrun & Hb & Hp & Hwc); [done|by etransitivity|done|].
    destruct s as [b p]. simpl in *.
    destruct (dispatch_same now (clock (n + length (audit_log b))%nat) e run (replay_executor None E) b c p q r s'
      Hb Hp ltac:(by rewrite Hwc) Hd) as (r' & s2 & Hd2 & Hb2 & Hp2 & _ & Hw2).
    { intros digest x _ Hx. eapply recorded_answers. by rewrite <-Hx. }
    exists s2. split_and!; [|done|done|by rewrite Hw2].
    rewrite Ha. by eapply replay_events_snoc.
Qed.

(** [replay_inner] on any bus with the persistent fields of an audited session *)
Lemma replay_inner_audited s b clock :
  audited s -> history b = history s.1 -> cursor b = cursor s.1 -> initial_state b = initial_state s.1 ->
  audit_log b = audit_log s.1 -> workflows b = workflows s.1 -> workflow_executions b = workflow_executions s.1 ->
  (expected_replay_digest b = None \/ expected_replay_digest b = Some (state_digest s.2)) ->
  exists q b', replay_inner None clock b = (Ok q, b') /\ same_state s.2 q /\ same_bus s.1 b'
    /\ workflows b' = workflows s.1.
Proof.
  intros Hs Hh Hc Hi Ha Hw He Hx. pose proof (audited_ledger s Hs) as Hl.
  destruct (coherent_initial s (reachable_coherent s (audited_reachable s Hs))) as (i & Hi0 & _).
  destruct (replay_audited s Hs (workflow_executions s.1) (workflows s.1) clock 0 i) as ([c q] & Hrun & Hb & Hp & Hwc);
    try done.
  assert (Hre : rerun (replay_executor None (workflow_executions s.1)) clock 0 i (values (workflows s.1)) (audit_log s.1)
                = Ok (c, q)).
  { unfold rerun. rewrite register_values by apply (le_workflows _ Hl). by rewrite Hrun. }
  exists q, (mkBus (history c) (cursor c) (before_states c) (after_states c) (initial_state c) (Some q)
         (audit_log b) (workflows b) (workflow_executions c) (expected_replay_digest b)).
  split.
  - unfold replay_inner. apply st_bind_ok. exists b, b. split; [done|].
    apply st_bind_ok. exists i, b. rewrite lift_ok, ok_or_ok, Hi. split; [done|].
    apply st_bind_ok. exists (c, q), b. rewrite lift_ok, He, Hw. split.
    { split; [|done]. destruct (audit_log b) as [|a l] eqn:Hab; [|by rewrite Ha].
      rewrite Hh, (le_history _ Hl) by done. by rewrite <-Ha in Hre. }
    apply st_bind_ok. exists q, b. rewrite lift_ok. split.
    { split; [|done]. destruct Hb. simpl in *. by rewrite bool_decide_true by congruence. }
    apply st_bind_ok. exists tt, b. rewrite lift_ok. split; [|done]. split; [|done].
    destruct Hx as [->| ->]; [done|].
    by rewrite (state_digest_proper _ _ Hp : state_digest s.2 = state_digest q), bool_decide_true.
  - simpl in *. split_and!; [done| |done]. destruct Hb. split; simpl; try done.
    pose proof (co_current _ (reachable_coherent s (audited_reachable s Hs))) as ->. by constructor.
Qed.

(** ** Persistence *)

Lemma persist_load_audited `{LogJson} s clock : audited s ->
  (forall log, log_of clock s.1 = Ok log -> parse_log (pretty_json (log_json log)) = Ok log) ->
  exists text b, persist clock s.1 = Ok text /\ load text = Ok b
    /\ history b = history s.1 /\ cursor b = cursor s.1 /\ initial_state b = initial_state s.1
    /\ audit_log b = audit_log s.1 /\ workflows b = workflows s.1
    /\ workflow_executions b = workflow_executions s.1
    /\ expected_replay_digest b = Some (state_digest s.2).
Proof.
  intros Hs Hparse. pose proof (audited_ledger s Hs) as Hl.
  pose proof (reachable_coherent s (audited_reachable s Hs)) as Hco.
  destruct (coherent_initial s Hco) as (i & Hi & _). pose proof (coherent_cursor s Hco) as Hcur.
  destruct (log_of clock s.1) as [log|f] eqn:Hlog.
  2: { unfold log_of, current_project in Hlog. by rewrite (co_current s Hco), Hi in Hlog. }
  exists (pretty_json (log_json log)). unfold persist. rewrite Hlog. unfold load. rewrite (Hparse log eq_refl).
  unfold log_of, current_project in Hlog. rewrite (co_current s Hco), Hi in Hlog.
  cbn [ok_or mbind result_bind] in Hlog. injection Hlog as <-.
  cbn [map_err mbind result_bind with_log_digest log_schema_version log_digest log_initial_state log_commands
       log_audit_log log_cursor log_workflows log_executions log_state_digest ok_or N.eqb Pos.eqb negb err_if].
  rewrite bool_decide_true by done. cbn [negb err_if mbind result_bind].
  rewrite (proj2 (Nat.ltb_ge _ _) Hcur). cbn [err_if mbind result_bind].
  eexists. split; [done|]. split; [done|]. simpl. split_and!; try done.
  - apply (values_keyed workflow_id). intros k v Hk. by apply (le_workflows _ Hl) in Hk as [? _].
  - apply (values_keyed rec_command_id). intros k v Hk. by apply (le_executions _ Hl) in Hk as [? _].
Qed.

(** ** What the input guard admits *)

Definition identity_of (s : SourceSnapshot) : SourceSnapshot :=
  {| dataset_id := dataset_id s; uri := uri s; license := license s; checksum := checksum s;
     expected_checksum := expected_checksum s; observed_checksum := observed_checksum s;
     retrieved_at := None; source_version := source_version s; checksum_status := checksum_status s |}.

Record inputs_admitted (w : GeoWorkflow) (e : CommandEnvelope) : Prop := {
  (** every source is one of the graph's, or a catalog dataset the graph does not name *)
  ia_sources : forall s, s ∈ source_snapshots e -> input_contracts w = []
    \/ (exists c x, c ∈ input_contracts w /\ source_snapshot c = Some x /\ identity_of s = identity_of x)
    \/ (exists id, dataset_id s = Some id
        /\ forall c x, c ∈ input_contracts w -> source_snapshot c = Some x -> dataset_id x <> Some id);
  (** every named input is a contract's, with the source the contract fixes *)
  ia_inputs : forall s, s ∈ input_snapshots e -> exists c,
    List.find (fun c => bool_decide (ic_name c = sn_name s)) (input_contracts w) = Some c
    /\ forall x, source_snapshot c = Some x -> identity_of (sn_source s) = identity_of x;
  (** every source the graph fixes is supplied *)
  ia_contracts : forall c x, c ∈ input_contracts w -> source_snapshot c = Some x ->
    (exists s, List.find (fun s => bool_decide (sn_name s = ic_name c)) (input_snapshots e) = Some s
      /\ identity_of (sn_source s) = identity_of x)
    \/ (exists s, s ∈ source_snapshots e /\ identity_of s = identity_of x) }.

Lemma same_source_identity_iff a b : same_source_identity a b = true <-> identity_of a = identity_of b.
Proof. unfold same_source_identity. apply bool_decide_eq_true. Qed.

Lemma existsb_elem {A} (f : A -> bool) l : existsb f l = true <-> exists x, x ∈ l /\ f x = true.
Proof. rewrite existsb_exists. setoid_rewrite list_elem_of_In. done. Qed.

Lemma known_iff w s : existsb (fun c => match source_snapshot c with
    | Some expected => same_source_identity s expected | None => false end) (input_contracts w) = true
  <-> exists c x, c ∈ input_contracts w /\ source_snapshot c = Some x /\ identity_of s = identity_of x.
Proof.
  rewrite existsb_elem. split.
  - intros (c & Hc & Hx). destruct (source_snapshot c) as [x|] eqn:He; [|done].
    apply same_source_identity_iff in Hx. eauto.
  - intros (c & x & Hc & Hx & Hs). exists c. split; [done|]. rewrite Hx. by apply same_source_identity_iff.
Qed.

Lemma belongs_iff w s : existsb (fun c =>
    match source_snapshot c ≫= dataset_id, dataset_id s with
    | Some expected, Some observed => bool_decide (expected = observed) | _, _ => false end)
    (input_contracts w) = true
  <-> exists c x id, c ∈ input_contracts w /\ source_snapshot c = Some x /\ dataset_id x = Some id
      /\ dataset_id s = Some id.
Proof.
  rewrite existsb_elem. split.
  - intros (c & Hc & Hx). destruct (source_snapshot c) as [x|] eqn:He; [|done]. simpl in Hx.
    destruct (dataset_id x) as [d|] eqn:Hd; [|done]. destruct (dataset_id s) as [o|]; [|done].
    apply bool_decide_eq_true in Hx as ->. exists c, x, o. done.
  - intros (c & x & id & Hc & Hx & Hd & Hs). exists c. split; [done|]. rewrite Hx. simpl.
    rewrite Hd, Hs. by apply bool_decide_eq_true.
Qed.

Lemma source_admitted w s : check_source_snapshot w s = Ok tt <->
  input_contracts w = []
  \/ (exists c x, c ∈ input_contracts w /\ source_snapshot c = Some x /\ identity_of s = identity_of x)
  \/ (exists id, dataset_id s = Some id
      /\ forall c x, c ∈ input_contracts w -> source_snapshot c = Some x -> dataset_id x <> Some id).
Proof.
  unfold check_source_snapshot. cbv zeta. rewrite err_if_ok.
  rewrite !andb_false_iff, !negb_false_iff, andb_true_iff, negb_true_iff, bool_decide_eq_true, known_iff.
  split.
  - intros [[Hk|[[id Hd] Hb]]|He]; [by right; left| |].
    + right; right. exists id. split; [done|]. intros c x Hc Hx Hdx.
      rewrite (proj2 (belongs_iff w s)) in Hb; [done|]. by exists c, x, id.
    + left. by destruct (input_contracts w).
  - intros [He|[Hk|(id & Hd & Hn)]]; [right; by rewrite He | by left; left | left; right].
    split; [by eexists|]. apply not_true_iff_false. intros (c & x & id' & Hc & Hx & Hdx & Hs)%belongs_iff.
    rewrite Hd in Hs. injection Hs as <-. by apply (Hn c x).
Qed.

Lemma input_admitted w s : check_input_snapshot w s = Ok tt <->
  exists c, List.find (fun c => bool_decide (ic_name c = sn_name s)) (input_contracts w) = Some c
    /\ forall x, source_snapshot c = Some x -> identity_of (sn_source s) = identity_of x.
Proof.
  unfold check_input_snapshot. rewrite bind_ok. setoid_rewrite ok_or_ok. setoid_rewrite err_unless_ok. split.
  - intros (c & Hf & Hs). exists c. split; [done|]. intros x Hx. rewrite Hx in Hs.
    by apply same_source_identity_iff.
  - intros (c & Hf & Hs). exists c. split; [done|]. destruct (source_snapshot c) as [x|]; [|done].
    by apply same_source_identity_iff, Hs.
Qed.

Lemma contract_admitted e c : check_contract e c = Ok tt <->
  forall x, source_snapshot c = Some x ->
    (exists s, List.find (fun s => bool_decide (sn_name s = ic_name c)) (input_snapshots e) = Some s
      /\ identity_of (sn_source s) = identity_of x)
    \/ (exists s, s ∈ source_snapshots e /\ identity_of s = identity_of x).
Proof.
  unfold check_contract. destruct (source_snapshot c) as [x|]; [|split; [done|done]]. cbv zeta.
  rewrite err_if_ok, andb_false_iff, !negb_false_iff, existsb_elem.
  setoid_rewrite same_source_identity_iff. split.
  - intros [Hi|Hs] y [= <-]; [left|right; exact Hs].
    destruct (List.find _ (input_snapshots e)) as [s|]; [|done]. exists s.
    split; [done | by apply same_source_identity_iff].
  - intros Hx. destruct (Hx x eq_refl) as [(s & Hf & Hs)|Hs]; [left|right; exact Hs].
    rewrite Hf. by apply same_source_identity_iff.
Qed.

Lemma validate_input_snapshots_iff w e : validate_input_snapshots w e = Ok tt <-> inputs_admitted w e.
Proof.
  unfold validate_input_snapshots. rewrite !seq_ok, !for_each_ok, !Forall_forall. split.
  - intros (Hs & Hi & Hc). split.
    + intros s Hin. by apply source_admitted, Hs.
    + intros s Hin. by apply input_admitted, Hi.
    + intros c x Hin. by apply contract_admitted, Hc.
  - intros []. split_and!.
    + intros s Hin. by apply source_admitted, ia_sources0.
    + intros s Hin. by apply input_admitted, ia_inputs0.
    + intros c Hin. apply contract_admitted. intros x. by apply ia_contracts0.
Qed.

Lemma mutation_workflow_ok b e binding op : mutation_binding (command e) = Some (binding, op) ->
  validate_mutation_workflow b e = Ok tt ->
  exists w node, workflows b !! bound_workflow binding = Some w /\ validate sha256_hex w = Done tt
    /\ env_digest e = Some (stable_digest_unchecked w) /\ node ∈ steps w
    /\ node_id sha256_hex node = bound_node binding /\ operation node = op.
Proof.
  unfold validate_mutation_workflow. intros ->. cbv zeta.
  intros (w & Hw%ok_or_ok & Hk)%bind_ok. revert Hk.
  intros ([] & Hv%checked_run_ok & Hk)%bind_ok. revert Hk.
  intros (d & Hd%checked_run_ok%stable_digest_done & Hk)%bind_ok. destruct Hd as [_ ->]. revert Hk.
  intros (x & Hx%ok_or_ok & Hk)%bind_ok. revert Hk.
  intros ([] & Hxd%err_if_ok & Hk)%bind_ok. revert Hk.
  intros (node & Hn%ok_or_ok & Ho%err_unless_ok)%bind_ok.
  apply negb_false_iff, bool_decide_eq_true in Hxd as ->. apply bool_decide_eq_true in Ho.
  apply List.find_some in Hn as [Hin Hid]. apply list_elem_of_In in Hin. apply bool_decide_eq_true in Hid.
  exists w, node. done.
Qed.

(** ** Provenance follows the history *)

Definition provenance_of (p : Project) : ProvenanceStore := ws_provenance (workspace_of p).
Definition keeps_provenance {A} (m : mutation A) : Prop := forall p, provenance_of (m p).2 = provenance_of p.
Definition records (e : CommandEnvelope) (m : mutation unit) : Prop := forall p p', m p = (Ok tt, p') ->
  exists entry, provenance_of p' = provenance_of p ++ [entry] /\ pe_id entry = env_id e
    /\ pe_timestamp entry = timestamp e /\ pe_actor entry = origin_text (origin e)
    /\ pe_workflow_id entry = provenance_workflow (command e).

Lemma records_bind {A} e (m : mutation A) k : keeps_provenance m -> (forall a, records e (k a)) -> records e (m ≫= k).
Proof.
  intros Hm Hk p p' (a & q & Ha & Hq)%st_bind_ok. specialize (Hm p). rewrite Ha in Hm. simpl in Hm.
  rewrite <-Hm. by apply (Hk a).
Qed.
Lemma records_entry e a t d : records e (record_command_provenance e a t d).
Proof. intros p p' [= <-]. by eexists. Qed.
Lemma keeps_lift {A} (r : fallible A) : keeps_provenance (lift r).
Proof. done. Qed.
Lemma keeps_read : keeps_provenance read_workspace.
Proof. done. Qed.

Ltac solve_records :=
  repeat first
    [ apply records_entry
    | apply records_bind; [done | intros ?]
    | match goal with |- records _ (match ?x with _ => _ end) => destruct x end ].

Lemma mutation_records now e digest x : records e (apply_project_mutation now e digest x).
Proof.
  unfold apply_project_mutation. destruct (command e); try (by intros p p' ?);
    unfold mutate_add_layer, mutate_remove_layer, mutate_visibility, mutate_camera, mutate_initialize,
      mutate_features, mutate_style, mutate_workflow_run; cbv zeta; solve_records.
Qed.

Definition ids_to (h : list CommandEnvelope) (n : nat) : list string := map env_id (take n h).

(** Every state of the timeline has the provenance of the commands before it. *)
Definition recorded (s : session) : Prop :=
  forall i k q, initial_state s.1 = Some i -> timeline s.1 !! k = Some q ->
    map pe_id (provenance_of q) = map pe_id (provenance_of i) ++ ids_to (history s.1) k.

Lemma recorded_commit now e digest x b p p' : coherent (b, p) -> recorded (b, p) ->
  apply_project_mutation now e digest x p = (Ok tt, p') -> recorded (commit e p p' digest x b, p').
Proof.
  intros Hco Hr Hm i k q Hi Hk. pose proof (coherent_cursor _ Hco) as Hc. simpl in Hc.
  destruct (coherent_initial _ Hco) as (i0 & Hi0 & _). simpl in *. rewrite Hi0 in Hi. simpl in Hi. injection Hi as ->.
  rewrite (timeline_commit e p p' digest x b p Hco) in Hk.
  pose proof (co_length _ Hco) as Hlen. pose proof (co_project _ Hco) as Hp. simpl in Hlen, Hp.
  apply lookup_app_Some in Hk as [Hk|[Hge Hk]].
  - apply lookup_take_Some in Hk as [Hk Hlt]. rewrite (Hr i k q Hi0 Hk). unfold ids_to. simpl.
    by rewrite take_app_le, take_take, Nat.min_l by (rewrite ?length_take; lia).
  - rewrite length_take, Hlen in Hge. rewrite length_take, Hlen in Hk.
    assert (k = S (cursor b)) as ->.
    { apply lookup_lt_Some in Hk. simpl in Hk. lia. }
    replace (S (cursor b) - S (cursor b) `min` S (length (history b)))%nat with 0%nat in Hk by lia.
    injection Hk as <-. destruct (mutation_records now e digest x p p' Hm) as (entry & He & Hid & _).
    rewrite He, List.map_app, (Hr i (cursor b) p Hi0 Hp). unfold ids_to. simpl. rewrite Hid.
    rewrite (take_ge (take (cursor b) (history b) ++ [e])) by (rewrite length_app, length_take; simpl; lia).
    by rewrite List.map_app, <-app_assoc.
Qed.

Lemma recorded_dispatch now e run s r s' : coherent s -> recorded s ->
  dispatch now e run s = (Ok r, s') -> recorded s'.
Proof.
  intros Hco Hr Hd. apply dispatch_ok in Hd.
  assert (Hmain : committed now e run s r s' -> recorded s').
  { destruct s as [b p]. intros (digest & x & p' & _ & _ & _ & Hm & -> & _). by eapply recorded_commit. }
  destruct (command e); try exact (Hmain Hd).
  - destruct Hd as (s1 & (_ & q & _ & ->)%undo_ok & -> & _). exact Hr.
  - destruct Hd as (s1 & (_ & q & _ & ->)%redo_ok & -> & _). exact Hr.
Qed.

Lemma reachable_recorded s : reachable s -> recorded s.
Proof.
  induction 1 as [p|w s r s' Hs IH Hr|now e run s r s' Hs IH Hd|s r s' Hs IH Hu|s r s' Hs IH Hu].
  - intros i k q [= <-] Hk. destruct k as [|k]; [|done]. injection Hk as <-. by rewrite app_nil_r.
  - destruct s as [b p]. unfold on_bus in Hr. destruct (register_workflow w b) as [[d|f] b'] eqn:Hreg;
      injection Hr as <- <-.
    + by apply register_ok in Hreg as (_ & _ & ->).
    + by rewrite (register_fails w b f b' Hreg).
  - destruct r as [c|f]; [|by destruct (sound_dispatch _ _ _ _ _ _ Hd) as [-> _]].
    eapply recorded_dispatch; [by apply reachable_coherent | exact IH | exact Hd].
  - destruct r as [[]|f]; [|by destruct (sound_undo _ _ _ Hu) as [-> _]].
    by apply undo_ok in Hu as (_ & q & _ & ->).
  - destruct r as [[]|f]; [|by destruct (sound_redo _ _ _ Hu) as [-> _]].
    by apply redo_ok in Hu as (_ & q & _ & ->).
Qed.
End Session.

(** ** Properties *)

Section Statements.
Context `{F64Display} `{JsonText} `{SvgHost} `{F32Json} `{GeoContractJson} `{CommandText}.

(** The effect of a dispatched envelope on the timeline *)
Definition dispatched (e : CommandEnvelope) (s s' : session) : Prop :=
  audit_log s'.1 = audit_log s.1 ++ [e] /\
  match command e with
  | Undo => timeline s'.1 = timeline s.1 /\ history s'.1 = history s.1 /\ S (cursor s'.1) = cursor s.1
  | Redo => timeline s'.1 = timeline s.1 /\ history s'.1 = history s.1 /\ cursor s'.1 = S (cursor s.1)
  | _ => timeline s'.1 = take (S (cursor s.1)) (timeline s.1) ++ [s'.2]
         /\ history s'.1 = take (cursor s.1) (history s.1) ++ [e] /\ cursor s'.1 = S (cursor s.1)
  end.

Lemma coherent_dispatched now e run s r s' : coherent s -> dispatch now e run s = (Ok r, s') ->
  dispatched e s s' /\ ce_cursor r = cursor s'.1 /\ ce_state_digest r = state_digest s'.2.
Proof.
  intros Hco Hd. apply dispatch_ok in Hd. unfold dispatched.
  assert (Hmain : committed now e run s r s' -> (audit_log s'.1 = audit_log s.1 ++ [e]
    /\ timeline s'.1 = take (S (cursor s.1)) (timeline s.1) ++ [s'.2]
    /\ history s'.1 = take (cursor s.1) (history s.1) ++ [e] /\ cursor s'.1 = S (cursor s.1))
    /\ ce_cursor r = cursor s'.1 /\ ce_state_digest r = state_digest s'.2).
  { destruct s as [b p]. intros (digest & x & p' & _ & _ & _ & _ & -> & ->). split; [|done].
    split; [done|]. split; [by apply (timeline_commit _ _ _ _ _ _ p)|]. split; [done|].
    pose proof (coherent_cursor _ Hco). simpl in *. rewrite length_app, length_take. simpl. lia. }
  destruct (command e); try exact (Hmain Hd).
  - destruct Hd as (s1 & (Hn & q & _ & ->)%undo_ok & -> & ->). simpl. split_and!; try done. lia.
  - destruct Hd as (s1 & (Hn & q & _ & ->)%redo_ok & -> & ->). simpl. split_and!; try done. lia.
Qed.
End Statements.

(** C9: a dispatch that fails, at any stage and for any reason (a guard, the
    executor, an edit, a missing snapshot), leaves the bus and the project exactly
    as they were, and the dispatcher's [expect]s never fail. *)
Theorem failed_dispatch_changes_nothing `{F64Display} `{JsonText} `{SvgHost} `{F32Json}
    `{GeoContractJson} `{CommandText} now e executor s f s' :
  dispatch now e executor s = (Err f, s') -> s' = s /\ f <> Panicked.
Proof. apply sound_dispatch. Qed.

(** C1: in every session, whatever succeeded or failed in it, the history, the
    two lists of snapshots, the cursor and the project are one timeline: the
    snapshots before and after the commands are its consecutive states, the
    project is the state at the cursor, and its provenance names exactly the
    commands up to the cursor. A dispatch moves along or truncates and extends
    this timeline, and its receipt tells the new cursor and state digest. *)
Theorem session_timeline `{F64Display} `{JsonText} `{SvgHost} `{F32Json} `{GeoContractJson}
    `{CommandText} s :
  reachable s ->
  coherent s
  /\ (exists i, initial_state s.1 = Some i /\ map pe_id (provenance_of s.2)
        = map pe_id (provenance_of i) ++ map env_id (take (cursor s.1) (history s.1)))
  /\ forall now e executor r s', dispatch now e executor s = (Ok r, s') ->
      dispatched e s s' /\ ce_cursor r = cursor s'.1 /\ ce_state_digest r = state_digest s'.2.
Proof.
  intros Hs. pose proof (reachable_coherent s Hs) as Hco. split; [done|]. split.
  - destruct (coherent_initial s Hco) as (i & Hi & _). exists i. split; [done|].
    apply (reachable_recorded s Hs i (cursor s.1) s.2 Hi). apply (co_project s Hco).
  - intros now e executor r s' Hd. by eapply coherent_dispatched.
Qed.

(** Undo and redo succeed exactly when there is something to undo or redo,
    and undo each other: after both, the bus and the project are back to the
    very same value. *)
Theorem undo_redo_inverse `{F64Display} `{JsonText} `{SvgHost} `{F32Json} `{GeoContractJson}
    `{CommandText} s :
  reachable s ->
  (if can_undo s.1 then exists s1, undo s = (Ok tt, s1) /\ redo s1 = (Ok tt, s)
   else undo s = (Err (Error NothingToUndo), s))
  /\ (if can_redo s.1 then exists s1, redo s = (Ok tt, s1) /\ undo s1 = (Ok tt, s)
      else redo s = (Err (Error NothingToRedo), s)).
Proof.
  intros Hs%reachable_coherent. destruct s as [b p]. pose proof (coherent_cursor _ Hs) as Hc. simpl in *.
  destruct (coherent_initial _ Hs) as (i & Hi & Ht). pose proof Hs as []. simpl in *.
  assert (Hback : forall c q, at_cursor (cursor b) p (at_cursor c q b) = b).
  { intros c q. destruct b. simpl in *. by subst. }
  unfold can_undo, can_redo. split.
  - destruct (Nat.ltb_spec 0 (cursor b)) as [Hn|Hn].
    + destruct (coherent_undo _ Hs Hn) as (q & Hq & Hu). eexists. split; [exact Hu|].
      apply redo_ok. simpl. split; [lia|]. exists p. rewrite Ht in co_project0.
      destruct (cursor b) as [|n] eqn:Hcur; [lia|]. simpl in *. rewrite Nat.sub_0_r in *.
      split; [done|]. by rewrite Nat.add_1_r, Hback.
    + unfold undo, get_bus, mbind, st_bind, get, mret, st_ret, lift. simpl.
      by replace (cursor b) with 0%nat by lia.
  - destruct (Nat.ltb_spec (cursor b) (length (history b))) as [Hn|Hn].
    + destruct (coherent_redo _ Hs Hn) as (q & Hq & Hu). eexists. split; [exact Hu|].
      apply undo_ok. simpl. split; [lia|]. exists p. rewrite Nat.add_sub, Hback. split; [|done].
      rewrite co_before0, lookup_take, decide_True by lia. done.
    + unfold redo, get_bus, mbind, st_bind, get, mret, st_ret, lift. simpl.
      by rewrite (proj2 (Nat.leb_le _ _) Hn).
Qed.

(** C4: replaying an audited session always succeeds, whatever the clock, and
    gives its project again (up to runtime fields, hence with the same state
    digest), with the same history, cursor, audit log and execution records. *)
Theorem replay_reproduces_session `{F64Display} `{JsonText} `{SvgHost} `{F32Json} `{GeoContractJson}
    `{CommandText} s clock :
  audited s ->
  exists q b, replay_inner None clock s.1 = (Ok q, b) /\ same_state s.2 q
    /\ state_digest q = state_digest s.2 /\ same_bus s.1 b /\ workflows b = workflows s.1.
Proof.
  intros Hs. destruct (replay_inner_audited s s.1 clock Hs) as (q & b & Hr & Hq & Hb & Hw); try done.
  { left. apply (le_expected _ (audited_ledger s Hs)). }
  exists q, b. split_and!; try done. symmetry. exact (state_digest_proper _ _ Hq).
Qed.

(** A persisted log brings an audited session back: the text is accepted by
    [load], whose bus then replays to the same project and the same bus, provided
    the JSON library reads back the log it wrote. *)
Theorem log_roundtrip `{F64Display} `{JsonText} `{SvgHost} `{F32Json} `{GeoContractJson}
    `{CommandText} `{LogJson} s clock clock' :
  audited s ->
  (forall log, log_of clock s.1 = Ok log -> parse_log (pretty_json (log_json log)) = Ok log) ->
  exists text b, persist clock s.1 = Ok text /\ load text = Ok b
    /\ exists q b', replay_inner None clock' b = (Ok q, b') /\ same_state s.2 q
       /\ state_digest q = state_digest s.2 /\ same_bus s.1 b'.
Proof.
  intros Hs Hparse. destruct (persist_load_audited s clock Hs Hparse)
    as (text & b & Hp & Hl & Hh & Hc & Hi & Ha & Hw & He & Hx).
  exists text, b. split_and!; try done.
  destruct (replay_inner_audited s b clock' Hs Hh Hc Hi Ha Hw He (or_intror Hx)) as (q & b' & Hr & Hq & Hb & _).
  exists q, b'. split_and!; try done. symmetry. exact (state_digest_proper _ _ Hq).
Qed.

(** C14: a workflow runs only as authorized: a successful [RunWorkflow] was for a
    registered, valid graph whose digest the envelope carries, with sources and
    inputs the graph admits; the executor was called on exactly that graph and
    context, and answered with a non-blank result digest. *)
Theorem workflow_runs_as_authorized `{F64Display} `{JsonText} `{SvgHost} `{F32Json} `{GeoContractJson}
    `{CommandText} now e executor s r s' id :
  dispatch now e executor s = (Ok r, s') -> command e = RunWorkflow id ->
  exists w run x, workflows s.1 !! id = Some w /\ validate sha256_hex w = Done tt
    /\ env_digest e = Some (trim (stable_digest_unchecked w)) /\ inputs_admitted w e
    /\ executor = Some run /\ run w (context_of (trim (stable_digest_unchecked w)) e) = Ok x
    /\ is_blank (result_digest x) = false /\ ce_result_digest r = Some (result_digest x).
Proof.
  intros Hd Hc. apply dispatch_ok in Hd. rewrite Hc in Hd.
  destruct Hd as (digest & x & p' & _ & Hv & Hx & _ & _ & ->). unfold executed in Hx. rewrite Hc in Hx.
  destruct Hx as (d & w & run & y & -> & (w' & Hw' & Hval & Hd & Henv & Hin) & Hw & -> & Hrun & Hb & ->).
  rewrite Hw in Hw'. injection Hw' as <-. subst d. exists w, run, y.
  split_and!; try done. by apply validate_input_snapshots_iff.
Qed.

(** C31: a reviewed mutation is bound to its graph: a successful command that
    initializes, edits or styles a layer names a registered, valid graph by its
    exact digest, and a node of it whose operation is the command's. *)
Theorem mutation_is_reviewed `{F64Display} `{JsonText} `{SvgHost} `{F32Json} `{GeoContractJson}
    `{CommandText} now e executor s r s' binding op :
  dispatch now e executor s = (Ok r, s') -> mutation_binding (command e) = Some (binding, op) ->
  exists w node, workflows s.1 !! bound_workflow binding = Some w /\ validate sha256_hex w = Done tt
    /\ env_digest e = Some (stable_digest_unchecked w) /\ node ∈ steps w
    /\ node_id sha256_hex node = bound_node binding /\ operation node = op.
Proof.
  intros Hd Hm. apply dispatch_ok in Hd.
  assert (Hc : committed now e executor s r s').
  { destruct (command e); done. }
  destruct Hc as (_ & _ & _ & Hv & _). by eapply mutation_workflow_ok.
Qed.

(** ** A concrete session *)

#[local] Instance demo_display : F64Display := fun _ => "x".
#[local] Instance demo_text : JsonText :=
  {| json_scalar := fun v => match v with JString s => s | _ => "x" end; json_key := fun k => k |}.
#[local] Instance demo_host : SvgHost :=
  {| f64_fixed := fun _ _ => "0"; number_json := fun _ => JNull; sha256_hex := fun _ => "00" |}.
#[local] Instance demo_f32 : F32Json := fun _ => JNull.
#[local] Instance demo_contract : GeoContractJson := fun _ => JNull.
#[local] Instance demo_command_text : CommandText :=
  {| workflow_error_text := fun _ => "invalid"; debug_string := fun s => s; debug_command := fun _ => "?" |}.

Definition demo : Project := project_new "project" "t0" "demo".
Definition add_wards : CommandEnvelope := envelope_new "e1" "t1" Cli (AddLayer "wards" "src").
Definition add_roads : CommandEnvelope := envelope_new "e2" "t2" Ui (AddLayer "roads" "src").
Definition undo_once : CommandEnvelope := envelope_new "e3" "t3" Ui Undo.
Definition run_density : CommandEnvelope :=
  with_workflow_digest "sha256:00" (envelope_new "e4" "t4" Ai (RunWorkflow "uuid")).
Definition fixed_executor : WorkflowExecutor :=
  fun _ _ => Ok {| result_digest := "sha256:11"; output := JNull; evidence := JNull; events := [] |}.

(** The session after each step *)
Definition started : session := (bus_new demo, demo).
Definition registered : session := ((register_workflow density_workflow started.1).2, started.2).
Definition one_layer : session := (apply "n1" add_wards registered).2.
Definition after_run : session := (apply_with_executor "n2" run_density fixed_executor one_layer).2.
Definition two_layers : session := (apply "n3" add_roads after_run).2.
Definition after_undo : session := (apply "n4" undo_once two_layers).2.

Lemma step_ok {S E A} (m : st S E A) s : is_ok (m s).1 = true -> exists a, m s = (Ok a, (m s).2).
Proof. destruct (m s) as [[a|e] s']; simpl; [eauto | done]. Qed.

Lemma audited_step now e executor s : audited s -> env_id e ∉ map env_id (audit_log s.1) ->
  is_ok (dispatch now e executor s).1 = true -> audited (dispatch now e executor s).2.
Proof. intros Hs Hf Hok. destruct (step_ok _ _ Hok) as [r Hr]. by eapply au_dispatch. Qed.

Lemma audited_registered : audited registered.
Proof.
  assert (Hok : is_ok (register_workflow density_workflow started.1).1 = true) by (by vm_compute).
  destruct (step_ok _ _ Hok) as [d Hd]. eapply au_register; [apply au_new | by vm_compute | exact Hd].
Qed.
Lemma audited_after_undo : audited after_undo.
Proof.
  assert (Hfresh : forall e s, bool_decide (env_id e ∉ map env_id (audit_log (s : session).1)) = true ->
    env_id e ∉ map env_id (audit_log s.1)) by (intros e s; apply bool_decide_eq_true).
  apply audited_step; [|apply Hfresh; by vm_compute | by vm_compute].
  apply audited_step; [|apply Hfresh; by vm_compute | by vm_compute].
  apply audited_step; [|apply Hfresh; by vm_compute | by vm_compute].
  apply audited_step; [|apply Hfresh; by vm_compute | by vm_compute].
  apply audited_registered.
Qed.

Lemma failed_dispatch_changes_nothing_witness :
  dispatch "n" run_density None after_undo = (Err (Error ExecutorRequired), after_undo)
  /\ (after_undo = after_undo /\ Error ExecutorRequired <> Panicked).
Proof.
  assert (Hf : dispatch "n" run_density None after_undo = (Err (Error ExecutorRequired), after_undo)) by (by vm_compute).
  split; [exact Hf | exact (failed_dispatch_changes_nothing _ _ _ _ _ _ Hf)].
Defined.

Lemma session_timeline_witness :
  coherent after_undo
  /\ (exists i, initial_state after_undo.1 = Some i /\ map pe_id (provenance_of after_undo.2)
        = map pe_id (provenance_of i) ++ map env_id (take (cursor after_undo.1) (history after_undo.1)))
  /\ map pe_id (provenance_of after_undo.2) = ["e1"; "e4"].
Proof.
  destruct (session_timeline after_undo (audited_reachable _ audited_after_undo)) as (H1 & H2 & _).
  split_and!; [exact H1 | exact H2 | by vm_compute].
Defined.

Lemma undo_redo_inverse_witness :
  (can_undo after_undo.1, can_redo after_undo.1) = (true, true)
  /\ (exists s1, undo after_undo = (Ok tt, s1) /\ redo s1 = (Ok tt, after_undo))
  /\ (exists s1, redo after_undo = (Ok tt, s1) /\ undo s1 = (Ok tt, after_undo)).
Proof.
  split; [by vm_compute|].
  exact (undo_redo_inverse after_undo (audited_reachable _ audited_after_undo)).
Defined.

Lemma replay_reproduces_session_witness :
  exists q b, replay_inner None (fun _ => "later") after_undo.1 = (Ok q, b) /\ same_state after_undo.2 q
    /\ state_digest q = state_digest after_undo.2 /\ same_bus after_undo.1 b
    /\ workflows b = workflows after_undo.1.
Proof. exact (replay_reproduces_session after_undo (fun _ => "later") audited_after_undo). Defined.

(** A JSON library that remembers the one log it wrote *)
Definition demo_log : CommandLog :=
  {| log_schema_version := 1; log_initial_state := demo; log_commands := history after_undo.1;
     log_audit_log := audit_log after_undo.1; log_cursor := cursor after_undo.1;
     log_workflows := values (workflows after_undo.1);
     log_executions := values (workflow_executions after_undo.1);
     log_state_digest := state_digest after_undo.2; log_digest := Some "sha256:00" |}.
Definition demo_log_json : LogJson :=
  {| log_json := fun _ => JNull; pretty_json := fun _ => "log"; parse_log := fun _ => Ok demo_log |}.

Lemma log_roundtrip_witness :
  exists text b, @persist _ _ _ _ _ _ demo_log_json (fun _ => "now") after_undo.1 = Ok text
    /\ @load _ _ demo_log_json text = Ok b
    /\ exists q b', replay_inner None (fun _ => "later") b = (Ok q, b') /\ same_state after_undo.2 q
       /\ state_digest q = state_digest after_undo.2 /\ same_bus after_undo.1 b'.
Proof.
  apply (@log_roundtrip _ _ _ _ _ _ demo_log_json after_undo (fun _ => "now") (fun _ => "later")).
  - exact audited_after_undo.
  - intros log Hlog. assert (Hl : @log_of _ _ _ _ _ _ demo_log_json (fun _ => "now") after_undo.1 = Ok demo_log)
      by (by vm_compute).
    rewrite Hl in Hlog. injection Hlog as <-. reflexivity.
Defined.

Lemma workflow_runs_as_authorized_witness :
  exists r, dispatch "n2" run_density (Some fixed_executor) one_layer = (Ok r, after_run)
    /\ exists w run x, workflows one_layer.1 !! "uuid" = Some w /\ validate sha256_hex w = Done tt
       /\ env_digest run_density = Some (trim (stable_digest_unchecked w)) /\ inputs_admitted w run_density
       /\ Some fixed_executor = Some run
       /\ run w (context_of (trim (stable_digest_unchecked w)) run_density) = Ok x
       /\ is_blank (result_digest x) = false /\ ce_result_digest r = Some (result_digest x).
Proof.
  assert (Hok : is_ok (dispatch "n2" run_density (Some fixed_executor) one_layer).1 = true) by (by vm_compute).
  destruct (step_ok _ _ Hok) as [r Hr]. exists r. split; [exact Hr|].
  exact (workflow_runs_as_authorized _ _ _ _ _ _ "uuid" Hr eq_refl).
Defined.

(** ** Editing under review *)

Definition edit_steps : list WorkflowStep :=
  [example_step "init" "InitializeEditableLayer" [] [] [ref_output "init" "result"];
   example_step "create" "EditFeatureCreate" ["init"] [ref_output "init" "result"] [ref_output "create" "result"]].
Definition edit_workflow : GeoWorkflow := example_workflow [] edit_steps [ref_output "create" "result"].
Definition edit_binding (node : string) : MutationWorkflowBinding := {| bound_workflow := "uuid"; bound_node := node |}.
Definition reviewed (id : string) (c : Command) : CommandEnvelope :=
  with_workflow_digest "sha256:00" (envelope_new id "t" Ui c).
Definition init_layer : CommandEnvelope :=
  reviewed "e5" (InitializeEditableLayer "e1" nagoya_projected EG_Polygon example_schema (edit_binding "init")).
Definition create_feature : CommandEnvelope :=
  reviewed "e6" (EditFeatures "e1" 0 create_whole (edit_binding "create")).
Definition remove_layer : CommandEnvelope := envelope_new "e7" "t" Ui (RemoveLayer "e1").

Definition editing : session :=
  (apply "n" init_layer (apply "n" add_wards ((register_workflow edit_workflow started.1).2, started.2)).2).2.

Lemma mutation_is_reviewed_witness :
  exists r, dispatch "n" create_feature None editing = (Ok r, (dispatch "n" create_feature None editing).2)
    /\ exists w node, workflows editing.1 !! "uuid" = Some w /\ validate sha256_hex w = Done tt
       /\ env_digest create_feature = Some (stable_digest_unchecked w) /\ node ∈ steps w
       /\ node_id sha256_hex node = "create" /\ operation node = "EditFeatureCreate".
Proof.
  assert (Hok : is_ok (dispatch "n" create_feature None editing).1 = true) by (by vm_compute).
  destruct (step_ok _ _ Hok) as [r Hr]. exists r. split; [exact Hr|].
  exact (mutation_is_reviewed _ _ _ _ _ _ (edit_binding "create") "EditFeatureCreate" Hr eq_refl).
Defined.

(** ** What falls outside these theorems *)

(** Removing a layer keeps its feature store: the removed layer can still be
    edited, and its identity cannot be found in the workspace any more. *)
Theorem removed_layer_is_still_editable :
  let s := (apply "n" remove_layer editing).2 in
  ws_layers (workspace_of s.2) = [] /\ is_ok (dispatch "n" create_feature None s).1 = true.
Proof. by vm_compute. Qed.

(** A direct call of [undo] is not in the audit log: after replaying such a
    session, the project is the one before the undone command, but the cursor is
    past it, so the command cannot be redone. *)
Definition directly_undone : session := (undo (apply "n" add_roads (apply "n" add_wards started).2).2).2.
Theorem direct_undo_moves_the_replayed_cursor :
  (cursor directly_undone.1, can_redo directly_undone.1) = (1%nat, true)
  /\ exists q b, replay_inner None (fun _ => "n") directly_undone.1 = (Ok q, b)
     /\ length (ws_layers (workspace_of q)) = 1%nat /\ (cursor b, can_redo b) = (2%nat, false).
Proof. split; [by vm_compute|]. eexists _, _. split; [vm_compute; reflexivity | by vm_compute]. Qed.

(** A recorded (pushed) command makes the log impossible to replay. *)
Theorem pushed_command_blocks_replay :
  let e := envelope_new "e8" "t" Cli (RemoveStacEndpoint "stac") in
  replay_inner None (fun _ => "n") (push e started.1)
  = (Err (Error (UnsupportedCommand "?")), push e started.1).
Proof. by vm_compute. Qed.

(** Registering another graph under the identity of one that already reviewed a
    command makes the log impossible to replay: all graphs are registered before
    the first event. *)
Theorem reregistered_workflow_blocks_replay :
  let b := (register_workflow (example_workflow [] [example_step "other" "Other" [] [] [ref_output "other" "result"]]
              [ref_output "other" "result"]) editing.1).2 in
  replay_inner None (fun _ => "n") b
  = (Err (Error (MutationWorkflowBindingError "node init does not exist")), b).
Proof. by vm_compute. Qed.
