(* ===== verification/CommandRun.v ===== *)
(** * One workflow run on a bus of its own

    The shape that crates/genegis-analysis (scenario.rs, governance.rs,
    verified_alert.rs) and crates/genegis-plugin-host (workflow.rs,
    solution_pack.rs) give to every operation they put behind the command bus: a
    template with one input contract, an envelope that names the template's digest
    and the source it was built from, a project and a bus made for the occasion,
    registration, one [apply_with_executor]. The lemma [run_single] says what such a
    run answers; the client's theorems only use that. *)

From S2P Require Import Prelude RustStd Crs Json GeoContract WorkflowGraph EditLayer MapStyle Project WorkflowDigest Command CommandSession.
Local Open Scope builder_scope.

(** The identities and instants a run draws: UUIDs and [Utc::now()] *)
Record Fresh := mkFresh {
  fresh_command : string; fresh_command_at : string;
  (** the UUIDs of the template: of the graph (the empty identity) and of its steps *)
  fresh_uuid : string -> string;
  fresh_project : string; fresh_project_at : string; fresh_dispatch_at : string }.

(** [Display] of a [CommandError] *)
Class CommandErrorText := command_error_text : CommandError -> string.

(** [WorkflowExecutor::execute] of a client: its error text or its record *)
Definition one_event (kind : string) (source_uri : option string) (details : json)
    (cx : WorkflowExecutionContext) : list WorkflowExecutionEvent :=
  [{| event_kind := kind; event_source_uri := source_uri; observed_at := cx_timestamp cx;
      event_details := details |}].

(** [json!({"command_id": .., "workflow_digest": ..})] *)
Definition run_details (cx : WorkflowExecutionContext) : json :=
  JObject [("command_id", JString (cx_command_id cx)); ("workflow_digest", JString (cx_digest cx))].

(** A source whose bytes were observed to have the digest [value] *)
Definition verified_snapshot (uri value : string) : SourceSnapshot :=
  {| dataset_id := None; uri := uri; license := None; checksum := Some value; expected_checksum := None;
     observed_checksum := Some value; retrieved_at := None; source_version := None;
     checksum_status := CV_Verified |}.

(** An error of the bus as the caller's own error *)
Definition bus_error {E} (f : string -> E) `{CommandErrorText} (e : fault CommandError) : fault E :=
  match e with Error e => Error (f (command_error_text e)) | Panicked => Panicked end.

Section Run.
Context `{F64Display} `{JsonText} `{SvgHost} `{F32Json} `{GeoContractJson} `{CommandText}.

(** The envelope: the digest is a [WorkflowDigest] already. *)
Definition run_envelope (f : Fresh) (digest : string) (w : GeoWorkflow) (input : string)
    (source : SourceSnapshot) : CommandEnvelope :=
  {| env_id := fresh_command f; origin := Ui; timestamp := fresh_command_at f; env_digest := Some digest;
     source_snapshots := []; input_snapshots := []; command := RunWorkflow (workflow_id w) |}
  |> add_source_snapshot source
  |> add_input_snapshot (snapshot_new input source).

(** [Project::new], [CommandBus::new], [register_workflow], [apply_with_executor] *)
Definition run_on_fresh_bus (f : Fresh) (name : string) (w : GeoWorkflow) (e : CommandEnvelope)
    (executor : WorkflowExecutor) : fallible CommandExecution * session :=
  let project := project_new (fresh_project f) (fresh_project_at f) name in
  (on_bus (register_workflow w);; apply_with_executor (fresh_dispatch_at f) e executor)
    (bus_new project, project).

(** The template asks for one input, and fixes its source. *)
Definition reads_only (w : GeoWorkflow) (input : string) (source : SourceSnapshot) : Prop :=
  exists c, input_contracts w = [c] /\ ic_name c = input /\ source_snapshot c = Some source.

Lemma single_admitted f d w input source :
  reads_only w input source -> validate_input_snapshots w (run_envelope f d w input source) = Ok tt.
Proof.
  intros (c & Hc & Hn & Hs). apply validate_input_snapshots_iff. split.
  - intros s [->|[]%not_elem_of_nil]%elem_of_cons. right. left. exists c, source. rewrite Hc.
    split_and!; [by apply list_elem_of_here | done..].
  - intros s [->|[]%not_elem_of_nil]%elem_of_cons. exists c. rewrite Hc. simpl.
    rewrite bool_decide_true by done. split; [done|]. rewrite Hs. by intros x [= <-].
  - intros c' x. rewrite Hc. intros ->%list_elem_of_singleton Hx. rewrite Hs in Hx. injection Hx as <-.
    left. exists (snapshot_new input source). simpl. by rewrite Hn, bool_decide_true.
Qed.

(** What the dispatcher sees of the run's session: the template under its id *)
Lemma registered_run w project :
  validate sha256_hex w = Done tt ->
  on_bus (register_workflow w) (bus_new project, project)
  = (Ok (trim (stable_digest_unchecked w)), (with_workflow w (bus_new project), project)).
Proof.
  intros Hv. unfold on_bus.
  by rewrite (proj2 (register_ok w (bus_new project) _ _) (conj Hv (conj eq_refl eq_refl))).
Qed.

(** A run answers what its executor answers. *)
Lemma run_admitted f name w e executor :
  validate sha256_hex w = Done tt -> command e = RunWorkflow (workflow_id w) ->
  let d := trim (stable_digest_unchecked w) in
  env_digest e = Some d -> validate_input_snapshots w e = Ok tt ->
  match executor w (context_of d e) with
  | Ok x =>
      if is_blank (result_digest x)
      then (run_on_fresh_bus f name w e executor).1 = Err (Error EmptyResultDigest)
      else exists r s, run_on_fresh_bus f name w e executor = (Ok r, s)
             /\ ce_command_id r = env_id e /\ ce_result_digest r = Some (result_digest x)
             /\ history s.1 = [e] /\ coherent s
  | Err m => (run_on_fresh_bus f name w e executor).1
             = Err (Error (WorkflowExecutionFailed ("workflow executor failed: " +:+ m)))
  end.
Proof.
  intros Hv Hcmd d Hd Hadm. unfold run_on_fresh_bus. set (p := project_new _ _ _). cbv zeta.
  destruct e as [id o at' dg sources snapshots cmd]. cbn [command env_digest] in Hcmd, Hd. subst cmd dg.
  set (e := {| env_id := id |}) in *. change id with (env_id e).
  assert (Hl : workflows (with_workflow w (bus_new p)) !! workflow_id w = Some w) by apply lookup_insert_eq.
  assert (Hc : validate_workflow_command (with_workflow w (bus_new p)) e = Ok (Some d)).
  { apply workflow_command_ok. left. exists (workflow_id w), d. split_and!; [done..|].
    exists w. split_and!; [apply lookup_insert_eq | done.. |]. exact Hadm. }
  assert (Hrun : forall x, executor w (context_of d e) = x ->
    execute_workflow (with_workflow w (bus_new p)) e (Some d) (Some executor)
    = (y ← map_err (fun m => Error (WorkflowExecutionFailed ("workflow executor failed: " +:+ m))) x;
       err_if (is_blank (result_digest y)) (Error EmptyResultDigest);; Ok (Some y))).
  { intros x <-. unfold execute_workflow. cbn [ok_or mbind result_bind command e run_envelope].
    change (command e) with (RunWorkflow (workflow_id w)). cbn [ok_or mbind result_bind]. by rewrite Hl. }
  assert (Hs : forall k : bus_run CommandExecution,
    (on_bus (register_workflow w);; k) (bus_new p, p) = k (with_workflow w (bus_new p), p)).
  { intros k. unfold mbind, st_bind. by rewrite (registered_run w p Hv). }
  rewrite Hs. clear Hs.
  destruct (executor w (context_of d e)) as [x|m] eqn:Hx; specialize (Hrun _ eq_refl);
    cbn [map_err mbind result_bind] in Hrun.
  - destruct (is_blank (result_digest x)) eqn:Hb; cbn [err_if mbind result_bind] in Hrun.
    + unfold apply_with_executor, dispatch. simpl. unfold get_bus, mbind, st_bind, get, mret, st_ret, lift. simpl.
      rewrite Hc. by rewrite Hrun.
    + set (p' := (mutate_workflow_run e (workflow_id w) (Some d) (Some x) p).2).
      exists (receipt_of e (Some d) (Some x) (commit e p p' (Some d) (Some x) (with_workflow w (bus_new p)), p')).
      exists (commit e p p' (Some d) (Some x) (with_workflow w (bus_new p)), p').
      split_and!; [|done..|].
      * apply (proj2 (dispatch_ok (fresh_dispatch_at f) e (Some executor) _ _ _)). simpl.
        exists (Some d), (Some x), p'. split_and!; [done | exact Hc | | done..].
        apply (execute_workflow_ok _ _ _ _ _ Hc). exact Hrun.
      * apply coherent_commit. by split.
  - unfold apply_with_executor, dispatch. simpl. unfold get_bus, mbind, st_bind, get, mret, st_ret, lift. simpl.
    rewrite Hc. by rewrite Hrun.
Qed.

(** A run with one source and one input *)
Lemma run_single f name w input source executor :
  validate sha256_hex w = Done tt -> reads_only w input source ->
  let d := trim (stable_digest_unchecked w) in
  let e := run_envelope f d w input source in
  match executor w (context_of d e) with
  | Ok x =>
      if is_blank (result_digest x)
      then (run_on_fresh_bus f name w e executor).1 = Err (Error EmptyResultDigest)
      else exists r s, run_on_fresh_bus f name w e executor = (Ok r, s)
             /\ ce_command_id r = fresh_command f /\ ce_result_digest r = Some (result_digest x)
             /\ history s.1 = [e] /\ coherent s
  | Err m => (run_on_fresh_bus f name w e executor).1
             = Err (Error (WorkflowExecutionFailed ("workflow executor failed: " +:+ m)))
  end.
Proof. intros Hv Hr d e. by apply run_admitted, single_admitted. Qed.

(** What a caller reads off its run: the result digest, or its own error *)
Definition observed_digest {E} (g : string -> E) `{CommandErrorText} (f : Fresh) (name : string)
    (w : GeoWorkflow) (e : CommandEnvelope) (executor : WorkflowExecutor) : result (fault E) (option string) :=
  execution ← map_err (bus_error g) (run_on_fresh_bus f name w e executor).1;
  Ok (ce_result_digest execution).

Definition executor_failure `{CommandErrorText} (m : string) : string :=
  command_error_text (WorkflowExecutionFailed ("workflow executor failed: " +:+ m)).

(** Where the executor's digest does not depend on the context, the run observes it. *)
Lemma observed_run {E} (g : string -> E) `{CommandErrorText} f name w input source executor d :
  validate sha256_hex w = Done tt -> reads_only w input source ->
  (forall cx, (x ← executor w cx; Ok (result_digest x)) = d) ->
  observed_digest g f name w (run_envelope f (trim (stable_digest_unchecked w)) w input source) executor
  = match d with
    | Ok d => if is_blank d then Err (Error (g (command_error_text EmptyResultDigest))) else Ok (Some d)
    | Err m => Err (Error (g (executor_failure m)))
    end.
Proof.
  intros Hv Hr Hd. unfold observed_digest. pose proof (run_single f name w input source executor Hv Hr) as Hs.
  cbv zeta in Hs. specialize (Hd (context_of (trim (stable_digest_unchecked w))
    (run_envelope f (trim (stable_digest_unchecked w)) w input source))).
  destruct (executor w _) as [x|m]; simpl in Hd; subst d; [|by rewrite Hs].
  destruct (is_blank (result_digest x)); [by rewrite Hs|].
  destruct Hs as (r & s & -> & _ & Hc & _). simpl. by rewrite Hc.
Qed.
End Run.
