(* ===== verification/Scenario.v ===== *)
(** * Scenario branches (crates/genegis-analysis/src/scenario.rs)

    Branches of assumptions and spatial outcomes that are sealed by a digest,
    compared into a list of semantic changes, and merged under an approval of that
    very comparison; each of the three operations runs behind a command bus
    (CommandRun). serde_json's comparison of values and chrono's instants are
    parameters. *)

From S2P Require Import Prelude RustStd Crs Json GeoContract WorkflowGraph WorkflowAccept EditLayer MapStyle Project WorkflowDigest Templates Command CommandSession CommandRun.

(** ** Data *)

Definition SCENARIO_SCHEMA_VERSION : string := "0.1.0".

Record ScenarioAssumption := mkAssumption { as_value : json; as_unit : string }.
Record ScenarioSpatialOutcome := mkOutcome { so_unit : string; by_area : gmap string f64 }.

Record ScenarioBranchDraft := mkBranchDraft {
  dr_branch_id : string;
  dr_base_project_digest : string;
  dr_workflow_digest : string;
  dr_result_digest : string;
  dr_assumptions : gmap string ScenarioAssumption;
  dr_outcomes : gmap string ScenarioSpatialOutcome }.

Record ScenarioBranch := mkBranch {
  br_schema_version : string;
  br_branch_id : string;
  br_base_project_digest : string;
  br_workflow_digest : string;
  br_result_digest : string;
  br_assumptions : gmap string ScenarioAssumption;
  br_outcomes : gmap string ScenarioSpatialOutcome;
  br_branch_digest : string }.

Record ScenarioSemanticChange := mkChange {
  ch_category : string; ch_path : string; ch_base : option json; ch_scenario : option json }.

Record ScenarioComparison := mkComparison {
  sc_base_project_digest : string;
  sc_base_branch_digest : string;
  sc_scenario_branch_digest : string;
  changes : list ScenarioSemanticChange;
  diff_digest : string }.

Record ScenarioApproval := mkScenarioApproval {
  ap_reviewer : string; ap_approved_at : string; ap_diff_digest : string;
  ap_scenario_branch_digest : string }.

Record ScenarioMergeCommit := mkMerge {
  mc_base_project_digest : string;
  mc_scenario_branch_digest : string;
  mc_diff_digest : string;
  mc_reviewer : string;
  mc_approved_at : string;
  merged_project_digest : string;
  merge_digest : string }.

Record ScenarioBranchReceipt := mkBranchReceipt {
  rb_command_id : string; rb_workflow_digest : string; rb_branch : ScenarioBranch }.
Record ScenarioComparisonReceipt := mkComparisonReceipt {
  rc_command_id : string; rc_workflow_digest : string; rc_comparison : ScenarioComparison }.
Record ScenarioMergeReceipt := mkMergeReceipt {
  rm_command_id : string; rm_workflow_digest : string; rm_commit : ScenarioMergeCommit }.

Inductive ScenarioError := Invalid (reason : string) | Workflow (reason : string).

Inductive ScenarioOperation :=
| OpBranch (draft : ScenarioBranchDraft)
| OpCompare (base scenario : ScenarioBranch)
| OpMerge (base scenario : ScenarioBranch) (approval : ScenarioApproval).
Inductive ScenarioOutput :=
| OutBranch (branch : ScenarioBranch)
| OutComparison (comparison : ScenarioComparison)
| OutMerge (merged : ScenarioMergeCommit).

(** [Display] *)
Definition scenario_error_text (e : ScenarioError) : string :=
  match e with
  | Invalid reason => "invalid scenario: " +:+ reason
  | Workflow reason => "scenario workflow failed: " +:+ reason
  end.

Abbreviation checked A := (result ScenarioError A).
Abbreviation scenario_run A := (result (fault ScenarioError) A).

(** [==] of [serde_json::Value] *)
Class ValueEq := value_eqb : json -> json -> bool.

(** [BTreeMap]'s [==]: as many entries, and the same ones *)
Definition btree_eqb {T} (eqb : T -> T -> bool) (m n : gmap string T) : bool :=
  (size m =? size n)%nat
  && forallb (fun '(k, v) => match n !! k with Some w => eqb v w | None => false end) (map_to_list m).
Definition option_eqb {T} (eqb : T -> T -> bool) (a b : option T) : bool :=
  match a, b with Some a, Some b => eqb a b | None, None => true | _, _ => false end.
Definition is_none {A} (o : option A) : bool := match o with None => true | Some _ => false end.

Section Scenario.
Context `{F64Display} `{JsonText} `{SvgHost} `{F32Json} `{GeoContractJson} `{CommandText}.
Context `{CommandErrorText} `{ValueEq} `{Rfc3339}.

(** ** Serialization: [derive(Serialize)] and [json!] *)

Definition map_json {T} (to_value : T -> json) (m : gmap string T) : json :=
  JObject (map (fun k => (k, from_option to_value JNull (m !! k))) (btree_keys String.le m)).
Definition assumption_json (a : ScenarioAssumption) : json :=
  JObject [("value", as_value a); ("unit", JString (as_unit a))].
Definition outcome_json (o : ScenarioSpatialOutcome) : json :=
  JObject [("unit", JString (so_unit o)); ("by_area", map_json number_json (by_area o))].
Definition branch_json (b : ScenarioBranch) : json :=
  JObject [("schema_version", JString (br_schema_version b)); ("branch_id", JString (br_branch_id b));
           ("base_project_digest", JString (br_base_project_digest b));
           ("workflow_digest", JString (br_workflow_digest b));
           ("result_digest", JString (br_result_digest b));
           ("assumptions", map_json assumption_json (br_assumptions b));
           ("outcomes", map_json outcome_json (br_outcomes b));
           ("branch_digest", JString (br_branch_digest b))].
Definition option_json (o : option json) : json := from_option (fun v => v) JNull o.
Definition change_json (c : ScenarioSemanticChange) : json :=
  JObject [("category", JString (ch_category c)); ("path", JString (ch_path c));
           ("base", option_json (ch_base c)); ("scenario", option_json (ch_scenario c))].
Definition comparison_json (c : ScenarioComparison) : json :=
  JObject [("base_project_digest", JString (sc_base_project_digest c));
           ("base_branch_digest", JString (sc_base_branch_digest c));
           ("scenario_branch_digest", JString (sc_scenario_branch_digest c));
           ("changes", JArray (map change_json (changes c))); ("diff_digest", JString (diff_digest c))].
Definition merge_json (c : ScenarioMergeCommit) : json :=
  JObject [("base_project_digest", JString (mc_base_project_digest c));
           ("scenario_branch_digest", JString (mc_scenario_branch_digest c));
           ("diff_digest", JString (mc_diff_digest c)); ("reviewer", JString (mc_reviewer c));
           ("approved_at", JString (mc_approved_at c));
           ("merged_project_digest", JString (merged_project_digest c));
           ("merge_digest", JString (merge_digest c))].

(** [digest] of a struct; of a [json!] value, whose objects are sorted maps *)
Definition digest (v : json) : string := digest_bytes (compact_json v).
Definition value_digest (v : json) : string := digest_bytes (canonical_json v).

(** ** Admission and sealing *)

Definition require_digest (value : string) : checked unit :=
  err_if (negb (sha256_identity value)) (Invalid "invalid SHA-256 identity").

Definition bad_assumption (key : string) (a : ScenarioAssumption) : bool :=
  is_blank key || is_blank (as_unit a).
Definition bad_outcome (key : string) (o : ScenarioSpatialOutcome) : bool :=
  is_blank key || is_blank (so_unit o) || bool_decide (by_area o = ∅)
  || existsb (fun '(_, number) => negb (f64_is_finite number)) (map_to_list (by_area o)).

Definition validate_draft (d : ScenarioBranchDraft) : checked unit :=
  err_if (is_blank (dr_branch_id d) || bool_decide (dr_assumptions d = ∅)
          || bool_decide (dr_outcomes d = ∅))
    (Invalid "branch, assumptions, and outcomes are required");;
  for_each require_digest [dr_base_project_digest d; dr_workflow_digest d; dr_result_digest d];;
  err_if (existsb (fun '(key, value) => bad_assumption key value) (map_to_list (dr_assumptions d))
          || existsb (fun '(key, value) => bad_outcome key value) (map_to_list (dr_outcomes d)))
    (Invalid "assumption or outcome semantics are invalid").

Definition set_branch_digest (digest : string) (b : ScenarioBranch) : ScenarioBranch :=
  mkBranch (br_schema_version b) (br_branch_id b) (br_base_project_digest b) (br_workflow_digest b)
    (br_result_digest b) (br_assumptions b) (br_outcomes b) digest.
Definition branch_digest (b : ScenarioBranch) : string := digest (branch_json (set_branch_digest "" b)).

Definition seal_branch (d : ScenarioBranchDraft) : checked ScenarioBranch :=
  validate_draft d;;
  let branch :=
    {| br_schema_version := SCENARIO_SCHEMA_VERSION; br_branch_id := dr_branch_id d;
       br_base_project_digest := dr_base_project_digest d; br_workflow_digest := dr_workflow_digest d;
       br_result_digest := dr_result_digest d; br_assumptions := dr_assumptions d;
       br_outcomes := dr_outcomes d; br_branch_digest := "" |} in
  Ok (set_branch_digest (branch_digest branch) branch).

Definition draft_of (b : ScenarioBranch) : ScenarioBranchDraft :=
  {| dr_branch_id := br_branch_id b; dr_base_project_digest := br_base_project_digest b;
     dr_workflow_digest := br_workflow_digest b; dr_result_digest := br_result_digest b;
     dr_assumptions := br_assumptions b; dr_outcomes := br_outcomes b |}.
Definition verify_branch (b : ScenarioBranch) : checked unit :=
  validate_draft (draft_of b);;
  err_if (negb (bool_decide (br_schema_version b = SCENARIO_SCHEMA_VERSION))
          || negb (bool_decide (br_branch_digest b = branch_digest b)))
    (Invalid "branch digest mismatch").

(** ** Comparison *)

(** [derive(PartialEq)] *)
Definition assumption_eqb (a b : ScenarioAssumption) : bool :=
  value_eqb (as_value a) (as_value b) && bool_decide (as_unit a = as_unit b).
Definition outcome_eqb (a b : ScenarioSpatialOutcome) : bool :=
  bool_decide (so_unit a = so_unit b) && btree_eqb f64_eqb (by_area a) (by_area b).

Definition diff_maps {T} (eqb : T -> T -> bool) (to_value : T -> json) (category : string)
    (base scenario : gmap string T) (changes : list ScenarioSemanticChange)
    : list ScenarioSemanticChange :=
  fold_left (fun changes key =>
      if negb (option_eqb eqb (base !! key) (scenario !! key))
      then changes ++ [{| ch_category := category; ch_path := "/" +:+ category +:+ "s/" +:+ key;
                          ch_base := to_value <$> base !! key; ch_scenario := to_value <$> scenario !! key |}]
      else changes)
    (btree_iter String.le (dom base ∪ dom scenario)) changes.

Definition compare (base scenario : ScenarioBranch) : checked ScenarioComparison :=
  verify_branch base;;
  verify_branch scenario;;
  err_if (negb (bool_decide (br_base_project_digest base = br_base_project_digest scenario))
          || bool_decide (br_branch_digest base = br_branch_digest scenario))
    (Invalid "branches require same base and distinct identity");;
  let changes := diff_maps assumption_eqb assumption_json "assumption"
    (br_assumptions base) (br_assumptions scenario) [] in
  let changes := diff_maps outcome_eqb outcome_json "outcome"
    (br_outcomes base) (br_outcomes scenario) changes in
  Ok {| sc_base_project_digest := br_base_project_digest base;
        sc_base_branch_digest := br_branch_digest base;
        sc_scenario_branch_digest := br_branch_digest scenario; changes := changes;
        diff_digest := value_digest (JObject
          [("base_project_digest", JString (br_base_project_digest base));
           ("base_branch_digest", JString (br_branch_digest base));
           ("scenario_branch_digest", JString (br_branch_digest scenario));
           ("changes", JArray (map change_json changes))]) |}.

(** ** Merge *)

(** The last guard of [merge] and the last two of [merge_reviewed_scenario] *)
Definition approval_stale (a : ScenarioApproval) (c : ScenarioComparison) (scenario : ScenarioBranch) : bool :=
  negb (bool_decide (ap_diff_digest a = diff_digest c))
  || negb (bool_decide (ap_scenario_branch_digest a = br_branch_digest scenario)).

Definition merge (base scenario : ScenarioBranch) (a : ScenarioApproval) : checked ScenarioMergeCommit :=
  comparison ← compare base scenario;
  err_if (approval_stale a comparison scenario) (Invalid "approval no longer matches semantic diff");;
  let merged := value_digest (JObject
    [("base", JString (br_base_project_digest base)); ("selected_branch", JString (br_branch_digest scenario));
     ("result", JString (br_result_digest scenario)); ("diff", JString (diff_digest comparison))]) in
  Ok {| mc_base_project_digest := br_base_project_digest base;
        mc_scenario_branch_digest := br_branch_digest scenario;
        mc_diff_digest := diff_digest comparison; mc_reviewer := ap_reviewer a;
        mc_approved_at := ap_approved_at a; merged_project_digest := merged;
        merge_digest := value_digest (JObject
          [("base_project_digest", JString (br_base_project_digest base));
           ("scenario_branch_digest", JString (br_branch_digest scenario));
           ("diff_digest", JString (diff_digest comparison)); ("reviewer", JString (ap_reviewer a));
           ("approved_at", JString (ap_approved_at a)); ("merged_project_digest", JString merged)]) |}.

(** ** The three operations behind the bus *)

(** The operation an executor holds, what its cell holds once it ran, and what it
    answers the bus *)
Definition run_operation (op : ScenarioOperation) : checked ScenarioOutput :=
  match op with
  | OpBranch draft => b ← seal_branch draft; Ok (OutBranch b)
  | OpCompare base scenario => c ← compare base scenario; Ok (OutComparison c)
  | OpMerge base scenario approval => c ← merge base scenario approval; Ok (OutMerge c)
  end.
Definition output_kind (o : ScenarioOutput) : string :=
  match o with
  | OutBranch _ => "scenario_branch_created" | OutComparison _ => "scenario_compared"
  | OutMerge _ => "scenario_merged"
  end.
Definition scenario_digest (o : ScenarioOutput) : string :=
  match o with
  | OutBranch b => br_branch_digest b | OutComparison c => diff_digest c | OutMerge c => merge_digest c
  end.
Definition output_json (o : ScenarioOutput) : json :=
  match o with
  | OutBranch b => branch_json b | OutComparison c => comparison_json c | OutMerge c => merge_json c
  end.
Definition scenario_executor (op : ScenarioOperation) : WorkflowExecutor := fun _ cx =>
  output ← map_err scenario_error_text (run_operation op);
  Ok {| result_digest := scenario_digest output;
        Command.output := JObject [("operation", JString (output_kind output))];
        evidence := output_json output;
        events := one_event (output_kind output) None (run_details cx) cx |}.

Definition verified_source (kind value : string) : SourceSnapshot :=
  verified_snapshot (kind +:+ "://" +:+ value) value.

(** The executor stores its output just before it answers; it runs once. *)
Definition execute_operation (f : Fresh) (w : GeoWorkflow) (source : SourceSnapshot) (input : string)
    (op : ScenarioOperation) : scenario_run (string * string * ScenarioOutput) :=
  d ← checked_run (fun e => Workflow (workflow_error_text e)) (stable_digest w);
  let workflow_digest := workflow_digest_new d in
  execution ← map_err (bus_error Workflow)
    (run_on_fresh_bus f "Scenario operation" w (run_envelope f workflow_digest w input source)
       (scenario_executor op)).1;
  let cell := match run_operation op with Ok output => Some output | Err _ => None end in
  output ← ok_or cell (Error (Workflow "executor returned no scenario output"));
  err_if (negb (bool_decide (ce_result_digest execution = Some (scenario_digest output))))
    (Error (Workflow "CommandBus scenario digest mismatch"));;
  Ok (fresh_command f, workflow_digest, output).

Definition create_scenario_branch (f : Fresh) (d : ScenarioBranchDraft)
    : scenario_run ScenarioBranchReceipt :=
  as_fault (validate_draft d);;
  let source := verified_source "project" (dr_base_project_digest d) in
  let workflow := scenario_branch_template (fresh_uuid f) source (dr_branch_id d) in
  '(id, workflow_digest, output) ← execute_operation f workflow source "scenario-base" (OpBranch d);
  match output with
  | OutBranch branch => Ok {| rb_command_id := id; rb_workflow_digest := workflow_digest; rb_branch := branch |}
  | _ => Err Panicked
  end.

Definition compare_scenarios (f : Fresh) (base scenario : ScenarioBranch)
    : scenario_run ScenarioComparisonReceipt :=
  as_fault (verify_branch base);;
  as_fault (verify_branch scenario);;
  let source := verified_source "scenario" (br_branch_digest base) in
  let workflow := scenario_comparison_template (fresh_uuid f) source in
  '(id, workflow_digest, output) ← execute_operation f workflow source "scenario-comparison"
      (OpCompare base scenario);
  match output with
  | OutComparison c => Ok {| rc_command_id := id; rc_workflow_digest := workflow_digest; rc_comparison := c |}
  | _ => Err Panicked
  end.

Definition merge_reviewed_scenario (f : Fresh) (base scenario : ScenarioBranch) (a : ScenarioApproval)
    : scenario_run ScenarioMergeReceipt :=
  comparison ← as_fault (compare base scenario);
  err_if (is_blank (ap_reviewer a) || is_none (rfc3339_instant (ap_approved_at a))
          || approval_stale a comparison scenario)
    (Error (Invalid "approval is stale or mismatched"));;
  let source := verified_source "scenario-diff" (diff_digest comparison) in
  let workflow := scenario_merge_template (fresh_uuid f) source (diff_digest comparison) in
  '(id, workflow_digest, output) ← execute_operation f workflow source "scenario-merge"
      (OpMerge base scenario a);
  match output with
  | OutMerge commit => Ok {| rm_command_id := id; rm_workflow_digest := workflow_digest; rm_commit := commit |}
  | _ => Err Panicked
  end.
End Scenario.

(** ** What a list of changes does to the entries of a map *)

Definition apply_change (category : string) (m : gmap string json) (c : ScenarioSemanticChange)
    : gmap string json :=
  match strip_prefix ("/" +:+ category +:+ "s/") (ch_path c) with
  | Some key => if bool_decide (ch_category c = category)
                then match ch_scenario c with Some v => <[key := v]> m | None => delete key m end
                else m
  | None => m
  end.
Definition apply_changes (category : string) (cs : list ScenarioSemanticChange) (m : gmap string json)
    : gmap string json := fold_left (apply_change category) cs m.

Section Theory.
Context `{F64Display} `{JsonText} `{SvgHost} `{F32Json} `{GeoContractJson} `{CommandText}.
Context `{CommandErrorText} `{ValueEq} `{Rfc3339}.

(** *** A branch verifies when it is the seal of an admissible draft *)

Lemma draft_of_seal d s : draft_of (set_branch_digest s
  {| br_schema_version := SCENARIO_SCHEMA_VERSION; br_branch_id := dr_branch_id d;
     br_base_project_digest := dr_base_project_digest d; br_workflow_digest := dr_workflow_digest d;
     br_result_digest := dr_result_digest d; br_assumptions := dr_assumptions d;
     br_outcomes := dr_outcomes d; br_branch_digest := "" |}) = d.
Proof. by destruct d. Qed.

Lemma seal_branch_ok d b : seal_branch d = Ok b <->
  validate_draft d = Ok tt /\ draft_of b = d /\ br_schema_version b = SCENARIO_SCHEMA_VERSION
  /\ br_branch_digest b = branch_digest b.
Proof.
  unfold seal_branch. rewrite seq_ok. split.
  - intros [Hv [= <-]]. split_and!; [done | by destruct d | done..].
  - intros (Hv & <- & Hs & Hd). split; [done|].
    destruct b. simpl in *. subst. unfold set_branch_digest. simpl. do 2 f_equal. symmetry. exact Hd.
Qed.

Lemma verify_branch_ok b : verify_branch b = Ok tt <->
  validate_draft (draft_of b) = Ok tt /\ br_schema_version b = SCENARIO_SCHEMA_VERSION
  /\ br_branch_digest b = branch_digest b.
Proof.
  unfold verify_branch. rewrite seq_ok, err_if_ok, orb_false_iff, !negb_false_iff, !bool_decide_eq_true. done.
Qed.

Lemma verified_is_sealed b : verify_branch b = Ok tt <-> exists d, seal_branch d = Ok b.
Proof.
  rewrite verify_branch_ok. setoid_rewrite seal_branch_ok. split.
  - intros (Hv & Hs & Hd). exists (draft_of b). done.
  - by intros (d & Hv & -> & Hs & Hd).
Qed.

(** *** The changes are the keys whose entries differ *)

Definition changed_key {T} (eqb : T -> T -> bool) (base scenario : gmap string T) (key : string) : bool :=
  negb (option_eqb eqb (base !! key) (scenario !! key)).
Definition change_at {T} (to_value : T -> json) (category : string) (base scenario : gmap string T)
    (key : string) : ScenarioSemanticChange :=
  {| ch_category := category; ch_path := "/" +:+ category +:+ "s/" +:+ key;
     ch_base := to_value <$> base !! key; ch_scenario := to_value <$> scenario !! key |}.
Definition changed_keys {T} (eqb : T -> T -> bool) (base scenario : gmap string T) : list string :=
  List.filter (changed_key eqb base scenario) (btree_iter String.le (dom base ∪ dom scenario)).

Lemma diff_maps_keys {T} (eqb : T -> T -> bool) to_value category base scenario cs :
  diff_maps eqb to_value category base scenario cs
  = cs ++ map (change_at to_value category base scenario) (changed_keys eqb base scenario).
Proof.
  unfold diff_maps, changed_keys. generalize (btree_iter String.le (dom base ∪ dom scenario)). intros ks.
  revert cs. induction ks as [|k ks IH]; intros cs; simpl; [by rewrite app_nil_r|].
  rewrite IH. unfold changed_key. destruct (negb _); simpl; [|done]. by rewrite <-app_assoc.
Qed.

Lemma elem_of_changed_keys {T} (eqb : T -> T -> bool) base scenario key :
  key ∈ changed_keys eqb base scenario <-> changed_key eqb base scenario key = true.
Proof.
  unfold changed_keys. rewrite list_elem_of_In, filter_In, <-list_elem_of_In, elem_of_btree_iter.
  split; [by intros [_ ?]|]. intros Hc. split; [|done]. rewrite elem_of_union, !elem_of_dom.
  unfold changed_key in Hc. destruct (base !! key); [eauto|]. destruct (scenario !! key); [eauto | done].
Qed.

Lemma NoDup_changed_keys {T} (eqb : T -> T -> bool) base scenario : NoDup (changed_keys eqb base scenario).
Proof. apply NoDup_ListNoDup, List.NoDup_filter, NoDup_ListNoDup, NoDup_btree_iter. Qed.

(** *** Patching the base with them gives the scenario *)

Lemma apply_changes_app category l k m :
  apply_changes category (l ++ k) m = apply_changes category k (apply_changes category l m).
Proof. unfold apply_changes. by rewrite fold_left_app. Qed.

Lemma apply_change_own {T} (to_value : T -> json) category base scenario key m :
  apply_change category m (change_at to_value category base scenario key)
  = match scenario !! key with Some v => <[key := to_value v]> m | None => delete key m end.
Proof.
  unfold apply_change, change_at. cbn [ch_path ch_category ch_scenario].
  assert (Hp : "/" +:+ category +:+ "s/" +:+ key = ("/" +:+ category +:+ "s/") +:+ key)
    by by rewrite !string_app_assoc.
  rewrite Hp, strip_prefix_app, bool_decide_true by done. by destruct (scenario !! key).
Qed.

Lemma apply_change_other category m c : ch_category c <> category -> apply_change category m c = m.
Proof.
  intros Hc. unfold apply_change. destruct (strip_prefix _ _); [|done]. by rewrite bool_decide_false.
Qed.

Lemma apply_changes_other {T} (to_value : T -> json) category other base scenario ks m :
  other <> category -> apply_changes category (map (change_at to_value other base scenario) ks) m = m.
Proof.
  intros Ho. revert m. induction ks as [|k ks IH]; intros m; [done|]. unfold apply_changes. simpl.
  rewrite apply_change_other by done. apply IH.
Qed.

Lemma apply_changes_own {T} (to_value : T -> json) category base scenario ks m key : NoDup ks ->
  apply_changes category (map (change_at to_value category base scenario) ks) m !! key
  = if bool_decide (key ∈ ks) then to_value <$> scenario !! key else m !! key.
Proof.
  intros Hnd. revert m. induction Hnd as [|k ks Hk _ IH]; intros m; [done|].
  unfold apply_changes in *. simpl. rewrite apply_change_own, IH.
  destruct (decide (key = k)) as [->|Hne].
  - rewrite (bool_decide_false (k ∈ ks)) by done.
    rewrite (bool_decide_true (k ∈ k :: ks)) by apply list_elem_of_here.
    destruct (scenario !! k); [apply lookup_insert_eq | apply lookup_delete_eq].
  - assert (Hks : key ∈ k :: ks <-> key ∈ ks) by (rewrite elem_of_cons; naive_solver).
    destruct (decide (key ∈ ks)) as [Hin|Hin].
    + rewrite (bool_decide_true (key ∈ ks)) by done. by rewrite bool_decide_true by by apply Hks.
    + rewrite (bool_decide_false (key ∈ ks)) by done. rewrite bool_decide_false by by rewrite Hks.
      destruct (scenario !! k); [by rewrite lookup_insert_ne | by rewrite lookup_delete_ne].
Qed.

Lemma patched {T} (eqb : T -> T -> bool) (to_value : T -> json) category base scenario key :
  apply_changes category (map (change_at to_value category base scenario) (changed_keys eqb base scenario))
    (to_value <$> base) !! key
  = to_value <$> (if option_eqb eqb (base !! key) (scenario !! key) then base !! key else scenario !! key).
Proof.
  rewrite apply_changes_own by apply NoDup_changed_keys.
  destruct (option_eqb eqb (base !! key) (scenario !! key)) eqn:He.
  - rewrite bool_decide_false, lookup_fmap; [done|]. rewrite elem_of_changed_keys. unfold changed_key. by rewrite He.
  - rewrite bool_decide_true; [done|]. rewrite elem_of_changed_keys. unfold changed_key. by rewrite He.
Qed.

Lemma change_path_inj {T U} (f : T -> json) (g : U -> json) category m n m' n' k k' :
  ch_path (change_at f category m n k) = ch_path (change_at g category m' n' k') -> k = k'.
Proof. unfold change_at. simpl. intros Hp. by simplify_eq. Qed.

(** *** What a comparison is *)

Record comparable (base scenario : ScenarioBranch) : Prop := {
  cp_base : verify_branch base = Ok tt;
  cp_scenario : verify_branch scenario = Ok tt;
  cp_project : br_base_project_digest base = br_base_project_digest scenario;
  cp_distinct : br_branch_digest base <> br_branch_digest scenario }.

Definition semantic_changes (base scenario : ScenarioBranch) : list ScenarioSemanticChange :=
  map (change_at assumption_json "assumption" (br_assumptions base) (br_assumptions scenario))
    (changed_keys assumption_eqb (br_assumptions base) (br_assumptions scenario))
  ++ map (change_at outcome_json "outcome" (br_outcomes base) (br_outcomes scenario))
    (changed_keys outcome_eqb (br_outcomes base) (br_outcomes scenario)).

Lemma compare_ok base scenario c : compare base scenario = Ok c ->
  comparable base scenario /\ changes c = semantic_changes base scenario
  /\ sc_base_project_digest c = br_base_project_digest base
  /\ sc_base_branch_digest c = br_branch_digest base
  /\ sc_scenario_branch_digest c = br_branch_digest scenario.
Proof.
  unfold compare. rewrite !seq_ok, err_if_ok, orb_false_iff, negb_false_iff, bool_decide_eq_true,
    bool_decide_eq_false. cbv zeta. rewrite !diff_maps_keys, app_nil_l.
  intros (Hb & Hs & [Hp Hd] & [= <-]). done.
Qed.

Lemma compare_total base scenario : comparable base scenario -> exists c, compare base scenario = Ok c.
Proof.
  intros []. unfold compare. rewrite cp_base0, cp_scenario0. cbn [mbind result_bind].
  rewrite bool_decide_true, bool_decide_false by done. cbn [negb orb err_if mbind result_bind]. by eexists.
Qed.

Lemma merge_ok base scenario a m : merge base scenario a = Ok m ->
  exists c, compare base scenario = Ok c /\ approval_stale a c scenario = false
    /\ mc_base_project_digest m = br_base_project_digest base
    /\ mc_scenario_branch_digest m = br_branch_digest scenario /\ mc_diff_digest m = diff_digest c
    /\ mc_reviewer m = ap_reviewer a /\ mc_approved_at m = ap_approved_at a.
Proof.
  unfold merge. rewrite bind_ok. intros (c & Hc & Hm). revert Hm. rewrite seq_ok, err_if_ok.
  intros [Hs [= <-]]. exists c. done.
Qed.

Lemma merge_total base scenario a c :
  compare base scenario = Ok c -> approval_stale a c scenario = false -> exists m, merge base scenario a = Ok m.
Proof.
  intros Hc Hs. unfold merge. rewrite Hc. cbn [mbind result_bind]. rewrite Hs. cbn [err_if mbind result_bind].
  by eexists.
Qed.

Lemma approval_fresh a c scenario : approval_stale a c scenario = false <->
  ap_diff_digest a = diff_digest c /\ ap_scenario_branch_digest a = br_branch_digest scenario.
Proof. unfold approval_stale. by rewrite orb_false_iff, !negb_false_iff, !bool_decide_eq_true. Qed.

(** *** The bus adds nothing and loses nothing *)

Lemma output_digest_named op o : run_operation op = Ok o -> is_blank (scenario_digest o) = false.
Proof.
  destruct op as [d|b s|b s a]; simpl; intros Ho; apply bind_ok in Ho as (x & Hx & [= <-]); simpl.
  - apply seal_branch_ok in Hx as (_ & _ & _ & ->). done.
  - unfold compare in Hx. rewrite !seq_ok in Hx. destruct Hx as (_ & _ & _ & [= <-]). done.
  - unfold merge in Hx. rewrite bind_ok in Hx. destruct Hx as (c & _ & Hx).
    rewrite seq_ok in Hx. destruct Hx as [_ [= <-]]. done.
Qed.

(** What the caller of [execute_operation] gets *)
Definition bus_answer (f : Fresh) (w : GeoWorkflow) (op : ScenarioOperation)
    : scenario_run (string * string * ScenarioOutput) :=
  match run_operation op with
  | Ok o => Ok (fresh_command f, trim (stable_digest_unchecked w), o)
  | Err e => Err (Error (Workflow (command_error_text
      (WorkflowExecutionFailed ("workflow executor failed: " +:+ scenario_error_text e)))))
  end.

Lemma execute_operation_answer f w source input op :
  validate sha256_hex w = Done tt -> reads_only w input source ->
  execute_operation f w source input op = bus_answer f w op.
Proof.
  intros Hv Hr. unfold execute_operation, bus_answer.
  rewrite (proj2 (stable_digest_done w _) (conj Hv eq_refl)). cbn [checked_run mbind result_bind]. cbv zeta.
  change (workflow_digest_new (stable_digest_unchecked w)) with (trim (stable_digest_unchecked w)).
  pose proof (run_single f "Scenario operation" w input source (scenario_executor op) Hv Hr) as Hrun.
  cbv zeta in Hrun. unfold scenario_executor at 1 in Hrun.
  destruct (run_operation op) as [o|err] eqn:Ho; cbn [map_err mbind result_bind] in Hrun |- *.
  - cbn [result_digest] in Hrun. rewrite (output_digest_named _ _ Ho) in Hrun.
    destruct Hrun as (r & s & -> & _ & Hd & _). cbn [fst map_err mbind result_bind ok_or].
    rewrite Hd, bool_decide_true by done. done.
  - rewrite Hrun. done.
Qed.

(** The three templates validate and read the source they were given. *)
Lemma branch_runs f source id : named_source source ->
  validate sha256_hex (scenario_branch_template (fresh_uuid f) source id) = Done tt.
Proof.
  intros Hn. apply validated_executable, (template_executable (fresh_uuid f) (fun _ => None)).
  by apply T_scenario_branch.
Qed.
Lemma branch_reads f source id :
  reads_only (scenario_branch_template (fresh_uuid f) source id) "scenario-base" source.
Proof. by eexists. Qed.
Lemma comparison_runs f source : named_source source ->
  validate sha256_hex (scenario_comparison_template (fresh_uuid f) source) = Done tt.
Proof.
  intros Hn. apply validated_executable, (template_executable (fresh_uuid f) (fun _ => None)).
  by apply T_scenario_comparison.
Qed.
Lemma comparison_reads f source :
  reads_only (scenario_comparison_template (fresh_uuid f) source) "scenario-comparison" source.
Proof. by eexists. Qed.
Lemma merge_runs f source digest : named_source source ->
  validate sha256_hex (scenario_merge_template (fresh_uuid f) source digest) = Done tt.
Proof.
  intros Hn. apply validated_executable, (template_executable (fresh_uuid f) (fun _ => None)).
  by apply T_scenario_merge.
Qed.
Lemma merge_reads f source digest :
  reads_only (scenario_merge_template (fresh_uuid f) source digest) "scenario-merge" source.
Proof. by eexists. Qed.

Lemma create_run f d : validate_draft d = Ok tt ->
  create_scenario_branch f d = '(id, wd, output) ← bus_answer f
      (scenario_branch_template (fresh_uuid f) (verified_source "project" (dr_base_project_digest d)) (dr_branch_id d))
      (OpBranch d);
    match output with
    | OutBranch b => Ok {| rb_command_id := id; rb_workflow_digest := wd; rb_branch := b |}
    | _ => Err Panicked
    end.
Proof.
  intros Hv. unfold create_scenario_branch. rewrite Hv. unfold as_fault, map_err. cbv zeta.
  by rewrite (execute_operation_answer f _ _ _ _ (branch_runs f _ _ (eq_refl : named_source (verified_source "project" _))) (branch_reads f _ _)).
Qed.

Lemma compare_run f base scenario : verify_branch base = Ok tt -> verify_branch scenario = Ok tt ->
  compare_scenarios f base scenario = '(id, wd, output) ← bus_answer f
      (scenario_comparison_template (fresh_uuid f) (verified_source "scenario" (br_branch_digest base)))
      (OpCompare base scenario);
    match output with
    | OutComparison c => Ok {| rc_command_id := id; rc_workflow_digest := wd; rc_comparison := c |}
    | _ => Err Panicked
    end.
Proof.
  intros Hb Hs. unfold compare_scenarios. rewrite Hb, Hs. unfold as_fault, map_err. cbv zeta.
  by rewrite (execute_operation_answer f _ _ _ _ (comparison_runs f _ (eq_refl : named_source (verified_source "scenario" _))) (comparison_reads f _)).
Qed.

Lemma merge_run f base scenario a c : compare base scenario = Ok c ->
  is_blank (ap_reviewer a) || is_none (rfc3339_instant (ap_approved_at a)) || approval_stale a c scenario = false ->
  merge_reviewed_scenario f base scenario a = '(id, wd, output) ← bus_answer f
      (scenario_merge_template (fresh_uuid f) (verified_source "scenario-diff" (diff_digest c)) (diff_digest c))
      (OpMerge base scenario a);
    match output with
    | OutMerge m => Ok {| rm_command_id := id; rm_workflow_digest := wd; rm_commit := m |}
    | _ => Err Panicked
    end.
Proof.
  intros Hc Ha. unfold merge_reviewed_scenario. rewrite Hc. unfold as_fault, map_err. cbv zeta.
  unfold mbind at 1, result_bind at 1. rewrite Ha. unfold err_if.
  by rewrite (execute_operation_answer f _ _ _ _ (merge_runs f _ _ (eq_refl : named_source (verified_source "scenario-diff" _))) (merge_reads f _ _)).
Qed.

Lemma create_ok f d b :
  (exists r, create_scenario_branch f d = Ok r /\ rb_branch r = b) <-> seal_branch d = Ok b.
Proof.
  split.
  - intros (r & Hr & <-). destruct (validate_draft d) as [[]|e] eqn:Hv;
      [|by unfold create_scenario_branch in Hr; rewrite Hv in Hr].
    rewrite (create_run f d Hv) in Hr. unfold bus_answer in Hr. simpl in Hr.
    destruct (seal_branch d) as [b'|e]; [|done]. simpl in Hr. by injection Hr as <-.
  - intros Hb. pose proof Hb as Hb'. apply seal_branch_ok in Hb' as [Hv _].
    rewrite (create_run f d Hv). unfold bus_answer. simpl. rewrite Hb. simpl. eauto.
Qed.

Lemma compare_scenarios_ok f base scenario c :
  (exists r, compare_scenarios f base scenario = Ok r /\ rc_comparison r = c)
  <-> compare base scenario = Ok c.
Proof.
  split.
  - intros (r & Hr & <-). destruct (verify_branch base) as [[]|e] eqn:Hb;
      [|by unfold compare_scenarios in Hr; rewrite Hb in Hr].
    destruct (verify_branch scenario) as [[]|e] eqn:Hs;
      [|by unfold compare_scenarios in Hr; rewrite Hb, Hs in Hr].
    rewrite (compare_run f base scenario Hb Hs) in Hr. unfold bus_answer in Hr. simpl in Hr.
    destruct (compare base scenario) as [c'|e]; [|done]. simpl in Hr. by injection Hr as <-.
  - intros Hc. destruct (compare_ok _ _ _ Hc) as [[] _]. rewrite compare_run by done.
    unfold bus_answer. simpl. rewrite Hc. simpl. eauto.
Qed.

(** What the reviewer of a merge must have supplied *)
Record reviewed (base scenario : ScenarioBranch) (c : ScenarioComparison) (a : ScenarioApproval) : Prop := {
  rv_compared : compare base scenario = Ok c;
  rv_reviewer : is_blank (ap_reviewer a) = false;
  rv_instant : is_Some (rfc3339_instant (ap_approved_at a));
  rv_diff : ap_diff_digest a = diff_digest c;
  rv_branch : ap_scenario_branch_digest a = br_branch_digest scenario }.

Lemma reviewed_guard base scenario c a : compare base scenario = Ok c ->
  is_blank (ap_reviewer a) || is_none (rfc3339_instant (ap_approved_at a)) || approval_stale a c scenario = false
  <-> reviewed base scenario c a.
Proof.
  intros Hc. rewrite !orb_false_iff, approval_fresh. split.
  - intros [[Hr Ht] [Hd Hb]]. split; try done. destruct (rfc3339_instant _); [eauto | done].
  - intros [_ Hr [t Ht] Hd Hb]. by rewrite Ht.
Qed.

Lemma merge_reviewed_ok f base scenario a m :
  (exists r, merge_reviewed_scenario f base scenario a = Ok r /\ rm_commit r = m)
  <-> (exists c, reviewed base scenario c a) /\ merge base scenario a = Ok m.
Proof.
  split.
  - intros (r & Hr & <-). destruct (compare base scenario) as [c|e] eqn:Hc;
      [|by unfold merge_reviewed_scenario in Hr; rewrite Hc in Hr].
    destruct (is_blank (ap_reviewer a) || is_none (rfc3339_instant (ap_approved_at a))
              || approval_stale a c scenario) eqn:Hg.
    { unfold merge_reviewed_scenario in Hr. rewrite Hc in Hr. cbn [as_fault map_err mbind result_bind] in Hr.
      by rewrite Hg in Hr. }
    rewrite (merge_run f base scenario a c Hc Hg) in Hr. unfold bus_answer in Hr. simpl in Hr.
    destruct (merge base scenario a) as [m|e]; [|done]. simpl in Hr. injection Hr as <-.
    split; [|done]. exists c. by apply reviewed_guard.
  - intros [[c Hv] Hm]. pose proof (rv_compared _ _ _ _ Hv) as Hc.
    rewrite (merge_run f base scenario a c Hc (proj2 (reviewed_guard base scenario c a Hc) Hv)).
    unfold bus_answer. simpl. rewrite Hm. simpl. eauto.
Qed.
End Theory.

(** ** Properties *)

(** C25: a merge is committed only for two branches that are the seals of admissible
    drafts with one base project and different contents, by a named reviewer at a
    readable instant, and for the comparison whose digest the approval states; the
    commit records that digest, the branch, the reviewer and the instant. *)
Theorem merge_only_reviewed `{F64Display} `{JsonText} `{SvgHost} `{F32Json} `{GeoContractJson} `{CommandText}
    `{CommandErrorText} `{ValueEq} `{Rfc3339} f base scenario a r :
  merge_reviewed_scenario f base scenario a = Ok r ->
  exists d d' c, seal_branch d = Ok base /\ seal_branch d' = Ok scenario
    /\ dr_base_project_digest d = dr_base_project_digest d'
    /\ br_branch_digest base <> br_branch_digest scenario
    /\ compare base scenario = Ok c /\ ap_diff_digest a = diff_digest c
    /\ ap_scenario_branch_digest a = br_branch_digest scenario
    /\ is_blank (ap_reviewer a) = false /\ is_Some (rfc3339_instant (ap_approved_at a))
    /\ mc_diff_digest (rm_commit r) = diff_digest c
    /\ mc_scenario_branch_digest (rm_commit r) = br_branch_digest scenario
    /\ mc_reviewer (rm_commit r) = ap_reviewer a /\ mc_approved_at (rm_commit r) = ap_approved_at a.
Proof.
  intros Hr. destruct (proj1 (merge_reviewed_ok f base scenario a (rm_commit r)) (ex_intro _ r (conj Hr eq_refl)))
    as [[c Hv] (c' & Hc' & _ & _ & Hb & Hd & Hw & Ht)%merge_ok].
  destruct Hv as [Hc ? ? ? ?]. rewrite Hc in Hc'. injection Hc' as <-.
  destruct (compare_ok _ _ _ Hc) as [[Hvb Hvs Hp Hne] _].
  apply verified_is_sealed in Hvb as [d Hsd]. apply verified_is_sealed in Hvs as [d' Hsd'].
  exists d, d', c. split_and!; try done.
  apply seal_branch_ok in Hsd as (_ & <- & _). by apply seal_branch_ok in Hsd' as (_ & <- & _).
Qed.

(** The changes of a comparison, applied to the base's entries as serialized,
    give the scenario's; an entry without a change is one that compares equal; no
    two changes share a path. *)
Theorem diff_patches_base `{F64Display} `{JsonText} `{SvgHost} `{F32Json} `{GeoContractJson} `{CommandText}
    `{CommandErrorText} `{ValueEq} `{Rfc3339} base scenario c :
  compare base scenario = Ok c ->
  NoDup (map ch_path (changes c))
  /\ (forall key, apply_changes "assumption" (changes c) (assumption_json <$> br_assumptions base) !! key
        = assumption_json <$> (if option_eqb assumption_eqb (br_assumptions base !! key) (br_assumptions scenario !! key)
                               then br_assumptions base !! key else br_assumptions scenario !! key))
  /\ (forall key, apply_changes "outcome" (changes c) (outcome_json <$> br_outcomes base) !! key
        = outcome_json <$> (if option_eqb outcome_eqb (br_outcomes base !! key) (br_outcomes scenario !! key)
                            then br_outcomes base !! key else br_outcomes scenario !! key)).
Proof.
  intros (_ & -> & _)%compare_ok. unfold semantic_changes. split_and!.
  - rewrite map_app, !map_map. apply NoDup_app. split_and!.
    + apply NoDup_fmap_2_strong; [|apply NoDup_changed_keys]. intros k k' _ _. apply change_path_inj.
    + intros p (k & -> & _)%list_elem_of_fmap (k' & Hk & _)%list_elem_of_fmap. done.
    + apply NoDup_fmap_2_strong; [|apply NoDup_changed_keys]. intros k k' _ _. apply change_path_inj.
  - intros key. rewrite apply_changes_app, apply_changes_other by done. apply patched.
  - intros key. rewrite apply_changes_app, (apply_changes_other _ "outcome" "assumption") by done. apply patched.
Qed.

(** The bus adds nothing to the three operations: each succeeds with exactly what
    the operation returns, and a merge needs its reviewer as well. *)
Theorem bus_runs_refine_operations `{F64Display} `{JsonText} `{SvgHost} `{F32Json} `{GeoContractJson}
    `{CommandText} `{CommandErrorText} `{ValueEq} `{Rfc3339} f :
  (forall d b, (exists r, create_scenario_branch f d = Ok r /\ rb_branch r = b) <-> seal_branch d = Ok b)
  /\ (forall base scenario c, (exists r, compare_scenarios f base scenario = Ok r /\ rc_comparison r = c)
        <-> compare base scenario = Ok c)
  /\ (forall base scenario a m, (exists r, merge_reviewed_scenario f base scenario a = Ok r /\ rm_commit r = m)
        <-> (exists c, reviewed base scenario c a) /\ merge base scenario a = Ok m).
Proof. split_and!; intros; [apply create_ok | apply compare_scenarios_ok | apply merge_reviewed_ok]. Qed.

(** ** Two branches of one project *)

#[local] Existing Instances demo_display demo_f32 demo_contract demo_command_text.
#[local] Instance scenario_text : JsonText :=
  {| json_scalar := fun v => match v with JString s | JNumber s => s | _ => "null" end; json_key := fun k => k |}.
#[local] Instance scenario_host : SvgHost :=
  {| f64_fixed := fun _ _ => "0";
     number_json := fun x => match x with S754_finite _ m _ => JNumber (show_N (Npos m)) | _ => JNumber "0" end;
     sha256_hex := fun s => s |}.
#[local] Instance demo_error_text : CommandErrorText := fun _ => "failed".
#[local] Instance demo_values : ValueEq := fun a b => String.eqb (canonical_json a) (canonical_json b).
#[local] Instance demo_clock : Rfc3339 := fun t => if is_empty t then None else Some 0%Z.

Definition demo_fresh : Fresh :=
  {| fresh_command := "command"; fresh_command_at := "t"; fresh_uuid := fun id => id;
     fresh_project := "project"; fresh_project_at := "t"; fresh_dispatch_at := "t" |}.
Definition demo_digest : string :=
  "sha256:0000000000000000000000000000000000000000000000000000000000000000".
Definition speed_draft (id speed : string) (reached : list (string * Z)) : ScenarioBranchDraft :=
  {| dr_branch_id := id; dr_base_project_digest := demo_digest; dr_workflow_digest := demo_digest;
     dr_result_digest := demo_digest;
     dr_assumptions := {["walking_speed" := {| as_value := JNumber speed; as_unit := "m/s" |}]};
     dr_outcomes := {["reachable_population" := {| so_unit := "persons";
       by_area := list_to_map (map (fun '(area, n) => (area, f64_of_Z n)) reached) |}]} |}.
Definition unsealed : ScenarioBranch := mkBranch "" "" "" "" "" ∅ ∅ "".
Definition sealed (d : ScenarioBranchDraft) : ScenarioBranch :=
  match seal_branch d with Ok b => b | Err _ => unsealed end.
Definition slow : ScenarioBranch := sealed (speed_draft "base" "1.0" [("23101", 1000%Z)]).
Definition fast : ScenarioBranch := sealed (speed_draft "faster" "1.2" [("23101", 1200%Z)]).
Definition demo_approval : ScenarioApproval :=
  {| ap_reviewer := "reviewer-a"; ap_approved_at := "2026-08-26T11:00:00Z";
     ap_diff_digest := match compare slow fast with Ok c => diff_digest c | Err _ => "" end;
     ap_scenario_branch_digest := br_branch_digest fast |}.

Lemma merge_only_reviewed_witness :
  exists r, merge_reviewed_scenario demo_fresh slow fast demo_approval = Ok r
    /\ mc_reviewer (rm_commit r) = "reviewer-a".
Proof.
  assert (Hok : is_ok (merge_reviewed_scenario demo_fresh slow fast demo_approval) = true) by (vm_compute; reflexivity).
  destruct (merge_reviewed_scenario demo_fresh slow fast demo_approval) as [r|e] eqn:Hr; [|discriminate Hok].
  exists r. split; [reflexivity|].
  destruct (merge_only_reviewed demo_fresh slow fast demo_approval r Hr)
    as (_ & _ & _ & _ & _ & _ & _ & _ & _ & _ & _ & _ & _ & _ & Hw & _).
  exact Hw.
Defined.

Lemma diff_patches_base_witness :
  exists c, compare slow fast = Ok c /\ length (changes c) = 2%nat
    /\ apply_changes "assumption" (changes c) (assumption_json <$> br_assumptions slow) !! "walking_speed"
       = Some (assumption_json {| as_value := JNumber "1.2"; as_unit := "m/s" |}).
Proof.
  assert (Hok : is_ok (compare slow fast) = true) by (vm_compute; reflexivity).
  assert (Hn : (c ← compare slow fast; Ok (length (changes c))) = Ok 2%nat) by (vm_compute; reflexivity).
  destruct (compare slow fast) as [c|e] eqn:Hc; [|discriminate Hok].
  exists c. split; [reflexivity|]. split; [by injection Hn|].
  destruct (diff_patches_base slow fast c Hc) as (_ & Ha & _).
  rewrite Ha. vm_compute. reflexivity.
Defined.
