(* ===== verification/Governed.v ===== *)
(** * Governance operations behind the command bus
    (crates/genegis-analysis/src/governance.rs)

    One [GovernanceState] operation per workflow run. The executor takes the state
    out of its cell and only puts it back when the operation succeeded, so a failed
    run returns no state at all: what the method left behind (Governance) is lost
    with it. serde_json's encodings and the error texts are parameters. *)

From S2P Require Import Prelude RustStd Crs Json GeoContract WorkflowGraph WorkflowAccept EditLayer MapStyle Project WorkflowDigest Templates Governance Command CommandSession CommandRun.

(** ** Data *)

Inductive GovernanceOperation :=
| OpAuthorize (actor_id project_id : string) (action : GovernedAction) (resource_digest occurred_at : string)
| OpApprove (approval_id approver_id occurred_at : string)
| OpPlanRetention (records : list RetentionRecord) (as_of : string)
| OpExportAudit (actor_id exported_at : string).

Inductive GovernanceOperationOutput :=
| Decision (d : GovernanceDecision)
| RetentionPlan (plan : list RetentionDisposition)
| AuditExported (export : AuditExport).

Record GovernanceOperationReceipt := mkOperationReceipt {
  go_command_id : string;
  go_workflow_digest : string;
  go_result_digest : string;
  go_state_digest : string;
  go_state : GovernanceState;
  go_output : GovernanceOperationOutput }.

Definition operation_name (op : GovernanceOperation) : string :=
  match op with
  | OpAuthorize _ _ _ _ _ => "authorize"
  | OpApprove _ _ _ => "approve"
  | OpPlanRetention _ _ => "plan_retention"
  | OpExportAudit _ _ => "export_audit"
  end.

(** [derive(Serialize)] of the state and of an output, [Display] of an error *)
Class GovernanceJson := {
  state_json : GovernanceState -> json;
  outcome_json : GovernanceOperationOutput -> json;
  governance_error_text : GovernanceError -> string }.

(** [AnalysisError::Message] *)
Inductive AnalysisError := Message (text : string).
Abbreviation analysis_run A := (result (fault AnalysisError) A).

Section Governed.
Context `{F64Display} `{JsonText} `{SvgHost} `{F32Json} `{GeoContractJson} `{CommandText}.
Context `{CommandErrorText} `{GovernanceHost} `{GovernanceJson}.

(** The operation of the method, with its output in the shared type *)
Definition perform (op : GovernanceOperation) : st GovernanceState GovernanceError GovernanceOperationOutput :=
  match op with
  | OpAuthorize actor project action resource at' =>
      d ← authorize actor project action resource at'; mret (Decision d)
  | OpApprove id approver at' => d ← approve id approver at'; mret (Decision d)
  | OpPlanRetention records as_of =>
      s ← get; plan ← lift (retention_plan s records as_of); mret (RetentionPlan plan)
  | OpExportAudit actor at' => x ← export_audit actor at'; mret (AuditExported x)
  end.

Definition digest (v : json) : string := digest_bytes (compact_json v).
Definition outcome_digest (s : GovernanceState) (o : GovernanceOperationOutput) : string :=
  digest (JArray [state_json s; outcome_json o]).

Definition governance_executor (state : GovernanceState) (op : GovernanceOperation) : WorkflowExecutor :=
  fun _ cx =>
    match perform op state with
    | (Err e, _) => Err (governance_error_text e)
    | (Ok o, state) =>
        Ok {| result_digest := outcome_digest state o;
              output := JObject [("operation", JString (operation_name op))];
              evidence := outcome_json o;
              events := one_event "organization_governance_applied" (Some "governance://organization-policy")
                (JObject [("command_id", JString (cx_command_id cx)); ("operation", JString (operation_name op));
                          ("workflow_digest", JString (cx_digest cx))]) cx |}
    end.

(** The two cells after the one call of the executor *)
Definition cells (state : GovernanceState) (op : GovernanceOperation)
    : option GovernanceState * option GovernanceOperationOutput :=
  match perform op state with (Ok o, state) => (Some state, Some o) | (Err _, _) => (None, None) end.

Definition execute_governance_operation (f : Fresh) (state : GovernanceState) (op : GovernanceOperation)
    : analysis_run GovernanceOperationReceipt :=
  let source := verified_snapshot "governance://organization-policy" (digest (state_json state)) in
  let workflow := organization_governance_template (fresh_uuid f) source (operation_name op) in
  d ← checked_run (fun e => Message (workflow_error_text e)) (stable_digest workflow);
  let workflow_digest := workflow_digest_new d in
  observed ← observed_digest Message f "Organization governance" workflow
    (run_envelope f workflow_digest workflow "organization-governance" source)
    (governance_executor state op);
  state' ← ok_or (cells state op).1 (Error (Message "governance executor returned no state"));
  output ← ok_or (cells state op).2 (Error (Message "governance executor returned no output"));
  let result_digest := outcome_digest state' output in
  err_if (negb (bool_decide (observed = Some result_digest)))
    (Error (Message "CommandBus and governance result digests differ"));;
  Ok {| go_command_id := fresh_command f; go_workflow_digest := workflow_digest;
        go_result_digest := result_digest; go_state_digest := digest (state_json state');
        go_state := state'; go_output := output |}.

(** ** The run is the method *)

Lemma governance_runs f source name : named_source source ->
  validate sha256_hex (organization_governance_template (fresh_uuid f) source name) = Done tt.
Proof.
  intros Hn. apply validated_executable, (template_executable (fresh_uuid f) (fun _ => None)).
  by apply T_organization_governance.
Qed.
Lemma governance_reads f source name :
  reads_only (organization_governance_template (fresh_uuid f) source name) "organization-governance" source.
Proof. by eexists. Qed.

(** The receipt of a transition to [s'] with output [o] *)
Definition receipt_for (f : Fresh) (s : GovernanceState) (op : GovernanceOperation)
    (s' : GovernanceState) (o : GovernanceOperationOutput) : GovernanceOperationReceipt :=
  let source := verified_snapshot "governance://organization-policy" (digest (state_json s)) in
  {| go_command_id := fresh_command f;
     go_workflow_digest := trim (stable_digest_unchecked
       (organization_governance_template (fresh_uuid f) source (operation_name op)));
     go_result_digest := outcome_digest s' o; go_state_digest := digest (state_json s');
     go_state := s'; go_output := o |}.

Lemma governed_run f s op : execute_governance_operation f s op =
  match perform op s with
  | (Ok o, s') => Ok (receipt_for f s op s' o)
  | (Err e, _) => Err (Error (Message (executor_failure (governance_error_text e))))
  end.
Proof.
  unfold execute_governance_operation. set (source := verified_snapshot _ _).
  pose proof (governance_runs f source (operation_name op) eq_refl) as Hv.
  pose proof (governance_reads f source (operation_name op)) as Hr.
  unfold receipt_for. fold source. generalize dependent (organization_governance_template (fresh_uuid f) source (operation_name op)).
  intros w Hv Hr. cbv zeta. rewrite (proj2 (stable_digest_done w _) (conj Hv eq_refl)).
  unfold checked_run, mbind at 1, result_bind at 1, workflow_digest_new, cells.
  rewrite (observed_run Message f _ w _ source (governance_executor s op)
    match perform op s with (Ok o, s') => Ok (outcome_digest s' o) | (Err e, _) => Err (governance_error_text e) end Hv Hr).
  - destruct (perform op s) as [[o|e] s']; [|done].
    assert (Hb : is_blank (outcome_digest s' o) = false) by done. rewrite Hb. unfold mbind, result_bind, ok_or.
    cbn [fst snd]. rewrite bool_decide_true by done. done.
  - intros cx. unfold governance_executor. by destruct (perform op s) as [[o|e] s'].
Qed.

(** ** One audit event per decision *)

Abbreviation gov A := (st GovernanceState GovernanceError A).
Definition keeps_log {A} (m : gov A) : Prop :=
  forall s a s', m s = (Ok a, s') -> audit_events s' = audit_events s.
Definition appends {A} (m : gov A) : Prop :=
  forall s a s', m s = (Ok a, s') -> exists e, audit_events s' = audit_events s ++ [e].

Lemma keeps_log_lift {A} (r : result GovernanceError A) : keeps_log (lift r).
Proof. by intros s a s' [_ ->]%lift_ok. Qed.
Lemma keeps_log_get : keeps_log get.
Proof. by intros s a s' [-> ->]%get_ok. Qed.
Lemma keeps_log_ret {A} (a : A) : keeps_log (mret a).
Proof. by intros s b s' [= _ <-]. Qed.
Lemma keeps_log_approvals f : keeps_log (modify (fun s => with_approvals (f s) s)).
Proof. by intros s a s' [= _ <-]. Qed.
Lemma appends_event actor project type subject at' : appends (append_event actor project type subject at').
Proof. intros s e s' (-> & _)%append_event_cases. by exists e. Qed.

Lemma keeps_log_bind {A B} (m : gov A) (k : A -> gov B) :
  keeps_log m -> (forall a, keeps_log (k a)) -> keeps_log (m ≫= k).
Proof. intros Hm Hk s b s' (a & s1 & Hx%Hm & Hy%Hk)%st_bind_ok. congruence. Qed.
Lemma appends_after {A B} (m : gov A) (k : A -> gov B) :
  keeps_log m -> (forall a, appends (k a)) -> appends (m ≫= k).
Proof.
  intros Hm Hk s b s' (a & s1 & Hx%Hm & Hy)%st_bind_ok. destruct (Hk _ _ _ _ Hy) as [e He].
  exists e. congruence.
Qed.
Lemma appends_before {A B} (m : gov A) (k : A -> gov B) :
  appends m -> (forall a, keeps_log (k a)) -> appends (m ≫= k).
Proof. intros Hm Hk s b s' (a & s1 & [e He]%Hm & Hy%Hk)%st_bind_ok. exists e. congruence. Qed.

Create HintDb governed discriminated.
#[local] Hint Resolve keeps_log_lift keeps_log_get keeps_log_ret keeps_log_approvals appends_event : governed.
(** Walks a body up to the event it appends, then on to its end. *)
Ltac one_event := repeat first
  [ solve [auto with governed] | apply appends_before; [solve [auto with governed]|intros ?; cbv zeta]
  | apply appends_after; [solve [auto with governed]|intros ?; cbv zeta]
  | apply keeps_log_bind; [solve [auto with governed]|intros ?; cbv zeta] ].

Lemma authorize_appends actor project action resource at' : appends (authorize actor project action resource at').
Proof.
  unfold authorize. do 5 (apply appends_after; [auto with governed | intros ?]). cbv zeta.
  destruct (default 0 _ =? 0)%N; one_event.
Qed.
Lemma approve_appends id approver at' : appends (approve id approver at').
Proof. unfold approve. one_event. Qed.
Lemma export_appends actor at' : appends (export_audit actor at').
Proof. unfold export_audit. one_event. Qed.

(** What a successful operation does to the log *)
Definition log_effect (op : GovernanceOperation) (s s' : GovernanceState) : Prop :=
  match op with
  | OpPlanRetention _ _ => s' = s
  | _ => exists e, audit_events s' = audit_events s ++ [e]
  end.

Lemma perform_log op s o s' : perform op s = (Ok o, s') -> log_effect op s s'.
Proof.
  destruct op; cbn [perform log_effect].
  - apply (appends_before _ _ (authorize_appends _ _ _ _ _)). intros ?. apply keeps_log_ret.
  - apply (appends_before _ _ (approve_appends _ _ _)). intros ?. apply keeps_log_ret.
  - intros (s1 & s2 & [-> ->]%get_ok & Hx)%st_bind_ok. apply st_bind_ok in Hx as (p & s3 & [_ ->]%lift_ok & [= _ <-]).
    done.
  - apply (appends_before _ _ (export_appends _ _)). intros ?. apply keeps_log_ret.
Qed.

Lemma bind_ret_state {A B} (m : gov A) (g : A -> B) s : ((a ← m; mret (g a)) s).2 = (m s).2.
Proof. unfold mbind, st_bind. by destruct (m s) as [[]]. Qed.

Lemma perform_reachable s0 s op : Governance.reachable s0 s -> Governance.reachable s0 (perform op s).2.
Proof.
  intros Hs. destruct op; cbn [perform]; rewrite ?bind_ret_state;
    try (by eapply reach_step; [exact Hs | constructor]).
  assert (He : (((s ← get; plan ← lift (retention_plan s records as_of); mret (RetentionPlan plan)) : gov _) s).2 = s).
  { unfold mbind, st_bind, get, lift. by destruct (retention_plan s records as_of). }
  by rewrite He.
Qed.

Lemma governed_step f s op r : execute_governance_operation f s op = Ok r ->
  exists o s', perform op s = (Ok o, s') /\ r = receipt_for f s op s' o.
Proof.
  rewrite governed_run. destruct (perform op s) as [[o|e] s']; [|done]. intros [= <-]. eauto.
Qed.

End Governed.

(** ** Properties *)

(** C21: in every state an organization can reach, a governed run succeeds exactly
    when the operation does and hands back its state and output; that state is one
    the organization can reach directly, so its audit chain verifies and its
    members, projects and requests are sound, and its log is the old one with one
    more event (with none, and nothing else changed, for a retention plan). *)
Theorem governed_runs_stay_governed `{F64Display} `{JsonText} `{SvgHost} `{F32Json} `{GeoContractJson}
    `{CommandText} `{CommandErrorText} `{GovernanceHost} `{GovernanceJson} p s0 s f op :
  governance_new p = Ok s0 -> Governance.reachable s0 s ->
  is_ok (execute_governance_operation f s op) = is_ok (perform op s).1
  /\ forall r, execute_governance_operation f s op = Ok r ->
       perform op s = (Ok (go_output r), go_state r)
       /\ Governance.reachable s0 (go_state r) /\ governance_wf (go_state r)
       /\ policy (go_state r) = p /\ log_effect op s (go_state r)
       /\ go_result_digest r = outcome_digest (go_state r) (go_output r).
Proof.
  intros Hn Hs. split.
  - rewrite governed_run. by destruct (perform op s) as [[o|e] s'].
  - intros r (o & s' & Ho & ->)%governed_step. cbn.
    pose proof (perform_reachable s0 s op Hs) as Hr. rewrite Ho in Hr.
    destruct (reachable_grows _ _ Hr) as (Hw & Hp & _). destruct (governance_new_wf _ _ Hn) as (W & Hp0 & _).
    split_and!; [done | exact Hr | by apply Hw | cbn in Hp; congruence | by eapply perform_log | done].
Qed.

(** ** The organization of Governance, governed *)

#[local] Existing Instances demo_display demo_text demo_host demo_f32 demo_contract demo_command_text sample_host.
#[local] Instance governed_error_text : CommandErrorText := fun _ => "failed".
#[local] Instance governed_json : GovernanceJson :=
  {| state_json := fun s => JString (show_N (N.of_nat (length (audit_events s))));
     outcome_json := fun _ => JNull; governance_error_text := fun _ => "denied" |}.
Definition governed_fresh : Fresh :=
  {| fresh_command := "command"; fresh_command_at := "t"; fresh_uuid := fun id => id;
     fresh_project := "project"; fresh_project_at := "t"; fresh_dispatch_at := "t" |}.
Definition governed_approval := OpApprove sample_request_id "bob" sample_now.

(** The second pair of eyes: bob's approval runs governed, with one more event. *)
Lemma governed_runs_stay_governed_witness :
  exists r e, execute_governance_operation governed_fresh sample_requested.2 governed_approval = Ok r
    /\ audit_events (go_state r) = audit_events sample_requested.2 ++ [e]
    /\ verify_audit_chain (audit_events (go_state r)) = Ok tt.
Proof.
  destruct (governed_runs_stay_governed sample_policy _ _ governed_fresh governed_approval
    sample_new sample_reachable) as [Hp Hr].
  assert (Ho : is_ok (perform governed_approval sample_requested.2).1 = true) by (vm_compute; reflexivity).
  rewrite Ho in Hp.
  destruct (execute_governance_operation governed_fresh sample_requested.2 governed_approval) as [r|x]; [|discriminate Hp].
  destruct (Hr r eq_refl) as (_ & _ & W & _ & [e He] & _). exists r, e.
  split; [reflexivity|]. split; [exact He | exact (wf_chain _ W)].
Defined.
