(* ===== verification/Plugins.v ===== *)
(** * Plugins (crates/genegis-plugin-api and genegis-plugin-host)

    Manifests and their validation, the host's capability policy, the signed
    registry with its revocations, bundle admission, and the registry operations and
    solution packs that run behind the command bus. Ed25519, base64, RFC 3339,
    SHA-256 and the file system are parameters; the text of a signed value is written
    out, since what a signature covers matters. *)

From S2P Require Import Prelude RustStd Crs Json GeoContract WorkflowGraph WorkflowAccept EditLayer MapStyle Project WorkflowDigest Templates Composer Command CommandSession CommandRun.
From Stdlib Require Import Ascii.
Local Open Scope N_scope.

(** ** genegis-plugin-api *)

Inductive PluginCapability :=
| ReadCatalog | ReadStorage | AnalysisStep | RenderHook | ExportArtifact | PublishStac.
#[export] Instance PluginCapability_eq_dec : EqDecision PluginCapability.
Proof. solve_decision. Defined.
#[export] Instance PluginCapability_countable : Countable PluginCapability.
Proof.
  refine (inj_countable'
    (fun c => match c with ReadCatalog => 0 | ReadStorage => 1 | AnalysisStep => 2 | RenderHook => 3
      | ExportArtifact => 4 | PublishStac => 5 end)
    (fun n => match n with 0 => ReadCatalog | 1 => ReadStorage | 2 => AnalysisStep | 3 => RenderHook
      | 4 => ExportArtifact | _ => PublishStac end) _).
  by intros [].
Defined.

Definition capability_text (c : PluginCapability) : string :=
  match c with
  | ReadCatalog => "read_catalog" | ReadStorage => "read_storage" | AnalysisStep => "analysis_step"
  | RenderHook => "render_hook" | ExportArtifact => "export_artifact" | PublishStac => "publish_stac"
  end.
Definition all_capabilities : list PluginCapability :=
  [ReadCatalog; ReadStorage; AnalysisStep; RenderHook; ExportArtifact; PublishStac].

Record WasmModuleSpec := mkWasm { entry : string }.
Record PluginManifest := mkManifest {
  pm_id : string;
  pm_name : string;
  pm_version : string;
  pm_api_version : string;
  pm_description : string;
  pm_author : string;
  pm_capabilities : list PluginCapability;
  artifact_digest : string;
  pm_wasm : option WasmModuleSpec }.

Inductive PluginApiError :=
| BadJson (reason : string)
| InvalidManifest (reason : string)
| UnsupportedApiVersion (manifest host : string)
| CapabilityNotGranted (capability : string)
| CapabilityDenied (capability : string).
Abbreviation api A := (result PluginApiError A).

Definition PLUGIN_API_VERSION : string := "1.0.0".

(** [str::parse::<u64>] of the first part *)
Definition api_major (version : string) : option N :=
  match split "."%char version with part :: _ => parse_N u64_max part | [] => None end.
Definition compatible_major (manifest host : string) : bool :=
  match api_major manifest, api_major host with
  | Some l, Some r => (0 <? l) && (l =? r)
  | _, _ => false
  end.
Definition is_api_compatible (version : string) : bool := compatible_major version PLUGIN_API_VERSION.

Definition display_name (m : PluginManifest) : string := if is_empty (pm_name m) then pm_id m else pm_name m.
Definition has_capability (m : PluginManifest) (c : PluginCapability) : bool := bool_decide (c ∈ pm_capabilities m).

Definition validate_id (id : string) : api unit :=
  err_if (is_empty id) (InvalidManifest "id must not be empty");;
  err_if (negb (string_forall (fun ch => is_ascii_lowercase ch || is_ascii_digit ch || bool_decide (ch = "-"%char)) id))
    (InvalidManifest "id must use lowercase ASCII letters, digits, and hyphens").

Definition semver_part (part : string) : bool := negb (is_empty part) && string_forall is_ascii_digit part.
Definition validate_semver `{DebugText} (value field : string) : api unit :=
  let wrong := InvalidManifest (field +:+ " must be semver major.minor.patch, got " +:+ debug_text value) in
  err_if (negb (N.of_nat (length (split "."%char value)) =? 3)) wrong;;
  for_each (fun part => err_if (negb (semver_part part)) wrong) (split "."%char value).

(** [Path::components] of a Unix path: repeated separators and inner [.] vanish. *)
Inductive Component := RootDir | CurDir | ParentDir | Normal (name : string).
Definition path_part (part : string) : option Component :=
  if is_empty part || bool_decide (part = ".") then None
  else if bool_decide (part = "..") then Some ParentDir else Some (Normal part).
Definition components (path : string) : list Component :=
  let parts := split "/"%char path in
  (if starts_with "/" path then [RootDir]
   else match parts with first :: _ => if bool_decide (first = ".") then [CurDir] else [] | [] => [] end)
  ++ omap path_part parts.
Definition is_normal (c : Component) : bool := match c with Normal _ => true | _ => false end.

Definition validate_wasm (w : WasmModuleSpec) : api unit :=
  err_if (is_blank (entry w) || starts_with "/" (entry w)
          || existsb (fun c => negb (is_normal c)) (components (entry w)))
    (InvalidManifest "wasm.entry must be a normalized relative bundle path");;
  err_if (negb (ends_with ".wasm" (entry w))) (InvalidManifest "wasm.entry must end with .wasm").

(** [PluginManifest::validate] *)
Definition validate_manifest_fields `{DebugText} (m : PluginManifest) : api unit :=
  validate_id (pm_id m);;
  validate_semver (pm_version m) "version";;
  validate_semver (pm_api_version m) "api_version";;
  err_if (bool_decide (pm_capabilities m = [])
          || negb (size (list_to_set (pm_capabilities m) : gset PluginCapability) =? length (pm_capabilities m))%nat)
    (InvalidManifest "capabilities must be non-empty and unique");;
  err_if (negb (sha256_identity (artifact_digest m)))
    (InvalidManifest "artifact_digest must be sha256:<64 lowercase or uppercase hex characters>");;
  err_if (negb (is_api_compatible (pm_api_version m)))
    (UnsupportedApiVersion (pm_api_version m) PLUGIN_API_VERSION);;
  match pm_wasm m with Some w => validate_wasm w | None => Ok tt end.

(** *** The host's allow-list *)

Record CapabilityPolicy := mkCapabilityPolicy { allow : list PluginCapability }.
Definition permissive : CapabilityPolicy := {| allow := all_capabilities |}.
Definition read_only : CapabilityPolicy := {| allow := [ReadCatalog; ReadStorage] |}.
Definition allows (p : CapabilityPolicy) (c : PluginCapability) : bool := bool_decide (c ∈ allow p).
Definition effective_capabilities (p : CapabilityPolicy) (m : PluginManifest) : list PluginCapability :=
  List.filter (allows p) (pm_capabilities m).
(** [CapabilityPolicy::validate_manifest] *)
Definition policy_admits (p : CapabilityPolicy) (m : PluginManifest) : api unit :=
  for_each (fun c => err_if (negb (allows p c)) (CapabilityDenied (capability_text c))) (pm_capabilities m).
Definition require_capability (p : CapabilityPolicy) (m : PluginManifest) (c : PluginCapability) : api unit :=
  err_if (negb (has_capability m c)) (CapabilityNotGranted (capability_text c));;
  err_if (negb (allows p c)) (CapabilityDenied (capability_text c)).

(** ** genegis-plugin-host *)

Inductive PluginHostError :=
| Manifest (e : PluginApiError)
| Bundle (reason : string)
| Wasm (reason : string)
| NotFound (id : string).
Abbreviation hosted A := (result PluginHostError A).

(** *** Bundles: a directory with the text of its manifest and its files *)

Record PluginEntry := mkPluginEntry {
  bundle_dir : string; pe_manifest : PluginManifest; pe_capabilities : list PluginCapability }.

Definition discover_bundle `{DebugText} (dir : string) (read : api PluginManifest) (p : CapabilityPolicy)
    : hosted PluginEntry :=
  manifest ← map_err Manifest read;
  map_err Manifest (validate_manifest_fields manifest);;
  map_err Manifest (policy_admits p manifest);;
  Ok {| bundle_dir := dir; pe_manifest := manifest; pe_capabilities := effective_capabilities p manifest |}.

(** The files below a root, in directory order; those without a manifest are passed
    over, the first bad one stops the scan; sorted by id, stably. *)
Definition id_le (a b : PluginEntry) : Prop := String.le (pm_id (pe_manifest a)) (pm_id (pe_manifest b)).
#[export] Instance id_le_dec : RelDecision id_le.
Proof. intros a b. unfold id_le. apply _. Defined.
Definition discover_plugins `{DebugText} (children : list (string * option (api PluginManifest)))
    (p : CapabilityPolicy) : hosted (list PluginEntry) :=
  entries ← try_fold (fun entries '(dir, read) =>
      match read with
      | None => Ok entries
      | Some read => e ← discover_bundle dir read p; Ok (entries ++ [e])
      end) [] children;
  Ok (merge_sort id_le entries).
Definition find_plugin (entries : list PluginEntry) (id : string) : hosted PluginEntry :=
  ok_or (List.find (fun e => bool_decide (pm_id (pe_manifest e) = id)) entries) (NotFound id).

(** *** Signed releases *)

Record PluginReleaseSignature := mkSignature { key_id : string; algorithm : string; signature_base64 : string }.
Record PluginRegistryPolicy := mkRegistryPolicy { rp_schema_version : string; trusted_signers : gmap string string }.
Record PluginRevocation := mkRevocation {
  rv_plugin_id : string; rv_version : string; rv_reason : string; revoked_at : string;
  rv_signature : PluginReleaseSignature; rv_digest : string }.
Record PluginRegistryEntry := mkRegistryEntry {
  re_manifest : PluginManifest; manifest_digest : string; re_signature : PluginReleaseSignature;
  published_at : string; revocation : option PluginRevocation }.
Record PluginRegistry := mkRegistry {
  pr_schema_version : string; pr_policy : PluginRegistryPolicy; entries : gmap string PluginRegistryEntry }.

(** base64 (STANDARD), [VerifyingKey::from_bytes], [Signature::from_slice],
    [VerifyingKey::verify], [SigningKey::sign] *)
Class Ed25519 := {
  base64_decode : string -> option string;
  base64_encode : string -> string;
  key_bytes_valid : string -> bool;
  signature_bytes_valid : string -> bool;
  signature_verifies : string -> string -> string -> bool;
  sign_bytes : string -> string -> string }.

Section Registry.
Context `{F64Display} `{JsonText} `{SvgHost} `{DebugText} `{Ed25519} `{Rfc3339}.

Definition wasm_json (w : WasmModuleSpec) : json := JObject [("entry", JString (entry w))].
Definition manifest_json (m : PluginManifest) : json :=
  JObject ([("id", JString (pm_id m)); ("name", JString (pm_name m)); ("version", JString (pm_version m));
            ("api_version", JString (pm_api_version m)); ("description", JString (pm_description m));
            ("author", JString (pm_author m));
            ("capabilities", JArray (map (fun c => JString (capability_text c)) (pm_capabilities m)));
            ("artifact_digest", JString (artifact_digest m))] ++ optional "wasm" wasm_json (pm_wasm m)).
Definition signature_json (s : PluginReleaseSignature) : json :=
  JObject [("key_id", JString (key_id s)); ("algorithm", JString (algorithm s));
           ("signature_base64", JString (signature_base64 s))].
Definition revocation_json (r : PluginRevocation) : json :=
  JObject [("plugin_id", JString (rv_plugin_id r)); ("version", JString (rv_version r));
           ("reason", JString (rv_reason r)); ("revoked_at", JString (revoked_at r));
           ("signature", signature_json (rv_signature r)); ("revocation_digest", JString (rv_digest r))].
Definition entry_json (e : PluginRegistryEntry) : json :=
  JObject [("manifest", manifest_json (re_manifest e)); ("manifest_digest", JString (manifest_digest e));
           ("signature", signature_json (re_signature e)); ("published_at", JString (published_at e));
           ("revocation", from_option revocation_json JNull (revocation e))].
Definition strings_json {T} (f : T -> json) (m : gmap string T) : json :=
  JObject (map (fun k => (k, from_option f JNull (m !! k))) (btree_keys String.le m)).
Definition registry_json (r : PluginRegistry) : json :=
  JObject [("schema_version", JString (pr_schema_version r));
           ("policy", JObject [("schema_version", JString (rp_schema_version (pr_policy r)));
                               ("trusted_signers", strings_json JString (trusted_signers (pr_policy r)))]);
           ("entries", strings_json entry_json (entries r))].

Definition canonical (v : json) : string := compact_json v.
Definition digest (v : json) : string := digest_bytes (canonical v).

Definition decode_key (value : string) : hosted string :=
  bytes ← ok_or (base64_decode value) (Bundle "invalid trusted signer base64");
  err_if (negb (str_len bytes =? 32)) (Bundle "trusted signer must be 32 bytes");;
  err_if (negb (key_bytes_valid bytes)) (Bundle "invalid trusted signer key");;
  Ok bytes.

Definition verify_signed_bytes (p : PluginRegistryPolicy) (s : PluginReleaseSignature) (payload : string)
    : hosted unit :=
  err_if (negb (bool_decide (algorithm s = "ed25519"))) (Bundle "unsupported plugin signature algorithm");;
  public ← ok_or (trusted_signers p !! key_id s) (Bundle "plugin signer is not trusted");
  key ← decode_key public;
  bytes ← ok_or (base64_decode (signature_base64 s)) (Bundle "invalid plugin signature base64");
  err_if (negb (signature_bytes_valid bytes)) (Bundle "invalid plugin signature bytes");;
  err_if (negb (signature_verifies key payload bytes)) (Bundle "plugin signature did not verify").

Definition parse_time (value : string) : hosted unit :=
  _ ← ok_or (rfc3339_instant value) (Bundle "timestamp must be RFC 3339"); Ok tt.
Definition release_key (plugin_id version : string) : string := plugin_id +:+ "@" +:+ version.
Definition revocation_payload (plugin_id version reason at' : string) : string :=
  canonical (JArray [JString plugin_id; JString version; JString reason; JString at']).
Definition clear_revocation_digest (r : PluginRevocation) : PluginRevocation :=
  mkRevocation (rv_plugin_id r) (rv_version r) (rv_reason r) (revoked_at r) (rv_signature r) "".
Definition revocation_digest (r : PluginRevocation) : string := digest (revocation_json (clear_revocation_digest r)).

(** [PluginRegistry::new]; a method that fails has not written yet, so the methods
    with [&mut self] return the registry they leave on success. *)
Definition registry_new (p : PluginRegistryPolicy) : hosted PluginRegistry :=
  err_if (negb (bool_decide (rp_schema_version p = "1.0.0")) || bool_decide (trusted_signers p = ∅)
          || existsb (fun '(id, key) => is_blank id || negb (is_ok (decode_key key))) (map_to_list (trusted_signers p)))
    (Bundle "plugin registry policy is invalid");;
  Ok {| pr_schema_version := "1.0.0"; pr_policy := p; entries := ∅ |}.

Definition with_entries (es : gmap string PluginRegistryEntry) (r : PluginRegistry) : PluginRegistry :=
  {| pr_schema_version := pr_schema_version r; pr_policy := pr_policy r; entries := es |}.

Definition publish (r : PluginRegistry) (m : PluginManifest) (s : PluginReleaseSignature) (at' : string)
    : hosted PluginRegistry :=
  map_err Manifest (validate_manifest_fields m);;
  parse_time at';;
  verify_signed_bytes (pr_policy r) s (canonical (manifest_json m));;
  let key := release_key (pm_id m) (pm_version m) in
  err_if (bool_decide (is_Some (entries r !! key))) (Bundle "plugin release already exists and is immutable");;
  Ok (with_entries (<[key := {| re_manifest := m; manifest_digest := digest (manifest_json m); re_signature := s;
                                published_at := at'; revocation := None |}]> (entries r)) r).

Definition with_revocation (v : PluginRevocation) (e : PluginRegistryEntry) : PluginRegistryEntry :=
  mkRegistryEntry (re_manifest e) (manifest_digest e) (re_signature e) (published_at e) (Some v).
Definition revoke (r : PluginRegistry) (v : PluginRevocation) : hosted PluginRegistry :=
  parse_time (revoked_at v);;
  err_if (is_blank (rv_reason v) || negb (bool_decide (rv_digest v = revocation_digest v)))
    (Bundle "plugin revocation is invalid");;
  verify_signed_bytes (pr_policy r) (rv_signature v)
    (revocation_payload (rv_plugin_id v) (rv_version v) (rv_reason v) (revoked_at v));;
  let key := release_key (rv_plugin_id v) (rv_version v) in
  e ← ok_or (entries r !! key) (NotFound key);
  err_if (bool_decide (is_Some (revocation e))) (Bundle "plugin release is already revoked");;
  Ok (with_entries (<[key := with_revocation v e]> (entries r)) r).

Definition resolve (r : PluginRegistry) (plugin_id version : string) : hosted PluginRegistryEntry :=
  let key := release_key plugin_id version in
  e ← ok_or (entries r !! key) (NotFound key);
  err_if (bool_decide (is_Some (revocation e))) (Bundle "plugin release has been revoked");;
  err_if (negb (bool_decide (digest (manifest_json (re_manifest e)) = manifest_digest e)))
    (Bundle "plugin manifest digest mismatch");;
  verify_signed_bytes (pr_policy r) (re_signature e) (canonical (manifest_json (re_manifest e)));;
  Ok e.

Definition verify_artifact (r : PluginRegistry) (plugin_id version bytes : string) : hosted unit :=
  e ← resolve r plugin_id version;
  err_if (negb (bool_decide (digest_bytes bytes = artifact_digest (re_manifest e))))
    (Bundle "plugin artifact digest mismatch").

(** *** Signing *)

Definition sign (payload key signing_key : string) : hosted PluginReleaseSignature :=
  err_if (is_blank key) (Bundle "signer key ID is required");;
  Ok {| key_id := key; algorithm := "ed25519"; signature_base64 := base64_encode (sign_bytes signing_key payload) |}.
Definition sign_plugin_release (m : PluginManifest) (key signing_key : string) : hosted PluginReleaseSignature :=
  map_err Manifest (validate_manifest_fields m);;
  sign (canonical (manifest_json m)) key signing_key.
Definition sign_plugin_revocation (plugin_id version reason at' key signing_key : string)
    : hosted PluginRevocation :=
  err_if (is_blank plugin_id || is_blank version || is_blank reason)
    (Bundle "revocation identity and reason are required");;
  parse_time at';;
  signature ← sign (revocation_payload plugin_id version reason at') key signing_key;
  let v := {| rv_plugin_id := plugin_id; rv_version := version; rv_reason := reason; revoked_at := at';
              rv_signature := signature; rv_digest := "" |} in
  Ok (mkRevocation plugin_id version reason at' signature (revocation_digest v)).

(** [PluginHost::load_bundle] up to the compilation of the module *)
Definition load_bundle (found : hosted PluginEntry) (read_wasm : string -> result string string)
    : hosted (PluginEntry * string) :=
  e ← found;
  spec ← ok_or (pm_wasm (pe_manifest e))
    (Bundle ("plugin " +:+ pm_id (pe_manifest e) +:+ " does not declare a wasm entry"));
  let path := bundle_dir e +:+ "/" +:+ entry spec in
  bytes ← map_err (fun err => Bundle ("failed to read wasm module " +:+ path +:+ ": " +:+ err)) (read_wasm path);
  err_if (negb (bool_decide (digest_bytes bytes = artifact_digest (pe_manifest e))))
    (Bundle ("plugin " +:+ pm_id (pe_manifest e) +:+ " artifact digest mismatch"));;
  Ok (e, bytes).
End Registry.

(** ** Registry operations behind the command bus (workflow.rs) *)

Inductive PluginRegistryOperation :=
| Publish (manifest : PluginManifest) (signature : PluginReleaseSignature) (published_at : string)
| Revoke (revocation : PluginRevocation).
Definition registry_operation_name (op : PluginRegistryOperation) : string :=
  match op with Publish _ _ _ => "publish" | Revoke _ => "revoke" end.

Record PluginRegistryOperationReceipt := mkRegistryReceipt {
  ro_command_id : string; ro_workflow_digest : string; registry_digest : string; ro_registry : PluginRegistry }.

(** [Display] of a [PluginHostError] *)
Class HostErrorText := host_error_text : PluginHostError -> string.

(** ** Solution packs (solution_pack.rs) *)

Inductive SolutionDomain := Urban | Environment | Disaster | Mobility | Infrastructure.
Record SolutionPluginRequirement := mkRequirement {
  sr_plugin_id : string; sr_version : string; sr_capabilities : list PluginCapability }.
Record SolutionPackDraft := mkPackDraft {
  sp_schema_version : string; sp_id : string; sp_version : string; sp_domain : SolutionDomain;
  sp_title : string; sp_license : string; sp_template_ids : list string;
  sp_plugin_requirements : list SolutionPluginRequirement; open_state_formats : gset string }.
Record SolutionPackManifest := mkPack { pack_draft : SolutionPackDraft; pack_digest : string }.
Record SolutionPackAdmissionReceipt := mkPackReceipt {
  ra_command_id : string; ra_workflow_digest : string; ra_pack : SolutionPackManifest }.

Section Packs.
Context `{F64Display} `{JsonText} `{SvgHost} `{F32Json} `{GeoContractJson} `{CommandText} `{CommandErrorText}.
Context `{DebugText} `{Ed25519} `{Rfc3339} `{HostErrorText}.

Abbreviation host_run A := (result (fault PluginHostError) A).

Definition perform_registry (op : PluginRegistryOperation) (r : PluginRegistry) : hosted PluginRegistry :=
  match op with
  | Publish m s at' => publish r m s at'
  | Revoke v => revoke r v
  end.
Definition registry_executor (r : PluginRegistry) (op : PluginRegistryOperation) : WorkflowExecutor := fun _ cx =>
  r ← map_err host_error_text (perform_registry op r);
  Ok {| result_digest := digest (registry_json r);
        output := JObject [("operation", JString (registry_operation_name op))];
        evidence := registry_json r;
        events := one_event "plugin_registry_updated" (Some "plugin-registry://v1")
          (JObject [("command_id", JString (cx_command_id cx)); ("operation", JString (registry_operation_name op));
                    ("workflow_digest", JString (cx_digest cx))]) cx |}.

Definition execute_plugin_registry_operation (f : Fresh) (r : PluginRegistry) (op : PluginRegistryOperation)
    : host_run PluginRegistryOperationReceipt :=
  let source := verified_snapshot "plugin-registry://v1" (digest (registry_json r)) in
  let workflow := plugin_registry_operation_template (fresh_uuid f) source (registry_operation_name op) in
  d ← checked_run (fun e => Bundle (workflow_error_text e)) (stable_digest workflow);
  let workflow_digest := workflow_digest_new d in
  observed ← observed_digest Bundle f "SDK v1 plugin registry" workflow
    (run_envelope f workflow_digest workflow "plugin-registry" source) (registry_executor r op);
  (* the executor took the registry out and put the changed one back *)
  let cell := match perform_registry op r with Ok r => Some r | Err _ => None end in
  r ← ok_or cell (Error (Bundle "executor returned no plugin registry"));
  let registry_digest := digest (registry_json r) in
  err_if (negb (bool_decide (observed = Some registry_digest)))
    (Error (Bundle "CommandBus and plugin registry digests differ"));;
  Ok {| ro_command_id := fresh_command f; ro_workflow_digest := workflow_digest;
        registry_digest := registry_digest; ro_registry := r |}.

(** *** Packs *)

Definition domain_text (d : SolutionDomain) : string :=
  match d with
  | Urban => "urban" | Environment => "environment" | Disaster => "disaster" | Mobility => "mobility"
  | Infrastructure => "infrastructure"
  end.
Definition requirement_json (q : SolutionPluginRequirement) : json :=
  JObject [("plugin_id", JString (sr_plugin_id q)); ("version", JString (sr_version q));
           ("capabilities", JArray (map (fun c => JString (capability_text c)) (sr_capabilities q)))].
Definition draft_members (d : SolutionPackDraft) : list (string * json) :=
  [("schema_version", JString (sp_schema_version d)); ("id", JString (sp_id d));
   ("version", JString (sp_version d)); ("domain", JString (domain_text (sp_domain d)));
   ("title", JString (sp_title d)); ("license", JString (sp_license d));
   ("template_ids", strs (sp_template_ids d));
   ("plugin_requirements", JArray (map requirement_json (sp_plugin_requirements d)));
   ("open_state_formats", strs (btree_iter String.le (open_state_formats d)))].
(** [#[serde(flatten)]] *)
Definition pack_json (p : SolutionPackManifest) : json :=
  JObject (draft_members (pack_draft p) ++ [("pack_digest", JString (pack_digest p))]).
Definition draft_digest (d : SolutionPackDraft) : string := digest (JObject (draft_members d)).

Definition semver (value : string) : bool :=
  let parts := split "."%char value in (N.of_nat (length parts) =? 3) && forallb semver_part parts.
Definition required_formats : gset string := {["genegis-project-json"; "workflow-json"; "result-capsule"]}.
Definition all_distinct {A} `{Countable A} (l : list A) : bool := (size (list_to_set l : gset A) =? length l)%nat.
Definition bad_requirement (q : SolutionPluginRequirement) : bool :=
  is_blank (sr_plugin_id q) || negb (semver (sr_version q)) || bool_decide (sr_capabilities q = []).

Definition validate_pack (d : SolutionPackDraft) : hosted unit :=
  err_if (negb (bool_decide (sp_schema_version d = "1.0.0")) || is_blank (sp_id d) || is_blank (sp_title d)
          || is_blank (sp_license d) || negb (semver (sp_version d))
          || bool_decide (sp_template_ids d = [])
          || match sp_plugin_requirements d with [] => true | _ => false end
          || negb (all_distinct (sp_template_ids d))
          || negb (all_distinct (map (fun q => (sr_plugin_id q, sr_version q)) (sp_plugin_requirements d)))
          || negb (bool_decide (required_formats ⊆ open_state_formats d))
          || existsb bad_requirement (sp_plugin_requirements d))
    (Bundle "solution pack draft is invalid or introduces non-portable state").

Definition seal_solution_pack (d : SolutionPackDraft) : hosted SolutionPackManifest :=
  validate_pack d;;
  Ok {| pack_draft := d; pack_digest := draft_digest d |}.

Definition require_plugin (r : PluginRegistry) (q : SolutionPluginRequirement) : hosted unit :=
  e ← resolve r (sr_plugin_id q) (sr_version q);
  err_if (existsb (fun c => negb (has_capability (re_manifest e) c)) (sr_capabilities q))
    (Bundle "solution pack plugin lacks a required capability").

(** The reviewed templates are built anew, which draws UUIDs and reads files. *)
Definition verify_solution_pack (sha256_file : string -> option string) (uuid : string -> string)
    (p : SolutionPackManifest) (r : PluginRegistry) : host_run unit :=
  as_fault (validate_pack (pack_draft p));;
  err_if (negb (bool_decide (draft_digest (pack_draft p) = pack_digest p)))
    (Error (Bundle "solution pack digest mismatch"));;
  templates ← checked_run (fun e => Bundle (workflow_error_text e)) (reviewed_workflow_templates sha256_file uuid);
  let reviewed : gset string := list_to_set (map rt_id templates) in
  err_if (existsb (fun id => negb (bool_decide (id ∈ reviewed))) (sp_template_ids (pack_draft p)))
    (Error (Bundle "solution pack references an unreviewed workflow template"));;
  as_fault (for_each (require_plugin r) (sp_plugin_requirements (pack_draft p))).

Definition json_len {A} (l : list A) : json := json_N (N.of_nat (length l)).
Definition fault_text (e : fault PluginHostError) : string :=
  match e with Error e => host_error_text e | Panicked => "" end.
(** A panic of the verification would not reach the executor's answer; [reviewed]
    below shows that it cannot happen. *)
Definition pack_executor (verified : host_run unit) (p : SolutionPackManifest) : WorkflowExecutor := fun _ cx =>
  map_err fault_text verified;;
  Ok {| result_digest := pack_digest p;
        output := JObject [("domain", JString (domain_text (sp_domain (pack_draft p))));
                           ("pack_id", JString (sp_id (pack_draft p)));
                           ("plugins", json_len (sp_plugin_requirements (pack_draft p)));
                           ("templates", json_len (sp_template_ids (pack_draft p)))];
        evidence := pack_json p;
        events := one_event "solution_pack_admitted" (Some ("solution-pack://" +:+ sp_id (pack_draft p)))
          (run_details cx) cx |}.

Definition admit_solution_pack_workflow (sha256_file : string -> option string) (f : Fresh)
    (p : SolutionPackManifest) (r : PluginRegistry) : host_run SolutionPackAdmissionReceipt :=
  let source := verified_snapshot ("solution-pack://" +:+ sp_id (pack_draft p)) (pack_digest p) in
  let workflow := solution_pack_admission_template (fresh_uuid f) source in
  d ← checked_run (fun e => Bundle (workflow_error_text e)) (stable_digest workflow);
  let workflow_digest := workflow_digest_new d in
  let verified := verify_solution_pack sha256_file (fresh_uuid f) p r in
  observed ← observed_digest Bundle f "Domain solution pack admission" workflow
    (run_envelope f workflow_digest workflow "solution-pack" source) (pack_executor verified p);
  let accepted := is_ok verified in
  err_if (negb accepted || negb (bool_decide (observed = Some (pack_digest p))))
    (Error (Bundle "solution pack admission receipt mismatch"));;
  Ok {| ra_command_id := fresh_command f; ra_workflow_digest := workflow_digest; ra_pack := p |}.
End Packs.

(** * Theory *)

(** ** Release keys name their release *)

Definition no_at (s : string) : bool := string_forall (fun a => negb (bool_decide (a = "@"%char))) s.

Lemma release_key_inj id v id' v' : no_at id' = true -> no_at v' = true ->
  release_key id v = release_key id' v' -> id = id' /\ v = v'.
Proof.
  intros Hi Hv. revert id' Hi. induction id as [|a id IH]; intros [|b id'] Hi Heq.
  - change (String "@" v = String "@" v') in Heq. by injection Heq as ->.
  - change (String "@" v = String b (release_key id' v')) in Heq. injection Heq as <- _.
    by apply andb_true_iff in Hi as [Hi _].
  - change (String a (release_key id v) = String "@" v') in Heq. injection Heq as -> <-.
    exfalso. unfold no_at, release_key in Hv. rewrite string_forall_app in Hv.
    apply andb_true_iff in Hv as [_ Hv]. by apply andb_true_iff in Hv as [Hv _].
  - change (String a (release_key id v) = String b (release_key id' v')) in Heq.
    injection Heq as -> Heq. apply andb_true_iff in Hi as [_ Hi].
    destruct (IH id' Hi Heq) as [-> ->]. done.
Qed.

Lemma split_nonempty c s : split c s <> [].
Proof. induction s as [|a s IH]; [done|]. cbn [split]. case_bool_decide; [done|]. by destruct (split c s). Qed.

Lemma split_forall f c s : Forall (fun part => string_forall f part = true) (split c s) ->
  string_forall (fun a => f a || bool_decide (a = c)) s = true.
Proof.
  induction s as [|a s IH]; [done|]. cbn [split string_forall]. case_bool_decide as Hac.
  - intros [_ Hs]%Forall_cons. rewrite orb_true_r. by apply IH.
  - destruct (split c s) as [|part parts] eqn:Hsp; [by destruct (split_nonempty c s)|].
    intros [Hp Hs]%Forall_cons. cbn [string_forall] in Hp. apply andb_true_iff in Hp as [-> Hp].
    rewrite orb_false_r. apply IH. by constructor.
Qed.

Section Theory.
Context `{F64Display} `{JsonText} `{SvgHost} `{DebugText} `{Ed25519} `{Rfc3339}.

Lemma validate_id_ok id : validate_id id = Ok tt <-> is_empty id = false
  /\ string_forall (fun ch => is_ascii_lowercase ch || is_ascii_digit ch || bool_decide (ch = "-"%char)) id = true.
Proof. unfold validate_id. by rewrite seq_ok, err_if_ok, err_unless_ok. Qed.

Lemma validate_semver_ok value field : validate_semver value field = Ok tt <->
  length (split "."%char value) = 3%nat /\ Forall (fun part => semver_part part = true) (split "."%char value).
Proof.
  unfold validate_semver. cbv zeta. rewrite seq_ok, err_unless_ok, for_each_ok, N.eqb_eq.
  setoid_rewrite err_unless_ok. split; intros [Hl Hp]; (split; [lia | done]).
Qed.

Lemma semver_iff value field : validate_semver value field = Ok tt <-> semver value = true.
Proof.
  rewrite validate_semver_ok, Forall_forall. unfold semver. cbv zeta.
  rewrite andb_true_iff, N.eqb_eq, forallb_forall. setoid_rewrite list_elem_of_In.
  split; intros [Hl Hp]; (split; [lia | exact Hp]).
Qed.

(** A validated manifest; what its names cannot contain *)
Definition admissible (m : PluginManifest) : Prop := validate_manifest_fields m = Ok tt.

Lemma admissible_names m : admissible m -> no_at (pm_id m) = true /\ no_at (pm_version m) = true.
Proof.
  unfold admissible, validate_manifest_fields. rewrite !seq_ok.
  intros ([_ Hi]%validate_id_ok & [_ Hv]%validate_semver_ok & _). split.
  - revert Hi. apply string_forall_impl. intros a Ha. apply negb_true_iff, bool_decide_eq_false. by intros ->.
  - assert (Hd : Forall (fun part => string_forall is_ascii_digit part = true) (split "."%char (pm_version m))).
    { eapply Forall_impl; [exact Hv|]. intros p [_ Hp]%andb_true_iff. exact Hp. }
    apply split_forall in Hd. revert Hd. apply string_forall_impl. intros a Ha.
    apply negb_true_iff, bool_decide_eq_false. by intros ->.
Qed.

(** ** The registry's invariant *)

(** A signature by a trusted signer *)
Definition signed (p : PluginRegistryPolicy) (s : PluginReleaseSignature) (payload : string) : Prop :=
  verify_signed_bytes p s payload = Ok tt.

Record entry_wf (p : PluginRegistryPolicy) (key : string) (e : PluginRegistryEntry) : Prop := {
  ew_key : key = release_key (pm_id (re_manifest e)) (pm_version (re_manifest e));
  ew_manifest : admissible (re_manifest e);
  ew_digest : manifest_digest e = digest (manifest_json (re_manifest e));
  ew_signed : signed p (re_signature e) (canonical (manifest_json (re_manifest e)));
  ew_revoked : forall v, revocation e = Some v ->
    rv_plugin_id v = pm_id (re_manifest e) /\ rv_version v = pm_version (re_manifest e)
    /\ is_blank (rv_reason v) = false
    /\ signed p (rv_signature v)
         (revocation_payload (rv_plugin_id v) (rv_version v) (rv_reason v) (revoked_at v)) }.
Definition registry_wf (r : PluginRegistry) : Prop :=
  forall key e, entries r !! key = Some e -> entry_wf (pr_policy r) key e.

Lemma publish_ok r m s at' r' : publish r m s at' = Ok r' <->
  admissible m /\ is_Some (rfc3339_instant at') /\ signed (pr_policy r) s (canonical (manifest_json m))
  /\ entries r !! release_key (pm_id m) (pm_version m) = None
  /\ r' = with_entries (<[release_key (pm_id m) (pm_version m) :=
            {| re_manifest := m; manifest_digest := digest (manifest_json m); re_signature := s;
               published_at := at'; revocation := None |}]> (entries r)) r.
Proof.
  unfold publish, admissible, signed, parse_time. cbv zeta.
  rewrite seq_ok, map_err_ok, seq_ok, bind_ok, seq_ok, seq_ok. setoid_rewrite ok_or_ok.
  rewrite err_decide_ok, <-eq_None_not_Some. unfold is_Some. naive_solver.
Qed.

Lemma revoke_ok r v r' : revoke r v = Ok r' <->
  is_Some (rfc3339_instant (revoked_at v)) /\ is_blank (rv_reason v) = false
  /\ rv_digest v = revocation_digest v
  /\ signed (pr_policy r) (rv_signature v)
       (revocation_payload (rv_plugin_id v) (rv_version v) (rv_reason v) (revoked_at v))
  /\ exists e, entries r !! release_key (rv_plugin_id v) (rv_version v) = Some e /\ revocation e = None
       /\ r' = with_entries (<[release_key (rv_plugin_id v) (rv_version v) := with_revocation v e]> (entries r)) r.
Proof.
  unfold revoke, signed, parse_time. cbv zeta.
  rewrite seq_ok, bind_ok, seq_ok, err_if_ok, orb_false_iff, negb_false_iff, bool_decide_eq_true, seq_ok, bind_ok.
  setoid_rewrite ok_or_ok. setoid_rewrite seq_ok. setoid_rewrite err_decide_ok.
  setoid_rewrite <-eq_None_not_Some. unfold is_Some. naive_solver.
Qed.

Inductive registry_step (r : PluginRegistry) : PluginRegistry -> Prop :=
| step_publish m s at' r' : publish r m s at' = Ok r' -> registry_step r r'
| step_revoke v r' : revoke r v = Ok r' -> registry_step r r'.
Definition registry_steps : PluginRegistry -> PluginRegistry -> Prop := rtc registry_step.

Lemma step_policy r r' : registry_step r r' -> pr_policy r' = pr_policy r.
Proof. destruct 1 as [m s at' r' Hp|v r' Hv]; [apply publish_ok in Hp | apply revoke_ok in Hv]; naive_solver. Qed.

Lemma step_wf r r' : registry_wf r -> registry_step r r' -> registry_wf r'.
Proof.
  intros Hw Hs key e. rewrite (step_policy _ _ Hs). destruct Hs as [m s at' r' Hp|v r' Hv].
  - apply publish_ok in Hp as (Hm & _ & Hsig & _ & ->). simpl.
    intros [[<- <-]|[_ He]]%lookup_insert_Some; [|by apply Hw]. by split.
  - apply revoke_ok in Hv as (_ & Hr & _ & Hsig & e0 & He0 & Hn & ->). simpl.
    intros [[<- <-]|[_ He]]%lookup_insert_Some; [|by apply Hw].
    destruct (Hw _ _ He0) as [Hk Hm Hd Hsg Hv]. split; try done. intros v' [= <-].
    destruct (admissible_names _ Hm) as [Hi Hver].
    destruct (release_key_inj _ _ _ _ Hi Hver Hk). done.
Qed.

Lemma steps_wf r r' : registry_wf r -> registry_steps r r' -> registry_wf r'.
Proof. intros Hw. induction 1 as [|r r1 r' Hs _ IH]; [done|]. apply IH. by eapply step_wf. Qed.

Lemma new_wf p r : registry_new p = Ok r -> registry_wf r /\ pr_policy r = p /\ entries r = ∅.
Proof.
  unfold registry_new. intros [_ [= <-]]%seq_ok. split; [|done]. intros key e. simpl. by rewrite lookup_empty.
Qed.

(** What may happen to a release: a revocation is attached, once. *)
Definition release_le (e e' : PluginRegistryEntry) : Prop :=
  re_manifest e' = re_manifest e /\ re_signature e' = re_signature e /\ published_at e' = published_at e
  /\ (forall v, revocation e = Some v -> revocation e' = Some v).

Lemma step_keeps r r' key e : registry_step r r' -> entries r !! key = Some e ->
  exists e', entries r' !! key = Some e' /\ release_le e e'.
Proof.
  intros [m s at' r1 Hp|v r1 Hv] He.
  - apply publish_ok in Hp as (_ & _ & _ & Hn & ->). exists e. simpl. split; [|by split].
    rewrite lookup_insert_ne; [done|]. intros <-. congruence.
  - apply revoke_ok in Hv as (_ & _ & _ & _ & e0 & He0 & Hn & ->). simpl.
    destruct (decide (release_key (rv_plugin_id v) (rv_version v) = key)) as [<-|Hne].
    + rewrite lookup_insert_eq. eexists. split; [done|]. assert (e0 = e) as -> by congruence.
      split_and!; try done. intros v' Hv'. congruence.
    + rewrite lookup_insert_ne by done. exists e. split; [done | by split].
Qed.

Lemma steps_keep r r' key e : registry_steps r r' -> entries r !! key = Some e ->
  exists e', entries r' !! key = Some e' /\ release_le e e'.
Proof.
  intros Hs. revert e. induction Hs as [r|r r1 r' Hs _ IH]; intros e He; [exists e; split; [done | by split]|].
  destruct (step_keeps _ _ _ _ Hs He) as (e1 & He1 & Hm1 & Hs1 & Hp1 & Hr1).
  destruct (IH e1 He1) as (e2 & He2 & Hm2 & Hs2 & Hp2 & Hr2).
  exists e2. split; [done|]. split_and!; [congruence.. | auto].
Qed.

(** In a registry that only publish and revoke wrote, [resolve] answers the release
    as published, unless it is revoked: its checks repeat what is known. *)
Lemma resolve_ok r id v e : registry_wf r ->
  resolve r id v = Ok e <-> entries r !! release_key id v = Some e /\ revocation e = None.
Proof.
  intros Hw. unfold resolve. cbv zeta. rewrite bind_ok. setoid_rewrite ok_or_ok.
  setoid_rewrite seq_ok. setoid_rewrite err_decide_ok. setoid_rewrite <-eq_None_not_Some. split.
  - intros (e' & He & Hn & Hr). apply seq_ok in Hr as [_ Hr]. apply seq_ok in Hr as [_ [= <-]]. done.
  - intros [He Hn]. exists e. split_and!; [done..|]. destruct (Hw _ _ He) as [_ _ Hd Hsig _].
    rewrite bool_decide_true by done. cbn [negb err_if mbind result_bind].
    unfold signed in Hsig. by rewrite Hsig.
Qed.

Lemma resolved_names r id v e : registry_wf r -> resolve r id v = Ok e ->
  pm_id (re_manifest e) = id /\ pm_version (re_manifest e) = v.
Proof.
  intros Hw [He _]%(resolve_ok _ _ _ _ Hw). destruct (Hw _ _ He) as [Hk Hm _ _ _].
  destruct (admissible_names _ Hm) as [Hi Hv]. by destruct (release_key_inj _ _ _ _ Hi Hv Hk) as [-> ->].
Qed.
End Theory.

Section Runs.
Context `{F64Display} `{JsonText} `{SvgHost} `{F32Json} `{GeoContractJson} `{CommandText} `{CommandErrorText}.
Context `{DebugText} `{Ed25519} `{Rfc3339} `{HostErrorText}.

(** ** Governed by the bus *)

Lemma registry_runs f source name : named_source source ->
  validate sha256_hex (plugin_registry_operation_template (fresh_uuid f) source name) = Done tt.
Proof.
  intros Hn. apply validated_executable, (template_executable (fresh_uuid f) (fun _ => None)).
  by apply T_plugin_registry_operation.
Qed.
Lemma registry_reads f source name :
  reads_only (plugin_registry_operation_template (fresh_uuid f) source name) "plugin-registry" source.
Proof. by eexists. Qed.

Lemma registry_run f r op :
  match perform_registry op r with
  | Ok r' => exists x, execute_plugin_registry_operation f r op = Ok x
      /\ ro_registry x = r' /\ registry_digest x = digest (registry_json r')
  | Err e => execute_plugin_registry_operation f r op = Err (Error (Bundle (executor_failure (host_error_text e))))
  end.
Proof.
  unfold execute_plugin_registry_operation. set (source := verified_snapshot _ _).
  pose proof (registry_runs f source (registry_operation_name op) eq_refl) as Hv.
  pose proof (registry_reads f source (registry_operation_name op)) as Hr.
  generalize dependent (plugin_registry_operation_template (fresh_uuid f) source (registry_operation_name op)).
  intros w Hv Hr. cbv zeta. rewrite (proj2 (stable_digest_done w _) (conj Hv eq_refl)).
  cbn [checked_run mbind result_bind]. unfold workflow_digest_new.
  rewrite (observed_run Bundle f _ w _ source (registry_executor r op)
    (r' ← map_err host_error_text (perform_registry op r); Ok (digest (registry_json r'))) Hv Hr).
  - destruct (perform_registry op r) as [r'|e]; cbn [map_err mbind result_bind]; [|done].
    assert (Hb : is_blank (digest (registry_json r')) = false) by done. rewrite Hb. cbn [ok_or mbind result_bind].
    rewrite bool_decide_true by done. cbn [negb err_if mbind result_bind]. eexists. split; [reflexivity | by split].
  - intros cx. unfold registry_executor. by destruct (perform_registry op r) as [r'|e].
Qed.

Lemma admission_runs f source : named_source source ->
  validate sha256_hex (solution_pack_admission_template (fresh_uuid f) source) = Done tt.
Proof.
  intros Hn. apply validated_executable, (template_executable (fresh_uuid f) (fun _ => None)).
  by apply T_solution_pack_admission.
Qed.
Lemma admission_reads f source :
  reads_only (solution_pack_admission_template (fresh_uuid f) source) "solution-pack" source.
Proof. by eexists. Qed.

(** ** What a pack must be *)

Record pack_verified (p : SolutionPackManifest) (r : PluginRegistry) : Prop := {
  pv_draft : validate_pack (pack_draft p) = Ok tt;
  pv_digest : pack_digest p = draft_digest (pack_draft p);
  pv_templates : forall id, id ∈ sp_template_ids (pack_draft p) -> id ∈ template_ids;
  pv_plugins : forall q, q ∈ sp_plugin_requirements (pack_draft p) ->
    exists e, resolve r (sr_plugin_id q) (sr_version q) = Ok e
      /\ forall c, c ∈ sr_capabilities q -> c ∈ pm_capabilities (re_manifest e) }.

Lemma require_plugin_ok r q : require_plugin r q = Ok tt <->
  exists e, resolve r (sr_plugin_id q) (sr_version q) = Ok e
    /\ forall c, c ∈ sr_capabilities q -> c ∈ pm_capabilities (re_manifest e).
Proof.
  unfold require_plugin. rewrite bind_ok. setoid_rewrite err_if_ok. f_equiv. intros e. f_equiv.
  rewrite <-not_true_iff_false, existsb_elem. unfold has_capability. split.
  - intros Hn c Hc. destruct (decide (c ∈ pm_capabilities (re_manifest e))); [done|].
    exfalso. apply Hn. exists c. by rewrite bool_decide_false.
  - intros Ha (c & Hc & Hb). rewrite bool_decide_true in Hb by auto. done.
Qed.

Lemma verify_pack_ok sha256_file uuid p r : verify_solution_pack sha256_file uuid p r = Ok tt <-> pack_verified p r.
Proof.
  unfold verify_solution_pack, reviewed_workflow_templates.
  destruct (reviewed_templates_done sha256_file uuid template_ids) as (l & Hl & Hm & _).
  { by apply Forall_forall. }
  rewrite Hl. cbn [checked_run mbind result_bind]. cbv zeta. unfold as_fault.
  rewrite seq_ok, map_err_ok, seq_ok, err_unless_ok, bool_decide_eq_true, seq_ok, err_if_ok, map_err_ok, for_each_ok.
  rewrite <-not_true_iff_false, existsb_elem, Forall_forall. rewrite Hm.
  setoid_rewrite require_plugin_ok. split.
  - intros (Hd & Hg & Ht & Hp). split; [exact Hd | symmetry; exact Hg | | exact Hp]. intros id Hid.
    destruct (decide (id ∈ template_ids)) as [Hin|Hn]; [exact Hin|]. exfalso. apply Ht. exists id. split; [done|].
    rewrite bool_decide_false; [reflexivity|]. rewrite elem_of_list_to_set. exact Hn.
  - intros [Hd Hg Ht Hp]. split; [exact Hd|]. split; [symmetry; exact Hg|]. split; [|exact Hp].
    intros (id & Hid & Hb).
    rewrite bool_decide_true in Hb; [discriminate Hb|]. apply elem_of_list_to_set, Ht, Hid.
Qed.

Lemma admit_ok sha256_file f p r : is_ok (admit_solution_pack_workflow sha256_file f p r) = true
  <-> verify_solution_pack sha256_file (fresh_uuid f) p r = Ok tt.
Proof.
  unfold admit_solution_pack_workflow. set (source := verified_snapshot _ _).
  set (verified := verify_solution_pack _ _ _ _).
  assert (Hd : verified = Ok tt -> pack_digest p = draft_digest (pack_draft p)).
  { intros Hv. by apply verify_pack_ok in Hv as []. }
  pose proof (admission_runs f source eq_refl) as Hv. pose proof (admission_reads f source) as Hr.
  generalize dependent (solution_pack_admission_template (fresh_uuid f) source).
  intros w Hv Hr. cbv zeta. rewrite (proj2 (stable_digest_done w _) (conj Hv eq_refl)).
  cbn [checked_run mbind result_bind]. unfold workflow_digest_new.
  rewrite (observed_run Bundle f _ w _ source (pack_executor verified p)
    (_ ← map_err fault_text verified; Ok (pack_digest p)) Hv Hr).
  - destruct verified as [[]|e]; cbn [map_err mbind result_bind]; [|done]. rewrite (Hd eq_refl).
    assert (Hb : is_blank (draft_digest (pack_draft p)) = false) by done. rewrite Hb.
    cbn [mbind result_bind is_ok negb orb]. by rewrite bool_decide_true.
  - intros cx. unfold pack_executor. by destruct verified as [[]|e].
Qed.
End Runs.

(** ** Properties *)

(** C23: in every registry that [new], [publish] and [revoke] lead to, a release that
    resolves is the one it was asked for, with an admissible manifest, signed by a
    trusted signer and not revoked; it stays as published in every later registry,
    where it resolves unless a signed revocation of it has been attached; and a
    release that is revoked never resolves again. *)
Theorem resolved_release_is_trusted `{F64Display} `{JsonText} `{SvgHost} `{DebugText} `{Ed25519} `{Rfc3339}
    p r0 r r' id v :
  registry_new p = Ok r0 -> registry_steps r0 r -> registry_steps r r' ->
  (forall e, resolve r id v = Ok e ->
     pm_id (re_manifest e) = id /\ pm_version (re_manifest e) = v /\ admissible (re_manifest e)
     /\ signed p (re_signature e) (canonical (manifest_json (re_manifest e)))
     /\ exists e', entries r' !! release_key id v = Some e'
          /\ re_manifest e' = re_manifest e /\ re_signature e' = re_signature e
          /\ match revocation e' with
             | None => resolve r' id v = Ok e'
             | Some w => rv_plugin_id w = id /\ rv_version w = v
                 /\ signed p (rv_signature w) (revocation_payload id v (rv_reason w) (revoked_at w))
             end)
  /\ (forall e, entries r !! release_key id v = Some e -> is_Some (revocation e) ->
        is_ok (resolve r' id v) = false).
Proof.
  intros (W0 & Hp & _)%new_wf Hs Hs'. assert (W := steps_wf _ _ W0 Hs). assert (W' := steps_wf _ _ W Hs').
  assert (Hpol : pr_policy r = p /\ pr_policy r' = p).
  { assert (Hk : forall a b, registry_steps a b -> pr_policy b = pr_policy a).
    { induction 1 as [|a b c Hab _ IH]; [done|]. rewrite IH. by apply step_policy. }
    rewrite (Hk _ _ Hs'), (Hk _ _ Hs). done. }
  destruct Hpol as [Hpr Hpr']. split.
  - intros e Hr. destruct (resolved_names _ _ _ _ W Hr) as [Hi Hv].
    pose proof Hr as [He Hn]%(resolve_ok _ _ _ _ W). destruct (W _ _ He) as [_ Hm _ Hsig _]. rewrite Hpr in Hsig.
    split_and!; [done..|]. destruct (steps_keep _ _ _ _ Hs' He) as (e' & He' & Hm' & Hsg' & _).
    exists e'. split_and!; [done..|]. destruct (revocation e') as [w|] eqn:Hw.
    + destruct (W' _ _ He') as [_ _ _ _ Hrev]. destruct (Hrev w Hw) as (Hwi & Hwv & _ & Hws).
      rewrite Hpr', Hwi, Hwv, Hm', Hi, Hv in Hws. rewrite Hwi, Hwv, Hm'. done.
    + by apply resolve_ok.
  - intros e He [w Hw]. destruct (steps_keep _ _ _ _ Hs' He) as (e' & He' & _ & _ & _ & Hrev).
    destruct (resolve r' id v) as [x|] eqn:Hx; [|done]. apply (resolve_ok _ _ _ _ W') in Hx as [Hx Hn].
    rewrite He' in Hx. injection Hx as <-. by rewrite (Hrev w Hw) in Hn.
Qed.

(** What the crates base64 and ed25519-dalek promise for the key pair of a trusted
    signer: what it signs verifies, and encoded bytes read back. *)
Record trusted_pair `{Ed25519} (p : PluginRegistryPolicy) (id secret public : string) : Prop := {
  tp_trusted : trusted_signers p !! id = Some (base64_encode public);
  tp_id : is_blank id = false;
  tp_public : str_len public = 32 /\ key_bytes_valid public = true;
  tp_base64 : forall bytes, base64_decode (base64_encode bytes) = Some bytes;
  tp_signs : forall payload, signature_bytes_valid (sign_bytes secret payload) = true
    /\ signature_verifies public payload (sign_bytes secret payload) = true }.

Lemma sign_verifies `{F64Display} `{JsonText} `{SvgHost} `{DebugText} `{Ed25519} `{Rfc3339} p id secret public payload s :
  trusted_pair p id secret public -> sign payload id secret = Ok s -> signed p s payload.
Proof.
  intros [Ht Hid [Hl Hk] Hb Hs]. unfold sign. rewrite Hid. cbn [err_if mbind result_bind]. intros [= <-].
  unfold signed, verify_signed_bytes. cbn [algorithm key_id signature_base64].
  rewrite bool_decide_true by done. cbn [negb err_if mbind result_bind]. rewrite Ht. cbn [ok_or mbind result_bind].
  unfold decode_key. rewrite !Hb. cbn [ok_or mbind result_bind]. rewrite Hl, Hk. cbn [err_if mbind result_bind negb N.eqb Pos.eqb].
  destruct (Hs payload) as [-> ->]. done.
Qed.

(** What a trusted signer signs is accepted: a signed new release publishes and
    resolves to its manifest, its artifact is the bytes with the manifest's digest and
    no others; the revocation the signer then signs is accepted, and ends it. *)
Theorem signed_release_roundtrip `{F64Display} `{JsonText} `{SvgHost} `{DebugText} `{Ed25519} `{Rfc3339}
    p r0 r id secret public m s at' :
  registry_new p = Ok r0 -> registry_steps r0 r -> trusted_pair p id secret public ->
  sign_plugin_release m id secret = Ok s -> is_Some (rfc3339_instant at') ->
  entries r !! release_key (pm_id m) (pm_version m) = None ->
  exists r' e, publish r m s at' = Ok r' /\ resolve r' (pm_id m) (pm_version m) = Ok e /\ re_manifest e = m
    /\ (forall bytes, verify_artifact r' (pm_id m) (pm_version m) bytes = Ok tt
          <-> digest_bytes bytes = artifact_digest m)
    /\ forall reason at'' v, sign_plugin_revocation (pm_id m) (pm_version m) reason at'' id secret = Ok v ->
         exists r'', revoke r' v = Ok r'' /\ is_ok (resolve r'' (pm_id m) (pm_version m)) = false.
Proof.
  intros (W0 & Hp & _)%new_wf Hs Ht Hsign Hat Hfresh. assert (W := steps_wf _ _ W0 Hs).
  assert (Hpr : pr_policy r = p).
  { rewrite <-Hp. clear -Hs. induction Hs as [|a b c Hab _ IH]; [done|]. rewrite IH. by apply step_policy. }
  unfold sign_plugin_release in Hsign. rewrite seq_ok, map_err_ok in Hsign. destruct Hsign as [Hm Hsign].
  assert (Hsg := sign_verifies _ _ _ _ _ _ Ht Hsign). rewrite <-Hpr in Hsg.
  set (key := release_key (pm_id m) (pm_version m)) in *.
  set (e := {| re_manifest := m; manifest_digest := digest (manifest_json m); re_signature := s;
               published_at := at'; revocation := None |}).
  set (r' := with_entries (<[key := e]> (entries r)) r).
  assert (Hpub : publish r m s at' = Ok r') by by apply publish_ok.
  assert (W' : registry_wf r') by (eapply step_wf; [exact W | by eapply step_publish]).
  assert (Hres : resolve r' (pm_id m) (pm_version m) = Ok e).
  { apply resolve_ok; [done|]. split; [apply lookup_insert_eq | done]. }
  exists r', e. split_and!; [done..| |].
  - intros bytes. unfold verify_artifact. rewrite Hres. cbn [mbind result_bind].
    by rewrite err_unless_ok, bool_decide_eq_true.
  - intros reason at'' v. unfold sign_plugin_revocation. rewrite seq_ok, err_if_ok, !orb_false_iff, seq_ok, bind_ok.
    intros ([[_ _] Hreason] & Ht'' & s' & Hs' & [= <-]).
    unfold parse_time in Ht''. rewrite bind_ok in Ht''. destruct Ht'' as (t & Ht''%ok_or_ok & _).
    assert (Hsg' := sign_verifies _ _ _ _ _ _ Ht Hs'). rewrite <-Hpr in Hsg'.
    eexists. split.
    + apply revoke_ok. cbn [revoked_at rv_reason rv_digest rv_signature rv_plugin_id rv_version].
      split_and!; [by eexists | done | done | done |]. exists e. split_and!; [apply lookup_insert_eq | done | done].
    + unfold resolve. cbv zeta. cbn [entries with_entries rv_plugin_id rv_version]. fold key.
      by rewrite lookup_insert_eq.
Qed.

(** A pack is admitted exactly when its draft is valid and unchanged since it
    was sealed, its templates are among the reviewed ones, and each plugin release
    it requires resolves in the registry with the capabilities asked for. *)
Theorem pack_admission_exact `{F64Display} `{JsonText} `{SvgHost} `{F32Json} `{GeoContractJson} `{CommandText}
    `{CommandErrorText} `{DebugText} `{Ed25519} `{Rfc3339} `{HostErrorText} sha256_file f p r :
  is_ok (admit_solution_pack_workflow sha256_file f p r) = true <-> pack_verified p r.
Proof. rewrite admit_ok. apply verify_pack_ok. Qed.

(** A registry operation behind the bus is the operation. *)
Theorem registry_run_refines `{F64Display} `{JsonText} `{SvgHost} `{F32Json} `{GeoContractJson} `{CommandText}
    `{CommandErrorText} `{DebugText} `{Ed25519} `{Rfc3339} `{HostErrorText} f r op r' :
  (exists x, execute_plugin_registry_operation f r op = Ok x /\ ro_registry x = r')
  <-> perform_registry op r = Ok r'.
Proof.
  pose proof (registry_run f r op) as Hr. destruct (perform_registry op r) as [r1|e].
  - destruct Hr as (x & Hx & <- & _). rewrite Hx. split; [by intros (y & [= <-] & <-) | intros [= <-]; eauto].
  - split; [|done]. intros (x & Hx & _). by rewrite Hr in Hx.
Qed.

(** The host's policy admits a bundle exactly when it loses no capability by it. *)
Theorem admitted_bundle_keeps_capabilities `{DebugText} dir read p e :
  discover_bundle dir read p = Ok e ->
  Forall (fun c => c ∈ allow p) (pm_capabilities (pe_manifest e))
  /\ pe_capabilities e = pm_capabilities (pe_manifest e) /\ validate_manifest_fields (pe_manifest e) = Ok tt.
Proof.
  unfold discover_bundle. rewrite bind_ok. intros (m & _ & Hk). revert Hk.
  rewrite !seq_ok, !map_err_ok. intros (Hv & Hp & [= <-]). cbn [pe_manifest pe_capabilities].
  unfold policy_admits in Hp. rewrite for_each_ok in Hp.
  assert (Ha : Forall (fun c => allows p c = true) (pm_capabilities m)).
  { eapply Forall_impl; [exact Hp|]. intros c Hc. by apply err_unless_ok in Hc. }
  split_and!; [|unfold effective_capabilities|done].
  - eapply Forall_impl; [exact Ha|]. intros c Hc. by apply bool_decide_eq_true in Hc.
  - induction Ha as [|c l Hc _ IH]; [done|]. simpl. rewrite Hc. f_equal. apply IH.
    by apply Forall_cons in Hp as [_ Hp].
Qed.

(** *** What the manifest check lets through *)

(** A digest in capitals is valid, but no artifact has it. *)
Theorem uppercase_artifact_never_verifies `{F64Display} `{JsonText} `{SvgHost} `{DebugText} `{Ed25519} `{Rfc3339}
    r id v bytes e :
  (forall text, string_forall (fun a => negb (is_ascii_uppercase a)) (sha256_hex text) = true) ->
  resolve r id v = Ok e ->
  string_forall (fun a => negb (is_ascii_uppercase a)) (artifact_digest (re_manifest e)) = false ->
  verify_artifact r id v bytes = Err (Bundle "plugin artifact digest mismatch").
Proof.
  intros Hlow Hr Hup. unfold verify_artifact. rewrite Hr. cbn [mbind result_bind].
  rewrite bool_decide_false; [done|]. intros Hd. rewrite <-Hd in Hup. unfold digest_bytes in Hup.
  rewrite string_forall_app, Hlow in Hup. done.
Qed.
Definition capital_digest : string :=
  "sha256:AAAAAAAAAAAAAAAAAAAAAAAAAAAAAAAAAAAAAAAAAAAAAAAAAAAAAAAAAAAAAAAA".
(** An entry that is not normalized passes for a normalized one. *)
Theorem unnormalized_entry_is_accepted : validate_wasm {| entry := "bin//./filter.wasm" |} = Ok tt.
Proof. vm_compute. reflexivity. Qed.

(** ** A registry with one signer *)

(** The example manifest of the SDK *)
Definition demo_manifest : PluginManifest :=
  {| pm_id := "demo-filter"; pm_name := "Demo Filter"; pm_version := "0.1.0"; pm_api_version := PLUGIN_API_VERSION;
     pm_description := "Example analysis filter plugin"; pm_author := "GeneGIS";
     pm_capabilities := [AnalysisStep];
     artifact_digest := "sha256:0000000000000000000000000000000000000000000000000000000000000000";
     pm_wasm := Some {| entry := "demo_filter.wasm" |} |}.

#[local] Existing Instances demo_display demo_f32 demo_contract demo_command_text.
#[local] Instance plugin_text : JsonText :=
  {| json_scalar := fun v => match v with JString s | JNumber s => s | _ => "null" end; json_key := fun k => k |}.
#[local] Instance plugin_host : SvgHost :=
  {| f64_fixed := fun _ _ => "0"; number_json := fun _ => JNull; sha256_hex := fun s => s |}.
#[local] Instance plugin_debug : DebugText := fun s => s.
#[local] Instance plugin_clock : Rfc3339 := fun t => if is_empty t then None else Some 0%Z.
#[local] Instance plugin_bus_text : CommandErrorText := fun _ => "failed".
#[local] Instance plugin_error_text : HostErrorText := fun _ => "rejected".
(** A pair whose public half is its secret half, and signatures that spell out both *)
#[local] Instance plain_signatures : Ed25519 :=
  {| base64_decode := Some; base64_encode := fun s => s; key_bytes_valid := fun _ => true;
     signature_bytes_valid := fun _ => true;
     signature_verifies := fun key payload bytes => String.eqb bytes (key +:+ payload);
     sign_bytes := fun key payload => key +:+ payload |}.

Definition demo_key : string := "0123456789abcdef0123456789abcdef".
Definition demo_policy : PluginRegistryPolicy :=
  {| rp_schema_version := "1.0.0"; trusted_signers := {["first-party" := demo_key]} |}.
Definition empty_registry : PluginRegistry :=
  {| pr_schema_version := "1.0.0"; pr_policy := demo_policy; entries := ∅ |}.
Definition demo_signature : PluginReleaseSignature :=
  {| key_id := "first-party"; algorithm := "ed25519";
     signature_base64 := demo_key +:+ canonical (manifest_json demo_manifest) |}.
Definition published : PluginRegistry :=
  match publish empty_registry demo_manifest demo_signature "2026-08-26T10:00:00Z" with
  | Ok r => r | Err _ => empty_registry end.

Lemma demo_new : registry_new demo_policy = Ok empty_registry.
Proof. vm_compute. reflexivity. Qed.
Lemma demo_published : registry_steps empty_registry published.
Proof.
  apply rtc_once. apply (step_publish _ demo_manifest demo_signature "2026-08-26T10:00:00Z").
  unfold published. by destruct (publish empty_registry demo_manifest demo_signature "2026-08-26T10:00:00Z") eqn:Hp.
Qed.
Lemma demo_pair : trusted_pair demo_policy "first-party" demo_key demo_key.
Proof. split; try done. intros payload. split; [done|]. apply String.eqb_refl. Qed.

Lemma resolved_release_is_trusted_witness :
  exists e, resolve published "demo-filter" "0.1.0" = Ok e /\ pm_id (re_manifest e) = "demo-filter"
    /\ signed demo_policy (re_signature e) (canonical (manifest_json (re_manifest e))).
Proof.
  destruct (resolved_release_is_trusted demo_policy empty_registry published published "demo-filter" "0.1.0"
    demo_new demo_published (rtc_refl _ _)) as [Hr _].
  assert (Hok : is_ok (resolve published "demo-filter" "0.1.0") = true) by (vm_compute; reflexivity).
  destruct (resolve published "demo-filter" "0.1.0") as [e|x]; [|discriminate Hok].
  exists e. destruct (Hr e eq_refl) as (Hi & _ & _ & Hs & _). split; [reflexivity | by split].
Defined.

Lemma signed_release_roundtrip_witness :
  exists r' v r'', publish empty_registry demo_manifest demo_signature "2026-08-26T10:00:00Z" = Ok r'
    /\ sign_plugin_revocation "demo-filter" "0.1.0" "withdrawn" "2026-09-01T00:00:00Z" "first-party" demo_key = Ok v
    /\ revoke r' v = Ok r'' /\ is_ok (resolve r'' "demo-filter" "0.1.0") = false.
Proof.
  destruct (signed_release_roundtrip demo_policy empty_registry empty_registry "first-party" demo_key demo_key
    demo_manifest demo_signature "2026-08-26T10:00:00Z" demo_new (rtc_refl _ _) demo_pair)
    as (r' & e & Hp & _ & _ & _ & Hrev).
  - vm_compute. reflexivity.
  - by eexists.
  - apply lookup_empty.
  - assert (Hok : is_ok (sign_plugin_revocation "demo-filter" "0.1.0" "withdrawn" "2026-09-01T00:00:00Z"
      "first-party" demo_key) = true) by (vm_compute; reflexivity).
    destruct (sign_plugin_revocation "demo-filter" "0.1.0" "withdrawn" "2026-09-01T00:00:00Z" "first-party" demo_key)
      as [v|x] eqn:Hv; [|discriminate Hok].
    destruct (Hrev "withdrawn" "2026-09-01T00:00:00Z" v Hv) as (r'' & Hr & Hn).
    exists r', v, r''. split; [exact Hp|]. split; [reflexivity|]. split; [exact Hr | exact Hn].
Defined.

(** A valid manifest whose artifact cannot be delivered *)
Definition capital_manifest : PluginManifest :=
  {| pm_id := "demo-filter"; pm_name := ""; pm_version := "0.1.0"; pm_api_version := "1.7.5";
     pm_description := ""; pm_author := ""; pm_capabilities := [ReadCatalog];
     artifact_digest := capital_digest; pm_wasm := None |}.
Example capital_manifest_admissible : admissible capital_manifest.
Proof. vm_compute. reflexivity. Qed.

(** An urban pack that needs the demo plugin *)
Definition urban_draft : SolutionPackDraft :=
  {| sp_schema_version := "1.0.0"; sp_id := "urban"; sp_version := "1.0.0"; sp_domain := Urban;
     sp_title := "Urban"; sp_license := "MIT"; sp_template_ids := ["nagoya-density"];
     sp_plugin_requirements := [{| sr_plugin_id := "demo-filter"; sr_version := "0.1.0";
                                   sr_capabilities := [AnalysisStep] |}];
     open_state_formats := required_formats |}.
Example urban_pack_verified : exists p, seal_solution_pack urban_draft = Ok p /\ pack_verified p published.
Proof.
  exists {| pack_draft := urban_draft; pack_digest := draft_digest urban_draft |}. split; [vm_compute; reflexivity|].
  apply (verify_pack_ok (fun _ => None) (fun id => id)). vm_compute. reflexivity.
Qed.
