(* ===== verification/Wkb.v ===== *)
(** * Well-known binary and GeoPackage geometry blobs
    (crates/genegis-toolkit/src/wkb.rs and the blob codec of gpkg_io.rs)

    The geometry values are those of the geo_types crate, as the source matches
    them; [Polygon::new] and [to_polygon] are that crate's, the class
    [GeoShapes], and [bounding_rect] an argument. A writer returns what it appends to its buffer; the reader is
    a state computation on its position. [geometry] calls itself on the members of
    a collection, on fuel; fuel that runs out is [Panicked], and [wkb_read_typed]
    shows that it does not. *)

From Stdlib Require Import Strings.Byte.
From S2P Require Import Prelude RustStd Bytes Ordering Rounding Float.
Local Open Scope N_scope.

(** ** Geometry values *)

Record Coord := mkCoord { coord_x : f64; coord_y : f64 }.
Abbreviation LineString := (list Coord).
Record Polygon := mkPolygon { exterior : LineString; interiors : list LineString }.

Class GeoShapes := {
  Rect : Type;
  Triangle : Type;
  polygon_new : LineString -> list LineString -> Polygon;   (* [Polygon::new] *)
  rect_to_polygon : Rect -> Polygon;
  triangle_to_polygon : Triangle -> Polygon }.

Inductive Geometry `{GeoShapes} :=
| GPoint (p : Coord)
| GLine (start stop : Coord)
| GLineString (line : LineString)
| GPolygon (polygon : Polygon)
| GMultiPoint (points : list Coord)
| GMultiLineString (lines : list LineString)
| GMultiPolygon (polygons : list Polygon)
| GGeometryCollection (parts : list Geometry)
| GRect (rect : Rect)
| GTriangle (tri : Triangle).

(** ** Integers and floats as bytes *)

Definition u32_to_le_bytes (n : N) : bytes :=
  [u8 n; u8 (N.shiftr n 8); u8 (N.shiftr n 16); u8 (N.shiftr n 24)].
Definition from_be_bytes (l : bytes) : N := from_le_bytes (rev l).

(** [f64::from_bits]; every NaN pattern is the one NaN of [SpecFloat]. *)
Definition f64_from_bits (b : N) : f64 :=
  let s := N.testbit b 63 in
  let e := N.land (N.shiftr b 52) 2047 in
  let m := N.land b (N.ones 52) in
  if e =? 2047 then if m =? 0 then S754_infinity s else S754_nan
  else match (if e =? 0 then m else m + 2 ^ 52) with
       | 0 => S754_zero s
       | Npos p => S754_finite s p (Z.max (Z.of_N e) 1 - 1075)
       end.

(** ** Writing *)

Section Writing.
Context `{GeoShapes}.

Definition header (kind : N) : bytes := x01 :: u32_to_le_bytes kind.
Definition coord (c : Coord) : bytes :=
  to_le_bytes (f64_bits (coord_x c)) ++ to_le_bytes (f64_bits (coord_y c)).
Definition count (n : nat) : bytes := u32_to_le_bytes (wrap 32 (N.of_nat n)).
Definition ring (line : LineString) : bytes := count (length line) ++ concat (map coord line).
Definition polygon_body (p : Polygon) : bytes :=
  count (1 + length (interiors p)) ++ ring (exterior p) ++ concat (map ring (interiors p)).

Fixpoint write_geometry (g : Geometry) : bytes :=
  match g with
  | GPoint p => header 1 ++ coord p
  | GLineString line => header 2 ++ ring line
  | GLine start stop => header 2 ++ count 2 ++ coord start ++ coord stop
  | GPolygon polygon => header 3 ++ polygon_body polygon
  | GRect rect => header 3 ++ polygon_body (rect_to_polygon rect)
  | GTriangle tri => header 3 ++ polygon_body (triangle_to_polygon tri)
  | GMultiPoint points =>
      header 4 ++ count (length points) ++ concat (map (fun p => header 1 ++ coord p) points)
  | GMultiLineString lines =>
      header 5 ++ count (length lines) ++ concat (map (fun l => header 2 ++ ring l) lines)
  | GMultiPolygon polygons =>
      header 6 ++ count (length polygons) ++ concat (map (fun p => header 3 ++ polygon_body p) polygons)
  | GGeometryCollection parts =>
      header 7 ++ count (length parts) ++ concat (map write_geometry parts)
  end.
Definition write (g : Geometry) : bytes := write_geometry g.

End Writing.

(** ** Reading *)

(** The reasons of [ToolkitError::Import] *)
Inductive WkbError :=
| LengthOverflow
| TruncatedGeometry
| ImplausibleCount
| InvalidByteOrder (order : N)
| WrongMember
| UnsupportedType (code : N).

Abbreviation reader A := (st nat (fault WkbError) A).
Definition fail {A} (e : WkbError) : reader A := lift (Err (Error e)).

(** [(0..n).map(|_| item()).collect::<Result<Vec<_>>>()], also for the loops that
    push; every item consumes a byte or more, so the length of the input is enough
    fuel ([times_total]). *)
Fixpoint times {A} (fuel : nat) (n : N) (item : reader A) : reader (list A) :=
  if n =? 0 then mret []
  else match fuel with
       | O => lift (Err Panicked)
       | S fuel => x ← item; xs ← times fuel (n - 1) item; mret (x :: xs)
       end.

Section Reader.
Context `{GeoShapes}.
Variable input : bytes.

Definition take_bytes (n : nat) : reader bytes :=
  pos ← get;
  stop ← lift (ok_or (checked_add_u64 (N.of_nat pos) (N.of_nat n)) (Error LengthOverflow));
  if N.of_nat (length input) <? stop then fail TruncatedGeometry
  else put (N.to_nat stop);; mret (take n (drop pos input)).

Definition read_u32 (little : bool) : reader N :=
  b ← take_bytes 4; mret (if little then from_le_bytes b else from_be_bytes b).
Definition read_f64 (little : bool) : reader f64 :=
  b ← take_bytes 8; mret (f64_from_bits (if little then from_le_bytes b else from_be_bytes b)).

Definition read_coord (little : bool) (dims : nat) : reader Coord :=
  x ← read_f64 little;
  y ← read_f64 little;
  st_each (fun _ => read_f64 little;; mret tt) (seq 2 (dims - 2));;
  mret (mkCoord x y).

Definition read_line (little : bool) (dims : nat) : reader LineString :=
  n ← read_u32 little;
  if N.of_nat (length input) / 16 + 1 <? n then fail ImplausibleCount
  else times (S (length input)) n (read_coord little dims).

Definition read_polygon (little : bool) (dims : nat) : reader Polygon :=
  rings ← read_u32 little;
  if rings =? 0 then mret (polygon_new [] [])
  else
    exterior ← read_line little dims;
    interiors ← times (S (length input)) (rings - 1) (read_line little dims);
    mret (polygon_new exterior interiors).

(** [matches!((expect, &geometry), ..)] *)
Definition member (expect : N) (g : Geometry) : bool :=
  match g with
  | GPoint _ => expect =? 1 | GLineString _ => expect =? 2 | GPolygon _ => expect =? 3 | _ => false
  end.
(** The closure [child], around the call of [geometry] *)
Definition child (read_geometry : reader Geometry) (expect : N) : reader Geometry :=
  g ← read_geometry; if member expect g then mret g else fail WrongMember.

Definition as_point (g : Geometry) : option Coord := match g with GPoint p => Some p | _ => None end.
Definition as_line (g : Geometry) : option LineString := match g with GLineString l => Some l | _ => None end.
Definition as_polygon (g : Geometry) : option Polygon := match g with GPolygon p => Some p | _ => None end.

Definition byte_order (order : N) : reader bool :=
  match order with 0 => mret false | 1 => mret true | other => fail (InvalidByteOrder other) end.

(** The ordinates of a coordinate, from the EWKB flags and the ISO thousands *)
Definition ordinates (raw : N) : nat :=
  let iso := N.land raw 268435455 / 1000 in
  let z := negb (N.land raw 2147483648 =? 0) || (iso =? 1) || (iso =? 3) in
  let m := negb (N.land raw 1073741824 =? 0) || (iso =? 2) || (iso =? 3) in
  (2 + (if z then 1 else 0) + (if m then 1 else 0))%nat.

Fixpoint geometry (fuel : nat) : reader Geometry :=
  match fuel with
  | O => lift (Err Panicked)
  | S fuel =>
      order ← take_bytes 1;
      little ← byte_order (from_le_bytes order);
      raw ← read_u32 little;
      (if N.land raw 536870912 =? 0 then mret tt else read_u32 little;; mret tt);;
      let base := N.land raw 268435455 mod 1000 in
      let dims := ordinates raw in
      let members (expect : N) :=
        n ← read_u32 little; times (S (length input)) n (child (geometry fuel) expect) in
      match base with
      | 1 => c ← read_coord little dims; mret (GPoint c)
      | 2 => l ← read_line little dims; mret (GLineString l)
      | 3 => p ← read_polygon little dims; mret (GPolygon p)
      | 4 => gs ← members 1; mret (GMultiPoint (omap as_point gs))
      | 5 => gs ← members 2; mret (GMultiLineString (omap as_line gs))
      | 6 => gs ← members 3; mret (GMultiPolygon (omap as_polygon gs))
      | 7 => n ← read_u32 little; gs ← times (S (length input)) n (geometry fuel);
             mret (GGeometryCollection gs)
      | other => fail (UnsupportedType other)
      end
  end.
End Reader.

(** Every nested geometry consumes a byte or more, so the length of the input
    bounds the depth. *)
Definition read `{GeoShapes} (input : bytes) : result (fault WkbError) Geometry :=
  (geometry input (S (length input)) O).1.

(** ** GeoPackage blobs *)

Inductive BlobError :=
| NoHeader
| ExtendedGeometry
| InvalidEnvelope (indicator : N)
| TruncatedBlob
| BadWkb (e : fault WkbError).

Definition byte_at (blob : bytes) (i : nat) : N := default 0 (Byte.to_N <$> blob !! i).

(** The length of the envelope that its indicator announces *)
Definition envelope_length (indicator : N) : result BlobError nat :=
  match indicator with
  | 0 => Ok 0%nat
  | 1 => Ok 32%nat
  | 2 | 3 => Ok 48%nat
  | 4 => Ok 64%nat
  | other => Err (InvalidEnvelope other)
  end.

Definition decode_blob `{GeoShapes} (blob : bytes) : result BlobError (option Geometry) :=
  err_if ((length blob <? 8)%nat || negb (bool_decide (take 2 blob = ["G"%byte; "P"%byte]))) NoHeader;;
  let flags := byte_at blob 3 in
  err_if (negb (N.land flags 32 =? 0)) ExtendedGeometry;;
  let empty := negb (N.land flags 16 =? 0) in
  envelope ← envelope_length (N.land (N.shiftr flags 1) 7);
  let start := (8 + envelope)%nat in
  if empty then Ok None
  else
    err_if (length blob <? start)%nat TruncatedBlob;;
    g ← map_err BadWkb (read (drop start blob));
    Ok (Some g).

(** [srs_id.to_le_bytes()] of an [i32] *)
Definition i32_to_le_bytes (n : Z) : bytes := u32_to_le_bytes (Z.to_N (n mod 2 ^ 32)).

Section Blob.
Context `{GeoShapes}.
Variable bounding_rect : Geometry -> option (Coord * Coord).   (* of the geo crate: min, max *)

Definition encode_blob (g : Geometry) (srs_id : Z) : bytes :=
  let rect := bounding_rect g in
  ["G"%byte; "P"%byte; x00; (if rect then x03 else x11)]
  ++ i32_to_le_bytes srs_id
  ++ match rect with
     | Some (low, high) =>
         concat (map (fun v => to_le_bytes (f64_bits v))
           [coord_x low; coord_x high; coord_y low; coord_y high])
     | None => []
     end
  ++ write g.
End Blob.

(** ** Bits *)

Lemma from_le_bytes_bound l : from_le_bytes l < 2 ^ (8 * N.of_nat (length l)).
Proof.
  induction l as [|b l IH]; [done|]. cbn [from_le_bytes length]. pose proof (byte_bound b).
  replace (8 * N.of_nat (S (length l))) with (8 + 8 * N.of_nat (length l)) by lia.
  rewrite N.pow_add_r. change (2 ^ 8) with 256. lia.
Qed.

Lemma u32_round_trip n : n < 2 ^ 32 -> from_le_bytes (u32_to_le_bytes n) = n.
Proof.
  intros Hn. pose proof (from_to_le_bytes n ltac:(lia)) as Hall. unfold to_le_bytes in Hall.
  unfold u32_to_le_bytes. cbn [from_le_bytes] in *. rewrite !to_N_u8 in *.
  rewrite !N.shiftr_div_pow2 in *.
  rewrite (N.div_small n (2 ^ 32)), (N.div_small n (2 ^ 40)), (N.div_small n (2 ^ 48)),
    (N.div_small n (2 ^ 56)) in Hall by lia. lia.
Qed.

Definition sign_bit (s : bool) : N := if s then 2 ^ 63 else 0.

Lemma bit_fields s e m : e < 2048 -> m < 2 ^ 52 ->
  let b := sign_bit s + (e * 2 ^ 52 + m) in
  N.testbit b 63 = s /\ N.land (N.shiftr b 52) 2047 = e /\ N.land b (N.ones 52) = m.
Proof.
  intros He Hm b. change 2047 with (N.ones 11). rewrite !N.land_ones, N.shiftr_div_pow2, N.testbit_eqb.
  unfold b, sign_bit. change (2 ^ 63) with 9223372036854775808. change (2 ^ 52) with 4503599627370496 in *.
  change (2 ^ 11) with 2048. split_and!; destruct s; lia.
Qed.

Lemma f64_bits_round_trip x : valid_binary 53 1024 x = true -> f64_from_bits (f64_bits x) = x.
Proof.
  destruct x as [s|s| |s m e]; [by destruct s|by destruct s|done|]. intros Hb. simpl in Hb.
  pose proof (bounded_significand m e Hb) as [Hm He]. apply bounded_spec in Hb as [Hc _].
  destruct (digits2_pos_bounds m) as [Hlo Hhi]. unfold f64_bits.
  destruct (N.ltb_spec (Npos m) (2 ^ 52)) as [Hs|Hs].
  - assert (Hd : (Zpos (digits2_pos m) <= 52)%Z).
    { destruct (Z.le_gt_cases (Zpos (digits2_pos m)) 52) as [|Hgt]; [done|].
      pose proof (Z.pow_le_mono_r 2 52 (Zpos (digits2_pos m) - 1) ltac:(lia) ltac:(lia)). lia. }
    assert (e = -1074)%Z as -> by lia.
    destruct (bit_fields s 0 (Npos m) ltac:(lia) Hs) as (H1 & H2 & H3). rewrite N.mul_0_l, N.add_0_l in H1, H2, H3.
    unfold f64_from_bits. fold (sign_bit s). rewrite H1, H2, H3. done.
  - assert (Hd : Zpos (digits2_pos m) = 53%Z) by (apply significand_digits; lia).
    set (f := Z.to_N (e + 1075)). assert (Hf : f < 2047) by lia.
    destruct (bit_fields s f (Npos m - 2 ^ 52) ltac:(lia) ltac:(lia)) as (H1 & H2 & H3).
    unfold f64_from_bits. fold (sign_bit s). rewrite H1, H2, H3.
    destruct (N.eqb_spec f 2047) as [|_]; [lia|]. destruct (N.eqb_spec f 0) as [|_]; [lia|].
    replace (Npos m - 2 ^ 52 + 2 ^ 52) with (Npos m) by lia. f_equal. lia.
Qed.

Lemma f64_from_bits_valid b : valid_binary 53 1024 (f64_from_bits b) = true.
Proof.
  unfold f64_from_bits. set (e := N.land (N.shiftr b 52) 2047). set (m := N.land b (N.ones 52)).
  assert (He : e < 2048) by (unfold e; change 2047 with (N.ones 11); rewrite N.land_ones; by apply N.mod_upper_bound).
  assert (Hm : m < 2 ^ 52) by (unfold m; rewrite N.land_ones; by apply N.mod_upper_bound).
  clearbody e m. destruct (N.eqb_spec e 2047) as [|H1]; [by destruct (m =? 0)|].
  destruct (N.eqb_spec e 0) as [->|H2].
  - destruct m as [|p] eqn:Hp; [done|]. simpl. apply bounded_spec.
    destruct (digits2_pos_bounds p) as [Hlo _].
    assert (Hd : (Zpos (digits2_pos p) <= 52)%Z); [|lia].
    destruct (Z.le_gt_cases (Zpos (digits2_pos p)) 52) as [|Hgt]; [done|].
    pose proof (Z.pow_le_mono_r 2 52 (Zpos (digits2_pos p) - 1) ltac:(lia) ltac:(lia)). lia.
  - change (2 ^ 52) with 4503599627370496 in *.
    destruct (m + 4503599627370496) as [|p] eqn:Hp; [lia|]. simpl. apply bounded_spec.
    assert (Hd : Zpos (digits2_pos p) = 53%Z) by (apply significand_digits; lia). lia.
Qed.

Lemma f64_bits_bound x : valid_binary 53 1024 x = true -> f64_bits x < 2 ^ 64.
Proof.
  destruct x as [s|s| |s m e]; [by destruct s|by destruct s|done|]. intros Hb. simpl in Hb.
  pose proof (bounded_significand m e Hb) as [Hm He]. unfold f64_bits.
  destruct (N.ltb_spec (Npos m) (2 ^ 52)); destruct s; lia.
Qed.

(** ** What a reader does with the bytes a writer produced *)

Section Geometries.
Context `{GeoShapes}.

(** Wherever they stand in the input, [m] reads the bytes [bs] as [a]. *)
Definition decodes {A} (m : bytes -> reader A) (bs : bytes) (a : A) : Prop :=
  forall before after, N.of_nat (length (before ++ bs ++ after)) <= u64_max ->
    m (before ++ bs ++ after) (length before) = (Ok a, length (before ++ bs)).

Lemma decodes_ret {A} (a : A) : decodes (fun _ => mret a) [] a.
Proof. intros before after _. by rewrite app_nil_r. Qed.

Lemma decodes_bind {A B} (m : bytes -> reader A) (f : bytes -> A -> reader B) bs a cs b :
  decodes m bs a -> decodes (fun i => f i a) cs b -> decodes (fun i => m i ≫= f i) (bs ++ cs) b.
Proof.
  intros Hm Hf before after Hl. apply st_bind_ok. rewrite <-app_assoc in Hl |- *.
  exists a, (length (before ++ bs)). split; [by apply Hm|].
  rewrite (app_assoc before bs), app_assoc in Hl |- *. specialize (Hf (before ++ bs) after).
  rewrite <-(app_assoc (before ++ bs)) in Hl |- *. rewrite (Hf Hl). by rewrite !app_assoc.
Qed.

(** The last value read is returned as it is. *)
Lemma decodes_map {A B} (m : bytes -> reader A) (f : A -> B) bs a :
  decodes m bs a -> decodes (fun i => x ← m i; mret (f x)) bs (f a).
Proof.
  intros Hm. rewrite <-(app_nil_r bs). by apply (decodes_bind m (fun _ x => mret (f x)) bs a), decodes_ret.
Qed.

Lemma decodes_unless {A} (m : bytes -> reader A) (bad : bytes -> bool) e bs a :
  (forall i, (length bs <= length i)%nat -> bad i = false) ->
  decodes m bs a -> decodes (fun i => if bad i then fail e else m i) bs a.
Proof.
  intros Hb Hm before after Hl. rewrite Hb; [by apply Hm|]. rewrite !length_app. lia.
Qed.

Lemma decodes_take n bs : length bs = n -> decodes (fun i => take_bytes i n) bs bs.
Proof.
  intros <- before after Hl. rewrite !length_app in Hl. unfold take_bytes, mbind, st_bind, get, lift.
  rewrite (proj2 (checked_add_u64_some _ _ _)) by (split; [done | lia]). cbn [ok_or].
  destruct (N.ltb_spec (N.of_nat (length (before ++ bs ++ after))) (N.of_nat (length before) + N.of_nat (length bs))) as [Hlt|_].
  { rewrite !length_app in Hlt. lia. }
  unfold put, mret, st_ret. rewrite drop_app_length, take_app_length. f_equal. rewrite length_app. lia.
Qed.

Lemma decodes_u32 n : n < 2 ^ 32 -> decodes (fun i => read_u32 i true) (u32_to_le_bytes n) n.
Proof.
  intros Hn. rewrite <-(u32_round_trip n Hn) at 2.
  by apply (decodes_map (fun i => take_bytes i 4) from_le_bytes), decodes_take.
Qed.

Definition number (x : f64) : Prop := valid_binary 53 1024 x = true.

Lemma decodes_f64 x : number x -> decodes (fun i => read_f64 i true) (to_le_bytes (f64_bits x)) x.
Proof.
  intros Hx. rewrite <-(f64_bits_round_trip x Hx) at 2. rewrite <-(from_to_le_bytes (f64_bits x)) at 2 by (by apply f64_bits_bound).
  by apply (decodes_map (fun i => take_bytes i 8) (fun b => f64_from_bits (from_le_bytes b))), decodes_take.
Qed.

(** Coordinates of binary64 numbers; lengths the count field can hold *)
Definition coord_ok (c : Coord) : Prop := number (coord_x c) /\ number (coord_y c).
Definition counted {A} (l : list A) : Prop := N.of_nat (length l) < 2 ^ 32.
Definition line_ok (l : LineString) : Prop := counted l /\ Forall coord_ok l.

Lemma decodes_coord c : coord_ok c -> decodes (fun i => read_coord i true 2) (coord c) c.
Proof.
  intros [Hx Hy]. destruct c as [x y]. unfold read_coord, coord.
  apply (decodes_bind (fun i => read_f64 i true) (fun i x => y ← read_f64 i true; mret (mkCoord x y)) _ x); [by apply decodes_f64|].
  by apply (decodes_map (fun i => read_f64 i true) (fun y => mkCoord x y)), decodes_f64.
Qed.

Lemma decodes_count {A B} (l : list A) (f : bytes -> N -> reader B) cs b : counted l ->
  decodes (fun i => f i (N.of_nat (length l))) cs b ->
  decodes (fun i => n ← read_u32 i true; f i n) (count (length l) ++ cs) b.
Proof.
  intros Hl. unfold count, wrap. rewrite N.mod_small by done.
  by apply decodes_bind, decodes_u32.
Qed.

(** The inputs of the items next to what they are read as *)
Lemma decodes_pairs {A} (item : bytes -> reader A) (ps : list (bytes * A)) :
  Forall (fun p => decodes item p.1 p.2 /\ p.1 <> []) ps ->
  decodes (fun i => times (S (length i)) (N.of_nat (length ps)) (item i)) (concat (map fst ps)) (map snd ps).
Proof.
  intros Hx. assert (Hfuel : forall fuel, (length ps <= fuel)%nat ->
    decodes (fun i => times fuel (N.of_nat (length ps)) (item i)) (concat (map fst ps)) (map snd ps)).
  { induction Hx as [|p ps [Hd _] _ IH]; intros [|fuel] Hf; cbn [length] in *; try lia; [apply decodes_ret..|].
    cbn [times]. destruct (N.eqb_spec (N.of_nat (S (length ps))) 0) as [|_]; [lia|].
    replace (N.of_nat (S (length ps)) - 1) with (N.of_nat (length ps)) by lia.
    apply (decodes_bind item (fun i x => xs ← times fuel (N.of_nat (length ps)) (item i); mret (x :: xs)) _ p.2); [done|].
    apply (decodes_map (fun i => times fuel (N.of_nat (length ps)) (item i)) (cons p.2)), IH. lia. }
  intros before after Hl. apply Hfuel; [|done]. rewrite !length_app.
  assert (length ps <= length (concat (map fst ps)))%nat; [|lia].
  clear -Hx. induction Hx as [|p ps [_ Hne] _ IH]; [done|]. cbn [map concat length]. rewrite length_app.
  destruct p.1; [done|]. cbn [length]. lia.
Qed.

Lemma decodes_items {T A} (xs : list T) (item : bytes -> reader A) (enc : T -> bytes) (inj : T -> A) :
  Forall (fun x => decodes item (enc x) (inj x) /\ enc x <> []) xs ->
  decodes (fun i => times (S (length i)) (N.of_nat (length xs)) (item i)) (concat (map enc xs)) (map inj xs).
Proof.
  intros Hx. pose proof (decodes_pairs item (map (fun x => (enc x, inj x)) xs)) as Hp.
  rewrite !map_map, length_map in Hp. by apply Hp, Forall_map.
Qed.

Lemma decodes_times {A} (item : bytes -> reader A) (enc : A -> bytes) xs :
  Forall (fun x => decodes item (enc x) x /\ enc x <> []) xs ->
  decodes (fun i => times (S (length i)) (N.of_nat (length xs)) (item i)) (concat (map enc xs)) xs.
Proof. intros Hx. pose proof (decodes_items xs item enc id Hx) as Hd. by rewrite map_id in Hd. Qed.

Lemma coord_length c : length (coord c) = 16%nat.
Proof. done. Qed.

Lemma ring_coords l : length (concat (map coord l)) = (16 * length l)%nat.
Proof. induction l as [|c l IH]; [done|]. cbn [map concat]. rewrite length_app, IH, coord_length. cbn [length]. lia. Qed.

Lemma decodes_line l : line_ok l -> decodes (fun i => read_line i true 2) (ring l) l.
Proof.
  intros [Hl Hc]. unfold read_line, ring. apply decodes_count; [done|]. apply decodes_unless.
  - intros i Hi. rewrite ring_coords in Hi. apply N.ltb_ge. lia.
  - apply (decodes_times (fun i => read_coord i true 2)). apply (Forall_impl _ _ _ Hc).
    intros c Hok. split; [by apply decodes_coord | done].
Qed.

(** A polygon of the geo_types crate: its rings are closed, and [Polygon::new]
    leaves closed rings as they are. *)
Definition polygon_ok (p : Polygon) : Prop :=
  polygon_new (exterior p) (interiors p) = p /\ N.of_nat (length (interiors p)) + 1 < 2 ^ 32
  /\ line_ok (exterior p) /\ Forall line_ok (interiors p).

Lemma decodes_polygon p : polygon_ok p -> decodes (fun i => read_polygon i true 2) (polygon_body p) p.
Proof.
  intros (Hn & Hc & He & Hi). unfold read_polygon, polygon_body.
  apply (decodes_count (exterior p :: interiors p)); [unfold counted; cbn [length]; lia|].
  cbn [length]. destruct (N.eqb_spec (N.of_nat (S (length (interiors p)))) 0) as [|_]; [lia|].
  replace (N.of_nat (S (length (interiors p))) - 1) with (N.of_nat (length (interiors p))) by lia.
  eapply (decodes_bind (fun i => read_line i true 2)
    (fun i e => holes ← times (S (length i)) (N.of_nat (length (interiors p))) (read_line i true 2); mret (polygon_new e holes)) _ (exterior p)).
  - by apply decodes_line.
  - assert (Hd : decodes (fun i => times (S (length i)) (N.of_nat (length (interiors p))) (read_line i true 2))
      (concat (map ring (interiors p))) (interiors p)).
    { apply (decodes_times (fun i => read_line i true 2)), (Forall_impl _ _ _ Hi).
      intros l Hok. split; [by apply decodes_line | done]. }
    apply (decodes_map _ (polygon_new (exterior p))) in Hd. by rewrite Hn in Hd.
Qed.

(** ** Geometries *)

(** What stays of a value: WKB has no segments, rectangles or triangles. *)
Fixpoint normal (g : Geometry) : Geometry :=
  match g with
  | GLine start stop => GLineString [start; stop]
  | GRect rect => GPolygon (rect_to_polygon rect)
  | GTriangle tri => GPolygon (triangle_to_polygon tri)
  | GGeometryCollection parts => GGeometryCollection (map normal parts)
  | _ => g
  end.

(** Values of the geo_types crate whose lengths the count fields hold *)
Fixpoint encodable (g : Geometry) : Prop :=
  match g with
  | GPoint p => coord_ok p
  | GLine start stop => coord_ok start /\ coord_ok stop
  | GLineString line => line_ok line
  | GPolygon polygon => polygon_ok polygon
  | GRect rect => polygon_ok (rect_to_polygon rect)
  | GTriangle tri => polygon_ok (triangle_to_polygon tri)
  | GMultiPoint points => counted points /\ Forall coord_ok points
  | GMultiLineString lines => counted lines /\ Forall line_ok lines
  | GMultiPolygon polygons => counted polygons /\ Forall polygon_ok polygons
  | GGeometryCollection parts => counted parts /\ foldr (fun g rest => encodable g /\ rest) True parts
  end.

Lemma encodable_parts parts : foldr (fun g rest => encodable g /\ rest) True parts <-> Forall encodable parts.
Proof. induction parts as [|g parts IH]; cbn [foldr]; [done|]. by rewrite IH, Forall_cons. Qed.

(** The header of a geometry of one of the seven codes *)
Definition body_of (k : N) (fuel : nat) (i : bytes) : reader Geometry :=
  let members (expect : N) :=
    n ← read_u32 i true; times (S (length i)) n (child (geometry i fuel) expect) in
  match k with
  | 1 => c ← read_coord i true 2; mret (GPoint c)
  | 2 => l ← read_line i true 2; mret (GLineString l)
  | 3 => p ← read_polygon i true 2; mret (GPolygon p)
  | 4 => gs ← members 1; mret (GMultiPoint (omap as_point gs))
  | 5 => gs ← members 2; mret (GMultiLineString (omap as_line gs))
  | 6 => gs ← members 3; mret (GMultiPolygon (omap as_polygon gs))
  | _ => n ← read_u32 i true; gs ← times (S (length i)) n (geometry i fuel); mret (GGeometryCollection gs)
  end.

Lemma decodes_headed k fuel bs g : 1 <= k <= 7 ->
  decodes (body_of k fuel) bs g -> decodes (fun i => geometry i (S fuel)) (header k ++ bs) g.
Proof.
  intros Hk Hb. unfold header. change ((x01 :: u32_to_le_bytes k) ++ bs) with ([x01] ++ u32_to_le_bytes k ++ bs).
  cbn [geometry]. eapply (decodes_bind (fun i => take_bytes i 1)); [by apply decodes_take|].
  change (from_le_bytes [x01]) with 1. cbn [byte_order].
  eapply (decodes_bind (fun i => read_u32 i true) _ _ k (bs) g); [apply decodes_u32; lia|].
  assert (Hcases : k = 1 \/ k = 2 \/ k = 3 \/ k = 4 \/ k = 5 \/ k = 6 \/ k = 7) by lia.
  destruct Hcases as [-> | [-> | [-> | [-> | [-> | [-> | ->]]]]]]; exact Hb.
Qed.

Lemma decodes_child fuel expect bs g : member expect g = true ->
  decodes (fun i => geometry i fuel) bs g -> decodes (fun i => child (geometry i fuel) expect) bs g.
Proof.
  intros Hm Hg. unfold child. rewrite <-(app_nil_r bs).
  apply (decodes_bind (fun i => geometry i fuel) (fun _ g => if member expect g then mret g else fail WrongMember) _ g).
  - done.
  - rewrite Hm. apply decodes_ret.
Qed.

Lemma omap_inj {T} (inj : T -> Geometry) (proj : Geometry -> option T) xs :
  (forall x, proj (inj x) = Some x) -> omap proj (map inj xs) = xs.
Proof. intros Hp. induction xs as [|x xs IH]; [done|]. cbn. by rewrite Hp, IH. Qed.

(** A collection of members of one kind *)
Lemma decodes_multi {T} k fuel expect (inj : T -> Geometry) (proj : Geometry -> option T)
    (build : list T -> Geometry) (ok : T -> Prop) (enc : T -> bytes) xs :
  1 <= k <= 7 ->
  (forall i, body_of k fuel i = (gs ← (n ← read_u32 i true; times (S (length i)) n (child (geometry i fuel) expect));
                                 mret (build (omap proj gs)))) ->
  (forall x, proj (inj x) = Some x /\ member expect (inj x) = true /\ enc x <> []) ->
  (forall x, ok x -> (length (enc x) <= fuel)%nat -> decodes (fun i => geometry i fuel) (enc x) (inj x)) ->
  counted xs -> Forall ok xs -> (length (concat (map enc xs)) <= fuel)%nat ->
  decodes (fun i => geometry i (S fuel)) (header k ++ count (length xs) ++ concat (map enc xs)) (build xs).
Proof.
  intros Hk Hbody Hx Hd Hc Hok Hl. apply decodes_headed; [done|].
  rewrite <-(omap_inj inj proj xs) at 3 by apply Hx.
  intros before after Hlen. rewrite Hbody. revert before after Hlen.
  apply (decodes_map (fun i => n ← read_u32 i true; times (S (length i)) n (child (geometry i fuel) expect))
    (fun gs => build (omap proj gs))).
  apply (decodes_count xs (fun i n => times (S (length i)) n (child (geometry i fuel) expect))); [done|].
  apply (decodes_items xs (fun i => child (geometry i fuel) expect)).
  clear -Hx Hd Hok Hl. induction Hok as [|x xs Hok _ IH]; constructor; cbn [map concat] in Hl; rewrite length_app in Hl.
  - split; [|apply Hx]. apply decodes_child; [apply Hx|]. apply Hd; [done | lia].
  - apply IH. lia.
Qed.

Lemma headed_length k bs : length (header k ++ bs) = (5 + length bs)%nat.
Proof. by rewrite length_app. Qed.

Lemma decodes_point fuel c : coord_ok c -> (21 <= fuel)%nat ->
  decodes (fun i => geometry i fuel) (header 1 ++ coord c) (GPoint c).
Proof.
  intros Hc Hf. destruct fuel as [|fuel]; [lia|]. apply decodes_headed; [lia|].
  by apply (decodes_map (fun i => read_coord i true 2) GPoint), decodes_coord.
Qed.

Lemma decodes_line_string fuel l : line_ok l -> (5 <= fuel)%nat ->
  decodes (fun i => geometry i fuel) (header 2 ++ ring l) (GLineString l).
Proof.
  intros Hl Hf. destruct fuel as [|fuel]; [lia|]. apply decodes_headed; [lia|].
  by apply (decodes_map (fun i => read_line i true 2) GLineString), decodes_line.
Qed.

Lemma decodes_polygon_geometry fuel p : polygon_ok p -> (5 <= fuel)%nat ->
  decodes (fun i => geometry i fuel) (header 3 ++ polygon_body p) (GPolygon p).
Proof.
  intros Hp Hf. destruct fuel as [|fuel]; [lia|]. apply decodes_headed; [lia|].
  by apply (decodes_map (fun i => read_polygon i true 2) GPolygon), decodes_polygon.
Qed.

Lemma write_nonempty g : (5 <= length (write_geometry g))%nat.
Proof. destruct g; cbn [write_geometry]; rewrite headed_length; lia. Qed.

Lemma decodes_geometry fuel g : encodable g -> (length (write_geometry g) <= fuel)%nat ->
  decodes (fun i => geometry i fuel) (write_geometry g) (normal g).
Proof.
  revert g. induction fuel as [|fuel IH]; intros g Hg Hf.
  { pose proof (write_nonempty g). lia. }
  destruct g; cbn [write_geometry encodable normal] in *; rewrite headed_length in Hf.
  - rewrite coord_length in Hf. apply decodes_point; [done | lia].
  - apply (decodes_line_string (S fuel) [start; stop]); [|lia].
    split; [unfold counted; cbn [length]; lia|]. apply Forall_cons. split; [apply Hg|]. apply Forall_singleton, Hg.
  - apply decodes_line_string; [done | lia].
  - apply decodes_polygon_geometry; [done | lia].
  - rewrite length_app in Hf. apply (decodes_multi 4 fuel 1 GPoint as_point GMultiPoint coord_ok); try done; try lia; [|apply Hg..].
    intros c Hc Hl. apply decodes_point; [done | exact Hl].
  - rewrite length_app in Hf. apply (decodes_multi 5 fuel 2 GLineString as_line GMultiLineString line_ok); try done; try lia; [|apply Hg..].
    intros l Hok Hl. rewrite headed_length in Hl. apply decodes_line_string; [done | lia].
  - rewrite length_app in Hf. apply (decodes_multi 6 fuel 3 GPolygon as_polygon GMultiPolygon polygon_ok); try done; try lia; [|apply Hg..].
    intros p Hok Hl. rewrite headed_length in Hl. apply decodes_polygon_geometry; [done | lia].
  - destruct Hg as [Hc Hp%encodable_parts]. rewrite length_app in Hf. apply decodes_headed; [lia|].
    unfold body_of.
    apply (decodes_count parts (fun i n => gs ← times (S (length i)) n (geometry i fuel); mret (GGeometryCollection gs))); [done|].
    apply (decodes_map (fun i => times (S (length i)) (N.of_nat (length parts)) (geometry i fuel)) GGeometryCollection).
    apply decodes_items. clear Hc.
    assert (Hl : (length (concat (map write_geometry parts)) <= fuel)%nat) by lia. clear Hf.
    induction Hp as [|g parts Hg _ IHp]; constructor; cbn [map concat] in Hl; rewrite length_app in Hl.
    + split; [apply IH; [done | lia]|]. pose proof (write_nonempty g). by destruct (write_geometry g); [simpl in *; lia|].
    + apply IHp. lia.
  - apply decodes_polygon_geometry; [done | lia].
  - apply decodes_polygon_geometry; [done | lia].
Qed.

(** What is read from the bytes of a value, whatever follows them *)
Lemma read_written g after : encodable g -> N.of_nat (length (write g ++ after)) <= u64_max ->
  read (write g ++ after) = Ok (normal g).
Proof.
  intros Hg Hl. unfold read. set (fuel := S (length (write g ++ after))).
  assert (Hf : (length (write_geometry g) <= fuel)%nat) by (unfold fuel; rewrite length_app; unfold write; lia).
  pose proof (decodes_geometry fuel g Hg Hf [] after Hl) as Hd. clearbody fuel.
  change (geometry (write g ++ after) fuel O) with (geometry ([] ++ write_geometry g ++ after) fuel (length (@nil byte))).
  by rewrite Hd.
Qed.

(** A value WKB can hold: binary64 ordinates, polygons of [Polygon::new] *)
Definition polygon_value (p : Polygon) : Prop :=
  exists e holes, p = polygon_new e holes /\ Forall coord_ok e /\ Forall (Forall coord_ok) holes.
Inductive wkb_value : Geometry -> Prop :=
| V_point c : coord_ok c -> wkb_value (GPoint c)
| V_line l : Forall coord_ok l -> wkb_value (GLineString l)
| V_polygon p : polygon_value p -> wkb_value (GPolygon p)
| V_points cs : Forall coord_ok cs -> wkb_value (GMultiPoint cs)
| V_lines ls : Forall (Forall coord_ok) ls -> wkb_value (GMultiLineString ls)
| V_polygons ps : Forall polygon_value ps -> wkb_value (GMultiPolygon ps)
| V_collection gs : Forall wkb_value gs -> wkb_value (GGeometryCollection gs).

(** ** What a reader does with any bytes *)

Section Soundness.
Variable input : bytes.

(** From any position from [lo] on, [m] moves at least [step] bytes forward inside
    the input or reports an error, and what it reads satisfies [P]. *)
Definition runs {A} (lo step : nat) (m : reader A) (P : A -> Prop) : Prop :=
  forall pos, (lo <= pos <= length input)%nat ->
    match m pos with
    | (Ok a, stop) => (pos + step <= stop <= length input)%nat /\ P a
    | (Err Panicked, _) => False
    | (Err (Error _), _) => True
    end.

Lemma runs_bind {A B} lo step step' (m : reader A) (f : A -> reader B) (P : A -> Prop) (Q : B -> Prop) :
  runs lo step m P -> (forall a, P a -> runs (lo + step) step' (f a) Q) -> runs lo (step + step') (m ≫= f) Q.
Proof.
  intros Hm Hf pos Hpos. specialize (Hm pos Hpos). unfold mbind, st_bind.
  destruct (m pos) as [[a|[e|]] stop]; [|done..]. destruct Hm as [Hs Ha].
  specialize (Hf a Ha stop ltac:(lia)). destruct (f a stop) as [[b|[e|]] stop']; [|done..].
  split; [lia | apply Hf].
Qed.

Lemma runs_ret {A} lo (a : A) (P : A -> Prop) : P a -> runs lo 0 (mret a) P.
Proof. intros Ha pos Hpos. simpl. split; [lia | done]. Qed.

(** The last value read is wrapped in a constructor. *)
Lemma runs_one {A B} lo step (m : reader A) (f : A -> B) (P : A -> Prop) (Q : B -> Prop) :
  runs lo step m P -> (forall a, P a -> Q (f a)) -> runs lo 0 (x ← m; mret (f x)) Q.
Proof.
  intros Hm Hf. apply (runs_bind lo 0 0 _ _ P); [|intros a Ha; by apply runs_ret, Hf].
  intros pos Hpos. specialize (Hm pos Hpos). destruct (m pos) as [[a|[e|]] stop]; [|done..].
  destruct Hm. split; [lia | done].
Qed.

Lemma runs_fail {A} lo step e (P : A -> Prop) : runs lo step (fail e) P.
Proof. done. Qed.

Lemma runs_weaken {A} lo lo' step step' (m : reader A) (P Q : A -> Prop) :
  (lo' <= lo)%nat -> (step <= step')%nat -> (forall a, P a -> Q a) -> runs lo' step' m P -> runs lo step m Q.
Proof.
  intros Hlo Hstep HPQ Hm pos Hpos. specialize (Hm pos ltac:(lia)).
  destruct (m pos) as [[a|[e|]] stop]; [|done..]. destruct Hm. split; [lia | auto].
Qed.

Lemma runs_vacuous {A} lo step (m : reader A) P : (length input < lo)%nat -> runs lo step m P.
Proof. intros Hlo pos Hpos. lia. Qed.

Lemma runs_take lo n : runs lo n (take_bytes input n) (fun bs => length bs = n).
Proof.
  intros pos Hpos. unfold take_bytes, mbind, st_bind, get, lift.
  destruct (checked_add_u64 _ _) as [stop|] eqn:Hs; [|done]. cbn [ok_or].
  apply checked_add_u64_some in Hs as [-> _].
  destruct (N.ltb_spec (N.of_nat (length input)) (N.of_nat pos + N.of_nat n)) as [|Hle]; [done|].
  unfold put, mret, st_ret. split; [lia|]. rewrite length_take, length_drop. lia.
Qed.

Lemma runs_u32 lo little : runs lo 4 (read_u32 input little) (fun _ => True).
Proof. apply (runs_bind lo 4 0 _ _ _ _ (runs_take lo 4)). intros b _. by apply runs_ret. Qed.

Lemma runs_f64 lo little : runs lo 8 (read_f64 input little) number.
Proof. apply (runs_bind lo 8 0 _ _ _ _ (runs_take lo 8)). intros b _. apply runs_ret, f64_from_bits_valid. Qed.

Lemma runs_times {A} fuel lo n (item : reader A) (P : A -> Prop) :
  runs lo 1 item P -> (length input - lo < fuel)%nat -> runs lo 0 (times fuel n item) (Forall P).
Proof.
  revert lo n. induction fuel as [|fuel IH]; intros lo n Hi Hf; [lia|]. cbn [times].
  destruct (n =? 0); [by apply runs_ret|].
  apply (runs_weaken lo lo 0 1 _ (Forall P) (Forall P)); [done | lia | done|].
  apply (runs_bind lo 1 0 _ _ P _ Hi). intros x Hx.
  destruct (decide (length input < lo + 1)%nat) as [|Hlo]; [by apply runs_vacuous|].
  apply (runs_bind (lo + 1) 0 0 _ _ (Forall P)).
  - apply IH; [|lia]. apply (runs_weaken _ lo 1 1 _ P P); [lia | done | done | exact Hi].
  - intros xs Hxs. apply runs_ret. by constructor.
Qed.

Lemma runs_coord lo little dims : runs lo 16 (read_coord input little dims) coord_ok.
Proof.
  apply (runs_bind lo 8 8 _ _ _ _ (runs_f64 lo little)). intros x Hx.
  apply (runs_bind _ 8 0 _ _ _ _ (runs_f64 _ little)). intros y Hy.
  apply (runs_bind _ 0 0 _ _ (fun _ => True)); [|intros _ _; by apply runs_ret].
  generalize (seq 2 (dims - 2)) (lo + 8 + 8)%nat. intros l. induction l as [|d l IH]; intros lo'; cbn [st_each].
  - by apply runs_ret.
  - apply (runs_bind lo' 0 0 _ _ (fun _ => True)); [|intros _ _; rewrite Nat.add_0_r; apply IH].
    apply (runs_bind lo' 0 0 _ _ number); [|intros _ _; by apply runs_ret].
    apply (runs_weaken lo' lo' 0 8 _ number number); [done | lia | done | apply runs_f64].
Qed.

Lemma runs_times_all {A} lo n (item : reader A) (P : A -> Prop) :
  (forall lo, runs lo 1 item P) -> runs lo 0 (times (S (length input)) n item) (Forall P).
Proof. intros Hi. apply runs_times; [apply Hi | lia]. Qed.

Lemma runs_line lo little dims : runs lo 4 (read_line input little dims) (Forall coord_ok).
Proof.
  apply (runs_bind lo 4 0 _ _ _ _ (runs_u32 lo little)). intros n _.
  destruct (_ <? n); [apply runs_fail|]. apply runs_times_all. intros lo'.
  apply (runs_weaken lo' lo' 1 16 _ coord_ok coord_ok); [done | lia | done | apply runs_coord].
Qed.

Lemma runs_polygon lo little dims : runs lo 4 (read_polygon input little dims) polygon_value.
Proof.
  apply (runs_bind lo 4 0 _ _ _ _ (runs_u32 lo little)). intros n _.
  destruct (n =? 0). { apply runs_ret. by exists [], []. }
  apply (runs_weaken (lo + 4) (lo + 4) 0 4 _ polygon_value polygon_value); [done | lia | done|].
  apply (runs_bind (lo + 4) 4 0 _ _ _ _ (runs_line _ little dims)). intros e He.
  apply (runs_bind _ 0 0 _ _ (Forall (Forall coord_ok))).
  - apply runs_times_all. intros lo'.
    apply (runs_weaken lo' lo' 1 4 _ (Forall coord_ok) (Forall coord_ok)); [done | lia | done | apply runs_line].
  - intros holes Hh. apply runs_ret. by exists e, holes.
Qed.

(** A collection whose members were checked by [child] *)
Lemma runs_members {T} lo little fuel expect (proj : Geometry -> option T) (build : list T -> Geometry) (P : T -> Prop) :
  (forall lo, (lo <= length input)%nat -> (length input - lo < fuel)%nat -> runs lo 1 (geometry input fuel) wkb_value) ->
  (forall g x, wkb_value g -> proj g = Some x -> P x) ->
  (forall xs, Forall P xs -> wkb_value (build xs)) -> (length input - lo < fuel)%nat -> (lo <= length input)%nat ->
  runs lo 0 (gs ← (n ← read_u32 input little; times (S (length input)) n (child (geometry input fuel) expect));
             mret (build (omap proj gs))) wkb_value.
Proof.
  intros Hg Hproj Hbuild Hf Hlo.
  apply (runs_bind lo 0 0 _ _ (Forall wkb_value)).
  - apply (runs_weaken lo lo 0 4 _ (Forall wkb_value) (Forall wkb_value)); [done | lia | done|].
    apply (runs_bind lo 4 0 _ _ _ _ (runs_u32 lo little)). intros n _.
    destruct (decide (length input < lo + 4)%nat) as [|Hlo4]; [by apply runs_vacuous|].
    apply runs_times; [|lia]. apply (runs_bind _ 1 0 _ _ wkb_value); [apply Hg; lia|].
    intros g Hv. destruct (member expect g); [by apply runs_ret | apply runs_fail].
  - intros gs Hgs. apply runs_ret, Hbuild. clear -Hgs Hproj. induction Hgs as [|g gs Hv _ IH]; [constructor|].
    cbn. destruct (proj g) as [x|] eqn:Hx; [|exact IH]. constructor; [by apply (Hproj g) | exact IH].
Qed.

Lemma value_point g c : wkb_value g -> as_point g = Some c -> coord_ok c.
Proof. destruct 1; simpl; naive_solver. Qed.
Lemma value_line g l : wkb_value g -> as_line g = Some l -> Forall coord_ok l.
Proof. destruct 1; simpl; naive_solver. Qed.
Lemma value_polygon g p : wkb_value g -> as_polygon g = Some p -> polygon_value p.
Proof. destruct 1; simpl; naive_solver. Qed.

Lemma runs_geometry fuel lo : (lo <= length input)%nat -> (length input - lo < fuel)%nat ->
  runs lo 1 (geometry input fuel) wkb_value.
Proof.
  revert lo. induction fuel as [|fuel IH]; intros lo Hlo Hf; [lia|]. cbn [geometry].
  apply (runs_bind lo 1 0 _ _ _ _ (runs_take lo 1)). intros order _.
  destruct (decide (length input < lo + 1)%nat) as [|Hlo1]; [by apply runs_vacuous|].
  apply (runs_bind _ 0 0 _ _ (fun _ => True)).
  { unfold byte_order. destruct (from_le_bytes order) as [|[]]; by apply runs_ret || apply runs_fail. }
  intros little _. rewrite Nat.add_0_r.
  apply (runs_bind _ 0 0 _ _ (fun _ => True)).
  { apply (runs_weaken (lo + 1) (lo + 1) 0 4 _ (fun _ => True) (fun _ => True)); [done | lia | done | apply runs_u32]. }
  intros raw _. rewrite Nat.add_0_r.
  apply (runs_bind _ 0 0 _ _ (fun _ => True)).
  { destruct (_ =? 0); [by apply runs_ret|].
    apply (runs_bind _ 0 0 _ _ (fun _ => True)); [|intros _ _; by apply runs_ret].
    apply (runs_weaken (lo + 1) (lo + 1) 0 4 _ (fun _ => True) (fun _ => True)); [done | lia | done | apply runs_u32]. }
  intros _ _. rewrite Nat.add_0_r. generalize (ordinates raw) (N.land raw 268435455 mod 1000). intros dims base.
  assert (Hm : forall expect T (proj : Geometry -> option T) build P, (forall g x, wkb_value g -> proj g = Some x -> P x) ->
    (forall xs, Forall P xs -> wkb_value (build xs)) ->
    runs (lo + 1) 0 (gs ← (n ← read_u32 input little; times (S (length input)) n (child (geometry input fuel) expect));
             mret (build (omap proj gs))) wkb_value).
  { intros expect T proj build P Hproj Hbuild. apply (runs_members _ _ _ _ _ _ P); [apply IH|..]; done || lia. }
  destruct base as [|[[[]|[]|]|[[]|[]|]|]]; try apply runs_fail.
  all: first
    [ apply (Hm _ _ as_point GMultiPoint coord_ok); [apply value_point | apply V_points]
    | apply (Hm _ _ as_line GMultiLineString (Forall coord_ok)); [apply value_line | apply V_lines]
    | apply (Hm _ _ as_polygon GMultiPolygon polygon_value); [apply value_polygon | apply V_polygons]
    | eapply runs_one; [eauto using runs_coord, runs_line, runs_polygon | by constructor]
    | idtac ].
  apply (runs_weaken (lo + 1) (lo + 1) 0 4 _ wkb_value wkb_value); [done | lia | done|].
  apply (runs_bind _ 4 0 _ _ _ _ (runs_u32 _ little)). intros n _.
  destruct (decide (length input < lo + 1 + 4)%nat) as [|Hlo4]; [by apply runs_vacuous|].
  eapply runs_one; [apply runs_times; [apply IH|]; lia | by constructor].
Qed.
End Soundness.

(** ** The properties *)

Lemma write_normal g : write_geometry (normal g) = write_geometry g.
Proof.
  revert g. fix IH 1. intros [| | | | | | |parts| |]; try reflexivity. cbn [normal write_geometry].
  rewrite length_map, map_map.
  assert (Hp : map (fun g => write_geometry (normal g)) parts = map write_geometry parts); [|by rewrite Hp].
  induction parts as [|g parts IHp]; [done|]. cbn [map]. by rewrite (IH g), IHp.
Qed.

Lemma normal_value g : wkb_value g -> normal g = g.
Proof.
  revert g. fix IH 2. intros g0 [| | | | | |gs Hgs]; try reflexivity. cbn [normal]. f_equal.
  induction Hgs as [|part gs Hg _ IHgs]; [done|]. cbn [map]. by rewrite (IH part Hg), IHgs.
Qed.

(** A blob whose header announces an envelope as long as the one it has *)
Lemma decode_framed v flags srs env rest n :
  length srs = 4%nat -> N.land (Byte.to_N flags) 32 = 0 ->
  envelope_length (N.land (N.shiftr (Byte.to_N flags) 1) 7) = Ok n -> length env = n ->
  decode_blob (["G"%byte; "P"%byte; v; flags] ++ srs ++ env ++ rest)
  = if negb (N.land (Byte.to_N flags) 16 =? 0) then Ok None
    else g ← map_err BadWkb (read rest); Ok (Some g).
Proof.
  intros Hs He Hn Hl. destruct srs as [|a [|b [|c [|d [|]]]]]; try done. unfold decode_blob.
  rewrite bool_decide_true by done. change (byte_at _ 3) with (Byte.to_N flags). rewrite He, Hn.
  set (blob := ["G"%byte; _; _; _] ++ _). assert (Hb : length blob = (8 + n + length rest)%nat).
  { unfold blob. rewrite !length_app. cbn [length]. lia. }
  assert (Hd : drop (8 + n) blob = rest).
  { unfold blob. cbn [app Nat.add drop]. by rewrite <-Hl, drop_app_length. }
  rewrite (proj2 (Nat.ltb_ge _ 8)) by lia. cbn [orb negb err_if mbind result_bind N.eqb].
  destruct (negb (_ =? 0)); [done|]. rewrite (proj2 (Nat.ltb_ge (length blob) (8 + n))) by lia.
  cbn [err_if mbind result_bind]. by rewrite Hd.
Qed.

(** C40: [read] never panics: the recursion and the loops end within the bytes there
    are, whatever the counts claim. What it returns is a value WKB can hold: every
    ordinate is a binary64 number, every polygon comes from [Polygon::new], and the
    members of a multi-geometry are of its kind. *)
Theorem wkb_read_typed (input : bytes) :
  match read input with
  | Ok g => wkb_value g
  | Err (Error _) => True
  | Err Panicked => False
  end.
Proof.
  pose proof (runs_geometry input (S (length input)) 0 ltac:(lia) ltac:(lia) 0%nat ltac:(lia)) as Hr.
  unfold read. destruct (geometry input (S (length input)) 0%nat) as [[g|[e|]] stop]; [apply Hr | done | done].
Qed.

(** C36: a geometry is read back from its bytes, whatever follows them: the value
    itself, with segments, rectangles and triangles as the line strings and polygons
    WKB has for them, and with the same bytes again. A GeoPackage blob gives it back
    under any reference system, or no geometry when it has no bounding rectangle. *)
Theorem wkb_round_trip (g : Geometry) (after : bytes) (bounding_rect : Geometry -> option (Coord * Coord)) (srs_id : Z) :
  encodable g -> N.of_nat (length (write g ++ after)) <= u64_max ->
  read (write g ++ after) = Ok (normal g)
  /\ write (normal g) = write g
  /\ (wkb_value g -> normal g = g)
  /\ decode_blob (encode_blob bounding_rect g srs_id ++ after)
     = Ok (if bounding_rect g then Some (normal g) else None).
Proof.
  intros Hg Hl. pose proof (read_written g after Hg Hl) as Hr.
  split_and!; [done | apply write_normal | apply normal_value|].
  unfold encode_blob, i32_to_le_bytes. rewrite <-!app_assoc.
  destruct (bounding_rect g) as [[low high]|].
  - rewrite (decode_framed x00 x03 _ _ (write g ++ after) 32); try done. by rewrite Hr.
  - by rewrite (decode_framed x00 x11 _ [] (write g ++ after) 0).
Qed.

(** A collection in a collection, [k] times *)
Fixpoint nested (k : nat) : Geometry :=
  GGeometryCollection (match k with O => [] | S k => [nested k] end).

Lemma nested_length k : length (write (nested k)) = (9 * S k)%nat.
Proof.
  unfold write. induction k as [|k IH]; [done|]. cbn [nested write_geometry map concat].
  rewrite headed_length, !length_app, IH. cbn [length count u32_to_le_bytes]. lia.
Qed.

Lemma nested_encodable k : encodable (nested k).
Proof. induction k as [|k IH]; cbn [nested encodable foldr]; split; try done; unfold counted; cbn [length]; lia. Qed.

(** Nothing bounds the depth of the recursion: nine bytes a level are enough. *)
Theorem nested_collections_are_read k : N.of_nat (9 * S k) <= u64_max ->
  read (write (nested k)) = Ok (nested k) /\ length (write (nested k)) = (9 * S k)%nat.
Proof.
  intros Hk. split; [|apply nested_length]. rewrite <-(app_nil_r (write (nested k))).
  rewrite read_written; [|apply nested_encodable|].
  - f_equal. clear Hk. induction k as [|k IH]; [done|]. cbn [nested normal map]. by rewrite IH.
  - by rewrite app_nil_r, nested_length.
Qed.
End Geometries.

(** ** The properties at concrete inputs *)

Module Examples.
Definition close (line : LineString) : LineString :=
  match line, last line with
  | first :: _, Some final =>
      if f64_eqb (coord_x first) (coord_x final) && f64_eqb (coord_y first) (coord_y final)
      then line else line ++ [first]
  | _, _ => line
  end.
Definition at_xy (x y : Z) : Coord := mkCoord (f64_of_Z x) (f64_of_Z y).
Definition box (low high : Coord) : Polygon :=
  mkPolygon (close [mkCoord (coord_x high) (coord_y low); high; mkCoord (coord_x low) (coord_y high); low]) [].
#[export] Instance shapes : GeoShapes := {|
  Rect := Coord * Coord; Triangle := list Coord;
  polygon_new e holes := mkPolygon (close e) (map close holes);
  rect_to_polygon r := box r.1 r.2;
  triangle_to_polygon t := mkPolygon (close t) [] |}.

Definition square : Polygon :=
  polygon_new [at_xy 0 0; at_xy 4 0; at_xy 4 4] [[at_xy 1 1; at_xy 2 1; at_xy 2 2]].
Definition sample : Geometry :=
  GGeometryCollection [GPoint (at_xy 136 (-35)); GLine (at_xy 0 0) (at_xy 1 1); GPolygon square;
    GRect (at_xy 0 0, at_xy 2 3); GMultiPolygon [square]; GGeometryCollection []].

(** [drops_z_from_iso_wkb] and [rejects_truncated_input] of the tests *)
Example drops_z_from_iso_wkb :
  read (x01 :: u32_to_le_bytes 1001 ++ concat (map (fun v => to_le_bytes (f64_bits (f64_of_Z v))) [1; 2; 3]%Z))
  = Ok (GPoint (at_xy 1 2)).
Proof. vm_compute. reflexivity. Qed.
Example rejects_truncated_input : read [x01; x01; x00; x00; x00; x00] = Err (Error TruncatedGeometry).
Proof. reflexivity. Qed.

Lemma wkb_round_trip_witness :
  read (write sample ++ [x00]) = Ok (normal sample)
  /\ decode_blob (encode_blob (fun _ => Some (at_xy 0 (-35), at_xy 136 4)) sample 4326 ++ [x00])
     = Ok (Some (normal sample)).
Proof.
  assert (Hok : encodable sample).
  { unfold sample. cbn [encodable foldr]. unfold polygon_ok, line_ok, counted, coord_ok, number. cbn.
    repeat first [split | constructor]; try reflexivity; vm_compute; reflexivity. }
  destruct (wkb_round_trip sample [x00] (fun _ => Some (at_xy 0 (-35), at_xy 136 4)) 4326 Hok) as (Hr & _ & _ & Hb).
  - vm_compute. discriminate.
  - split; [exact Hr | exact Hb].
Defined.
End Examples.
