(* ===== verification/Proj.v ===== *)
(** * The toolkit's coordinate reference systems (crates/genegis-toolkit/src/proj.rs)

    The errors of the toolkit (error.rs), the identifiers proj.rs accepts, its
    registry of systems, the choice of a metric system, the transformation of
    coordinates, and the WKT definitions it writes and recognises. The precision of
    the transcendental functions is unspecified in Rust: they are the class
    [Trigonometry]. *)

From Stdlib Require Import Ascii.
From S2P Require Import Prelude RustStd Crs Rounding Float.
Local Open Scope N_scope.

(** ** [ToolkitError] *)

Inductive ToolkitError :=
| TE_Import (format reason : string)
| TE_UnsupportedFormat (reason : string)
| TE_CrsRequired (reason : string)
| TE_UnsupportedCrs (crs : string)
| TE_InvalidCoordinate (reason : string)
| TE_Unit (reason : string)
| TE_Parameter (operation reason : string)
| TE_UnknownReference (reference : string)
| TE_Plan (reason : string)
| TE_Verification (reason : string)
| TE_Expression (reason : string)
| TE_Provider (reason : string)
| TE_Unresolved (reason : string)
| TE_Export (format reason : string)
| TE_Command (reason : string)
| TE_Io (reason : string).

(** ** Data *)

Inductive AxisUnit := AxisDegrees | AxisMetres.
#[export] Instance AxisUnit_eq_dec : EqDecision AxisUnit.
Proof. solve_decision. Defined.

Inductive Projection :=
| Geographic
| WebMercator
| TransverseMercator (lat0 lon0 k0 false_easting false_northing : f64).

Record CrsInfo := mkInfo {
  info_epsg : N; info_id : string; info_name : string; info_unit : AxisUnit; info_projection : Projection }.

Definition is_geographic (c : CrsInfo) : bool := bool_decide (info_unit c = AxisDegrees).

(** [n as f64] and the quotients of small integers the table is written with *)
Definition num (n : Z) : f64 := f64_of_Z n.
Definition frac (p q : Z) : f64 := f64_div (num p) (num q).

Definition JAPAN_PLANE_ORIGINS : list (f64 * f64) :=
  [(num 33, frac 259 2); (num 33, num 131); (num 36, f64_add (num 132) (frac 1 6)); (num 33, frac 267 2);
   (num 36, f64_add (num 134) (frac 1 3)); (num 36, num 136); (num 36, f64_add (num 137) (frac 1 6));
   (num 36, frac 277 2); (num 36, f64_add (num 139) (frac 5 6)); (num 40, f64_add (num 140) (frac 5 6));
   (num 44, frac 561 4); (num 44, frac 569 4); (num 44, frac 577 4); (num 26, num 142);
   (num 26, frac 255 2); (num 26, num 124); (num 26, num 131); (num 20, num 136); (num 26, num 154)].

Definition ROMAN : list string :=
  ["I"; "II"; "III"; "IV"; "V"; "VI"; "VII"; "VIII"; "IX"; "X"; "XI"; "XII"; "XIII"; "XIV"; "XV";
   "XVI"; "XVII"; "XVIII"; "XIX"].

(** ** Identifiers *)

(** [upper.rsplit(|c| !c.is_ascii_digit()).find(|part| !part.is_empty())]: the last
    run of digits; [current] is the run that is being read, [found] the last one
    that ended. *)
Fixpoint last_digits (s current found : string) : string :=
  match s with
  | EmptyString => if is_empty current then found else current
  | String a s =>
      if is_ascii_digit a then last_digits s (current +:+ String a "") found
      else last_digits s "" (if is_empty current then found else current)
  end.

Definition parse_epsg (value : string) : result ToolkitError N :=
  let trimmed := trim value in
  let upper := to_ascii_uppercase trimmed in
  if contains_str "CRS84" upper then Ok 4326
  else
    let digits := last_digits upper "" "" in
    let looks_epsg := starts_with "EPSG" upper || contains_str "/EPSG/" upper || contains_str ":EPSG:" upper
                      || string_forall is_ascii_digit trimmed in
    err_if (negb looks_epsg || is_empty digits) (TE_UnsupportedCrs value);;
    ok_or (parse_N u32_max digits) (TE_UnsupportedCrs value).

(** ** The registry *)

Definition utm_central_meridian (zone : N) : f64 :=
  f64_sub (f64_mul (f64_of_Z (Z.of_N zone)) (num 6)) (num 183).

(** The doubles nearest to [0.9999] and [0.9996] *)
Definition k0_plane : f64 := f64_lit 9006298534815518 (-53).
Definition k0_utm : f64 := f64_lit 9003596375039096 (-53).

(** [info(name, AxisUnit::Metres, tm(..))]; [None] is an index out of bounds. *)
Definition metric_info (epsg : N) (name : string) (p : Projection) : CrsInfo :=
  mkInfo epsg ("EPSG:" +:+ show_N epsg) name AxisMetres p.
Definition utm_info (epsg zone : N) (name : string) (false_northing : Z) : CrsInfo :=
  metric_info epsg name
    (TransverseMercator (num 0) (utm_central_meridian zone) k0_utm (num 500000) (num false_northing)).
Definition geographic_info (epsg : N) (name : string) : CrsInfo :=
  mkInfo epsg ("EPSG:" +:+ show_N epsg) name AxisDegrees Geographic.

Definition tokyo_datum : string :=
  " (Tokyo datum requires a grid shift that GeneGIS does not apply)".

Definition lookup_epsg (epsg : N) : outcome ToolkitError CrsInfo :=
  if epsg =? 4326 then Done (geographic_info epsg "WGS 84")
  else if epsg =? 4612 then Done (geographic_info epsg "JGD2000")
  else if epsg =? 6668 then Done (geographic_info epsg "JGD2011")
  else if (epsg =? 3857) || (epsg =? 900913) then
    Done (metric_info epsg "WGS 84 / Pseudo-Mercator" WebMercator)
  else if in_range 6669 6687 epsg || in_range 2443 2461 epsg then
    let '(base, datum) := if 6669 <=? epsg then (6669, "JGD2011") else (2443, "JGD2000") in
    let zone := N.to_nat (epsg - base) in
    '(lat0, lon0) ← expect (JAPAN_PLANE_ORIGINS !! zone);
    roman ← expect (ROMAN !! zone);
    Done (metric_info epsg (datum +:+ " / Japan Plane Rectangular CS " +:+ roman)
            (TransverseMercator lat0 lon0 k0_plane (num 0) (num 0)))
  else if in_range 32601 32660 epsg then
    let zone := epsg - 32600 in
    Done (utm_info epsg zone ("WGS 84 / UTM zone " +:+ show_N zone +:+ "N") 0)
  else if in_range 32701 32760 epsg then
    let zone := epsg - 32700 in
    Done (utm_info epsg zone ("WGS 84 / UTM zone " +:+ show_N zone +:+ "S") 10000000)
  else if in_range 3097 3101 epsg || in_range 6688 6692 epsg then
    let '(base, datum) := if 6688 <=? epsg then (6688, "JGD2011") else (3097, "JGD2000") in
    let zone := 51 + epsg - base in
    Done (utm_info epsg zone (datum +:+ " / UTM zone " +:+ show_N zone +:+ "N") 0)
  else if (epsg =? 4301) || in_range 30161 30179 epsg then
    Failed (TE_UnsupportedCrs ("EPSG:" +:+ show_N epsg +:+ tokyo_datum))
  else Failed (TE_UnsupportedCrs ("EPSG:" +:+ show_N epsg)).

Definition lookup (value : string) : outcome ToolkitError CrsInfo :=
  epsg ← attempt (parse_epsg value); lookup_epsg epsg.

(** [((lon + 180) / 6).floor() as i64).clamp(0, 59) as u32 + 1] *)
Definition utm_zone (lon : f64) : N :=
  Z.to_N (Z.max 0 (Z.min 59 (f64_as_i64 (f64_floor (f64_div (f64_add lon (num 180)) (num 6)))))) + 1.
(** A failing lookup is the [expect] of the source. *)
Definition metric_crs_for (lon lat : f64) : outcome ToolkitError CrsInfo :=
  let zone := utm_zone lon in
  let epsg := if f64_leb f64_zero lat then 32600 + zone else 32700 + zone in
  match lookup_epsg epsg with Done info => Done info | _ => Panic end.

(** ** Coordinate transformations *)

Class Trigonometry := {
  f64_sin : f64 -> f64; f64_cos : f64 -> f64; f64_tan : f64 -> f64;
  f64_asin : f64 -> f64; f64_atan : f64 -> f64; f64_atan2 : f64 -> f64 -> f64;
  f64_sinh : f64 -> f64; f64_cosh : f64 -> f64; f64_atanh : f64 -> f64;
  f64_exp : f64 -> f64; f64_ln : f64 -> f64 }.

Definition f64_pi : f64 := f64_lit 7074237752028440 (-51).
Definition frac_pi_2 : f64 := f64_lit 7074237752028440 (-52).
Definition frac_pi_4 : f64 := f64_lit 7074237752028440 (-53).
Definition to_radians (x : f64) : f64 := f64_mul x (f64_div f64_pi (num 180)).
Definition to_degrees (x : f64) : f64 := f64_mul x (f64_div (num 180) f64_pi).
Definition square_root : f64 -> f64 := SFsqrt 53 1024.

Definition GRS80_A : f64 := num 6378137.
Definition GRS80_F : f64 := f64_div (num 1) (frac 298257222101 1000000000).

Section Transformations.
Context `{F64Display} `{Trigonometry}.
#[local] Infix "+." := f64_add (at level 50, left associativity).
#[local] Infix "-." := f64_sub (at level 50, left associativity).
#[local] Infix "*." := f64_mul (at level 40, left associativity).
#[local] Infix "/." := f64_div (at level 40, left associativity).

(** Krüger's series *)
Record KruegerSeries := mkSeries { a_hat : f64; alpha : list f64; beta : list f64; delta : list f64; e2n : f64 }.
Definition krueger : KruegerSeries :=
  let n := GRS80_F /. (num 2 -. GRS80_F) in
  let n2 := n *. n in let n3 := n2 *. n in let n4 := n3 *. n in
  {| a_hat := GRS80_A /. (num 1 +. n) *. (num 1 +. n2 /. num 4 +. n4 /. num 64);
     alpha := [n /. num 2 -. num 2 *. n2 /. num 3 +. num 5 *. n3 /. num 16 +. num 41 *. n4 /. num 180;
               num 13 *. n2 /. num 48 -. num 3 *. n3 /. num 5 +. num 557 *. n4 /. num 1440;
               num 61 *. n3 /. num 240 -. num 103 *. n4 /. num 140;
               num 49561 *. n4 /. num 161280];
     beta := [n /. num 2 -. num 2 *. n2 /. num 3 +. num 37 *. n3 /. num 96 -. n4 /. num 360;
              n2 /. num 48 +. n3 /. num 15 -. num 437 *. n4 /. num 1440;
              num 17 *. n3 /. num 480 -. num 37 *. n4 /. num 840;
              num 4397 *. n4 /. num 161280];
     delta := [num 2 *. n -. num 2 *. n2 /. num 3 -. num 2 *. n3 +. num 116 *. n4 /. num 45;
               num 7 *. n2 /. num 3 -. num 8 *. n3 /. num 5 -. num 227 *. n4 /. num 45;
               num 56 *. n3 /. num 15 -. num 136 *. n4 /. num 35;
               num 4279 *. n4 /. num 630];
     e2n := num 2 *. square_root n /. (num 1 +. n) |}.
(** [for (j, c) in coefficients.iter().enumerate()], with k = 2 (j + 1) *)
Definition harmonics {A} (f : A -> f64 -> f64 -> A) (x : A) (coefficients : list f64) : A :=
  foldl (fun x kc => f x kc.1 kc.2) x (imap (fun j c => (num 2 *. (num (Z.of_nat j) +. num 1), c)) coefficients).

Definition conformal_t (series : KruegerSeries) (lat : f64) : f64 :=
  let s := f64_sin lat in
  f64_sinh (f64_atanh s -. e2n series *. f64_atanh (e2n series *. s)).
Definition meridian_arc (series : KruegerSeries) (lat : f64) : f64 :=
  let xi := f64_atan (conformal_t series lat) in
  a_hat series *. harmonics (fun sum k a => sum +. a *. f64_sin (k *. xi)) xi (alpha series).

Definition tm_forward (lon lat lat0 lon0 k0 false_easting false_northing : f64) : f64 * f64 :=
  let series := krueger in
  let phi := to_radians lat in
  let dlambda := to_radians (lon -. lon0) in
  let t := conformal_t series phi in
  let xi_p := f64_atan2 t (f64_cos dlambda) in
  let eta_p := f64_atanh (f64_sin dlambda /. square_root (num 1 +. t *. t)) in
  let '(xi, eta) := harmonics (fun '(xi, eta) k a =>
      (xi +. a *. f64_sin (k *. xi_p) *. f64_cosh (k *. eta_p),
       eta +. a *. f64_cos (k *. xi_p) *. f64_sinh (k *. eta_p))) (xi_p, eta_p) (alpha series) in
  let origin := meridian_arc series (to_radians lat0) in
  (false_easting +. k0 *. a_hat series *. eta, false_northing +. k0 *. (a_hat series *. xi -. origin)).

Definition tm_inverse (x y lat0 lon0 k0 false_easting false_northing : f64) : f64 * f64 :=
  let series := krueger in
  let origin := meridian_arc series (to_radians lat0) in
  let xi := ((y -. false_northing) /. k0 +. origin) /. a_hat series in
  let eta := (x -. false_easting) /. (k0 *. a_hat series) in
  let '(xi_p, eta_p) := harmonics (fun '(xi_p, eta_p) k b =>
      (xi_p -. b *. f64_sin (k *. xi) *. f64_cosh (k *. eta),
       eta_p -. b *. f64_cos (k *. xi) *. f64_sinh (k *. eta))) (xi, eta) (beta series) in
  let chi := f64_asin (f64_sin xi_p /. f64_cosh eta_p) in
  let phi := harmonics (fun phi k d => phi +. d *. f64_sin (k *. chi)) chi (delta series) in
  let lambda := f64_atan2 (f64_sinh eta_p) (f64_cos xi_p) in
  (lon0 +. to_degrees lambda, to_degrees phi).

Definition coordinate_text (x y : f64) : string := "(" +:+ f64_display x +:+ ", " +:+ f64_display y +:+ ")".
Definition between (low high : Z) (x : f64) : bool := f64_leb (num low) x && f64_leb x (num high).
Definition validate_lon_lat (lon lat : f64) : result ToolkitError unit :=
  err_if (negb (f64_is_finite lon) || negb (f64_is_finite lat) || negb (between (-180) 180 lon) || negb (between (-90) 90 lat))
    (TE_InvalidCoordinate ("longitude/latitude " +:+ coordinate_text lon lat +:+ " is outside the geographic domain")).

Definition web_latitude : f64 := frac 8505112878 100000000.
Definition to_geographic (crs : CrsInfo) (x y : f64) : result ToolkitError (f64 * f64) :=
  match info_projection crs with
  | Geographic => validate_lon_lat x y;; Ok (x, y)
  | WebMercator =>
      Ok (to_degrees (x /. GRS80_A), to_degrees (num 2 *. f64_atan (f64_exp (y /. GRS80_A)) -. frac_pi_2))
  | TransverseMercator lat0 lon0 k0 false_easting false_northing =>
      Ok (tm_inverse x y lat0 lon0 k0 false_easting false_northing)
  end.
Definition from_geographic (crs : CrsInfo) (lon lat : f64) : result ToolkitError (f64 * f64) :=
  validate_lon_lat lon lat;;
  match info_projection crs with
  | Geographic => Ok (lon, lat)
  | WebMercator =>
      let lat := f64_clamp (f64_neg web_latitude) web_latitude lat in
      Ok (GRS80_A *. to_radians lon, GRS80_A *. f64_ln (f64_tan (frac_pi_4 +. to_radians lat /. num 2)))
  | TransverseMercator lat0 lon0 k0 false_easting false_northing =>
      Ok (tm_forward lon lat lat0 lon0 k0 false_easting false_northing)
  end.
Definition transform_coord (from to : CrsInfo) (x y : f64) : result ToolkitError (f64 * f64) :=
  err_if (negb (f64_is_finite x) || negb (f64_is_finite y)) (TE_InvalidCoordinate (coordinate_text x y));;
  if (info_epsg from =? info_epsg to)%N then Ok (x, y) else
  '(lon, lat) ← to_geographic from x y;
  from_geographic to lon lat.
End Transformations.

(** ** WKT definitions *)

Section Wkt.
Context `{F64Display}.

(** A text literal of the source, with its double quotes written as single ones *)
Definition dq (s : string) : string :=
  string_map (fun a => if bool_decide (a = "'"%char) then Ascii.ascii_of_N 34 else a) s.

Definition geographic_wkt (epsg : N) : string :=
  let '(name, datum, spheroid, flattening) :=
    if epsg =? 6668 then ("JGD2011", "Japanese_Geodetic_Datum_2011", "GRS 1980", "298.257222101")
    else if epsg =? 4612 then ("JGD2000", "Japanese_Geodetic_Datum_2000", "GRS 1980", "298.257222101")
    else ("WGS 84", "WGS_1984", "WGS 84", "298.257223563") in
  dq "GEOGCS['" +:+ name +:+ dq "',DATUM['" +:+ datum +:+ dq "',SPHEROID['" +:+ spheroid
  +:+ dq "',6378137," +:+ flattening
  +:+ dq "]],PRIMEM['Greenwich',0],UNIT['degree',0.0174532925199433],AUTHORITY['EPSG','"
  +:+ show_N epsg +:+ dq "']]".

Definition base_epsg (epsg : N) : N :=
  if in_range 6669 6692 epsg then 6668
  else if in_range 2443 2461 epsg || in_range 3097 3101 epsg then 4612 else 4326.

Definition to_wkt (crs : CrsInfo) : string :=
  let base := base_epsg (info_epsg crs) in
  match info_projection crs with
  | Geographic => geographic_wkt (info_epsg crs)
  | WebMercator =>
      dq "PROJCS['" +:+ info_name crs +:+ dq "'," +:+ geographic_wkt 4326
      +:+ dq ",PROJECTION['Mercator_1SP'],PARAMETER['central_meridian',0],PARAMETER['scale_factor',1],PARAMETER['false_easting',0],PARAMETER['false_northing',0],UNIT['metre',1],EXTENSION['PROJ4','+proj=merc +a=6378137 +b=6378137 +lat_ts=0 +lon_0=0 +x_0=0 +y_0=0 +k=1 +units=m +nadgrids=@null +no_defs'],AUTHORITY['EPSG','"
      +:+ show_N (info_epsg crs) +:+ dq "']]"
  | TransverseMercator lat0 lon0 k0 false_easting false_northing =>
      dq "PROJCS['" +:+ info_name crs +:+ dq "'," +:+ geographic_wkt base
      +:+ dq ",PROJECTION['Transverse_Mercator'],PARAMETER['latitude_of_origin'," +:+ f64_display lat0
      +:+ dq "],PARAMETER['central_meridian'," +:+ f64_display lon0
      +:+ dq "],PARAMETER['scale_factor'," +:+ f64_display k0
      +:+ dq "],PARAMETER['false_easting'," +:+ f64_display false_easting
      +:+ dq "],PARAMETER['false_northing'," +:+ f64_display false_northing
      +:+ dq "],UNIT['metre',1],AUTHORITY['EPSG','" +:+ show_N (info_epsg crs) +:+ dq "']]"
  end.
End Wkt.

(** What follows the last, and the first, occurrence of a pattern: [str::rfind], [find] *)
Fixpoint after_last (p s : string) : option string :=
  match s with
  | EmptyString => strip_prefix p s
  | String _ s' => match after_last p s' with Some rest => Some rest | None => strip_prefix p s end
  end.
Fixpoint after_first (p s : string) : option string :=
  match strip_prefix p s with
  | Some rest => Some rest
  | None => match s with String _ s' => after_first p s' | EmptyString => None end
  end.

(** [skip_while] and [take_while] *)
Fixpoint skip_while (f : ascii -> bool) (s : string) : string :=
  match s with String a s' => if f a then skip_while f s' else s | EmptyString => s end.
Fixpoint take_while (f : ascii -> bool) (s : string) : string :=
  match s with String a s' => if f a then String a (take_while f s') else "" | EmptyString => "" end.

(** [upper.chars().map(|c| if c.is_ascii_alphanumeric() { c } else { '_' })]: the
    continuation bytes of a character vanish. *)
Fixpoint underscored (s : string) : string :=
  match s with
  | EmptyString => EmptyString
  | String a s =>
      let code := Ascii.N_of_ascii a in
      if is_ascii_digit a || is_ascii_lowercase a || is_ascii_uppercase a then String a (underscored s)
      else if (128 <=? code) && (code <? 192) then underscored s
      else String "_" (underscored s)
  end.

(** The code after the last of the two markers *)
Definition authority_code (upper : string) : option N :=
  foldl (fun explicit marker =>
    match after_last marker upper with
    | Some rest => parse_N u32_max (take_while is_ascii_digit (skip_while (fun a => negb (is_ascii_digit a)) rest))
    | None => explicit
    end) None [dq "AUTHORITY['EPSG',"; dq "ID['EPSG',"].

(** The plane rectangular zones; [zone] is the index of the head of the list. *)
Fixpoint plane_code (name : string) (zone : N) (romans : list string) : option N :=
  match romans with
  | [] => None
  | roman :: romans =>
      let plane := ["JAPAN_ZONE_" +:+ show_N (zone + 1) +:+ "_";
                    "JAPAN_PLANE_RECTANGULAR_CS_" +:+ roman +:+ "_";
                    "JAPAN_PLANE_RECTANGULAR_CS" +:+ roman +:+ "_"] in
      if existsb (fun needle => contains_str needle name) plane then
        if contains_str "2011" name then Some (6669 + zone)
        else if contains_str "2000" name then Some (2443 + zone)
        else plane_code name (zone + 1) romans
      else plane_code name (zone + 1) romans
  end.

Definition jgd2011_named (name : string) : bool := contains_str "JGD_2011" name || contains_str "JGD2011" name.
Definition jgd2000_named (name : string) : bool := contains_str "JGD_2000" name || contains_str "JGD2000" name.

(** [name[index + "UTM_ZONE_".len()..]] is [rest]. *)
Definition utm_code (name rest : string) : option N :=
  let digits := take_while is_ascii_digit rest in
  zone ← parse_N u32_max digits;
  hemisphere ← String.get (String.length digits) rest;
  if in_range 1 60 zone then
    if jgd2011_named name then (if in_range 51 55 zone then Some (6688 + zone - 51) else None)
    else if jgd2000_named name then (if in_range 51 55 zone then Some (3097 + zone - 51) else None)
    else Some (if bool_decide (hemisphere = "N"%char) then 32600 + zone else 32700 + zone)
  else None.

Definition epsg_from_wkt (wkt : string) : option N :=
  let upper := to_ascii_uppercase wkt in
  match authority_code upper with
  | Some epsg => Some epsg
  | None =>
      let name := underscored upper in
      let projected := starts_with "PROJCS" (trim_start upper) || starts_with "PROJCRS" (trim_start upper) in
      if projected then
        match plane_code name 0 ROMAN with
        | Some epsg => Some epsg
        | None =>
            if contains_str "WEB_MERCATOR" name || contains_str "PSEUDO_MERCATOR" name then Some 3857
            else rest ← after_first "UTM_ZONE_" name; utm_code name rest
        end
      else if jgd2011_named name then Some 6668
      else if jgd2000_named name then Some 4612
      else if contains_str "TOKYO" name then Some 4301
      else if contains_str "WGS_1984" name || contains_str "WGS_84" name || contains_str "WGS84" name then Some 4326
      else None
  end.

(** ** The two registries *)

Definition codes_from (first : N) (count : nat) : list N := map (fun i => first + N.of_nat i) (seq 0 count).
(** Every code either registry knows *)
Definition known_codes : list N :=
  [4326; 4612; 6668; 3857; 900913] ++ codes_from 6669 19 ++ codes_from 2443 19 ++ codes_from 32601 60
  ++ codes_from 32701 60 ++ codes_from 3097 5 ++ codes_from 6688 5.

Lemma known_code_iff n : n ∈ known_codes <->
  n = 4326 \/ n = 4612 \/ n = 6668 \/ n = 3857 \/ n = 900913 \/ in_range 6669 6687 n = true \/ in_range 2443 2461 n = true
  \/ in_range 32601 32660 n = true \/ in_range 32701 32760 n = true \/ in_range 3097 3101 n = true
  \/ in_range 6688 6692 n = true.
Proof.
  unfold known_codes. rewrite !elem_of_app, !elem_of_cons, elem_of_nil. unfold codes_from.
  rewrite !list_elem_of_fmap. setoid_rewrite elem_of_seq. unfold in_range.
  assert (Hr : forall first count, (exists y, n = first + N.of_nat y /\ (0 <= y < 0 + count)%nat)
    <-> (first <=? n) && (n <=? first + N.of_nat count - 1) = true /\ (0 < count)%nat).
  { intros first count. rewrite andb_true_iff, N.leb_le, N.leb_le. split.
    - intros (y & -> & Hy). lia.
    - intros [Hn Hc]. exists (N.to_nat (n - first)). lia. }
  rewrite !Hr. change (N.of_nat 19) with 19. change (N.of_nat 60) with 60. change (N.of_nat 5) with 5. clear Hr.
  rewrite !andb_true_iff, !N.leb_le. lia.
Qed.

Definition unit_agrees (u : AxisUnit) (k : CoordinateUnit) : bool :=
  match u, k with AxisDegrees, Degrees | AxisMetres, Metres => true | _, _ => false end.
(** What is claimed of a code that is known *)
Definition entry_agrees (n : N) : bool :=
  match lookup_epsg n with
  | Done c =>
      (info_epsg c =? n) && bool_decide (info_id c = "EPSG:" +:+ show_N n)
      && ((n =? 900913)
          || match definition (epsg n) with
             | Some d => bool_decide (def_name d = info_name c) && unit_agrees (info_unit c) (def_unit d)
             | None => false
             end)
  | _ => false
  end.

Lemma entries_agree n : n ∈ known_codes -> entry_agrees n = true.
Proof.
  intros Hn. assert (Hall : forallb entry_agrees known_codes = true) by (vm_compute; reflexivity).
  rewrite forallb_forall in Hall. by apply Hall, list_elem_of_In.
Qed.

Lemma lookup_known n : (n ∈ known_codes -> exists c, lookup_epsg n = Done c) /\ lookup_epsg n <> Panic
  /\ ((exists c, lookup_epsg n = Done c) -> n ∈ known_codes).
Proof.
  assert (Hk : n ∈ known_codes -> exists c, lookup_epsg n = Done c).
  { intros Hn%entries_agree. unfold entry_agrees in Hn. destruct (lookup_epsg n) as [c| |]; [by exists c | done | done]. }
  assert (Hu : n ∉ known_codes -> exists e, lookup_epsg n = Failed e).
  { rewrite known_code_iff. intros Hn. unfold lookup_epsg.
    destruct (N.eqb_spec n 4326); [naive_solver|]. destruct (N.eqb_spec n 4612); [naive_solver|].
    destruct (N.eqb_spec n 6668); [naive_solver|]. destruct (N.eqb_spec n 3857); [naive_solver|].
    destruct (N.eqb_spec n 900913); [naive_solver|]. cbn [orb].
    destruct (in_range 6669 6687 n); [naive_solver|]. destruct (in_range 2443 2461 n); [naive_solver|].
    destruct (in_range 32601 32660 n); [naive_solver|]. destruct (in_range 32701 32760 n); [naive_solver|].
    destruct (in_range 3097 3101 n); [naive_solver|]. destruct (in_range 6688 6692 n); [naive_solver|].
    cbn [orb]. destruct (_ || _); eauto. }
  destruct (decide (n ∈ known_codes)) as [Hn|Hn].
  - destruct (Hk Hn) as [c Hc]. split_and!; [done | by rewrite Hc | done].
  - destruct (Hu Hn) as [e He]. rewrite He. split_and!; [done | done | by intros [c ?]].
Qed.

(** The codes of the core registry are among them. *)
Lemma definition_known n d : definition (epsg n) = Some d -> n ∈ known_codes.
Proof.
  rewrite known_code_iff. unfold definition. change (authority (epsg n)) with "EPSG". change (code (epsg n)) with n.
  rewrite bool_decide_true by done. cbn [negb].
  repeat match goal with |- context [if ?b then _ else _] => destruct b eqn:?; [
    intros _; repeat match goal with H : (_ =? _) = true |- _ => apply N.eqb_eq in H as -> end;
    unfold in_range; vm_compute in *; first [done | tauto]|] end.
  done.
Qed.

(** ** Canonical identifiers *)

Lemma contains_absent a p s : string_forall (fun b => negb (bool_decide (b = a))) s = true ->
  contains_str (String a p) s = false.
Proof.
  induction s as [|b s IH]; [done|]. intros [Hb Hs]%andb_true_iff. cbn [contains_str strip_prefix].
  rewrite bool_decide_eq_false_2 by (apply negb_true_iff, bool_decide_eq_false in Hb; congruence). by apply IH.
Qed.

Lemma string_map_app f s t : string_map f (s +:+ t) = string_map f s +:+ string_map f t.
Proof.
  induction s as [|a s IH]; [done|].
  change (String (f a) (string_map f (s +:+ t)) = String (f a) (string_map f s +:+ string_map f t)). by rewrite IH.
Qed.
Lemma uppercase_app s t : to_ascii_uppercase (s +:+ t) = to_ascii_uppercase s +:+ to_ascii_uppercase t.
Proof. apply string_map_app. Qed.

Lemma uppercase_digits s : string_forall is_ascii_digit s = true -> to_ascii_uppercase s = s.
Proof.
  unfold to_ascii_uppercase. induction s as [|a s IH]; [done|]. intros [Ha Hs]%andb_true_iff. cbn [string_map].
  rewrite (IH Hs). f_equal. unfold to_ascii_upper, is_ascii_lowercase.
  unfold is_ascii_digit in Ha.
  apply andb_true_iff in Ha as [_ Ha%N.leb_le]. rewrite (proj2 (N.leb_gt 97 _)) by lia. done.
Qed.

Lemma last_digits_run s current found : string_forall is_ascii_digit s = true ->
  last_digits s current found = if is_empty (current +:+ s) then found else current +:+ s.
Proof.
  revert current. induction s as [|a s IH]; intros current.
  - intros _. cbn [last_digits]. by rewrite string_app_nil_r.
  - intros [Ha Hs]%andb_true_iff. cbn [last_digits]. rewrite Ha, (IH _ Hs), string_app_assoc. done.
Qed.

Lemma show_code_nonempty n : is_empty (show_N n) = false.
Proof.
  apply not_true_iff_false. intros Hn%bool_decide_eq_true.
  pose proof (parse_show_N n n ltac:(lia)) as Hp. by rewrite Hn in Hp.
Qed.

Lemma canonical_graphic n : string_forall is_graphic ("EPSG:" +:+ show_N n) = true.
Proof.
  rewrite string_forall_app. apply andb_true_iff. split; [done|].
  apply (string_forall_impl is_ascii_digit); [apply digit_graphic | apply show_N_digits].
Qed.

Lemma parse_canonical n : n <= u32_max -> parse_epsg ("EPSG:" +:+ show_N n) = Ok n.
Proof.
  intros Hn. unfold parse_epsg. rewrite trim_graphic by apply canonical_graphic.
  rewrite uppercase_app, (uppercase_digits (show_N n)) by apply show_N_digits.
  change (to_ascii_uppercase "EPSG:") with "EPSG:".
  rewrite contains_absent.
  2: { rewrite string_forall_app. apply andb_true_iff. split; [done|].
       apply (string_forall_impl is_ascii_digit); [|apply show_N_digits]. intros a Ha.
       apply negb_true_iff, bool_decide_eq_false. by intros ->. }
  cbv zeta. change (last_digits ("EPSG:" +:+ show_N n) "" "") with (last_digits (show_N n) "" "").
  rewrite last_digits_run by apply show_N_digits. change ("" +:+ show_N n) with (show_N n).
  rewrite show_code_nonempty. change (starts_with "EPSG" ("EPSG:" +:+ show_N n)) with true.
  cbn [orb negb err_if mbind result_bind]. by rewrite show_code_nonempty, parse_show_N.
Qed.

Lemma entry_of n c : lookup_epsg n = Done c -> entry_agrees n = true.
Proof. intros Hc. apply entries_agree. apply (proj2 (proj2 (lookup_known n))). by exists c. Qed.

Lemma known_bound n : n ∈ known_codes -> n <= u32_max.
Proof. rewrite known_code_iff. unfold in_range. change u32_max with 4294967295. lia. Qed.

Lemma lookup_id n c : lookup_epsg n = Done c -> info_epsg c = n /\ info_id c = "EPSG:" +:+ show_N n.
Proof.
  intros Hc. pose proof (entry_of n c Hc) as He. unfold entry_agrees in He. rewrite Hc in He.
  apply andb_true_iff in He as [[Hn%N.eqb_eq Hi%bool_decide_eq_true]%andb_true_iff _]. done.
Qed.

Lemma lookup_canonical n c : lookup_epsg n = Done c -> lookup (info_id c) = Done c.
Proof.
  intros Hc. destruct (lookup_id n c Hc) as [_ ->]. unfold lookup. rewrite parse_canonical; [exact Hc|].
  apply known_bound, (proj2 (proj2 (lookup_known n))). by exists c.
Qed.

Lemma utm_zone_range lon : 1 <= utm_zone lon <= 60.
Proof. unfold utm_zone. lia. Qed.

Lemma metric_crs_total lon lat : exists c, metric_crs_for lon lat = Done c /\ info_unit c = AxisMetres
  /\ info_epsg c = (if f64_leb f64_zero lat then 32600 else 32700) + utm_zone lon.
Proof.
  unfold metric_crs_for. pose proof (utm_zone_range lon) as Hz. cbv zeta.
  replace (if f64_leb f64_zero lat then 32600 + utm_zone lon else 32700 + utm_zone lon)
    with ((if f64_leb f64_zero lat then 32600 else 32700) + utm_zone lon) by by destruct (f64_leb _ _).
  set (n := _ + utm_zone lon).
  assert (Hn : in_range 32601 32660 n = true \/ in_range 32701 32760 n = true).
  { unfold n, in_range. destruct (f64_leb _ _); [left | right]; lia. }
  assert (Hk : n ∈ known_codes) by (apply known_code_iff; tauto).
  destruct (proj1 (lookup_known n) Hk) as [c Hc]. rewrite Hc. exists c.
  split_and!; [done | | by apply lookup_id in Hc as [-> _]].
  assert (Hu : forallb (fun n => match lookup_epsg n with Done c => bool_decide (info_unit c = AxisMetres) | _ => false end)
    (codes_from 32601 60 ++ codes_from 32701 60) = true) by (vm_compute; reflexivity).
  rewrite forallb_forall in Hu. specialize (Hu n). rewrite Hc in Hu.
  apply (bool_decide_eq_true_1 _), Hu, list_elem_of_In, elem_of_app.
  unfold codes_from. rewrite !list_elem_of_fmap. unfold in_range in Hn.
  destruct Hn as [Hn|Hn]; [left; exists (N.to_nat (n - 32601)) | right; exists (N.to_nat (n - 32701))];
    rewrite elem_of_seq; lia.
Qed.

(** ** Reading back a definition *)

Lemma after_last_absent a p s : string_forall (fun b => negb (bool_decide (b = a))) s = true ->
  after_last (String a p) s = None.
Proof.
  induction s as [|b s IH]; [done|]. intros [Hb Hs]%andb_true_iff. cbn [after_last]. rewrite (IH Hs). simpl.
  by rewrite bool_decide_eq_false_2 by (apply negb_true_iff, bool_decide_eq_false in Hb; congruence).
Qed.

Lemma after_last_app p s t r : after_last p t = Some r -> after_last p (s +:+ t) = Some r.
Proof.
  intros Ht. induction s as [|a s IH]; [done|]. change (String a s +:+ t) with (String a (s +:+ t)).
  cbn [after_last]. by rewrite IH.
Qed.

Lemma after_last_here a p s : string_forall (fun b => negb (bool_decide (b = a))) (p +:+ s) = true ->
  after_last (String a p) (String a p +:+ s) = Some s.
Proof.
  intros Hs. change (String a p +:+ s) with (String a (p +:+ s)). cbn [after_last].
  rewrite (after_last_absent a p _ Hs). apply (strip_prefix_app (String a p)).
Qed.

(** No suffix of the piece [s] can begin an occurrence of [p]. *)
Fixpoint compatible (p s : string) : bool :=
  match p, s with
  | String a p, String b s => bool_decide (a = b) && compatible p s
  | _, _ => true
  end.
Fixpoint clean (p s : string) : bool :=
  match s with EmptyString => true | String _ s' => negb (compatible p s) && clean p s' end.

Lemma compatible_prefix p s t : compatible p s = false -> strip_prefix p (s +:+ t) = None.
Proof.
  revert s. induction p as [|a p IH]; intros [|b s]; try done. cbn [compatible]. intros Hc.
  change (String b s +:+ t) with (String b (s +:+ t)). cbn [strip_prefix].
  destruct (bool_decide (a = b)); [by apply IH | done].
Qed.

Lemma after_last_clean p s t : clean p s = true -> after_last p (s +:+ t) = after_last p t.
Proof.
  induction s as [|a s IH]; [done|]. intros [Hc%negb_true_iff Hs]%andb_true_iff.
  change (String a s +:+ t) with (String a (s +:+ t)). cbn [after_last]. rewrite (IH Hs).
  pose proof (compatible_prefix p (String a s) t Hc) as Hp. change (String a s +:+ t) with (String a (s +:+ t)) in Hp.
  rewrite Hp. by destruct (after_last p t).
Qed.

Lemma clean_absent a p s : string_forall (fun b => negb (bool_decide (b = a))) s = true -> clean (String a p) s = true.
Proof.
  induction s as [|b s IH]; [done|]. intros [Hb Hs]%andb_true_iff. cbn [clean compatible].
  rewrite bool_decide_eq_false_2 by (apply negb_true_iff, bool_decide_eq_false in Hb; congruence). by apply IH.
Qed.

(** What [Display] writes for a finite number *)
Definition decimal_char (a : ascii) : bool :=
  is_ascii_digit a || bool_decide (a = "."%char) || bool_decide (a = "-"%char).
Definition decimal (s : string) : bool := string_forall decimal_char s.

Lemma decimal_uppercase s : decimal s = true -> to_ascii_uppercase s = s.
Proof.
  unfold decimal, to_ascii_uppercase. induction s as [|a s IH]; [done|]. intros [Ha Hs]%andb_true_iff. cbn [string_map].
  rewrite (IH Hs). f_equal. unfold to_ascii_upper, is_ascii_lowercase.
  assert (Hle : Ascii.N_of_ascii a <= 57).
  { unfold decimal_char in Ha. rewrite !orb_true_iff, !bool_decide_eq_true in Ha.
    destruct Ha as [[Ha| ->]| ->]; [|done|done]. by apply andb_true_iff in Ha as [_ Ha%N.leb_le]. }
  by rewrite (proj2 (N.leb_gt 97 _)) by lia.
Qed.

Lemma decimal_absent a s : decimal_char a = false -> decimal s = true ->
  string_forall (fun b => negb (bool_decide (b = a))) s = true.
Proof.
  intros Ha. apply string_forall_impl. intros b Hb. apply negb_true_iff, bool_decide_eq_false. by intros ->; rewrite Ha in Hb.
Qed.

Lemma digits_decimal s : string_forall is_ascii_digit s = true -> decimal s = true.
Proof. apply string_forall_impl. intros a Ha. unfold decimal_char. by rewrite Ha. Qed.

Lemma skip_quote n t : skip_while (fun a => negb (is_ascii_digit a)) (dq "'" +:+ show_N n +:+ t) = show_N n +:+ t.
Proof.
  pose proof (show_code_nonempty n) as Hne. pose proof (show_N_digits n) as Hd. change (dq "'") with (String (Ascii.ascii_of_N 34) "").
  destruct (show_N n) as [|a s]; [done|]. apply andb_true_iff in Hd as [Ha _].
  change (skip_while (fun a => negb (is_ascii_digit a)) (String a (s +:+ t)) = String a (s +:+ t)).
  cbn [skip_while]. by rewrite Ha.
Qed.

Lemma take_digits s t : string_forall is_ascii_digit s = true ->
  take_while is_ascii_digit (s +:+ dq "'" +:+ t) = s.
Proof.
  induction s as [|a s IH]; [done|]. intros [Ha Hs]%andb_true_iff.
  change (take_while is_ascii_digit (String a (s +:+ dq "'" +:+ t)) = String a s). cbn [take_while]. by rewrite Ha, (IH Hs).
Qed.

(** A text whose last authority is [n], and that no other marker ends *)
Lemma named_code upper n : n <= u32_max ->
  after_last (dq "AUTHORITY['EPSG',") upper = Some (dq "'" +:+ show_N n +:+ dq "'" +:+ dq "]]") ->
  after_last (dq "ID['EPSG',") upper = None -> authority_code upper = Some n.
Proof.
  intros Hn Ha Hi. unfold authority_code. cbn [foldl]. rewrite Ha, Hi, skip_quote, take_digits by apply show_N_digits.
  by apply parse_show_N.
Qed.

(** The systems whose definition prints no number *)
Definition flat_codes : list N := [4326; 4612; 6668; 3857; 900913].

(** The finite part of the claim: names and numbers of the registry *)
Definition entry_printable (n : N) : bool :=
  match lookup_epsg n with
  | Done c =>
      clean (dq "ID['EPSG',") (to_ascii_uppercase (info_name c) +:+ dq "',")
      && match info_projection c with
         | TransverseMercator a b c d e => forallb f64_is_finite [a; b; c; d; e]
         | _ => bool_decide (n ∈ flat_codes)
         end
  | _ => false
  end.
Lemma entries_printable n : n ∈ known_codes -> entry_printable n = true.
Proof.
  intros Hn. assert (Hall : forallb entry_printable known_codes = true) by (vm_compute; reflexivity).
  rewrite forallb_forall in Hall. by apply Hall, list_elem_of_In.
Qed.

Section RoundTrip.
Context `{F64Display}.
(** [Display] of a finite number is a decimal numeral. *)
Hypothesis display_decimal : forall x, f64_is_finite x = true -> decimal (f64_display x) = true.

Lemma flat_code n : n ∈ flat_codes ->
  exists c, lookup_epsg n = Done c /\ epsg_from_wkt (to_wkt c) = Some n.
Proof.
  unfold flat_codes. rewrite !elem_of_cons, elem_of_nil.
  intros [->|[->|[->|[->|[->|[]]]]]]; eexists; (split; [reflexivity | vm_compute; reflexivity]).
Qed.

Lemma base_cases n : base_epsg n = 6668 \/ base_epsg n = 4612 \/ base_epsg n = 4326.
Proof. unfold base_epsg. destruct (in_range _ _ _); [tauto|]. destruct (_ || _); tauto. Qed.

Definition authority_marker : string := dq "AUTHORITY['EPSG',".
Definition id_marker : string := dq "ID['EPSG',".

(** The definition of a projected system, its marker set apart *)
Lemma projected_wkt c n a b k d e :
  info_projection c = TransverseMercator a b k d e -> info_epsg c = n ->
  to_wkt c = dq "PROJCS['" +:+ info_name c +:+ dq "'," +:+ geographic_wkt (base_epsg n)
      +:+ dq ",PROJECTION['Transverse_Mercator'],PARAMETER['latitude_of_origin'," +:+ f64_display a
      +:+ dq "],PARAMETER['central_meridian'," +:+ f64_display b
      +:+ dq "],PARAMETER['scale_factor'," +:+ f64_display k
      +:+ dq "],PARAMETER['false_easting'," +:+ f64_display d
      +:+ dq "],PARAMETER['false_northing'," +:+ f64_display e
      +:+ dq "],UNIT['metre',1]," +:+ authority_marker +:+ dq "'" +:+ show_N n +:+ dq "'" +:+ dq "]]".
Proof. intros Hp <-. unfold to_wkt. by rewrite Hp. Qed.

Lemma geographic_clean n : n = 6668 \/ n = 4612 \/ n = 4326 ->
  clean id_marker (to_ascii_uppercase (geographic_wkt n)) = true.
Proof. intros [->|[->| ->]]; vm_compute; reflexivity. Qed.

Lemma wkt_code n c : lookup_epsg n = Done c -> epsg_from_wkt (to_wkt c) = Some n.
Proof.
  intros Hc. assert (Hk : n ∈ known_codes) by (apply (proj2 (proj2 (lookup_known n))); by exists c).
  destruct (lookup_id n c Hc) as [He _]. pose proof (entries_printable n Hk) as Hp. unfold entry_printable in Hp. rewrite Hc in Hp.
  apply andb_true_iff in Hp as [Hname Hfin].
  destruct (decide (n ∈ flat_codes)) as [Hf|Hf].
  { destruct (flat_code n Hf) as (c' & Hc' & Hw). rewrite Hc in Hc'. injection Hc' as <-. exact Hw. }
  destruct (info_projection c) as [| |a b k d e] eqn:Hproj.
  1, 2: by apply bool_decide_eq_true in Hfin.
  cbn [forallb] in Hfin. rewrite !andb_true_iff in Hfin. destruct Hfin as (Ha & Hb & Hkk & Hd & Hee & _).
  unfold epsg_from_wkt. rewrite (projected_wkt c n a b k d e Hproj He), !uppercase_app.
  rewrite (decimal_uppercase (f64_display a)), (decimal_uppercase (f64_display b)), (decimal_uppercase (f64_display k)),
    (decimal_uppercase (f64_display d)), (decimal_uppercase (f64_display e)), (uppercase_digits (show_N n))
    by auto using show_N_digits.
  rewrite (named_code _ n); [done | by apply known_bound | |].
  - do 15 apply after_last_app. change (dq "AUTHORITY['EPSG',") with (String "A"%char (dq "UTHORITY['EPSG',")).
    change (to_ascii_uppercase authority_marker) with (String "A"%char (dq "UTHORITY['EPSG',")).
    apply after_last_here. rewrite !string_forall_app.
    by rewrite (decimal_absent _ (show_N n)) by auto using digits_decimal, show_N_digits.
  - rewrite (after_last_clean _ (to_ascii_uppercase (dq "PROJCS['"))) by reflexivity.
    rewrite <-string_app_assoc. change (to_ascii_uppercase (dq "',")) with (dq "',").
    rewrite (after_last_clean _ _ _ Hname), (after_last_clean _ _ _ (geographic_clean _ (base_cases n))).
    assert (Hdec : forall s, decimal s = true -> clean (dq "ID['EPSG',") s = true).
    { intros s Hs. by apply (clean_absent "I"%char), decimal_absent. }
    repeat (rewrite after_last_clean;
      [|solve [apply Hdec; auto using digits_decimal, show_N_digits | vm_compute; reflexivity]]).
    reflexivity.
Qed.
End RoundTrip.

(** ** The properties *)

(** The toolkit's registry is the core's. Every code it knows has its own code and
    canonical identifier, which looks itself up, and the core registry knows it under
    the same name and unit, but for the obsolete 900913; every code of the core
    registry is known here. No lookup panics, and the metric system chosen for a
    position, any position, is a registered one in metres, of its hemisphere. *)
Theorem registries_agree (n : N) :
  lookup_epsg n <> Panic
  /\ (forall c, lookup_epsg n = Done c ->
        info_epsg c = n /\ info_id c = "EPSG:" +:+ show_N n /\ lookup (info_id c) = Done c
        /\ (n = 900913 \/ exists d, definition (epsg n) = Some d /\ def_name d = info_name c
             /\ unit_agrees (info_unit c) (def_unit d) = true))
  /\ (forall d, definition (epsg n) = Some d -> exists c, lookup_epsg n = Done c)
  /\ (forall lon lat, exists c, metric_crs_for lon lat = Done c /\ info_unit c = AxisMetres
        /\ info_epsg c = (if f64_leb f64_zero lat then 32600 else 32700) + utm_zone lon).
Proof.
  split_and!; [apply lookup_known | | intros d Hd; by eapply lookup_known, definition_known | apply metric_crs_total].
  intros c Hc. destruct (lookup_id n c Hc) as [He Hi].
  split_and!; [done | done | by apply (lookup_canonical n)|].
  pose proof (entry_of n c Hc) as Ha. unfold entry_agrees in Ha. rewrite Hc in Ha.
  apply andb_true_iff in Ha as [_ [Hn%N.eqb_eq|Hd]%orb_true_iff]; [by left|]. right.
  destruct (definition (epsg n)) as [d|]; [|done]. exists d.
  apply andb_true_iff in Hd as [Hname%bool_decide_eq_true Hu]. done.
Qed.

(** The definition written for a system names its code, and is recognised by it. *)
Theorem wkt_names_its_code `{F64Display} n c :
  (forall x, f64_is_finite x = true -> decimal (f64_display x) = true) ->
  lookup_epsg n = Done c -> epsg_from_wkt (to_wkt c) = Some n.
Proof. intros Hd. by apply wkt_code. Qed.

(** The code 900913 names a layer's system, and no system of the core registry: a
    plan over such a layer is refused. *)
Theorem google_mercator_is_unknown_to_core :
  exists c, lookup "EPSG:900913" = Done c /\ info_id c = "EPSG:900913" /\ definition (epsg 900913) = None.
Proof. eexists. split_and!; vm_compute; reflexivity. Qed.

(** The last authority of a definition need not be that of the outermost system: a
    projected definition without a code of its own is taken for its base. *)
Theorem nested_authority_wins :
  epsg_from_wkt (dq "PROJCS['Custom',GEOGCS['JGD2011',AUTHORITY['EPSG','6668']],PROJECTION['Transverse_Mercator'],UNIT['metre',1]]")
  = Some 6668.
Proof. vm_compute. reflexivity. Qed.
