(* ===== verification/Layer.v ===== *)
(** * Feature layers (crates/genegis-toolkit/src/layer.rs)

    A layer is a table of features with a coordinate reference system, a schema and
    a provenance. Its identity is a digest of its content. Bounding rectangles and
    the validity of a polygon are computed by the geo crate (the class
    [GeometryKernel]), and whether a JSON number is an integer is serde_json's
    answer; the transformed bounding box of [summary], and so [summary], is not modelled. *)

From Stdlib Require Import Ascii Strings.Byte Strings.String.
From stdpp Require Import prelude strings gmap sorting.
From S2P Require Import Prelude RustStd Ordering Bytes Json Crs MapStyle Proj Wkb.
Local Open Scope N_scope.

(** ** Data *)

Inductive CrsStatus := CS_Declared | CS_FormatDefault | CS_Inferred | CS_UserSupplied | CS_Derived.
#[export] Instance CrsStatus_eq_dec : EqDecision CrsStatus.
Proof. solve_decision. Defined.
(** The derived [Debug] *)
Definition crs_status_debug (s : CrsStatus) : string :=
  match s with
  | CS_Declared => "Declared" | CS_FormatDefault => "FormatDefault" | CS_Inferred => "Inferred"
  | CS_UserSupplied => "UserSupplied" | CS_Derived => "Derived"
  end.
Definition needs_confirmation (s : CrsStatus) : bool := bool_decide (s = CS_Inferred).

Inductive FieldType := FT_Integer | FT_Float | FT_Boolean | FT_Text | FT_Json.
#[export] Instance FieldType_eq_dec : EqDecision FieldType.
Proof. solve_decision. Defined.
(** The derived [Debug] *)
Definition field_type_debug (t : FieldType) : string :=
  match t with
  | FT_Integer => "Integer" | FT_Float => "Float" | FT_Boolean => "Boolean" | FT_Text => "Text" | FT_Json => "Json"
  end.

Record Field := mkField { field_name : string; field_type : FieldType; field_unit : option string }.

Record Feature `{GeoShapes} := mkFeature {
  ft_id : N; ft_geometry : option Geometry; ft_properties : gmap string json }.

Arguments mkFeature {_} _ _ _.
Arguments ft_id {_} _.
Arguments ft_geometry {_} _.
Arguments ft_properties {_} _.

Record LayerProvenance := mkProvenance {
  source_uri : string; source_sha256 : option string; pv_license : option string; attribution : option string;
  format : string; pv_retrieved_at : option string; parents : list string; pv_operation : option string;
  pv_workflow_digest : option string; notes : list string }.
(** [LayerProvenance::default] *)
Definition default_provenance : LayerProvenance := mkProvenance "" None None None "" None [] None None [].

Record Layer `{GeoShapes} := mkLayer {
  layer_name : string; layer_crs : string; crs_status : CrsStatus; fields : list Field;
  features : list Feature; layer_provenance : LayerProvenance }.

Arguments mkLayer {_} _ _ _ _ _ _.
Arguments layer_name {_} _.
Arguments layer_crs {_} _.
Arguments crs_status {_} _.
Arguments fields {_} _.
Arguments features {_} _.
Arguments layer_provenance {_} _.

Inductive GeometryKind := GK_Point | GK_Line | GK_Polygon | GK_Mixed | GK_None.
#[export] Instance GeometryKind_eq_dec : EqDecision GeometryKind.
Proof. solve_decision. Defined.

(** The geo crate's [bounding_rect] (least and greatest corner) and [is_valid] *)
Class GeometryKernel `{GeoShapes} := {
  bounding_rect : Geometry -> option (Coord * Coord);
  is_valid : Geometry -> bool }.
(** [Number::is_i64] or [is_u64] *)
Class NumberKind := number_is_integer : string -> bool.

(** ** The narrowest type *)

Definition value_type `{NumberKind} (v : json) : option FieldType :=
  match v with
  | JNull => None
  | JBool _ => Some FT_Boolean
  | JNumber n => Some (if number_is_integer n then FT_Integer else FT_Float)
  | JString _ => Some FT_Text
  | JArray _ | JObject _ => Some FT_Json
  end.

(** The match on the kind found so far and the next one *)
Definition widen (kind : option FieldType) (this : FieldType) : FieldType :=
  match kind with
  | None => this
  | Some a =>
      if bool_decide (a = this) then a
      else match a, this with
           | FT_Integer, FT_Float | FT_Float, FT_Integer => FT_Float
           | FT_Json, _ | _, FT_Json => FT_Json
           | _, _ => FT_Text
           end
  end.

Definition infer_field_type `{NumberKind} (values : list json) : FieldType :=
  default FT_Text (foldl (fun kind value =>
    match value_type value with Some this => Some (widen kind this) | None => kind end) None values).

(** ** Identity *)

(** [sha256_bytes]; a buffer is the text of its bytes. *)
Definition sha256_bytes `{SvgHost} (buffer : string) : string := digest_bytes buffer.
Definition bytes_text (b : bytes) : string := String.string_of_list_byte b.
Definition nul : string := String (Ascii.ascii_of_N 0) "".

Section Layers.
Context `{GeoShapes}.

(** [Layer::new] *)
Definition layer_new (name crs : string) (status : CrsStatus) : Layer :=
  mkLayer name crs status [] [] default_provenance.

(** What [digest] feeds the hasher for a field and for a feature *)
Definition field_text (f : Field) : string :=
  field_name f +:+ nul +:+ field_type_debug (field_type f) +:+ nul +:+ default "" (field_unit f) +:+ nul.
Definition feature_text `{JsonText} (f : Feature) : string :=
  bytes_text (to_le_bytes (ft_id f))
  +:+ (match ft_geometry f with
       | Some g => bytes_text (Wkb.write g)
       | None => String (Ascii.ascii_of_N 255) "null"
       end)
  +:+ canonical_json (JObject (map_to_list (ft_properties f))) +:+ nul.
Definition concat_text (l : list string) : string := foldr String.append "" l.
Definition digest_text `{JsonText} (l : Layer) : string :=
  "genegis-layer-v1" +:+ nul +:+ layer_crs l +:+ nul
  +:+ concat_text (map field_text (fields l)) +:+ concat_text (map feature_text (features l)).

(** [Layer::digest], [layer_id_from_digest] (the digest is ASCII) and [Layer::id] *)
Definition layer_digest `{JsonText} `{SvgHost} (l : Layer) : string := sha256_bytes (digest_text l).
Definition layer_id_from_digest (digest : string) : string :=
  "lyr_" +:+ String.substring 0 12 (default digest (strip_prefix "sha256:" digest)).
Definition layer_id `{JsonText} `{SvgHost} (l : Layer) : string := layer_id_from_digest (layer_digest l).

(** [Layer::crs_info] *)
Definition crs_info (l : Layer) : outcome ToolkitError CrsInfo := Proj.lookup (layer_crs l).

(** ** Summaries *)

(** [Layer::bbox]: [f64::min] and [max] ignore a NaN. *)
Definition geometries (l : Layer) : list Geometry := omap ft_geometry (features l).
Definition bbox `{!GeometryKernel} (l : Layer) : option (Coord * Coord) :=
  foldl (fun acc g =>
    match bounding_rect g with
    | None => acc
    | Some (low, high) =>
        Some (match acc with
              | None => (low, high)
              | Some (a, b) =>
                  (mkCoord (f64_min (coord_x a) (coord_x low)) (f64_min (coord_y a) (coord_y low)),
                   mkCoord (f64_max (coord_x b) (coord_x high)) (f64_max (coord_y b) (coord_y high)))
              end)
    end) None (geometries l).

Definition merge_kind (kind : option GeometryKind) (this : GeometryKind) : option GeometryKind :=
  Some (match kind with
        | None => this
        | Some existing => if bool_decide (existing = this) then existing else GK_Mixed
        end).
Fixpoint geometry_kind (g : Geometry) : GeometryKind :=
  match g with
  | GPoint _ | GMultiPoint _ => GK_Point
  | GLine _ _ | GLineString _ | GMultiLineString _ => GK_Line
  | GPolygon _ | GMultiPolygon _ | GRect _ | GTriangle _ => GK_Polygon
  | GGeometryCollection parts => default GK_None (foldl merge_kind None (map geometry_kind parts))
  end.
(** [Layer::geometry_kind] *)
Definition layer_geometry_kind (l : Layer) : GeometryKind :=
  default GK_None (foldl merge_kind None (map geometry_kind (geometries l))).

Definition invalid_polygon `{!GeometryKernel} (f : Feature) : bool :=
  match ft_geometry f with
  | Some (GPolygon _ as g) | Some (GMultiPolygon _ as g) => negb (is_valid g)
  | _ => false
  end.
Definition invalid_feature_ids `{!GeometryKernel} (l : Layer) : list N :=
  map ft_id (List.filter invalid_polygon (features l)).

(** ** The schema *)

(** [Layer::field] *)
Definition layer_field (l : Layer) (name : string) : option Field :=
  List.find (fun f => bool_decide (field_name f = name)) (fields l).

Definition push_new (order : list string) (key : string) : list string :=
  if bool_decide (key ∈ order) then order else order ++ [key].
Definition column_order (l : Layer) : list string :=
  foldl (fun order f => foldl push_new order (btree_keys String.le (ft_properties f)))
    (map field_name (fields l)) (features l).

(** [previous]: collecting into a map keeps the last field of a name. *)
Definition previous_fields (l : Layer) : gmap string Field :=
  foldl (fun m f => <[field_name f := f]> m) ∅ (fields l).
Definition not_null (v : json) : bool := match v with JNull => false | _ => true end.
Definition column_values (l : Layer) (name : string) : list json :=
  List.filter not_null (omap (fun f => ft_properties f !! name) (features l)).

Definition refreshed_field `{NumberKind} (l : Layer) (name : string) : Field :=
  let values := column_values l name in
  mkField name
    (match values, previous_fields l !! name with
     | [], Some field => field_type field
     | _, _ => infer_field_type values
     end)
    (previous_fields l !! name ≫= field_unit).

Definition with_fields (fs : list Field) (l : Layer) : Layer :=
  mkLayer (layer_name l) (layer_crs l) (crs_status l) fs (features l) (layer_provenance l).
Definition refresh_schema `{NumberKind} (l : Layer) : Layer :=
  with_fields (map (refreshed_field l) (column_order l)) l.

(** The first field of that name gets the unit. *)
Fixpoint set_unit (name unit : string) (fs : list Field) : list Field :=
  match fs with
  | [] => []
  | f :: fs => if bool_decide (field_name f = name)
               then mkField (field_name f) (field_type f) (Some unit) :: fs
               else f :: set_unit name unit fs
  end.
Definition set_field_unit (name unit : string) (l : Layer) : Layer := with_fields (set_unit name unit (fields l)) l.
End Layers.

(** ** The narrowest type is a least upper bound *)

(** Every value of [a] can be stored in a column of [b]. *)
Definition narrower (a b : FieldType) : bool :=
  match a, b with
  | _, FT_Json => true
  | FT_Json, _ => false
  | _, FT_Text => true
  | FT_Integer, FT_Float => true
  | _, _ => bool_decide (a = b)
  end.

Lemma narrower_trans a b c : narrower a b = true -> narrower b c = true -> narrower a c = true.
Proof. by destruct a, b, c. Qed.

Lemma widen_lub a b c : narrower (widen (Some a) b) c = true <-> narrower a c = true /\ narrower b c = true.
Proof. by destruct a, b, c; vm_compute; naive_solver. Qed.

Section Schema.
Context `{NumberKind} `{GeoShapes}.

Definition types_of (values : list json) : list FieldType := omap value_type values.

Lemma infer_types values : infer_field_type values
  = default FT_Text (foldl (fun kind this => Some (widen kind this)) None (types_of values)).
Proof.
  unfold infer_field_type, types_of. f_equal. generalize (@None FieldType).
  induction values as [|v values IH]; intros kind; [done|]. cbn. rewrite IH. by destruct (value_type v).
Qed.

Lemma fold_widen types a : exists t, foldl (fun kind this => Some (widen kind this)) (Some a) types = Some t
  /\ forall c, narrower t c = true <-> narrower a c = true /\ Forall (fun b => narrower b c = true) types.
Proof.
  revert a. induction types as [|b types IH]; intros a; cbn [foldl].
  - exists a. split; [done|]. intros c. rewrite Forall_nil. tauto.
  - destruct (IH (widen (Some a) b)) as (t & Ht & Hlub). exists t. split; [done|].
    intros c. rewrite Hlub, widen_lub, Forall_cons. tauto.
Qed.

(** Of no values the type is text; otherwise it holds every value, and any other
    type that does is at least as wide. *)
Lemma infer_narrowest values c : types_of values <> [] ->
  (narrower (infer_field_type values) c = true <-> Forall (fun b => narrower b c = true) (types_of values)).
Proof.
  rewrite infer_types. destruct (types_of values) as [|a types]; [done|]. intros _. cbn [foldl widen].
  destruct (fold_widen types a) as (t & Ht & Hlub). by rewrite Ht, Forall_cons, <-Hlub.
Qed.

(** ** The columns *)

Lemma elem_of_push_new order keys k : k ∈ foldl push_new order keys <-> k ∈ order \/ k ∈ keys.
Proof.
  revert order. induction keys as [|key keys IH]; intros order; cbn [foldl]; [set_solver|].
  rewrite IH. unfold push_new. case_bool_decide; set_solver.
Qed.

Lemma push_new_extends order keys : exists added, foldl push_new order keys = order ++ added.
Proof.
  revert order. induction keys as [|key keys IH]; intros order; cbn [foldl]; [by exists []; rewrite app_nil_r|].
  unfold push_new at 2. case_bool_decide; [apply IH|]. destruct (IH (order ++ [key])) as [added ->].
  exists (key :: added). by rewrite <-app_assoc.
Qed.

Lemma push_new_nodup order keys : NoDup order -> NoDup (foldl push_new order keys).
Proof.
  revert order. induction keys as [|key keys IH]; intros order Hn; cbn [foldl]; [done|].
  apply IH. unfold push_new. case_bool_decide; [done|]. apply NoDup_app. split_and!; [done | set_solver | apply NoDup_singleton].
Qed.

Definition names (l : Layer) : list string := map field_name (fields l).

Lemma column_order_fold l : column_order l
  = foldl push_new (names l) (concat (map (fun f => btree_keys String.le (ft_properties f)) (features l))).
Proof.
  unfold column_order, names. generalize (map field_name (fields l)).
  induction (features l) as [|f fs IH]; intros order; [done|]. cbn [foldl map concat]. by rewrite foldl_app, IH.
Qed.

Lemma elem_of_columns l k : k ∈ column_order l <->
  k ∈ names l \/ exists f, f ∈ features l /\ is_Some (ft_properties f !! k).
Proof.
  rewrite column_order_fold, elem_of_push_new. f_equiv. rewrite list_elem_of_In, in_concat. setoid_rewrite in_map_iff.
  setoid_rewrite <-list_elem_of_In. split.
  - intros (keys & (f & <- & Hf) & Hk). exists f. split; [done|]. unfold btree_keys in Hk.
    rewrite merge_sort_Permutation in Hk. by apply elem_of_elements, elem_of_dom in Hk.
  - intros (f & Hf & Hk). exists (btree_keys String.le (ft_properties f)). split; [by exists f|].
    unfold btree_keys. rewrite merge_sort_Permutation. by apply elem_of_elements, elem_of_dom.
Qed.

Lemma columns_extend l : exists added, column_order l = names l ++ added.
Proof. rewrite column_order_fold. apply push_new_extends. Qed.

Lemma refreshed_names l : names (refresh_schema l) = column_order l.
Proof. unfold names, refresh_schema, with_fields. cbn [fields]. rewrite map_map. apply map_id. Qed.

Lemma previous_lookup l n : NoDup (names l) -> forall f, f ∈ fields l -> field_name f = n -> previous_fields l !! n = Some f.
Proof.
  unfold previous_fields, names. intros Hn f Hf <-.
  assert (Hgen : forall (fs : list Field) (m : gmap string Field), NoDup (map field_name fs) ->
    (f ∈ fs -> foldl (fun m g => <[field_name g := g]> m) m fs !! field_name f = Some f)
    /\ (field_name f ∉ map field_name fs ->
        foldl (fun m g => <[field_name g := g]> m) m fs !! field_name f = m !! field_name f)).
  { clear. induction fs as [|g fs IH]; intros m Hnd; cbn [foldl map]; [split; [set_solver | done]|].
    cbn [map] in Hnd. apply NoDup_cons in Hnd as [Hg Hnd]. destruct (IH (<[field_name g := g]> m) Hnd) as [H1 H2]. split.
    - intros [->|Hin]%elem_of_cons; [|by apply H1]. rewrite (H2 Hg). apply lookup_insert_eq.
    - intros [Hne Hni]%not_elem_of_cons. rewrite (H2 Hni). by apply lookup_insert_ne. }
  by apply Hgen.
Qed.

Lemma columns_nodup l : NoDup (names l) -> NoDup (column_order l).
Proof. rewrite column_order_fold. apply push_new_nodup. Qed.

(** Nothing is left to add to a refreshed schema. *)
Lemma refresh_twice l : NoDup (names l) -> refresh_schema (refresh_schema l) = refresh_schema l.
Proof.
  intros Hn. pose proof (columns_nodup l Hn) as Hc. rewrite <-refreshed_names in Hc.
  unfold refresh_schema at 1 3. unfold with_fields. f_equal.
  assert (Ho : column_order (refresh_schema l) = column_order l).
  { rewrite column_order_fold, refreshed_names. change (features (refresh_schema l)) with (features l).
    assert (Hall : forall ks, ks ⊆ column_order l -> foldl push_new (column_order l) ks = column_order l).
    { induction ks as [|k ks IH]; intros Hs; cbn [foldl]; [done|]. unfold push_new at 2.
      rewrite bool_decide_eq_true_2 by set_solver. apply IH. set_solver. }
    apply Hall. intros k Hk. rewrite column_order_fold, elem_of_push_new. by right. }
  rewrite Ho. change (fields (refresh_schema l)) with (map (refreshed_field l) (column_order l)).
  apply map_ext_in. intros n Hin%list_elem_of_In.
  assert (Hp : previous_fields (refresh_schema l) !! n = Some (refreshed_field l n)).
  { apply previous_lookup; [done | | done]. change (fields (refresh_schema l)) with (map (refreshed_field l) (column_order l)).
    apply list_elem_of_fmap. by exists n. }
  unfold refreshed_field at 1. rewrite Hp. change (column_values (refresh_schema l) n) with (column_values l n).
  unfold refreshed_field. cbn [field_type field_unit]. destruct (column_values l n); [|done].
  by destruct (previous_fields l !! n).
Qed.

(** [refresh_schema] makes the schema that of the content. It keeps the columns
    there are, in order and with their units, adds a column for every other key the
    features use, and nothing else; a column with values has the narrowest type that
    holds them all, one without keeps its type, a new one without is text. Doing it
    again changes nothing. *)
Theorem schema_follows_content (l : Layer) :
  NoDup (names l) ->
  NoDup (names (refresh_schema l))
  /\ (exists added, names (refresh_schema l) = names l ++ added)
  /\ (forall k, k ∈ names (refresh_schema l) <->
        k ∈ names l \/ exists f, f ∈ features l /\ is_Some (ft_properties f !! k))
  /\ (forall f, f ∈ fields (refresh_schema l) ->
        let previous := previous_fields l !! field_name f in
        let values := column_values l (field_name f) in
        field_unit f = (previous ≫= field_unit)
        /\ (values = [] -> field_type f = from_option field_type FT_Text previous)
        /\ (values <> [] -> forall t, narrower (field_type f) t = true <->
              Forall (fun b => narrower b t = true) (types_of values)))
  /\ refresh_schema (refresh_schema l) = refresh_schema l
  /\ features (refresh_schema l) = features l.
Proof.
  intros Hn. split_and!; [rewrite refreshed_names; by apply columns_nodup | rewrite refreshed_names; apply columns_extend
    | intros k; rewrite refreshed_names; apply elem_of_columns | | by apply refresh_twice | done].
  intros f Hf. cbv zeta. change (fields (refresh_schema l)) with (map (refreshed_field l) (column_order l)) in Hf.
  apply list_elem_of_fmap in Hf as (n & -> & _). cbn [refreshed_field field_name field_unit field_type].
  split_and!; [done | |].
  - intros ->. by destruct (previous_fields l !! n).
  - intros Hv t. assert (Hne : types_of (column_values l n) <> []).
    { unfold column_values in *. destruct (omap _ _) as [|v vs] eqn:Ho; [done|]. clear -Hv.
      induction (v :: vs) as [|w ws IH]; [done|]. cbn [List.filter] in *.
      destruct w; cbn [not_null] in *; try done. by apply IH. }
    destruct (column_values l n); [done|]. by apply infer_narrowest.
Qed.

(** The digest is one of the content: no name, status or provenance enters it. *)
Lemma digest_of_content `{JsonText} `{SvgHost} l k :
  layer_crs l = layer_crs k -> fields l = fields k -> features l = features k -> layer_digest l = layer_digest k.
Proof. intros Hc Hf Hfs. unfold layer_digest, digest_text. by rewrite Hc, Hf, Hfs. Qed.

(** The fields are not delimited: a name that holds the separator makes one column
    out of two under the same digest. *)
Theorem column_names_can_collide `{JsonText} `{SvgHost} (name crs : string) :
  let one := with_fields [mkField ("a" +:+ nul +:+ "Text" +:+ nul +:+ nul +:+ "b") FT_Text None] (layer_new name crs CS_Declared) in
  let two := with_fields [mkField "a" FT_Text None; mkField "b" FT_Text None] (layer_new name crs CS_Declared) in
  fields one <> fields two /\ layer_digest one = layer_digest two.
Proof. split; [done | reflexivity]. Qed.
End Schema.

(** ** A layer with a gap in one column and two kinds in another *)

Module Examples.
Import Wkb.Examples.
#[local] Instance digits_only : NumberKind := fun n => forallb is_ascii_digit (String.list_ascii_of_string n).
Definition row (id : N) (properties : list (string * json)) : Feature :=
  mkFeature id None (list_to_map properties).
Definition wards : Layer :=
  mkLayer "wards" "EPSG:4326" CS_Declared [mkField "pop" FT_Text (Some "persons"); mkField "gone" FT_Boolean None]
    [row 0 [("pop", JNumber "3"); ("name", JString "A"); ("x", JNumber "1")];
     row 1 [("pop", JNull); ("name", JNumber "7"); ("x", JNumber "1.5")]] default_provenance.

(** Known columns keep their place and their units; a column with no value keeps
    its type. *)
Example wards_schema : fields (refresh_schema wards)
  = [mkField "pop" FT_Integer (Some "persons"); mkField "gone" FT_Boolean None; mkField "name" FT_Text None;
     mkField "x" FT_Float None].
Proof. vm_compute. reflexivity. Qed.

Lemma schema_follows_content_witness :
  NoDup (names wards) /\ NoDup (names (refresh_schema wards))
  /\ refresh_schema (refresh_schema wards) = refresh_schema wards.
Proof.
  assert (Hn : NoDup (names wards)) by (apply (bool_decide_eq_true_1 (NoDup (names wards))); vm_compute; reflexivity).
  pose proof (schema_follows_content wards Hn) as (Hd & _ & _ & _ & Ht & _). exact (conj Hn (conj Hd Ht)).
Defined.
End Examples.
