(* ===== verification/Ops.v ===== *)
(** * Toolkit operations (crates/genegis-toolkit/src/ops.rs)

    The catalogue, the checks and the provenance that [run] puts around every
    operation, its dispatch, and five of the operations: make_points, assign_crs,
    filter, calculate and summarize, with lengths and their units. Thirteen functions
    whose work is done by the geo crate or by remote services are not modelled: they
    are the class [OtherOperations], arguments of the model that may also panic.
    Decoding the aggregates is serde's derived code, and a sum of floats starts at
    either zero (the standard library has changed which): the class [TableHost]. *)

From Stdlib Require Import Ascii.
From stdpp Require Import prelude strings gmap sorting.
From S2P Require Import Prelude RustStd Ordering Crs Json MapStyle Project Float Expr Command Proj Wkb Layer.

(** ** The catalogue; titles and descriptions are for readers *)

Record ParamSpec := mkParam { param_name : string; required : bool }.
Record OperationSpec := mkSpec { spec_name : string; spec_inputs : list string; spec_params : list ParamSpec }.

Definition must (name : string) : ParamSpec := mkParam name true.
Definition may (name : string) : ParamSpec := mkParam name false.

Definition catalog : list OperationSpec := [
  mkSpec "make_points" [] [must "points"; may "crs"; may "name"];
  mkSpec "place" [] [must "query"; may "provider"; may "candidate"];
  mkSpec "census_mesh" ["area"] [may "level"; may "clip"; may "cross_check"];
  mkSpec "buffer" ["layer"] [must "distance"; may "dissolve"];
  mkSpec "clip" ["layer"; "mask"] [];
  mkSpec "erase" ["layer"; "mask"] [];
  mkSpec "intersect" ["layer"; "overlay"] [];
  mkSpec "dissolve" ["layer"] [may "by"; may "aggregates"];
  mkSpec "spatial_join" ["target"; "join"] [may "predicate"; may "distance"; may "aggregates"];
  mkSpec "select_by_location" ["layer"; "other"] [may "predicate"; may "distance"; may "invert"];
  mkSpec "distance_to_nearest" ["layer"; "target"] [may "as"; may "copy_field"];
  mkSpec "reproject" ["layer"] [must "crs"];
  mkSpec "assign_crs" ["layer"] [must "crs"];
  mkSpec "make_valid" ["layer"] [];
  mkSpec "centroid" ["layer"] [may "inside"];
  mkSpec "measure" ["layer"] [may "metrics"; may "area_unit"; may "length_unit"];
  mkSpec "filter" ["layer"] [must "where"];
  mkSpec "calculate" ["layer"] [must "field"; must "expression"; may "unit"];
  mkSpec "summarize" ["layer"] [may "by"; must "aggregates"] ].

Definition find_spec (op : string) : option OperationSpec :=
  List.find (fun s => bool_decide (spec_name s = op)) catalog.

(** ** What an operation answers *)

Record OpCheck := mkCheck { check_id : string; passed : bool; detail : string }.
Record OpOutput `{GeoShapes} := mkOutput { out_layer : Layer; checks : list OpCheck; out_notes : list string }.
Arguments mkOutput {_} _ _ _.
Arguments out_layer {_} _.
Arguments checks {_} _.
Arguments out_notes {_} _.

Inductive AggOp := AggCount | AggSum | AggMean | AggMin | AggMax | AggAreaWeightedSum.
#[export] Instance AggOp_eq_dec : EqDecision AggOp.
Proof. solve_decision. Defined.
Record Aggregate := mkAggregate { ag_op : AggOp; ag_field : option string; ag_alias : option string; ag_unit : option string }.

(** The functions of ops.rs that are not modelled, as [run] calls them *)
Class OtherOperations `{GeoShapes} := {
  op_place : json -> result (fault ToolkitError) OpOutput;
  op_census_mesh : Layer -> json -> result (fault ToolkitError) OpOutput;
  op_buffer : Layer -> json -> result (fault ToolkitError) OpOutput;
  op_clip : Layer -> Layer -> bool -> result (fault ToolkitError) OpOutput;
  op_intersect : Layer -> Layer -> result (fault ToolkitError) OpOutput;
  op_dissolve : Layer -> json -> result (fault ToolkitError) OpOutput;
  op_spatial_join : Layer -> Layer -> json -> result (fault ToolkitError) OpOutput;
  op_select_by_location : Layer -> Layer -> json -> result (fault ToolkitError) OpOutput;
  op_distance_to_nearest : Layer -> Layer -> json -> result (fault ToolkitError) OpOutput;
  op_reproject : Layer -> json -> result (fault ToolkitError) OpOutput;
  op_make_valid : Layer -> result (fault ToolkitError) OpOutput;
  op_centroid : Layer -> json -> result (fault ToolkitError) OpOutput;
  op_measure : Layer -> json -> result (fault ToolkitError) OpOutput }.
(** The geo crate's [coords_iter] *)
Class GeoCoords `{GeoShapes} := coords_iter : Geometry -> list Coord.
Class TableHost := {
  decode_aggregates : json -> result string (list Aggregate);
  sum_start : f64;
  expression_text : ExprError -> string }.

(** The derived [Debug] and [Aggregate::output_name] *)
Definition agg_debug (op : AggOp) : string :=
  match op with
  | AggCount => "Count" | AggSum => "Sum" | AggMean => "Mean" | AggMin => "Min" | AggMax => "Max"
  | AggAreaWeightedSum => "AreaWeightedSum"
  end.
Definition output_name (a : Aggregate) : string :=
  match ag_alias a with
  | Some alias => alias
  | None =>
      let named op := op +:+ "_" +:+ default "" (ag_field a) in
      match ag_op a with
      | AggCount => "count" | AggSum => named "sum" | AggMean => named "mean" | AggMin => named "min"
      | AggMax => named "max" | AggAreaWeightedSum => named "aw_sum"
      end
  end.

(** ** Parameters *)

Definition str_param (params : json) (key : string) : option string :=
  match json_get key params with
  | Some (JString s) => if is_blank s then None else Some s
  | _ => None
  end.
Definition bool_param (op : string) (params : json) (key : string) : result ToolkitError bool :=
  match json_get key params with
  | None | Some JNull => Ok false
  | Some (JBool b) => Ok b
  | Some _ => Err (TE_Parameter op (key +:+ " must be true or false"))
  end.

Section Lengths.
Context `{ExprHost} `{DebugText}.

(** [Value::as_f64] *)
Definition value_f64 (v : json) : option f64 := match v with JNumber n => Some (number_f64 n) | _ => None end.

Definition length_char (a : ascii) : bool :=
  is_ascii_digit a || bool_decide (a = "."%char) || bool_decide (a = "-"%char) || bool_decide (a = "+"%char).
(** The text up to the first character of the unit, and the rest *)
Fixpoint split_unit (s : string) : string * string :=
  match s with
  | "" => ("", "")
  | String a rest => if length_char a then (String a (split_unit rest).1, (split_unit rest).2) else ("", s)
  end.

Definition needs_a_unit : string := "distance needs a unit, e.g. " +:+ double_quote +:+ "500 m" +:+ double_quote
  +:+ " or " +:+ double_quote +:+ "1 km" +:+ double_quote.
Definition unit_factor (unit : string) : result string f64 :=
  let unit := to_lowercase unit in
  if bool_decide (unit ∈ ["m"; "meter"; "meters"; "metre"; "metres"; "メートル"; "ｍ"]) then Ok (f64_of_Z 1)
  else if bool_decide (unit ∈ ["km"; "kilometer"; "kilometers"; "kilometre"; "kilometres"; "キロ"; "キロメートル"; "ｋｍ"])
  then Ok (f64_of_Z 1000)
  else if bool_decide (unit ∈ ["deg"; "degree"; "degrees"; "度"])
  then Err "distances in degrees are not metric and are rejected; use m or km"
  else if is_empty unit then Err needs_a_unit
  else Err ("unsupported distance unit " +:+ unit +:+ "; use m or km").

Definition read_length (v : json) : result string (f64 * string) :=
  match v with
  | JObject _ =>
      value ← ok_or (json_get "value" v ≫= value_f64) "distance.value must be a number";
      unit ← ok_or (json_get "unit" v ≫= Expr.as_str) "distance.unit is required (m or km)";
      Ok (value, unit)
  | JString text =>
      let text := trim text in
      let '(number, unit) := split_unit text in
      n ← ok_or (parse_f64 (trim number)) ("cannot read a number from " +:+ debug_text text);
      Ok (n, trim unit)
  | JNumber _ => Err needs_a_unit
  | _ => Err ("distance must be a string like " +:+ double_quote +:+ "500 m" +:+ double_quote +:+ " or {value, unit}")
  end.
Definition parse_length (v : json) : result string f64 :=
  '(number, unit) ← read_length v;
  factor ← unit_factor unit;
  err_if (negb (f64_is_finite number)) "distance must be finite";;
  Ok (f64_mul number factor).
Definition length_param (op : string) (params : json) (key : string) : result ToolkitError f64 :=
  value ← ok_or (json_get key params) (TE_Parameter op ("missing parameter " +:+ key));
  map_err (fun reason => TE_Unit (op +:+ "." +:+ key +:+ ": " +:+ reason)) (parse_length value).
End Lengths.

(** ** Tables *)

Section Tables.
Context `{GeoShapes} `{JsonText} `{NumberKind} `{ExprHost} `{TableHost}.
Abbreviation op_run A := (result (fault ToolkitError) A).

Definition derived (name crs : string) : Layer := layer_new name crs CS_Derived.
Definition with_features (fs : list Feature) (l : Layer) : Layer :=
  mkLayer (layer_name l) (layer_crs l) (crs_status l) (fields l) fs (layer_provenance l).

(** [table::with_nulls] *)
Definition with_nulls (l : Layer) (properties : gmap string json) : gmap string json :=
  foldl (fun out f => match out !! field_name f with Some _ => out | None => <[field_name f := JNull]> out end)
    properties (fields l).

(** [expr::parse] and the check that its fields are columns *)
Definition expression_error (e : ExprError) : ToolkitError := TE_Expression (expression_text e).
Definition table_expression (l : Layer) (text : string) : op_run Expr :=
  e ← checked_run expression_error (Expr.parse text);
  for_each (fun name => as_fault (err_if (negb (bool_decide (is_Some (layer_field l name))))
                                    (TE_Expression ("unknown field " +:+ name)))) (Expr.fields e);;
  Ok e.
Definition row_value (l : Layer) (e : Expr) (f : Feature) : op_run json :=
  as_fault (map_err expression_error (eval (with_nulls l (ft_properties f)) e)).

Definition is_true (v : json) : bool := match v with JBool true => true | _ => false end.
Definition count_text (n : nat) : string := show_N (N.of_nat n).

(** One turn of the loop: the rows kept and the number of rejected ones *)
Definition filter_row (l : Layer) (e : Expr) (acc : list Feature * nat) (f : Feature) : op_run (list Feature * nat) :=
  v ← row_value l e f;
  Ok (if is_true v then (acc.1 ++ [f], acc.2) else (acc.1, S acc.2)).
Definition op_filter (l : Layer) (params : json) : op_run OpOutput :=
  let text := default "" (str_param params "where") in
  e ← table_expression l text;
  '(kept, rejected) ← try_fold (filter_row l e) ([], 0%nat) (features l);
  let out := derived (layer_name l +:+ "_filtered") (layer_crs l) in
  Ok (mkOutput (with_features kept (with_fields (fields l) out))
        [mkCheck "partition_complete" (length kept + rejected =? length (features l))%nat
           (count_text (length kept) +:+ " kept + " +:+ count_text rejected +:+ " rejected = "
            +:+ count_text (length (features l)))]
        ["filter: " +:+ text]).

Definition set_property (field : string) (f : Feature) (v : json) : Feature :=
  mkFeature (ft_id f) (ft_geometry f) (<[field := v]> (ft_properties f)).
Definition op_calculate (l : Layer) (params : json) : op_run OpOutput :=
  let field := default "" (str_param params "field") in
  let text := default "" (str_param params "expression") in
  e ← table_expression l text;
  values ← try_map (row_value l e) (features l);
  let nulls := length (List.filter Expr.is_null values) in
  let rows := zip_with (set_property field) (features l) values in
  let out := refresh_schema (mkLayer (layer_name l +:+ "_calc") (layer_crs l) CS_Derived (fields l) rows default_provenance) in
  let out := match str_param params "unit" with Some unit => set_field_unit field unit out | None => out end in
  Ok (mkOutput out
        [mkCheck "values_computed"
           ((nulls <? length (features l))%nat || match features l with [] => true | _ => false end)
           (field +:+ " = " +:+ text +:+ "; " +:+ count_text nulls
            +:+ " null results (missing inputs or division by zero)")] []).

(** ** Aggregates *)

Definition numeric (t : FieldType) : bool := match t with FT_Integer | FT_Float => true | _ => false end.
Definition check_aggregate (op : string) (source : Layer) (allow_area_weighted : bool) (a : Aggregate)
    : result ToolkitError unit :=
  err_if (bool_decide (ag_op a = AggAreaWeightedSum) && negb allow_area_weighted)
    (TE_Parameter op "area_weighted_sum is only valid in spatial_join");;
  if bool_decide (ag_op a = AggCount) then Ok tt else
  field ← ok_or (ag_field a) (TE_Parameter op (agg_debug (ag_op a) +:+ " needs a field"));
  schema ← ok_or (layer_field source field) (TE_Parameter op ("unknown field " +:+ field));
  err_if (negb (numeric (field_type schema))) (TE_Parameter op ("field " +:+ field +:+ " is not numeric")).
Definition aggregates_param (op : string) (params : json) (source : Layer) (allow_area_weighted : bool)
    : result ToolkitError (list Aggregate) :=
  aggregates ← match json_get "aggregates" params with
               | None | Some JNull => Ok [mkAggregate AggCount None None None]
               | Some value => map_err (fun e => TE_Parameter op ("aggregates: " +:+ e)) (decode_aggregates value)
               end;
  for_each (check_aggregate op source allow_area_weighted) aggregates;;
  Ok aggregates.

Definition aggregate_unit (a : Aggregate) (source : Layer) : option string :=
  match ag_unit a with
  | Some unit => Some unit
  | None => match ag_op a with
            | AggCount => Some "features"
            | _ => f ← ag_field a; layer_field source f ≫= field_unit
            end
  end.

Definition number_value (v : f64) : json := if f64_is_finite v then JNumber (number_text v) else JNull.
Definition f64_sum (l : list f64) : f64 := foldl f64_add sum_start l.
Definition field_values (field : string) (members : list (Feature * f64)) : list (f64 * f64) :=
  omap (fun '(f, w) => (fun v => (v, w)) <$> (ft_properties f !! field ≫= value_f64)) members.
Definition aggregate_values (a : Aggregate) (members : list (Feature * f64)) : json :=
  if bool_decide (ag_op a = AggCount) then json_N (N.of_nat (length members)) else
  let values := field_values (default "" (ag_field a)) members in
  match values, ag_op a with
  | [], (AggSum | AggAreaWeightedSum) => JNumber "0"
  | [], _ => JNull
  | _, AggSum => number_value (f64_sum (map fst values))
  | _, AggAreaWeightedSum => number_value (f64_sum (map (fun '(v, w) => f64_mul v w) values))
  | _, AggMean => number_value (f64_div (f64_sum (map fst values)) (f64_of_Z (Z.of_nat (length values))))
  | _, AggMin => number_value (foldl f64_min f64_infinity (map fst values))
  | _, AggMax => number_value (foldl f64_max f64_neg_infinity (map fst values))
  | _, AggCount => JNull (* handled above *)
  end.

(** ** Groups *)

Definition group_value (column : option string) (f : Feature) : json :=
  default JNull (column ≫= fun b => ft_properties f !! b).
Definition group_key (column : option string) (f : Feature) : string := canonical_json (group_value column f).
(** [entry(key).or_insert_with(..).1.push(..)] *)
Definition add_member (column : option string) (groups : gmap string (json * list (Feature * f64))) (f : Feature) :=
  let '(value, members) := default (group_value column f, []) (groups !! group_key column f) in
  <[group_key column f := (value, members ++ [(f, f64_of_Z 1)])]> groups.
Definition groups_of (column : option string) (l : Layer) : gmap string (json * list (Feature * f64)) :=
  let groups := foldl (add_member column) ∅ (features l) in
  if bool_decide (column = None) && bool_decide (groups = ∅) then <["" := (JNull, [])]> groups else groups.

Definition summary_row (column : option string) (aggregates : list Aggregate)
    (index : nat) (group : json * list (Feature * f64)) : Feature :=
  let properties : gmap string json := match column with Some b => <[b := group.1]> ∅ | None => ∅ end in
  mkFeature (N.of_nat index) None
    (foldl (fun m a => <[output_name a := aggregate_values a group.2]> m) properties aggregates).

Definition op_summarize (l : Layer) (params : json) : result ToolkitError OpOutput :=
  let column := str_param params "by" in
  match column with
  | Some column => err_if (negb (bool_decide (is_Some (layer_field l column)))) (TE_Parameter "summarize" ("unknown field " +:+ column))
  | None => Ok tt
  end;;
  aggregates ← aggregates_param "summarize" params l false;
  let groups := map snd (sorted_entries (groups_of column l)) in
  let member_total := list_sum (map (fun g => length g.2) groups) in
  let out := derived (layer_name l +:+ "_summary") (layer_crs l) in
  let out := refresh_schema (with_features (imap (summary_row column aggregates) groups) out) in
  let out := foldl (fun out a => match aggregate_unit a l with
                                 | Some unit => set_field_unit (output_name a) unit out
                                 | None => out
                                 end) out aggregates in
  Ok (mkOutput out
        [mkCheck "members_conserved" (member_total =? length (features l))%nat
           (count_text member_total +:+ " grouped of " +:+ count_text (length (features l)) +:+ " features")] []).
End Tables.

(** ** Points and coordinate systems *)

Section Points.
Context `{GeoShapes} `{ExprHost} `{F64Display} `{Trigonometry} `{!GeoCoords}.
Abbreviation op_run A := (result (fault ToolkitError) A).

Definition find_crs (value : string) : op_run CrsInfo := checked_run (fun e => e) (lookup value).
Definition json_or (first second : string) (v : json) : option json :=
  match json_get first v with Some x => Some x | None => json_get second v end.

(** The coordinates and the properties of one point *)
Definition read_point (point : json) : option f64 * option f64 * gmap string json :=
  match point with
  | JArray (x :: y :: _) => (value_f64 x, value_f64 y, ∅)
  | JObject _ =>
      let props : gmap string json := match json_get "properties" point with Some (JObject es) => list_to_map es | _ => ∅ end in
      (json_or "lon" "x" point ≫= value_f64, json_or "lat" "y" point ≫= value_f64,
       match json_or "name" "label" point with Some name => <["name" := name]> props | None => props end)
  | _ => (None, None, ∅)
  end.
(** One turn of the loop: the feature of the [i]th point *)
Definition make_point (crs : CrsInfo) (i : nat) (point : json) : result ToolkitError Feature :=
  let '(x, y, properties) := read_point point in
  '(x, y) ← match x, y with
            | Some x, Some y => Ok (x, y)
            | _, _ => Err (TE_Parameter "make_points" ("point " +:+ count_text i +:+ " needs numeric coordinates"))
            end;
  (if is_geographic crs then from_geographic crs x y;; Ok tt
   else err_if (negb (f64_is_finite x) || negb (f64_is_finite y)) (TE_InvalidCoordinate ("point " +:+ count_text i)));;
  let properties := match properties !! "name" with
                    | Some _ => properties
                    | None => <["name" := JString ("地点" +:+ count_text (S i))]> properties
                    end in
  Ok (mkFeature (N.of_nat i) (Some (GPoint (mkCoord x y))) properties).
Definition op_make_points (params : json) : op_run OpOutput :=
  crs ← find_crs (default "EPSG:4326" (str_param params "crs"));
  points ← as_fault (match json_get "points" params with
                     | Some (JArray (x :: l)) => Ok (x :: l)
                     | _ => Err (TE_Parameter "make_points" "points must be a non-empty array")
                     end);
  let layer := layer_new (default "地点" (str_param params "name")) (info_id crs) CS_UserSupplied in
  fs ← as_fault (try_map (fun ip => make_point crs ip.1 ip.2) (imap pair points));
  Ok (mkOutput (with_features fs layer)
        [mkCheck "coordinates_in_domain" true (count_text (length points) +:+ " points validated in " +:+ info_id crs)]
        ["points supplied explicitly by the user or planner"]).

(** Whether a coordinate survives the way to longitude and latitude and back *)
Definition outside_domain (target : CrsInfo) (c : Coord) : bool :=
  match ('(lon, lat) ← to_geographic target (coord_x c) (coord_y c); from_geographic target lon lat) with
  | Ok _ => false
  | Err _ => true
  end.
Definition op_assign_crs (l : Layer) (params : json) : op_run OpOutput :=
  target ← find_crs (default "" (str_param params "crs"));
  let out := mkLayer (layer_name l) (info_id target) CS_UserSupplied (fields l) (features l) default_provenance in
  let invalid := length (List.filter (outside_domain target) (flat_map coords_iter (omap ft_geometry (features out)))) in
  Ok (mkOutput out
        [mkCheck "coordinates_valid_in_assigned_crs" (invalid =? 0)%nat
           (count_text invalid +:+ " coordinates outside the domain of " +:+ info_id target)]
        ["CRS assigned by the user: " +:+ layer_crs l +:+ " → " +:+ info_id target
         +:+ " (coordinates unchanged; previously " +:+ crs_status_debug (crs_status l) +:+ ")"]).
End Points.

(** ** [run] *)

Section Run.
Context `{GeoShapes} `{JsonText} `{SvgHost} `{NumberKind} `{ExprHost} `{TableHost}.
Context `{F64Display} `{Trigonometry} `{!GeoCoords} `{!OtherOperations}.
Abbreviation op_run A := (result (fault ToolkitError) A).
Abbreviation layer_map := (gmap string Layer).

(** The keys of the parameters, in the order of the map *)
Definition param_keys (params : json) : list string :=
  match params with JObject es => merge_sort String.le (map fst es) | _ => [] end.
Definition check_call (spec : OperationSpec) (op : string) (inputs : layer_map) (params : json) : result ToolkitError json :=
  for_each (fun role => err_if (negb (bool_decide (is_Some (inputs !! role))))
    (TE_Parameter op ("missing input " +:+ role))) (spec_inputs spec);;
  for_each (fun role => err_if (negb (bool_decide (role ∈ spec_inputs spec)))
    (TE_Parameter op ("unexpected input " +:+ role))) (btree_keys String.le inputs);;
  params ← match params with
           | JNull => Ok (JObject [])
           | JObject _ => Ok params
           | _ => Err (TE_Parameter op "params must be an object")
           end;
  for_each (fun key => err_if (negb (bool_decide (key ∈ map param_name (spec_params spec))))
    (TE_Parameter op ("unknown parameter " +:+ key))) (param_keys params);;
  for_each (fun p => err_if (match json_get (param_name p) params with None | Some JNull => true | _ => false end)
    (TE_Parameter op ("missing parameter " +:+ param_name p))) (List.filter required (spec_params spec));;
  Ok params.

(** The arms of the [match]: the name and the call, whose roles are indexed *)
Definition from_params (f : json -> op_run OpOutput) (inputs : layer_map) (params : json) : op_run OpOutput := f params.
Definition of_layer (role : string) (f : Layer -> json -> op_run OpOutput) (inputs : layer_map) (params : json) : op_run OpOutput :=
  l ← expected (inputs !! role); f l params.
Definition of_layers (role other : string) (f : Layer -> Layer -> json -> op_run OpOutput) (inputs : layer_map) (params : json)
    : op_run OpOutput :=
  l ← expected (inputs !! role); m ← expected (inputs !! other); f l m params.
Definition arms : list (string * (layer_map -> json -> op_run OpOutput)) := [
  ("make_points", from_params op_make_points);
  ("place", from_params op_place);
  ("census_mesh", of_layer "area" op_census_mesh);
  ("buffer", of_layer "layer" op_buffer);
  ("clip", of_layers "layer" "mask" (fun l m _ => op_clip l m false));
  ("erase", of_layers "layer" "mask" (fun l m _ => op_clip l m true));
  ("intersect", of_layers "layer" "overlay" (fun l m _ => op_intersect l m));
  ("dissolve", of_layer "layer" op_dissolve);
  ("spatial_join", of_layers "target" "join" op_spatial_join);
  ("select_by_location", of_layers "layer" "other" op_select_by_location);
  ("distance_to_nearest", of_layers "layer" "target" op_distance_to_nearest);
  ("reproject", of_layer "layer" op_reproject);
  ("assign_crs", of_layer "layer" op_assign_crs);
  ("make_valid", of_layer "layer" (fun l _ => op_make_valid l));
  ("centroid", of_layer "layer" op_centroid);
  ("measure", of_layer "layer" op_measure);
  ("filter", of_layer "layer" op_filter);
  ("calculate", of_layer "layer" op_calculate);
  ("summarize", of_layer "layer" (fun l params => as_fault (op_summarize l params))) ].
Definition dispatch (op : string) (inputs : layer_map) (params : json) : op_run OpOutput :=
  match List.find (fun a => bool_decide (a.1 = op)) arms with
  | Some arm => arm.2 inputs params
  | None => Err Panicked (* unreachable! *)
  end.

(** The texts an operation's inputs declare, sorted and distinct *)
Definition declared (select : LayerProvenance -> option string) (inputs : layer_map) : list string :=
  Expr.dedup (merge_sort String.le (omap (fun l => select (layer_provenance l)) (values inputs))).
Definition joined (sep : string) (texts : list string) (fallback : option string) : option string :=
  match texts with [] => fallback | _ => Some (join sep texts) end.
Definition sealed_provenance (op : string) (inputs : layer_map) (o : OpOutput) : LayerProvenance :=
  let p := layer_provenance (out_layer o) in
  {| source_uri := "workflow://toolkit/" +:+ op; source_sha256 := source_sha256 p;
     pv_license := joined " + " (declared pv_license inputs) (pv_license p);
     attribution := joined " / " (declared attribution inputs) (attribution p);
     format := "derived"; pv_retrieved_at := pv_retrieved_at p; parents := map layer_digest (values inputs);
     pv_operation := Some op; pv_workflow_digest := pv_workflow_digest p; notes := out_notes o |}.
Definition with_provenance (p : LayerProvenance) (l : Layer) : Layer :=
  mkLayer (layer_name l) (layer_crs l) (crs_status l) (fields l) (features l) p.
Definition sealed (op : string) (inputs : layer_map) (o : OpOutput) : OpOutput :=
  mkOutput (refresh_schema (with_provenance (sealed_provenance op inputs o) (out_layer o))) (checks o) (out_notes o).

Definition run (op : string) (inputs : layer_map) (params : json) : op_run OpOutput :=
  spec ← as_fault (ok_or (find_spec op) (TE_Plan ("unknown operation " +:+ op)));
  params ← as_fault (check_call spec op inputs params);
  output ← dispatch op inputs params;
  Ok (sealed op inputs output).
End Run.

(** ** Filtering *)

Section Filtering.
Context `{GeoShapes} `{JsonText} `{NumberKind} `{ExprHost} `{TableHost}.

Lemma column_exists l n : is_Some (layer_field l n) <-> n ∈ names l.
Proof.
  unfold layer_field, names. rewrite list_elem_of_fmap. split.
  - intros [f Hf]. apply List.find_some in Hf as [Hin Hn%bool_decide_eq_true]. exists f. split; [done | by apply list_elem_of_In].
  - intros (f & -> & Hf). destruct (List.find _ (fields l)) as [g|] eqn:Hg; [by eexists|].
    rewrite find_none_iff in Hg. specialize (Hg f Hf). by rewrite bool_decide_true in Hg.
Qed.

Lemma table_expression_ok l text e : table_expression l text = Ok e <->
  Expr.parse text = Done e /\ Forall (fun f => f ∈ names l) (Expr.fields e).
Proof.
  unfold table_expression. rewrite bind_ok. setoid_rewrite checked_run_ok. split.
  - intros (e' & Hp & [Hf [= <-]]%seq_ok). split; [done|]. apply for_each_ok in Hf. eapply Forall_impl; [exact Hf|]. clear Hf.
    intros f Hf%as_fault_ok%err_unless_ok%bool_decide_eq_true. by apply column_exists.
  - intros [Hp Hf]. exists e. split; [done|]. apply seq_ok. split; [|done]. apply for_each_ok. eapply Forall_impl; [exact Hf|].
    clear Hf. intros f Hf. apply as_fault_ok, err_unless_ok, bool_decide_eq_true. by apply column_exists.
Qed.

(** Missing values read as null: every column is there. *)
Lemma with_nulls_lookup (fs : list Field) (p : gmap string json) n :
  foldl (fun out f => match out !! field_name f with Some _ => out | None => <[field_name f := JNull]> out end) p fs !! n
  = match p !! n with Some v => Some v | None => if bool_decide (n ∈ map field_name fs) then Some JNull else None end.
Proof.
  revert p. induction fs as [|f fs IH]; intros p; cbn [foldl map].
  { rewrite bool_decide_false by apply not_elem_of_nil. by destruct (p !! n). }
  rewrite IH. destruct (p !! field_name f) as [v|] eqn:Hf.
  - destruct (p !! n) eqn:Hn; [done|]. assert (n <> field_name f) by (intros ->; congruence).
    by rewrite (bool_decide_ext (n ∈ map field_name fs) (n ∈ field_name f :: map field_name fs)) by set_solver.
  - destruct (decide (n = field_name f)) as [->|Hne].
    + rewrite lookup_insert_eq, Hf. by rewrite bool_decide_true by apply list_elem_of_here.
    + rewrite lookup_insert_ne by done. destruct (p !! n); [done|].
      by rewrite (bool_decide_ext (n ∈ map field_name fs) (n ∈ field_name f :: map field_name fs)) by set_solver.
Qed.

(** A checked expression fails on a row for one of two reasons. *)
Lemma row_value_error l text e f x : table_expression l text = Ok e -> row_value l e f = Err x ->
  exists y, x = Error (expression_error y) /\ (y = LikeNeedsString
    \/ exists name, y = UnknownFunction name /\ name ∈ calls e /\ function_known name = false).
Proof.
  intros [_ Hf]%table_expression_ok. unfold row_value. destruct (eval _ e) as [v|y] eqn:Hy; [done|]. intros [= <-].
  exists y. split; [done|]. apply eval_explained in Hy. destruct y; cbn [explained] in Hy; try done; [|by left | right; by eexists].
  destruct Hy as [Hm Hn]. apply elem_of_fields in Hm. rewrite Forall_forall in Hf. specialize (Hf _ Hm).
  unfold with_nulls in Hn. rewrite with_nulls_lookup in Hn. destruct (ft_properties f !! name); [done|].
  by rewrite bool_decide_true in Hn.
Qed.

Lemma row_value_no_panic l e f : row_value l e f <> Err Panicked.
Proof. unfold row_value. by destruct (eval _ e). Qed.
Lemma parse_no_panic text : Expr.parse text <> Panic.
Proof.
  unfold Expr.parse, tokenize. pose proof (tokenize_loop_total (length (chars text)) (chars text) [] (le_n _)) as Ht.
  destruct (tokenize_loop _ _ _) as [ts|e|]; [apply parse_tokens_total | done | done].
Qed.
Lemma table_expression_no_panic l text : table_expression l text <> Err Panicked.
Proof.
  unfold table_expression. destruct (Expr.parse text) as [e|y|] eqn:Hp; cbn [checked_run mbind result_bind]; [|done|].
  - induction (Expr.fields e) as [|n ns IH]; [done|]. cbn [for_each]. by destruct (negb _).
  - by destruct (parse_no_panic text).
Qed.

(** The rows on which the condition is true; null and other values are not. *)
Definition selected (l : Layer) (e : Expr) (f : Feature) : bool :=
  match row_value l e f with Ok v => is_true v | Err _ => false end.

Lemma filter_fold l e fs acc r : try_fold (filter_row l e) acc fs = Ok r <->
  Forall (fun f => exists v, row_value l e f = Ok v) fs
  /\ r = (acc.1 ++ List.filter (selected l e) fs, (acc.2 + length (List.filter (fun f => negb (selected l e f)) fs))%nat).
Proof.
  revert acc. induction fs as [|f fs IH]; intros [kept rejected]; cbn [try_fold List.filter fst snd].
  { rewrite app_nil_r, Nat.add_0_r. split; [intros [= <-]; split; [apply Forall_nil_2 | done] | by intros [_ ->]]. }
  assert (Hstep : filter_row l e (kept, rejected) f
    = (v ← row_value l e f; Ok (if is_true v then (kept ++ [f], rejected) else (kept, S rejected)))) by done.
  assert (Hs : selected l e f = match row_value l e f with Ok v => is_true v | Err _ => false end) by done.
  rewrite Hstep, Hs, Forall_cons. clear Hstep Hs. destruct (row_value l e f) as [v|x].
  - cbn [mbind result_bind]. rewrite IH. destruct (is_true v); cbn [fst snd negb length].
    + rewrite <-app_assoc. split; [intros [Hf ->]; split; [split; [by exists v | done] | done] | by intros [[_ Hf] ->]].
    + rewrite Nat.add_succ_r. split; [intros [Hf ->]; split; [split; [by exists v | done] | done] | by intros [[_ Hf] ->]].
  - split; [done|]. by intros [[[v Hv'] _] _].
Qed.

Lemma filter_split {A} (p : A -> bool) l :
  (length (List.filter p l) + length (List.filter (fun x => negb (p x)) l) = length l)%nat.
Proof. induction l as [|x l IH]; [done|]. cbn [List.filter]. destruct (p x); cbn [negb length]; lia. Qed.

Lemma filter_no_panic (l : Layer) params : op_filter l params <> Err Panicked.
Proof.
  unfold op_filter. cbv zeta. pose proof (table_expression_no_panic l (default "" (str_param params "where"))) as Ht.
  destruct (table_expression _ _) as [e|x]; cbn [mbind result_bind]; [|congruence].
  destruct (try_fold _ _ _) as [[kept rejected]|x] eqn:Hf; [done|]. cbn [mbind result_bind]. intros [= ->].
  apply try_fold_err in Hf as (b & f & _ & Hx). unfold filter_row in Hx.
  pose proof (row_value_no_panic l e f) as Hv. destruct (row_value l e f) as [v|x]; cbn [mbind result_bind] in Hx; congruence.
Qed.
Lemma calculate_no_panic (l : Layer) params : op_calculate l params <> Err Panicked.
Proof.
  unfold op_calculate. cbv zeta. pose proof (table_expression_no_panic l (default "" (str_param params "expression"))) as Ht.
  destruct (table_expression _ _) as [e|x]; cbn [mbind result_bind]; [|congruence].
  assert (Hv : try_map (row_value l e) (features l) <> Err Panicked).
  { induction (features l) as [|f fs IH]; [done|]. cbn [try_map]. pose proof (row_value_no_panic l e f).
    destruct (row_value l e f) as [v|x]; cbn [mbind result_bind]; [|congruence]. by destruct (try_map _ fs). }
  destruct (try_map _ _) as [values|x]; cbn [mbind result_bind]; congruence.
Qed.

(** [filter] succeeds if and only if the condition parses, names only columns of
    the table and has a value on every row; it then keeps exactly the rows on which
    that value is true, in order and unchanged, under the table's schema, and its
    check holds. On a table whose condition was accepted, a row can only fail
    because the condition calls an unknown function or matches against something
    that is not a string: a missing value never fails. *)
Theorem filter_selects_rows (l : Layer) (params : json) :
  let text := default "" (str_param params "where") in
  (forall o, op_filter l params = Ok o <-> exists e,
     Expr.parse text = Done e /\ Forall (fun f => f ∈ names l) (Expr.fields e)
     /\ Forall (fun f => exists v, row_value l e f = Ok v) (features l)
     /\ features (out_layer o) = List.filter (selected l e) (features l)
     /\ fields (out_layer o) = fields l /\ layer_crs (out_layer o) = layer_crs l
     /\ layer_name (out_layer o) = layer_name l +:+ "_filtered" /\ crs_status (out_layer o) = CS_Derived
     /\ layer_provenance (out_layer o) = default_provenance /\ out_notes o = ["filter: " +:+ text]
     /\ exists d, checks o = [mkCheck "partition_complete" true d]
        /\ d = count_text (length (List.filter (selected l e) (features l))) +:+ " kept + "
               +:+ count_text (length (List.filter (fun f => negb (selected l e f)) (features l)))
               +:+ " rejected = " +:+ count_text (length (features l)))
  /\ (forall e f x, table_expression l text = Ok e -> row_value l e f = Err x ->
        x = Error (expression_error LikeNeedsString)
        \/ exists name, x = Error (expression_error (UnknownFunction name)) /\ name ∈ calls e /\ function_known name = false).
Proof.
  intros text. split.
  - intros o. unfold op_filter. cbv zeta. fold text. rewrite bind_ok. split.
    + intros (e & [Hp Hf]%table_expression_ok & ([kept rejected] & [Hv [= -> ->]]%filter_fold & [= <-])%bind_ok).
      exists e. split_and!; try done. eexists. split; [|done]. cbn [checks Nat.add fst snd app].
      by rewrite filter_split, Nat.eqb_refl.
    + intros (e & Hp & Hf & Hv & Hfs & Hfi & Hc & Hn & Hst & Hpr & Hno & d & Hch & ->).
      exists e. split; [by apply table_expression_ok|]. apply bind_ok. eexists (_, _). split; [by apply filter_fold|].
      destruct o as [[n c s fi fs p] ch no]. cbn in *. subst. by rewrite filter_split, Nat.eqb_refl.
  - intros e f x He Hx. destruct (row_value_error l text e f x He Hx) as (y & -> & [->|(name & -> & Hy)]);
      [by left | right; by exists name].
Qed.
End Filtering.

(** ** Grouping *)

Section Grouping.
Context `{GeoShapes} `{JsonText} `{NumberKind} `{ExprHost} `{TableHost}.
Context (column : option string).

(** The rows of a group, each with weight one *)
Definition weigh (f : Feature) : Feature * f64 := (f, f64_of_Z 1).
Definition rows_with (key : string) (fs : list Feature) : list Feature :=
  List.filter (fun f => String.eqb (group_key column f) key) fs.

Lemma rows_with_snoc key fs f : rows_with key (fs ++ [f])
  = if decide (group_key column f = key) then rows_with key fs ++ [f] else rows_with key fs.
Proof.
  unfold rows_with. rewrite List.filter_app. cbn [List.filter].
  destruct (decide _) as [->|Hne]; [by rewrite String.eqb_refl | rewrite (proj2 (String.eqb_neq _ _) Hne); apply app_nil_r].
Qed.

(** The groups are the rows by key; the value of a group is its first row's. *)
Lemma groups_lookup fs key : foldl (add_member column) ∅ fs !! key
  = (fun f => (group_value column f, map weigh (rows_with key fs))) <$> head (rows_with key fs).
Proof.
  induction fs as [|f fs IH] using rev_ind; [done|]. rewrite foldl_snoc. unfold add_member at 1. rewrite rows_with_snoc.
  destruct (foldl _ _ fs !! group_key column f) as [[value members]|] eqn:Hl; cbn [from_option id];
    destruct (decide (group_key column f = key)) as [<-|Hne].
  - rewrite lookup_insert_eq. rewrite Hl in IH. destruct (rows_with _ fs) as [|g gs]; [done|].
    cbn in IH. injection IH as -> ->. cbn. by rewrite map_app.
  - by rewrite lookup_insert_ne.
  - rewrite lookup_insert_eq. rewrite Hl in IH. by destruct (rows_with _ fs).
  - by rewrite lookup_insert_ne.
Qed.

Abbreviation grouped := (gmap string (json * list (Feature * f64))).
Definition members_of (groups : grouped) : list (Feature * f64) := concat (map (fun g => g.2.2) (map_to_list groups)).

Lemma members_insert_new (groups : grouped) key value ms : groups !! key = None ->
  members_of (<[key := (value, ms)]> groups) ≡ₚ ms ++ members_of groups.
Proof.
  intros Hn. unfold members_of. pose proof (map_to_list_insert groups key (value, ms) Hn) as Hp.
  rewrite <-!flat_map_concat_map. by rewrite Hp.
Qed.

Lemma members_add groups f : members_of (add_member column groups f) ≡ₚ members_of groups ++ [weigh f].
Proof.
  unfold add_member. destruct (groups !! _) as [[value ms]|] eqn:Hl; cbn [from_option id].
  - rewrite <-(insert_delete_eq groups). rewrite members_insert_new by apply lookup_delete_eq.
    rewrite <-(insert_delete_id groups _ _ Hl) at 2. rewrite members_insert_new by apply lookup_delete_eq.
    rewrite <-!app_assoc. apply Permutation_app_head, Permutation_app_comm.
  - rewrite members_insert_new by done. apply (Permutation_app_comm [weigh f]).
Qed.

(** Every row is in one group. *)
Lemma members_groups fs : members_of (foldl (add_member column) ∅ fs) ≡ₚ map weigh fs.
Proof.
  induction fs as [|f fs IH] using rev_ind; [done|]. rewrite foldl_snoc, members_add, map_app. by rewrite IH.
Qed.

Lemma groups_of_cases l : groups_of column l
  = (if bool_decide (column = None) && bool_decide (features l = []) then {["" := (JNull, [])]}
     else foldl (add_member column) ∅ (features l)).
Proof.
  unfold groups_of. destruct (decide (features l = [])) as [->|Hne].
  { rewrite (bool_decide_true ([] = [])) by done. cbn [foldl]. rewrite (bool_decide_true (∅ = ∅)) by done.
    by destruct (bool_decide (column = None)). }
  rewrite (bool_decide_false (features l = [])) by done. rewrite andb_false_r.
  rewrite (bool_decide_false (foldl _ _ _ = ∅)), andb_false_r; [done|]. intros Hemp.
  pose proof (members_groups (features l)) as Hp. rewrite Hemp in Hp. unfold members_of in Hp. cbn in Hp.
  apply Permutation_nil_l in Hp. by destruct (features l).
Qed.

Lemma members_of_layer l : members_of (groups_of column l) ≡ₚ map weigh (features l).
Proof.
  rewrite groups_of_cases. destruct (bool_decide (column = None)); [|apply members_groups].
  case_bool_decide as He; cbn [andb]; [|apply members_groups]. rewrite He. unfold members_of. by rewrite map_to_list_singleton.
Qed.

Lemma member_total l : list_sum (map (fun g => length g.2) (map snd (sorted_entries (groups_of column l))))
  = length (features l).
Proof.
  rewrite <-(length_map weigh (features l)), <-members_of_layer. unfold members_of, sorted_entries.
  rewrite length_concat, !map_map. apply Permutation_list_sum, Permutation_map, merge_sort_Permutation.
Qed.
End Grouping.

Section Summaries.
Context `{GeoShapes} `{JsonText} `{NumberKind} `{ExprHost} `{TableHost}.

Lemma features_of_units (l out : Layer) (aggregates : list Aggregate) :
  features (foldl (fun out a => match aggregate_unit a l with
                                | Some unit => set_field_unit (output_name a) unit out
                                | None => out
                                end) out aggregates) = features out.
Proof.
  revert out. induction aggregates as [|a aggregates IH]; intros out; [done|]. cbn [foldl]. rewrite IH.
  by destruct (aggregate_unit a l).
Qed.

(** A summary has one row per group, in the order of the groups' keys, each
    computed from its group alone. The groups are the classes of rows with the same
    canonical value in the grouping column: no group is empty, a group lists its
    rows in their order, every row is in one group, and so the check that the
    members add up always holds. Without a grouping column a table without rows
    still has its one group. *)
Theorem summarize_groups_rows (l : Layer) (params : json) (o : OpOutput) :
  op_summarize l params = Ok o ->
  let column := str_param params "by" in
  let groups := groups_of column l in
  (column <> None \/ features l <> [] -> forall key, groups !! key
     = (fun f => (group_value column f, map weigh (rows_with column key (features l)))) <$> head (rows_with column key (features l)))
  /\ (column = None -> features l = [] -> groups = {["" := (JNull, [])]})
  /\ members_of groups ≡ₚ map weigh (features l)
  /\ (exists aggregates, aggregates_param "summarize" params l false = Ok aggregates
        /\ features (out_layer o) = imap (summary_row column aggregates) (map snd (sorted_entries groups)))
  /\ forallb passed (checks o) = true.
Proof.
  intros Ho column groups. subst groups. split_and!.
  - intros Hne key. rewrite groups_of_cases. destruct (bool_decide _ && bool_decide _) eqn:Hb; [|apply groups_lookup].
    apply andb_true_iff in Hb as [Hn%bool_decide_eq_true Hf%bool_decide_eq_true]. by destruct Hne.
  - intros Hn Hf. rewrite groups_of_cases. by rewrite !bool_decide_true.
  - apply members_of_layer.
  - unfold op_summarize in Ho. cbv zeta in Ho. apply seq_ok in Ho as [_ Ho]. apply bind_ok in Ho as (aggregates & Ha & [= <-]).
    exists aggregates. split; [done|]. cbn [out_layer]. by rewrite features_of_units.
  - unfold op_summarize in Ho. cbv zeta in Ho. apply seq_ok in Ho as [_ Ho]. apply bind_ok in Ho as (aggregates & Ha & [= <-]).
    cbn [checks forallb passed]. by rewrite member_total, Nat.eqb_refl.
Qed.
End Summaries.

(** ** [run] *)

Section RunCorrect.
Context `{GeoShapes} `{JsonText} `{SvgHost} `{NumberKind} `{ExprHost} `{TableHost}.
Context `{F64Display} `{Trigonometry} `{!GeoCoords} `{!OtherOperations}.
Abbreviation layer_map := (gmap string Layer).

Lemma find_spec_in op spec : find_spec op = Some spec -> spec ∈ catalog /\ spec_name spec = op.
Proof. intros [Hin Hn%bool_decide_eq_true]%List.find_some. split; [by apply list_elem_of_In | done]. Qed.

Lemma check_call_ok spec op (inputs : layer_map) params p : check_call spec op inputs params = Ok p <->
  dom inputs = list_to_set (spec_inputs spec)
  /\ (params = JNull /\ p = JObject [] \/ p = params /\ exists es, params = JObject es)
  /\ (forall key, key ∈ param_keys p -> key ∈ map param_name (spec_params spec))
  /\ (forall s, s ∈ spec_params spec -> required s = true -> exists v, json_get (param_name s) p = Some v /\ v <> JNull).
Proof.
  unfold check_call. rewrite !seq_ok, !for_each_ok. setoid_rewrite err_unless_ok. setoid_rewrite bool_decide_eq_true.
  rewrite bind_ok. setoid_rewrite seq_ok. setoid_rewrite seq_ok. setoid_rewrite for_each_ok. setoid_rewrite err_unless_ok.
  setoid_rewrite bool_decide_eq_true. setoid_rewrite err_if_ok. setoid_rewrite Forall_forall.
  assert (Hdom : (forall x, x ∈ spec_inputs spec -> is_Some (inputs !! x)) /\ (forall x, x ∈ btree_keys String.le inputs -> x ∈ spec_inputs spec)
    <-> dom inputs = list_to_set (spec_inputs spec)).
  { setoid_rewrite <-elem_of_dom. unfold btree_keys. setoid_rewrite merge_sort_Permutation. setoid_rewrite elem_of_elements.
    rewrite set_eq. setoid_rewrite elem_of_list_to_set. naive_solver. }
  rewrite <-Hdom. clear Hdom.
  assert (Hreq : forall q, (forall x, x ∈ List.filter required (spec_params spec) ->
      match json_get (param_name x) q with None | Some JNull => true | _ => false end = false)
    <-> forall s, s ∈ spec_params spec -> required s = true -> exists v, json_get (param_name s) q = Some v /\ v <> JNull).
  { intros q. setoid_rewrite list_elem_of_In. setoid_rewrite filter_In. split; intros Hs s.
    - intros Hin Hr. specialize (Hs s (conj Hin Hr)). destruct (json_get _ q) as [v|]; [|done]. exists v. by destruct v.
    - intros [Hin Hr]. destruct (Hs s Hin Hr) as (v & -> & Hv). by destruct v. }
  setoid_rewrite Hreq. clear Hreq. split.
  - intros (Hi & Hk & q & Hq & Hu & Hr & [= <-]). split_and!; [done | done | | done | done].
    destruct params; try done; [left; split; [done | congruence] | right; split; [congruence | by eexists]].
  - intros ([Hi Hk] & Hq & Hu & Hr). split_and!; [done | done|]. exists p. split_and!; [|done | done | done].
    by destruct Hq as [[-> ->]|[-> [es ->]]].
Qed.

(** The calls of the functions that are not modelled: the operation, the layers of
    its roles and the answer *)
Inductive other_call (inputs : layer_map) (params : json) : string -> result (fault ToolkitError) OpOutput -> Prop :=
| call_place : other_call inputs params "place" (op_place params)
| call_census_mesh l : inputs !! "area" = Some l -> other_call inputs params "census_mesh" (op_census_mesh l params)
| call_buffer l : inputs !! "layer" = Some l -> other_call inputs params "buffer" (op_buffer l params)
| call_clip l m : inputs !! "layer" = Some l -> inputs !! "mask" = Some m -> other_call inputs params "clip" (op_clip l m false)
| call_erase l m : inputs !! "layer" = Some l -> inputs !! "mask" = Some m -> other_call inputs params "erase" (op_clip l m true)
| call_intersect l m : inputs !! "layer" = Some l -> inputs !! "overlay" = Some m ->
    other_call inputs params "intersect" (op_intersect l m)
| call_dissolve l : inputs !! "layer" = Some l -> other_call inputs params "dissolve" (op_dissolve l params)
| call_spatial_join l m : inputs !! "target" = Some l -> inputs !! "join" = Some m ->
    other_call inputs params "spatial_join" (op_spatial_join l m params)
| call_select l m : inputs !! "layer" = Some l -> inputs !! "other" = Some m ->
    other_call inputs params "select_by_location" (op_select_by_location l m params)
| call_distance l m : inputs !! "layer" = Some l -> inputs !! "target" = Some m ->
    other_call inputs params "distance_to_nearest" (op_distance_to_nearest l m params)
| call_reproject l : inputs !! "layer" = Some l -> other_call inputs params "reproject" (op_reproject l params)
| call_make_valid l : inputs !! "layer" = Some l -> other_call inputs params "make_valid" (op_make_valid l)
| call_centroid l : inputs !! "layer" = Some l -> other_call inputs params "centroid" (op_centroid l params)
| call_measure l : inputs !! "layer" = Some l -> other_call inputs params "measure" (op_measure l params).

Lemma find_crs_no_panic value : find_crs value <> Err Panicked.
Proof.
  unfold find_crs, lookup. destruct (parse_epsg value) as [n|e]; [|done]. cbn [attempt mbind outcome_bind].
  pose proof (proj1 (proj2 (lookup_known n))) as Hn. by destruct (lookup_epsg n).
Qed.
Lemma make_points_no_panic params : op_make_points params <> Err Panicked.
Proof.
  unfold op_make_points. pose proof (find_crs_no_panic (default "EPSG:4326" (str_param params "crs"))) as Hc.
  destruct (find_crs _) as [crs|e]; cbn [mbind result_bind]; [|congruence]. destruct (match json_get _ _ with Some _ => _ | None => _ end) as [points|e]; [|done].
  cbn [as_fault map_err mbind result_bind]. by destruct (try_map _ _).
Qed.
Lemma assign_crs_no_panic l params : op_assign_crs l params <> Err Panicked.
Proof.
  unfold op_assign_crs. pose proof (find_crs_no_panic (default "" (str_param params "crs"))) as Hc.
  destruct (find_crs _); cbn [mbind result_bind]; [done | congruence].
Qed.

Lemma arms_are_the_catalogue : map fst arms = map spec_name catalog.
Proof. reflexivity. Qed.

(** Only a function that is not modelled panics, on the layers of its roles. *)
Lemma dispatch_panics spec op (inputs : layer_map) params : find_spec op = Some spec ->
  dom inputs = list_to_set (spec_inputs spec) -> dispatch op inputs params = Err Panicked -> other_call inputs params op (Err Panicked).
Proof.
  intros Hs Hd. unfold dispatch. destruct (List.find _ arms) as [arm|] eqn:Ha.
  2: { exfalso. apply find_spec_in in Hs as [Hin <-]. apply (list_elem_of_fmap_2 spec_name) in Hin.
       change (spec_name <$> catalog) with (map spec_name catalog) in Hin. rewrite <-arms_are_the_catalogue in Hin.
       apply list_elem_of_fmap in Hin as (a & Hn & Hin). rewrite find_none_iff in Ha. specialize (Ha a Hin).
       by rewrite bool_decide_eq_false, Hn in Ha. }
  apply List.find_some in Ha as [Hin Ha%bool_decide_eq_true]. subst op. apply list_elem_of_In in Hin.
  assert (Hl : forall role, role ∈ spec_inputs spec -> exists l, inputs !! role = Some l).
  { intros role Hr. apply elem_of_dom. rewrite Hd. by apply elem_of_list_to_set. }
  clear Hd. unfold arms in Hin.
  repeat (apply elem_of_cons in Hin as [->|Hin]; [vm_compute in Hs; injection Hs as <-; cbn [spec_inputs fst snd] in *;
    unfold from_params, of_layer, of_layers;
    repeat match goal with |- context [expected (inputs !! ?r)] =>
      let l := fresh "l" in let Hr := fresh "Hr" in
      destruct (Hl r ltac:(apply (bool_decide_eq_true_1 _); reflexivity)) as [l Hr]; rewrite Hr; cbn [expected ok_or mbind result_bind] end;
    intros Hp;
    first [exfalso; revert Hp; first [apply make_points_no_panic | apply assign_crs_no_panic | apply filter_no_panic
                                     | apply calculate_no_panic | by destruct (op_summarize _ _)]
          | rewrite <-Hp; by constructor]|]).
  by apply not_elem_of_nil in Hin.
Qed.

(** Sorted texts lose exactly their repetitions. *)
Lemma dedup_from_sorted l previous : StronglySorted String.le (previous :: l) ->
  previous ∉ Expr.dedup_from previous l /\ NoDup (Expr.dedup_from previous l).
Proof.
  revert previous. induction l as [|s l IH]; intros previous Hs; [split; [apply not_elem_of_nil | apply NoDup_nil_2]|].
  inversion Hs as [|? ? Hs' Hle]; subst. cbn [Expr.dedup_from]. case_bool_decide as He.
  - subst s. by apply IH.
  - destruct (IH s Hs') as [Hn Hd]. split; [|by apply NoDup_cons]. intros [->|Hin]%elem_of_cons; [done|].
    assert (Hl : previous ∈ l).
    { destruct (proj1 (elem_of_dedup_from s l previous) (or_introl Hin)) as [Hq|Hq]; [done | by subst]. }
    inversion Hs' as [|? ? _ Hle']; subst. rewrite Forall_forall in Hle, Hle'.
    apply He, (anti_symm String.le); [by apply Hle', Hl | apply Hle, list_elem_of_here].
Qed.

Lemma declared_in select sep (inputs : layer_map) fallback role l a :
  inputs !! role = Some l -> select (layer_provenance l) = Some a ->
  exists texts, a ∈ texts /\ NoDup texts /\ joined sep (declared select inputs) fallback = Some (join sep texts).
Proof.
  intros Hl Ha. exists (declared select inputs). unfold declared.
  assert (Hin : a ∈ merge_sort String.le (omap (fun l => select (layer_provenance l)) (values inputs))).
  { rewrite merge_sort_Permutation, list_elem_of_omap. exists l. split; [|done]. unfold values, sorted_entries.
    apply list_elem_of_fmap. exists (role, l). split; [done|]. rewrite merge_sort_Permutation. by apply elem_of_map_to_list. }
  pose proof (StronglySorted_merge_sort String.le (omap (fun l => select (layer_provenance l)) (values inputs))) as Hs.
  destruct (merge_sort _ _) as [|s texts]; [by apply not_elem_of_nil in Hin|]. cbn [Expr.dedup].
  destruct (dedup_from_sorted texts s Hs) as [Hn Hd]. split_and!; [| by apply NoDup_cons | done].
  apply elem_of_cons in Hin as [->|Hin]; [apply list_elem_of_here|]. apply elem_of_cons.
  destruct (proj2 (elem_of_dedup_from s texts a) (or_introl Hin)); [by right | by left].
Qed.

Lemma run_panics op (inputs : layer_map) params : run op inputs params = Err Panicked ->
  exists p, (params = JNull /\ p = JObject [] \/ p = params) /\ other_call inputs p op (Err Panicked).
Proof.
  unfold run. destruct (find_spec op) as [spec|] eqn:Hs; [|discriminate]. cbn [ok_or as_fault map_err mbind result_bind].
  destruct (check_call spec op inputs params) as [p|e] eqn:Hc; [|discriminate]. cbn [ok_or as_fault map_err mbind result_bind].
  apply check_call_ok in Hc as (Hd & Hp & _). pose proof (dispatch_panics spec op inputs p Hs Hd) as Hn.
  destruct (dispatch op inputs p) as [d|e]; cbn [mbind result_bind]; [discriminate|]. intros [= ->]. exists p. split; [naive_solver | by apply Hn].
Qed.

(** C37: [run] does not panic of its own: its catalogue and its dispatch agree and every
    layer it indexes is there, so that a panic is one of the function it calls, on
    the layers of that function's roles; making points, assigning a system,
    filtering, calculating and summarizing never panic. [run] answers only for a
    known operation that is given exactly the inputs it declares and an object with
    its parameters and no others. The answer is the operation's own, with its
    checks, under a provenance that names the operation, the digests of the inputs
    in the order of their roles and the operation's notes, and that repeats every
    attribution and every license an input declares. *)
Theorem run_seals_lineage (op : string) (inputs : layer_map) (params : json) :
  (run op inputs params = Err Panicked ->
     exists p, (params = JNull /\ p = JObject [] \/ p = params) /\ other_call inputs p op (Err Panicked))
  /\ (forall o, run op inputs params = Ok o -> exists spec p d,
       find_spec op = Some spec /\ dom inputs = list_to_set (spec_inputs spec)
       /\ (params = JNull /\ p = JObject [] \/ p = params /\ exists es, params = JObject es)
       /\ (forall key, key ∈ param_keys p -> key ∈ map param_name (spec_params spec))
       /\ (forall s, s ∈ spec_params spec -> required s = true -> exists v, json_get (param_name s) p = Some v /\ v <> JNull)
       /\ dispatch op inputs p = Ok d /\ checks o = checks d /\ features (out_layer o) = features (out_layer d)
       /\ layer_crs (out_layer o) = layer_crs (out_layer d)
       /\ let s := layer_provenance (out_layer o) in
          pv_operation s = Some op /\ parents s = map layer_digest (values inputs) /\ notes s = out_notes d
          /\ (forall role l a, inputs !! role = Some l -> Layer.attribution (layer_provenance l) = Some a ->
                exists texts, a ∈ texts /\ NoDup texts /\ Layer.attribution s = Some (join " / " texts))
          /\ (forall role l a, inputs !! role = Some l -> pv_license (layer_provenance l) = Some a ->
                exists texts, a ∈ texts /\ NoDup texts /\ pv_license s = Some (join " + " texts))).
Proof.
  split; [apply run_panics|]. intros o Ho. unfold run in Ho.
  apply bind_ok in Ho as (spec & Hs & Ho). rewrite as_fault_ok, ok_or_ok in Hs.
  apply bind_ok in Ho as (p & Hc & Ho). rewrite as_fault_ok, check_call_ok in Hc.
  destruct Hc as (Hd & Hp & Hk & Hr).
  apply bind_ok in Ho as (d & Hdis & [= <-]). exists spec, p, d.
  cbv zeta. split_and!; try done; intros role l a Hl Ha; by eapply declared_in.
Qed.
End RunCorrect.

(** ** A small table *)

Module Examples.
Import Wkb.Examples.
#[local] Existing Instances sample_host sample_text.
#[local] Instance table_numbers : NumberKind := fun n => forallb is_ascii_digit (String.list_ascii_of_string n).
#[local] Instance table_debug : DebugText := fun s => s.
#[local] Instance table_host : TableHost :=
  {| decode_aggregates := fun v =>
       match v with
       | JString alias => Ok [mkAggregate AggCount None (Some alias) None]
       | _ => Ok [mkAggregate AggCount None None None]
       end;
     sum_start := f64_zero; expression_text := fun _ => "failed" |}.

Definition row (id : N) (ward : string) (pop : json) : Feature :=
  mkFeature id None (list_to_map [("ward", JString ward); ("pop", pop)]).
Definition blocks : Layer :=
  refresh_schema (with_features [row 0 "naka" (JNumber "3"); row 1 "kita" JNull; row 2 "naka" (JNumber "5")]
                    (layer_new "blocks" "EPSG:4326" CS_Declared)).
Definition params_of (es : list (string * string)) : json := JObject (map (fun '(k, v) => (k, JString v)) es).

(** A row without a value is rejected, not an error. *)
Example filter_skips_nulls :
  (o ← op_filter blocks (params_of [("where", "pop >= 3")]); Ok (map ft_id (features (out_layer o)))) = Ok [0%N; 2%N].
Proof. vm_compute. reflexivity. Qed.

Lemma summarize_groups_rows_witness : exists o,
  op_summarize blocks (params_of [("by", "ward"); ("aggregates", "blocks")]) = Ok o
  /\ forallb passed (checks o) = true
  /\ groups_of (Some "ward") blocks !! "?" = None
  /\ map ft_properties (features (out_layer o))
     = [list_to_map [("ward", JString "kita"); ("blocks", JNumber "1")];
        list_to_map [("ward", JString "naka"); ("blocks", JNumber "2")]].
Proof.
  destruct (op_summarize blocks (params_of [("by", "ward"); ("aggregates", "blocks")])) as [o|e] eqn:Ho; [|vm_compute in Ho; discriminate Ho].
  exists o. split; [reflexivity|]. destruct (summarize_groups_rows blocks _ o Ho) as (Hg & _ & _ & _ & Hc).
  split; [exact Hc|]. split.
  - refine (eq_trans (Hg (or_introl _) "?") _); [vm_compute; discriminate | vm_compute; reflexivity].
  - vm_compute in Ho. injection Ho as <-. vm_compute. reflexivity.
Defined.

(** An aggregate may be given the name of the grouping column; it then replaces the
    group's value in every row. *)
Theorem aggregate_can_hide_its_group :
  (o ← op_summarize blocks (params_of [("by", "ward"); ("aggregates", "ward")]); Ok (map ft_properties (features (out_layer o))))
  = Ok [list_to_map [("ward", JNumber "1")]; list_to_map [("ward", JNumber "2")]].
Proof. vm_compute. reflexivity. Qed.

(** The field of [calculate] is required, but one of blanks is taken for an empty
    name and becomes a column without a name. *)
Theorem blank_field_is_a_nameless_column :
  (o ← op_calculate blocks (params_of [("field", " "); ("expression", "1")]);
   Ok (map field_name (fields (out_layer o)), forallb passed (checks o)))
  = Ok (["pop"; "ward"; ""], true).
Proof. vm_compute. reflexivity. Qed.

#[local] Instance table_display : F64Display := fun _ => "x".
(** Points in longitude and latitude need no transcendental function. *)
Definition plain_trigonometry : Trigonometry :=
  Build_Trigonometry (fun x => x) (fun x => x) (fun x => x) (fun x => x) (fun x => x) (fun x _ => x) (fun x => x)
    (fun x => x) (fun x => x) (fun x => x) (fun x => x).
#[local] Existing Instance plain_trigonometry.
Definition points_at (lat : string) : json :=
  JObject [("points", JArray [JArray [JNumber "137"; JNumber "35"];
    JObject [("lon", JNumber "136"); ("lat", JNumber lat); ("label", JString "kita"); ("properties", JObject [("pop", JNumber "3")])]])].
Example points_are_made :
  (o ← op_make_points (points_at "34"); Ok (map (fun f => (ft_id f, ft_properties f)) (features (out_layer o))))
  = Ok [(0%N, {["name" := JString "地点1"]}); (1%N, list_to_map [("name", JString "kita"); ("pop", JNumber "3")])]
  /\ (o ← op_make_points (points_at "95"); Ok (out_notes o))
     = Err (Error (TE_InvalidCoordinate "longitude/latitude (x, x) is outside the geographic domain")).
Proof. split; vm_compute; reflexivity. Qed.

Example lengths :
  map parse_length [JString "500 m"; JString " 1.5km"; JObject [("value", JNumber "2"); ("unit", JString "km")]]
  = [Ok (f64_of_Z 500); Ok (f64_of_Z 1500); Ok (f64_of_Z 2000)]
  /\ parse_length (JNumber "500") = Err needs_a_unit
  /\ parse_length (JString "0.1 deg") = Err "distances in degrees are not metric and are rejected; use m or km".
Proof. split_and!; vm_compute; reflexivity. Qed.

(** The number is tested for finiteness before it is scaled: a finite number of
    kilometres can be an infinite number of metres. *)
Theorem length_can_be_infinite (n : string) :
  number_f64 n = S754_finite false (2 ^ 52) 971 (* 2^1023 *) ->
  parse_length (JObject [("value", JNumber n); ("unit", JString "km")]) = Ok f64_infinity.
Proof.
  intros Hn.
  assert (Hl : read_length (JObject [("value", JNumber n); ("unit", JString "km")]) = Ok (number_f64 n, "km")) by reflexivity.
  unfold parse_length. rewrite Hl, Hn. vm_compute. reflexivity.
Qed.
End Examples.
