(* ===== verification/Plan.v ===== *)
(** * Toolkit plans (crates/genegis-toolkit/src/execute.rs, ops.rs)

    A plan is a list of operations over loaded layers and earlier results. This file
    holds its validation, against the catalogue of operations, and its compilation
    into a workflow graph; the reference definition of a well-formed plan; and the
    proof that a well-formed plan compiles into a graph that validates. Running it
    is the subject of PlanRun. *)

From Stdlib Require Import Ascii.
From stdpp Require Import prelude strings gmap sorting.
From S2P Require Import Prelude RustStd Crs Json GeoContract WorkflowGraph WorkflowAccept MapStyle Project WorkflowDigest Templates Command Proj Wkb Layer Ops.
Local Open Scope builder_scope.

Definition OPERATION_PREFIX : string := "toolkit.".

Record PlanStep := mkPlanStep {
  ps_id : string; ps_op : string; ps_inputs : gmap string string; ps_params : json }.
Record ToolkitPlan := mkPlan {
  tp_goal : string; tp_steps : list PlanStep; tp_output : option string; tp_assumptions : list string }.

(** ** References and identifiers *)

Inductive Ref := RefLayer (id : string) | RefStep (id : string).
#[export] Instance Ref_eq_dec : EqDecision Ref.
Proof. solve_decision. Defined.

Definition parse_ref (reference : string) : Ref :=
  match strip_prefix "layer:" reference with
  | Some id => RefLayer id
  | None =>
      match strip_prefix "step:" reference with
      | Some id => RefStep id
      | None => if starts_with "lyr_" reference then RefLayer reference else RefStep reference
      end
  end.

Definition id_char (a : ascii) : bool :=
  is_ascii_digit a || is_ascii_lowercase a || is_ascii_uppercase a
  || bool_decide (a = "_"%char) || bool_decide (a = "-"%char).
Definition valid_id (id : string) : bool :=
  negb (is_empty id) && (str_len id <=? 64)%N && string_forall id_char id.

Section Plans.
Context `{GeoShapes} `{DebugText}.
Abbreviation layer_map := (gmap string Layer).
Abbreviation plan_run A := (result (fault ToolkitError) A).

Definition step_text (s : PlanStep) (text : string) : string := "step " +:+ ps_id s +:+ text.
(** [{:?}] of a set of strings *)
Definition debug_set (X : gset string) : string :=
  "{" +:+ join ", " (map debug_text (btree_iter String.le X)) +:+ "}".

(** [step.inputs.values()], in the order of the roles *)
Definition references (s : PlanStep) : list string := values (ps_inputs s).

Definition check_reference (layers : layer_map) (seen : gset string) (s : PlanStep) (reference : string)
    : result ToolkitError unit :=
  match parse_ref reference with
  | RefLayer id =>
      err_if (negb (bool_decide (is_Some (layers !! id))))
        (TE_UnknownReference (step_text s (": layer " +:+ id +:+ " is not loaded")))
  | RefStep id =>
      err_if (negb (bool_decide (id ∈ seen)) || bool_decide (id = ps_id s))
        (TE_UnknownReference (step_text s (": " +:+ id +:+ " is not an earlier step or a loaded layer")))
  end.

(** One turn of the loop of [validate_plan] *)
Definition check_step (layers : layer_map) (seen : gset string) (s : PlanStep) : result ToolkitError (gset string) :=
  err_if (negb (valid_id (ps_id s)) || starts_with "lyr_" (ps_id s))
    (TE_Plan ("invalid step id " +:+ debug_text (ps_id s)));;
  err_if (bool_decide (ps_id s ∈ seen)) (TE_Plan ("duplicate step id " +:+ ps_id s));;
  let seen := {[ps_id s]} ∪ seen in
  spec ← ok_or (find_spec (ps_op s)) (TE_Plan (step_text s (": unknown operation " +:+ ps_op s)));
  let roles := dom (ps_inputs s) in
  let expected : gset string := list_to_set (spec_inputs spec) in
  err_if (negb (bool_decide (roles = expected)))
    (TE_Plan (step_text s (" (" +:+ ps_op s +:+ ") needs inputs " +:+ debug_set expected +:+ ", got " +:+ debug_set roles)));;
  for_each (check_reference layers seen s) (references s);;
  err_if (negb match ps_params s with JNull | JObject _ => true | _ => false end)
    (TE_Plan (step_text s ": params must be an object"));;
  Ok seen.

(** The steps a step reads *)
Definition step_refs (s : PlanStep) : list string :=
  omap (fun r => match parse_ref r with RefStep id => Some id | RefLayer _ => None end) (references s).
Definition layer_refs (s : PlanStep) : list string :=
  omap (fun r => match parse_ref r with RefLayer id => Some id | RefStep _ => None end) (references s).

(** The backward pass that collects what the output needs *)
Definition mark_needed (needed : gset string) (s : PlanStep) : gset string :=
  if bool_decide (ps_id s ∈ needed) then list_to_set (step_refs s) ∪ needed else needed.
Definition needed_steps (output : string) (steps : list PlanStep) : gset string :=
  foldl mark_needed {[output]} (rev steps).

Definition validate_plan (plan : ToolkitPlan) (layers : layer_map) : plan_run string :=
  as_fault (err_if match tp_steps plan with [] => true | _ => false end (TE_Plan "plan has no steps"));;
  as_fault (err_if (64 <? length (tp_steps plan))%nat (TE_Plan "plan has more than 64 steps"));;
  seen ← as_fault (try_fold (check_step layers) ∅ (tp_steps plan));
  output ← match tp_output plan with
           | Some output => Ok output
           | None => s ← expected (last (tp_steps plan)); Ok (ps_id s)
           end;
  as_fault (err_if (negb (bool_decide (output ∈ seen))) (TE_Plan ("output " +:+ output +:+ " is not a step")));;
  let needed := needed_steps output (tp_steps plan) in
  match List.find (fun s => negb (bool_decide (ps_id s ∈ needed))) (tp_steps plan) with
  | Some unused => Err (Error (TE_Plan (step_text unused " does not contribute to the output")))
  | None => Ok output
  end.
End Plans.

(** ** Compilation *)

Section Compile.
Context `{GeoShapes} `{DebugText} `{JsonText} `{SvgHost} `{F64Display} `{CommandText}.
Abbreviation layer_map := (gmap string Layer).
Abbreviation plan_run A := (result (fault ToolkitError) A).

Definition layer_snapshot (l : Layer) : SourceSnapshot :=
  let digest := layer_digest l in
  {| dataset_id := Some (layer_id l); uri := "layer://" +:+ digest; license := pv_license (layer_provenance l);
     checksum := Some digest; expected_checksum := Some digest; observed_checksum := Some digest;
     retrieved_at := None; source_version := None; checksum_status := CV_Verified |}.

Definition core_crs (l : Layer) : result ToolkitError Crs :=
  crs ← map_err (fun e => TE_UnsupportedCrs (crs_error_to_string e)) (Crs.parse (layer_crs l));
  map_err (fun e => TE_UnsupportedCrs (crs_error_to_string e)) (require_known crs);;
  Ok crs.

(** The contract and the description of one referenced layer *)
Definition layer_contract (id : string) (l : Layer) (crs : Crs) : WorkflowInputContract :=
  input_contract_new id |> with_crs crs |> with_source_snapshot (layer_snapshot l).
Definition layer_input (id : string) (l : Layer) : json :=
  obj [("layer_id", JString id); ("name", JString (layer_name l)); ("crs", JString (layer_crs l));
       ("digest", JString (layer_digest l)); ("feature_count", JNumber (show_N (N.of_nat (length (features l)))))].

Definition referenced (plan : ToolkitPlan) : gset string :=
  list_to_set (concat (map layer_refs (tp_steps plan))).
Definition bind_layer (layers : layer_map) (id : string) : plan_run (WorkflowInputContract * json) :=
  l ← expected (layers !! id);
  crs ← as_fault (core_crs l);
  Ok (layer_contract id l crs, layer_input id l).

Variable uuid : string -> string.

(** The role's source, as the executor reads it back *)
Definition role_source (reference : string) : json :=
  match parse_ref reference with
  | RefLayer id => obj [("layer", JString id)]
  | RefStep id => obj [("step", JString id)]
  end.
Definition input_ref (reference : string) : WorkflowDataRef :=
  match parse_ref reference with
  | RefLayer id => ref_input id
  | RefStep id => ref_output id "layer"
  end.
Definition compile_step (s : PlanStep) : WorkflowStep :=
  let roles := map (fun '(role, reference) => (role, role_source reference)) (sorted_entries (ps_inputs s)) in
  let parameters := obj [("inputs", JObject roles);
                         ("params", match ps_params s with JNull => JObject [] | v => v end)] in
  named (ps_id s) (uuid (ps_id s)) (OPERATION_PREFIX +:+ ps_op s) parameters
  |> with_dependencies (foldl push_new [] (step_refs s))
  |> with_inputs (map input_ref (references s))
  |> with_outputs [ref_output (ps_id s) "layer"].

(** The graph that is built, before [validate] *)
Definition compiled (plan : ToolkitPlan) (output : string) (bound : list (WorkflowInputContract * json)) : GeoWorkflow :=
  {| workflow_id := uuid ""; goal := tp_goal plan; assumptions := tp_assumptions plan;
     wf_inputs := map snd bound; input_contracts := map fst bound;
     steps := map compile_step (tp_steps plan);
     wf_outputs := [obj [("step", JString output); ("port", JString "layer")]];
     output_refs := [ref_output output "layer"]; citations := []; review_status := Draft |}.

Definition plan_to_workflow (plan : ToolkitPlan) (layers : layer_map) : plan_run GeoWorkflow :=
  output ← validate_plan plan layers;
  bound ← try_map (bind_layer layers) (btree_iter String.le (referenced plan));
  let workflow := compiled plan output bound in
  checked_run (fun e => TE_Plan (workflow_error_text e)) (validate sha256_hex workflow);;
  Ok workflow.
End Compile.

(** ** Well-formed plans *)

Section Spec.
Context `{GeoShapes} `{DebugText}.
Abbreviation layer_map := (gmap string Layer).

Definition plan_ids (steps : list PlanStep) : list string := map ps_id steps.

(** The step called [c] reads the result of [d]. *)
Definition reads (steps : list PlanStep) (c d : string) : Prop :=
  exists s, s ∈ steps /\ ps_id s = c /\ d ∈ step_refs s.

(** A step on its own: a proper name, a known operation with its inputs, loaded
    layers, an object of parameters *)
Record step_wf (layers : layer_map) (s : PlanStep) : Prop := {
  sw_id : valid_id (ps_id s) = true;
  sw_not_layer : starts_with "lyr_" (ps_id s) = false;
  sw_op : exists spec, find_spec (ps_op s) = Some spec /\ dom (ps_inputs s) = list_to_set (spec_inputs spec);
  sw_layers : forall id, id ∈ layer_refs s -> is_Some (layers !! id);
  sw_params : ps_params s = JNull \/ exists es, ps_params s = JObject es }.

(** Every step reads only earlier ones. *)
Definition refs_before (steps : list PlanStep) : Prop :=
  forall before s after, steps = before ++ s :: after -> forall id, id ∈ step_refs s -> id ∈ plan_ids before.

Record plan_wf (layers : layer_map) (plan : ToolkitPlan) (output : string) : Prop := {
  pw_some : tp_steps plan <> [];
  pw_bound : (length (tp_steps plan) <= 64)%nat;
  pw_steps : Forall (step_wf layers) (tp_steps plan);
  pw_distinct : NoDup (plan_ids (tp_steps plan));
  pw_order : refs_before (tp_steps plan);
  pw_output : tp_output plan = Some output \/ tp_output plan = None /\ last (plan_ids (tp_steps plan)) = Some output;
  pw_output_in : output ∈ plan_ids (tp_steps plan);
  pw_needed : forall id, id ∈ plan_ids (tp_steps plan) -> rtc (reads (tp_steps plan)) output id }.

Lemma check_references_ok layers seen s l : ps_id s ∉ seen ->
  for_each (check_reference layers ({[ps_id s]} ∪ seen) s) l = Ok tt <->
  (forall id, id ∈ omap (fun r => match parse_ref r with RefLayer id => Some id | RefStep _ => None end) l -> is_Some (layers !! id))
  /\ (forall id, id ∈ omap (fun r => match parse_ref r with RefStep id => Some id | RefLayer _ => None end) l -> id ∈ seen).
Proof.
  intros Hn. rewrite for_each_ok, Forall_forall. setoid_rewrite list_elem_of_omap. unfold check_reference. split.
  - intros Hall. split; intros id (r & Hr & Hp); specialize (Hall r Hr); destruct (parse_ref r) as [id'|id']; try done;
      injection Hp as ->; revert Hall; rewrite err_if_ok.
    + by rewrite negb_false_iff, bool_decide_eq_true.
    + rewrite orb_false_iff, negb_false_iff, bool_decide_eq_true, bool_decide_eq_false. set_solver.
  - intros [Hl Hs] r Hr. destruct (parse_ref r) as [id|id] eqn:Hp; rewrite err_if_ok.
    + rewrite negb_false_iff, bool_decide_eq_true. apply Hl. exists r. by rewrite Hp.
    + rewrite orb_false_iff, negb_false_iff, bool_decide_eq_true, bool_decide_eq_false.
      assert (id ∈ seen) by (apply Hs; exists r; by rewrite Hp). set_solver.
Qed.

Lemma check_step_ok layers seen s seen' : check_step layers seen s = Ok seen' <->
  step_wf layers s /\ ps_id s ∉ seen /\ (forall id, id ∈ step_refs s -> id ∈ seen) /\ seen' = {[ps_id s]} ∪ seen.
Proof.
  unfold check_step. rewrite !seq_ok, err_if_ok, err_decide_ok, orb_false_iff, negb_false_iff. cbv zeta.
  rewrite bind_ok. setoid_rewrite ok_or_ok. setoid_rewrite seq_ok. setoid_rewrite err_unless_ok.
  setoid_rewrite bool_decide_eq_true. split.
  - intros ([Hv Hl] & Hn & spec & Hs & Hd & Hk). apply seq_ok in Hk as [Hr [Hp [= <-]]%seq_ok].
    apply (check_references_ok layers seen s _ Hn) in Hr as [Hlay Hst].
    split_and!; [|done|done|done]. split; [done | done | by exists spec | done|].
    apply err_unless_ok in Hp. destruct (ps_params s); try done; [by left | right; by eexists].
  - intros ([Hv Hl (spec & Hs & Hd) Hlay Hp] & Hn & Hst & ->). split_and!; [done | done | done |].
    exists spec. split_and!; [done | done |]. apply seq_ok. split; [by apply check_references_ok|].
    apply seq_ok. split; [|done]. apply err_unless_ok. by destruct Hp as [->|[es ->]].
Qed.

Lemma fold_steps_ok layers steps : forall seen seen', try_fold (check_step layers) seen steps = Ok seen' <->
  Forall (step_wf layers) steps /\ NoDup (plan_ids steps) /\ (forall id, id ∈ plan_ids steps -> id ∉ seen)
  /\ (forall before s after, steps = before ++ s :: after -> forall id, id ∈ step_refs s -> id ∈ seen \/ id ∈ plan_ids before)
  /\ seen' = list_to_set (plan_ids steps) ∪ seen.
Proof.
  induction steps as [|s steps IH]; intros seen seen'; cbn [try_fold plan_ids map].
  - split.
    + intros [= <-]. split_and!; [apply Forall_nil_2 | apply NoDup_nil_2 | intros id Hid; by apply not_elem_of_nil in Hid
        | by intros [|] | cbn [list_to_set]; by rewrite (left_id_L ∅ (∪))].
    + intros (_ & _ & _ & _ & ->). f_equal. cbn [list_to_set]. by rewrite (left_id_L ∅ (∪)).
  - rewrite bind_ok. setoid_rewrite check_step_ok. setoid_rewrite IH. rewrite Forall_cons, NoDup_cons. split.
    + intros (s1 & (Hw & Hn & Hr & ->) & Hf & Hnd & Hdis & Hord & ->). split_and!; try done.
      * intros Hin. apply (Hdis _ Hin). set_solver.
      * intros id [->|Hin]%elem_of_cons; [done|]. specialize (Hdis id Hin). set_solver.
      * intros [|b before] t after Heq id Hid; simplify_eq/=; [left; auto|].
        destruct (Hord before t after eq_refl id Hid) as [Hs|Hb]; [|right; by apply elem_of_cons; right].
        apply elem_of_union in Hs as [->%elem_of_singleton|Hs]; [right; by apply elem_of_cons; left | by left].
      * cbn [list_to_set]. set_solver.
    + intros ([Hw Hf] & [Hni Hnd] & Hdis & Hord & ->). exists ({[ps_id s]} ∪ seen). split_and!; try done.
      * apply Hdis, list_elem_of_here.
      * intros id Hid. destruct (Hord [] s steps eq_refl id Hid) as [?|[]%not_elem_of_nil]. done.
      * intros id Hid. assert (id ∉ seen) by by apply Hdis, list_elem_of_further.
        assert (id <> ps_id s) by by intros ->. set_solver.
      * intros before t after -> id Hid. destruct (Hord (s :: before) t after eq_refl id Hid) as [?|Hb]; [left; set_solver|].
        cbn [plan_ids map] in Hb. apply elem_of_cons in Hb as [->|Hb]; [left; set_solver | by right].
      * cbn [list_to_set]. set_solver.
Qed.

(** The backward pass is the closure of the output under reading. *)
Lemma needed_iff output steps :
  (forall before s after, steps = before ++ s :: after -> forall id, id ∈ step_refs s -> id ∉ plan_ids (s :: after)) ->
  forall x, x ∈ needed_steps output steps <-> rtc (reads steps) output x.
Proof.
  unfold needed_steps. induction steps as [|s after IH]; intros Hord x; cbn [rev].
  { cbn [foldl]. rewrite elem_of_singleton. split; [by intros ->|].
    intros Hr. inversion Hr as [|? ? ? (s & Hs & _)]; [done | by apply not_elem_of_nil in Hs]. }
  rewrite foldl_app. cbn [foldl]. set (X := foldl mark_needed _ _) in *.
  assert (IHx : forall x, x ∈ X <-> rtc (reads after) output x).
  { apply IH. intros before t rest -> id Hid. by apply (Hord (s :: before)). }
  assert (Hmono : forall y, rtc (reads after) output y -> rtc (reads (s :: after)) output y).
  { intros y. apply rtc_subrel. intros a b (t & Ht & Ha). exists t. split; [by apply list_elem_of_further | done]. }
  unfold mark_needed. split.
  - assert (Hx : x ∈ X -> rtc (reads (s :: after)) output x) by (intros Hx; by apply Hmono, IHx).
    case_bool_decide as Hs; [|done]. intros [Hin%elem_of_list_to_set|]%elem_of_union; [|by apply Hx].
    apply rtc_r with (ps_id s); [by apply Hmono, IHx|]. exists s. split; [apply list_elem_of_here | done].
  - revert x. apply rtc_ind_r.
    { assert (output ∈ X) by (by apply IHx). case_bool_decide; set_solver. }
    intros a b Hr (t & Ht & Ha & Hb) IHr.
    assert (Hna : a ∈ plan_ids (s :: after)) by (rewrite <-Ha; by apply list_elem_of_fmap_2).
    assert (HaX : a ∈ X).
    { case_bool_decide; [|done]. apply elem_of_union in IHr as [Hin%elem_of_list_to_set|]; [|done].
      by destruct (Hord [] s after eq_refl a Hin). }
    apply elem_of_cons in Ht as [->|Ht].
    + rewrite bool_decide_eq_true_2 by (by rewrite Ha). set_solver.
    + assert (b ∈ X); [|case_bool_decide; set_solver]. apply IHx. apply rtc_r with a; [by apply IHx|]. by exists t.
Qed.

Lemma refs_not_after steps : NoDup (plan_ids steps) -> refs_before steps ->
  forall before s after, steps = before ++ s :: after -> forall id, id ∈ step_refs s -> id ∉ plan_ids (s :: after).
Proof.
  intros Hnd Ho before s after Heq id Hid Hin. specialize (Ho before s after Heq id Hid). subst steps.
  unfold plan_ids in *. rewrite map_app in Hnd. apply NoDup_app in Hnd as (_ & Hd & _). by apply (Hd id).
Qed.

(** [validate_plan] accepts exactly the well-formed plans. *)
Lemma validate_plan_ok plan layers output : validate_plan plan layers = Ok output <-> plan_wf layers plan output.
Proof.
  unfold validate_plan. rewrite !seq_ok, !as_fault_ok, !err_if_ok. rewrite bind_ok. setoid_rewrite as_fault_ok.
  setoid_rewrite fold_steps_ok. setoid_rewrite bind_ok. cbv zeta. split.
  - intros (Hne & Hb & seen & (Hw & Hnd & _ & Hord & ->) & o & Ho & Hk).
    assert (Hord' : refs_before (tp_steps plan)).
    { intros before s after Heq id Hid. destruct (Hord before s after Heq id Hid); [set_solver | done]. }
    apply seq_ok in Hk as [Hin Hk]. apply as_fault_ok, err_unless_ok, bool_decide_eq_true in Hin.
    destruct (List.find _ (tp_steps plan)) as [u|] eqn:Hu; [done|]. injection Hk as ->.
    rewrite find_none_iff in Hu. assert (Hin' : output ∈ plan_ids (tp_steps plan)) by set_solver.
    split; try done.
    + intros Hnil. by rewrite Hnil in Hne.
    + by apply Nat.ltb_ge.
    + destruct (tp_output plan) as [o'|]; [by simplify_eq; left|]. right. split; [done|].
      destruct (last (tp_steps plan)) as [s|] eqn:Hl; [|done]. injection Ho as <-. unfold plan_ids. by rewrite fmap_last, Hl.
    + intros id (s & -> & Hs)%list_elem_of_fmap. apply needed_iff; [by apply refs_not_after|].
      specialize (Hu s Hs). by apply negb_false_iff, bool_decide_eq_true in Hu.
  - intros []. split_and!.
    + by destruct (tp_steps plan).
    + by apply Nat.ltb_ge.
    + exists (list_to_set (plan_ids (tp_steps plan)) ∪ ∅). split.
      { split_and!; [done | done | set_solver | | done]. intros before s after Heq id Hid. right. by apply (pw_order0 before s after). }
      exists output. split.
      * destruct pw_output0 as [->|[-> Hl]]; [done|]. unfold plan_ids in Hl. rewrite fmap_last in Hl.
        destruct (last (tp_steps plan)) as [s|]; [|done]. by injection Hl as <-.
      * apply seq_ok. split; [apply as_fault_ok, err_unless_ok, bool_decide_eq_true; set_solver|].
        rewrite (proj2 (find_none_iff _ _)); [done|]. intros s Hs. apply negb_false_iff, bool_decide_eq_true.
        apply needed_iff; [by apply refs_not_after|]. apply pw_needed0. by apply list_elem_of_fmap_2.
Qed.
End Spec.

(** ** What a well-formed plan compiles into *)

Lemma valid_id_graphic id : valid_id id = true -> is_blank id = false.
Proof.
  unfold valid_id. destruct id as [|a s]; [done|]. intros [_ [Ha _]%andb_true_iff]%andb_true_iff.
  apply (is_blank_graphic id). unfold id_char in Ha. rewrite !orb_true_iff, !bool_decide_eq_true in Ha.
  destruct Ha as [[[[Ha|Ha]|Ha]|Ha]|Ha]; [..|by subst|by subst];
    apply andb_true_iff in Ha as [Hlo%N.leb_le Hhi%N.leb_le]; apply andb_true_iff; rewrite !N.leb_le; lia.
Qed.

Lemma referenced_iff plan id : id ∈ referenced plan <-> exists s, s ∈ tp_steps plan /\ id ∈ layer_refs s.
Proof.
  unfold referenced. rewrite elem_of_list_to_set, list_elem_of_In, in_concat. setoid_rewrite in_map_iff.
  setoid_rewrite <-list_elem_of_In. naive_solver.
Qed.

Lemma elem_of_layer_refs s id : id ∈ layer_refs s <-> exists r, r ∈ references s /\ parse_ref r = RefLayer id.
Proof. unfold layer_refs. rewrite list_elem_of_omap. split; intros (r & Hr & Hp); exists r; (split; [done|]); destruct (parse_ref r); naive_solver. Qed.
Lemma elem_of_step_refs s id : id ∈ step_refs s <-> exists r, r ∈ references s /\ parse_ref r = RefStep id.
Proof. unfold step_refs. rewrite list_elem_of_omap. split; intros (r & Hr & Hp); exists r; (split; [done|]); destruct (parse_ref r); naive_solver. Qed.

Section Compiled.
Context `{GeoShapes} `{DebugText} `{JsonText} `{SvgHost} `{F64Display} `{CommandText}.
Context (uuid : string -> string) (layers : gmap string Layer) (plan : ToolkitPlan) (output : string).
Context (bound : list (WorkflowInputContract * json)).
Hypothesis Hwf : plan_wf layers plan output.
Hypothesis Hbound : try_map (bind_layer layers) (btree_iter String.le (referenced plan)) = Ok bound.
Hypothesis Hnamed : forall id, is_Some (layers !! id) -> is_blank id = false.

Abbreviation w := (compiled uuid plan output bound).
Abbreviation node_id := (node_id sha256_hex).

Lemma step_id_named s : s ∈ tp_steps plan -> is_blank (ps_id s) = false.
Proof.
  intros Hs. apply valid_id_graphic. pose proof (pw_steps _ _ _ Hwf) as Hf. rewrite Forall_forall in Hf. by apply Hf.
Qed.

Lemma compiled_node s : s ∈ tp_steps plan -> node_id (compile_step uuid s) = ps_id s.
Proof. intros Hs. unfold WorkflowGraph.node_id. simpl. by rewrite (step_id_named s Hs). Qed.

Lemma compiled_ids : ids_of sha256_hex w = plan_ids (tp_steps plan).
Proof.
  unfold ids_of, plan_ids. cbn [compiled WorkflowGraph.steps]. rewrite map_map. apply map_ext_in.
  intros s Hs. by apply compiled_node, list_elem_of_In.
Qed.

Lemma compiled_not_legacy : is_legacy_linear w = false.
Proof.
  unfold is_legacy_linear. cbn [compiled WorkflowGraph.steps]. pose proof (pw_some _ _ _ Hwf) as Hne.
  pose proof step_id_named as Hid. destruct (tp_steps plan) as [|s ss]; [done|]. cbn [map forallb].
  specialize (Hid s (list_elem_of_here _ _)). simpl. by rewrite Hid.
Qed.

Lemma compiled_step i t : WorkflowGraph.steps w !! i = Some t <->
  exists s, tp_steps plan !! i = Some s /\ t = compile_step uuid s.
Proof. cbn [compiled WorkflowGraph.steps]. rewrite list_lookup_fmap, fmap_Some. naive_solver. Qed.

Lemma compiled_deps i s : tp_steps plan !! i = Some s ->
  effective_deps sha256_hex w i = foldl push_new [] (step_refs s).
Proof.
  intros Hs. unfold effective_deps. rewrite compiled_not_legacy. simpl. by rewrite list_lookup_fmap, Hs.
Qed.

Lemma compiled_inputs i s : tp_steps plan !! i = Some s ->
  effective_inputs sha256_hex w i = map input_ref (references s).
Proof.
  intros Hs. unfold effective_inputs. rewrite compiled_not_legacy. simpl. by rewrite list_lookup_fmap, Hs.
Qed.

(** A dependency is a step that is read, at an earlier position. *)
Lemma compiled_depends d c : depends sha256_hex w d c <-> reads (tp_steps plan) c d.
Proof.
  unfold depends, reads. rewrite compiled_ids. split.
  - intros (i & Hi & Hd). unfold plan_ids in Hi. rewrite list_lookup_fmap, fmap_Some in Hi. destruct Hi as (s & Hs & ->).
    rewrite (compiled_deps i s Hs), elem_of_push_new in Hd. exists s.
    split_and!; [by eapply list_elem_of_lookup_2 | done | by destruct Hd as [[]%not_elem_of_nil|]].
  - intros (s & [i Hi]%list_elem_of_lookup & <- & Hd). exists i. unfold plan_ids. rewrite list_lookup_fmap, Hi.
    split; [done|]. rewrite (compiled_deps i s Hi), elem_of_push_new. by right.
Qed.

Lemma reads_earlier c d : reads (tp_steps plan) c d ->
  exists i j, plan_ids (tp_steps plan) !! i = Some c /\ plan_ids (tp_steps plan) !! j = Some d /\ (j < i)%nat.
Proof.
  intros (s & (l1 & l2 & Heq)%list_elem_of_split & <- & Hd).
  pose proof (pw_order _ _ _ Hwf l1 s l2 Heq d Hd) as [j Hj]%list_elem_of_lookup.
  exists (length l1), j. pose proof (lookup_lt_Some _ _ _ Hj) as Hlt. unfold plan_ids in *. rewrite length_map in Hlt.
  rewrite Heq, map_app. split_and!; [|by rewrite lookup_app_l by (rewrite length_map; lia) | done].
  rewrite <-(length_map ps_id l1). cbn [map]. by rewrite list_lookup_middle.
Qed.

Lemma compiled_acyclic : acyclic sha256_hex w.
Proof.
  assert (Htc : forall a b, tc (depends sha256_hex w) a b -> exists i j,
    plan_ids (tp_steps plan) !! i = Some b /\ plan_ids (tp_steps plan) !! j = Some a /\ (j < i)%nat).
  { intros a b Hab. induction Hab as [a b Hab|a b c Hab Hbc (i & j & Hi & Hj & Hlt)].
    - by apply reads_earlier, compiled_depends.
    - apply compiled_depends, reads_earlier in Hab as (i' & j' & Hi' & Hj' & Hlt').
      pose proof (NoDup_lookup _ _ _ _ (pw_distinct _ _ _ Hwf) Hj Hi') as ->. exists i, j'. split_and!; [done | done | lia]. }
  intros c (i & j & Hi & Hj & Hlt)%Htc. pose proof (NoDup_lookup _ _ _ _ (pw_distinct _ _ _ Hwf) Hi Hj). lia.
Qed.

Lemma compiled_connected : weakly_connected sha256_hex w.
Proof.
  assert (Hout : forall x, x ∈ ids_of sha256_hex w -> rtc (linked sha256_hex w) output x).
  { rewrite compiled_ids. intros x Hx. pose proof (pw_needed _ _ _ Hwf x Hx) as Hr.
    revert Hr. apply rtc_subrel. intros a b Hab. right. by apply compiled_depends. }
  intros x y Hx Hy. transitivity output; [|by apply Hout].
  assert (Hs : forall a b, rtc (linked sha256_hex w) a b -> rtc (linked sha256_hex w) b a).
  { intros a b Hab. induction Hab as [|a b c Hab _ IH]; [done|]. apply rtc_r with b; [done|].
    destruct Hab; [by right | by left]. }
  by apply Hs, Hout.
Qed.

Lemma bound_names : map ic_name (map fst bound) = btree_iter String.le (referenced plan).
Proof.
  apply try_map_ok in Hbound. induction Hbound as [|id [c j] ids bs Hb _ IH]; [done|]. cbn [map fst]. f_equal; [|exact IH].
  unfold bind_layer in Hb. apply bind_ok in Hb as (l & _ & Hb). apply bind_ok in Hb as (crs & _ & Hb). by injection Hb as <- _.
Qed.

Lemma core_crs_known l crs : core_crs l = Ok crs -> known_crs crs.
Proof.
  unfold core_crs. intros (c & _ & Hk)%bind_ok. apply bind_ok in Hk as (d & Hd%map_err_ok%ok_or_ok & Hk).
  injection Hk as <-. by exists d.
Qed.

Lemma bound_contracts : Forall input_contract_wf (map fst bound).
Proof.
  apply Forall_map, Forall_forall. intros [c j] Hin. apply try_map_ok in Hbound.
  destruct (related_r _ _ _ _ Hbound Hin) as (id & _ & Hb). unfold bind_layer in Hb.
  apply bind_ok in Hb as (l & Hl%ok_or_ok & Hb). apply bind_ok in Hb as (crs & Hc & Hb). rewrite as_fault_ok in Hc.
  injection Hb as <- _. cbn [fst]. unfold layer_contract.
  apply source_snapshot_wf; [done | exact (is_blank_graphic (fun x => x) "l"%char _ eq_refl)|].
  apply with_crs_wf; [done | by eapply core_crs_known|]. apply new_contract_wf, Hnamed. by exists l.
Qed.

(** The port every step exports *)
Lemma compiled_export j s : tp_steps plan !! j = Some s -> exists t, WorkflowGraph.steps w !! j = Some t
  /\ ids_of sha256_hex w !! j = Some (ps_id s)
  /\ exists o, o ∈ outputs t /\ ref_node o = Some (ps_id s) /\ port o = "layer".
Proof.
  intros Hs. exists (compile_step uuid s). rewrite compiled_ids. unfold plan_ids. rewrite list_lookup_fmap, Hs.
  split_and!; [apply compiled_step; by exists s | done|]. exists (ref_output (ps_id s) "layer").
  split_and!; [by apply list_elem_of_here | done | done].
Qed.

Lemma compiled_resolves i r : (i < length (WorkflowGraph.steps w))%nat -> r ∈ effective_inputs sha256_hex w i ->
  input_resolves sha256_hex w i r.
Proof.
  intros Hi Hr. cbn [compiled WorkflowGraph.steps] in Hi. rewrite length_map in Hi.
  apply lookup_lt_is_Some in Hi as [s Hs]. rewrite (compiled_inputs i s Hs) in Hr.
  apply list_elem_of_fmap in Hr as (reference & -> & Hr). unfold input_resolves, input_ref.
  pose proof (list_elem_of_lookup_2 _ _ _ Hs) as Hin. destruct (parse_ref reference) as [id|id] eqn:Hp.
  - assert (Hl : id ∈ layer_refs s) by (apply elem_of_layer_refs; by exists reference).
    assert (Hid : id ∈ map ic_name (map fst bound)).
    { rewrite bound_names. apply elem_of_btree_iter, referenced_iff. by exists s. }
    apply list_elem_of_fmap in Hid as (c & -> & Hc). split; [|by exists c].
    pose proof (pw_steps _ _ _ Hwf) as Hf. rewrite Forall_forall in Hf. apply Hnamed. by apply (sw_layers _ _ (Hf s Hin)).
  - assert (Hd : id ∈ step_refs s) by (apply elem_of_step_refs; by exists reference).
    split; [done|]. cbn [ref_node ref_output]. rewrite (compiled_deps i s Hs), elem_of_push_new. split; [by right|]. right.
    destruct (reads_earlier (ps_id s) id) as (_ & j & _ & Hj & _); [by exists s|].
    unfold plan_ids in Hj. rewrite list_lookup_fmap, fmap_Some in Hj. destruct Hj as (t & Ht & ->).
    destruct (compiled_export j t Ht) as (t' & Hl & Hi & Ho). by exists j, t'.
Qed.

Lemma compiled_executable : executable sha256_hex w.
Proof.
  split.
  - cbn [compiled WorkflowGraph.steps]. pose proof (pw_some _ _ _ Hwf). by destruct (tp_steps plan).
  - rewrite compiled_ids. apply (pw_distinct _ _ _ Hwf).
  - split; [apply bound_contracts|]. cbn [compiled input_contracts]. rewrite bound_names. apply NoDup_btree_iter.
  - intros d c (_ & j & _ & Hj & _)%compiled_depends%reads_earlier. rewrite compiled_ids. by eapply list_elem_of_lookup_2.
  - apply compiled_acyclic.
  - apply compiled_connected.
  - apply compiled_resolves.
  - intros _ i node t Hi (s & Hs & ->)%compiled_step. rewrite compiled_ids in Hi. unfold plan_ids in Hi.
    rewrite list_lookup_fmap, Hs in Hi. injection Hi as <-. split; [done|]. by apply Forall_singleton.
  - apply Forall_singleton. pose proof (pw_output_in _ _ _ Hwf) as [j Hj]%list_elem_of_lookup.
    unfold plan_ids in Hj. rewrite list_lookup_fmap, fmap_Some in Hj. destruct Hj as (s & Hs & Hout).
    destruct (compiled_export j s Hs) as (t & Ht & Hi & Ho). rewrite <-Hout in Hi, Ho. exists output, j, t.
    split_and!; [done | done | done | by right].
  - intros i node t _ (s & Hs & ->)%compiled_step. split; [done | apply NoDup_nil_2].
Qed.
End Compiled.

(** ** The compilation *)

Section PlanToWorkflow.
Context `{GeoShapes} `{DebugText} `{JsonText} `{SvgHost} `{F64Display} `{CommandText}.
Context (uuid : string -> string) (layers : gmap string Layer) (plan : ToolkitPlan).

(** What a referenced layer puts into the graph *)
Definition bound_as (id : string) (b : WorkflowInputContract * json) : Prop :=
  exists l crs, layers !! id = Some l /\ core_crs l = Ok crs /\ b = (layer_contract id l crs, layer_input id l).

Lemma bind_layer_ok id b : bind_layer layers id = Ok b <-> bound_as id b.
Proof.
  unfold bind_layer, bound_as, expected. destruct (layers !! id) as [l|]; cbn [ok_or mbind result_bind].
  - destruct (core_crs l) as [crs|e] eqn:Hc; cbn [as_fault map_err mbind result_bind]; [|split; [done | intros (l' & crs' & [= <-] & Hc' & ->); congruence]].
    split; [intros [= <-]; by exists l, crs | intros (l' & crs' & [= <-] & Hc' & ->); congruence].
  - split; [done | by intros (l & crs & [=] & _)].
Qed.

Lemma bind_layers_ok ids bound : try_map (bind_layer layers) ids = Ok bound <-> Forall2 bound_as ids bound.
Proof. rewrite try_map_ok. by split; (intros Hf; eapply Forall2_impl; [exact Hf | intros x b; apply bind_layer_ok]). Qed.

Lemma try_map_no_panic {A B} (f : A -> result (fault ToolkitError) B) l :
  (forall x, x ∈ l -> f x <> Err Panicked) -> try_map f l <> Err Panicked.
Proof.
  induction l as [|x l IH]; intros Hf; [done|]. simpl. pose proof (Hf x (list_elem_of_here _ _)) as Hx.
  destruct (f x) as [b|[e|]]; [|done|done]. cbn [mbind result_bind].
  specialize (IH (fun y Hy => Hf y (list_elem_of_further _ _ _ Hy))).
  by destruct (try_map f l) as [bs|[e|]].
Qed.

Lemma validate_plan_no_panic : validate_plan plan layers <> Err Panicked.
Proof.
  unfold validate_plan. destruct (tp_steps plan) as [|s ss]; [done|].
  assert (Hl : exists z, last (s :: ss) = Some z).
  { destruct (last (s :: ss)) as [z|] eqn:Hz; [by exists z|]. by apply last_None in Hz. }
  destruct Hl as [z Hl]. cbn [err_if as_fault map_err mbind result_bind]. destruct (_ <? _)%nat; [done|].
  cbn [err_if as_fault map_err mbind result_bind]. destruct (try_fold _ _ _) as [seen|]; [|done].
  cbn [err_if as_fault map_err mbind result_bind]. rewrite Hl. destruct (tp_output plan); cbn [expected ok_or mbind result_bind];
    (destruct (negb _); [done|]); cbn [err_if as_fault map_err mbind result_bind]; by destruct (List.find _ _).
Qed.

Lemma plan_to_workflow_ok w : (forall id, is_Some (layers !! id) -> is_blank id = false) ->
  plan_to_workflow uuid plan layers = Ok w <->
  exists output bound, plan_wf layers plan output
    /\ Forall2 bound_as (btree_iter String.le (referenced plan)) bound /\ w = compiled uuid plan output bound.
Proof.
  intros Hn. unfold plan_to_workflow. cbv zeta. rewrite bind_ok. setoid_rewrite <-bind_layers_ok. split.
  - intros (output & Hw%validate_plan_ok & (bound & Hb & (_ & [= <-])%seq_ok)%bind_ok). by exists output, bound.
  - intros (output & bound & Hw & Hb & ->). exists output. split; [by apply validate_plan_ok|].
    apply bind_ok. exists bound. split; [done|]. apply seq_ok. split; [|done].
    by apply checked_run_ok, validated_executable, (compiled_executable uuid layers plan output bound).
Qed.

Lemma plan_to_workflow_no_panic : (forall id, is_Some (layers !! id) -> is_blank id = false) ->
  plan_to_workflow uuid plan layers <> Err Panicked.
Proof.
  intros Hn. unfold plan_to_workflow. cbv zeta. destruct (validate_plan plan layers) as [output|[e|]] eqn:Hv;
    [|done|by destruct validate_plan_no_panic]. cbn [mbind result_bind].
  apply validate_plan_ok in Hv. destruct (try_map (bind_layer layers) _) as [bound|[e|]] eqn:Hb; [|done|].
  + cbn [mbind result_bind]. pose proof (compiled_executable uuid layers plan output bound Hv Hb Hn) as He.
    apply validated_executable in He. by rewrite He.
  + exfalso. revert Hb. apply try_map_no_panic. intros id Hid%elem_of_btree_iter.
    assert (Hl : is_Some (layers !! id)).
    { apply (referenced_iff plan) in Hid as (s & Hs & Hid). pose proof (pw_steps _ _ _ Hv) as Hf.
      rewrite Forall_forall in Hf. by apply (sw_layers _ _ (Hf s Hs)). }
    destruct Hl as [l Hl]. unfold bind_layer, expected. rewrite Hl. cbn [ok_or mbind result_bind].
    by destruct (core_crs l) as [crs|e].
Qed.

(** C28: a plan over named layers compiles if and only if it is well-formed and
    every layer it reads is in a coordinate system the core registry knows. The
    graph is then the plan's: one node per step, in order, one contract per layer
    that is read, pinned to the layer's digest, in the order of the layers' names.
    It always passes the graph's own validation, which is never what refuses a
    plan, and no plan makes the compilation panic. *)
Theorem plan_compiles_iff : (forall id, is_Some (layers !! id) -> is_blank id = false) ->
  (forall w, plan_to_workflow uuid plan layers = Ok w <->
     exists output bound, plan_wf layers plan output
       /\ Forall2 bound_as (btree_iter String.le (referenced plan)) bound /\ w = compiled uuid plan output bound)
  /\ (forall w, plan_to_workflow uuid plan layers = Ok w ->
        executable sha256_hex w /\ ids_of sha256_hex w = plan_ids (tp_steps plan)
        /\ forall c d, depends sha256_hex w d c <-> reads (tp_steps plan) c d)
  /\ plan_to_workflow uuid plan layers <> Err Panicked.
Proof.
  intros Hn. split_and!.
  - intros w. by apply plan_to_workflow_ok.
  - intros w (output & bound & Hw & Hb & ->)%plan_to_workflow_ok; [|done]. apply bind_layers_ok in Hb. split_and!.
    + by apply (compiled_executable uuid layers plan output bound).
    + by apply (compiled_ids uuid layers plan output bound).
    + intros c d. by apply (compiled_depends uuid layers plan output bound).
  - by apply plan_to_workflow_no_panic.
Qed.
End PlanToWorkflow.

(** ** The plan of the tests: a buffer around the sites, joined with the wards *)

Module Examples.
Import Wkb.Examples.
#[local] Instance plan_debug : DebugText := fun s => s.
#[local] Instance plan_text : JsonText :=
  {| json_scalar := fun v => match v with JString s | JNumber s => s | _ => "null" end; json_key := fun k => k |}.
#[local] Instance plan_host : SvgHost :=
  {| f64_fixed := fun _ _ => "0"; number_json := fun _ => JNull; sha256_hex := fun s => s |}.
#[local] Instance plan_display : F64Display := fun _ => "x".
#[local] Instance plan_command_text : CommandText :=
  {| workflow_error_text := fun _ => "invalid"; debug_string := fun s => s; debug_command := fun _ => "?" |}.

Definition sites : Layer := layer_new "sites" "EPSG:4326" CS_Declared.
Definition wards : Layer := Layer.Examples.wards.
Definition store : gmap string Layer := {["lyr_sites" := sites; "lyr_wards" := wards]}.
Definition buf : PlanStep := mkPlanStep "buf" "buffer" {["layer" := "lyr_sites"]} (JObject [("distance", JString "300 m")]).
Definition pop : PlanStep :=
  mkPlanStep "pop" "spatial_join" {["target" := "buf"; "join" := "layer:lyr_wards"]} JNull.
Definition population_plan : ToolkitPlan := mkPlan "population within 300 m" [buf; pop] None [].
Definition node_uuid (id : string) : string := "uuid:" +:+ id.

Example population_plan_is_valid : validate_plan population_plan store = Ok "pop".
Proof. vm_compute. reflexivity. Qed.
(** [rejects_bad_plans_before_execution] of the tests *)
Example unused_step_is_rejected :
  validate_plan (mkPlan "" [buf; pop] (Some "buf") []) store
  = Err (Error (TE_Plan "step pop does not contribute to the output")).
Proof. vm_compute. reflexivity. Qed.
Example unknown_operation_is_rejected :
  validate_plan (mkPlan "" [mkPlanStep "buf" "teleport" ∅ JNull] None []) store
  = Err (Error (TE_Plan "step buf: unknown operation teleport")).
Proof. vm_compute. reflexivity. Qed.
Example unloaded_layer_is_rejected :
  validate_plan (mkPlan "" [mkPlanStep "buf" "buffer" {["layer" := "lyr_doesnotexist"]} JNull] None []) store
  = Err (Error (TE_UnknownReference "step buf: layer lyr_doesnotexist is not loaded")).
Proof. vm_compute. reflexivity. Qed.

Lemma store_named id : is_Some (store !! id) -> is_blank id = false.
Proof.
  intros [l Hl]. unfold store in Hl. apply lookup_insert_Some in Hl as [[<- _]|[_ Hl]]; [reflexivity|].
  apply lookup_singleton_Some in Hl as [<- _]. reflexivity.
Qed.

Lemma plan_compiles_iff_witness :
  (exists w, plan_to_workflow node_uuid population_plan store = Ok w /\ executable sha256_hex w)
  /\ plan_to_workflow node_uuid (mkPlan "" [buf; pop] (Some "buf") []) store <> Err Panicked.
Proof.
  destruct (plan_compiles_iff node_uuid store population_plan store_named) as (Hc & Hx & _).
  destruct (plan_compiles_iff node_uuid store (mkPlan "" [buf; pop] (Some "buf") []) store_named) as (_ & _ & Hp).
  split; [|exact Hp].
  destruct (plan_to_workflow node_uuid population_plan store) as [w|e] eqn:Hw.
  - exists w. split; [reflexivity|]. exact (proj1 (Hx w eq_refl)).
  - assert (Hok : match plan_to_workflow node_uuid population_plan store with Ok _ => true | Err _ => false end = true)
      by (vm_compute; reflexivity). rewrite Hw in Hok. discriminate Hok.
Defined.
End Examples.
