(* ===== verification/PlanRun.v ===== *)
(** * Running a plan (crates/genegis-toolkit/src/execute.rs)

    [PlanExecutor::execute] reads the registered graph, not the plan: it checks that
    every input still has the content the graph was authorized for, runs the nodes
    in topological order and keeps a receipt for each. [run_plan] puts it behind the
    command bus. The reference is the evaluation of the plan itself, in the order of
    its steps. The artifacts the executor leaves in its mutex are modelled as what
    its one call left there; the summary of a layer, which transforms its bounding
    box, is the class [SummaryJson]. *)

From Stdlib Require Import Ascii.
From stdpp Require Import prelude strings gmap sorting.
From S2P Require Import Prelude RustStd Crs Json GeoContract Dag WorkflowGraph WorkflowAccept MapStyle Project WorkflowDigest Expr Command CommandSession CommandRun Proj Wkb Layer Ops Plan.
Local Open Scope builder_scope.

Record StepReceipt := mkReceipt {
  rc_id : string; rc_op : string; rc_inputs : gmap string string; rc_output_digest : string; rc_crs : string;
  rc_feature_count : nat; rc_checks : list OpCheck; rc_notes : list string }.
Record RunArtifacts `{GeoShapes} := mkArtifacts {
  ra_steps : list StepReceipt; ra_step_layers : gmap string Layer; ra_output_step : string }.
Arguments mkArtifacts {_} _ _ _.
Arguments ra_steps {_} _.
Arguments ra_step_layers {_} _.
Arguments ra_output_step {_} _.
Record ToolkitRun `{GeoShapes} := mkRun {
  tr_command_id : string; tr_workflow_digest : string; tr_result_digest : string; tr_workflow : GeoWorkflow;
  tr_steps : list StepReceipt; tr_output : Layer; tr_step_layers : gmap string Layer }.
Arguments mkRun {_} _ _ _ _ _ _ _.
Arguments tr_command_id {_} _.
Arguments tr_workflow_digest {_} _.
Arguments tr_result_digest {_} _.
Arguments tr_workflow {_} _.
Arguments tr_steps {_} _.
Arguments tr_output {_} _.
Arguments tr_step_layers {_} _.

(** [serde_json::to_value(layer.summary())] *)
Class SummaryJson `{GeoShapes} := summary_json : Layer -> json.

(** [Display] of a [ToolkitError] *)
Definition toolkit_error_text (e : ToolkitError) : string :=
  match e with
  | TE_Import format reason => format +:+ " import failed: " +:+ reason
  | TE_UnsupportedFormat reason => "unsupported file format: " +:+ reason
  | TE_CrsRequired reason => "CRS is required: " +:+ reason
  | TE_UnsupportedCrs crs => "unsupported CRS " +:+ crs
  | TE_InvalidCoordinate reason => "invalid coordinate: " +:+ reason
  | TE_Unit reason => "unit error: " +:+ reason
  | TE_Parameter operation reason => "invalid parameter for " +:+ operation +:+ ": " +:+ reason
  | TE_UnknownReference reference => "unknown reference: " +:+ reference
  | TE_Plan reason => "invalid plan: " +:+ reason
  | TE_Verification reason => "verification failed: " +:+ reason
  | TE_Expression reason => "invalid expression: " +:+ reason
  | TE_Provider reason => "provider error: " +:+ reason
  | TE_Unresolved reason => "planner could not resolve the request: " +:+ reason
  | TE_Export format reason => format +:+ " export failed: " +:+ reason
  | TE_Command reason => "command rejected: " +:+ reason
  | TE_Io reason => reason
  end.

(** A fault with its error rewritten *)
Definition map_fault {E F A} (g : E -> F) (r : result (fault E) A) : result (fault F) A :=
  map_err (fun e => match e with Error e => Error (g e) | Panicked => Panicked end) r.

(** [Serialize] of a receipt *)
Definition check_json (c : OpCheck) : json :=
  JObject [("id", JString (check_id c)); ("passed", JBool (passed c)); ("detail", JString (detail c))].
Definition receipt_json (r : StepReceipt) : json :=
  JObject [("id", JString (rc_id r)); ("op", JString (rc_op r));
    ("inputs", JObject (map (fun '(role, digest) => (role, JString digest)) (sorted_entries (rc_inputs r))));
    ("output_digest", JString (rc_output_digest r)); ("crs", JString (rc_crs r));
    ("feature_count", json_N (N.of_nat (rc_feature_count r)));
    ("checks", JArray (map check_json (rc_checks r))); ("notes", JArray (map JString (rc_notes r)))].

Section Executor.
Context `{GeoShapes} `{JsonText} `{SvgHost} `{NumberKind} `{ExprHost} `{TableHost}.
Context `{F64Display} `{Trigonometry} `{!GeoCoords} `{!OtherOperations}.
Context `{CommandText} `{!SummaryJson}.
Abbreviation layer_map := (gmap string Layer).
Abbreviation execution_run A := (result (fault string) A).
Context (layers : layer_map).

Definition check_contract (c : WorkflowInputContract) : result string unit :=
  l ← ok_or (layers !! ic_name c) ("input layer " +:+ ic_name c +:+ " is no longer available");
  pinned ← ok_or (source_snapshot c ≫= checksum) ("input " +:+ ic_name c +:+ " has no pinned digest");
  err_if (negb (bool_decide (layer_digest l = pinned))) ("input layer " +:+ ic_name c +:+ " changed after authorization").

Definition as_object (v : json) : option (list (string * json)) := match v with JObject es => Some es | _ => None end.
(** The layer of one role, among the sources and what was produced before *)
Definition read_role (produced : layer_map) (entry : string * json) : result string (string * Layer) :=
  let '(role, source) := entry in
  l ← match json_get "layer" source ≫= Expr.as_str with
      | Some id => ok_or (layers !! id) ("layer " +:+ id +:+ " missing")
      | None =>
          match json_get "step" source ≫= Expr.as_str with
          | Some id => ok_or (produced !! id) ("step " +:+ id +:+ " has not produced a layer")
          | None => Err ("input " +:+ role +:+ " has no source")
          end
      end;
  Ok (role, l).
Definition roles_of (s : WorkflowStep) : list (string * json) :=
  merge_sort entry_le (default [] (json_get "inputs" (parameters s) ≫= as_object)).

Definition stamped (digest : string) (l : Layer) : Layer :=
  let p := layer_provenance l in
  with_provenance {| source_uri := source_uri p; source_sha256 := source_sha256 p; pv_license := pv_license p;
    attribution := Layer.attribution p; format := format p; pv_retrieved_at := pv_retrieved_at p; parents := parents p;
    pv_operation := pv_operation p; pv_workflow_digest := Some digest; notes := notes p |} l.

(** One operation, and the refusal of a check that did not pass *)
Definition run_verified (node op : string) (inputs : layer_map) (params : json) : execution_run OpOutput :=
  o ← map_fault (fun e => "step " +:+ node +:+ ": " +:+ toolkit_error_text e) (Ops.run op inputs params);
  match List.find (fun c => negb (passed c)) (checks o) with
  | Some c => Err (Error ("verification failed at step " +:+ node +:+ " (" +:+ op +:+ "): " +:+ check_id c
                          +:+ " — " +:+ detail c))
  | None => Ok o
  end.
(** The receipt of an output whose stamped layer is [l] *)
Definition receipt (node op : string) (inputs : layer_map) (o : OpOutput) (l : Layer) : StepReceipt :=
  mkReceipt node op (layer_digest <$> inputs) (layer_digest l) (layer_crs l) (length (features l)) (checks o) (out_notes o).

(** One turn of the loop over the nodes *)
Definition execute_node (w : GeoWorkflow) (digest : string) (acc : layer_map * list StepReceipt) (node : string)
    : execution_run (layer_map * list StepReceipt) :=
  let '(produced, receipts) := acc in
  step ← as_fault (ok_or (List.find (fun s => bool_decide (node_id sha256_hex s = node)) (steps w))
                     ("node " +:+ node +:+ " missing"));
  op ← as_fault (ok_or (strip_prefix OPERATION_PREFIX (operation step))
                   (operation step +:+ " is not a toolkit operation"));
  entries ← as_fault (try_map (read_role produced) (roles_of step));
  let inputs : layer_map := list_to_map entries in
  let params := default (JObject []) (json_get "params" (parameters step)) in
  o ← run_verified node op inputs params;
  let l := stamped digest (out_layer o) in
  Ok (<[node := l]> produced, receipts ++ [receipt node op inputs o l]).

Definition execute (w : GeoWorkflow) (cx : WorkflowExecutionContext) : execution_run (WorkflowExecution * RunArtifacts) :=
  as_fault (for_each check_contract (input_contracts w));;
  order ← checked_run workflow_error_text (topological_order sha256_hex w);
  '(produced, receipts) ← try_fold (execute_node w (cx_digest cx)) (∅, []) order;
  output_step ← as_fault (ok_or (head (output_refs w) ≫= ref_node) "workflow has no output");
  output ← as_fault (ok_or (produced !! output_step) "output step produced nothing");
  let evidence := JArray (map receipt_json receipts) in
  let result_digest := sha256_bytes (layer_digest output +:+ nul +:+ canonical_json evidence) in
  Ok (mkExecution result_digest (summary_json output) evidence (one_event "toolkit_analysis" None (run_details cx) cx),
      mkArtifacts receipts produced output_step).

(** As the bus sees it; [run_plan] accounts for a panic. *)
Definition plan_executor : WorkflowExecutor := fun w cx =>
  match execute w cx with
  | Ok (x, _) => Ok x
  | Err (Error reason) => Err reason
  | Err Panicked => Err ""
  end.
(** What the call left in the mutex *)
Definition artifacts_left (w : GeoWorkflow) (cx : WorkflowExecutionContext) : option RunArtifacts :=
  match execute w cx with Ok (_, a) => Some a | Err _ => None end.
(** The bus reports a failed execution only when it has called the executor; one that
    panics unwinds through the bus. *)
Definition unwound (w : GeoWorkflow) (cx : WorkflowExecutionContext) (reply : fallible CommandExecution) : fallible CommandExecution :=
  match reply, execute w cx with
  | Err (Error (WorkflowExecutionFailed _)), Err Panicked => Err Panicked
  | _, _ => reply
  end.
End Executor.

Section RunPlan.
Context `{GeoShapes} `{JsonText} `{SvgHost} `{NumberKind} `{ExprHost} `{TableHost}.
Context `{F64Display} `{Trigonometry} `{!GeoCoords} `{!OtherOperations}.
Context `{CommandText} `{!SummaryJson} `{DebugText} `{F32Json} `{GeoContractJson} `{CommandErrorText}.
Abbreviation layer_map := (gmap string Layer).
Abbreviation plan_run A := (result (fault ToolkitError) A).

(** The envelope names the source and the input of every contract. *)
Definition add_contract (layers : layer_map) (e : CommandEnvelope) (c : WorkflowInputContract) : plan_run CommandEnvelope :=
  l ← expected (layers !! ic_name c);
  crs ← as_fault (core_crs l);
  Ok (e |> add_source_snapshot (layer_snapshot l)
        |> add_input_snapshot (snapshot_with_crs crs (snapshot_new (ic_name c) (layer_snapshot l)))).
Definition plan_envelope (f : Fresh) (digest : string) (w : GeoWorkflow) : CommandEnvelope :=
  {| env_id := fresh_command f; origin := Ui; timestamp := fresh_command_at f; env_digest := Some digest;
     source_snapshots := []; input_snapshots := []; command := RunWorkflow (workflow_id w) |}.

Definition run_plan (f : Fresh) (plan : ToolkitPlan) (layers : layer_map) : plan_run ToolkitRun :=
  workflow ← plan_to_workflow (fresh_uuid f) plan layers;
  text ← checked_run (fun e => TE_Plan (workflow_error_text e)) (stable_digest workflow);
  let digest := workflow_digest_new text in
  envelope ← try_fold (add_contract layers) (plan_envelope f digest workflow) (input_contracts workflow);
  execution ← map_err (bus_error TE_Command) (unwound layers workflow (context_of digest envelope)
    (run_on_fresh_bus f "GeneGIS toolkit analysis" workflow envelope (plan_executor layers)).1);
  artifacts ← as_fault (ok_or (artifacts_left layers workflow (context_of digest envelope))
    (TE_Command "executor produced no artifacts"));
  result_digest ← as_fault (ok_or (ce_result_digest execution) (TE_Command "workflow returned no result digest"));
  output ← expected (ra_step_layers artifacts !! ra_output_step artifacts);
  Ok (mkRun (env_id envelope) digest result_digest workflow (ra_steps artifacts) output (ra_step_layers artifacts)).
End RunPlan.

(** ** The plan evaluated step by step *)

Section Reference.
Context `{GeoShapes} `{JsonText} `{SvgHost} `{NumberKind} `{ExprHost} `{TableHost}.
Context `{F64Display} `{Trigonometry} `{!GeoCoords} `{!OtherOperations}.
Abbreviation layer_map := (gmap string Layer).
Context (layers : layer_map) (digest : string).

(** The layer of a role, read off the plan *)
Definition plan_role (produced : layer_map) (entry : string * string) : result string (string * Layer) :=
  let '(role, reference) := entry in
  l ← match parse_ref reference with
      | RefLayer id => ok_or (layers !! id) ("layer " +:+ id +:+ " missing")
      | RefStep id => ok_or (produced !! id) ("step " +:+ id +:+ " has not produced a layer")
      end;
  Ok (role, l).
Definition step_params (s : PlanStep) : json := match ps_params s with JNull => JObject [] | v => v end.
Definition step_inputs (produced : layer_map) (s : PlanStep) : result (fault string) layer_map :=
  entries ← as_fault (try_map (plan_role produced) (sorted_entries (ps_inputs s))); Ok (list_to_map entries).
Definition step_output (produced : layer_map) (s : PlanStep) : result (fault string) OpOutput :=
  inputs ← step_inputs produced s; run_verified (ps_id s) (ps_op s) inputs (step_params s).
Definition eval_step (produced : layer_map) (s : PlanStep) : result (fault string) layer_map :=
  o ← step_output produced s; Ok (<[ps_id s := stamped digest (out_layer o)]> produced).
(** The layers of all steps *)
Definition eval_plan (plan : ToolkitPlan) : result (fault string) layer_map := try_fold eval_step ∅ (tp_steps plan).
End Reference.

(** ** Evaluation in any order that respects the plan *)

Lemma try_fold_snoc {E A B} (f : B -> A -> result E B) b l x :
  try_fold f b (l ++ [x]) = (c ← try_fold f b l; f c x).
Proof.
  revert b. induction l as [|y l IH]; intros b; cbn [app try_fold mbind result_bind].
  - by destruct (f b x).
  - destruct (f b y) as [c|e]; [apply IH | done].
Qed.

Section Orders.
Context `{GeoShapes} `{JsonText} `{SvgHost} `{NumberKind} `{ExprHost} `{TableHost}.
Context `{F64Display} `{Trigonometry} `{!GeoCoords} `{!OtherOperations}.
Abbreviation layer_map := (gmap string Layer).
Context (layers : layer_map) (digest : string).
Abbreviation eval_step := (eval_step layers digest).
Abbreviation step_output := (step_output layers).

(** A step only looks at what it reads. *)
Lemma step_inputs_agree (P Q : layer_map) s : (forall id, id ∈ step_refs s -> P !! id = Q !! id) ->
  step_inputs layers P s = step_inputs layers Q s.
Proof.
  intros Ha. unfold step_inputs. f_equal. f_equal.
  assert (Hin : forall e, e ∈ sorted_entries (ps_inputs s) -> e.2 ∈ references s).
  { intros e He. by apply list_elem_of_fmap_2. }
  induction (sorted_entries (ps_inputs s)) as [|[role reference] es IH]; [done|]. cbn [try_map].
  rewrite IH by (intros e He; by apply Hin, list_elem_of_further). f_equal. unfold plan_role.
  destruct (parse_ref reference) as [id|id] eqn:Hp; [done|]. rewrite (Ha id); [done|].
  apply elem_of_step_refs. exists reference. split; [|done]. apply (Hin (role, reference)), list_elem_of_here.
Qed.

Lemma step_output_agree (P Q : layer_map) s : (forall id, id ∈ step_refs s -> P !! id = Q !! id) ->
  step_output P s = step_output Q s.
Proof. intros Ha. unfold PlanRun.step_output. by rewrite (step_inputs_agree P Q s Ha). Qed.

Lemma eval_step_ok P s Q : eval_step P s = Ok Q <->
  exists o, step_output P s = Ok o /\ Q = <[ps_id s := stamped digest (out_layer o)]> P.
Proof. unfold PlanRun.eval_step. rewrite bind_ok. split; intros (o & Ho & Hq); exists o; (split; [done|]); congruence. Qed.

(** Every step's layer is what the step makes of the others. *)
Definition solves (P : layer_map) (steps : list PlanStep) : Prop :=
  dom P = list_to_set (plan_ids steps)
  /\ forall s, s ∈ steps -> exists o, step_output P s = Ok o /\ P !! ps_id s = Some (stamped digest (out_layer o)).

Lemma refs_before_snoc steps s : refs_before (steps ++ [s]) ->
  refs_before steps /\ forall t, t ∈ steps ++ [s] -> forall id, id ∈ step_refs t -> id ∈ plan_ids steps.
Proof.
  intros Ho. split.
  - intros before t after -> id Hid. apply (Ho before t (after ++ [s])); [by rewrite <-app_assoc | done].
  - intros t [Ht|Ht%list_elem_of_singleton]%elem_of_app id Hid.
    + apply list_elem_of_split in Ht as (l1 & l2 & ->). unfold plan_ids. rewrite map_app. apply elem_of_app. left.
      apply (Ho l1 t (l2 ++ [s])); [by rewrite <-app_assoc | done].
    + subst t. by apply (Ho steps s []).
Qed.

Lemma fold_solves steps P : NoDup (plan_ids steps) -> refs_before steps ->
  try_fold eval_step ∅ steps = Ok P <-> solves P steps.
Proof.
  revert P. induction steps as [|s steps IH] using rev_ind; intros P Hn Ho.
  { split; [intros [= <-]; split; [apply dom_empty_L | by intros s Hs%not_elem_of_nil]|].
    intros [Hd _]. apply dom_empty_iff_L in Hd as ->. done. }
  rewrite try_fold_snoc, bind_ok. setoid_rewrite eval_step_ok.
  destruct (refs_before_snoc steps s Ho) as [Ho' Href].
  unfold plan_ids in Hn. rewrite map_app in Hn. apply NoDup_app in Hn as (Hn & Hfresh & _).
  assert (Hs : ps_id s ∉ plan_ids steps) by (intros Hin; apply (Hfresh _ Hin), list_elem_of_here). clear Hfresh.
  assert (Hagree : forall t (Q : layer_map) l, t ∈ steps ++ [s] -> step_output (<[ps_id s := l]> Q) t = step_output Q t).
  { intros t Q l Ht. apply step_output_agree. intros id Hid. apply lookup_insert_ne. intros <-. by apply Hs, (Href t Ht). }
  setoid_rewrite IH; [|done|done]. clear IH. split.
  - intros (Q & [Hd Hq] & o & Hout & ->). split.
    + rewrite dom_insert_L, Hd. unfold plan_ids. rewrite map_app, list_to_set_app_L. cbn. set_solver.
    + intros t Ht. pose proof Ht as [Hts|Hts%list_elem_of_singleton]%elem_of_app.
      * destruct (Hq t Hts) as (o' & Ho1 & Hl). exists o'. rewrite Hagree by done. split; [done|].
        rewrite lookup_insert_ne; [done|]. intros Heq. apply Hs. rewrite Heq. by apply list_elem_of_fmap_2.
      * subst t. exists o. rewrite Hagree by done. by rewrite lookup_insert_eq.
  - intros [Hd Hq]. assert (Hin : s ∈ steps ++ [s]) by (apply elem_of_app; right; apply list_elem_of_here).
    destruct (Hq s Hin) as (o & Hout & Hl).
    pose proof (insert_delete_id P (ps_id s) _ Hl) as HP. exists (delete (ps_id s) P). split.
    + split.
      * rewrite dom_delete_L, Hd. unfold plan_ids in *. rewrite map_app, list_to_set_app_L. cbn.
        apply set_eq. intros x. assert (x ∈ map ps_id steps -> x <> ps_id s) by (intros Hx ->; done). set_solver.
      * intros t Ht. assert (Ht' : t ∈ steps ++ [s]) by (apply elem_of_app; by left).
        destruct (Hq t Ht') as (o' & Ho1 & Ho2). exists o'.
        rewrite <-HP, Hagree in Ho1 by done. split; [done|]. rewrite lookup_delete_ne; [done|].
        intros Heq. apply Hs. rewrite Heq. by apply list_elem_of_fmap_2.
    + exists o. rewrite <-HP, Hagree in Hout by done. by rewrite HP.
Qed.

Lemma solves_perm P steps steps' : steps ≡ₚ steps' -> solves P steps -> solves P steps'.
Proof.
  intros Hp [Hd Hs]. split; [|intros s Hin; apply Hs; by rewrite Hp]. rewrite Hd. unfold plan_ids.
  apply set_eq. intros x. rewrite !elem_of_list_to_set. by rewrite (Permutation_map ps_id Hp).
Qed.

(** The layers do not depend on the order. *)
Lemma fold_any_order steps steps' P : NoDup (plan_ids steps) -> refs_before steps -> refs_before steps' -> steps ≡ₚ steps' ->
  try_fold eval_step ∅ steps = Ok P <-> try_fold eval_step ∅ steps' = Ok P.
Proof.
  intros Hn Ho Ho' Hp. assert (Hn' : NoDup (plan_ids steps')) by (unfold plan_ids; by rewrite <-(Permutation_map ps_id Hp)).
  rewrite !fold_solves by done. split; by apply solves_perm.
Qed.
End Orders.

(** ** The executor evaluates the plan *)

(** A sorted list of entries is left alone. *)
Lemma merge_sort_entries {V} (l : list (string * V)) : NoDup (map fst l) -> StronglySorted entry_le l ->
  merge_sort entry_le l = l.
Proof.
  intros Hn Hs. apply (StronglySorted_unique_strong entry_le); [| exact (StronglySorted_merge_sort entry_le l) | done | apply merge_sort_Permutation].
  intros [k v] [k' v'] Hx Hy Hle Hle'. rewrite merge_sort_Permutation in Hx.
  pose proof (anti_symm String.le k k' Hle Hle') as <-.
  apply list_elem_of_lookup in Hx as [i Hi], Hy as [j Hj].
  assert (i = j) as <-; [|congruence]. eapply (NoDup_lookup _ i j k); [exact Hn | by rewrite list_lookup_fmap, Hi | by rewrite list_lookup_fmap, Hj].
Qed.

Lemma sorted_entries_map {V W} (f : V -> W) (m : gmap string V) :
  merge_sort entry_le (map (fun '(k, v) => (k, f v)) (sorted_entries m)) = map (fun '(k, v) => (k, f v)) (sorted_entries m).
Proof.
  assert (Hkeys : map fst (map (fun '(k, v) => (k, f v)) (sorted_entries m)) = map fst (sorted_entries m)).
  { rewrite map_map. apply map_ext. by intros []. }
  apply merge_sort_entries.
  - rewrite Hkeys. unfold sorted_entries. rewrite (Permutation_map fst (merge_sort_Permutation entry_le (map_to_list m))).
    apply NoDup_fst_map_to_list.
  - assert (Hmap : forall l : list (string * V), StronglySorted entry_le l ->
      StronglySorted entry_le (map (fun '(k, v) => (k, f v)) l)).
    { induction 1 as [|[k v] l Hs IH Hle]; cbn [map]; constructor; [done|].
      apply Forall_map. eapply Forall_impl; [exact Hle|]. by intros []. }
    exact (Hmap _ (StronglySorted_merge_sort entry_le _)).
Qed.

Section Executes.
Context `{GeoShapes} `{JsonText} `{SvgHost} `{NumberKind} `{ExprHost} `{TableHost}.
Context `{F64Display} `{Trigonometry} `{!GeoCoords} `{!OtherOperations}.
Context `{CommandText} `{!SummaryJson} `{DebugText}.
Context (uuid : string -> string) (layers : gmap string Layer) (plan : ToolkitPlan) (output digest : string).
Context (bound : list (WorkflowInputContract * json)).
Hypothesis Hwf : plan_wf layers plan output.
Hypothesis Hbound : Forall2 (bound_as layers) (btree_iter String.le (referenced plan)) bound.
Hypothesis Hnamed : forall id, is_Some (layers !! id) -> is_blank id = false.
Abbreviation w := (compiled uuid plan output bound).
Abbreviation state := (gmap string Layer * list StepReceipt)%type.

(** A node of the graph, read off the step it was made of *)
Definition plan_node (acc : state) (s : PlanStep) : result (fault string) state :=
  inputs ← step_inputs layers acc.1 s;
  o ← run_verified (ps_id s) (ps_op s) inputs (step_params s);
  let l := stamped digest (out_layer o) in
  Ok (<[ps_id s := l]> acc.1, acc.2 ++ [receipt (ps_id s) (ps_op s) inputs o l]).

Lemma roles_compiled s : roles_of (compile_step uuid s)
  = map (fun '(role, reference) => (role, role_source reference)) (sorted_entries (ps_inputs s)).
Proof.
  change (roles_of (compile_step uuid s)) with
    (merge_sort entry_le (map (fun '(role, reference) => (role, role_source reference)) (sorted_entries (ps_inputs s)))).
  apply sorted_entries_map.
Qed.

Lemma read_role_compiled (produced : gmap string Layer) role reference :
  read_role layers produced (role, role_source reference) = plan_role layers produced (role, reference).
Proof. unfold read_role, plan_role, role_source. by destruct (parse_ref reference). Qed.

Lemma try_map_map {E A B C} (f : B -> result E C) (g : A -> B) l : try_map f (map g l) = try_map (fun x => f (g x)) l.
Proof. induction l as [|x l IH]; [done|]. cbn [map try_map]. by rewrite IH. Qed.
Lemma try_map_ext {E A B} (f g : A -> result E B) l : (forall x, f x = g x) -> try_map f l = try_map g l.
Proof. intros Hfg. induction l as [|x l IH]; [done|]. cbn [try_map]. by rewrite Hfg, IH. Qed.

Lemma find_compiled s : s ∈ tp_steps plan ->
  List.find (fun t => bool_decide (node_id sha256_hex t = ps_id s)) (WorkflowGraph.steps w) = Some (compile_step uuid s).
Proof.
  intros Hs. cbn [compiled WorkflowGraph.steps]. pose proof (compiled_node uuid layers plan output Hwf) as Hid.
  pose proof (pw_distinct _ _ _ Hwf) as Hn. unfold plan_ids in Hn. revert Hs Hid Hn.
  generalize (tp_steps plan). intros steps. induction steps as [|t steps IH]; intros Hs Hid Hn; [by apply not_elem_of_nil in Hs|].
  cbn [map List.find]. rewrite Hid by apply list_elem_of_here. apply NoDup_cons in Hn as [Hnt Hn].
  apply elem_of_cons in Hs as [->|Hs]; [by rewrite bool_decide_true|]. rewrite bool_decide_false.
  - apply IH; [done | intros u Hu; by apply Hid, list_elem_of_further | done].
  - intros Heq. apply Hnt. rewrite Heq. by apply list_elem_of_fmap_2.
Qed.

Lemma execute_node_plan (acc : state) s : s ∈ tp_steps plan ->
  execute_node layers w digest acc (ps_id s) = plan_node acc s.
Proof.
  intros Hs. destruct acc as [produced receipts]. unfold execute_node, plan_node.
  rewrite (find_compiled s Hs). cbn [ok_or as_fault map_err mbind result_bind].
  change (operation (compile_step uuid s)) with (OPERATION_PREFIX +:+ ps_op s). rewrite strip_prefix_app.
  cbn [ok_or as_fault map_err mbind result_bind fst snd]. rewrite roles_compiled, try_map_map.
  rewrite (try_map_ext _ (plan_role layers produced)) by (intros []; apply read_role_compiled).
  unfold step_inputs. destruct (try_map _ _) as [entries|e]; [|done]. reflexivity.
Qed.

Lemma execute_fold order acc : (forall s, s ∈ order -> s ∈ tp_steps plan) ->
  try_fold (execute_node layers w digest) acc (plan_ids order) = try_fold plan_node acc order.
Proof.
  revert acc. induction order as [|s order IH]; intros acc Hin; [done|]. cbn [plan_ids map try_fold].
  rewrite execute_node_plan by apply Hin, list_elem_of_here. destruct (plan_node acc s) as [acc'|e]; [|done].
  cbn [mbind result_bind]. apply IH. intros t Ht. by apply Hin, list_elem_of_further.
Qed.

Lemma plan_node_layers (acc : state) s : (x ← plan_node acc s; Ok x.1) = eval_step layers digest acc.1 s.
Proof.
  unfold plan_node, eval_step, step_output. destruct (step_inputs layers acc.1 s) as [inputs|e]; [|done].
  cbn [mbind result_bind]. by destruct (run_verified _ _ _ _).
Qed.
Lemma plan_fold_layers order (acc : state) :
  (x ← try_fold plan_node acc order; Ok x.1) = try_fold (eval_step layers digest) acc.1 order.
Proof.
  revert acc. induction order as [|s order IH]; intros acc; [done|]. cbn [try_fold]. rewrite <-plan_node_layers.
  destruct (plan_node acc s) as [acc'|e]; [apply IH | done].
Qed.

(** The order of the graph is an order of the plan's steps. *)
Lemma compiled_order : exists order, topological_order sha256_hex w = Done (plan_ids order)
  /\ order ≡ₚ tp_steps plan /\ refs_before order
  /\ exists adj, (forall d c, edge adj d c <-> reads (tp_steps plan) c d)
     /\ greedy (list_to_set (plan_ids (tp_steps plan))) adj (plan_ids order).
Proof.
  pose proof (proj2 (bind_layers_ok layers _ _) Hbound) as Hb.
  pose proof (compiled_executable uuid layers plan output bound Hwf Hb Hnamed) as Hex.
  destruct (executable_ordered _ _ Hex) as [ids Hids].
  destruct (order_cases sha256_hex w) as [(e & He & _) | [(o & He & (_ & Hp & Hr & _ & _ & _ & adj & Hadj & Hg) & _) | [(l & He & _) | (l & He & _)]]];
    rewrite He in Hids; try done. injection Hids as ->.
  unfold node_set in Hg. rewrite (compiled_ids uuid layers plan output bound Hwf) in Hp, Hg. unfold plan_ids in Hp.
  destruct (Permutation_map_inv _ _ Hp) as (order & -> & Hperm). exists order.
  split_and!; [done | by symmetry | |].
  2: { exists adj. split; [|exact Hg]. intros d c. rewrite Hadj. apply (compiled_depends uuid layers plan output bound Hwf). }
  intros before s after Heq id Hid.
  apply (Hr (plan_ids before) (ps_id s) (plan_ids after)); [unfold plan_ids; by rewrite Heq, map_app|].
  apply (compiled_depends uuid layers plan output bound Hwf). exists s. split_and!; [|done | done].
  rewrite Hperm, Heq. apply elem_of_app. right. apply list_elem_of_here.
Qed.

(** Every input still has the content it was pinned to. *)
Lemma contracts_unchanged : for_each (check_contract layers) (input_contracts w) = Ok tt.
Proof.
  apply for_each_ok, Forall_forall. intros c Hc. cbn [compiled input_contracts] in Hc.
  apply list_elem_of_fmap in Hc as (b & -> & Hb). destruct (related_r _ _ _ _ Hbound Hb) as (id & _ & l & crs & Hl & _ & ->).
  unfold check_contract. cbn [fst]. change (ic_name (layer_contract id l crs)) with id. rewrite Hl.
  cbn [ok_or mbind result_bind]. change (source_snapshot (layer_contract id l crs) ≫= checksum) with (Some (layer_digest l)).
  cbn [ok_or mbind result_bind]. by rewrite bool_decide_true.
Qed.

(** What one execution answers, given its order *)
Definition executed (cx : WorkflowExecutionContext) (acc : state) : result (fault string) (WorkflowExecution * RunArtifacts) :=
  l ← as_fault (ok_or (acc.1 !! output) "output step produced nothing");
  let evidence := JArray (map receipt_json acc.2) in
  Ok (mkExecution (sha256_bytes (layer_digest l +:+ nul +:+ canonical_json evidence)) (summary_json l) evidence
        (one_event "toolkit_analysis" None (run_details cx) cx), mkArtifacts acc.2 acc.1 output).
Lemma execute_compiled cx order : cx_digest cx = digest ->
  topological_order sha256_hex w = Done (plan_ids order) -> order ≡ₚ tp_steps plan ->
  execute layers w cx = (acc ← try_fold plan_node (∅, []) order; executed cx acc).
Proof.
  intros Hd Ho Hp. unfold execute. rewrite contracts_unchanged, Hd. cbn [as_fault map_err mbind result_bind].
  rewrite Ho. cbn [checked_run mbind result_bind]. pose proof (execute_fold order (∅, [])) as Hf.
  rewrite Hf by (intros s Hs; by rewrite <-Hp). clear Hf.
  destruct (try_fold plan_node _ _) as [[produced receipts]|e]; reflexivity.
Qed.
End Executes.

(** ** The run behind the bus *)

Lemma same_ids_same_steps order order' steps : NoDup (plan_ids steps) -> order ≡ₚ steps -> order' ≡ₚ steps ->
  plan_ids order = plan_ids order' -> order = order'.
Proof.
  intros Hn Hp Hp' Heq. apply list_eq. intros i. pose proof (f_equal (fun l => l !! i) Heq) as Hi. cbv beta in Hi.
  unfold plan_ids in Hi. rewrite !list_lookup_fmap in Hi.
  destruct (order !! i) as [s|] eqn:Hs, (order' !! i) as [t|] eqn:Ht; try done. injection Hi as Hid. f_equal.
  assert (Hin : s ∈ steps) by (rewrite <-Hp; by eapply list_elem_of_lookup_2).
  assert (Hin' : t ∈ steps) by (rewrite <-Hp'; by eapply list_elem_of_lookup_2).
  apply list_elem_of_lookup in Hin as [j Hj], Hin' as [k Hk].
  assert (j = k) as <-; [|congruence].
  eapply (NoDup_lookup (plan_ids steps) j k (ps_id s)); [exact Hn | unfold plan_ids; by rewrite list_lookup_fmap, Hj |].
  unfold plan_ids. rewrite list_lookup_fmap, Hk. cbn. by rewrite Hid.
Qed.

Section RunCorrect.
Context `{GeoShapes} `{JsonText} `{SvgHost} `{NumberKind} `{ExprHost} `{TableHost}.
Context `{F64Display} `{Trigonometry} `{!GeoCoords} `{!OtherOperations}.
Context `{CommandText} `{!SummaryJson} `{DebugText} `{F32Json} `{GeoContractJson} `{CommandErrorText}.
Context (layers : gmap string Layer) (plan : ToolkitPlan).
Hypothesis Hnamed : forall id, is_Some (layers !! id) -> is_blank id = false.
Abbreviation state := (gmap string Layer * list StepReceipt)%type.

(** The envelope carries the source and an input of every contract, and nothing else. *)
Lemma add_contracts_ok ids bs e : Forall2 (bound_as layers) ids bs -> exists e',
  try_fold (add_contract layers) e (map fst bs) = Ok e'
  /\ command e' = command e /\ env_id e' = env_id e /\ env_digest e' = env_digest e
  /\ (forall s, s ∈ source_snapshots e' <-> s ∈ source_snapshots e \/ exists b, b ∈ bs /\ source_snapshot b.1 = Some s)
  /\ (forall i, i ∈ input_snapshots e' -> i ∈ input_snapshots e
        \/ exists b, b ∈ bs /\ ic_name b.1 = sn_name i /\ source_snapshot b.1 = Some (sn_source i)).
Proof.
  intros Hb. revert e. induction Hb as [|id b ids bs (l & crs & Hl & Hc & ->) _ IH]; intros e.
  { exists e. split_and!; try done; [|by left]. intros s. split; [by left | intros [?|(b & []%not_elem_of_nil & _)]; done]. }
  set (b := (layer_contract id l crs, layer_input id l)). set (e1 := add_input_snapshot
    (snapshot_with_crs crs (snapshot_new id (layer_snapshot l))) (add_source_snapshot (layer_snapshot l) e)).
  assert (Hstep : add_contract layers e b.1 = Ok e1).
  { unfold add_contract. change (ic_name b.1) with id. rewrite Hl. cbn [expected ok_or mbind result_bind]. by rewrite Hc. }
  destruct (IH e1) as (e' & He & Hcm & Hei & Hed & Hs & Hi). exists e'. cbn [map try_fold]. rewrite Hstep. cbn [mbind result_bind].
  split_and!; try done.
  - intros s. rewrite Hs. cbn [e1 add_input_snapshot add_source_snapshot source_snapshots]. rewrite elem_of_app, list_elem_of_singleton.
    split.
    + intros [[Hin| ->]|(b' & Hb' & Hbs)]; [by left | |]; right; [exists b | exists b'; split; [by apply list_elem_of_further | done]].
      by split; [apply list_elem_of_here|].
    + intros [Hin|(b' & [->|Hb']%elem_of_cons & Hbs)]; [by left; left | by left; right; injection Hbs as <- | by right; exists b'].
  - intros i Hin. destruct (Hi i Hin) as [Hin'|(b' & Hb' & Hn & Hsrc)].
    + cbn [e1 add_input_snapshot add_source_snapshot input_snapshots] in Hin'.
      apply elem_of_app in Hin' as [Hin'|Hin'%list_elem_of_singleton]; [by left|]. right. exists b. subst i.
      by split; [apply list_elem_of_here|].
    + right. exists b'. split; [by apply list_elem_of_further | done].
Qed.

Lemma find_contract (cs : list WorkflowInputContract) c : NoDup (map ic_name cs) -> c ∈ cs ->
  List.find (fun d => bool_decide (ic_name d = ic_name c)) cs = Some c.
Proof.
  induction cs as [|d cs IH]; intros Hn Hc; [by apply not_elem_of_nil in Hc|]. cbn [map List.find] in *.
  apply NoDup_cons in Hn as [Hd Hn]. apply elem_of_cons in Hc as [->|Hc]; [by rewrite bool_decide_true|].
  rewrite bool_decide_false; [by apply IH|]. intros Heq. apply Hd. rewrite Heq. by apply list_elem_of_fmap_2.
Qed.

Section Compiled.
Context (uuid : string -> string) (output : string) (bound : list (WorkflowInputContract * json)).
Hypothesis Hwf : plan_wf layers plan output.
Hypothesis Hbound : Forall2 (bound_as layers) (btree_iter String.le (referenced plan)) bound.
Abbreviation w := (compiled uuid plan output bound).

Lemma compiled_validated : validate sha256_hex w = Done tt.
Proof.
  apply validated_executable, (compiled_executable uuid layers plan output bound Hwf); [by apply bind_layers_ok | done].
Qed.

Lemma envelope_admitted e e' : try_fold (add_contract layers) e (map fst bound) = Ok e' ->
  source_snapshots e = [] -> input_snapshots e = [] -> validate_input_snapshots w e' = Ok tt.
Proof.
  intros He Hs0 Hi0. destruct (add_contracts_ok _ _ e Hbound) as (e1 & He1 & _ & _ & _ & Hs & Hi).
  rewrite He in He1. injection He1 as <-. rewrite Hs0 in Hs. rewrite Hi0 in Hi.
  assert (Hn : NoDup (map ic_name (map fst bound))).
  { rewrite (bound_names layers plan bound); [apply NoDup_btree_iter | by apply bind_layers_ok]. }
  apply validate_input_snapshots_iff. split; cbn [compiled input_contracts].
  - intros s Hin. apply Hs in Hin as [[]%not_elem_of_nil|(b & Hb & Hsrc)]. right. left. exists b.1, s.
    split_and!; [by apply list_elem_of_fmap_2 | done | done].
  - intros i Hin. destruct (Hi i Hin) as [[]%not_elem_of_nil|(b & Hb & Hname & Hsrc)]. exists b.1. rewrite <-Hname.
    split; [apply find_contract; [done | by apply list_elem_of_fmap_2]|]. intros x Hx. congruence.
  - intros c x (b & -> & Hb)%list_elem_of_fmap Hx. right. exists x. split; [|done]. apply Hs. right. by exists b.
Qed.
End Compiled.

Lemma digest_of_compiled u u' output bound : plan_wf layers plan output ->
  stable_digest_unchecked (compiled u plan output bound) = stable_digest_unchecked (compiled u' plan output bound).
Proof.
  intros Hwf. unfold stable_digest_unchecked. f_equal. f_equal. f_equal. unfold document, canonical_output_refs.
  rewrite !(compiled_not_legacy _ layers plan output bound Hwf), !canonical_steps_map. cbn [compiled WorkflowGraph.steps output_refs].
  rewrite !map_map. reflexivity.
Qed.

(** Two graphs of one plan are scheduled alike. *)
Lemma order_of_compiled (order order' : list PlanStep) adj adj' :
  NoDup (plan_ids (tp_steps plan)) -> order ≡ₚ tp_steps plan -> order' ≡ₚ tp_steps plan ->
  (forall d c, edge adj d c <-> reads (tp_steps plan) c d) -> (forall d c, edge adj' d c <-> reads (tp_steps plan) c d) ->
  greedy (list_to_set (plan_ids (tp_steps plan))) adj (plan_ids order) ->
  greedy (list_to_set (plan_ids (tp_steps plan))) adj' (plan_ids order') -> order = order'.
Proof.
  intros Hn Hp Hp' Ha Ha' Hg Hg'. apply (same_ids_same_steps order order' (tp_steps plan)); try done.
  eapply greedy_unique; [exact Hg | apply (greedy_ext _ adj'); [|exact Hg'] |].
  - intros d c. by rewrite Ha, Ha'.
  - unfold plan_ids. by rewrite !length_map, Hp, Hp'.
Qed.

(** What a run answers whose nodes left [acc] behind, with [l] for the output *)
Definition answer (f : Fresh) (output digest : string) (w : GeoWorkflow) (acc : state) (l : Layer) : ToolkitRun :=
  mkRun (fresh_command f) digest
    (sha256_bytes (layer_digest l +:+ nul +:+ canonical_json (JArray (map receipt_json acc.2)))) w acc.2 l acc.1.

Lemma step_params_object s : step_params s <> JNull.
Proof. unfold step_params. by destruct (ps_params s). Qed.
Lemma plan_node_panics digest (acc : state) s : plan_node layers digest acc s = Err Panicked ->
  exists inputs, other_call inputs (step_params s) (ps_op s) (Err Panicked).
Proof.
  unfold plan_node, step_inputs. destruct (try_map _ _) as [entries|e]; [|done]. cbn [as_fault map_err mbind result_bind].
  unfold run_verified, map_fault. pose proof (run_panics (ps_op s) (list_to_map entries) (step_params s)) as Hn.
  destruct (run _ _ _) as [o|[e|]]; cbn [map_err mbind result_bind]; [by destruct (List.find _ _) | done|]. intros _.
  destruct (Hn eq_refl) as (p & [[Hnull _]| ->] & Hc); [by destruct (step_params_object s) | by exists (list_to_map entries)].
Qed.

Lemma output_produced digest order output acc : plan_wf layers plan output -> order ≡ₚ tp_steps plan -> refs_before order ->
  try_fold (plan_node layers digest) (∅, []) order = Ok acc -> is_Some (acc.1 !! output).
Proof.
  intros Hwf Hp Ho Hf. pose proof (plan_fold_layers layers digest order (∅, [])) as Hl. rewrite Hf in Hl. symmetry in Hl.
  cbn [mbind result_bind fst] in Hl. apply fold_solves in Hl as [Hd _]; [|unfold plan_ids; rewrite Hp; apply (pw_distinct _ _ _ Hwf)|done].
  apply elem_of_dom. rewrite Hd, elem_of_list_to_set. unfold plan_ids. rewrite Hp. apply (pw_output_in _ _ _ Hwf).
Qed.

Lemma run_plan_compiled f output bound order : plan_wf layers plan output ->
  Forall2 (bound_as layers) (btree_iter String.le (referenced plan)) bound ->
  let w := compiled (fresh_uuid f) plan output bound in
  let digest := trim (stable_digest_unchecked w) in
  topological_order sha256_hex w = Done (plan_ids order) -> order ≡ₚ tp_steps plan -> refs_before order ->
  match try_fold (plan_node layers digest) (∅, []) order with
  | Ok acc => exists l, acc.1 !! output = Some l /\ run_plan f plan layers = Ok (answer f output digest w acc l)
  | Err (Error m) => run_plan f plan layers = Err (Error (TE_Command (executor_failure m)))
  | Err Panicked => run_plan f plan layers = Err Panicked
  end.
Proof.
  intros Hwf Hb w digest Ht Hp Ho. unfold run_plan.
  rewrite (proj2 (plan_to_workflow_ok (fresh_uuid f) layers plan w Hnamed)) by (by exists output, bound).
  cbn [mbind result_bind]. pose proof (compiled_validated (fresh_uuid f) output bound Hwf Hb) as Hv. fold w in Hv.
  unfold stable_digest. rewrite Hv. cbn [checked_run mbind outcome_bind result_bind]. change (workflow_digest_new _) with digest.
  destruct (add_contracts_ok _ _ (plan_envelope f digest w) Hb) as (e & He & Hcmd & Hid & Hdg & _ & _).
  pose proof (envelope_admitted (fresh_uuid f) output bound Hb _ _ He eq_refl eq_refl) as Hadm.
  change (input_contracts w) with (map fst bound). rewrite He. cbn [mbind result_bind].
  pose proof (run_admitted f "GeneGIS toolkit analysis" w e (plan_executor layers) Hv Hcmd Hdg Hadm) as Hrun. fold digest in Hrun.
  pose proof (execute_compiled (fresh_uuid f) layers plan output digest bound Hwf Hb (context_of digest e) order eq_refl Ht Hp) as Hx.
  fold w in Hx. unfold artifacts_left, unwound. unfold plan_executor in Hrun at 1. rewrite Hx in Hrun |- *. clear Hx.
  destruct (try_fold (plan_node layers digest) _ _) as [acc|x] eqn:Hf.
  - destruct (output_produced digest order output acc Hwf Hp Ho Hf) as [l Hl]. exists l. split; [done|].
    unfold executed in Hrun |- *. cbn [mbind result_bind] in Hrun |- *. rewrite Hl in Hrun |- *.
    cbn [ok_or as_fault map_err mbind result_bind] in Hrun |- *.
    rewrite (is_blank_graphic (fun x => x) "s"%char _ eq_refl : is_blank (result_digest (mkExecution (sha256_bytes _) _ _ _)) = false) in Hrun.
    destruct Hrun as (r & s & -> & _ & Hrd & _). cbn [fst map_err mbind result_bind ra_step_layers ra_output_step]. rewrite Hrd.
    cbn [ok_or as_fault map_err mbind result_bind]. rewrite Hl. cbn [expected ok_or mbind result_bind]. by rewrite Hid.
  - destruct x as [m|]; cbn [mbind result_bind] in Hrun; by rewrite Hrun.
Qed.

(** A schedule of the plan's graphs *)
Record scheduled (uuid : string -> string) (output : string) (bound : list (WorkflowInputContract * json))
    (order : list PlanStep) : Prop := {
  sc_wf : plan_wf layers plan output;
  sc_bound : Forall2 (bound_as layers) (btree_iter String.le (referenced plan)) bound;
  sc_topological : topological_order sha256_hex (compiled uuid plan output bound) = Done (plan_ids order);
  sc_perm : order ≡ₚ tp_steps plan;
  sc_refs : refs_before order }.

Lemma scheduled_any uuid uuid' output bound order : scheduled uuid output bound order -> scheduled uuid' output bound order.
Proof.
  intros [Hwf Hb Ht Hp Ho]. split; [exact Hwf | exact Hb | | exact Hp | exact Ho].
  destruct (compiled_order uuid layers plan output bound Hwf Hb Hnamed) as (o1 & Ht1 & Hp1 & _ & adj1 & Ha1 & Hg1).
  destruct (compiled_order uuid' layers plan output bound Hwf Hb Hnamed) as (o2 & Ht2 & Hp2 & _ & adj2 & Ha2 & Hg2).
  pose proof (pw_distinct _ _ _ Hwf) as Hn. rewrite Ht in Ht1. injection Ht1 as Hids.
  pose proof (same_ids_same_steps order o1 _ Hn Hp Hp1 Hids) as ->.
  by rewrite (order_of_compiled o1 o2 adj1 adj2 Hn Hp1 Hp2 Ha1 Ha2 Hg1 Hg2).
Qed.

Lemma compiles_scheduled uuid w : plan_to_workflow uuid plan layers = Ok w -> exists output bound order,
  scheduled uuid output bound order /\ w = compiled uuid plan output bound.
Proof.
  intros (output & bound & Hwf & Hb & ->)%plan_to_workflow_ok; [|done].
  destruct (compiled_order uuid layers plan output bound Hwf Hb Hnamed) as (order & Ht & Hp & Ho & _).
  by exists output, bound, order.
Qed.

Lemma run_plan_ok f r : run_plan f plan layers = Ok r <-> exists output bound order acc l,
  scheduled (fresh_uuid f) output bound order
  /\ let w := compiled (fresh_uuid f) plan output bound in
     let digest := trim (stable_digest_unchecked w) in
     try_fold (plan_node layers digest) (∅, []) order = Ok acc /\ acc.1 !! output = Some l
     /\ r = answer f output digest w acc l.
Proof.
  split.
  - intros Hr. assert (Hw : exists w, plan_to_workflow (fresh_uuid f) plan layers = Ok w).
    { unfold run_plan in Hr. apply bind_ok in Hr as (w & Hw & _). by exists w. }
    destruct Hw as (w & (output & bound & order & Hs & _)%compiles_scheduled). exists output, bound, order.
    destruct Hs as [Hwf Hb Ht Hp Ho]. pose proof (run_plan_compiled f output bound order Hwf Hb Ht Hp Ho) as Hrun.
    cbv zeta in Hrun. destruct (try_fold (plan_node _ _) _ _) as [acc|x] eqn:Hf; [|destruct x; congruence].
    destruct Hrun as (l & Hl & Hok). exists acc, l. split; [by split|]. cbv zeta. split_and!; [exact Hf | exact Hl | congruence].
  - intros (output & bound & order & acc & l & [Hwf Hb Ht Hp Ho] & Hf & Hl & ->).
    pose proof (run_plan_compiled f output bound order Hwf Hb Ht Hp Ho) as Hrun. cbv zeta in Hrun, Hf. rewrite Hf in Hrun.
    destruct Hrun as (l' & Hl' & Hok). congruence.
Qed.

Lemma fold_evaluates digest order : NoDup (plan_ids (tp_steps plan)) -> refs_before (tp_steps plan) -> order ≡ₚ tp_steps plan ->
  refs_before order -> forall P, eval_plan layers digest plan = Ok P <->
  exists receipts, try_fold (plan_node layers digest) (∅, []) order = Ok (P, receipts).
Proof.
  intros Hn Hb Hp Ho P. unfold eval_plan.
  rewrite (fold_any_order layers digest (tp_steps plan) order P Hn Hb Ho) by (by symmetry).
  pose proof (plan_fold_layers layers digest order (∅, [])) as Hl. cbn [fst] in Hl. rewrite <-Hl.
  destruct (try_fold (plan_node layers digest) _ _) as [[Q receipts]|x]; cbn [mbind result_bind fst].
  - split; [intros [= ->]; by exists receipts | intros (rs & Hrs); congruence].
  - split; [done | by intros (rs & Hrs)].
Qed.

(** What a receipt says of the layers of the run *)
Definition truthful (P : gmap string Layer) (rc : StepReceipt) : Prop :=
  forallb passed (rc_checks rc) = true
  /\ exists l, P !! rc_id rc = Some l /\ rc_output_digest rc = layer_digest l /\ rc_crs rc = layer_crs l
            /\ rc_feature_count rc = length (features l).

Lemma fold_receipts digest order acc : NoDup (plan_ids order) ->
  try_fold (plan_node layers digest) (∅, []) order = Ok acc ->
  map rc_id acc.2 = plan_ids order /\ Forall (truthful acc.1) acc.2.
Proof.
  revert acc. induction order as [|s order IH] using rev_ind; intros acc Hn; [intros [= <-]; split; [done | apply Forall_nil_2]|].
  rewrite try_fold_snoc. intros (acc1 & Hf & Hs)%bind_ok. unfold plan_ids in Hn. rewrite map_app in Hn.
  apply NoDup_app in Hn as (Hn & Hfresh & _). destruct (IH acc1 Hn Hf) as [Hids Hall]. clear IH Hf.
  unfold plan_node in Hs. apply bind_ok in Hs as (inputs & _ & Hs). apply bind_ok in Hs as (o & Ho & Hs). injection Hs as <-.
  cbn [fst snd]. unfold plan_ids. rewrite !map_app, Hids. split; [done|]. apply Forall_app. split.
  - rewrite Forall_forall in Hall |- *. intros rc Hrc. destruct (Hall rc Hrc) as [Hp (l & Hl & Hd)]. split; [done|]. exists l.
    split; [|done]. rewrite lookup_insert_ne; [done|]. intros Heq.
    apply (Hfresh (rc_id rc)); [change (rc_id rc ∈ plan_ids order); rewrite <-Hids; by apply list_elem_of_fmap_2 | rewrite <-Heq; apply list_elem_of_here].
  - apply Forall_singleton. split.
    + unfold run_verified in Ho. apply bind_ok in Ho as (o' & _ & Ho). destruct (List.find _ (checks o')) as [c|] eqn:Hc; [done|].
      injection Ho as <-. cbn [receipt rc_checks]. apply forallb_forall. intros c Hin%list_elem_of_In.
      rewrite find_none_iff in Hc. by apply negb_false_iff, Hc.
    + eexists. cbn [receipt rc_id]. rewrite lookup_insert_eq. by split_and!.
Qed.

(** C26: a plan that runs was well-formed and its graph is the registered one; the
    layers the run returns are those the plan denotes when its steps are evaluated
    one after the other, whatever order the graph was scheduled in, and the output
    is the layer of the plan's output step. There is one receipt per step, in an
    order that respects the plan, and it is truthful: every check passed, and the
    digest, the coordinate system and the count are those of the step's layer.
    Conversely a plan that compiles and whose evaluation succeeds runs, with those
    layers. [run_plan] panics only where the function of one of the plan's steps,
    one of those that are not modelled, panics on its parameters. *)
Theorem run_plan_evaluates (f : Fresh) :
  (forall r, run_plan f plan layers = Ok r -> exists output,
     plan_wf layers plan output /\ plan_to_workflow (fresh_uuid f) plan layers = Ok (tr_workflow r)
     /\ tr_workflow_digest r = workflow_digest_new (stable_digest_unchecked (tr_workflow r))
     /\ eval_plan layers (tr_workflow_digest r) plan = Ok (tr_step_layers r)
     /\ tr_step_layers r !! output = Some (tr_output r)
     /\ exists order, order ≡ₚ tp_steps plan /\ refs_before order /\ map rc_id (tr_steps r) = plan_ids order
        /\ Forall (truthful (tr_step_layers r)) (tr_steps r))
  /\ (forall w P, plan_to_workflow (fresh_uuid f) plan layers = Ok w ->
        eval_plan layers (workflow_digest_new (stable_digest_unchecked w)) plan = Ok P ->
        exists r, run_plan f plan layers = Ok r /\ tr_step_layers r = P)
  /\ (run_plan f plan layers = Err Panicked -> exists s inputs, s ∈ tp_steps plan
        /\ other_call inputs (step_params s) (ps_op s) (Err Panicked)).
Proof.
  split_and!.
  - intros r (output & bound & order & [P receipts] & l & [Hwf Hb Ht Hp Ho] & Hf & Hl & ->)%run_plan_ok. exists output.
    cbn [answer tr_workflow tr_workflow_digest tr_step_layers tr_output tr_steps fst snd].
    pose proof (pw_distinct _ _ _ Hwf) as Hn. split_and!; [done | | done | | done |].
    + apply plan_to_workflow_ok; [done|]. by exists output, bound.
    + apply (fold_evaluates _ order); [done | apply (pw_order _ _ _ Hwf) | done | done | by exists receipts].
    + exists order. destruct (fold_receipts _ order _ ltac:(unfold plan_ids; by rewrite Hp) Hf) as [Hids Hall]. by split_and!.
  - intros w P (output & bound & order & Hs & ->)%compiles_scheduled HP. pose proof Hs as [Hwf Hb Ht Hp Ho].
    apply (fold_evaluates _ order) in HP as [receipts Hf]; [|apply (pw_distinct _ _ _ Hwf) | apply (pw_order _ _ _ Hwf) | done | done].
    destruct (output_produced _ order output _ Hwf Hp Ho Hf) as [l Hl]. eexists. split; [|shelve].
    apply run_plan_ok. exists output, bound, order, (P, receipts), l. by split_and!.
    Unshelve. done.
  - intros Hr. destruct (plan_to_workflow (fresh_uuid f) plan layers) as [w|x] eqn:Hw.
    + apply compiles_scheduled in Hw as (output & bound & order & [Hwf Hb Ht Hp Ho] & ->).
      pose proof (run_plan_compiled f output bound order Hwf Hb Ht Hp Ho) as Hrun.
      destruct (try_fold _ _ _) as [acc|[m|]] eqn:Hf; [destruct Hrun as (l & _ & Hok); congruence | congruence|].
      apply try_fold_err in Hf as (b & s & Hs & [inputs Hc]%plan_node_panics). exists s, inputs. split; [by rewrite <-Hp | done].
    + unfold run_plan in Hr. rewrite Hw in Hr. cbn [mbind result_bind] in Hr. injection Hr as ->.
      by destruct (plan_to_workflow_no_panic (fresh_uuid f) layers plan Hnamed).
Qed.

(** Two runs of one plan over the same layers answer alike, whatever identities
    and instants they draw: the same workflow digest and result digest, the same
    receipts in the same order and the same layers. *)
Theorem runs_are_reproducible (f f' : Fresh) (r : ToolkitRun) :
  run_plan f plan layers = Ok r -> exists r', run_plan f' plan layers = Ok r'
  /\ tr_workflow_digest r' = tr_workflow_digest r /\ tr_result_digest r' = tr_result_digest r
  /\ tr_steps r' = tr_steps r /\ tr_output r' = tr_output r /\ tr_step_layers r' = tr_step_layers r.
Proof.
  intros (output & bound & order & acc & l & Hs & Hf & Hl & ->)%run_plan_ok. pose proof (sc_wf _ _ _ _ Hs) as Hwf.
  rewrite (digest_of_compiled (fresh_uuid f) (fresh_uuid f') output bound Hwf) in Hf.
  eexists. split.
  - apply run_plan_ok. exists output, bound, order, acc, l. split; [by eapply scheduled_any|]. by split_and!.
  - cbn [answer tr_workflow_digest tr_result_digest tr_steps tr_output tr_step_layers].
    rewrite (digest_of_compiled (fresh_uuid f) (fresh_uuid f') output bound Hwf). by split_and!.
Qed.
End RunCorrect.

(** ** The plan of the tests, run twice *)

Module Examples.
Import Wkb.Examples Ops.Examples Plan.Examples.
#[local] Existing Instances plan_debug plan_text plan_host plan_display plan_command_text sample_host table_numbers
  table_host plain_trigonometry demo_f32 demo_contract.
#[local] Instance run_error_text : CommandErrorText := fun _ => "rejected".
#[local] Instance run_summary : SummaryJson := fun l => JString (layer_name l).
#[local] Instance run_coords : GeoCoords := fun _ => [].
(** An operation is its layer or its target; [clip] fails its check, [dissolve] panics. *)
Definition stands_in (op : string) (ok : bool) (l : Layer) : result (fault ToolkitError) OpOutput :=
  Ok (mkOutput l [mkCheck "stands_in" ok "checked"] [op]).
#[local] Instance run_operations : OtherOperations := {|
  op_place _ := Err (Error (TE_Provider "no input")); op_census_mesh l _ := stands_in "census_mesh" true l;
  op_buffer l _ := stands_in "buffer" true l; op_clip l _ _ := stands_in "clip" false l;
  op_intersect l _ := stands_in "intersect" true l; op_dissolve _ _ := Err Panicked;
  op_spatial_join l _ _ := stands_in "spatial_join" true l; op_select_by_location l _ _ := stands_in "select_by_location" true l;
  op_distance_to_nearest l _ _ := stands_in "distance_to_nearest" true l; op_reproject l _ := stands_in "reproject" true l;
  op_make_valid l := stands_in "make_valid" true l; op_centroid l _ := stands_in "centroid" true l;
  op_measure l _ := stands_in "measure" true l |}.

Definition fresh (id : string) : Fresh := mkFresh ("run-" +:+ id) "t0" (fun step => id +:+ step) ("project-" +:+ id) "t0" "t1".
(** The steps are listed in another order than the graph schedules them in. *)
Definition two_buffers : ToolkitPlan :=
  mkPlan "two buffers" [mkPlanStep "b" "buffer" {["layer" := "lyr_sites"]} (JObject [("distance", JString "300 m")]);
    mkPlanStep "a" "buffer" {["layer" := "lyr_wards"]} (JObject [("distance", JString "1 km")]);
    mkPlanStep "both" "intersect" {["layer" := "a"; "overlay" := "b"]} JNull] None [].
Definition refused : ToolkitPlan :=
  mkPlan "refused" [mkPlanStep "c" "clip" {["layer" := "lyr_sites"; "mask" := "lyr_wards"]} JNull] None [].

Example scheduled_by_name : (r ← run_plan (fresh "x") two_buffers store; Ok (map rc_id (tr_steps r))) = Ok ["a"; "b"; "both"].
Proof. vm_compute. reflexivity. Qed.
Definition dissolving : ToolkitPlan :=
  mkPlan "dissolving" [mkPlanStep "d" "dissolve" {["layer" := "lyr_sites"]} JNull] None [].
Example panic_unwinds : (r ← run_plan (fresh "x") dissolving store; Ok (map rc_id (tr_steps r))) = Err Panicked.
Proof. vm_compute. reflexivity. Qed.
Example failed_check_is_refused : (r ← run_plan (fresh "x") refused store; Ok (map rc_id (tr_steps r))) = Err (Error (TE_Command "rejected")).
Proof. vm_compute. reflexivity. Qed.

Lemma run_plan_evaluates_witness : exists r,
  run_plan (fresh "x") two_buffers store = Ok r /\ Forall (truthful (tr_step_layers r)) (tr_steps r)
  /\ run_plan (fresh "x") refused store <> Err Panicked.
Proof.
  destruct (run_plan_evaluates store two_buffers store_named (fresh "x")) as (Hs & Hc & _).
  destruct (run_plan_evaluates store refused store_named (fresh "x")) as (_ & _ & Hp).
  destruct (plan_to_workflow (fresh_uuid (fresh "x")) two_buffers store) as [w|e] eqn:Hw; [|vm_compute in Hw; discriminate Hw].
  assert (Heval : forall d, match eval_plan store d two_buffers with Ok _ => True | Err _ => False end) by (intros d; vm_compute; exact I).
  specialize (Heval (workflow_digest_new (stable_digest_unchecked w))).
  destruct (eval_plan store (workflow_digest_new (stable_digest_unchecked w)) two_buffers) as [P|e] eqn:HP; [|destruct Heval].
  destruct (Hc w P eq_refl HP) as (r & Hr & _). exists r. split; [exact Hr|].
  split; [|intros Hq; destruct (Hp Hq) as (s & inputs & ->%list_elem_of_singleton & Hcall); inversion Hcall; subst; discriminate].
  destruct (Hs r Hr) as (output & _ & _ & _ & _ & _ & order & _ & _ & _ & Ht). exact Ht.
Defined.

Lemma runs_are_reproducible_witness : exists r r',
  run_plan (fresh "x") two_buffers store = Ok r /\ run_plan (fresh "y") two_buffers store = Ok r'
  /\ tr_result_digest r' = tr_result_digest r /\ tr_workflow_digest r' = tr_workflow_digest r.
Proof.
  destruct (run_plan (fresh "x") two_buffers store) as [r|e] eqn:Hr; [|vm_compute in Hr; discriminate Hr].
  destruct (runs_are_reproducible store two_buffers store_named (fresh "x") (fresh "y") r Hr) as (r' & Hr' & Hw & Hd & _).
  exists r, r'. split; [reflexivity|]. split; [exact Hr'|]. split; [exact Hd | exact Hw].
Defined.
End Examples.
