(* ===== verification/Store.v ===== *)
(** * The layer store (crates/genegis-toolkit/src/store.rs)

    Layers in memory under the identity of their content, each mirrored by a file.
    The directory is a map from file names to contents with the instant they were
    written; every call to the file system takes the next fault from a list, and a
    write that fails leaves any text behind. serde's text of a persisted layer, and
    the geojson crate's of a geometry, are the class [StoreCodec]. *)

From Stdlib Require Import Ascii.
From stdpp Require Import prelude strings gmap sorting.
From S2P Require Import Prelude RustStd Json MapStyle Wkb Proj Layer.

Record StoredLayer `{GeoShapes} := mkStored { st_layer : Layer; st_receipt : json; st_style : json }.
Arguments mkStored {_} _ _ _.
Arguments st_layer {_} _.
Arguments st_receipt {_} _.
Arguments st_style {_} _.
Record PersistedFeature := mkPersistedFeature { pf_id : N; pf_geometry : json; pf_properties : gmap string json }.
Record Persisted := mkPersisted {
  pd_format : string; pd_id : string; pd_name : string; pd_crs : string; pd_crs_status : CrsStatus;
  pd_fields : list Field; pd_provenance : LayerProvenance; pd_receipt : json; pd_style : json;
  pd_features : list PersistedFeature }.

(** How deep the text of a persisted layer nests; its provenance is an object with
    lists. serde_json writes any depth and refuses to read more than 127 levels. *)
Definition deepest (l : list N) : N := foldr N.max 0%N l.
Fixpoint json_depth (v : json) : N :=
  match v with
  | JArray values => 1 + deepest (map json_depth values)
  | JObject entries => 1 + deepest (map (fun e => json_depth e.2) entries)
  | _ => 0
  end.
Definition feature_depth (f : PersistedFeature) : N :=
  1 + N.max (json_depth (pf_geometry f)) (1 + deepest (map (fun e => json_depth e.2) (map_to_list (pf_properties f)))).
Definition persisted_depth (p : Persisted) : N :=
  1 + deepest [2%N; json_depth (pd_receipt p); json_depth (pd_style p); (1 + deepest (map feature_depth (pd_features p)))%N].

(** The directory *)
Record File := mkFile { modified : N; content : string }.
Abbreviation directory := (gmap string File).

Class StoreCodec `{GeoShapes} := {
  persisted_to_text : Persisted -> result string string;
  persisted_of_text : string -> result string Persisted;
  geometry_to_json : Geometry -> json;
  geometry_from_json : json -> result ToolkitError Geometry }.

(** [dir] is in the world; a store without one is [in_memory]. *)
Record LayerStore `{GeoShapes} := mkStore { on_disk : bool; layers : gmap string StoredLayer; order : list string }.
Arguments mkStore {_} _ _ _.
Arguments on_disk {_} _.
Arguments layers {_} _.
Arguments order {_} _.

(** A fault: the error's text and what a failed write leaves behind, nothing if the file was not opened *)
Record Fault := mkFault { fault_text : string; partial : option string }.
Record World `{GeoShapes} := mkWorld { store : LayerStore; disk : directory; clock : N; faults : list (option Fault) }.
Arguments mkWorld {_} _ _ _ _.
Arguments store {_} _.
Arguments disk {_} _.
Arguments clock {_} _.
Arguments faults {_} _.

Section Store.
Context `{GeoShapes} `{JsonText} `{SvgHost} `{!StoreCodec}.
Abbreviation io A := (st World ToolkitError A).

Definition in_memory : LayerStore := mkStore false ∅ [].

(** ** The file system *)

Definition with_disk (d : directory) (w : World) : World := mkWorld (store w) d (clock w) (faults w).
Definition with_store (s : LayerStore) (w : World) : World := mkWorld s (disk w) (clock w) (faults w).
(** The next call's fault *)
Definition next_fault : io (option Fault) := fun w =>
  (Ok (default None (head (faults w))), mkWorld (store w) (disk w) (clock w) (tail (faults w))).
Definition tick : io N := fun w => (Ok (clock w), mkWorld (store w) (disk w) (clock w + 1) (faults w)).
Definition io_error {A} (f : Fault) : io A := lift (Err (TE_Io (fault_text f))).

(** [std::fs::write], [rename] and [remove_file] *)
Definition write_file (name text : string) : io unit :=
  fault ← next_fault;
  now ← tick;
  match fault with
  | None => modify (fun w => with_disk (<[name := mkFile now text]> (disk w)) w)
  | Some f =>
      modify (fun w => with_disk (from_option (fun left => <[name := mkFile now left]> (disk w)) (disk w) (partial f)) w);; io_error f
  end.
Definition rename_file (from to : string) : io unit :=
  fault ← next_fault;
  w ← get;
  match fault, disk w !! from with
  | None, Some file => modify (fun w => with_disk (<[to := file]> (delete from (disk w))) w)
  | None, None => lift (Err (TE_Io "not found"))
  | Some f, _ => io_error f
  end.
Definition remove_file (name : string) : io unit :=
  fault ← next_fault;
  match fault with
  | None => modify (fun w => with_disk (delete name (disk w)) w)
  | Some f => io_error f
  end.

(** ** Persistence *)

Definition layer_file (id : string) : string := id +:+ ".json".
Definition temp_file (id : string) : string := id +:+ ".json.tmp".

Definition persisted_feature (f : Feature) : PersistedFeature :=
  mkPersistedFeature (ft_id f) (from_option geometry_to_json JNull (ft_geometry f)) (ft_properties f).
Definition persisted (id : string) (s : StoredLayer) : Persisted :=
  let l := st_layer s in
  mkPersisted "genegis-layer-store-v1" id (layer_name l) (layer_crs l) (crs_status l) (fields l) (layer_provenance l)
    (st_receipt s) (st_style s) (map persisted_feature (features l)).

Definition persist (id : string) (s : StoredLayer) : io unit :=
  w ← get;
  if on_disk (store w) then
    text ← lift (map_err TE_Command (persisted_to_text (persisted id s)));
    write_file (temp_file id) text;;
    rename_file (temp_file id) (layer_file id)
  else mret tt.

Definition loaded_feature (f : PersistedFeature) : result ToolkitError Feature :=
  geometry ← match pf_geometry f with
             | JNull => Ok None
             | v => g ← geometry_from_json v; Ok (Some g)
             end;
  Ok (mkFeature (pf_id f) geometry (pf_properties f)).
Definition load_text (text : string) : result ToolkitError (string * StoredLayer) :=
  p ← map_err (fun e => TE_Import "store" e) (persisted_of_text text);
  fs ← try_map loaded_feature (pd_features p);
  let l := mkLayer (pd_name p) (pd_crs p) (pd_crs_status p) (pd_fields p) fs (pd_provenance p) in
  err_if (negb (bool_decide (layer_id l = pd_id p)))
    (TE_Verification ("stored layer " +:+ pd_id p +:+ " no longer matches its content digest"));;
  Ok (pd_id p, mkStored l (pd_receipt p) (pd_style p)).
(** [load]; a file may be unreadable. *)
Definition load (unreadable : string -> option string) (name : string) (file : File) : result ToolkitError (string * StoredLayer) :=
  match unreadable name with Some e => Err (TE_Io e) | None => load_text (content file) end.

(** The names [open] looks at; a name that starts with [lyr_] has a stem. *)
Definition is_layer_file (name : string) : bool := starts_with "lyr_" name && ends_with ".json" name.
(** [entries.sort()]: by instant, then by name *)
Definition older (a b : string * File) : Prop :=
  (modified a.2 < modified b.2)%N \/ modified a.2 = modified b.2 /\ String.le a.1 b.1.
#[local] Instance older_dec : RelDecision older.
Proof. intros a b. unfold older. apply _. Defined.

Definition open_file (unreadable : string -> option string) (acc : LayerStore * list (string * ToolkitError))
    (entry : string * File) : LayerStore * list (string * ToolkitError) :=
  let '(s, warnings) := acc in
  match load unreadable entry.1 entry.2 with
  | Ok (id, stored) => (mkStore true (<[id := stored]> (layers s)) (order s ++ [id]), warnings)
  | Err e => (s, warnings ++ [(entry.1, e)])
  end.
(** The warnings are the files that were refused, with the reason. *)
Definition open (unreadable : string -> option string) (d : directory) : LayerStore * list (string * ToolkitError) :=
  foldl (open_file unreadable) (mkStore true ∅ [], [])
    (merge_sort older (List.filter (fun e => is_layer_file e.1) (map_to_list d))).

(** ** Operations *)

Definition read_store : io LayerStore := fun w => (Ok (store w), w).
Definition put_layer (id : string) (s : StoredLayer) : io unit :=
  modify (fun w => with_store (mkStore (on_disk (store w)) (<[id := s]> (layers (store w))) (order (store w))) w).

Definition insert (l : Layer) (receipt : json) : io string :=
  let id := layer_id l in
  s ← read_store;
  let stored := mkStored l receipt (from_option st_style JNull (layers s !! id)) in
  persist id stored;;
  modify (fun w => with_store (mkStore (on_disk (store w)) (<[id := stored]> (layers (store w)))
    (match layers s !! id with Some _ => order (store w) | None => order (store w) ++ [id] end)) w);;
  mret id.
Definition get_layer (s : LayerStore) (id : string) : result ToolkitError Layer :=
  stored ← ok_or (layers s !! id) (TE_UnknownReference ("layer " +:+ id)); Ok (st_layer stored).
Definition plan_layers (s : LayerStore) : gmap string Layer := st_layer <$> layers s.
Definition listed (s : LayerStore) : list StoredLayer := omap (fun id => layers s !! id) (order s).

(** [rename] and [set_style] *)
Definition update_stored (id : string) (f : StoredLayer -> StoredLayer) : io unit :=
  s ← read_store;
  stored ← lift (ok_or (layers s !! id) (TE_UnknownReference id));
  persist id (f stored);;
  put_layer id (f stored).
Definition with_layer_name (name : string) (s : StoredLayer) : StoredLayer :=
  let l := st_layer s in
  mkStored (mkLayer (trim name) (layer_crs l) (crs_status l) (fields l) (features l) (layer_provenance l)) (st_receipt s) (st_style s).
Definition rename (id name : string) : io unit := update_stored id (with_layer_name name).
Definition styled (style : json) (s : StoredLayer) : StoredLayer := mkStored (st_layer s) (st_receipt s) style.
Definition set_style (id : string) (style : json) : io unit := update_stored id (styled style).

Definition remove (id : string) : io unit :=
  s ← read_store;
  lift (ok_or (layers s !! id) (TE_UnknownReference id));;
  modify (fun w => with_store (mkStore (on_disk (store w)) (delete id (layers (store w)))
                                 (List.filter (fun x => negb (bool_decide (x = id))) (order (store w)))) w);;
  w ← get;
  if on_disk (store w) && bool_decide (is_Some (disk w !! layer_file id)) then remove_file (layer_file id) else mret tt.
End Store.

(** ** File names *)

Lemma layer_file_inj id id' : layer_file id = layer_file id' -> id = id'.
Proof.
  intros Heq%(f_equal String.rev). unfold layer_file in Heq. rewrite !string_rev_app in Heq.
  apply (inj (String.append _)) in Heq. by rewrite <-(string_rev_rev id), Heq, string_rev_rev.
Qed.

Lemma temp_is_no_layer id : is_layer_file (temp_file id) = false.
Proof.
  unfold is_layer_file, ends_with. apply andb_false_iff. right.
  assert (Hr : String.rev (temp_file id) = "pmt.nosj." +:+ String.rev id) by (unfold temp_file; by rewrite string_rev_app).
  by rewrite Hr.
Qed.

Section Names.
Context `{GeoShapes} `{JsonText} `{SvgHost}.
Lemma layer_id_file l : is_layer_file (layer_file (layer_id l)) = true.
Proof.
  unfold is_layer_file. apply andb_true_iff. split; [reflexivity|].
  apply ends_with_iff. by exists (layer_id l).
Qed.
End Names.

(** ** What the store keeps true *)

Section Consistency.
Context `{GeoShapes} `{JsonText} `{SvgHost} `{!StoreCodec}.
(** serde_json reads back what it wrote, up to its recursion limit. *)
Hypothesis Hcodec : forall p t, (persisted_depth p < 128)%N -> persisted_to_text p = Ok t -> persisted_of_text t = Ok p.

(** The geojson crate reads the layer's geometries back. *)
Definition readable_geometries (l : Layer) : Prop := forall f g, f ∈ features l -> ft_geometry f = Some g ->
  geometry_to_json g <> JNull /\ geometry_from_json (geometry_to_json g) = Ok g.
(** What leaves the layer's file within serde_json's limit *)
Definition layer_depth (l : Layer) : N := deepest (map (fun f => feature_depth (persisted_feature f)) (features l)).
Definition storable (l : Layer) (receipt style : json) : Prop :=
  readable_geometries l /\ (layer_depth l < 126)%N /\ (json_depth receipt < 127)%N /\ (json_depth style < 127)%N.
Definition storable_entry (s : StoredLayer) : Prop := storable (st_layer s) (st_receipt s) (st_style s).

Record store_wf (s : LayerStore) : Prop := {
  wf_ids : forall id st, layers s !! id = Some st -> layer_id (st_layer st) = id;
  wf_storable : forall id st, layers s !! id = Some st -> storable_entry st;
  wf_distinct : NoDup (order s);
  wf_order : forall id, id ∈ order s <-> is_Some (layers s !! id) }.
(** The directory holds one file per layer and no other layer file. *)
Record mirrored (s : LayerStore) (d : directory) : Prop := {
  mi_file : forall id st, layers s !! id = Some st -> exists f, d !! layer_file id = Some f /\ load_text (content f) = Ok (id, st);
  mi_only : forall name, is_layer_file name = true -> is_Some (d !! name) -> exists id, name = layer_file id /\ is_Some (layers s !! id) }.
Record consistent (w : World) : Prop := {
  cs_wf : store_wf (store w);
  cs_mirrored : on_disk (store w) = true -> mirrored (store w) (disk w) }.

Lemma with_name_id name s : layer_id (st_layer (with_layer_name name s)) = layer_id (st_layer s).
Proof. reflexivity. Qed.

Lemma loaded_features (fs : list Feature) :
  (forall f g, f ∈ fs -> ft_geometry f = Some g -> geometry_to_json g <> JNull /\ geometry_from_json (geometry_to_json g) = Ok g) ->
  try_map loaded_feature (map persisted_feature fs) = Ok fs.
Proof.
  induction fs as [|f fs IH]; intros Hs; [done|]. cbn [map try_map].
  assert (Hf : loaded_feature (persisted_feature f) = Ok f).
  { destruct f as [id [g|] props]; [|done]. unfold loaded_feature. cbn [persisted_feature pf_geometry ft_geometry from_option].
    destruct (Hs _ g (list_elem_of_here _ _) eq_refl) as [Hn Hg]. cbn [pf_id pf_properties].
    destruct (geometry_to_json g) eqn:Hj; [done|..]; by rewrite Hg. }
  rewrite Hf, IH; [done|]. intros f' g Hin. by apply Hs, list_elem_of_further.
Qed.

Lemma storable_depth id st : storable_entry st -> (persisted_depth (persisted id st) < 128)%N.
Proof.
  intros (_ & Hl & Hr & Hs). unfold persisted_depth, layer_depth in *. cbn [persisted pd_receipt pd_style pd_features deepest foldr].
  rewrite List.map_map. lia.
Qed.

(** A written layer loads as it was. *)
Lemma load_persisted id st t : storable_entry st -> layer_id (st_layer st) = id ->
  persisted_to_text (persisted id st) = Ok t -> load_text t = Ok (id, st).
Proof.
  intros Hse Hid Ht. destruct (Hse) as [Hs _]. unfold load_text. rewrite (Hcodec _ _ (storable_depth id st Hse) Ht). cbn [map_err mbind result_bind].
  change (pd_features (persisted id st)) with (map persisted_feature (features (st_layer st))).
  rewrite loaded_features by exact Hs. cbn [mbind result_bind]. destruct st as [[n c cs fi fs pr] r y].
  change ((err_if (negb (bool_decide (layer_id (mkLayer n c cs fi fs pr) = id)))
    (TE_Verification ("stored layer " +:+ id +:+ " no longer matches its content digest"));;
    Ok (id, mkStored (mkLayer n c cs fi fs pr) r y)) = Ok (id, mkStored (mkLayer n c cs fi fs pr) r y)).
  cbn [st_layer] in Hid. by rewrite Hid, bool_decide_true.
Qed.

(** ** Persisting *)

(** The directories agree but for the temporary file. *)
Definition same_but_temp (id : string) (d d' : directory) : Prop := forall name, name <> temp_file id -> d' !! name = d !! name.

Lemma persist_cases id st w r w' : persist id st w = (r, w') ->
  store w' = store w
  /\ ((exists e, r = Err e) /\ same_but_temp id (disk w) (disk w')
      \/ r = Ok tt /\ on_disk (store w) = false /\ disk w' = disk w
      \/ r = Ok tt /\ on_disk (store w) = true /\ exists t f, persisted_to_text (persisted id st) = Ok t /\ content f = t
         /\ disk w' !! layer_file id = Some f
         /\ forall name, name <> layer_file id -> name <> temp_file id -> disk w' !! name = disk w !! name).
Proof.
  unfold persist, mbind at 1, st_bind at 1, get. destruct (on_disk (store w)) eqn:Hd.
  2: { intros [= <- <-]. split; [done|]. by right; left. }
  destruct (persisted_to_text (persisted id st)) as [t|e] eqn:Ht.
  2: { unfold lift, mbind, st_bind. cbn [map_err]. intros [= <- <-]. split; [done|]. left. split; [by eexists | done]. }
  unfold lift, mbind at 1, st_bind at 1. cbn [map_err].
  unfold write_file, rename_file, next_fault, tick, io_error, get, modify, lift, mbind, st_bind.
  destruct (default None (head (faults w))) as [f|]; cbn [store disk clock faults with_disk].
  { intros [= <- <-]. split; [done|]. left. split; [by eexists|]. intros name Hn. cbn [disk with_disk].
    destruct (partial f); cbn [from_option]; [by rewrite lookup_insert_ne | done]. }
  destruct (default None (head (tail (faults w)))) as [f|]; cbn [store disk clock faults with_disk].
  { intros [= <- <-]. split; [done|]. left. split; [by eexists|]. intros name Hn. cbn [disk with_disk]. by rewrite lookup_insert_ne. }
  rewrite lookup_insert_eq. intros [= <- <-]. split; [done|]. right; right. split; [done|]. split; [done|].
  exists t, (mkFile (clock w) t). split_and!; [done | done | cbn [disk with_disk]; by rewrite lookup_insert_eq |].
  intros name Hn Hn'. cbn [disk with_disk]. by rewrite lookup_insert_ne, lookup_delete_ne, lookup_insert_ne.
Qed.

Lemma mirrored_but_temp s d d' id : same_but_temp id d d' -> mirrored s d -> mirrored s d'.
Proof.
  intros Hs [Hf Ho].
  assert (Hl : forall name, is_layer_file name = true -> d' !! name = d !! name).
  { intros name Hn. apply Hs. intros ->. by rewrite temp_is_no_layer in Hn. }
  split.
  - intros id' st Hst. destruct (Hf id' st Hst) as (f & Hd & Hload). exists f. split; [|done]. rewrite <-Hd. apply Hs.
    intros Heq. assert (Hx : ends_with ".json" (layer_file id') = true) by (apply ends_with_iff; by exists id').
    pose proof (temp_is_no_layer id) as Ht. unfold is_layer_file in Ht. rewrite Heq in Hx. rewrite Hx, andb_true_r in Ht.
    unfold temp_file in Ht, Heq. apply (f_equal String.rev) in Heq. unfold layer_file in Heq. rewrite !string_rev_app in Heq. discriminate Heq.
  - intros name Hn Hin. rewrite Hl in Hin by done. by apply Ho.
Qed.

(** Writing a layer and then entering it in memory *)
Lemma put_consistent id st w w1 keep : consistent w -> layer_id (st_layer st) = id -> storable_entry st ->
  NoDup keep -> (forall x, x ∈ keep <-> x = id \/ is_Some (layers (store w) !! x)) ->
  persist id st w = (Ok tt, w1) ->
  consistent (with_store (mkStore (on_disk (store w1)) (<[id := st]> (layers (store w1))) keep) w1).
Proof.
  intros [[Hids Hst Hd Ho] Hm] Hid Hs Hk Hkeep (Hsame & Hc)%persist_cases. rewrite Hsame. split; cbn [with_store store disk].
  - split; cbn [layers order].
    + intros x y [[<- <-]|[_ Hx]]%lookup_insert_Some; [done | by apply Hids].
    + intros x y [[<- <-]|[_ Hx]]%lookup_insert_Some; [done | by eapply Hst].
    + done.
    + intros x. rewrite Hkeep, lookup_insert_is_Some. destruct (decide (x = id)); naive_solver.
  - cbn [on_disk]. intros Hon. specialize (Hm Hon). destruct Hc as [[[e [=]] _]|[[_ [Hoff _]]|(_ & _ & t & f & Ht & <- & Hf & Hrest)]]; [congruence|].
    assert (Hlf : is_layer_file (layer_file id) = true) by (rewrite <-Hid; apply layer_id_file).
    split; cbn [layers].
    + intros x y [[<- <-]|[Hne Hx]]%lookup_insert_Some.
      * exists f. split; [done|]. by apply load_persisted.
      * destruct (mi_file _ _ Hm x y Hx) as (g & Hg & Hload). exists g. split; [|done]. rewrite Hrest; [done| |].
        -- intros Heq%layer_file_inj. done.
        -- intros Heq. pose proof (temp_is_no_layer id) as Hn. rewrite <-Heq, <-(Hids x y Hx), layer_id_file in Hn. done.
    + intros name Hn Hin. destruct (decide (name = layer_file id)) as [->|Hne].
      { exists id. split; [done|]. by rewrite lookup_insert_eq. }
      rewrite Hrest in Hin; [|done | intros ->; by rewrite temp_is_no_layer in Hn].
      destruct (mi_only _ _ Hm name Hn Hin) as (x & -> & Hx). exists x. split; [done|].
      rewrite lookup_insert_is_Some. destruct (decide (id = x)); naive_solver.
Qed.

Lemma persist_failed id st w e w1 : consistent w -> persist id st w = (Err e, w1) -> store w1 = store w /\ consistent w1.
Proof.
  intros [Hwf Hm] (Hsame & Hc)%persist_cases. split; [done|]. split; rewrite Hsame; [done|]. intros Hon.
  destruct Hc as [[_ Ht]|[[[=] _]|[[=] _]]]. eapply mirrored_but_temp; [exact Ht | by apply Hm].
Qed.
End Consistency.

(** ** Operations *)

Inductive store_op `{GeoShapes} :=
| OpInsert (l : Layer) (receipt : json)
| OpRename (id name : string)
| OpStyle (id : string) (style : json)
| OpRemove (id : string).

Section Operations.
Context `{GeoShapes} `{JsonText} `{SvgHost} `{!StoreCodec}.
Hypothesis Hcodec : forall p t, (persisted_depth p < 128)%N -> persisted_to_text p = Ok t -> persisted_of_text t = Ok p.

Definition perform (op : store_op) : st World ToolkitError unit :=
  match op with
  | OpInsert l receipt => insert l receipt;; mret tt
  | OpRename id name => rename id name
  | OpStyle id style => set_style id style
  | OpRemove id => remove id
  end.
Definition admissible (op : store_op) : Prop :=
  match op with OpInsert l receipt => storable l receipt JNull | OpStyle _ style => (json_depth style < 127)%N | _ => True end.
Definition is_remove (op : store_op) : bool := match op with OpRemove _ => true | _ => false end.

Lemma insert_consistent l receipt w r w' : consistent w -> storable l receipt JNull -> insert l receipt w = (r, w') ->
  consistent w' /\ ((exists e, r = Err e) -> store w' = store w).
Proof.
  intros Hc Hs. unfold insert, read_store, mbind at 1, st_bind at 1. unfold mbind at 1, st_bind at 1.
  set (stored := mkStored l receipt _).
  destruct (persist (layer_id l) stored w) as [[[]|e] w1] eqn:Hp.
  2: { intros [= <- <-]. destruct (persist_failed _ _ _ _ _ Hc Hp) as [Hst Hc1]. by split. }
  unfold modify, mbind, st_bind, mret, st_ret. intros [= <- <-]. split; [|by intros [e [=]]].
  pose proof (cs_wf _ Hc) as [Hids Hst Hd Ho]. pose proof (persist_cases _ _ _ _ _ Hp) as [Hsame _].
  assert (Hse : storable_entry stored).
  { destruct Hs as (Hg & Hl & Hr & Hn). unfold storable_entry, stored. split_and!; [exact Hg | exact Hl | exact Hr |]. cbn [st_style].
    destruct (layers (store w) !! layer_id l) as [y|] eqn:Hy; [apply (Hst _ _ Hy) | exact Hn]. }
  eapply (put_consistent Hcodec (layer_id l) stored w w1); [exact Hc | done | exact Hse | | | exact Hp]; rewrite Hsame.
  - destruct (layers (store w) !! layer_id l) as [x|] eqn:Hl; [done|]. apply NoDup_app. split_and!; [done | | apply NoDup_singleton].
    intros x Hx ->%list_elem_of_singleton. apply Ho in Hx. rewrite Hl in Hx. by destruct Hx.
  - intros x. destruct (layers (store w) !! layer_id l) as [y|] eqn:Hl.
    + rewrite Ho. split; [by right | intros [->|?]; [by rewrite Hl | done]].
    + rewrite elem_of_app, Ho, list_elem_of_singleton. tauto.
Qed.

Lemma update_consistent id f w r w' : consistent w ->
  (forall st, storable_entry st -> storable_entry (f st)) -> (forall st, layer_id (st_layer (f st)) = layer_id (st_layer st)) ->
  update_stored id f w = (r, w') -> consistent w' /\ ((exists e, r = Err e) -> store w' = store w).
Proof.
  intros Hc Hsf Hif. unfold update_stored, read_store, mbind at 1, st_bind at 1. unfold lift, mbind at 1, st_bind at 1.
  destruct (layers (store w) !! id) as [st|] eqn:Hl; cbn [ok_or]; [|by intros [= <- <-]].
  unfold mbind at 1, st_bind at 1. destruct (persist id (f st) w) as [[[]|e] w1] eqn:Hp.
  2: { intros [= <- <-]. destruct (persist_failed _ _ _ _ _ Hc Hp) as [Hst Hc1]. by split. }
  unfold put_layer, modify. intros [= <- <-]. split; [|by intros [e [=]]].
  pose proof (cs_wf _ Hc) as [Hids Hst Hd Ho]. pose proof (persist_cases _ _ _ _ _ Hp) as [Hsame _].
  eapply (put_consistent Hcodec id (f st) w w1); [exact Hc | rewrite Hif; by apply Hids | by eapply Hsf, Hst | | | exact Hp]; rewrite Hsame; [done|].
  intros x. rewrite Ho. split; [by right | intros [->|?]; [by rewrite Hl | done]].
Qed.

Lemma filter_elem (l : list string) (id x : string) :
  x ∈ List.filter (fun x => negb (bool_decide (x = id))) l <-> x ∈ l /\ x <> id.
Proof. rewrite !list_elem_of_In, filter_In, negb_true_iff, bool_decide_eq_false. done. Qed.

Lemma filter_nodup (l : list string) (id : string) : NoDup l -> NoDup (List.filter (fun x => negb (bool_decide (x = id))) l).
Proof.
  induction 1 as [|x l Hx Hl IH]; [apply NoDup_nil_2|]. cbn [List.filter].
  destruct (negb _); [|exact IH]. apply NoDup_cons. split; [|exact IH]. by intros [? _]%filter_elem.
Qed.

(** The store without a layer, and a directory without its file *)
Definition without (id : string) (s : LayerStore) : LayerStore :=
  mkStore (on_disk s) (delete id (layers s)) (List.filter (fun x => negb (bool_decide (x = id))) (order s)).

Lemma without_wf id s : store_wf s -> store_wf (without id s).
Proof.
  intros [Hids Hst Hd Ho]. split; cbn [without layers order].
  - intros x y [_ Hx]%lookup_delete_Some. by apply Hids.
  - intros x y [_ Hx]%lookup_delete_Some. by apply (Hst x).
  - by apply filter_nodup.
  - intros x. rewrite filter_elem, Ho, lookup_delete_is_Some. naive_solver.
Qed.

Lemma without_mirrored id s d d' : mirrored s d -> (forall name, name <> layer_file id -> d' !! name = d !! name) ->
  d' !! layer_file id = None -> mirrored (without id s) d'.
Proof.
  intros [Hf Honly] Hsame Hnone. split; cbn [without layers].
  - intros x y [Hne Hx]%lookup_delete_Some. destruct (Hf x y Hx) as (f & Hdf & Hload). exists f. split; [|done].
    rewrite Hsame; [done|]. intros Heq%layer_file_inj. congruence.
  - intros name Hn Hin. assert (Hne : name <> layer_file id) by (intros ->; rewrite Hnone in Hin; by destruct Hin).
    rewrite Hsame in Hin by done. destruct (Honly name Hn Hin) as (x & -> & Hx). exists x. split; [done|].
    rewrite lookup_delete_is_Some. split; [congruence | done].
Qed.

(** What [remove] comes to *)
Lemma remove_cases id w r w' : remove id w = (r, w') ->
  (layers (store w) !! id = None /\ r = Err (TE_UnknownReference id) /\ w' = w)
  \/ (is_Some (layers (store w) !! id) /\ store w' = without id (store w)
      /\ (r = Ok tt /\ (on_disk (store w) = true -> disk w' !! layer_file id = None
            /\ forall name, name <> layer_file id -> disk w' !! name = disk w !! name)
          \/ (exists e, r = Err (TE_Io e)) /\ on_disk (store w) = true /\ disk w' = disk w)).
Proof.
  unfold remove, read_store, lift, mbind at 1, st_bind at 1. unfold mbind at 1, st_bind at 1.
  destruct (layers (store w) !! id) as [st|] eqn:Hl; cbn [ok_or]; [|intros [= <- <-]; by left].
  unfold modify, get, mbind at 1, st_bind at 1. unfold mbind at 1, st_bind at 1. cbn [with_store store disk on_disk].
  intros Hr. right. split; [done|]. revert Hr. destruct (on_disk (store w)) eqn:Hon; cbn [andb].
  2: { unfold mret, st_ret. intros [= <- <-]. cbn [with_store store]. unfold without. rewrite Hon. split; [done | by left]. }
  case_bool_decide as Hex.
  - unfold remove_file, next_fault, io_error, modify, lift, mbind, st_bind. cbn [faults with_store store disk clock].
    destruct (default None (head (faults w))) as [x|]; intros [= <- <-]; cbn [with_disk with_store store disk]; unfold without; rewrite Hon;
      (split; [done|]); [right; split; [by eexists | done] | left]. split; [done|]. intros _. split; [by rewrite lookup_delete_eq|].
    intros name Hne. by rewrite lookup_delete_ne.
  - unfold mret, st_ret. intros [= <- <-]. cbn [with_store store disk]. unfold without. rewrite Hon. split; [done|]. left.
    split; [done|]. intros _. split; [by apply eq_None_not_Some | done].
Qed.

Lemma remove_consistent id w w' : consistent w -> remove id w = (Ok tt, w') -> consistent w'.
Proof.
  intros [Hwf Hm] [(_ & [=] & _)|(_ & Hs & [[_ Hd]|[[e [=]] _]])]%remove_cases. split; rewrite Hs; [by apply without_wf|].
  cbn [without on_disk]. intros Hon. destruct (Hd Hon) as [Hnone Hsame]. exact (without_mirrored id _ _ _ (Hm Hon) Hsame Hnone).
Qed.

(** An operation keeps memory and directory together; one that fails changes
    nothing in memory. Only a removal whose deletion fails is excepted. *)
Lemma perform_consistent op w r w' : consistent w -> admissible op -> perform op w = (r, w') ->
  is_remove op = false \/ r = Ok tt -> consistent w' /\ ((exists e, r = Err e) -> store w' = store w).
Proof.
  intros Hc Ha. destruct op as [l receipt|id name|id style|id]; cbn [perform is_remove].
  - unfold mbind, st_bind. destruct (insert l receipt w) as [[id|e] w1] eqn:Hi;
      destruct (insert_consistent l receipt w _ w1 Hc Ha Hi) as [Hc1 Hs1]; unfold mret, st_ret; intros [= <- <-] _;
      (split; [done|]); [by intros [e [=]] | intros _; apply Hs1; by eexists].
  - intros Hr _. apply (update_consistent id (with_layer_name name) w r w' Hc); [intros st Hs; exact Hs | intros st; apply with_name_id | exact Hr].
  - intros Hr _. apply (update_consistent id (styled style) w r w' Hc); [intros st (Hg & Hl & Hd & _); by split_and! | reflexivity | exact Hr].
  - intros Hr [[=] | ->]. split; [by eapply remove_consistent | by intros [e [=]]].
Qed.

(** ** Opening *)

Lemma open_file_ids u d id st : layers (open u d).1 !! id = Some st -> layer_id (st_layer st) = id.
Proof.
  unfold open. induction (merge_sort older _) as [|e es IH] using rev_ind; [done|].
  rewrite foldl_snoc. destruct (foldl _ _ es) as [s warnings]. unfold open_file at 1.
  destruct (load u e.1 e.2) as [[id' st']|x] eqn:Hl; [|exact IH]. cbn [fst layers].
  intros [[<- <-]|[_ Hs]]%lookup_insert_Some; [|by apply IH]. unfold load in Hl. destruct (u e.1); [done|].
  unfold load_text in Hl. apply bind_ok in Hl as (p & _ & Hl). apply bind_ok in Hl as (fs & _ & Hl).
  apply seq_ok in Hl as [Hid%err_unless_ok%bool_decide_eq_true Hl]. injection Hl as <- <-. exact Hid.
Qed.

Abbreviation readable := (fun _ : string => None : option string).

Lemma open_loads (es : list (string * File)) : NoDup (map fst es) ->
  (forall e, e ∈ es -> exists id st, e.1 = layer_file id /\ load_text (content e.2) = Ok (id, st)) ->
  exists s, foldl (open_file readable) (mkStore true ∅ [], []) es = (s, [])
    /\ map layer_file (order s) = map fst es
    /\ forall id st, layers s !! id = Some st <-> exists f, (layer_file id, f) ∈ es /\ load_text (content f) = Ok (id, st).
Proof.
  induction es as [|[name f] es IH] using rev_ind; intros Hn Hes.
  { exists (mkStore true ∅ []). split_and!; [done | done |]. intros id st. split; [done | by intros (f & []%not_elem_of_nil & _)]. }
  rewrite map_app in Hn. apply NoDup_app in Hn as (Hn & Hfresh & _).
  destruct IH as (s & Hs & Ho & Hl); [done | intros e He; apply Hes, elem_of_app; by left |].
  destruct (Hes (name, f)) as (id & st & Hname & Hload); [apply elem_of_app; right; apply list_elem_of_here|].
  cbn [fst snd] in Hname, Hload. subst name.
  exists (mkStore true (<[id := st]> (layers s)) (order s ++ [id])). rewrite foldl_snoc, Hs. unfold open_file, load. cbn [fst snd].
  rewrite Hload. split_and!; [done | cbn [order]; by rewrite !map_app, Ho |]. intros id' st'. cbn [layers].
  rewrite lookup_insert_Some, Hl. setoid_rewrite elem_of_app. setoid_rewrite list_elem_of_singleton. split.
  - intros [[<- <-]|[Hne (g & Hg & Hlg)]]; [exists f; split; [by right | done] | exists g; split; [by left | done]].
  - intros (g & [Hg|Hg] & Hlg).
    + destruct (decide (id = id')) as [<-|Hne]; [|right; split; [done | by exists g]].
      exfalso. apply (Hfresh (layer_file id)); [by apply (list_elem_of_fmap_2 fst _ _ Hg) | apply list_elem_of_here].
    + injection Hg as Hid ->. apply layer_file_inj in Hid as ->. rewrite Hload in Hlg. injection Hlg as ->. by left.
Qed.

(** The files [open] reads, oldest first *)
Definition layer_entries (d : directory) : list (string * File) :=
  merge_sort older (List.filter (fun e => is_layer_file e.1) (map_to_list d)).
Lemma layer_entries_elem d name f : (name, f) ∈ layer_entries d <-> d !! name = Some f /\ is_layer_file name = true.
Proof.
  unfold layer_entries. by rewrite merge_sort_Permutation, list_elem_of_In, filter_In, <-list_elem_of_In, elem_of_map_to_list.
Qed.
Lemma layer_entries_nodup d : NoDup (map fst (layer_entries d)).
Proof.
  unfold layer_entries. rewrite (Permutation_map fst (merge_sort_Permutation older _)).
  pose proof (NoDup_fst_map_to_list d) as Hk. revert Hk. generalize (map_to_list d).
  induction l as [|e l IH]; intros Hk; [apply NoDup_nil_2|]. cbn [List.filter]. apply NoDup_cons in Hk as [He Hk].
  destruct (is_layer_file e.1); [|by apply IH]. cbn [map]. apply NoDup_cons. split; [|by apply IH].
  intros (e' & Heq & Hin)%list_elem_of_fmap. apply He. rewrite Heq. apply list_elem_of_fmap_2.
  by apply list_elem_of_In, filter_In, proj1, list_elem_of_In in Hin.
Qed.

Lemma open_on_disk u es acc : on_disk acc.1 = true -> on_disk (foldl (open_file u) acc es).1 = true.
Proof.
  revert acc. induction es as [|e es IH]; intros [t ws] Ht; [done|]. cbn [foldl]. apply IH. unfold open_file.
  by destruct (load _ _ _) as [[]|].
Qed.

(** Opening the directory of a consistent store gives its layers. *)
Lemma reopen w : consistent w -> on_disk (store w) = true -> exists s, open readable (disk w) = (s, [])
  /\ layers s = layers (store w) /\ order s ≡ₚ order (store w) /\ on_disk s = true.
Proof.
  intros [[Hids Hst Hd Ho] Hm] Hon. specialize (Hm Hon). destruct Hm as [Hfile Honly].
  pose proof (layer_entries_elem (disk w)) as Hes.
  assert (Hown : forall name f, (name, f) ∈ layer_entries (disk w) ->
    exists id st, name = layer_file id /\ layers (store w) !! id = Some st /\ load_text (content f) = Ok (id, st)).
  { intros name f [Hdn Hln]%Hes. destruct (Honly name Hln) as (id & -> & [st Hlay]); [by eexists|].
    destruct (Hfile id st Hlay) as (g & Hg & Hload). rewrite Hdn in Hg. injection Hg as <-. by exists id, st. }
  destruct (open_loads _ (layer_entries_nodup (disk w))) as (s & Hs & Hord & Hl).
  { intros [name f] (id & st & -> & _ & Hload)%Hown. by exists id, st. }
  assert (Hlayers : forall id st, layers s !! id = Some st <-> layers (store w) !! id = Some st).
  { intros id st. rewrite Hl. split.
    - intros (f & (id' & st' & Heq%layer_file_inj & Hlay & Hload')%Hown & Hload). congruence.
    - intros Hlay. destruct (Hfile id st Hlay) as (g & Hg & Hload). exists g. rewrite Hes. split; [|done]. split; [done|].
      rewrite <-(Hids id st Hlay). apply layer_id_file. }
  assert (Hmem : forall id, id ∈ order s <-> layer_file id ∈ map fst (layer_entries (disk w))).
  { intros id. rewrite <-Hord. split; [apply (list_elem_of_fmap_2 layer_file)|].
    intros (id' & ->%layer_file_inj & Hin)%list_elem_of_fmap. exact Hin. }
  exists s. split; [exact Hs|]. split_and!.
  - apply map_eq. intros id. apply option_eq. intros st. apply Hlayers.
  - apply NoDup_Permutation; [|exact Hd|].
    + apply (NoDup_fmap_1 layer_file). change (NoDup (map layer_file (order s))). rewrite Hord. apply layer_entries_nodup.
    + intros id. rewrite Ho, Hmem. split.
      * intros ([name f] & Heq & (id' & st & -> & Hlay & _)%Hown)%list_elem_of_fmap. cbn [fst] in Heq.
        apply layer_file_inj in Heq as ->. by eexists.
      * intros [st Hlay]. apply Hlayers, Hl in Hlay as (f & Hin & _). exact (list_elem_of_fmap_2 fst _ _ Hin).
  - pose proof (open_on_disk readable (layer_entries (disk w)) (mkStore true ∅ [], []) eq_refl) as Hinv. by rewrite Hs in Hinv.
Qed.

(** The state a list of operations leads to, and what each returned *)
Fixpoint performs (ops : list store_op) (w : World) : list (result ToolkitError unit) * World :=
  match ops with
  | [] => ([], w)
  | op :: ops => let '(r, w') := perform op w in let '(rs, w'') := performs ops w' in (r :: rs, w'')
  end.
(** No removal's deletion failed. *)
Definition removals_done (ops : list store_op) (rs : list (result ToolkitError unit)) : Prop :=
  Forall2 (fun op r => is_remove op = true -> forall e, r <> Err (TE_Io e)) ops rs.

Lemma removal_refused op w e w' : perform op w = (Err e, w') -> is_remove op = true -> (forall x, e <> TE_Io x) -> w' = w.
Proof.
  destruct op as [| | |id]; try done. cbn [perform]. intros [(_ & _ & Hw)|(_ & _ & [[[=] _]|[[x [= ->]] _]])]%remove_cases _ He; [exact Hw|].
  by destruct (He x).
Qed.

(** An operation keeps memory and directory together, and one that fails leaves
    memory as it was. *)
Lemma step_consistent op w r w' : consistent w -> admissible op -> perform op w = (r, w') ->
  (is_remove op = true -> forall e, r <> Err (TE_Io e)) -> consistent w' /\ ((exists e, r = Err e) -> store w' = store w).
Proof.
  intros Hc Ha Hp Hr. destruct (is_remove op) eqn:Hop; [|by eapply perform_consistent; [..|left]].
  destruct r as [[]|e]; [by eapply perform_consistent; [..|right]|].
  rewrite (removal_refused _ _ _ _ Hp Hop (fun x He => Hr eq_refl x (f_equal Err He))). done.
Qed.

Lemma performs_consistent ops w rs w' : consistent w -> Forall admissible ops -> performs ops w = (rs, w') ->
  removals_done ops rs -> consistent w'.
Proof.
  revert w rs. induction ops as [|op ops IH]; intros w rs Hc Ha; cbn [performs]; [by intros [= <- <-]|].
  destruct (perform op w) as [r w1] eqn:Hp, (performs ops w1) as [rs1 w2] eqn:Hps. intros [= <- <-] [Hr Hrs]%Forall2_cons_1.
  apply Forall_cons in Ha as [Ha Has]. eapply (IH w1); [|exact Has | exact Hps | exact Hrs].
  exact (proj1 (step_consistent _ _ _ _ Hc Ha Hp Hr)).
Qed.

Lemma on_disk_kept op w r w' : perform op w = (r, w') -> on_disk (store w') = on_disk (store w).
Proof.
  assert (Hu : forall id f, update_stored id f w = (r, w') -> on_disk (store w') = on_disk (store w)).
  { intros id f. unfold update_stored, read_store, lift, put_layer, modify, mbind, st_bind.
    destruct (ok_or _ _) as [st|e]; [|by intros [= _ <-]].
    destruct (persist id (f st) w) as [[[]|e] w1] eqn:Hp; apply persist_cases in Hp as [Hs _]; intros [= _ <-]; cbn [with_store store on_disk]; by rewrite Hs. }
  destruct op as [l receipt|id name|id style|id]; cbn [perform]; [|apply Hu|apply Hu|].
  - unfold insert, read_store, modify, mret, st_ret, mbind, st_bind. set (stored := mkStored l receipt _).
    destruct (persist (layer_id l) stored w) as [[[]|e] w1] eqn:Hp; apply persist_cases in Hp as [Hs _]; intros [= _ <-]; cbn [with_store store on_disk]; by rewrite Hs.
  - by intros [(_ & _ & ->)|(_ & -> & _)]%remove_cases.
Qed.
Lemma performs_on_disk ops w : on_disk (store (performs ops w).2) = on_disk (store w).
Proof.
  revert w. induction ops as [|op ops IH]; intros w; cbn [performs]; [done|].
  destruct (perform op w) as [r w1] eqn:Hp, (performs ops w1) as [rs w2] eqn:Hps. cbn [snd].
  rewrite <-(on_disk_kept _ _ _ _ Hp), <-(IH w1), Hps. done.
Qed.

(** An opened directory with no layer file, at any time and with any faults ahead *)
Definition empty_world (now : N) (fs : list (option Fault)) : World := mkWorld (mkStore true ∅ []) ∅ now fs.
Lemma empty_consistent now fs : consistent (empty_world now fs).
Proof.
  split; [split; cbn; try done; [apply NoDup_nil_2|]|].
  - intros id. rewrite lookup_empty. split; [by intros ?%not_elem_of_nil | by intros []].
  - intros _. split; cbn; [done|]. intros name _. rewrite lookup_empty. by intros [].
Qed.

(** C33: A restart restores the store. After any insertions, renamings, restylings and
    removals on a fresh directory, of layers, receipts and styles that leave a file
    within the depth serde_json reads, whatever file-system calls fail in between (a
    half-written file included, a failed deletion excepted), [open] warns of no file
    and gives back the layers in memory, with names, receipts and styles, in some
    order without repetition; an operation that failed changed nothing in memory.
    And whatever files a directory holds, a layer is served only under the identity
    of its content. *)
Theorem restart_restores_layers (now : N) (fs : list (option Fault)) (ops : list store_op) (rs : list (result ToolkitError unit)) (w : World) :
  Forall admissible ops -> performs ops (empty_world now fs) = (rs, w) -> removals_done ops rs ->
  (exists s, open readable (disk w) = (s, []) /\ layers s = layers (store w) /\ order s ≡ₚ order (store w) /\ NoDup (order s))
  /\ (forall op r w', admissible op -> perform op w = (r, w') -> (is_remove op = true -> forall e, r <> Err (TE_Io e)) ->
       (exists e, r = Err e) -> store w' = store w)
  /\ forall u d id st, layers (open u d).1 !! id = Some st -> layer_id (st_layer st) = id.
Proof.
  intros Ha Hp Hr. pose proof (performs_consistent _ _ _ _ (empty_consistent now fs) Ha Hp Hr) as Hc.
  assert (Hon : on_disk (store w) = true) by (pose proof (performs_on_disk ops (empty_world now fs)) as Hk; by rewrite Hp in Hk).
  split; [|split; [|exact open_file_ids]].
  - destruct (reopen w Hc Hon) as (s & Hs & Hl & Ho & _). exists s. split_and!; [exact Hs | exact Hl | exact Ho |].
    rewrite Ho. exact (wf_distinct _ (cs_wf _ Hc)).
  - intros op r w' Hop Hstep Hrem. exact (proj2 (step_consistent _ _ _ _ Hc Hop Hstep Hrem)).
Qed.

(** A removal whose deletion fails forgets the layer until the next restart, which
    brings it back. *)
Lemma failed_removal_returns id w e w' : consistent w -> remove id w = (Err (TE_Io e), w') ->
  layers (store w') !! id = None /\ exists s, open readable (disk w') = (s, []) /\ is_Some (layers s !! id).
Proof.
  intros Hc [(_ & [=] & _)|(Hin & Hs & [[[=] _]|[_ [Hon Hd]]])]%remove_cases. split; [rewrite Hs; apply lookup_delete_eq|].
  destruct (reopen w Hc Hon) as (s & Hopen & Hl & _). exists s. by rewrite Hd, Hl.
Qed.
(** A style of 127 levels, which a request may hold, is written over the layer's good
    file, and the file is then refused: the layer is lost at the next restart. *)
Lemma deep_style_loses_layer (Hlimit : forall p t, (128 <= persisted_depth p)%N -> persisted_to_text p = Ok t -> exists e, persisted_of_text t = Err e)
    id style w w' : on_disk (store w) = true -> (127 <= json_depth style)%N -> set_style id style w = (Ok tt, w') ->
  exists f e, disk w' !! layer_file id = Some f /\ load_text (content f) = Err (TE_Import "store" e).
Proof.
  intros Hon Hdeep. unfold set_style, update_stored, read_store, lift, mbind, st_bind.
  destruct (ok_or _ _) as [st|]; [|discriminate]. destruct (persist id _ w) as [[[]|] w1] eqn:Hp; [|discriminate].
  unfold put_layer, modify. intros [= <-]. apply persist_cases in Hp as [_ [[[e [=]] _]|[(_ & Hoff & _)|(_ & _ & t & f & Ht & Hf & Hd & _)]]]; [congruence|].
  destruct (Hlimit (persisted id (styled style st)) t) as [e He]; [|exact Ht|].
  { unfold persisted_depth. cbn [persisted pd_style styled st_style deepest foldr]. lia. }
  exists f, e. split; [exact Hd|]. unfold load_text. by rewrite Hf, He.
Qed.
End Operations.

Module Examples.
Import Wkb.Examples.
#[local] Instance store_text : JsonText := {| json_scalar := fun _ => "x"; json_key := fun k => k |}.
#[local] Instance store_host : SvgHost := {| f64_fixed := fun _ _ => ""; number_json := fun _ => JNull; sha256_hex := String.rev |}.
Definition empty_layer (crs name : string) : Layer := layer_new name crs CS_Declared.
(** Layers without rows in two systems; the text is the system's letter and the name. *)
Definition short_text (p : Persisted) : result string string :=
  match p with
  | mkPersisted format id name crs CS_Declared [] (mkProvenance EmptyString None None None EmptyString None [] None None []) JNull JNull [] =>
      if String.eqb format "genegis-layer-store-v1" && String.eqb id (layer_id (empty_layer crs name)) then
        if String.eqb crs "EPSG:4326" then Ok ("a" +:+ name) else if String.eqb crs "EPSG:3857" then Ok ("b" +:+ name) else Err "unsupported"
      else Err "unsupported"
  | _ => Err "unsupported"
  end.
Definition of_short_text (t : string) : result string Persisted :=
  match t with
  | String c name =>
      let crs := if Ascii.eqb c "a" then "EPSG:4326" else "EPSG:3857" in
      Ok (mkPersisted "genegis-layer-store-v1" (layer_id (empty_layer crs name)) name crs CS_Declared [] default_provenance JNull JNull [])
  | EmptyString => Err "empty"
  end.
#[local] Instance short_codec : StoreCodec := {|
  persisted_to_text := short_text; persisted_of_text := of_short_text;
  geometry_to_json := fun _ => JNull; geometry_from_json := fun _ => Err (TE_Provider "no shape") |}.

Lemma short_codec_reads p t : (persisted_depth p < 128)%N -> persisted_to_text p = Ok t -> persisted_of_text t = Ok p.
Proof.
  intros _. change (short_text p = Ok t -> of_short_text t = Ok p).
  destruct p as [pf id name crs status flds pr r y fts]. unfold short_text.
  destruct status; try discriminate. destruct flds; try discriminate. destruct pr as [u h li a pf' t' ps o wd ns].
  destruct u, h, li, a, pf', t', ps, o, wd, ns; try discriminate. destruct r, y; try discriminate. destruct fts; try discriminate.
  destruct (String.eqb_spec pf "genegis-layer-store-v1") as [->|]; cbn [andb]; [|discriminate].
  destruct (String.eqb_spec id (layer_id (empty_layer crs name))) as [->|]; [|discriminate].
  destruct (String.eqb_spec crs "EPSG:4326") as [->|]; [by intros [= <-]|].
  destruct (String.eqb_spec crs "EPSG:3857") as [->|]; [by intros [= <-] | discriminate].
Qed.

Definition written : list store_op :=
  [OpInsert (empty_layer "EPSG:4326" "wards") JNull; OpInsert (empty_layer "EPSG:3857" "roads") JNull;
   OpInsert (empty_layer "EPSG:3857" "roads") JNull; OpRename (layer_id (empty_layer "EPSG:4326" "wards")) " 区 "].
(** The second write stops in the middle of the file. *)
Definition faulty : list (option Fault) := [None; None; Some (mkFault "disk full" (Some "b"))].

Lemma restart_restores_layers_witness :
  (performs written (empty_world 0 faulty)).1 = [Ok tt; Err (TE_Io "disk full"); Ok tt; Ok tt]
  /\ exists s, open (fun _ => None) (disk (performs written (empty_world 0 faulty)).2) = (s, []) /\ size (layers s) = 2%nat.
Proof.
  assert (Hr : (performs written (empty_world 0 faulty)).1 = [Ok tt; Err (TE_Io "disk full"); Ok tt; Ok tt]) by (vm_compute; reflexivity).
  split; [exact Hr|].
  destruct (restart_restores_layers short_codec_reads 0 faulty written (performs written (empty_world 0 faulty)).1
    (performs written (empty_world 0 faulty)).2) as ((s & Hs & Hl & _) & _).
  - assert (Hempty : forall crs name, storable (empty_layer crs name) JNull JNull)
      by (intros crs name; split_and!; [intros f g Hf; destruct (not_elem_of_nil _ Hf) | reflexivity..]).
    repeat apply Forall_cons_2; try apply Forall_nil_2; exact I || apply Hempty.
  - destruct (performs _ _). reflexivity.
  - rewrite Hr. repeat apply Forall2_cons_2; try apply Forall2_nil_2; intros Hf; discriminate Hf.
  - exists s. split; [exact Hs|]. rewrite Hl. vm_compute. reflexivity.
Defined.

(** Opening lists by the time of the last write, not by insertion. *)
Example renamed_comes_last :
  let w := (performs written (empty_world 0 faulty)).2 in
  (map (fun s => layer_name (st_layer s)) (listed (store w)), map (fun s => layer_name (st_layer s)) (listed (open (fun _ => None) (disk w)).1))
  = (["区"; "roads"], ["roads"; "区"]).
Proof. vm_compute. reflexivity. Qed.

(** A copy of a layer's file lists the layer twice. *)
Definition copied : LayerStore :=
  (open (fun _ => None) {[ "lyr_a.json" := mkFile 0 "awards"; "lyr_b.json" := mkFile 1 "awards" ]}).1.
Example copied_file_lists_twice : map (fun s => layer_name (st_layer s)) (listed copied) = ["wards"; "wards"] /\ size (layers copied) = 1%nat.
Proof. vm_compute. split; reflexivity. Qed.
End Examples.
